(* ===== verification/_CoqProject ===== *)
-Q . S2P
Prelude.v
TailQ.v
RbTree.v
RbTreeTheory.v
RbRotate.v
RbBalance.v
RbSearch.v
RbIter.v
RbInsert.v
RbRemove.v
RbScan.v
BpfFilter.v
FdTree.v
FdOps.v
Lockf.v
LockfTheory.v
LockfSetlock.v
LockfSystem.v
LockMgr.v
LockMgrTheory.v
LockMgrSystem.v
Mutex.v
MutexTheory.v
MutexSystem.v
MutexInv.v
MutexSafe.v
MutexProps.v
Token.v
TokenTheory.v
TokenSystem.v
TokenSafe.v
TokenThreads.v
TokenSteps.v
TokenOrder.v
TokenInv.v
TokenLive.v
TokenProps.v
Blist.v
BlistTheory.v
HammerKey.v
HammerTree.v
HammerTheory.v
HammerIter.v
HammerUpdate.v
Quad.v
QuadTheory.v
QuadDiv.v
QuadDivTheory.v
Qsort.v
QsortTheory.v
Strtol.v
StrtolTheory.v
Fnmatch.v
FnmatchTheory.v
MsdosTime.v
MsdosTimeTheory.v
MsdosName.v
MsdosNameTheory.v
MsdosShort.v
MsdosType.v
