(* ===== verification/Prelude.v ===== *)
(** * A verification development for the DragonFly BSD 3.0.2 kernel

    This library models, as executable definitions, parts of the kernel under
    src/sys whose correctness is a matter of algorithms and data structures,
    and proves what they promise.  This file is its root: the documentation
    below, then the vocabulary that all the parts share (C integers at their
    width, bit lemmas, finite sums, lists, tactics, two hint databases).

    ** The parts and their files

    - _The BPF filter machine_, BpfFilter.v: sys/net/bpf_filter.c and
      sys/net/bpf.h.  [bpf_filter] is the loop of the interpreter with every
      case of its switch, run with fuel; a packet is a contiguous buffer or a
      chain of mbufs ([m_xword], [m_xhalf], [MINDEX]); [bpf_validate] is the
      check made when a program is installed.
    - _The descriptor table_, FdTree.v: the [fd_files] array of
      sys/kern/kern_descrip.c and sys/sys/filedesc.h, an in-place binary tree
      that counts the slots in use below each slot; [fdalloc],
      [fdreserve_locked], [fdgrow_locked], [fsetfd_locked], [funsetfd_locked].
    - _Files and descriptor system calls_, FdOps.v, on top of FdTree.v: the
      reference counts of struct file, [closef], [fdrop], [kern_close],
      [kern_closefrom], [fdcloseexec], [kern_dup], [fdcopy].
    - _Advisory record locks_, Lockf.v (definitions, all of
      sys/kern/kern_lockf.c), on the tail queues of TailQ.v
      (sys/sys/queue.h): setting, splitting, merging and clearing byte ranges,
      F_GETLK, blocked requests, deadlock detection, the accounts of POSIX
      locks.  LockfTheory.v proves the pieces of [lf_setlock], LockfSetlock.v
      one call of it, LockfSystem.v any sequence of calls, sleeps, wakeups and
      signals as a step relation.
    - _Red-black trees_, RbTree.v (definitions: the RB_ macros of
      sys/sys/tree.h, on entries in memory).  RbTreeTheory.v says which tree
      the entries represent, seen from any place in it; RbRotate.v has the
      rotations, RbBalance.v the rules of colours and heights, RbSearch.v the ways
      down from the root, RbIter.v the neighbours, RbInsert.v, RbRemove.v and
      RbScan.v the insertion, the removal and the scans.
    - _The lock manager_, LockMgr.v (definitions, all of
      sys/kern/kern_lock.c): [lockmgr] cut at its sleeps.  LockMgrTheory.v
      says what each stretch does to the lock and to what its thread holds,
      LockMgrSystem.v is the step relation of any number of threads, whose
      TDF_DEADLKTREAT uiomove() of sys/kern/kern_subr.c sets and clears.
    - _Mutexes_, Mutex.v (definitions, all of sys/kern/kern_mutex.c and
      sys/sys/mutex2.h, one shared memory access per step).  MutexTheory.v
      has the word of a mutex as flags and a count and its ring as a list;
      MutexSystem.v is the step relation of any number of threads; MutexInv.v
      the invariant and how each kind of step keeps it; MutexSafe.v every
      function of a careful thread; MutexProps.v what the mutex guarantees
      and what goes wrong.
    - _LWKT tokens_, Token.v (definitions, all of sys/kern/lwkt_token.c and
      what lwkt_switch does with tokens, one shared memory access per step).
      TokenTheory.v has one token and the references to it, TokenSystem.v the
      step relation of any number of threads, TokenSafe.v one access,
      TokenThreads.v what a thread knows at each of its places, TokenSteps.v
      and TokenOrder.v each access and call of a thread, TokenInv.v the
      invariant, TokenLive.v a thread that runs alone, TokenProps.v what
      tokens guarantee.
    - _The swap block allocator_, Blist.v (definitions) and BlistTheory.v:
      the radix tree of bitmaps of sys/kern/subr_blist.c: creation,
      allocation, release, fill, copy and resize.
    - _The HAMMER B-tree_: HammerKey.v (the key order, as-of visibility and
      separators), HammerTree.v (nodes, cursor, search, lookup, splits,
      iteration, insertion, removal; hammer_btree.c and hammer_cursor.c of
      sys/vfs/hammer), HammerTheory.v (what a well-formed tree is; search and
      lookup), HammerIter.v (iteration and range scans), HammerUpdate.v
      (insertion into and removal from a leaf inside a whole tree).
    - _Quad arithmetic_: Quad.v and QuadTheory.v (the 64-bit operations of
      sys/libkern, built from 32-bit longs), QuadDiv.v and QuadDivTheory.v
      (qdivrem.c, Algorithm D in base 2^16, and its four callers).
    - _Sorting and searching_: Qsort.v and QsortTheory.v (qsort.c, bsearch.c of
      sys/libkern).
    - _Numbers from strings_: Strtol.v and StrtolTheory.v (strtol.c, strtoul.c,
      strtoq.c, strtouq.c of sys/libkern, and sys/sys/ctype.h).
    - _File name patterns_: Fnmatch.v and FnmatchTheory.v (fnmatch.c and
      index.c of sys/libkern).
    - _MS-DOS names and times_: MsdosTime.v and MsdosTimeTheory.v (time
      stamps), MsdosName.v (short names, long names in directory slots; all of
      sys/vfs/msdosfs/msdosfs_conv.c), MsdosNameTheory.v (long names are read
      back), MsdosShort.v (short names are read back), MsdosType.v (what a
      short name looks like).

    FdOps.v calls FdTree.v through its functions, as the code does; the other
    parts are independent of each other in the source and here.

    ** How code corresponds to definitions

    A definition has the name of the C function, macro or structure it
    translates, in a Module per part.  A structure is a Record whose state is
    passed explicitly; an array is a list or a map from indices; a pointer
    into a shared structure is a key of a map (an offset of a HAMMER node, an
    index of a file).  A panic, a failed KKASSERT and an access outside an
    array are answers of their own ([None] or an error constructor), so a
    theorem that says a function returns says that no such thing happens.
    Integers are Z with the wrap of their C type written where the operation
    can wrap ([u32], [u64], [s32], ... below).

    ** Fuel

    A loop or recursion that is not structural takes fuel, and the theorems
    give an amount that is enough: the length of the program for a validated
    BPF program, whose jumps go forward only; the number of slots for the
    descriptor walks; the height of the tree for the recursion of a block
    list (the radix is divided by 16 at each level, so the height is fixed by
    the size) ; for the HAMMER search and iterations a number computed from
    the tree (its height, and the number of its elements and nodes).
    [lf_setlock] calls itself at most once, so 2 is enough for it; its clip
    loop gets the length of the queue; the loops of the multiprecision
    division run over at most four digits; those of the MS-DOS conversions over
    the length of a name or the years of the format; kqsort and kbsearch get
    one more than the number of elements, which bounds the recursion as well;
    the scans of strings and patterns their length; the loops of a red-black
    tree the number of objects in memory, which no tree exceeds.  None of the theorems
    reads "if it returns".

    ** Sleeping threads

    A function that sleeps is cut at its sleeps: a stretch of code between two
    sleeps is one function from state to state, because a token or a spinlock
    protects it, and what the thread needs to go on is part of the state (a
    range structure on a queue, a [frame]).  A step relation lets any thread
    take its next stretch at any time, so its reachable states are those of
    all interleavings; invariants are proved by induction on the steps.

    ** What the theorems show

    - BPF: a program that passes [bpf_validate] runs to a return without
      reading outside its scratch memory or its code, whatever the packet, and
      outside the packet only for a half-word load that meets an empty mbuf;
      without absolute half-word and indexed loads it computes the same on a
      packet in one buffer and on the same bytes in a chain of mbufs of three
      bytes or more; the accessors read the bytes they mean to; the cases where
      the two layouts differ are exhibited.
    - Descriptors: [fdalloc] returns the lowest free descriptor not below
      the one asked for, and an error only for its cause; release keeps
      the counts right; the system calls have their effect on table and
      reference counts, and fork's copy shares each file exactly once; a
      descriptor above the limit, and a dup refused for the quota of open
      files, are exhibited.
    - Record locks: one call replaces exactly the requested bytes of its
      owner, keeps the queue sorted and the accounts right, or changes
      nothing and says why; under all interleavings no two owners hold locks
      that exclude each other and no blocked request is forgotten; unlocking a
      whole file cannot fail; F_GETLK agrees with F_SETLK; an unlock that
      leaves F_NOEND behind is exhibited.
    - Red-black trees: insertion and removal keep a red-black tree in memory,
      with its parent pointers, and change the sequence of its elements as
      they should; a lookup makes a logarithmic number of comparisons; the
      iterations and scans follow the sequence, whatever a scan's callback
      removes.
    - Lock manager: mutual exclusion, exact counts and no panic under all
      interleavings; requests that must not wait return at once with the
      answer the lock's state calls for; two upgrades that put each other to
      sleep until a third thread shares the lock within uiomove(), which may be
      never, and an interrupted request that loses a wakeup, are exhibited.
    - Mutexes: for threads without signals, timeouts, aborts and downgrades no
      assertion fails in any interleaving, exclusive holders are alone, and the
      count is exact; a lost wakeup that leaves the mutex locked for ever, two
      exclusive holders after an interrupted wait, and a downgrade that frees
      the mutex are exhibited.
    - Tokens: no assertion fails in any interleaving, exclusive holders are
      alone, the word counts the shared references; a thread gets its tokens
      back in a bounded number of accesses when nobody has them; the order of
      the scheduler is sorted and stable; what the kernel's questions about
      tokens answer; sharers that starve an exclusive request are exhibited.
    - Block lists: a list represents a set of free blocks; each operation
      refines the operation on sets, [blist_alloc] finds a run whenever the
      hints promise one, and the panics happen exactly where they are meant to.
    - HAMMER: the key comparison is a total order; the separator lies between
      its leaves; on a well-formed tree, which holds a sequence of elements, a
      search that does not insert or prune, the as-of lookup at a time that is
      not the create_tid of a boundary, and the iterations without reblocking
      and mirror filter find precisely the element they should (the range scan
      only without an as-of time); insertion into and removal from a leaf keep
      the tree well formed and change that sequence as they should; a version
      that the as-of lookup misses on a boundary is exhibited.  The splits of an
      inserting search are modelled, but no theorem is about them.
    - Quad arithmetic: every operation is the 64-bit one; division returns the
      quotient and remainder, inside its arrays, for every divisor but 0.
    - Sorting: kqsort permutes its range, and sorts it if the comparison is an
      order; a search of what it has sorted finds what is there; an array too
      large for its counters of type int is exhibited.
    - Numbers: the four conversions give the value of the numeral, or the
      limit of the type, and the place where the numeral ends.
    - Patterns: kfnmatch agrees with a matcher on the tokens of the pattern,
      as far as its limit on recursion and its treatment of periods allow;
      both limits are exhibited.
    - MS-DOS: times, long names and short names that are written are read
      back (times to 10 milliseconds, if adjkerntz is zero unless the clock
      keeps local time; long names of up to 127 characters without a dot or a
      blank at the end; short names up to trailing blanks and dots); what is
      made of a name always fits the format of short names.  For names this is
      on mounts without character set conversion: the calls to the converter
      are in the definitions, but no theorem is about them.

    ** What is not modelled, and why

    Concurrency inside the descriptor table, the block lists and HAMMER: one
    thread runs at a time, so spinlocks and tokens are left out, and with them
    HAMMER's deadlock recovery and the tracked cursors of other threads.  Of
    the record locks, allocations that sleep and the short sleep against
    livelocks; of the lock manager, its debugging records.  Of the mutexes
    and tokens, weaker memory orders than sequential consistency; of the
    scheduler, everything but what it does with tokens.  Of sys/tree.h, the
    splay trees, RB_AUGMENT and the spinlock of the scans.  Of the MS-DOS file
    system, the tables of the kiconv module (parameters here), the FAT and the
    vnode operations.  Of HAMMER, the removal of emptied nodes
    ([btree_remove]), the mirroring transaction ids, rebalancing, reblocking, the buffer layer and
    the on-disk allocator.  The rest of the kernel (network stack, virtual
    memory, file systems, scheduling, drivers, boot) and all of userland and
    the vendored code under contrib are outside this library: most of it is
    input and output, hardware access or glue over the parts that matter
    here, and the algorithmic parts among them are future work. *)

From Stdlib Require Import ZArith Lia Bool.
From stdpp Require Import base list gmap.

(** * Machine integers

    A C integer is the mathematical integer it denotes; every operation that
    can wrap is followed by the wrap of its type. *)

Global Open Scope Z_scope.

Declare Scope cint_scope.
Delimit Scope cint_scope with C.

(** Conversion to an unsigned type of [w] bits. *)
Definition unsigned_of (w x : Z) : Z := x mod 2 ^ w.

(** Conversion to a signed (two's complement) type of [w] bits. *)
Definition signed_of (w x : Z) : Z :=
  let y := x mod 2 ^ w in if y <? 2 ^ (w - 1) then y else y - 2 ^ w.

Abbreviation u8 := (unsigned_of 8).
Abbreviation u16 := (unsigned_of 16).
Abbreviation u32 := (unsigned_of 32).
Abbreviation u64 := (unsigned_of 64).
Abbreviation s8 := (signed_of 8).
Abbreviation s16 := (signed_of 16).
Abbreviation s32 := (signed_of 32).
Abbreviation s64 := (signed_of 64).

Notation "x '+u' y" := (u32 (x + y)) (at level 50, left associativity) : cint_scope.
Notation "x '-u' y" := (u32 (x - y)) (at level 50, left associativity) : cint_scope.
Notation "x '*u' y" := (u32 (x * y)) (at level 40, left associativity) : cint_scope.

(** [is_u w x]: [x] is a value of the unsigned type of [w] bits;
    [is_s w x]: of the signed one. *)
Definition is_u (w x : Z) : Prop := 0 ≤ x < 2 ^ w.
Definition is_s (w x : Z) : Prop := - 2 ^ (w - 1) ≤ x < 2 ^ (w - 1).

#[export] Instance is_u_dec w x : Decision (is_u w x).
Proof. unfold is_u. apply _. Defined.
#[export] Instance is_s_dec w x : Decision (is_s w x).
Proof. unfold is_s. apply _. Defined.

(** ** Tactics of the development *)

(** Turns the boolean tests of the C conditions into propositions. *)
Ltac bool_prop :=
  repeat match goal with
  | H : (_ && _)%bool = true |- _ => apply andb_true_iff in H; destruct H
  | H : (_ || _)%bool = false |- _ => apply orb_false_iff in H; destruct H
  | H : negb _ = true |- _ => apply negb_true_iff in H
  | H : negb _ = false |- _ => apply negb_false_iff in H
  | H : (_ =? _) = true |- _ => apply Z.eqb_eq in H
  | H : (_ =? _) = false |- _ => apply Z.eqb_neq in H
  | H : (_ <? _) = true |- _ => apply Z.ltb_lt in H
  | H : (_ <? _) = false |- _ => apply Z.ltb_ge in H
  | H : (_ <=? _) = true |- _ => apply Z.leb_le in H
  | H : (_ <=? _) = false |- _ => apply Z.leb_gt in H
  | H : (_ >? _) = true |- _ => rewrite Z.gtb_ltb in H; apply Z.ltb_lt in H
  | H : (_ >? _) = false |- _ => rewrite Z.gtb_ltb in H; apply Z.ltb_ge in H
  | H : (_ >=? _) = true |- _ => rewrite Z.geb_leb in H; apply Z.leb_le in H
  | H : (_ >=? _) = false |- _ => rewrite Z.geb_leb in H; apply Z.leb_gt in H
  end.

(** Case analysis on the first test of the goal. *)
Ltac case_test :=
  match goal with
  | |- context [if ?b then _ else _] =>
      lazymatch b with
      | context [if _ then _ else _] => fail
      | _ => let E := fresh "E" in destruct b eqn:E
      end
  end.

(** Case analysis on the first test of a hypothesis. *)
Ltac case_test_in H :=
  match type of H with
  | context [if ?b then _ else _] =>
      lazymatch b with
      | context [if _ then _ else _] => fail
      | _ => let E := fresh "E" in destruct b eqn:E
      end
  end.

(** Proves a closed decidable proposition by evaluation. *)
Ltac by_decide := refine (bool_decide_unpack _ _); vm_compute; exact I.

(** ** Wrap-around *)

Lemma unsigned_of_small w x : is_u w x → unsigned_of w x = x.
Proof. intros. apply Z.mod_small; assumption. Qed.

Lemma unsigned_of_range w x : 0 ≤ w → is_u w (unsigned_of w x).
Proof. intros. apply Z.mod_pos_bound. apply Z.pow_pos_nonneg; lia. Qed.

Lemma signed_of_small w x : 0 < w → is_s w x → signed_of w x = x.
Proof.
  intros Hw [Hl Hu]. unfold signed_of.
  assert (E : 2 ^ w = 2 * 2 ^ (w - 1)).
  { replace w with (Z.succ (w - 1)) at 1 by lia. apply Z.pow_succ_r; lia. }
  destruct (Z.lt_ge_cases x 0).
  - assert (E' : x mod 2 ^ w = x + 2 ^ w).
    { symmetry. apply Z.mod_unique with (-1); lia. }
    rewrite E'. destruct (x + 2 ^ w <? 2 ^ (w - 1)) eqn:T; bool_prop; lia.
  - rewrite Z.mod_small by lia.
    destruct (x <? 2 ^ (w - 1)) eqn:T; bool_prop; lia.
Qed.

Lemma signed_of_range w x : 0 < w → is_s w (signed_of w x).
Proof.
  intros Hw. unfold signed_of, is_s.
  assert (E : 2 ^ w = 2 * 2 ^ (w - 1)).
  { replace w with (Z.succ (w - 1)) at 1 by lia. apply Z.pow_succ_r; lia. }
  assert (0 < 2 ^ (w - 1)) by (apply Z.pow_pos_nonneg; lia).
  pose proof (Z.mod_pos_bound x (2 ^ w)).
  destruct (_ <? _) eqn:T; bool_prop; lia.
Qed.

(** Converting to unsigned and back is the identity on values of the type. *)
Lemma signed_of_unsigned_of w x : 0 < w → is_s w x → signed_of w (unsigned_of w x) = x.
Proof.
  intros Hw Hx. rewrite <- (signed_of_small w x Hw Hx) at 2.
  unfold signed_of, unsigned_of. rewrite Z.mod_mod; [done|].
  apply Z.pow_nonzero; lia.
Qed.

Lemma unsigned_of_signed_of w x : 0 < w → is_u w x → unsigned_of w (signed_of w x) = x.
Proof.
  intros Hw Hx. unfold signed_of, unsigned_of.
  rewrite (Z.mod_small x) by exact Hx.
  destruct (_ <? _); [by apply Z.mod_small|].
  rewrite <- (Z.mod_small x (2 ^ w)) at 2 by exact Hx.
  replace (x - 2 ^ w) with (x + (-1) * 2 ^ w) by lia.
  apply Z.mod_add. apply Z.pow_nonzero; lia.
Qed.

(** The powers of two of the usual widths, as literals for [lia]. *)
Lemma is_u8_iff x : is_u 8 x ↔ 0 ≤ x < 256.
Proof. done. Qed.
Lemma is_u16_iff x : is_u 16 x ↔ 0 ≤ x < 65536.
Proof. done. Qed.
Lemma is_u32_iff x : is_u 32 x ↔ 0 ≤ x < 4294967296.
Proof. done. Qed.
Lemma is_s32_iff x : is_s 32 x ↔ -2147483648 ≤ x < 2147483648.
Proof. done. Qed.

Ltac width :=
  rewrite ?is_u8_iff, ?is_u16_iff, ?is_u32_iff, ?is_s32_iff in *; try lia.

Create HintDb cint.
#[export] Hint Resolve unsigned_of_range signed_of_range : cint.
#[export] Hint Extern 1 (_ ≤ _) => lia : cint.
#[export] Hint Extern 1 (_ < _) => lia : cint.

(** * Outcomes

    What running kernel code can end in.  [Panic] is a call of panic(9) or a
    failed KKASSERT; [Undef] an operation whose behaviour C leaves undefined
    (a read or write outside an object, a division by zero, an oversized
    shift); [NoFuel] is an artefact of the model: a loop was given too small
    a bound. *)
Inductive fault :=
  | OutOfBounds
  | DivByZero
  | BadShift
  | NullDeref.

Inductive outcome (A : Type) :=
  | Ok (a : A)
  | Panic
  | Undef (f : fault)
  | NoFuel.
Arguments Ok {A} a.
Arguments Panic {A}.
Arguments Undef {A} f.
Arguments NoFuel {A}.

Definition obind {A B} (o : outcome A) (k : A → outcome B) : outcome B :=
  match o with
  | Ok a => k a
  | Panic => Panic
  | Undef f => Undef f
  | NoFuel => NoFuel
  end.

Declare Scope outcome_scope.
Delimit Scope outcome_scope with O.
Global Open Scope outcome_scope.
Notation "'let*' x ':=' o 'in' k" := (obind o (fun x => k))
  (at level 10, x pattern, o at level 100, k at level 200) : outcome_scope.

Lemma obind_Ok {A B} (o : outcome A) (k : A → outcome B) b :
  obind o k = Ok b ↔ ∃ a, o = Ok a ∧ k a = Ok b.
Proof. destruct o; cbn; split; [naive_solver..| |]; naive_solver. Qed.

#[export] Instance fault_eq_dec : EqDecision fault.
Proof. solve_decision. Defined.
#[export] Instance outcome_eq_dec {A} `{EqDecision A} : EqDecision (outcome A).
Proof. solve_decision. Defined.

(** A KKASSERT. *)
Definition kkassert {A} (b : bool) (k : outcome A) : outcome A := if b then k else Panic.

(** * Arrays

    A C array is a list; an access outside it is [Undef OutOfBounds]. *)
Definition aget {A} (l : list A) (i : Z) : outcome A :=
  if i <? 0 then Undef OutOfBounds
  else match l !! Z.to_nat i with
       | Some a => Ok a
       | None => Undef OutOfBounds
       end.

Definition aset {A} (l : list A) (i : Z) (a : A) : outcome (list A) :=
  if (i <? 0) || (Z.of_nat (length l) <=? i) then Undef OutOfBounds
  else Ok (<[Z.to_nat i := a]> l).

Lemma aget_in_bounds {A} (l : list A) i :
  0 ≤ i < Z.of_nat (length l) → ∃ a, aget l i = Ok a ∧ l !! Z.to_nat i = Some a.
Proof.
  intros Hi. unfold aget.
  destruct (i <? 0) eqn:E; bool_prop; [lia|].
  destruct (lookup_lt_is_Some_2 l (Z.to_nat i)) as [a Ha]; [lia|].
  exists a. by rewrite Ha.
Qed.

Lemma aget_Ok {A} (l : list A) i a :
  aget l i = Ok a ↔ 0 ≤ i ∧ l !! Z.to_nat i = Some a.
Proof.
  unfold aget. destruct (i <? 0) eqn:E; bool_prop; [split; [done|lia]|].
  destruct (l !! Z.to_nat i); split; naive_solver.
Qed.

Lemma aset_in_bounds {A} (l : list A) i a :
  0 ≤ i < Z.of_nat (length l) → aset l i a = Ok (<[Z.to_nat i := a]> l).
Proof.
  intros Hi. unfold aset.
  replace (i <? 0) with false by (symmetry; apply Z.ltb_ge; lia).
  replace (Z.of_nat (length l) <=? i) with false; [done|].
  symmetry. apply Z.leb_gt. lia.
Qed.

(** * Bits *)

Lemma testbit_high w x i : 0 ≤ w → is_u w x → w ≤ i → Z.testbit x i = false.
Proof.
  intros Hw Hx Hi. destruct (decide (x = 0)) as [->|Hx0]; [apply Z.bits_0|].
  unfold is_u in Hx. apply Z.bits_above_log2; [lia|].
  apply Z.log2_lt_pow2; [lia|].
  apply Z.lt_le_trans with (2 ^ w); [lia|]. apply Z.pow_le_mono_r; lia.
Qed.

Lemma land_is_u w x y : 0 ≤ w → is_u w x → 0 ≤ y → is_u w (Z.land x y).
Proof.
  intros Hw Hx Hy. unfold is_u in *.
  split; [apply Z.land_nonneg; lia|].
  destruct (decide (Z.land x y = 0)) as [->|Hn]; [apply Z.pow_pos_nonneg; lia|].
  assert (0 ≤ Z.land x y) by (apply Z.land_nonneg; lia).
  apply Z.log2_lt_pow2; [lia|].
  destruct (decide (x = 0)) as [->|]; [by rewrite Z.land_0_l in Hn|].
  apply Z.le_lt_trans with (Z.log2 x).
  - etransitivity; [apply Z.log2_land; lia|]. lia.
  - apply Z.log2_lt_pow2; lia.
Qed.

Lemma lor_is_u w x y : 0 ≤ w → is_u w x → is_u w y → is_u w (Z.lor x y).
Proof.
  intros Hw Hx Hy. unfold is_u in *.
  assert (0 ≤ Z.lor x y) by (apply Z.lor_nonneg; lia).
  split; [lia|].
  destruct (decide (Z.lor x y = 0)) as [->|Hn]; [apply Z.pow_pos_nonneg; lia|].
  apply Z.log2_lt_pow2; [lia|]. rewrite Z.log2_lor by lia.
  destruct (decide (x = 0)) as [->|]; destruct (decide (y = 0)) as [->|];
    rewrite ?Z.lor_0_l in Hn; try lia; apply Z.max_lub_lt;
    try (apply Z.log2_lt_pow2; lia); cbn; try lia;
    destruct (decide (w = 0)) as [->|]; cbn in *; lia.
Qed.

(** A number with no bit from [w] on. *)
Lemma is_u_bits w x : 0 ≤ x → (∀ i, w ≤ i → Z.testbit x i = false) → 0 ≤ w → is_u w x.
Proof.
  intros Hx Hb Hw. unfold is_u. split; [done|].
  destruct (decide (x = 0)) as [->|Hn]; [apply Z.pow_pos_nonneg; lia|].
  apply Z.log2_lt_pow2; [lia|]. destruct (Z.lt_ge_cases (Z.log2 x) w) as [|H]; [done|].
  specialize (Hb (Z.log2 x) H). rewrite Z.bit_log2 in Hb by lia. done.
Qed.

Lemma ldiff_is_u w x y : 0 ≤ w → is_u w x → is_u w (Z.ldiff x y).
Proof.
  intros Hw Hx. apply is_u_bits; [apply Z.ldiff_nonneg; left; apply Hx| |done].
  intros i Hi. rewrite Z.ldiff_spec, (testbit_high w x i) by done. done.
Qed.

#[export] Hint Resolve land_is_u lor_is_u ldiff_is_u : cint.

(** Every positive number is an odd one shifted. *)
Lemma odd_part x : 0 < x → ∃ k q, 0 ≤ k ∧ 0 ≤ q ∧ x = (2 * q + 1) * 2 ^ k.
Proof.
  intros Hx. rewrite <- (Z2Pos.id x Hx). generalize (Z.to_pos x) as p.
  induction p as [p _|p (k & q & Hk & Hq & E)|].
  - exists 0, (Z.pos p). lia.
  - exists (k + 1), q. split_and!; [lia..|]. rewrite Z.pow_add_r by lia. lia.
  - exists 0, 0. lia.
Qed.

(** A number split at bit [k]. *)
Lemma testbit_split a r k i :
  0 ≤ k → is_u k r → 0 ≤ i →
  Z.testbit (a * 2 ^ k + r) i = if i <? k then Z.testbit r i else Z.testbit a (i - k).
Proof.
  intros Hk Hr Hi. unfold is_u in Hr. destruct (i <? k) eqn:E; bool_prop.
  - rewrite <- (Z.mod_pow2_bits_low _ k) by lia.
    rewrite Z.add_comm, Z.mod_add, Z.mod_small by lia. done.
  - replace i with ((i - k) + k) at 1 by lia. rewrite <- Z.div_pow2_bits by lia.
    rewrite Z.add_comm, Z.div_add, Z.div_small by lia. done.
Qed.

Ltac split_bits :=
  apply Z.bits_inj'; intros i Hi;
  rewrite ?Z.lor_spec, ?Z.land_spec, ?Z.lxor_spec, !testbit_split by auto with lia cint;
  case_test; rewrite ?Z.lor_spec, ?Z.land_spec, ?Z.lxor_spec; done.

Lemma lor_split a b r s k :
  0 ≤ k → is_u k r → is_u k s →
  Z.lor (a * 2 ^ k + r) (b * 2 ^ k + s) = Z.lor a b * 2 ^ k + Z.lor r s.
Proof. intros. split_bits. Qed.

Lemma land_split a b r s k :
  0 ≤ k → is_u k r → is_u k s →
  Z.land (a * 2 ^ k + r) (b * 2 ^ k + s) = Z.land a b * 2 ^ k + Z.land r s.
Proof.
  intros Hk Hr Hs. assert (is_u k (Z.land r s)) by (apply land_is_u; [done..|apply Hs]).
  split_bits.
Qed.

Lemma ldiff_split a b r s k :
  0 ≤ k → is_u k r → is_u k s → Z.ldiff (a * 2 ^ k + r) (b * 2 ^ k + s) = Z.ldiff a b * 2 ^ k + Z.ldiff r s.
Proof.
  intros Hk Hr Hs. assert (is_u k (Z.ldiff r s)) by by apply ldiff_is_u.
  apply Z.bits_inj'; intros i Hi. rewrite Z.ldiff_spec, !testbit_split by auto with lia cint.
  case_test; by rewrite Z.ldiff_spec.
Qed.

Lemma lxor_split a b r k :
  0 ≤ k → is_u k r → Z.lxor (a * 2 ^ k + r) (b * 2 ^ k + r) = Z.lxor a b * 2 ^ k.
Proof.
  intros Hk Hr. rewrite <- (Z.add_0_r (Z.lxor a b * 2 ^ k)).
  assert (is_u k 0) by (unfold is_u in *; lia).
  apply Z.bits_inj'; intros i Hi.
  rewrite Z.lxor_spec, !testbit_split by done.
  case_test; [by rewrite xorb_nilpotent, Z.bits_0|by rewrite Z.lxor_spec].
Qed.

Lemma odd_even q :
  Z.lor (2 * q) (2 * q + 1) = 2 * q + 1 ∧ Z.land (2 * q) (2 * q + 1) = 2 * q
  ∧ Z.lxor (2 * q) (2 * q + 1) = 1.
Proof.
  assert (is_u 1 0) by (unfold is_u; lia). assert (is_u 1 1) by (unfold is_u; lia).
  replace (2 * q + 1) with (q * 2 ^ 1 + 1) by lia.
  replace (2 * q) with (q * 2 ^ 1 + 0) by lia.
  split_and!.
  - rewrite lor_split by (done || lia). by rewrite Z.lor_diag.
  - rewrite land_split by (done || lia). by rewrite Z.land_diag.
  - apply Z.bits_inj'. intros i Hi. rewrite Z.lxor_spec, !testbit_split by (done || lia).
    destruct (i <? 1) eqn:E; bool_prop.
    + replace i with 0 by lia. done.
    + rewrite xorb_nilpotent. symmetry. apply (testbit_high 1); unfold is_u; lia.
Qed.

(** * Counting

    [count u a b]: how many [i] with [a <= i < b] satisfy [u]. *)
Fixpoint count_n (u : Z → bool) (a : Z) (n : nat) : Z :=
  match n with
  | O => 0
  | S n => count_n u a n + (if u (a + Z.of_nat n) then 1 else 0)
  end.

Definition count (u : Z → bool) (a b : Z) : Z := count_n u a (Z.to_nat (b - a)).

Lemma count_n_app u a n m :
  count_n u a (n + m) = count_n u a n + count_n u (a + Z.of_nat n) m.
Proof.
  induction m as [|m IH]; [cbn; rewrite Nat.add_0_r; lia|].
  rewrite Nat.add_succ_r. cbn [count_n]. rewrite IH.
  replace (a + Z.of_nat (n + m)) with (a + Z.of_nat n + Z.of_nat m) by lia. lia.
Qed.

Lemma count_app u a b c : a ≤ b → b ≤ c → count u a c = count u a b + count u b c.
Proof.
  intros. unfold count.
  replace (Z.to_nat (c - a)) with (Z.to_nat (b - a) + Z.to_nat (c - b))%nat by lia.
  rewrite count_n_app. replace (a + Z.of_nat (Z.to_nat (b - a))) with b by lia. done.
Qed.

Lemma count_empty u a b : b ≤ a → count u a b = 0.
Proof. intros. unfold count. by replace (Z.to_nat (b - a)) with O by lia. Qed.

Lemma count_one u a : count u a (a + 1) = if u a then 1 else 0.
Proof.
  unfold count. replace (Z.to_nat (a + 1 - a)) with 1%nat by lia. cbn.
  by rewrite Z.add_0_r.
Qed.

Lemma count_n_range u a n : 0 ≤ count_n u a n ≤ Z.of_nat n.
Proof. induction n; cbn [count_n]; [lia|]. destruct (u _); lia. Qed.

Lemma count_range u a b : a ≤ b → 0 ≤ count u a b ≤ b - a.
Proof. intros. pose proof (count_n_range u a (Z.to_nat (b - a))). unfold count. lia. Qed.

Lemma count_nonneg u a b : 0 ≤ count u a b.
Proof. unfold count. apply count_n_range. Qed.

Lemma count_ext u v a b : (∀ i, a ≤ i < b → u i = v i) → count u a b = count v a b.
Proof.
  intros H. unfold count.
  assert (Hn : ∀ n, Z.of_nat n ≤ Z.max 0 (b - a) → count_n u a n = count_n v a n).
  { induction n as [|n IH]; intros Hle; [done|]. cbn [count_n].
    rewrite IH, H by lia. done. }
  apply Hn. lia.
Qed.

(** A full interval. *)
Lemma count_full u a b i : count u a b = b - a → a ≤ i < b → u i = true.
Proof.
  intros Hc Hi.
  rewrite (count_app u a i b), (count_app u i (i + 1) b), count_one in Hc by lia.
  pose proof (count_range u a i). pose proof (count_range u (i + 1) b).
  destruct (u i); [done|lia].
Qed.

(** An empty interval. *)
Lemma count_zero u a b i : count u a b = 0 → a ≤ i < b → u i = false.
Proof.
  intros Hc Hi.
  rewrite (count_app u a i b), (count_app u i (i + 1) b), count_one in Hc by lia.
  pose proof (count_range u a i). pose proof (count_range u (i + 1) b).
  destruct (u i); [lia|done].
Qed.

(** Changing one point. *)
Lemma count_update u v a b i :
  a ≤ i < b → (∀ j, a ≤ j < b → j ≠ i → u j = v j) →
  count v a b = count u a b + (if v i then 1 else 0) - (if u i then 1 else 0).
Proof.
  intros Hi H.
  rewrite (count_app u a i b), (count_app u i (i + 1) b), count_one by lia.
  rewrite (count_app v a i b), (count_app v i (i + 1) b), count_one by lia.
  rewrite (count_ext v u a i), (count_ext v u (i + 1) b).
  - lia.
  - intros j Hj. symmetry. apply H; lia.
  - intros j Hj. symmetry. apply H; lia.
Qed.

(** ** Arrays, continued *)

Lemma aset_Ok {A} (l l' : list A) i a :
  aset l i a = Ok l' ↔ 0 ≤ i < Z.of_nat (length l) ∧ l' = <[Z.to_nat i := a]> l.
Proof.
  unfold aset. destruct (_ || _) eqn:E.
  - split; [done|]. intros [Hi _]. apply orb_true_iff in E as [E|E].
    + apply Z.ltb_lt in E. lia.
    + apply Z.leb_le in E. lia.
  - bool_prop. split; [intros [= <-]; split; [lia|done]|]. by intros [_ ->].
Qed.

Lemma length_lt_lookup {A} (l : list A) (i : nat) a : l !! i = Some a → (i < length l)%nat.
Proof. apply lookup_lt_Some. Qed.

(** ** Flags

    [has_flag flags f]: the C test [flags & f]. *)
Definition has_flag (flags f : Z) : bool := negb (Z.land flags f =? 0).

Lemma has_flag_0_r x : has_flag x 0 = false.
Proof. unfold has_flag. by rewrite Z.land_0_r. Qed.

Lemma has_flag_lor_r x f g : has_flag x (Z.lor f g) = has_flag x f || has_flag x g.
Proof.
  unfold has_flag. rewrite Z.land_lor_distr_r. apply eq_true_iff_eq.
  rewrite orb_true_iff, !negb_true_iff, !Z.eqb_neq, Z.lor_eq_0_iff.
  destruct (decide (Z.land x f = 0)); tauto.
Qed.

Lemma has_flag_lor x y f : has_flag (Z.lor x y) f = has_flag x f || has_flag y f.
Proof. unfold has_flag. rewrite !(Z.land_comm _ f). apply (has_flag_lor_r f). Qed.

Lemma has_flag_ldiff x y f : has_flag (Z.ldiff x y) f = has_flag x (Z.ldiff f y).
Proof.
  unfold has_flag. do 2 f_equal. apply Z.bits_inj'. intros i Hi.
  rewrite !Z.land_spec, !Z.ldiff_spec. by destruct (Z.testbit x i), (Z.testbit y i), (Z.testbit f i).
Qed.

(** * Sums over a map *)

Section map_sum.
Context {A : Type}.
Implicit Types (f : A → Z) (m : gmap Z A).

Definition map_sum f m : Z := map_fold (λ _ a acc, f a + acc) 0 m.

Lemma map_sum_add f m i a : m !! i = None → map_sum f (<[i := a]> m) = f a + map_sum f m.
Proof. intros H. unfold map_sum. apply (map_fold_insert_L (λ _ a acc, f a + acc)); [intros; lia|done]. Qed.

Lemma map_sum_delete f m i a : m !! i = Some a → map_sum f m = f a + map_sum f (delete i m).
Proof.
  intros H. rewrite <- (map_sum_add f (delete i m) i) by apply lookup_delete_eq.
  by rewrite insert_delete_id.
Qed.

Lemma map_sum_update f m i a b :
  m !! i = Some a → map_sum f (<[i := b]> m) = map_sum f m + (f b - f a).
Proof.
  intros H. rewrite <- insert_delete_eq, map_sum_add by apply lookup_delete_eq.
  rewrite (map_sum_delete f m i a) by done. lia.
Qed.

Lemma map_sum_nonneg f m : (∀ i a, m !! i = Some a → 0 ≤ f a) → 0 ≤ map_sum f m.
Proof.
  induction m as [|i a m Hi IH] using map_ind; intros H; [done|].
  rewrite map_sum_add by done. pose proof (H i a ltac:(apply lookup_insert_eq)).
  assert (0 ≤ map_sum f m); [|lia].
  apply IH. intros j b Hj. apply (H j). rewrite lookup_insert_ne; [done|congruence].
Qed.

Lemma map_sum_member f m i a :
  (∀ i a, m !! i = Some a → 0 ≤ f a) → m !! i = Some a → f a ≤ map_sum f m.
Proof.
  intros H Hi. rewrite (map_sum_delete f m i a) by done.
  assert (0 ≤ map_sum f (delete i m)); [|lia].
  apply map_sum_nonneg. intros j b [_ Hj]%lookup_delete_Some. by apply (H j).
Qed.

Lemma map_sum_le f m b : (∀ a, f a ≤ b) → map_sum f m ≤ b * Z.of_nat (size m).
Proof.
  intros H. induction m as [|i a m' Hi IH] using map_ind; [by rewrite map_size_empty, Z.mul_0_r|].
  pose proof (H a). rewrite map_sum_add, map_size_insert_None, Nat2Z.inj_succ, Z.mul_succ_r by done. lia.
Qed.

Lemma map_sum_zero f m : (∀ i a, m !! i = Some a → f a = 0) → map_sum f m = 0.
Proof.
  induction m as [|i a m Hi IH] using map_ind; intros H; [done|].
  rewrite map_sum_add, (H i a), IH; [done| |apply lookup_insert_eq|done].
  intros j b Hj. apply (H j). rewrite lookup_insert_ne; [done|congruence].
Qed.
End map_sum.

Lemma map_sum_fmap {A B} (g : A → B) (f : B → Z) (m : gmap Z A) :
  map_sum f (g <$> m) = map_sum (λ a, f (g a)) m.
Proof.
  induction m as [|i a m Hi IH] using map_ind; [by rewrite fmap_empty|].
  rewrite fmap_insert, !map_sum_add, IH; [done|done|]. by rewrite lookup_fmap, Hi.
Qed.

Lemma map_sum_ext {A} (f g : A → Z) (m : gmap Z A) :
  (∀ i a, m !! i = Some a → f a = g a) → map_sum f m = map_sum g m.
Proof.
  induction m as [|i a m Hi IH] using map_ind; intros H; [done|].
  rewrite !map_sum_add, (H i a), IH; [done| |apply lookup_insert_eq|done..].
  intros j b Hj. apply (H j). rewrite lookup_insert_ne; [done|congruence].
Qed.
