(* ===== verification/TailQ.v ===== *)
(** Tail queues (sys/sys/queue.h): a TAILQ is the list of its elements in
    order, an element is named by its address, and a pointer that is followed
    must be to an element of the queue. *)

From stdpp Require Import base list.
From S2P Require Import Prelude.

Module TailQ.

Section tailq.
Context {A : Type} (addr : A → Z).

Implicit Types (l : list A) (a : Z) (x e : A).

(** [*a], for the address [a] of an element on the queue. *)
Fixpoint tq_find l a : option A :=
  match l with
  | [] => None
  | x :: l' => if addr x =? a then Some x else tq_find l' a
  end.

Definition deref l a : outcome A :=
  match tq_find l a with Some x => Ok x | None => Undef NullDeref end.

(** The queue from the element [a] on. *)
Fixpoint tq_from l a : list A :=
  match l with
  | [] => []
  | x :: l' => if addr x =? a then l else tq_from l' a
  end.

Definition TAILQ_FIRST l : option Z := match l with [] => None | x :: _ => Some (addr x) end.
Definition TAILQ_EMPTY l : bool := match l with [] => true | _ => false end.

Definition TAILQ_NEXT l a : option Z := TAILQ_FIRST (tail (tq_from l a)).

Fixpoint TAILQ_PREV l a : option Z :=
  match l with
  | x :: ((y :: _) as l') => if addr y =? a then Some (addr x) else TAILQ_PREV l' a
  | _ => None
  end.

Fixpoint TAILQ_INSERT_BEFORE l a e : list A :=
  match l with
  | [] => []
  | x :: l' => if addr x =? a then e :: l else x :: TAILQ_INSERT_BEFORE l' a e
  end.

Definition TAILQ_INSERT_TAIL l e : list A := l ++ [e].

Fixpoint TAILQ_REMOVE l a : list A :=
  match l with
  | [] => []
  | x :: l' => if addr x =? a then l' else x :: TAILQ_REMOVE l' a
  end.

(** An assignment to fields of the element [a]. *)
Fixpoint tq_update l a (f : A → A) : list A :=
  match l with
  | [] => []
  | x :: l' => if addr x =? a then f x :: l' else x :: tq_update l' a f
  end.

(** ** Queues split at an element *)

(** The elements of a queue have different addresses. *)
Definition tq_ok l : Prop := NoDup (addr <$> l).

Lemma tq_ok_app l1 l2 :
  tq_ok (l1 ++ l2) ↔ tq_ok l1 ∧ (∀ x y, x ∈ l1 → y ∈ l2 → addr x ≠ addr y) ∧ tq_ok l2.
Proof.
  unfold tq_ok. rewrite fmap_app, NoDup_app. split.
  - intros (H1 & H2 & H3). repeat split; [done| |done].
    intros x y Hx Hy E. apply (H2 (addr x)); [by apply list_elem_of_fmap_2|].
    rewrite E. by apply list_elem_of_fmap_2.
  - intros (H1 & H2 & H3). repeat split; [done| |done].
    intros a (x & -> & Hx)%list_elem_of_fmap (y & E & Hy)%list_elem_of_fmap.
    by apply (H2 x y).
Qed.

Lemma tq_ok_cons x l : tq_ok (x :: l) ↔ (∀ y, y ∈ l → addr y ≠ addr x) ∧ tq_ok l.
Proof.
  unfold tq_ok. rewrite fmap_cons, NoDup_cons. split; intros [H1 H2]; split; try done.
  - intros y Hy E. apply H1. rewrite <- E. by apply list_elem_of_fmap_2.
  - intros (y & E & Hy)%list_elem_of_fmap. by apply (H1 y).
Qed.

Lemma tq_ok_inj l x y : tq_ok l → x ∈ l → y ∈ l → addr x = addr y → x = y.
Proof.
  intros Hl Hx Hy E.
  apply list_elem_of_lookup in Hx as [i Hi], Hy as [j Hj].
  assert (i = j) as ->; [|congruence].
  eapply (NoDup_lookup (addr <$> l)); [done| |]; rewrite list_lookup_fmap.
  - by rewrite Hi.
  - by rewrite Hj, E.
Qed.

(** The first element with an address splits the queue. *)
Definition no_addr a l : Prop := ∀ x, x ∈ l → addr x ≠ a.

Lemma no_addr_cons a x l : no_addr a (x :: l) ↔ addr x ≠ a ∧ no_addr a l.
Proof.
  unfold no_addr. split.
  - intros H. split; [apply H; left|]. intros y Hy. apply H. by right.
  - intros [H1 H2] y [->|Hy]%elem_of_cons; auto.
Qed.

Lemma tq_ok_middle l1 x l2 :
  tq_ok (l1 ++ x :: l2) → no_addr (addr x) l1 ∧ no_addr (addr x) l2.
Proof.
  rewrite tq_ok_app, tq_ok_cons. intros (_ & H & H' & _). split.
  - intros y Hy. apply H; [done|left].
  - intros y Hy. by apply H'.
Qed.

Lemma tq_split l x : tq_ok l → x ∈ l → ∃ l1 l2, l = l1 ++ x :: l2 ∧ no_addr (addr x) l1 ∧ no_addr (addr x) l2.
Proof.
  intros Hok Hx. apply list_elem_of_split in Hx as (l1 & l2 & ->).
  exists l1, l2. split; [done|]. by apply tq_ok_middle.
Qed.

Ltac skip_to := intros H; induction_no_addr H
with induction_no_addr H :=
  match type of H with
  | no_addr _ ?l => induction l as [|y l IH]; cbn;
      [|apply no_addr_cons in H as [?%Z.eqb_neq H]; rewrite_eqb; specialize (IH H)]
  end
with rewrite_eqb :=
  repeat match goal with E : (_ =? _) = false |- _ => rewrite E; clear E end.

Lemma tq_find_app a l1 l2 : no_addr a l1 → tq_find (l1 ++ l2) a = tq_find l2 a.
Proof. by skip_to. Qed.

Lemma tq_from_app a l1 l2 : no_addr a l1 → tq_from (l1 ++ l2) a = tq_from l2 a.
Proof. by skip_to. Qed.

Lemma tq_update_app a f l1 l2 : no_addr a l1 → tq_update (l1 ++ l2) a f = l1 ++ tq_update l2 a f.
Proof. skip_to; [done|]. by rewrite IH. Qed.

Lemma TAILQ_REMOVE_app a l1 l2 : no_addr a l1 → TAILQ_REMOVE (l1 ++ l2) a = l1 ++ TAILQ_REMOVE l2 a.
Proof. skip_to; [done|]. by rewrite IH. Qed.

Lemma TAILQ_INSERT_BEFORE_app a e l1 l2 :
  no_addr a l1 → TAILQ_INSERT_BEFORE (l1 ++ l2) a e = l1 ++ TAILQ_INSERT_BEFORE l2 a e.
Proof. skip_to; [done|]. by rewrite IH. Qed.

Lemma tq_find_here x l : tq_find (x :: l) (addr x) = Some x.
Proof. cbn. by rewrite Z.eqb_refl. Qed.
Lemma tq_from_here x l : tq_from (x :: l) (addr x) = x :: l.
Proof. cbn. by rewrite Z.eqb_refl. Qed.
Lemma tq_update_here x f l : tq_update (x :: l) (addr x) f = f x :: l.
Proof. cbn. by rewrite Z.eqb_refl. Qed.
Lemma TAILQ_REMOVE_here x l : TAILQ_REMOVE (x :: l) (addr x) = l.
Proof. cbn. by rewrite Z.eqb_refl. Qed.
Lemma TAILQ_INSERT_BEFORE_here x e l : TAILQ_INSERT_BEFORE (x :: l) (addr x) e = e :: x :: l.
Proof. cbn. by rewrite Z.eqb_refl. Qed.

Lemma deref_Ok l a x : deref l a = Ok x → x ∈ l ∧ addr x = a.
Proof.
  unfold deref. induction l as [|y l IH]; cbn; [done|].
  destruct (addr y =? a) eqn:E; bool_prop.
  - intros [= ->]. split; [left|done].
  - intros [? ?]%IH. split; [by right|done].
Qed.

Lemma deref_elem l x : tq_ok l → x ∈ l → deref l (addr x) = Ok x.
Proof.
  intros Hok Hx. destruct (tq_split l x Hok Hx) as (l1 & l2 & -> & H1 & _).
  unfold deref. by rewrite tq_find_app, tq_find_here by done.
Qed.

Lemma TAILQ_NEXT_middle l1 x l2 :
  no_addr (addr x) l1 → TAILQ_NEXT (l1 ++ x :: l2) (addr x) = TAILQ_FIRST l2.
Proof. intros H. unfold TAILQ_NEXT. by rewrite tq_from_app, tq_from_here by done. Qed.

Lemma TAILQ_PREV_head x l : no_addr (addr x) l → TAILQ_PREV (x :: l) (addr x) = None.
Proof.
  intros H. revert x H. cut (∀ y a, no_addr a l → TAILQ_PREV (y :: l) a = None); [naive_solver|].
  induction l as [|z l IH]; intros y a H; cbn; [done|].
  apply no_addr_cons in H as [?%Z.eqb_neq H]. rewrite H0. by apply IH.
Qed.

Lemma TAILQ_PREV_middle l1 p x l2 :
  no_addr (addr x) l1 → addr p ≠ addr x →
  TAILQ_PREV (l1 ++ p :: x :: l2) (addr x) = Some (addr p).
Proof.
  intros H Hp. induction l1 as [|y l1 IH].
  - cbn. by rewrite Z.eqb_refl.
  - apply no_addr_cons in H as [Hy H]. specialize (IH H).
    destruct l1 as [|z l1]; cbn in *.
    + replace (addr p =? addr x) with false by (symmetry; by apply Z.eqb_neq). done.
    + apply no_addr_cons in H as [Hz H].
      replace (addr z =? addr x) with false by (symmetry; by apply Z.eqb_neq). done.
Qed.

Lemma TAILQ_PREV_Some l a p :
  TAILQ_PREV l a = Some p → ∃ l1 x y l2, l = l1 ++ x :: y :: l2 ∧ addr x = p ∧ addr y = a.
Proof.
  induction l as [|x l IH]; [done|]. destruct l as [|y l]; [done|].
  cbn [TAILQ_PREV]. destruct (addr y =? a) eqn:E; bool_prop.
  - intros [= <-]. by exists [], x, y, l.
  - intros H. destruct (IH H) as (l1 & x' & y' & l2 & -> & ? & ?). by exists (x :: l1), x', y', l2.
Qed.

End tailq.
End TailQ.
