(* ===== verification/RbTree.v ===== *)
(** Red-black trees: the RB_ macros of sys/sys/tree.h.

    The elements are objects in memory, known by their addresses; of an element
    the model has the entry that links it into the tree.  A pointer is NULL or
    the address of an element.  Where the code repeats a passage with left
    and right exchanged, the definition has the side as a parameter: [L] gives the first
    copy, [R] the second.  RB_AUGMENT is empty, as tree.h defines it unless the
    includer has done so, and the spinlock of the scans is left out. *)

From stdpp Require Import base list gmap.
From S2P Require Import Prelude.

Module RbTree.

Definition elem := positive.
Definition ptr := option elem.

Inductive color :=
  | RB_BLACK
  | RB_RED.

#[export] Instance color_eq_dec : EqDecision color.
Proof. solve_decision. Defined.

(** RB_ENTRY. *)
Record entry := Entry {
  rbe_left : ptr;
  rbe_right : ptr;
  rbe_parent : ptr;
  rbe_color : color
}.

(** RB_HEAD, with the entries in memory.  A scan in progress is its
    RB_SCAN_INFO: a number that stands for its address, and its node; the list is in the order of the links. *)
Record state := State {
  mem : gmap elem entry;
  rbh_root : ptr;
  rbh_inprog : list (nat * ptr)
}.

Definition RB_INIT (st : state) : state := State (mem st) None [].
Definition RB_EMPTY (st : state) : bool := bool_decide (rbh_root st = None).

(** * Fields *)

Definition load (st : state) (p : ptr) : outcome entry :=
  match p with
  | None => Undef NullDeref
  | Some x => match mem st !! x with Some e => Ok e | None => Undef OutOfBounds end
  end.

Definition store (st : state) (p : ptr) (f : entry → entry) : outcome state :=
  let* e := load st p in
  match p with
  | Some x => Ok (State (<[x := f e]> (mem st)) (rbh_root st) (rbh_inprog st))
  | None => Undef NullDeref
  end.

Definition RB_LEFT (st : state) (p : ptr) : outcome ptr := let* e := load st p in Ok (rbe_left e).
Definition RB_RIGHT (st : state) (p : ptr) : outcome ptr := let* e := load st p in Ok (rbe_right e).
Definition RB_PARENT (st : state) (p : ptr) : outcome ptr := let* e := load st p in Ok (rbe_parent e).
Definition RB_COLOR (st : state) (p : ptr) : outcome color := let* e := load st p in Ok (rbe_color e).

Definition set_left (v : ptr) (e : entry) : entry := Entry v (rbe_right e) (rbe_parent e) (rbe_color e).
Definition set_right (v : ptr) (e : entry) : entry := Entry (rbe_left e) v (rbe_parent e) (rbe_color e).
Definition set_parent (v : ptr) (e : entry) : entry := Entry (rbe_left e) (rbe_right e) v (rbe_color e).
Definition set_color (c : color) (e : entry) : entry := Entry (rbe_left e) (rbe_right e) (rbe_parent e) c.
Definition set_root (st : state) (v : ptr) : state := State (mem st) v (rbh_inprog st).

(** Left or right. *)
Inductive side :=
  | L
  | R.

#[export] Instance side_eq_dec : EqDecision side.
Proof. solve_decision. Defined.

Definition opp (d : side) : side := match d with L => R | R => L end.
Definition RB_CHILD (d : side) (st : state) (p : ptr) : outcome ptr := match d with L => RB_LEFT st p | R => RB_RIGHT st p end.
Definition set_child (d : side) (v : ptr) (e : entry) : entry := match d with L => set_left v e | R => set_right v e end.

Definition eqp (p q : ptr) : bool := bool_decide (p = q).
Definition null (p : ptr) : bool := eqp p None.

(** A store that is made if the pointer is not NULL. *)
Definition store_if (st : state) (p : ptr) (f : entry → entry) : outcome state := if null p then Ok st else store st p f.

(** [p && RB_COLOR(p) == RB_RED], and [p == NULL || RB_COLOR(p) == RB_BLACK]. *)
Definition is_red (st : state) (p : ptr) : outcome bool :=
  if null p then Ok false else let* c := RB_COLOR st p in Ok (bool_decide (c = RB_RED)).
Definition is_black (st : state) (p : ptr) : outcome bool :=
  if null p then Ok true else let* c := RB_COLOR st p in Ok (bool_decide (c = RB_BLACK)).

Definition RB_SET (st : state) (elm parent : ptr) : outcome state := store st elm (λ _, Entry None None parent RB_RED).

Definition RB_SET_BLACKRED (st : state) (black red : ptr) : outcome state :=
  let* st := store st black (set_color RB_BLACK) in
  store st red (set_color RB_RED).

(** The link from above: [elm] is replaced by [tmp] in its parent, or as the root. *)
Definition relink (st : state) (parent elm tmp : ptr) : outcome state :=
  if null parent then Ok (set_root st tmp)
  else
    let* l := RB_LEFT st parent in
    store st parent (if eqp elm l then set_left tmp else set_right tmp).

(** RB_ROTATE_LEFT for [L], RB_ROTATE_RIGHT for [R]. *)
Definition RB_ROTATE (d : side) (st : state) (elm : ptr) : outcome state :=
  let* tmp := RB_CHILD (opp d) st elm in
  let* x := RB_CHILD d st tmp in
  let* st := store st elm (set_child (opp d) x) in
  let* st := store_if st x (set_parent elm) in
  let* p := RB_PARENT st elm in
  let* st := store st tmp (set_parent p) in
  let* st := relink st p elm tmp in
  let* st := store st tmp (set_child d elm) in
  store st elm (set_parent tmp).

(** * Insertion *)

Fixpoint RB_INSERT_COLOR (fuel : nat) (st : state) (elm : ptr) : outcome state :=
  match fuel with
  | O => NoFuel
  | S fuel =>
      let* parent := RB_PARENT st elm in
      let* red := is_red st parent in
      if red : bool then
        let* gparent := RB_PARENT st parent in
        let* l := RB_LEFT st gparent in
        let d := if eqp parent l then L else R in
        let* tmp := RB_CHILD (opp d) st gparent in
        let* red := is_red st tmp in
        if red : bool then
          let* st := store st tmp (set_color RB_BLACK) in
          let* st := RB_SET_BLACKRED st parent gparent in
          RB_INSERT_COLOR fuel st gparent
        else
          let* x := RB_CHILD (opp d) st parent in
          let* (st, parent, elm) :=
            if eqp x elm then let* st := RB_ROTATE d st parent in Ok (st, elm, parent) else Ok (st, parent, elm) in
          let* st := RB_SET_BLACKRED st parent gparent in
          let* st := RB_ROTATE (opp d) st gparent in
          RB_INSERT_COLOR fuel st elm
      else store st (rbh_root st) (set_color RB_BLACK)
  end.

Section compare.
Context (cmp : elem → elem → Z).

(** [(cmp)(elm, tmp)] for elements that are there. *)
Definition compare (elm tmp : ptr) : outcome Z :=
  match elm, tmp with
  | Some x, Some y => Ok (cmp x y)
  | _, _ => Undef NullDeref
  end.

(** The way down: the element that compares equal, or the last one on the way and the comparison with it. *)
Fixpoint insert_descend (fuel : nat) (st : state) (elm tmp parent : ptr) (comp : Z) : outcome (ptr + ptr * Z) :=
  match fuel with
  | O => NoFuel
  | S fuel =>
      if null tmp then Ok (inr (parent, comp))
      else
        let parent := tmp in
        let* comp := compare elm parent in
        if comp <? 0 then let* tmp := RB_LEFT st tmp in insert_descend fuel st elm tmp parent comp
        else if comp >? 0 then let* tmp := RB_RIGHT st tmp in insert_descend fuel st elm tmp parent comp
        else Ok (inl tmp)
  end.

Definition RB_INSERT (st : state) (elm : ptr) : outcome (state * ptr) :=
  let* r := insert_descend (S (size (mem st))) st elm (rbh_root st) None 0 in
  match r with
  | inl tmp => Ok (st, tmp)
  | inr (parent, comp) =>
      let* st := RB_SET st elm parent in
      let* st :=
        if negb (null parent) then store st parent (if comp <? 0 then set_left elm else set_right elm)
        else Ok (set_root st elm) in
      let* st := RB_INSERT_COLOR (S (size (mem st))) st elm in
      Ok (st, None)
  end.

Fixpoint find_descend (fuel : nat) (st : state) (elm tmp : ptr) : outcome ptr :=
  match fuel with
  | O => NoFuel
  | S fuel =>
      if null tmp then Ok None
      else
        let* comp := compare elm tmp in
        if comp <? 0 then let* tmp := RB_LEFT st tmp in find_descend fuel st elm tmp
        else if comp >? 0 then let* tmp := RB_RIGHT st tmp in find_descend fuel st elm tmp
        else Ok tmp
  end.

Definition RB_FIND (st : state) (elm : ptr) : outcome ptr := find_descend (S (size (mem st))) st elm (rbh_root st).

End compare.

(** * The neighbours *)

(** To the end of one side: [while (RB_LEFT(elm)) elm = RB_LEFT(elm)]. *)
Fixpoint furthest (d : side) (fuel : nat) (st : state) (elm : ptr) : outcome ptr :=
  match fuel with
  | O => NoFuel
  | S fuel => let* x := RB_CHILD d st elm in if null x then Ok elm else furthest d fuel st x
  end.

(** Up, as long as [elm] is the child at side [d]; then one more. *)
Fixpoint climb (d : side) (fuel : nat) (st : state) (elm : ptr) : outcome ptr :=
  match fuel with
  | O => NoFuel
  | S fuel =>
      let* p := RB_PARENT st elm in
      if null p then Ok p else let* x := RB_CHILD d st p in if eqp elm x then climb d fuel st p else Ok p
  end.

(** RB_NEXT for [R], RB_PREV for [L]. *)
Definition RB_STEP (d : side) (st : state) (elm : ptr) : outcome ptr :=
  let fuel := S (size (mem st)) in
  let* x := RB_CHILD d st elm in
  if negb (null x) then furthest (opp d) fuel st x
  else
    let* p := RB_PARENT st elm in
    let* near := if null p then Ok false else let* y := RB_CHILD (opp d) st p in Ok (eqp elm y) in
    if near : bool then Ok p else climb d fuel st elm.

Definition RB_NEXT : state → ptr → outcome ptr := RB_STEP R.
Definition RB_PREV : state → ptr → outcome ptr := RB_STEP L.

Fixpoint minmax (fuel : nat) (st : state) (val : Z) (tmp parent : ptr) : outcome ptr :=
  match fuel with
  | O => NoFuel
  | S fuel =>
      if null tmp then Ok parent
      else let* x := if val <? 0 then RB_LEFT st tmp else RB_RIGHT st tmp in minmax fuel st val x tmp
  end.

Definition RB_NEGINF : Z := -1.
Definition RB_INF : Z := 1.

Definition RB_MINMAX (st : state) (val : Z) : outcome ptr := minmax (S (size (mem st))) st val (rbh_root st) None.

(** The elements that RB_FOREACH goes through. *)
Fixpoint foreach_from (fuel : nat) (st : state) (x : ptr) : outcome (list elem) :=
  match fuel, x with
  | O, _ => NoFuel
  | S fuel, None => Ok []
  | S fuel, Some e => let* x := RB_NEXT st x in let* l := foreach_from fuel st x in Ok (e :: l)
  end.

Definition RB_FOREACH (st : state) : outcome (list elem) := let* x := RB_MINMAX st RB_NEGINF in foreach_from (S (size (mem st))) st x.

(** * Removal *)

(** A red sibling is rotated up first. *)
Definition red_sibling (d : side) (st : state) (parent tmp : ptr) : outcome (state * ptr) :=
  let* c := RB_COLOR st tmp in
  if bool_decide (c = RB_RED) then
    let* st := RB_SET_BLACKRED st tmp parent in
    let* st := RB_ROTATE d st parent in
    let* tmp := RB_CHILD (opp d) st parent in
    Ok (st, tmp)
  else Ok (st, tmp).

(** Whether the sibling has no red child; the left one is looked at first, on either side. *)
Definition black_children (st : state) (tmp : ptr) : outcome bool :=
  let* l := RB_LEFT st tmp in
  let* lb := is_black st l in
  if lb : bool then let* r := RB_RIGHT st tmp in is_black st r else Ok false.

(** If the far child of the sibling is black, the near one is rotated up. *)
Definition near_child (d : side) (st : state) (parent tmp : ptr) : outcome (state * ptr) :=
  let* far := RB_CHILD (opp d) st tmp in
  let* fb := is_black st far in
  if fb : bool then
    let* near := RB_CHILD d st tmp in
    let* st := store_if st near (set_color RB_BLACK) in
    let* st := store st tmp (set_color RB_RED) in
    let* st := RB_ROTATE (opp d) st tmp in
    let* tmp := RB_CHILD (opp d) st parent in
    Ok (st, tmp)
  else Ok (st, tmp).

(** The sibling takes the colour and the place of the parent. *)
Definition lift_sibling (d : side) (st : state) (parent tmp : ptr) : outcome state :=
  let* c := RB_COLOR st parent in
  let* st := store st tmp (set_color c) in
  let* st := store st parent (set_color RB_BLACK) in
  let* far := RB_CHILD (opp d) st tmp in
  let* st := store_if st far (set_color RB_BLACK) in
  RB_ROTATE d st parent.

Fixpoint RB_REMOVE_COLOR (fuel : nat) (st : state) (parent elm : ptr) : outcome state :=
  match fuel with
  | O => NoFuel
  | S fuel =>
      let* black := is_black st elm in
      if black && negb (eqp elm (rbh_root st)) then
        let* l := RB_LEFT st parent in
        let d := if eqp l elm then L else R in
        let* tmp := RB_CHILD (opp d) st parent in
        let* (st, tmp) := red_sibling d st parent tmp in
        let* both := black_children st tmp in
        if both : bool then
          let* st := store st tmp (set_color RB_RED) in
          let elm := parent in
          let* parent := RB_PARENT st elm in
          RB_REMOVE_COLOR fuel st parent elm
        else
          let* (st, tmp) := near_child d st parent tmp in
          let* st := lift_sibling d st parent tmp in
          let elm := rbh_root st in
          store_if st elm (set_color RB_BLACK)
      else store_if st elm (set_color RB_BLACK)
  end.

(** [elm] is taken out of the tree and [child] put in its place. *)
Definition unlink (st : state) (elm child parent : ptr) : outcome state :=
  let* st := store_if st child (set_parent parent) in
  relink st parent elm child.

(** The parent of [child], once [elm] has the place of [old]; [p] is the parent of [elm]. *)
Definition new_parent (p old elm parent : ptr) : ptr := if eqp p old then elm else parent.

(** [elm] takes the place of [old]. *)
Definition take_place (st : state) (old elm : ptr) : outcome state :=
  let* field := load st old in
  let* st := store st elm (λ _, field) in
  let* p := RB_PARENT st old in
  let* st := relink st p old elm in
  let* l := RB_LEFT st old in
  let* st := store st l (set_parent elm) in
  let* r := RB_RIGHT st old in
  store_if st r (set_parent elm).

(** The scans that were to go on with [elm] go on with the next element. *)
Fixpoint advance_scans (st : state) (elm : ptr) (inprog : list (nat * ptr)) : outcome (list (nat * ptr)) :=
  match inprog with
  | [] => Ok []
  | (id, node) :: inprog =>
      let* node := if eqp node elm then RB_NEXT st elm else Ok node in
      let* inprog := advance_scans st elm inprog in
      Ok ((id, node) :: inprog)
  end.

Definition RB_REMOVE (st : state) (elm : ptr) : outcome state :=
  let* inprog := advance_scans st elm (rbh_inprog st) in
  let st := State (mem st) (rbh_root st) inprog in
  let old := elm in
  let* l := RB_LEFT st elm in
  let* r := RB_RIGHT st elm in
  let fuel := S (S (size (mem st))) in
  if null l || null r then
    let child := if null l then r else l in
    let* parent := RB_PARENT st elm in
    let* color := RB_COLOR st elm in
    let* st := unlink st elm child parent in
    if bool_decide (color = RB_BLACK) then RB_REMOVE_COLOR fuel st parent child else Ok st
  else
    let* elm := furthest L fuel st r in
    let* child := RB_RIGHT st elm in
    let* parent := RB_PARENT st elm in
    let* color := RB_COLOR st elm in
    let* st := unlink st elm child parent in
    let* p := RB_PARENT st elm in
    let parent := new_parent p old elm parent in
    let* st := take_place st old elm in
    if bool_decide (color = RB_BLACK) then RB_REMOVE_COLOR fuel st parent child else Ok st.

(** * Lookup by a number *)

Section lookup.
Context (beg : elem → Z).

(** RB_GENERATE2. *)
Fixpoint lookup_descend (fuel : nat) (st : state) (value : Z) (tmp : ptr) : outcome ptr :=
  match fuel, tmp with
  | O, _ => NoFuel
  | S fuel, None => Ok None
  | S fuel, Some x =>
      if value >? beg x then let* tmp := RB_RIGHT st tmp in lookup_descend fuel st value tmp
      else if value <? beg x then let* tmp := RB_LEFT st tmp in lookup_descend fuel st value tmp
      else Ok tmp
  end.

Definition RB_LOOKUP (st : state) (value : Z) : outcome ptr := lookup_descend (S (size (mem st))) st value (rbh_root st).

(** RB_GENERATE3 and RB_GENERATE4: [inside] is the condition that the value is in the range of the element. *)
Fixpoint rlookup_descend (inside : elem → bool) (fuel : nat) (st : state) (value : Z) (tmp : ptr) : outcome ptr :=
  match fuel, tmp with
  | O, _ => NoFuel
  | S fuel, None => Ok None
  | S fuel, Some x =>
      if inside x then Ok tmp
      else if value >? beg x then let* tmp := RB_RIGHT st tmp in rlookup_descend inside fuel st value tmp
      else let* tmp := RB_LEFT st tmp in rlookup_descend inside fuel st value tmp
  end.

(** With the end of the range, which belongs to it. *)
Definition RB_RLOOKUP (last : elem → Z) (st : state) (value : Z) : outcome ptr :=
  rlookup_descend (λ x, (value >=? beg x) && (value <=? last x)) (S (size (mem st))) st value (rbh_root st).

(** With the size of the range, in an unsigned type of [w] bits. *)
Definition RB_RLOOKUP_SIZE (w : Z) (siz : elem → Z) (st : state) (value : Z) : outcome ptr :=
  rlookup_descend (λ x, (value >=? beg x) && (value <? unsigned_of w (beg x + siz x))) (S (size (mem st))) st value (rbh_root st).

End lookup.

(** RB_GENERATE_XLOOKUP; [xcmp] has the value. *)
Fixpoint xlookup_descend (xcmp : elem → Z) (fuel : nat) (st : state) (tmp : ptr) : outcome ptr :=
  match fuel, tmp with
  | O, _ => NoFuel
  | S fuel, None => Ok None
  | S fuel, Some x =>
      let r := xcmp x in
      if r =? 0 then Ok tmp
      else if r >? 0 then let* tmp := RB_RIGHT st tmp in xlookup_descend xcmp fuel st tmp
      else let* tmp := RB_LEFT st tmp in xlookup_descend xcmp fuel st tmp
  end.

Definition RB_XLOOKUP (xcmp : elem → Z) (st : state) : outcome ptr := xlookup_descend xcmp (S (size (mem st))) st (rbh_root st).

(** * Scans *)

Definition scan_info_link (info : nat) (node : ptr) (st : state) : state := State (mem st) (rbh_root st) ((info, node) :: rbh_inprog st).

Fixpoint unlink_info (info : nat) (l : list (nat * ptr)) : outcome (list (nat * ptr)) :=
  match l with
  | [] => Undef NullDeref
  | (id, node) :: l => if bool_decide (id = info) then Ok l else let* l := unlink_info info l in Ok ((id, node) :: l)
  end.

Definition scan_info_done (info : nat) (st : state) : outcome state :=
  let* l := unlink_info info (rbh_inprog st) in Ok (State (mem st) (rbh_root st) l).

(** [info.node], as it is in memory. *)
Fixpoint info_node (info : nat) (l : list (nat * ptr)) : outcome ptr :=
  match l with
  | [] => Undef OutOfBounds
  | (id, node) :: l => if bool_decide (id = info) then Ok node else info_node info l
  end.

Definition set_info_node (info : nat) (node : ptr) (st : state) : state :=
  State (mem st) (rbh_root st) ((λ '(id, n), if bool_decide (id = info) then (id, node) else (id, n)) <$> rbh_inprog st).

Section scan.
Context {D : Type} (scancmp : elem → D → Z) (callback : elem → state * D → outcome (state * D * Z)).

(** The first element of the range. *)
Fixpoint scan_first (fuel : nat) (st : state) (data : D) (tmp best : ptr) : outcome ptr :=
  match fuel, tmp with
  | O, _ => NoFuel
  | S fuel, None => Ok best
  | S fuel, Some x =>
      let comp := scancmp x data in
      if comp <? 0 then let* tmp := RB_RIGHT st tmp in scan_first fuel st data tmp best
      else if comp >? 0 then let* tmp := RB_LEFT st tmp in scan_first fuel st data tmp best
      else
        let best := tmp in
        let* l := RB_LEFT st tmp in
        if null l then Ok best else scan_first fuel st data l best
  end.

(** The loop; the last comparison of the callback, or the count. *)
Fixpoint scan_loop (fuel : nat) (info : nat) (st : state) (data : D) (best : elem) (count : Z) : outcome (state * D * Z * Z) :=
  match fuel with
  | O => NoFuel
  | S fuel =>
      let* (st, data, comp) := callback best (st, data) in
      if comp <? 0 then Ok (st, data, comp, count)
      else
        let count := s32 (count + comp) in
        let* node := info_node info (rbh_inprog st) in
        match node with
        | None => Ok (st, data, comp, count)
        | Some best =>
            if negb (scancmp best data =? 0) then Ok (st, data, comp, count)
            else
              let* next := RB_NEXT st (Some best) in
              scan_loop fuel info (set_info_node info next st) data best count
        end
  end.

Definition RB_SCAN (fuel : nat) (info : nat) (st : state) (data : D) : outcome (state * D * Z) :=
  let* best := scan_first (S (size (mem st))) st data (rbh_root st) None in
  match best with
  | None => Ok (st, data, 0)
  | Some best =>
      let* next := RB_NEXT st (Some best) in
      let st := scan_info_link info next st in
      let* (st, data, comp, count) := scan_loop fuel info st data best 0 in
      let* st := scan_info_done info st in
      Ok (st, data, if comp <? 0 then comp else count)
  end.

End scan.

(** [name##_SCANCMP_ALL]. *)
Definition SCANCMP_ALL {D : Type} (x : elem) (data : D) : Z := 0.

End RbTree.
