(* ===== verification/RbTreeTheory.v ===== *)
(** What the entries of RbTree.v represent: a tree, seen from a place in it.
    What the stores and the link from above do to it. *)

From stdpp Require Import base list gmap sets.
From S2P Require Import Prelude RbTree.

Module RbTreeTheory.
Import RbTree.

(** * Trees and places in them *)

Inductive tree :=
  | Leaf
  | T (c : color) (l : tree) (x : elem) (r : tree).

Fixpoint elements (t : tree) : list elem := match t with Leaf => [] | T _ l x r => elements l ++ x :: elements r end.

Definition root_of (t : tree) : ptr := match t with Leaf => None | T _ _ x _ => Some x end.

(** A node by its near and its far subtree, seen from side [d]. *)
Definition node (d : side) (c : color) (near : tree) (x : elem) (far : tree) : tree :=
  match d with L => T c near x far | R => T c far x near end.

Lemma node_opp d c a x b : node (opp d) c a x b = node d c b x a.
Proof. by destruct d. Qed.

Lemma opp_opp d : opp (opp d) = d.
Proof. by destruct d. Qed.

Lemma root_node d c a x b : root_of (node d c a x b) = Some x.
Proof. by destruct d. Qed.

(** One step up: the place is at [f_side] of [f_elem], and [f_sib] at the other side. *)
Record frame := Frame {
  f_side : side;
  f_color : color;
  f_elem : elem;
  f_sib : tree
}.

Definition plug (f : frame) (t : tree) : tree := node (f_side f) (f_color f) t (f_elem f) (f_sib f).

(** The way up, innermost first. *)
Fixpoint fill (k : list frame) (t : tree) : tree := match k with [] => t | f :: k => fill k (plug f t) end.

Definition parent_of (k : list frame) : ptr := match k with [] => None | f :: _ => Some (f_elem f) end.

(** What is left and right of the place. *)
Fixpoint before (k : list frame) : list elem :=
  match k with
  | [] => []
  | f :: k => before k ++ match f_side f with L => [] | R => elements (f_sib f) ++ [f_elem f] end
  end.
Fixpoint after (k : list frame) : list elem :=
  match k with
  | [] => []
  | f :: k => match f_side f with L => f_elem f :: elements (f_sib f) | R => [] end ++ after k
  end.

Definition around (k : list frame) : list elem := before k ++ after k.

Lemma elements_fill k t : elements (fill k t) = before k ++ elements t ++ after k.
Proof.
  revert t. induction k as [|[[] c x s] k IH]; intros t; cbn [fill before after]; [by rewrite app_nil_r|..]; rewrite IH; unfold plug; cbn;
    by rewrite ?app_nil_r, <- ?app_assoc.
Qed.

Lemma elements_node d c a x b : elements (node d c a x b) ≡ₚ x :: elements a ++ elements b.
Proof. destruct d; cbn; [by rewrite Permutation_middle|]. by rewrite Permutation_app_comm. Qed.

Lemma elements_perm k t : elements (fill k t) ≡ₚ elements t ++ around k.
Proof. rewrite elements_fill. unfold around. by rewrite !(app_assoc _ _ (after k)), (Permutation_app_comm (before k)). Qed.

Lemma around_cons f k : around (f :: k) ≡ₚ f_elem f :: elements (f_sib f) ++ around k.
Proof.
  unfold around. cbn [before after]. destruct f as [[] c x s]; cbn; rewrite ?app_nil_r.
  - rewrite <- Permutation_middle. f_equiv. rewrite !(app_assoc _ _ (after k)). f_equiv. apply Permutation_app_comm.
  - rewrite <- !app_assoc. rewrite !(app_assoc _ _ (after k)). rewrite (Permutation_app_comm (before k)). cbn. rewrite <- !app_assoc.
    cbn. by rewrite <- Permutation_middle.
Qed.

Lemma fill_app k1 k2 t : fill (k1 ++ k2) t = fill k2 (fill k1 t).
Proof. revert t. induction k1 as [|f k1 IH]; intros t; [done|]. apply IH. Qed.

(** * Entries that represent a tree *)

Definition entry_of (d : side) (near far parent : ptr) (c : color) : entry :=
  match d with L => Entry near far parent c | R => Entry far near parent c end.

Fixpoint at_tree (m : gmap elem entry) (parent : ptr) (t : tree) : Prop :=
  match t with
  | Leaf => True
  | T c l x r => m !! x = Some (Entry (root_of l) (root_of r) parent c) ∧ at_tree m (Some x) l ∧ at_tree m (Some x) r
  end.

(** The way up from a place at which the subtree with root [p] is. *)
Fixpoint at_place (m : gmap elem entry) (root : ptr) (k : list frame) (p : ptr) : Prop :=
  match k with
  | [] => root = p
  | f :: k => m !! f_elem f = Some (entry_of (f_side f) p (root_of (f_sib f)) (parent_of k) (f_color f)) ∧
      at_tree m (Some (f_elem f)) (f_sib f) ∧ at_place m root k (Some (f_elem f))
  end.

(** The head of the tree has [t]. *)
Definition repr (st : state) (t : tree) : Prop := NoDup (elements t) ∧ at_tree (mem st) None t ∧ rbh_root st = root_of t.

(** Seen from a place. *)
Definition zrepr (st : state) (k : list frame) (t : tree) : Prop :=
  NoDup (elements t ++ around k) ∧ at_tree (mem st) (parent_of k) t ∧ at_place (mem st) (rbh_root st) k (root_of t).

Lemma at_node m parent d c a x b : at_tree m parent (node d c a x b) ↔
  m !! x = Some (entry_of d (root_of a) (root_of b) parent c) ∧ at_tree m (Some x) a ∧ at_tree m (Some x) b.
Proof. destruct d; cbn; tauto. Qed.

Lemma at_fill m root k t : at_tree m None (fill k t) ∧ root = root_of (fill k t) ↔ at_tree m (parent_of k) t ∧ at_place m root k (root_of t).
Proof.
  revert t. induction k as [|[d c x s] k IH]; intros t; [done|]. cbn [fill]. rewrite IH. unfold plug. cbn [f_side f_color f_elem f_sib].
  rewrite at_node, root_node. cbn. tauto.
Qed.

Lemma repr_fill st k t : repr st (fill k t) ↔ zrepr st k t.
Proof. unfold repr, zrepr. rewrite elements_perm. pose proof (at_fill (mem st) (rbh_root st) k t). tauto. Qed.

Lemma at_tree_frame m m' parent t : (∀ z, z ∈ elements t → m' !! z = m !! z) → at_tree m parent t → at_tree m' parent t.
Proof.
  revert parent. induction t as [|c l IHl x r IHr]; intros parent Hf; [done|]. cbn in *. intros (Hx & Hl & Hr). split_and!.
  - rewrite Hf; [done|set_solver].
  - apply IHl; [set_solver|done].
  - apply IHr; [set_solver|done].
Qed.

Lemma at_place_frame m m' root k p : (∀ z, z ∈ around k → m' !! z = m !! z) → at_place m root k p → at_place m' root k p.
Proof.
  revert p. induction k as [|f k IH]; intros p Hf; [done|]. setoid_rewrite around_cons in Hf. cbn. intros (Hx & Hs & Hk). split_and!.
  - rewrite Hf; [done|set_solver].
  - eapply at_tree_frame; [|done]. set_solver.
  - apply IH; [set_solver|done].
Qed.

(** * Loads and stores *)

Definition upd (st : state) (x : elem) (e : entry) : state := State (<[x := e]> (mem st)) (rbh_root st) (rbh_inprog st).

Lemma load_ok st x e : mem st !! x = Some e → load st (Some x) = Ok e.
Proof. intros H. cbn. by rewrite H. Qed.

Lemma store_ok st x f e : mem st !! x = Some e → store st (Some x) f = Ok (upd st x (f e)).
Proof. intros H. unfold store. by rewrite (load_ok st x e). Qed.

Lemma child_ok d st x near far parent c : mem st !! x = Some (entry_of d near far parent c) →
  RB_CHILD d st (Some x) = Ok near ∧ RB_CHILD (opp d) st (Some x) = Ok far ∧ RB_PARENT st (Some x) = Ok parent ∧ RB_COLOR st (Some x) = Ok c.
Proof. intros H. destruct d; cbn; unfold RB_LEFT, RB_RIGHT, RB_PARENT, RB_COLOR; by rewrite (load_ok _ _ _ H). Qed.

Lemma set_child_entry d v near far parent c : set_child d v (entry_of d near far parent c) = entry_of d v far parent c.
Proof. by destruct d. Qed.
Lemma set_child_opp d v near far parent c : set_child (opp d) v (entry_of d near far parent c) = entry_of d near v parent c.
Proof. by destruct d. Qed.
Lemma set_parent_entry d v near far parent c : set_parent v (entry_of d near far parent c) = entry_of d near far v c.
Proof. by destruct d. Qed.
Lemma set_color_entry d c' near far parent c : set_color c' (entry_of d near far parent c) = entry_of d near far parent c'.
Proof. by destruct d. Qed.

(** The states differ in the entries of [l], and in the root. *)
Definition only (l : list elem) (st st' : state) : Prop :=
  rbh_inprog st' = rbh_inprog st ∧ (∀ z, z ∉ l → mem st' !! z = mem st !! z) ∧ dom (mem st') = dom (mem st).

Lemma only_refl l st : only l st st.
Proof. done. Qed.

Lemma only_trans l st st1 st2 : only l st st1 → only l st1 st2 → only l st st2.
Proof. intros (I1 & F1 & D1) (I2 & F2 & D2). split_and!; [congruence| |congruence]. intros z Hz. by rewrite F2, F1. Qed.

Lemma only_more l l' st st' : l ⊆ l' → only l st st' → only l' st st'.
Proof. intros Hl (I & F & D). split_and!; [done| |done]. intros z Hz. apply F. set_solver. Qed.

Lemma only_upd st x e e' : mem st !! x = Some e → only [x] st (upd st x e').
Proof.
  intros H. split_and!; [done| |].
  - intros z Hz. cbn. apply lookup_insert_ne. set_solver.
  - cbn. rewrite dom_insert_L. apply (elem_of_dom_2 (D := gset elem)) in H. set_solver.
Qed.

Ltac only_chain :=
  match goal with
  | H : only ?l ?a ?b |- only _ ?a ?b => apply (only_more l); [set_solver|exact H]
  | H : only ?l ?a _ |- only _ ?a _ => eapply only_trans; [apply (only_more l); [set_solver|exact H]|]; clear H; only_chain
  end.

(** A subtree gets another parent. *)
Lemma reparent_ok st parent q t : NoDup (elements t) → at_tree (mem st) parent t → ∃ st', store_if st (root_of t) (set_parent q) = Ok st' ∧
  only (elements t) st st' ∧ rbh_root st' = rbh_root st ∧ at_tree (mem st') q t.
Proof.
  intros Hn Ht. destruct t as [|c l x r]; [by exists st|]. cbn in *. destruct Ht as (Hx & Hl & Hr). eexists. split; [by apply store_ok|].
  split_and!.
  - eapply only_more; [|by eapply only_upd]. set_solver.
  - done.
  - cbn. apply lookup_insert_eq.
  - apply NoDup_app in Hn as (Hnl & Hd & [Hxr Hnr]%NoDup_cons). eapply at_tree_frame; [|done]. intros z Hz. cbn. apply lookup_insert_ne. set_solver.
  - apply NoDup_app in Hn as (Hnl & Hd & [Hxr Hnr]%NoDup_cons). eapply at_tree_frame; [|done]. intros z Hz. cbn. apply lookup_insert_ne. set_solver.
Qed.

(** The link from above. *)
Lemma relink_ok st k x q : NoDup (x :: around k) → at_place (mem st) (rbh_root st) k (Some x) → ∃ st', relink st (parent_of k) (Some x) q = Ok st' ∧
  only (around k) st st' ∧ at_place (mem st') (rbh_root st') k q.
Proof.
  intros Hn Hk. destruct k as [|[d c z s] k]; [by exists (set_root st q)|]. cbn in Hk |- *. destruct Hk as (Hz & Hs & Hk).
  pose proof (around_cons (Frame d c z s) k) as Ha. rewrite Ha in Hn. cbn in Hn, Ha. rewrite !NoDup_cons, NoDup_app in Hn.
  destruct Hn as (Hx & Hzn & Hns & Hd & Hnk). unfold relink. cbn [null eqp].
  assert (El : ∃ l, RB_LEFT st (Some z) = Ok l ∧ (if eqp (Some x) l then set_left q else set_right q) = set_child d q).
  { unfold RB_LEFT. rewrite (load_ok _ _ _ Hz). destruct d; cbn; eexists; (split; [done|]); unfold eqp.
    - by rewrite bool_decide_eq_true_2.
    - rewrite bool_decide_eq_false_2; [done|]. intros E. destruct s as [|c' l y r]; [done|]. injection E as <-. set_solver. }
  destruct El as (l & -> & Hl). cbn [obind]. unfold null, eqp at 1. rewrite bool_decide_eq_false_2 by done. fold (eqp (Some x) l).
  rewrite Hl, (store_ok _ _ _ _ Hz), set_child_entry. eexists. split; [done|]. split_and!.
  - eapply only_more; [|by eapply only_upd]. rewrite Ha. set_solver.
  - cbn. apply lookup_insert_eq.
  - eapply at_tree_frame; [|done]. intros w Hw. cbn. apply lookup_insert_ne. set_solver.
  - eapply at_place_frame; [|done]. intros w Hw. cbn. apply lookup_insert_ne. set_solver.
Qed.

(** Lookups through the states of a function: [sep] proves that an entry is not one of those that were changed. *)
Ltac sep := set_solver.
Ltac through :=
  repeat match goal with
  | s := upd _ _ _ |- context [mem ?s !! _] => unfold s at 1; cbn [mem upd]
  | |- context [(<[?x := _]> _) !! ?x] => rewrite lookup_insert_eq
  | |- context [(<[?y := _]> _) !! ?x] => rewrite (lookup_insert_ne _ y x) by sep
  | H : only _ _ ?st |- context [mem ?st !! _] => rewrite (proj1 (proj2 H)) by sep
  end.

(** The facts that a list without duplicates gives. *)
Ltac apart H := rewrite ?NoDup_cons, ?NoDup_app, ?NoDup_cons, ?NoDup_app, ?NoDup_cons, ?NoDup_app in H; destruct_and! H.

(** * Colours *)

Definition red (t : tree) : bool := match t with T RB_RED _ _ _ => true | _ => false end.
Definition paint (c : color) (t : tree) : tree := match t with Leaf => Leaf | T _ l x r => T c l x r end.

Lemma red_node d c a x b : red (node d c a x b) = bool_decide (c = RB_RED).
Proof. by destruct d, c. Qed.
Lemma paint_node d c c' a x b : paint c' (node d c a x b) = node d c' a x b.
Proof. by destruct d. Qed.
Lemma elements_paint c t : elements (paint c t) = elements t.
Proof. by destruct t. Qed.
Lemma root_paint c t : root_of (paint c t) = root_of t.
Proof. by destruct t. Qed.

Lemma entry_at d st k c a x b : repr st (fill k (node d c a x b)) → mem st !! x = Some (entry_of d (root_of a) (root_of b) (parent_of k) c).
Proof. rewrite repr_fill. intros (_ & Ht & _). apply at_node in Ht. tauto. Qed.

Lemma entry_above st f k t : repr st (fill (f :: k) t) →
  mem st !! f_elem f = Some (entry_of (f_side f) (root_of t) (root_of (f_sib f)) (parent_of k) (f_color f)).
Proof. intros H. by apply (entry_at (f_side f) st k). Qed.

Lemma parent_at st k t x : repr st (fill k t) → root_of t = Some x → RB_PARENT st (Some x) = Ok (parent_of k).
Proof. intros H Hx. destruct t as [|c l y r]; [done|]. injection Hx as ->. apply (entry_at L) in H. by apply (child_ok L) in H as (_ & _ & -> & _). Qed.

Lemma is_red_ok st k t : repr st (fill k t) → is_red st (root_of t) = Ok (red t).
Proof.
  intros H. destruct t as [|c l x r]; [done|]. apply (entry_at L), (child_ok L) in H as (_ & _ & _ & H). unfold is_red. cbn [root_of null eqp].
  unfold null, eqp. rewrite bool_decide_eq_false_2 by done. rewrite H. by destruct c.
Qed.

Lemma is_black_ok st k t : repr st (fill k t) → is_black st (root_of t) = Ok (negb (red t)).
Proof.
  intros H. destruct t as [|c l x r]; [done|]. apply (entry_at L), (child_ok L) in H as (_ & _ & _ & H). unfold is_black. cbn [root_of null eqp].
  unfold null, eqp. rewrite bool_decide_eq_false_2 by done. rewrite H. by destruct c.
Qed.

Lemma store_some st x f : store_if st (Some x) f = store st (Some x) f.
Proof. unfold store_if, null, eqp. by rewrite bool_decide_eq_false_2. Qed.

Lemma paint_ok st k t c : repr st (fill k t) → ∃ st', store_if st (root_of t) (set_color c) = Ok st' ∧
  repr st' (fill k (paint c t)) ∧ only (elements t) st st'.
Proof.
  intros H. destruct t as [|c' l x r]; [by exists st|]. pose proof (entry_at L _ _ _ _ _ _ H) as Hx. cbn [root_of]. rewrite store_some, (store_ok _ _ _ _ Hx).
  eexists. split; [done|]. split; [|by eapply only_more; [|by eapply only_upd]; set_solver]. rewrite repr_fill in H |- *. destruct H as (Hn & Ht & Hk).
  assert (Hd : x ∉ elements l ∧ x ∉ elements r ∧ x ∉ around k).
  { clear -Hn. cbn in Hn. rewrite <- app_assoc, NoDup_app in Hn. destruct Hn as (_ & Hl & [Hr _]%NoDup_cons). specialize (Hl x). set_solver. }
  destruct Hd as (Hxl & Hxr & Hxk). split_and!; [done| |].
  - cbn in Ht |- *. rewrite lookup_insert_eq. split_and!; [done|..]; (eapply at_tree_frame; [|by apply Ht]); intros z Hz; apply lookup_insert_ne; congruence.
  - eapply at_place_frame; [|exact Hk]. intros z Hz. apply lookup_insert_ne. congruence.
Qed.

(** Which child of its parent a subtree is. *)
Lemma child_is e st f k t : repr st (fill (f :: k) t) → root_of t ≠ None ∨ root_of (f_sib f) ≠ None →
  ∃ y, RB_CHILD e st (Some (f_elem f)) = Ok y ∧ eqp (root_of t) y = bool_decide (f_side f = e) ∧ eqp y (root_of t) = bool_decide (f_side f = e).
Proof.
  intros H Hne. pose proof (entry_above _ _ _ _ H) as Hx. pose proof (proj1 H) as Hn. rewrite elements_fill in Hn.
  assert (Hd : root_of t ≠ root_of (f_sib f)).
  { intros Er. destruct t as [|c l x r]; [by destruct Hne; cbn in *; congruence|]. destruct (f_sib f) as [|c' l' x' r'] eqn:Es; [done|]. injection Er as <-.
    apply NoDup_app in Hn as (_ & Hb & [_ [Ha _]]%NoDup_app). specialize (Hb x). specialize (Ha x). destruct f as [[] cf y s]; cbn in *; subst s; cbn in *; set_solver. }
  apply (child_ok (f_side f)) in Hx as (Hnear & Hfar & _). unfold eqp. destruct (decide (f_side f = e)) as [<-|Hs].
  - exists (root_of t). split; [done|]. by rewrite !bool_decide_eq_true_2.
  - exists (root_of (f_sib f)). split; [by destruct (f_side f), e|]. by rewrite !bool_decide_eq_false_2 by congruence.
Qed.

End RbTreeTheory.
