(* ===== verification/RbRotate.v ===== *)
(** A rotation of RbTree.v is a rotation of the tree, at any place. *)

From stdpp Require Import base list gmap sets.
From S2P Require Import Prelude RbTree RbTreeTheory.

Module RbRotate.
Import RbTree RbTreeTheory.

Lemma rotate_ok d st k c a x c' b y e : repr st (fill k (node d c a x (node d c' b y e))) →
  ∃ st', RB_ROTATE d st (Some x) = Ok st' ∧ repr st' (fill k (node d c' (node d c a x b) y e)) ∧
    only (x :: y :: elements b ++ around k) st st'.
Proof.
  rewrite repr_fill. intros (Hn & Ht & Hk). rewrite root_node in Hk. rewrite !at_node, root_node in Ht. destruct Ht as (Hx & Ha & Hy & Hb & He).
  assert (Hp : elements (node d c a x (node d c' b y e)) ++ around k ≡ₚ x :: y :: elements a ++ elements b ++ elements e ++ around k).
  { rewrite !elements_node. solve_Permutation. }
  rewrite Hp in Hn. pose proof Hn as Hn'. apart Hn'.
  unfold RB_ROTATE. rewrite (proj1 (proj2 (child_ok _ _ _ _ _ _ _ Hx))). cbn [obind]. rewrite (proj1 (child_ok _ _ _ _ _ _ _ Hy)). cbn [obind].
  rewrite (store_ok _ _ _ _ Hx), set_child_opp. cbn [obind]. set (st1 := upd st x _).
  destruct (reparent_ok st1 (Some y) (Some x) b) as (st2 & -> & O2 & R2 & Hb2); [done|eapply at_tree_frame; [|done]; intros z Hz; by through|].
  assert (Hx2 : mem st2 !! x = Some (entry_of d (root_of a) (root_of b) (parent_of k) c)) by (by through).
  assert (Hy2 : mem st2 !! y = Some (entry_of d (root_of b) (root_of e) (Some x) c')) by (by through).
  cbn [obind]. rewrite (proj1 (proj2 (proj2 (child_ok _ _ _ _ _ _ _ Hx2)))). cbn [obind]. rewrite (store_ok _ _ _ _ Hy2), set_parent_entry. cbn [obind].
  set (st3 := upd st2 y _).
  destruct (relink_ok st3 k x (Some y)) as (st4 & -> & O4 & Hk4).
  { rewrite NoDup_cons. split; [sep|done]. }
  { replace (rbh_root st3) with (rbh_root st) by (unfold st3; cbn; by rewrite R2). eapply at_place_frame; [|done]. intros z Hz. by through. }
  assert (Hy4 : mem st4 !! y = Some (entry_of d (root_of b) (root_of e) (parent_of k) c')) by (by through).
  assert (Hx4 : mem st4 !! x = Some (entry_of d (root_of a) (root_of b) (parent_of k) c)) by (by through).
  cbn [obind]. rewrite (store_ok _ _ _ _ Hy4), set_child_entry. cbn [obind]. set (st5 := upd st4 y _).
  assert (Hx5 : mem st5 !! x = Some (entry_of d (root_of a) (root_of b) (parent_of k) c)) by (by through).
  rewrite (store_ok _ _ _ _ Hx5), set_parent_entry. set (st6 := upd st5 x _). exists st6. split; [done|]. split.
  - rewrite repr_fill. split; [|split].
    + assert (Hq : elements (node d c' (node d c a x b) y e) ++ around k ≡ₚ x :: y :: elements a ++ elements b ++ elements e ++ around k).
      { rewrite !elements_node. solve_Permutation. }
      by rewrite Hq.
    + rewrite !at_node, root_node. split_and!; [by through..| | |].
      * eapply at_tree_frame; [|exact Ha]. intros z Hz. by through.
      * eapply at_tree_frame; [|exact Hb2]. clear O2. intros z Hz. by through.
      * eapply at_tree_frame; [|exact He]. intros z Hz. by through.
    + rewrite root_node. eapply at_place_frame; [|exact Hk4]. clear O4. intros z Hz. by through.
  - assert (O1 : only [x] st st1) by by eapply only_upd. assert (O3 : only [y] st2 st3) by by eapply only_upd.
    assert (O5 : only [y] st4 st5) by by eapply only_upd. assert (O6 : only [x] st5 st6) by by eapply only_upd. clear -O1 O2 O3 O4 O5 O6. only_chain.
Qed.

End RbRotate.
