(* ===== verification/RbBalance.v ===== *)
(** Red-black trees, without their memory: the colour and height rules, seen from a place, and the height they give. *)

From stdpp Require Import base list gmap.
From S2P Require Import Prelude RbTree RbTreeTheory.

Module RbBalance.
Import RbTree RbTreeTheory.

Definition weight (c : color) : nat := match c with RB_BLACK => 1 | RB_RED => 0 end.

(** The black nodes on the way to the left. *)
Fixpoint bheight (t : tree) : nat := match t with Leaf => 0 | T c l _ _ => weight c + bheight l end.

(** Both ways have the same number of black nodes, and a red node has no red child. *)
Fixpoint rb (t : tree) : Prop :=
  match t with
  | Leaf => True
  | T c l _ r => bheight l = bheight r ∧ (c = RB_RED → red l = false ∧ red r = false) ∧ rb l ∧ rb r
  end.

(** A red-black tree. *)
Definition rbt (t : tree) : Prop := rb t ∧ red t = false.

Lemma rb_node d c a x b : rb (node d c a x b) ↔ bheight a = bheight b ∧ (c = RB_RED → red a = false ∧ red b = false) ∧ rb a ∧ rb b.
Proof. destruct d; cbn; [done|]. split; intros (? & H & ? & ?); split_and!; try done; intros ->; by destruct H. Qed.

Lemma bheight_node d c a x b : bheight a = bheight b → bheight (node d c a x b) = (weight c + bheight a)%nat.
Proof. intros H. by destruct d; cbn; [|rewrite H]. Qed.

Lemma rb_paint t : rb t → rb (paint RB_BLACK t).
Proof. destruct t; cbn; [done|]. naive_solver. Qed.

Lemma red_paint t : red (paint RB_BLACK t) = false.
Proof. by destruct t. Qed.

Lemma bheight_paint t : bheight (paint RB_BLACK t) = if red t then S (bheight t) else bheight t.
Proof. by destruct t as [|[]]. Qed.

(** The node above is black; the root has to be, so there is one. *)
Definition top_black (k : list frame) : Prop := match k with [] => False | f :: _ => f_color f = RB_BLACK end.

(** The rules at a place where a tree with [h] black nodes belongs. *)
Fixpoint rb_place (k : list frame) (h : nat) : Prop :=
  match k with
  | [] => True
  | f :: k => rb (f_sib f) ∧ bheight (f_sib f) = h ∧ (f_color f = RB_RED → red (f_sib f) = false ∧ top_black k) ∧
      rb_place k (weight (f_color f) + h)
  end.

Lemma rb_fill k t : rb t → rb_place k (bheight t) → (red t = true → k = [] ∨ top_black k) → rb (fill k t).
Proof.
  revert t. induction k as [|f k IH]; intros t Ht Hk Hr; [done|]. cbn in Hk |- *. destruct Hk as (Hs & Hh & Hc & Hk). apply IH; unfold plug.
  - rewrite rb_node. split_and!; [done| |done|done]. intros Ec. destruct (Hc Ec) as [Hrs _]. split; [|done]. destruct (red t); [|done]. destruct (Hr eq_refl) as [?|Hb]; [done|].
    cbn in Hb. congruence.
  - by rewrite bheight_node.
  - rewrite red_node. intros E%bool_decide_eq_true. right. by apply Hc.
Qed.

(** What the rules of a whole tree say at a place. *)
Lemma rb_unfill k t : rb (fill k t) → red (fill k t) = false → rb t ∧ rb_place k (bheight t) ∧ (red t = true → top_black k).
Proof.
  revert t. induction k as [|f k IH]; intros t Ht Hr; [cbn in *; split_and!; try done; congruence|]. destruct (IH _ Ht Hr) as (Hp & Hk & Htop). unfold plug in *.
  apply rb_node in Hp as (Hh & Hc & Hn & Hs). rewrite bheight_node in Hk by done. rewrite red_node in Htop. cbn. split_and!; try done.
  - intros Ec. split; [by apply Hc|]. apply Htop. by apply bool_decide_eq_true.
  - intros E. destruct (f_color f); [done|]. destruct (Hc eq_refl). congruence.
Qed.

(** ** Height *)

Fixpoint height (t : tree) : nat := match t with Leaf => 0 | T _ l _ r => S (height l `max` height r) end.

Lemma rb_bheight t : rb t → (2 ^ bheight t ≤ S (length (elements t)))%nat.
Proof.
  induction t as [|c l IHl x r IHr]; cbn; [lia|]. intros (Hh & _ & Hl & Hr). specialize (IHl Hl). specialize (IHr Hr). rewrite <- Hh in IHr.
  rewrite length_app. cbn [length]. destruct c; cbn [weight plus Nat.pow]; lia.
Qed.

Lemma rb_height t : rb t → (height t ≤ 2 * bheight t + if red t then 1 else 0)%nat.
Proof.
  induction t as [|c l IHl x r IHr]; cbn; [lia|]. intros (Hh & Hc & Hl & Hr). specialize (IHl Hl). specialize (IHr Hr). rewrite <- Hh in IHr. destruct c; cbn.
  - destruct (red l), (red r); lia.
  - destruct (Hc eq_refl) as [E1 E2]. rewrite E1 in IHl. rewrite E2 in IHr. lia.
Qed.

(** The way to a leaf is at most twice the logarithm of the size and one. *)
Lemma rbt_height t : rbt t → (height t ≤ 2 * Nat.log2 (S (length (elements t))))%nat.
Proof.
  intros [Ht Hr]. pose proof (rb_height t Ht) as H. rewrite Hr in H. assert (bheight t ≤ Nat.log2 (S (length (elements t))))%nat; [|lia].
  apply Nat.log2_le_pow2; [lia|by apply rb_bheight].
Qed.

End RbBalance.
