(* ===== verification/RbSearch.v ===== *)
(** The ways down from the root of RbTree.v: RB_FIND, the lookups by a number, and the smallest and largest element. *)

From stdpp Require Import base list gmap sets sorting.
From S2P Require Import Prelude RbTree RbTreeTheory RbBalance.

Module RbSearch.
Import RbTree RbTreeTheory RbBalance.

(** * Sizes *)

Lemma in_memory m parent t x : at_tree m parent t → x ∈ elements t → is_Some (m !! x).
Proof.
  revert parent. induction t as [|c l IHl y r IHr]; intros parent; cbn; [by rewrite elem_of_nil|]. intros (Hy & Hl & Hr).
  rewrite elem_of_app, elem_of_cons. intros [H|[->|H]]; eauto.
Qed.

(** The tree is not larger than the memory. *)
Lemma size_ok st t : repr st t → (length (elements t) ≤ size (mem st))%nat.
Proof.
  intros (Hn & Ht & _). rewrite <- (size_list_to_set (C := gset elem)) by done. rewrite <- (size_dom (D := gset elem)). apply subseteq_size.
  intros x Hx. apply elem_of_dom. apply elem_of_list_to_set in Hx. by eapply in_memory.
Qed.

Lemma depth_ok k t : (length k + length (elements t) ≤ length (elements (fill k t)))%nat.
Proof.
  revert t. induction k as [|f k IH]; intros t; [done|]. cbn [fill length]. specialize (IH (plug f t)). unfold plug in *. rewrite elements_node in IH.
  cbn in IH. rewrite length_app in IH. lia.
Qed.

Lemma fuel_ok st k t : repr st (fill k t) → (length k + length (elements t) < S (size (mem st)))%nat.
Proof. intros H. pose proof (size_ok _ _ H). pose proof (depth_ok k t). lia. Qed.

(** Every element has a place. *)
Lemma place_of t x : x ∈ elements t → ∃ k c l r, t = fill k (T c l x r).
Proof.
  induction t as [|c l IHl y r IHr]; cbn; [by rewrite elem_of_nil|]. rewrite elem_of_app, elem_of_cons. intros [H|[->|H]].
  - destruct (IHl H) as (k & c' & l' & r' & ->). exists (k ++ [Frame L c y r]), c', l', r'. by rewrite fill_app.
  - by exists [], c, l, r.
  - destruct (IHr H) as (k & c' & l' & r' & ->). exists (k ++ [Frame R c y l]), c', l', r'. by rewrite fill_app.
Qed.

Lemma children_at st k c l x r : repr st (fill k (T c l x r)) → RB_LEFT st (Some x) = Ok (root_of l) ∧ RB_RIGHT st (Some x) = Ok (root_of r).
Proof. intros H. apply (entry_at L) in H. apply (child_ok L) in H. cbn in H. tauto. Qed.

Lemma null_root t : null (root_of t) = match t with Leaf => true | _ => false end.
Proof. destruct t; [done|]. unfold null, eqp. by rewrite bool_decide_eq_false_2. Qed.

Lemma height_length t : (height t ≤ length (elements t))%nat.
Proof. induction t; cbn; [done|]. rewrite length_app. cbn. lia. Qed.

(** * A way down, by a direction at each element *)

Section descend.
Context (dir : elem → option side).

Fixpoint descend (fuel : nat) (st : state) (tmp : ptr) : outcome ptr :=
  match fuel, tmp with
  | O, _ => NoFuel
  | S fuel, None => Ok None
  | S fuel, Some x => match dir x with None => Ok tmp | Some d => let* tmp := RB_CHILD d st tmp in descend fuel st tmp end
  end.

(** More fuel changes nothing. *)
Lemma descend_more fuel fuel' st tmp r : descend fuel st tmp = Ok r → (fuel ≤ fuel')%nat → descend fuel' st tmp = Ok r.
Proof.
  revert fuel' tmp. induction fuel as [|fuel IH]; intros [|fuel'] [x|] H Hf; try done; try lia. cbn in *. destruct (dir x); [|done].
  apply obind_Ok in H as (y & -> & H). cbn. apply IH; [done|lia].
Qed.

(** The directions lead to the elements that are looked for. *)
Definition guides (l : list elem) : Prop := ∀ l1 x l2, l = l1 ++ x :: l2 →
  match dir x with
  | Some L => ∀ y, y ∈ l2 → dir y ≠ None
  | Some R => ∀ y, y ∈ l1 → dir y ≠ None
  | None => True
  end.

Lemma descend_ok fuel st k t : repr st (fill k t) → guides (elements t) → (height t < fuel)%nat → ∃ r, descend fuel st (root_of t) = Ok r ∧
  match r with Some y => y ∈ elements t ∧ dir y = None | None => ∀ y, y ∈ elements t → dir y ≠ None end.
Proof.
  revert k t. induction fuel as [|fuel IH]; intros k t H Hg Hf; [lia|]. destruct t as [|c l x r]; cbn [root_of descend].
  { exists None. split; [done|]. intros y Hy. by apply elem_of_nil in Hy. }
  destruct (children_at _ _ _ _ _ _ H) as [El Er]. pose proof (Hg (elements l) x (elements r) eq_refl) as Hx. cbn in Hf.
  destruct (dir x) as [[]|] eqn:Ed.
  - cbn [RB_CHILD]. rewrite El. cbn [obind]. destruct (IH (Frame L c x r :: k) l H) as (y & -> & Hy); [|lia|].
    { intros l1 z l2 E. specialize (Hg l1 z (l2 ++ x :: elements r)). cbn in Hg. rewrite E, <- app_assoc in Hg. specialize (Hg eq_refl). destruct (dir z) as [[]|]; try done. set_solver. }
    exists y. split; [done|]. destruct y as [y|]; [split; [set_solver|apply Hy]|]. cbn. intros z. rewrite elem_of_app, elem_of_cons. intros [Hz|[->|Hz]]; [auto|congruence|auto].
  - cbn [RB_CHILD]. rewrite Er. cbn [obind]. destruct (IH (Frame R c x l :: k) r H) as (y & -> & Hy); [|lia|].
    { intros l1 z l2 E. specialize (Hg (elements l ++ x :: l1) z l2). cbn in Hg. rewrite E, <- app_assoc in Hg. specialize (Hg eq_refl). destruct (dir z) as [[]|]; try done. set_solver. }
    exists y. split; [done|]. destruct y as [y|]; [split; [set_solver|apply Hy]|]. cbn. intros z. rewrite elem_of_app, elem_of_cons. intros [Hz|[->|Hz]]; [auto|congruence|auto].
  - exists (Some x). split; [done|]. split; [set_solver|done].
Qed.

Lemma descend_root st t : repr st t → guides (elements t) → ∃ r, descend (S (size (mem st))) st (rbh_root st) = Ok r ∧
  match r with Some y => y ∈ elements t ∧ dir y = None | None => ∀ y, y ∈ elements t → dir y ≠ None end.
Proof. intros H Hg. pose proof (fuel_ok st [] t H). pose proof (height_length t). replace (rbh_root st) with (root_of t) by (symmetry; apply H). apply (descend_ok _ _ []); [done..|]. cbn in *. lia. Qed.

End descend.

(** A loop of the code is the way down by its direction. *)
Ltac way_down :=
  cbn; repeat case_test; bool_prop; try done; try (exfalso; lia); cbn; unfold RB_LEFT, RB_RIGHT; cbn [load];
  match goal with IH : ∀ _, _ |- context [mem ?st !! ?x] => destruct (mem st !! x); cbn [obind]; [apply IH|done] end.

(** * The order *)

(** A comparison function as RB_GENERATE needs it. *)
Class Order (cmp : elem → elem → Z) : Prop := {
  cmp_flip x y : Z.sgn (cmp y x) = - Z.sgn (cmp x y);
  cmp_le_trans x y z : cmp x y ≤ 0 → cmp y z ≤ 0 → cmp x z ≤ 0
}.

Section order.
Context (cmp : elem → elem → Z) `{!Order cmp}.

Lemma order_gt x y : 0 < cmp x y ↔ cmp y x < 0.
Proof. pose proof (cmp_flip x y) as H. destruct (cmp x y), (cmp y x); cbn in H; lia. Qed.

Lemma order_eq x y : cmp x y = 0 ↔ cmp y x = 0.
Proof. pose proof (cmp_flip x y) as H. destruct (cmp x y), (cmp y x); cbn in H; lia. Qed.

Lemma order_refl x : cmp x x = 0.
Proof. pose proof (cmp_flip x x) as H. destruct (cmp x x); cbn in H; lia. Qed.

Lemma cmp_lt_le x y z : cmp x y < 0 → cmp y z ≤ 0 → cmp x z < 0.
Proof.
  intros H1 H2. destruct (decide (cmp x z < 0)) as [|Hn]; [done|]. assert (cmp z x ≤ 0) by (pose proof (order_gt x z); pose proof (order_eq x z); lia).
  assert (cmp y x ≤ 0) by by apply (cmp_le_trans y z x). pose proof (order_gt y x). lia.
Qed.

Lemma cmp_le_lt x y z : cmp x y ≤ 0 → cmp y z < 0 → cmp x z < 0.
Proof.
  intros H1 H2. destruct (decide (cmp x z < 0)) as [|Hn]; [done|]. assert (cmp z x ≤ 0) by (pose proof (order_gt x z); pose proof (order_eq x z); lia).
  assert (cmp z y ≤ 0) by by apply (cmp_le_trans z x y). pose proof (order_gt z y). lia.
Qed.

(** The elements of the tree ascend. *)
Definition ascending (l : list elem) : Prop := StronglySorted (λ x y, cmp x y < 0) l.

Lemma ascending_at l1 x l2 : ascending (l1 ++ x :: l2) → (∀ y, y ∈ l1 → cmp y x < 0) ∧ (∀ y, y ∈ l2 → cmp x y < 0).
Proof.
  unfold ascending. rewrite StronglySorted_app, StronglySorted_cons, Forall_forall. intros (H & _ & H2 & _). split; [|done]. intros y Hy. apply H; [done|]. by apply elem_of_cons; left.
Qed.

End order.

Lemma StronglySorted_impl {A} (P Q : A → A → Prop) l : (∀ x y, P x y → Q x y) → StronglySorted P l → StronglySorted Q l.
Proof. intros H. induction 1 as [|x l Hl IH Hx]; constructor; [done|]. eapply Forall_impl; [exact Hx|]. auto. Qed.

(** ** Three ways *)

(** The direction of a comparison. *)
Definition three_way (f : elem → Z) (x : elem) : option side := if f x <? 0 then Some L else if f x >? 0 then Some R else None.

Lemma three_way_None f x : three_way f x = None ↔ f x = 0.
Proof. unfold three_way. repeat case_test; bool_prop; split; intros; try done; lia. Qed.

(** What is looked for compares equal, and comes after what compares greater and before what compares less. *)
Definition falls (f : elem → Z) (l : list elem) : Prop := StronglySorted (λ x y, f x ≤ 0 → f y < 0) l.

Lemma falls_guides f l : falls f l → guides (three_way f) l.
Proof.
  intros H l1 x l2 ->. unfold falls in H. rewrite StronglySorted_app, StronglySorted_cons, Forall_forall in H. destruct H as (H1 & _ & H2 & _).
  unfold three_way at 1. repeat case_test; bool_prop; [| |done]; intros y Hy; rewrite three_way_None.
  - specialize (H2 y Hy). lia.
  - specialize (H1 y x Hy). rewrite elem_of_cons in H1. specialize (H1 (or_introl eq_refl)). lia.
Qed.

Definition found (f : elem → Z) (l : list elem) (r : ptr) : Prop :=
  match r with Some y => y ∈ l ∧ f y = 0 | None => ∀ y, y ∈ l → f y ≠ 0 end.

Lemma three_way_ok f st t : repr st t → falls f (elements t) →
  ∃ r, descend (three_way f) (S (size (mem st))) st (rbh_root st) = Ok r ∧ found f (elements t) r.
Proof.
  intros H Hf. destruct (descend_root (three_way f) st t H (falls_guides _ _ Hf)) as (r & -> & Hr). exists r. split; [done|].
  destruct r as [y|]; cbn; [by rewrite three_way_None in Hr|]. intros y Hy. rewrite <- three_way_None. by apply Hr.
Qed.

Lemma find_descend_eq cmp st e fuel tmp : find_descend cmp fuel st (Some e) tmp = descend (three_way (cmp e)) fuel st tmp.
Proof. revert tmp. unfold three_way. induction fuel as [|fuel IH]; intros [x|]; try done. way_down. Qed.

Lemma lookup_descend_eq beg st value fuel tmp : lookup_descend beg fuel st value tmp = descend (three_way (λ x, value - beg x)) fuel st tmp.
Proof.
  revert tmp. unfold three_way. induction fuel as [|fuel IH]; intros [x|]; try done. way_down.
Qed.

Lemma xlookup_descend_eq xcmp st fuel tmp : xlookup_descend xcmp fuel st tmp = descend (three_way xcmp) fuel st tmp.
Proof. revert tmp. unfold three_way. induction fuel as [|fuel IH]; intros [x|]; try done. way_down. Qed.

Lemma find_falls cmp `{!Order cmp} e l : ascending cmp l → falls (cmp e) l.
Proof. apply StronglySorted_impl; clear l. intros x y Hxy H. by apply (cmp_le_lt cmp e x y). Qed.

(** RB_FIND finds the element that compares equal. *)
Lemma find_ok cmp `{!Order cmp} st t e : repr st t → ascending cmp (elements t) → ∃ r, RB_FIND cmp st (Some e) = Ok r ∧ found (cmp e) (elements t) r.
Proof. intros H Ha. unfold RB_FIND. rewrite find_descend_eq. apply three_way_ok; [done|by apply find_falls]. Qed.

(** The loop of RB_FIND with a count of its comparisons. *)
Fixpoint find_counted (cmp : elem → elem → Z) (fuel : nat) (st : state) (elm tmp : ptr) : outcome (ptr * nat) :=
  match fuel with
  | O => NoFuel
  | S fuel =>
      if null tmp then Ok (None, O)
      else
        let* comp := compare cmp elm tmp in
        if comp <? 0 then let* tmp := RB_LEFT st tmp in let* (r, n) := find_counted cmp fuel st elm tmp in Ok (r, S n)
        else if comp >? 0 then let* tmp := RB_RIGHT st tmp in let* (r, n) := find_counted cmp fuel st elm tmp in Ok (r, S n)
        else Ok (tmp, 1%nat)
  end.

Lemma find_counted_fst cmp fuel st elm tmp :
  find_descend cmp fuel st elm tmp = (let* (r, _) := find_counted cmp fuel st elm tmp in Ok r).
Proof.
  revert tmp. induction fuel as [|fuel IH]; intros tmp; cbn; [done|]. destruct (null tmp); [done|]. destruct (compare cmp elm tmp) as [c| | |]; cbn; [|done..].
  assert (Hc : ∀ o, (let* tmp := o in find_descend cmp fuel st elm tmp) =
    (let* (r, _) := let* tmp := o in let* (r, n) := find_counted cmp fuel st elm tmp in Ok (r, S n) in Ok r)).
  { intros [y| | |]; cbn; [|done..]. rewrite IH. by destruct (find_counted cmp fuel st elm y) as [[]| | |]. }
  repeat case_test; done || apply Hc.
Qed.

(** A comparison for every element on the way. *)
Lemma find_counted_height cmp fuel st k t e r n : repr st (fill k t) →
  find_counted cmp fuel st (Some e) (root_of t) = Ok (r, n) → (n ≤ height t)%nat.
Proof.
  revert k t n. induction fuel as [|fuel IH]; intros k t n H; [done|].
  destruct t as [|c l x rt]; cbn [find_counted root_of null compare obind height]; [by intros [= <- <-]|].
  destruct (children_at _ _ _ _ _ _ H) as [El Er]. destruct (cmp e x <? 0); [|destruct (cmp e x >? 0); [|intros [= <- <-]; lia]].
  - rewrite El. cbn [obind]. intros ([r' m] & E & [= -> <-])%obind_Ok. specialize (IH (Frame L c x rt :: k) l m H E). lia.
  - rewrite Er. cbn [obind]. intros ([r' m] & E & [= -> <-])%obind_Ok. specialize (IH (Frame R c x l :: k) rt m H E). lia.
Qed.

(** C4: RB_FIND in a red-black tree whose elements ascend finds the element that compares equal, if there is one, and
    makes at most twice as many comparisons as the binary logarithm (rounded down) of the number of elements plus one:
    none in the empty tree, at most two among one or two elements. *)
Theorem find_correct cmp `{!Order cmp} st t e : repr st t → rbt t → ascending cmp (elements t) → ∃ r n,
  RB_FIND cmp st (Some e) = Ok r ∧ find_counted cmp (S (size (mem st))) st (Some e) (rbh_root st) = Ok (r, n) ∧
  (n ≤ 2 * Nat.log2 (S (length (elements t))))%nat ∧
  match r with Some y => y ∈ elements t ∧ cmp e y = 0 | None => ∀ y, y ∈ elements t → cmp e y ≠ 0 end.
Proof.
  intros H Hb Ha. destruct (find_ok cmp st t e H Ha) as (r & Hr & Hf). pose proof Hr as Hc. unfold RB_FIND in Hc.
  rewrite find_counted_fst in Hc. apply obind_Ok in Hc as ([r' n] & Hc & [= ->]). exists r, n. split_and!; [done|done| |by destruct r].
  replace (rbh_root st) with (root_of t) in Hc by (symmetry; apply H). pose proof (find_counted_height _ _ _ [] _ _ _ _ H Hc).
  pose proof (rbt_height t Hb). lia.
Qed.

Lemma lookup_ok beg st t value : repr st t → StronglySorted (λ x y, beg x < beg y) (elements t) →
  ∃ r, RB_LOOKUP beg st value = Ok r ∧ found (λ x, value - beg x) (elements t) r.
Proof. intros H Ha. unfold RB_LOOKUP. rewrite lookup_descend_eq. apply three_way_ok; [done|]. eapply StronglySorted_impl; [|exact Ha]. intros x y. cbn. lia. Qed.

Lemma xlookup_ok xcmp st t : repr st t → falls xcmp (elements t) → ∃ r, RB_XLOOKUP xcmp st = Ok r ∧ found xcmp (elements t) r.
Proof. intros H Ha. unfold RB_XLOOKUP. rewrite xlookup_descend_eq. by apply three_way_ok. Qed.

(** ** Ranges *)

Definition range_way (beg : elem → Z) (inside : elem → bool) (value : Z) (x : elem) : option side :=
  if inside x then None else if value >? beg x then Some R else Some L.

Lemma rlookup_descend_eq beg inside st value fuel tmp : rlookup_descend beg inside fuel st value tmp = descend (range_way beg inside value) fuel st tmp.
Proof. revert tmp. unfold range_way. induction fuel as [|fuel IH]; intros [x|]; try done. way_down. Qed.

(** Ranges that are not empty and do not overlap. *)
Definition disjoint_ranges (beg last : elem → Z) (l : list elem) : Prop :=
  (∀ x, x ∈ l → beg x ≤ last x) ∧ StronglySorted (λ x y, last x < beg y) l.

Lemma rlookup_descend_ok beg last inside st t value : repr st t → disjoint_ranges beg last (elements t) →
  (∀ x, x ∈ elements t → inside x = true ↔ beg x ≤ value ≤ last x) →
  ∃ r, rlookup_descend beg inside (S (size (mem st))) st value (rbh_root st) = Ok r ∧
    match r with Some y => y ∈ elements t ∧ beg y ≤ value ≤ last y | None => ∀ y, y ∈ elements t → ¬ (beg y ≤ value ≤ last y) end.
Proof.
  intros H [Hne Hd] Hin. rewrite rlookup_descend_eq. destruct (descend_root (range_way beg inside value) st t H) as (r & -> & Hr).
  - intros l1 x l2 E. rewrite E in Hd, Hne, Hin. rewrite StronglySorted_app, StronglySorted_cons, Forall_forall in Hd. destruct Hd as (H1 & _ & H2 & _).
    pose proof (Hne x ltac:(set_solver)) as Hx. pose proof (Hin x ltac:(set_solver)) as Hix. unfold range_way at 1. destruct (inside x); [done|].
    destruct (value >? beg x) eqn:Ev; bool_prop; intros y Hy; unfold range_way; (destruct (inside y) eqn:Ey; [|by case_test]).
    + apply Hin in Ey; [|set_solver]. specialize (H1 y x Hy ltac:(set_solver)). lia.
    + apply Hin in Ey; [|set_solver]. specialize (H2 y Hy). lia.
  - exists r. split; [done|]. unfold range_way in Hr. destruct r as [y|].
    + destruct Hr as [Hy Hr]. split; [done|]. apply Hin; [done|]. destruct (inside y); [done|]. by case_test_in Hr.
    + intros y Hy Hi. apply (Hr y Hy). apply Hin in Hi; [|done]. by rewrite Hi.
Qed.

Lemma rlookup_ok beg last st t value : repr st t → disjoint_ranges beg last (elements t) → ∃ r, RB_RLOOKUP beg last st value = Ok r ∧
  match r with Some y => y ∈ elements t ∧ beg y ≤ value ≤ last y | None => ∀ y, y ∈ elements t → ¬ (beg y ≤ value ≤ last y) end.
Proof. intros H Hd. apply rlookup_descend_ok; [done..|]. intros x _. rewrite andb_true_iff, Z.geb_leb, !Z.leb_le. done. Qed.

(** As long as no range ends at the end of the type. *)
Lemma rlookup_size_ok w beg siz st t value : repr st t → 0 ≤ w → (∀ x, x ∈ elements t → 0 ≤ beg x ∧ beg x + siz x < 2 ^ w) →
  disjoint_ranges beg (λ x, beg x + siz x - 1) (elements t) → ∃ r, RB_RLOOKUP_SIZE beg w siz st value = Ok r ∧
  match r with Some y => y ∈ elements t ∧ beg y ≤ value < beg y + siz y | None => ∀ y, y ∈ elements t → ¬ (beg y ≤ value < beg y + siz y) end.
Proof.
  intros H Hw Hb Hd. destruct (rlookup_descend_ok beg (λ x, beg x + siz x - 1) (λ x, (value >=? beg x) && (value <? unsigned_of w (beg x + siz x))) st t value H Hd) as (r & E & Hr).
  - intros x Hx. specialize (Hb x Hx). destruct Hd as [Hne _]. specialize (Hne x Hx). cbn in Hne.
    rewrite andb_true_iff, Z.geb_leb, Z.leb_le, Z.ltb_lt, unsigned_of_small by (unfold is_u; lia). lia.
  - exists r. split; [exact E|]. destruct r as [y|]; [split; [apply Hr|destruct Hr; lia]|]. intros y Hy. specialize (Hr y Hy). lia.
Qed.

(** * An example: 5 above 2 and 9, which are red; 7 is not linked. *)

Definition sample : state :=
  State (list_to_map [(2%positive, Entry None None (Some 5%positive) RB_RED); (5%positive, Entry (Some 2%positive) (Some 9%positive) None RB_BLACK);
    (9%positive, Entry None None (Some 5%positive) RB_RED); (7%positive, Entry None None None RB_BLACK)]) (Some 5%positive) [].

Definition sample_tree : tree := T RB_BLACK (T RB_RED Leaf 2%positive Leaf) 5%positive (T RB_RED Leaf 9%positive Leaf).

(** Elements by their number. *)
Definition by_number (x y : elem) : Z := Z.pos x - Z.pos y.

#[export] Instance by_number_order : Order by_number.
Proof. split; unfold by_number; intros; lia. Qed.

Lemma sample_repr : repr sample sample_tree.
Proof. split; [by_decide|]. by split_and!. Qed.

Lemma sample_rbt : rbt sample_tree.
Proof. by split_and!. Qed.

Lemma sample_ascending : ascending by_number (elements sample_tree).
Proof. repeat constructor. Qed.

(** 7 is not found. *)
Lemma find_correct_witness : ∃ r n, RB_FIND by_number sample (Some 7%positive) = Ok r ∧ (n ≤ 4)%nat ∧ ∀ y, r = Some y → y ∈ elements sample_tree.
Proof.
  destruct (find_correct by_number sample sample_tree 7%positive sample_repr sample_rbt sample_ascending) as (r & n & H & _ & Hn & Hr).
  exists r, n. split; [exact H|]. split; [exact Hn|]. intros y ->. apply Hr.
Defined.

End RbSearch.
