(* ===== verification/RbIter.v ===== *)
(** The neighbours of an element: RB_NEXT, RB_PREV, RB_MIN, RB_MAX and RB_FOREACH go through the elements in their order. *)

From stdpp Require Import base list gmap sets.
From S2P Require Import Prelude RbTree RbTreeTheory RbBalance RbSearch.

Module RbIter.
Import RbTree RbTreeTheory RbBalance RbSearch.

(** The first element of a list that is met in direction [d]. *)
Definition first (d : side) (l : list elem) : ptr := match d with R => head l | L => last l end.

Lemma first_None d l : first d l = None → l = [].
Proof. destruct d; cbn; [by intros ?%last_None|by destruct l]. Qed.

(** What is beyond a place in direction [d]. *)
Definition beyond (d : side) (k : list frame) : list elem := match d with R => after k | L => before k end.

Lemma first_beyond d f k : first d (beyond d (f :: k)) = if decide (f_side f = opp d) then Some (f_elem f) else first d (beyond d k).
Proof.
  destruct d; cbn.
  - destruct f as [[] c x s]; cbn; [by rewrite app_nil_r|]. by rewrite app_assoc, last_snoc.
  - by destruct f as [[] c x s].
Qed.

Lemma null_some x : null (Some x) = false.
Proof. apply bool_decide_eq_false_2. done. Qed.

Lemma climb_ok d fuel st k t x : repr st (fill k t) → root_of t = Some x → (length k < fuel)%nat → climb d fuel st (Some x) = Ok (first d (beyond d k)).
Proof.
  revert k t x. induction fuel as [|fuel IH]; intros k t x H Hx Hf; [lia|]. cbn [climb]. rewrite (parent_at _ _ _ _ H Hx). cbn [obind].
  destruct k as [|f k]; [by destruct d|]. cbn [parent_of]. rewrite null_some. destruct (child_is d _ _ _ _ H) as (y & -> & Eq & _); [rewrite Hx; by left|]. cbn [obind].
  rewrite Hx in Eq. rewrite Eq, first_beyond. destruct (bool_decide_reflect (f_side f = d)) as [Hs|Hs].
  - rewrite decide_False by (destruct d; cbn; congruence). apply (IH k (plug f t)); [done| |cbn in Hf; lia]. unfold plug. by rewrite root_node.
  - by rewrite decide_True by (destruct (f_side f), d; done).
Qed.

(** The end of a subtree at side [d]. *)
Lemma furthest_place d fuel st k t : repr st (fill k t) → t ≠ Leaf → (length (elements t) < fuel)%nat →
  ∃ k' c y s, t = fill k' (node d c Leaf y s) ∧ furthest d fuel st (root_of t) = Ok (Some y) ∧ Forall (λ f, f_side f = d) k'.
Proof.
  revert k t. induction fuel as [|fuel IH]; intros k t H Hne Hf; [lia|]. destruct t as [|c l x r]; [done|]. cbn [furthest root_of].
  assert (Ht : ∃ a b, T c l x r = node d c a x b) by (destruct d; by eexists _, _). destruct Ht as (a & b & Et). rewrite Et in *.
  pose proof (entry_at _ _ _ _ _ _ _ H) as Hx. rewrite (proj1 (child_ok _ _ _ _ _ _ _ Hx)). cbn [obind]. rewrite null_root. destruct a as [|c' l' x' r'].
  - by exists [], c, x, b.
  - destruct (IH (Frame d c x b :: k) (T c' l' x' r')) as (k' & c2 & y & s & E & E' & Hk'); [done|done| |].
    { rewrite elements_node in Hf. cbn in *. rewrite !length_app in *. cbn in *. lia. }
    exists (k' ++ [Frame d c x b]), c2, y, s. rewrite fill_app, <- E. split; [done|]. split; [done|]. apply Forall_app. split; [done|by constructor].
Qed.

Lemma one_side d k : Forall (λ f, f_side f = opp d) k → beyond (opp d) k = [] ∧ first d (beyond d k) = match k with [] => None | f :: _ => Some (f_elem f) end.
Proof.
  induction k as [|f k IH]; intros H; [by destruct d|]. inversion_clear H as [|? ? Hf Hk]. destruct (IH Hk) as [IH1 _]. rewrite first_beyond, decide_True by done. split; [|done].
  destruct d; cbn in *; rewrite Hf; [done|by rewrite IH1].
Qed.

Lemma furthest_ok d fuel st k t : repr st (fill k t) → t ≠ Leaf → (length (elements t) < fuel)%nat → furthest (opp d) fuel st (root_of t) = Ok (first d (elements t)).
Proof.
  intros H Hne Hf. destruct (furthest_place (opp d) fuel st k t H Hne Hf) as (k' & c & y & s & -> & -> & Hk). f_equal. rewrite elements_fill.
  destruct (one_side d k' Hk) as [Hb _]. destruct d; cbn in *; rewrite Hb; [|done]. by rewrite app_nil_r, app_assoc, last_snoc.
Qed.

(** RB_NEXT and RB_PREV at a place. *)
Lemma rb_step_ok d st k c a x b : repr st (fill k (node d c a x b)) →
  RB_STEP d st (Some x) = Ok (match first d (elements a) with Some y => Some y | None => first d (beyond d k) end).
Proof.
  intros H. unfold RB_STEP. pose proof (entry_at _ _ _ _ _ _ _ H) as Hx. rewrite (proj1 (child_ok _ _ _ _ _ _ _ Hx)). cbn [obind]. rewrite null_root.
  pose proof (fuel_ok _ _ _ H) as Hf. destruct a as [|ca la xa ra].
  - cbn [negb]. rewrite (parent_at _ _ _ _ H) by apply root_node. cbn [obind]. replace (first d (elements Leaf)) with (@None elem) by by destruct d.
    destruct k as [|f k]; [change (null (parent_of [])) with true; cbn [obind]|].
    + rewrite (climb_ok d _ st [] (node d c Leaf x b)) by (done || apply root_node || (cbn; lia)). done.
    + cbn [parent_of]. rewrite null_some. destruct (child_is (opp d) _ _ _ _ H) as (y & -> & Eq & _); [rewrite root_node; by left|]. cbn [obind]. rewrite root_node in Eq. rewrite Eq.
      destruct (bool_decide_reflect (f_side f = opp d)) as [Hs|Hs]; [by rewrite first_beyond, decide_True|].
      apply (climb_ok d _ st (f :: k) (node d c Leaf x b)); [done|apply root_node|lia].
  - cbn [negb]. rewrite (furthest_ok d _ st (Frame d c x b :: k)); [|done|done|].
    + f_equal. destruct (first d (elements (T ca la xa ra))) eqn:E; [done|]. exfalso. apply first_None in E. cbn in E. by destruct (elements la).
    + rewrite elements_node in Hf. cbn in *. rewrite !length_app in *. cbn in *. lia.
Qed.

Lemma split_unique (x : elem) l1 l2 l1' l2' : NoDup (l1 ++ x :: l2) → l1 ++ x :: l2 = l1' ++ x :: l2' → l1 = l1' ∧ l2 = l2'.
Proof.
  revert l1'. induction l1 as [|y l1 IH]; intros [|y' l1'] Hn; cbn; intros [= E]; subst; try done.
  - apply NoDup_cons in Hn as [Hx _]. destruct Hx. set_solver.
  - apply NoDup_cons in Hn as [Hx _]. destruct Hx. set_solver.
  - apply NoDup_cons in Hn as [_ Hn]. by destruct (IH l1' Hn ltac:(congruence)) as [-> ->].
Qed.

(** The neighbours of an element are those in the order of the elements. *)
Lemma neighbours_ok st t l1 x l2 : repr st t → elements t = l1 ++ x :: l2 → RB_NEXT st (Some x) = Ok (head l2) ∧ RB_PREV st (Some x) = Ok (last l1).
Proof.
  intros H E. destruct (place_of t x) as (k & c & l & r & ->); [rewrite E; set_solver|]. pose proof (proj1 H) as Hn.
  rewrite elements_fill in E, Hn. cbn in E, Hn. rewrite <- app_assoc, app_assoc in E, Hn. destruct (split_unique x _ _ _ _ Hn E) as [<- <-]. unfold RB_NEXT, RB_PREV.
  rewrite (rb_step_ok R st k c r x l H), (rb_step_ok L st k c l x r H). cbn. rewrite last_app. split; [by destruct (elements r)|done].
Qed.

(** * The ends *)

Lemma minmax_ok st k t val fuel : repr st (fill k t) → (length (elements t) < fuel)%nat →
  minmax fuel st val (root_of t) (parent_of k) = Ok (match first (if val <? 0 then R else L) (elements t) with Some y => Some y | None => parent_of k end).
Proof.
  revert k t. induction fuel as [|fuel IH]; intros k t H Hf; [lia|]. destruct t as [|c l x r]; cbn [minmax root_of]; [by destruct (val <? 0)|].
  rewrite null_some. destruct (children_at _ _ _ _ _ _ H) as [El Er]. cbn in Hf. rewrite length_app in Hf. cbn in Hf. destruct (val <? 0).
  - rewrite El. cbn [obind]. change (Some x) with (parent_of (Frame L c x r :: k)). rewrite (IH (Frame L c x r :: k) l) by (done || lia). cbn. by destruct (elements l).
  - rewrite Er. cbn [obind]. change (Some x) with (parent_of (Frame R c x l :: k)). rewrite (IH (Frame R c x l :: k) r) by (done || lia). cbn [first elements]. rewrite last_app, last_cons.
    by destruct (last (elements r)).
Qed.

Lemma ends_ok st t val : repr st t → RB_MINMAX st val = Ok (if val <? 0 then head (elements t) else last (elements t)).
Proof.
  intros H. unfold RB_MINMAX. replace (rbh_root st) with (root_of t) by (symmetry; apply H). pose proof (minmax_ok st [] t val (S (size (mem st))) H) as E. cbn [parent_of] in E.
  rewrite E by (pose proof (fuel_ok st [] t H); lia). destruct (val <? 0); cbn; [by destruct (head _)|by destruct (last _)].
Qed.

Lemma foreach_from_ok fuel st t l1 l2 : repr st t → elements t = l1 ++ l2 → (length l2 < fuel)%nat → foreach_from fuel st (head l2) = Ok l2.
Proof.
  revert l1 l2. induction fuel as [|fuel IH]; intros l1 l2 H E Hf; [lia|]. destruct l2 as [|x l2]; [done|]. cbn [foreach_from head].
  rewrite (proj1 (neighbours_ok st t l1 x l2 H E)). cbn [obind]. cbn in Hf. rewrite (IH (l1 ++ [x]) l2 H) by (done || lia || by rewrite <- app_assoc). done.
Qed.

(** RB_FOREACH. *)
Lemma foreach_ok st t : repr st t → RB_FOREACH st = Ok (elements t).
Proof.
  intros H. unfold RB_FOREACH. rewrite (ends_ok st t RB_NEGINF H). cbn [obind Z.ltb Z.compare RB_NEGINF]. apply (foreach_from_ok _ st t []); [done..|].
  pose proof (fuel_ok st [] t H). lia.
Qed.

End RbIter.
