(* ===== verification/RbInsert.v ===== *)
(** RB_INSERT keeps a red-black tree and adds the element at its place in the order. *)

From stdpp Require Import base list gmap sets sorting.
From S2P Require Import Prelude RbTree RbTreeTheory RbRotate RbBalance RbSearch.

Module RbInsert.
Import RbTree RbTreeTheory RbRotate RbBalance RbSearch.

(** What rebalancing does: the elements stay in their order, and the tree is a red-black tree. *)
Definition balances (o : outcome state) (st : state) (t : tree) : Prop :=
  ∃ st' t', o = Ok st' ∧ repr st' t' ∧ elements t' = elements t ∧ rbt t' ∧ only (elements t) st st'.

Lemma balances_after st st1 t t1 o : only (elements t) st st1 → elements t1 = elements t → balances o st1 t1 → balances o st t.
Proof.
  intros O1 E1 (st' & t' & -> & H & E & Hb & O). exists st', t'. split_and!; [done|done|congruence|done|]. eapply only_trans; [exact O1|]. by rewrite <- E1.
Qed.

(** The end of both loops. *)
Lemma blacken_root st t : repr st t → rb t → t ≠ Leaf → balances (store st (rbh_root st) (set_color RB_BLACK)) st t.
Proof.
  intros H Hb Hne. destruct (paint_ok st [] t RB_BLACK H) as (st' & E & H' & O). assert (Er : rbh_root st = root_of t) by apply H. rewrite Er.
  destruct t as [|c l x r]; [done|]. cbn [root_of] in *. rewrite store_some in E. rewrite E. exists st', (paint RB_BLACK (T c l x r)). split_and!; try done.
  split; [by apply rb_paint|done].
Qed.

Lemma only_within k t st st' : only (elements t) st st' → only (elements (fill k t)) st st'.
Proof. apply only_more. rewrite elements_fill. set_solver. Qed.

(** Trees that differ in colours and rotations have the same elements. *)
Ltac elems :=
  cbn [fill]; unfold plug; cbn [f_side f_color f_elem f_sib]; rewrite ?elements_fill;
  repeat match goal with d : side |- _ => destruct d end; repeat (progress (cbn; rewrite ?elements_paint, <- ?app_assoc)); done.

Lemma only_eq l l' st st' : l = l' → only l st st' → only l' st st'.
Proof. by intros ->. Qed.

Ltac only_steps :=
  match goal with
  | H : only ?l ?a ?b |- only ?l' ?a ?b => apply (only_eq l l'); [elems|exact H]
  | H : only ?l ?a _ |- only ?l' ?a _ => eapply only_trans; [apply (only_eq l l'); [elems|exact H]|]; clear H; only_steps
  end.

Lemma paint_node_ok c' st k d c a x b : repr st (fill k (node d c a x b)) → ∃ st', store st (Some x) (set_color c') = Ok st' ∧
  repr st' (fill k (node d c' a x b)) ∧ only (elements (fill k (node d c a x b))) st st'.
Proof.
  intros H. destruct (paint_ok st k _ c' H) as (st' & E & H' & O). rewrite root_node, store_some in E. rewrite paint_node in H'.
  exists st'. split; [done|]. split; [done|]. by apply only_within.
Qed.

(** A child of the place and the sibling of its parent are red: the two become black, and the node above them red. *)
Lemma recolor_ok st k d d' t s u p g : repr st (fill k (node d' RB_BLACK (node d RB_RED t p s) g u)) → u ≠ Leaf →
  ∃ st', (let* st := store st (root_of u) (set_color RB_BLACK) in RB_SET_BLACKRED st (Some p) (Some g)) = Ok st' ∧
    repr st' (fill k (node d' RB_RED (node d RB_BLACK t p s) g (paint RB_BLACK u))) ∧
    only (elements (fill k (node d' RB_BLACK (node d RB_RED t p s) g u))) st st'.
Proof.
  intros H Hu. rewrite <- node_opp in H |- *. destruct (paint_ok st (Frame (opp d') RB_BLACK g (node d RB_RED t p s) :: k) u RB_BLACK H) as (st1 & E1 & H1 & O1).
  apply (only_within (Frame (opp d') RB_BLACK g (node d RB_RED t p s) :: k)) in O1.
  destruct u as [|cu lu xu ru]; [done|]. cbn [root_of] in *. rewrite store_some in E1. rewrite E1. cbn [obind]. cbn [fill] in H1. unfold plug in H1. cbn in H1.
  rewrite node_opp in H1. unfold RB_SET_BLACKRED.
  destruct (paint_node_ok RB_BLACK st1 (Frame d' RB_BLACK g (T RB_BLACK lu xu ru) :: k) _ _ _ _ _ H1) as (st2 & -> & H2 & O2). cbn [obind].
  destruct (paint_node_ok RB_RED st2 k d' RB_BLACK (node d RB_BLACK t p s) g (T RB_BLACK lu xu ru) H2) as (st3 & -> & H3 & O3). exists st3. split; [done|]. rewrite node_opp. split; [done|].
  only_steps.
Qed.

(** The last step: the parent becomes black, the node above it red, and the latter is rotated away from the place. *)
Lemma lift_ok st k d t s u p g : repr st (fill k (node d RB_BLACK (node d RB_RED t p s) g u)) →
  ∃ st', (let* st := RB_SET_BLACKRED st (Some p) (Some g) in RB_ROTATE (opp d) st (Some g)) = Ok st' ∧
    repr st' (fill k (node d RB_BLACK t p (node d RB_RED s g u))) ∧
    only (elements (fill k (node d RB_BLACK (node d RB_RED t p s) g u))) st st'.
Proof.
  intros H. unfold RB_SET_BLACKRED.
  destruct (paint_node_ok RB_BLACK st (Frame d RB_BLACK g u :: k) _ _ _ _ _ H) as (st1 & -> & H1 & O1). cbn [obind].
  destruct (paint_node_ok RB_RED st1 k d RB_BLACK (node d RB_BLACK t p s) g u H1) as (st2 & -> & H2 & O2). cbn [obind f_sib].
  assert (H2' : repr st2 (fill k (node (opp d) RB_RED u g (node (opp d) RB_BLACK s p t)))) by by rewrite !node_opp.
  destruct (rotate_ok (opp d) st2 k RB_RED u g RB_BLACK s p t H2') as (st3 & -> & H3 & O3). exists st3. split; [done|]. rewrite !node_opp in H3. split; [done|].
  apply (only_more _ (elements (fill k (node (opp d) RB_RED u g (node (opp d) RB_BLACK s p t))))) in O3; [only_steps|].
  intros z Hz. rewrite elements_perm, !elements_node. set_solver.
Qed.

Lemma inner_ok st k d t1 t2 x s p : repr st (fill k (node d RB_RED s p (node d RB_RED t1 x t2))) →
  ∃ st', RB_ROTATE d st (Some p) = Ok st' ∧ repr st' (fill k (node d RB_RED (node d RB_RED s p t1) x t2)) ∧
    only (elements (fill k (node d RB_RED s p (node d RB_RED t1 x t2)))) st st'.
Proof.
  intros H. destruct (rotate_ok _ _ _ _ _ _ _ _ _ _ H) as (st' & -> & H' & O). exists st'. split; [done|]. split; [done|].
  eapply only_more; [|exact O]. intros z Hz. rewrite elements_perm, !elements_node. set_solver.
Qed.

Lemma split_node d t : red t = true → ∃ a x b, t = node d RB_RED a x b ∧ root_of t = Some x.
Proof. destruct t as [|[] l x r]; try done. intros _. destruct d; [by exists l, x, r|by exists r, x, l]. Qed.

(** Once the parent is black, or there is none. *)
Lemma insert_done st k t : repr st (fill k t) → red t = true → rb t → rb_place k (bheight t) → k = [] ∨ top_black k →
  balances (store st (rbh_root st) (set_color RB_BLACK)) st (fill k t).
Proof.
  intros H Hr Hb Hp Hk. apply blacken_root; [done|by apply rb_fill|]. intros E. apply (f_equal elements) in E. rewrite elements_fill in E.
  destruct t; [done|]. cbn in E. by destruct (before k), (elements t1).
Qed.

(** The place after the last rotation. *)
Lemma lifted fuel st st1 k2 d t x s p u g T : 
  (∀ st k t x, repr st (fill k t) → root_of t = Some x → red t = true → rb t → rb_place k (bheight t) → (length k < fuel)%nat →
    balances (RB_INSERT_COLOR fuel st (Some x)) st (fill k t)) →
  repr st1 (fill k2 (node d RB_BLACK (node d RB_RED t p s) g u)) → root_of t = Some x → red t = true → rb t → (S (length k2) < fuel)%nat →
  rb s → bheight s = bheight t → red s = false → rb u → bheight u = bheight t → red u = false → rb_place k2 (S (bheight t)) →
  only (elements T) st st1 → elements (fill k2 (node d RB_BLACK (node d RB_RED t p s) g u)) = elements T →
  balances (let* st := RB_SET_BLACKRED st1 (Some p) (Some g) in let* st := RB_ROTATE (opp d) st (Some g) in RB_INSERT_COLOR fuel st (Some x)) st T.
Proof.
  intros IH H1 Hx Hr Hb Hf Hs Hhs Hrs Hu Hhu Hru Hk O E. destruct (lift_ok st1 k2 d t s u p g H1) as (st2 & E2 & H2 & O2).
  destruct (RB_SET_BLACKRED st1 (Some p) (Some g)) as [st3| | |]; try done. cbn [obind] in E2 |- *. rewrite E2. cbn [obind].
  apply (balances_after st st2 _ (fill (Frame d RB_BLACK p (node d RB_RED s g u) :: k2) t)).
  - eapply only_trans; [exact O|]. rewrite <- E. exact O2.
  - rewrite <- E. elems.
  - apply IH; try done. cbn. rewrite rb_node, bheight_node by congruence. split_and!; try done. congruence.
Qed.

Lemma insert_color_ok fuel st k t x : repr st (fill k t) → root_of t = Some x → red t = true → rb t → rb_place k (bheight t) → (length k < fuel)%nat →
  balances (RB_INSERT_COLOR fuel st (Some x)) st (fill k t).
Proof.
  revert st k t x. induction fuel as [|fuel IH]; intros st k t x H Hx Hr Hb Hk Hf; [lia|]. cbn [RB_INSERT_COLOR]. rewrite (parent_at _ _ _ _ H Hx). cbn [obind].
  destruct k as [|[d c p s] k1]; [apply (insert_done st [] t); try done; by left|]. pose proof (is_red_ok st k1 _ H) as Er. unfold plug in Er. cbn in Er.
  rewrite root_node, red_node in Er. cbn [parent_of f_elem]. rewrite Er. cbn [obind]. destruct c; cbn [bool_decide]; [apply insert_done; try done; by right|].
  rewrite bool_decide_eq_true_2 by done. cbn in Hk. destruct Hk as (Hs & Hhs & Hc & Hk). destruct (Hc eq_refl) as [Hrs Htop].
  destruct k1 as [|[d' c g u] k2]; [done|]. cbn in Htop. subst c. cbn in Hk. destruct Hk as (Hu & Hhu & _ & Hk).
  rewrite (parent_at st (Frame d' RB_BLACK g u :: k2) (node d RB_RED t p s) p H) by apply root_node. cbn [obind parent_of f_elem].
  destruct (child_is L st (Frame d' RB_BLACK g u) k2 (node d RB_RED t p s) H) as (l & El & Eq & _); [rewrite root_node; by left|].
  cbn [RB_CHILD f_elem f_side] in El, Eq. rewrite root_node in Eq. rewrite El. cbn [obind]. rewrite Eq. replace (if bool_decide (d' = L) then L else R) with d' by by destruct d'.
  pose proof (entry_above _ _ _ _ (H : repr st (fill (Frame d' RB_BLACK g u :: k2) (node d RB_RED t p s)))) as Hg. cbn in Hg.
  rewrite (proj1 (proj2 (child_ok _ _ _ _ _ _ _ Hg))). cbn [obind].
  assert (Hu' : is_red st (root_of u) = Ok (red u)).
  { apply (is_red_ok st (Frame (opp d') RB_BLACK g (node d RB_RED t p s) :: k2)). cbn [fill]. unfold plug. cbn. rewrite node_opp. exact H. }
  rewrite Hu'. cbn [obind]. destruct (red u) eqn:Eu.
  - destruct (recolor_ok st k2 d d' t s u p g H) as (st1 & E1 & H1 & O1); [by destruct u|].
    destruct (store st (root_of u) (set_color RB_BLACK)) as [st2| | |]; try done. cbn [obind] in E1 |- *. rewrite E1. cbn [obind].
    apply (balances_after st st1 _ (fill k2 (node d' RB_RED (node d RB_BLACK t p s) g (paint RB_BLACK u)))); [exact O1|elems|].
    assert (Hh : bheight (node d RB_BLACK t p s) = bheight (paint RB_BLACK u)).
    { rewrite bheight_node, bheight_paint, Eu by done. cbn. lia. }
    apply IH; [done|by rewrite root_node|by rewrite red_node| |rewrite bheight_node, bheight_node by done; exact Hk|cbn in Hf; lia].
    rewrite rb_node. split_and!; [done| |rewrite rb_node; done|by apply rb_paint]. intros _. by rewrite red_node, red_paint.
  - destruct (child_is (opp d') st (Frame d RB_RED p s) (Frame d' RB_BLACK g u :: k2) t H) as (y & Ey & _ & Eqy); [rewrite Hx; by left|].
    cbn [f_elem f_side] in Ey, Eqy. rewrite Hx in Eqy. rewrite Ey. cbn [obind]. rewrite Eqy. clear Ey Eqy y. destruct (bool_decide_reflect (d = opp d')) as [->|Hd].
    + destruct (split_node d' t Hr) as (t1 & z & t2 & -> & Hz). rewrite Hx in Hz. injection Hz as <-. apply rb_node in Hb as (Hh & Hc' & Hb1 & Hb2).
      destruct (Hc' eq_refl) as [Hr1 Hr2]. rewrite bheight_node in * by done. cbn in Hk, Hhs, Hhu. pose proof H as H'. cbn [fill] in H'. unfold plug in H'. cbn in H'. rewrite node_opp in H'.
      destruct (inner_ok st (Frame d' RB_BLACK g u :: k2) d' t1 t2 x s p H') as (st1 & -> & H1 & O1). cbn [obind].
      assert (Hb' : bheight (node d' RB_RED s p t1) = bheight t1) by by rewrite bheight_node.
      apply (lifted fuel st st1 k2 d' (node d' RB_RED s p t1) p t2 x u g); try done.
      * by rewrite root_node.
      * by rewrite red_node.
      * by rewrite rb_node.
      * cbn in Hf. lia.
      * congruence.
      * congruence.
      * by rewrite Hb'.
      * eapply only_eq; [|exact O1]. elems.
      * elems.
    + assert (d = d') as -> by (by destruct d, d'). apply (lifted fuel st st k2 d' t x s p u g); try done. cbn in Hf. lia.
Qed.

(** * A new leaf *)

(** The link from the parent to the new element. *)
Definition linked (k : list frame) (comp : Z) : Prop := match k with [] => True | f :: _ => if comp <? 0 then f_side f = L else f_side f = R end.

Lemma attach_ok st k e e0 comp : repr st (fill k Leaf) → e ∉ elements (fill k Leaf) → mem st !! e = Some e0 → linked k comp →
  ∃ st', (let* st := RB_SET st (Some e) (parent_of k) in
      if negb (null (parent_of k)) then store st (parent_of k) (if comp <? 0 then set_left (Some e) else set_right (Some e))
      else Ok (set_root st (Some e))) = Ok st' ∧
    repr st' (fill k (T RB_RED Leaf e Leaf)) ∧ only (e :: elements (fill k Leaf)) st st'.
Proof.
  intros H He Hm Hc. unfold RB_SET. rewrite (store_ok _ _ _ _ Hm). cbn [obind]. set (st1 := upd st e _).
  assert (O1 : only [e] st st1) by by eapply only_upd. assert (He1 : mem st1 !! e = Some (Entry None None (parent_of k) RB_RED)) by (cbn; apply lookup_insert_eq).
  assert (Hn : NoDup (elements (T RB_RED Leaf e Leaf) ++ around k)).
  { cbn. rewrite elements_perm in He. apply NoDup_cons. split; [exact He|]. rewrite repr_fill in H. apply H. }
  destruct k as [|[d c x s] k].
  - exists (set_root st1 (Some e)). split; [done|]. split; [|eapply only_more; [|exact O1]; set_solver]. apply (repr_fill _ []). split_and!; done.
  - cbn [parent_of null eqp f_elem]. unfold null, eqp. rewrite bool_decide_eq_false_2 by done. cbn [negb]. pose proof (entry_above _ _ _ _ H) as Hx. cbn in Hx, Hc.
    apply (repr_fill _ (_ :: _)) in H as (Hn' & _ & (_ & Hs & Hk)). cbn [f_sib f_elem f_side f_color] in Hs, Hk.
    assert (Hfresh : x ≠ e ∧ e ∉ elements s ∧ e ∉ around k ∧ x ∉ elements s ∧ x ∉ around k).
    { revert Hn. clear. pose proof (around_cons (Frame d c x s) k) as Ha. cbn in Ha. rewrite Ha. cbn. rewrite !NoDup_cons. set_solver. }
    destruct Hfresh as (Hxe & Hes & Hek & Hxs & Hxk). assert (Hx1 : mem st1 !! x = Some (entry_of d None (root_of s) (parent_of k) c)) by (cbn; by rewrite lookup_insert_ne).
    replace (if comp <? 0 then set_left (Some e) else set_right (Some e)) with (set_child d (Some e)) by by destruct (comp <? 0), d.
    rewrite (store_ok _ _ _ _ Hx1), set_child_entry. set (st2 := upd st1 x _). exists st2. split; [done|]. assert (O2 : only [x] st1 st2) by by eapply only_upd. split.
    + rewrite repr_fill. split; [exact Hn|]. split.
      * cbn [at_tree]. split_and!; [|done|done]. cbn. by rewrite lookup_insert_ne.
      * split; [cbn; apply lookup_insert_eq|]. cbn [f_sib f_elem]. split.
        -- eapply at_tree_frame; [|exact Hs]. intros z Hz. cbn. by rewrite !lookup_insert_ne by congruence.
        -- eapply at_place_frame; [|exact Hk]. intros z Hz. cbn. by rewrite !lookup_insert_ne by congruence.
    + assert (Hin : x ∈ elements (fill (Frame d c x s :: k) Leaf)) by (rewrite elements_perm, around_cons; cbn; set_solver).
      eapply only_trans; (eapply only_more; [|done]); set_solver.
Qed.

Section insert.
Context (cmp : elem → elem → Z) `{!Order cmp}.

(** The way down ends at an element that compares equal, or at the place of the new one. *)
Lemma insert_descend_ok fuel st e k t comp : repr st (fill k t) → ascending cmp (elements (fill k t)) →
  (∀ y, y ∈ before k → 0 < cmp e y) → (∀ y, y ∈ after k → cmp e y < 0) → linked k comp → (length (elements t) < fuel)%nat →
  (∃ y, insert_descend cmp fuel st (Some e) (root_of t) (parent_of k) comp = Ok (inl (Some y)) ∧ y ∈ elements t ∧ cmp e y = 0) ∨
  (∃ k' comp', insert_descend cmp fuel st (Some e) (root_of t) (parent_of k) comp = Ok (inr (parent_of k', comp')) ∧ fill k' Leaf = fill k t ∧ linked k' comp' ∧
    (∀ y, y ∈ before k' → 0 < cmp e y) ∧ (∀ y, y ∈ after k' → cmp e y < 0)).
Proof.
  revert k t comp. induction fuel as [|fuel IH]; intros k t comp H Ha Hb Hf Hl Hlen; [lia|]. destruct t as [|c l x r].
  { right. by exists k, comp. }
  cbn [insert_descend root_of]. unfold null, eqp. rewrite bool_decide_eq_false_2 by done. cbn [compare obind].
  destruct (children_at _ _ _ _ _ _ H) as [El Er]. cbn in Hlen. rewrite length_app in Hlen. cbn in Hlen.
  assert (Hx : (∀ y, y ∈ elements l → cmp y x < 0) ∧ (∀ y, y ∈ elements r → cmp x y < 0)).
  { rewrite elements_fill in Ha. cbn in Ha. rewrite <- app_assoc, app_assoc in Ha. apply ascending_at in Ha as [H1 H2]. split; intros y Hy; [apply H1|apply H2]; set_solver. }
  destruct Hx as [Hxl Hxr]. destruct (cmp e x <? 0) eqn:E1; [|destruct (cmp e x >? 0) eqn:E2]; bool_prop.
  - rewrite El. cbn [obind]. destruct (IH (Frame L c x r :: k) l (cmp e x)) as [(y & Ey & Hy & Hc)|IH']; try done.
    + cbn. by rewrite app_nil_r.
    + cbn. intros y. rewrite elem_of_cons, elem_of_app. intros [->|[Hy|Hy]]; [done| |by apply Hf]. apply (cmp_lt_le cmp e x y); [done|]. specialize (Hxr y Hy). lia.
    + cbn. by rewrite (proj2 (Z.ltb_lt _ _)).
    + lia.
    + left. exists y. split; [exact Ey|]. split; [set_solver|done].
    + right. exact IH'.
  - rewrite Er. cbn [obind]. destruct (IH (Frame R c x l :: k) r (cmp e x)) as [(y & Ey & Hy & Hc)|IH']; try done.
    + cbn. intros y Hy. assert (y ∈ before k ∨ y ∈ elements l ∨ y = x) as [Hy'|[Hy'| ->]] by set_solver; [by apply Hb| |lia]. apply (order_gt cmp). apply (cmp_lt_le cmp y x e); [by apply Hxl|].
      pose proof (order_gt cmp e x). lia.
    + cbn. by rewrite (proj2 (Z.ltb_ge _ _)).
    + lia.
    + left. exists y. split; [exact Ey|]. split; [set_solver|done].
    + right. exact IH'.
  - left. exists x. split; [done|]. split; [set_solver|lia].
Qed.

End insert.

(** C2: RB_INSERT in a red-black tree whose elements ascend: if there is an element that compares equal, it is
    returned and nothing changes; otherwise the result is NULL, and the memory has a red-black tree
    with the new element in its place among the others, which keep their order.  No entry outside the tree is written,
    and no pointer that is NULL is followed. *)
Theorem insert_correct (cmp : elem → elem → Z) `{!Order cmp} st t e : repr st t → rbt t → ascending cmp (elements t) → is_Some (mem st !! e) →
  ∃ st' r, RB_INSERT cmp st (Some e) = Ok (st', r) ∧
    match r with
    | Some y => st' = st ∧ y ∈ elements t ∧ cmp e y = 0
    | None => ∃ t' l1 l2, elements t = l1 ++ l2 ∧ elements t' = l1 ++ e :: l2 ∧ ascending cmp (elements t') ∧ repr st' t' ∧ rbt t' ∧
        only (e :: elements t) st st'
    end.
Proof.
  intros H [Hb Hr] Ha [e0 He]. unfold RB_INSERT. pose proof (fuel_ok st [] t H) as Hf.
  destruct (insert_descend_ok cmp (S (size (mem st))) st e [] t 0 H Ha) as [(y & Ey & Hy & Hc)|(k & comp & Ek & Efill & Hl & H1 & H2)]; try done.
  { intros y Hy. by apply elem_of_nil in Hy. } { intros y Hy. by apply elem_of_nil in Hy. }
  - replace (rbh_root st) with (root_of t) by (symmetry; apply H). cbn [parent_of] in Ey. rewrite Ey. cbn [obind]. by exists st, (Some y).
  - replace (rbh_root st) with (root_of t) by (symmetry; apply H). cbn [parent_of] in Ek. rewrite Ek. cbn [obind]. cbn [fill] in Efill. subst t.
    assert (Hfresh : e ∉ elements (fill k Leaf)).
    { rewrite elements_fill. cbn. pose proof (order_refl cmp e). rewrite elem_of_app. intros [Hy|Hy]; [specialize (H1 e Hy)|specialize (H2 e Hy)]; lia. }
    destruct (attach_ok st k e e0 comp H Hfresh He Hl) as (st1 & E1 & Hr1 & O1).
    destruct (RB_SET st (Some e) (parent_of k)) as [st0| | |]; try done. cbn [obind] in E1 |- *. rewrite E1. cbn [obind].
    destruct (rb_unfill k Leaf Hb Hr) as (_ & Hplace & _).
    destruct (insert_color_ok (S (size (mem st1))) st1 k (T RB_RED Leaf e Leaf) e) as (st' & t' & E2 & H' & Eelem & Hb' & O2); try done.
    { pose proof (fuel_ok st1 k (T RB_RED Leaf e Leaf) Hr1). lia. }
    rewrite E2. cbn [obind]. exists st', None. split; [done|]. exists t', (before k), (after k). rewrite !elements_fill in *. cbn in *. split_and!; try done.
    + rewrite Eelem. unfold ascending in *. rewrite StronglySorted_app in Ha |- *. destruct Ha as (Hba & Hbb & Haa). rewrite StronglySorted_cons, Forall_forall. split_and!; try done.
      intros y z Hy. rewrite elem_of_cons. intros [->|Hz]; [|by apply Hba]. specialize (H1 y Hy). pose proof (order_gt cmp e y). lia.
    + eapply only_trans; [exact O1|]. eapply only_more; [|exact O2]. set_solver.
Qed.

(** 7 is inserted. *)
Lemma insert_correct_witness : ∃ st' r, RB_INSERT by_number sample (Some 7%positive) = Ok (st', r) ∧ match r with Some y => y ∈ elements sample_tree | None => ∃ t', repr st' t' ∧ rbt t' end.
Proof.
  destruct (insert_correct by_number sample sample_tree 7%positive sample_repr sample_rbt sample_ascending) as (st' & r & H & Hr); [by eexists|].
  exists st', r. split; [exact H|]. destruct r as [y|]; [apply Hr|]. destruct Hr as (t' & l1 & l2 & _ & _ & _ & H1 & H2 & _). by exists t'.
Defined.

End RbInsert.
