(* ===== verification/RbRemove.v ===== *)
(** RB_REMOVE keeps a red-black tree and takes the element out of it. *)

From stdpp Require Import base list gmap sets sorting.
From S2P Require Import Prelude RbTree RbTreeTheory RbRotate RbBalance RbSearch RbIter RbInsert.

Module RbRemove.
Import RbTree RbTreeTheory RbRotate RbBalance RbSearch RbIter RbInsert.

(** * Rebalancing *)

(** The root of a tree that has a place with something above it is black. *)
Lemma place_black k h t : rb_place k h → k ≠ [] → red (fill k t) = false.
Proof.
  revert h t. induction k as [|f k IH]; intros h t Hk Hne; [done|]. cbn in Hk |- *. destruct Hk as (_ & _ & Hc & Hk). destruct k as [|f' k'].
  - cbn. unfold plug. rewrite red_node. destruct (f_color f); [done|]. by destruct (Hc eq_refl).
  - by eapply IH.
Qed.

Lemma root_elsewhere st f k t : repr st (fill (f :: k) t) → eqp (root_of t) (rbh_root st) = false.
Proof.
  intros H. unfold eqp. apply bool_decide_eq_false_2. intros E. pose proof H as (Hn & _ & Er). rewrite Er in E.
  assert (Hin : ∀ k f t, ∃ z, root_of (fill (f :: k) t) = Some z ∧ z ∈ around (f :: k)).
  { clear. induction k as [|f' k IH]; intros f t.
    - exists (f_elem f). split; [cbn; unfold plug; by rewrite root_node|rewrite around_cons; set_solver].
    - destruct (IH f' (plug f t)) as (z & Hz & Hz'). exists z. split; [exact Hz|]. rewrite around_cons. set_solver. }
  destruct (Hin k f t) as (z & Hz & Hz'). rewrite Hz in E. rewrite elements_perm, NoDup_app in Hn. destruct Hn as (_ & Hd & _).
  destruct t; [done|]. injection E as ->. apply (Hd z); [cbn; set_solver|done].
Qed.

(** Once the place is red, or is the root. *)
Lemma remove_done st k t : repr st (fill k t) → rb (paint RB_BLACK t) → k = [] ∨ red t = true ∧ rb_place k (S (bheight t)) →
  balances (store_if st (root_of t) (set_color RB_BLACK)) st (fill k t).
Proof.
  intros H Hb Hk. destruct (paint_ok st k t RB_BLACK H) as (st' & E & H' & O). exists st', (fill k (paint RB_BLACK t)). split_and!; [done|done| | |by apply only_within].
  - by rewrite !elements_fill, elements_paint.
  - split.
    + apply rb_fill; [done| |by rewrite red_paint]. destruct Hk as [->|[Hr Hk]]; [done|]. by rewrite bheight_paint, Hr.
    + destruct Hk as [->|[Hr Hk]]; [apply red_paint|]. destruct k as [|f k]; [apply red_paint|]. by eapply place_black.
Qed.

(** The sibling of the place, if it is red, becomes its grandparent; then its sibling is black. *)
Lemma red_sibling_ok st k d c s p w : repr st (fill k (node d c s p w)) → rb w → w ≠ Leaf → (red w = true → c = RB_BLACK) →
  ∃ st' k' c' w', red_sibling d st (Some p) (root_of w) = Ok (st', root_of w') ∧ repr st' (fill k' (node d c' s p w')) ∧
    red w' = false ∧ rb w' ∧ bheight w' = bheight w ∧ ((length k' ≤ length k)%nat ∨ c' = RB_RED) ∧ only (elements (fill k (node d c s p w))) st st' ∧
    elements (fill k' (node d c' s p w')) = elements (fill k (node d c s p w)) ∧
    (∀ h, rb_place (Frame d c p w :: k) h → rb_place (Frame d c' p w' :: k') h).
Proof.
  intros H Hb Hne Hc. unfold red_sibling. destruct (red w) eqn:Er.
  - destruct (split_node d w Er) as (a & x & b & -> & Hx). rewrite Hx. rewrite (Hc eq_refl) in *. apply rb_node in Hb as (Hh & Hcc & Ha & Hb). destruct (Hcc eq_refl) as [Hra Hrb].
    assert (Hcol : RB_COLOR st (Some x) = Ok RB_RED).
    { rewrite <- (node_opp d RB_BLACK) in H. apply (entry_at d st (Frame (opp d) RB_BLACK p s :: k)), (child_ok d) in H. apply H. }
    rewrite Hcol. cbn [obind]. rewrite bool_decide_eq_true_2 by done. unfold RB_SET_BLACKRED.
    assert (H' : repr st (fill (Frame (opp d) RB_BLACK p s :: k) (node d RB_RED a x b))) by (cbn; unfold plug; cbn; by rewrite node_opp).
    destruct (paint_node_ok RB_BLACK st _ d RB_RED a x b H') as (st1 & -> & H1 & O1). cbn [obind]. cbn [fill] in H1. unfold plug in H1. cbn in H1. rewrite node_opp in H1.
    destruct (paint_node_ok RB_RED st1 k d RB_BLACK s p _ H1) as (st2 & -> & H2 & O2). cbn [obind].
    destruct (rotate_ok d st2 k RB_RED s p RB_BLACK a x b H2) as (st3 & -> & H3 & O3). cbn [obind].
    pose proof (entry_at d st3 (Frame d RB_BLACK x b :: k) _ _ _ _ H3) as Hp. rewrite (proj1 (proj2 (child_ok _ _ _ _ _ _ _ Hp))). cbn [obind].
    exists st3, (Frame d RB_BLACK x b :: k), RB_RED, a. split_and!; try done.
    + by rewrite bheight_node.
    + by right.
    + apply (only_more _ (elements (fill k (node d RB_RED s p (node d RB_BLACK a x b))))) in O3; [only_steps|].
      intros z Hz. rewrite elements_perm, !elements_node. set_solver.
    + elems.
    + intros h. cbn. rewrite bheight_node by done. intros (_ & Hh' & _ & Hk). cbn in Hh'. split_and!; try done; congruence.
  - exists st, k, c, w. destruct w as [|cw l x r]; [done|]. assert (Hcol : RB_COLOR st (Some x) = Ok cw).
    { rewrite <- (node_opp d c) in H. apply (entry_at L st (Frame (opp d) c p s :: k)), (child_ok L) in H. apply H. }
    cbn [root_of]. rewrite Hcol. cbn [obind]. rewrite bool_decide_eq_false_2 by by destruct cw. split_and!; try done. by left.
Qed.

Lemma split_black d t h : red t = false → bheight t = S h → ∃ a x b, t = node d RB_BLACK a x b ∧ root_of t = Some x.
Proof. destruct t as [|[] l x r]; try done. intros _ _. destruct d; [by exists l, x, r|by exists r, x, l]. Qed.

Lemma black_children_ok d st k c a x b : repr st (fill k (node d c a x b)) → black_children st (Some x) = Ok (negb (red a) && negb (red b)).
Proof.
  assert (Hleft : ∀ l r, repr st (fill k (T c l x r)) → black_children st (Some x) = Ok (negb (red l) && negb (red r))); [|destruct d; [apply Hleft|rewrite andb_comm; apply Hleft]].
  intros l r H. unfold black_children. destruct (children_at _ _ _ _ _ _ H) as [-> ->]. cbn [obind].
  rewrite (is_black_ok st (Frame L c x r :: k) l H). cbn [obind]. destruct (red l); [done|]. cbn [negb andb]. by apply (is_black_ok st (Frame R c x l :: k)).
Qed.

(** Seen from the sibling. *)
Lemma from_sibling st k d c s p w : repr st (fill k (node d c s p w)) → repr st (fill (Frame (opp d) c p s :: k) w).
Proof. intros H. cbn [fill]. unfold plug. cbn. by rewrite node_opp. Qed.

Lemma to_sibling st k d c s p w : repr st (fill (Frame (opp d) c p s :: k) w) → repr st (fill k (node d c s p w)).
Proof. cbn [fill]. unfold plug. cbn. by rewrite node_opp. Qed.

(** The sibling has a red child; afterwards the far one is red. *)
Lemma near_child_ok st k d c s p a x b : repr st (fill k (node d c s p (node d RB_BLACK a x b))) → rb a → rb b → bheight a = bheight b → red a = true ∨ red b = true →
  ∃ st' a' x' b', near_child d st (Some p) (Some x) = Ok (st', Some x') ∧ repr st' (fill k (node d c s p (node d RB_BLACK a' x' b'))) ∧
    red b' = true ∧ rb a' ∧ rb b' ∧ bheight a' = bheight a ∧ bheight b' = bheight a ∧
    only (elements (fill k (node d c s p (node d RB_BLACK a x b)))) st st' ∧
    elements (fill k (node d c s p (node d RB_BLACK a' x' b'))) = elements (fill k (node d c s p (node d RB_BLACK a x b))).
Proof.
  intros H Ha Hb Hh Hr. pose proof (from_sibling _ _ _ _ _ _ _ H) as Hw. pose proof (entry_at d _ _ _ _ _ _ Hw) as Hx. apply (child_ok d) in Hx as (Hnear & Hfar & _).
  unfold near_child. rewrite Hfar. cbn [obind]. rewrite (is_black_ok st (Frame (opp d) RB_BLACK x a :: Frame (opp d) c p s :: k) b) by by apply from_sibling. cbn [obind].
  destruct (red b) eqn:Eb; cbn [negb].
  - exists st, a, x, b. split_and!; try done; congruence.
  - destruct Hr as [Er|?]; [|done]. rewrite Hnear. cbn [obind].
    destruct (paint_ok st (Frame d RB_BLACK x b :: Frame (opp d) c p s :: k) a RB_BLACK Hw) as (st1 & -> & H1 & O1). cbn [obind].
    apply (only_within (Frame d RB_BLACK x b :: Frame (opp d) c p s :: k)) in O1.
    destruct (split_node (opp d) a Er) as (a2 & y & a1 & -> & _). apply rb_node in Ha as (Hh' & Hc' & Ha2 & Ha1). destruct (Hc' eq_refl) as [Hr2 Hr1].
    rewrite paint_node in H1.
    destruct (paint_node_ok RB_RED st1 (Frame (opp d) c p s :: k) d RB_BLACK (node (opp d) RB_BLACK a2 y a1) x b H1) as (st2 & -> & H2 & O2). cbn [obind].
    rewrite <- (node_opp d) in H2. destruct (rotate_ok (opp d) st2 _ RB_RED b x RB_BLACK a2 y a1 H2) as (st3 & -> & H3 & O3). cbn [obind]. rewrite node_opp in H3.
    pose proof (to_sibling _ _ _ _ _ _ _ H3) as H3'. pose proof (entry_at d _ _ _ _ _ _ H3') as Hp. rewrite root_node in Hp.
    rewrite (proj1 (proj2 (child_ok _ _ _ _ _ _ _ Hp))). cbn [obind]. rewrite bheight_node in * by done. cbn in Hh. rewrite node_opp in H3, H3'.
    exists st3, a1, y, (node d RB_RED a2 x b). split_and!; try done.
    + by rewrite red_node.
    + rewrite rb_node. split_and!; try done; congruence.
    + rewrite bheight_node by congruence. done.
    + apply (only_more _ (elements (fill (Frame (opp d) c p s :: k) (node (opp d) RB_RED b x (node (opp d) RB_BLACK a2 y a1))))) in O3; [only_steps|].
      intros z Hz. rewrite elements_perm, !elements_node. set_solver.
    + elems.
Qed.

Lemma lift_sibling_ok st k d c s p a x b : repr st (fill k (node d c s p (node d RB_BLACK a x b))) →
  ∃ st', lift_sibling d st (Some p) (Some x) = Ok st' ∧ repr st' (fill k (node d c (node d RB_BLACK s p a) x (paint RB_BLACK b))) ∧
    only (elements (fill k (node d c s p (node d RB_BLACK a x b)))) st st'.
Proof.
  intros H. unfold lift_sibling. pose proof (entry_at d _ _ _ _ _ _ H) as Hp. rewrite (proj2 (proj2 (proj2 (child_ok _ _ _ _ _ _ _ Hp)))). cbn [obind].
  destruct (paint_node_ok c st _ d RB_BLACK a x b (from_sibling _ _ _ _ _ _ _ H)) as (st1 & -> & H1 & O1). cbn [obind]. apply to_sibling in H1.
  destruct (paint_node_ok RB_BLACK st1 k d c s p _ H1) as (st2 & -> & H2 & O2). cbn [obind].
  pose proof (from_sibling _ _ _ _ _ _ _ H2) as H2'. pose proof (entry_at d _ _ _ _ _ _ H2') as Hx. rewrite (proj1 (proj2 (child_ok _ _ _ _ _ _ _ Hx))). cbn [obind].
  pose proof (from_sibling _ _ _ _ _ _ _ H2') as H2''.
  destruct (paint_ok st2 _ b RB_BLACK H2'') as (st3 & -> & H3 & O3). cbn [obind]. apply to_sibling, to_sibling in H3.
  apply (only_within (Frame (opp d) c x a :: Frame (opp d) RB_BLACK p s :: k)) in O3.
  destruct (rotate_ok d st3 k RB_BLACK s p c a x _ H3) as (st4 & -> & H4 & O4). exists st4. split; [done|]. split; [done|].
  apply (only_more _ (elements (fill k (node d RB_BLACK s p (node d c a x (paint RB_BLACK b)))))) in O4; [only_steps|].
  intros z Hz. rewrite elements_perm, !elements_node. set_solver.
Qed.

Lemma remove_color_ok fuel st k s : repr st (fill k s) → rb (paint RB_BLACK s) → rb_place k (S (bheight s)) → (length k < fuel)%nat →
  balances (RB_REMOVE_COLOR fuel st (parent_of k) (root_of s)) st (fill k s).
Proof.
  revert st k s. induction fuel as [|fuel IH]; intros st k s H Hb Hk Hf; [lia|]. cbn [RB_REMOVE_COLOR]. rewrite (is_black_ok _ _ _ H). cbn [obind].
  destruct (red s) eqn:Es; [apply remove_done; try done; by right|]. cbn [negb andb].
  destruct k as [|[d c p w] k].
  { replace (eqp (root_of s) (rbh_root st)) with true; [apply (remove_done st []); try done; by left|]. symmetry. apply bool_decide_eq_true_2. symmetry. apply H. }
  rewrite (root_elsewhere _ _ _ _ H). cbn [negb parent_of f_elem]. assert (Hbs : rb s) by by (destruct s as [|[]]).
  pose proof Hk as (Hw & Hhw & Hc & Hk'). cbn in Hw, Hhw, Hc, Hk'. assert (Hne : w ≠ Leaf) by by (destruct w).
  destruct (child_is L st _ k s H) as (l & El & _ & Eq); [right; by destruct w|]. cbn [RB_CHILD f_elem f_side] in El, Eq. rewrite El. cbn [obind]. rewrite Eq.
  replace (if bool_decide (d = L) then L else R) with d by by destruct d.
  pose proof (entry_above _ _ _ _ H) as Hp. cbn in Hp. rewrite (proj1 (proj2 (child_ok _ _ _ _ _ _ _ Hp))). cbn [obind]. clear El Eq l Hp.
  destruct (red_sibling_ok st k d c s p w H Hw Hne) as (st1 & k1 & c1 & w1 & E1 & H1 & Hr1 & Hw1 & Hh1 & Hl1 & O1 & Ee1 & Hk1).
  { intros Er. destruct c; [done|]. destruct (Hc eq_refl). congruence. }
  rewrite E1. cbn [obind]. apply Hk1 in Hk. apply (balances_after _ st1 _ _ _ O1 Ee1). rewrite Hhw in Hh1.
  assert (Hf1 : (0 < fuel)%nat ∧ ((length k1 < fuel)%nat ∨ c1 = RB_RED)) by (cbn in Hf; destruct Hl1 as [Hl1|Hl1]; [split; [|left]|split; [|right]]; done || lia).
  clear st c w k H Hw Hhw Hc Hk' Hne E1 Hk1 O1 Ee1 Hf Hl1. rename st1 into st, k1 into k, c1 into c, Hf1 into Hf.
  destruct (split_black d w1 _ Hr1 Hh1) as (a & x & b & -> & Hx). rewrite Hx. apply rb_node in Hw1 as (Hab & _ & Ha & Hb'). rewrite bheight_node in Hh1 by done. injection Hh1 as Hha.
  pose proof Hk as (_ & _ & Hc & Hk'). cbn in Hc, Hk'. rewrite (black_children_ok d _ _ _ _ _ _ (from_sibling _ _ _ _ _ _ _ H1)). cbn [obind].
  destruct (negb (red a) && negb (red b)) eqn:Eab.
  - apply andb_true_iff in Eab as [Era Erb]. bool_prop. destruct (paint_node_ok RB_RED st _ d _ _ _ _ (from_sibling _ _ _ _ _ _ _ H1)) as (st2 & -> & H2 & O2). cbn [obind].
    apply to_sibling in H2. rewrite (parent_at st2 k _ p H2) by apply root_node. cbn [obind].
    assert (Hh2 : bheight (node d c s p (node d RB_RED a x b)) = (weight c + bheight s)%nat) by (rewrite bheight_node; [done|rewrite bheight_node by done; cbn; congruence]).
    assert (Hp2 : rb (paint RB_BLACK (node d c s p (node d RB_RED a x b)))).
    { rewrite paint_node, rb_node, rb_node, bheight_node by done. split_and!; try done; cbn; congruence. }
    assert (Hk2 : rb_place k (S (bheight (node d c s p (node d RB_RED a x b))))) by (rewrite Hh2; by replace (S (weight c + bheight s)) with (weight c + S (bheight s))%nat by lia).
    apply (balances_after _ st2 _ (fill k (node d c s p (node d RB_RED a x b)))); [eapply only_eq; [|exact O2]; elems|elems|].
    rewrite <- (root_node d c s p (node d RB_RED a x b)). destruct Hf as [Hf0 [Hf1| ->]]; [by apply IH|]. destruct fuel; [lia|]. cbn [RB_REMOVE_COLOR].
    rewrite (is_black_ok _ _ _ H2), red_node. cbn [obind bool_decide negb andb]. rewrite bool_decide_eq_true_2 by done. apply remove_done; [done..|]. right. by rewrite red_node.
  - destruct (near_child_ok st k d c s p a x b H1 Ha Hb' Hab) as (st2 & a' & x' & b' & -> & H2 & Hrb & Ha2 & Hb2 & Hha2 & Hhb2 & O2 & Ee2).
    { destruct (red a); [by left|]. destruct (red b); [by right|done]. }
    cbn [obind]. destruct (lift_sibling_ok st2 k d c s p a' x' b' H2) as (st3 & -> & H3 & O3). cbn [obind].
    apply (balances_after _ st2 _ _ _ O2 Ee2). apply (balances_after _ st3 _ (fill k (node d c (node d RB_BLACK s p a') x' (paint RB_BLACK b')))); [exact O3|elems|].
    assert (Er : rbh_root st3 = root_of (fill k (node d c (node d RB_BLACK s p a') x' (paint RB_BLACK b')))) by apply H3. rewrite Er.
    assert (Hh : bheight (node d RB_BLACK s p a') = bheight (paint RB_BLACK b')) by (rewrite bheight_paint, Hrb, bheight_node by congruence; cbn; congruence).
    apply (remove_done st3 []); [exact H3| |by left]. apply rb_paint, rb_fill.
    + rewrite !rb_node. split_and!; try done; [|congruence|by apply rb_paint]. intros _. by rewrite red_node, red_paint.
    + rewrite bheight_node, bheight_node by congruence. done.
    + rewrite red_node. intros Ec%bool_decide_eq_true. right. by apply Hc.
Qed.

(** * Taking an element out *)

Lemma unlink_ok d st k c x s : repr st (fill k (node d c Leaf x s)) →
  ∃ st', unlink st (Some x) (root_of s) (parent_of k) = Ok st' ∧ repr st' (fill k s) ∧ only (elements s ++ around k) st st'.
Proof.
  rewrite repr_fill. intros (Hn & Ht & Hk). rewrite root_node in Hk. apply at_node in Ht as (Hx & _ & Hs). rewrite elements_node in Hn. cbn in Hn.
  pose proof Hn as Hn'. apart Hn'. unfold unlink. destruct (reparent_ok st (Some x) (parent_of k) s) as (st1 & -> & O1 & R1 & Hs1); [done..|]. cbn [obind].
  destruct (relink_ok st1 k x (root_of s)) as (st2 & -> & O2 & Hk2).
  { rewrite NoDup_cons. split; [sep|done]. }
  { rewrite R1. eapply at_place_frame; [|exact Hk]. intros z Hz. by through. }
  exists st2. split; [done|]. split.
  - rewrite repr_fill. split; [by rewrite NoDup_app|]. split; [|done]. eapply at_tree_frame; [|exact Hs1]. clear O1. intros z Hz. by through.
  - only_chain.
Qed.

Lemma take_place_ok st k c l x r y e : repr st (fill k (T c l x r)) → l ≠ Leaf → y ∉ elements (fill k (T c l x r)) → mem st !! y = Some e →
  ∃ st', take_place st (Some x) (Some y) = Ok st' ∧ repr st' (fill k (T c l y r)) ∧ only (y :: elements l ++ elements r ++ around k) st st'.
Proof.
  rewrite elements_perm, repr_fill. intros (Hn & (Hx & Hl & Hr) & Hk) Hne Hy He. cbn in Hk.
  assert (Hp : elements (T c l x r) ++ around k ≡ₚ x :: elements l ++ elements r ++ around k) by (cbn; solve_Permutation).
  rewrite Hp in Hn, Hy. pose proof Hn as Hn'. apart Hn'. unfold take_place. rewrite (load_ok _ _ _ Hx). cbn [obind]. rewrite (store_ok _ _ _ _ He). cbn [obind]. set (st1 := upd st y _).
  assert (Hx1 : mem st1 !! x = Some (entry_of L (root_of l) (root_of r) (parent_of k) c)) by by through.
  rewrite (proj1 (proj2 (proj2 (child_ok _ _ _ _ _ _ _ Hx1)))). cbn [obind].
  destruct (relink_ok st1 k x (Some y)) as (st2 & -> & O2 & Hk2).
  { rewrite NoDup_cons. split; [sep|done]. }
  { eapply at_place_frame; [|exact Hk]. intros z Hz. by through. }
  cbn [obind]. assert (Hx2 : mem st2 !! x = Some (entry_of L (root_of l) (root_of r) (parent_of k) c)) by by through.
  pose proof (proj1 (child_ok _ _ _ _ _ _ _ Hx2)) as El. cbn [RB_CHILD] in El. rewrite El. cbn [obind].
  destruct (reparent_ok st2 (Some x) (Some y) l) as (st3 & E3 & O3 & R3 & Hl3); [done|eapply at_tree_frame; [|exact Hl]; intros z Hz; by through|].
  assert (∃ xl, root_of l = Some xl) as [xl Exl] by (destruct l; [done|by eexists]).
  rewrite Exl, store_some in E3. rewrite Exl, E3. cbn [obind].
  assert (Hx3 : mem st3 !! x = Some (entry_of L (root_of l) (root_of r) (parent_of k) c)) by by through.
  pose proof (proj1 (proj2 (child_ok _ _ _ _ _ _ _ Hx3))) as Er. cbn [RB_CHILD opp] in Er. rewrite Er. cbn [obind].
  destruct (reparent_ok st3 (Some x) (Some y) r) as (st4 & -> & O4 & R4 & Hr4); [done|eapply at_tree_frame; [|exact Hr]; intros z Hz; by through|].
  exists st4. split; [done|]. split.
  - rewrite repr_fill. split; [|split].
    + assert (Hq : elements (T c l y r) ++ around k ≡ₚ y :: elements l ++ elements r ++ around k) by (cbn; solve_Permutation).
      rewrite Hq, NoDup_cons. split; [sep|]. by apply NoDup_cons in Hn as [_ Hn].
    + cbn [at_tree]. split_and!; [by through| |].
      * eapply at_tree_frame; [|exact Hl3]. clear O3. intros z Hz. by through.
      * done.
    + cbn [root_of]. rewrite R4, R3. eapply at_place_frame; [|exact Hk2]. clear O2. intros z Hz. by through.
  - assert (O1 : only [y] st st1) by by eapply only_upd. clear -O1 O2 O3 O4. only_chain.
Qed.

Lemma rename_place k' d c x y l k h : rb_place (k' ++ Frame d c x l :: k) h → rb_place (k' ++ Frame d c y l :: k) h.
Proof.
  revert h. induction k' as [|f k' IH]; intros h; [done|]. cbn. intros (Hs & Hh & Hc & Hk). split_and!; [done|done| |by apply IH].
  intros E. destruct (Hc E) as [? Htop]. split; [done|]. by destruct k'.
Qed.

(** The end of the removal of an element of colour [c], after its place has been given to [s]. *)
Lemma remove_end st k s c fuel : repr st (fill k s) → rb s → rb_place k (weight c + bheight s) → (c = RB_RED → red s = false ∧ top_black k) → (length k < fuel)%nat →
  balances (if bool_decide (c = RB_BLACK) then RB_REMOVE_COLOR fuel st (parent_of k) (root_of s) else Ok st) st (fill k s).
Proof.
  intros H Hs Hk Hc Hf. destruct c; cbn [weight] in Hk.
  - rewrite bool_decide_eq_true_2 by done. apply remove_color_ok; [done|by apply rb_paint|done|done].
  - rewrite bool_decide_eq_false_2 by done. destruct (Hc eq_refl) as [Hr Ht]. exists st, (fill k s). split_and!; try done. split.
    + apply rb_fill; [done|done|congruence].
    + eapply place_black; [exact Hk|]. by destruct k.
Qed.

Lemma only_subset k t l st st' : l ⊆ elements (fill k t) → only l st st' → only (elements (fill k t)) st st'.
Proof. apply only_more. Qed.

(** An element with at most one child. *)
Lemma remove_one st k d c x s fuel : repr st (fill k (node d c Leaf x s)) → rbt (fill k (node d c Leaf x s)) → (length k < fuel)%nat →
  ∃ st' t', (let* st := unlink st (Some x) (root_of s) (parent_of k) in
      if bool_decide (c = RB_BLACK) then RB_REMOVE_COLOR fuel st (parent_of k) (root_of s) else Ok st) = Ok st' ∧
    repr st' t' ∧ elements t' = elements (fill k s) ∧ rbt t' ∧ only (elements (fill k (node d c Leaf x s))) st st'.
Proof.
  intros H [Hb Hr] Hf. destruct (unlink_ok d st k c x s H) as (st1 & -> & H1 & O1). cbn [obind].
  destruct (rb_unfill k _ Hb Hr) as (Hn & Hk & Htop). apply rb_node in Hn as (Hh & Hc & _ & Hs). rewrite bheight_node in Hk by done. rewrite red_node in Htop.
  assert (Hsub : elements (fill k s) ⊆ elements (fill k (node d c Leaf x s))) by (rewrite !elements_perm, elements_node; set_solver).
  destruct (remove_end st1 k s c fuel H1 Hs) as (st2 & t2 & -> & H2 & E2 & Hb2 & O2).
  - by rewrite <- Hh.
  - intros ->. split; [by apply Hc|]. by apply Htop.
  - done.
  - exists st2, t2. split_and!; try done. eapply only_trans; [eapply only_more; [|exact O1]|eapply only_more; [|exact O2]; done].
    rewrite elements_perm, elements_node. set_solver.
Qed.

(** An element with two children: the next one takes its place. *)
Lemma remove_two st k c l x r fuel : repr st (fill k (T c l x r)) → rbt (fill k (T c l x r)) → l ≠ Leaf → r ≠ Leaf → (S (size (mem st)) < fuel)%nat →
  ∃ st' t', (let* elm := furthest L fuel st (root_of r) in
      let* child := RB_RIGHT st elm in
      let* parent := RB_PARENT st elm in
      let* color := RB_COLOR st elm in
      let* st := unlink st elm child parent in
      let* p := RB_PARENT st elm in
      let parent := new_parent p (Some x) elm parent in
      let* st := take_place st (Some x) elm in
      if bool_decide (color = RB_BLACK) then RB_REMOVE_COLOR fuel st parent child else Ok st) = Ok st' ∧
    repr st' t' ∧ elements t' = before k ++ elements l ++ elements r ++ after k ∧ rbt t' ∧ only (elements (fill k (T c l x r))) st st'.
Proof.
  intros H [Hb Hr] Hl Hnr Hf. destruct (furthest_place L fuel st (Frame R c x l :: k) r H Hnr) as (k' & c' & y & s & -> & -> & Hside).
  { pose proof (fuel_ok st (Frame R c x l :: k) r H). lia. }
  destruct (one_side R k' Hside) as [Hbefore _]. cbn in Hbefore. cbn [obind node] in *. set (K := k' ++ Frame R c x l :: k). set (K' := k' ++ Frame R c y l :: k).
  assert (HK : ∀ t, fill K t = fill k (T c l x (fill k' t))) by (intros t; unfold K; by rewrite fill_app).
  assert (HK' : ∀ t, fill K' t = fill k (T c l y (fill k' t))) by (intros t; unfold K'; by rewrite fill_app). rewrite <- HK in H, Hb, Hr |- *.
  assert (HlK : length K' = length K) by (unfold K, K'; rewrite !length_app; done).
  assert (Hpar : x ∉ around k' → new_parent (parent_of K) (Some x) (Some y) (parent_of K) = parent_of K').
  { intros Hx. unfold K, K'. destruct k' as [|f k']; cbn; unfold new_parent, eqp; [by rewrite bool_decide_eq_true_2|]. rewrite bool_decide_eq_false_2; [done|]. intros [= E].
    apply Hx. rewrite around_cons, E. by apply elem_of_cons; left. }
  assert (Hren : ∀ h, rb_place K h → rb_place K' h) by (intros h; apply rename_place). assert (Htopk : top_black K → top_black K') by (unfold K, K'; by destruct k').
  clearbody K K'. pose proof (fuel_ok st K _ H) as Hfuel. pose proof (proj1 H) as Hn. rewrite HK, elements_perm in Hn. cbn in Hn.
  pose proof (entry_at L st K c' Leaf y s H) as Hy. pose proof (child_ok L _ _ _ _ _ _ Hy) as (_ & Er & Ep & Ec). cbn [opp RB_CHILD] in Er. rewrite Er, Ep, Ec. cbn [obind].
  destruct (unlink_ok L st K c' y s H) as (st1 & -> & H1 & O1). cbn [obind].
  assert (Hyn : y ∉ elements s ++ around K) by (pose proof (proj1 H) as Hd; rewrite elements_perm in Hd; cbn in Hd; by apply NoDup_cons in Hd as [? _]).
  assert (Hy1 : mem st1 !! y = Some (entry_of L None (root_of s) (parent_of K) c')) by (rewrite (proj1 (proj2 O1)); [exact Hy|exact Hyn]).
  rewrite (proj1 (proj2 (proj2 (child_ok L _ _ _ _ _ _ Hy1)))). cbn [obind].
  assert (Hxk : x ∉ around k').
  { intros Hx. apply NoDup_app in Hn as (Hn & _). apply NoDup_app in Hn as (_ & _ & [Hn _]%NoDup_cons). apply Hn. rewrite elements_perm. apply elem_of_app. by right. }
  rewrite (Hpar Hxk). rewrite HK in H1.
  destruct (take_place_ok st1 k c l x (fill k' s) y (entry_of L None (root_of s) (parent_of K) c') H1 Hl) as (st2 & -> & H2 & O2); [|exact Hy1|].
  { rewrite <- HK, elements_perm. set_solver. }
  cbn [obind]. rewrite <- HK' in H2. destruct (rb_unfill K _ Hb Hr) as (Hnode & Hplace & Htop). cbn in Hnode, Hplace, Htop. destruct Hnode as (Hh & Hc & _ & Hs).
  destruct (remove_end st2 K' s c' fuel H2 Hs) as (st3 & t3 & -> & H3 & E3 & Hb3 & O3).
  - apply Hren. by rewrite <- Hh.
  - intros ->. split; [by apply Hc|]. by apply Htopk, Htop.
  - rewrite HlK. lia.
  - exists st3, t3. split; [done|]. split; [done|]. split; [|split; [done|]].
    + rewrite E3, HK', elements_fill. cbn. rewrite !elements_fill, Hbefore. by repeat (progress (cbn; rewrite <- ?app_assoc)).
    + assert (Hq : elements (fill K (T c' Leaf y s)) ≡ₚ y :: elements s ++ around K) by apply elements_perm.
      assert (Hq1 : elements (fill K (T c' Leaf y s)) ≡ₚ x :: y :: elements l ++ elements (fill k' s) ++ around k).
      { rewrite HK, elements_perm. cbn. rewrite !elements_perm. cbn. solve_Permutation. }
      assert (Hq2 : elements (fill K' s) ≡ₚ y :: elements l ++ elements (fill k' s) ++ around k).
      { rewrite HK', elements_perm. cbn. solve_Permutation. }
      eapply only_trans; [eapply only_more; [|exact O1]|eapply only_trans; [eapply only_more; [|exact O2]|eapply only_more; [|exact O3]]].
      * clear -Hq. rewrite Hq. set_solver.
      * clear -Hq1. rewrite Hq1. set_solver.
      * clear -Hq1 Hq2. rewrite Hq1, Hq2. set_solver.
Qed.

(** * RB_REMOVE *)

(** The scans in progress whose next element was [x] go on with [next]. *)
Definition skip (x : elem) (next : ptr) (inprog : list (nat * ptr)) : list (nat * ptr) :=
  (λ '(id, node), (id, if eqp node (Some x) then next else node)) <$> inprog.

Lemma advance_scans_ok st x next inprog : RB_NEXT st (Some x) = Ok next → advance_scans st (Some x) inprog = Ok (skip x next inprog).
Proof.
  intros H. induction inprog as [|[id node] inprog IH]; [done|]. cbn [advance_scans]. destruct (eqp node (Some x)) eqn:E; [rewrite H|]; cbn [obind]; rewrite IH; cbn; by rewrite E.
Qed.

Lemma remove_ok st t x l1 l2 : repr st t → rbt t → elements t = l1 ++ x :: l2 → ∃ st' t', RB_REMOVE st (Some x) = Ok st' ∧
  repr st' t' ∧ rbt t' ∧ elements t' = l1 ++ l2 ∧ rbh_inprog st' = skip x (head l2) (rbh_inprog st) ∧
  (∀ z, z ∉ elements t → mem st' !! z = mem st !! z) ∧ dom (mem st') = dom (mem st).
Proof.
  intros H Hb E. unfold RB_REMOVE. rewrite (advance_scans_ok st x (head l2)) by apply (neighbours_ok st t l1 x l2 H E). cbn [obind].
  set (st0 := State (mem st) (rbh_root st) _). assert (H0 : repr st0 t) by exact H.
  destruct (place_of t x) as (k & c & l & r & Et); [rewrite E; set_solver|]. subst t.
  pose proof (proj1 H) as Hn. rewrite elements_fill in E, Hn. cbn [elements] in E, Hn. rewrite <- app_assoc, app_assoc in E, Hn. cbn in E, Hn.
  destruct (split_unique x _ _ _ _ Hn E) as [<- <-]. destruct (children_at _ _ _ _ _ _ H0) as [-> ->]. cbn [obind].
  pose proof (fuel_ok st0 k _ H0) as Hf. change (size (mem st0)) with (size (mem st)) in *.
  assert (Hdone : ∀ o, (∃ st' t', o = Ok st' ∧ repr st' t' ∧ elements t' = before k ++ elements l ++ elements r ++ after k ∧ rbt t' ∧ only (elements (fill k (T c l x r))) st0 st') →
    ∃ st' t', o = Ok st' ∧ repr st' t' ∧ rbt t' ∧ elements t' = (before k ++ elements l) ++ elements r ++ after k ∧
      rbh_inprog st' = skip x (head (elements r ++ after k)) (rbh_inprog st) ∧ (∀ z, z ∉ elements (fill k (T c l x r)) → mem st' !! z = mem st !! z) ∧ dom (mem st') = dom (mem st)).
  { intros o (st' & t' & -> & H' & E' & Hb' & (O1 & O2 & O3)). exists st', t'. rewrite <- app_assoc. split_and!; try done. }
  apply Hdone. clear Hdone. destruct l as [|cl ll xl rl]; [|destruct r as [|cr lr xr rr]].
  - rewrite null_root. cbn [orb]. rewrite (parent_at st0 k _ x H0) by done. cbn [obind]. pose proof (entry_at L _ _ _ _ _ _ H0) as Hx. rewrite (proj2 (proj2 (proj2 (child_ok _ _ _ _ _ _ _ Hx)))). cbn [obind].
    destruct (remove_one st0 k L c x r (S (S (size (mem st)))) H0 Hb) as (st' & t' & -> & H' & E' & Hb' & O'); [lia|]. exists st', t'. split_and!; try done. by rewrite E', elements_fill.
  - rewrite !null_root. cbn [orb]. rewrite (parent_at st0 k _ x H0) by done. cbn [obind]. pose proof (entry_at L _ _ _ _ _ _ H0) as Hx. rewrite (proj2 (proj2 (proj2 (child_ok _ _ _ _ _ _ _ Hx)))). cbn [obind].
    destruct (remove_one st0 k R c x (T cl ll xl rl) (S (S (size (mem st)))) H0 Hb) as (st' & t' & -> & H' & E' & Hb' & O'); [lia|]. exists st', t'. split_and!; try done. by rewrite E', elements_fill.
  - rewrite !null_root. cbn [orb]. apply remove_two; try done. change (size (mem st0)) with (size (mem st)). lia.
Qed.

(** C1: RB_REMOVE of an element of a red-black tree returns, follows no pointer that is NULL and writes no entry outside the tree; afterwards
    the memory has a red-black tree with the other elements in the same order, and every scan that was to go on with the element goes on with the one after it. *)
Theorem remove_correct st t x l1 l2 : repr st t → rbt t → elements t = l1 ++ x :: l2 → ∃ st' t', RB_REMOVE st (Some x) = Ok st' ∧
  repr st' t' ∧ rbt t' ∧ elements t' = l1 ++ l2 ∧ rbh_inprog st' = skip x (head l2) (rbh_inprog st) ∧
  (∀ z, z ∉ elements t → mem st' !! z = mem st !! z).
Proof. intros H Hb E. destruct (remove_ok st t x l1 l2 H Hb E) as (st' & t' & ? & ? & ? & ? & ? & ? & _). by exists st', t'. Qed.

(** 5 is removed, the root with two children. *)
Lemma remove_correct_witness : ∃ st' t', RB_REMOVE sample (Some 5%positive) = Ok st' ∧ repr st' t' ∧ rbt t' ∧ elements t' = [2; 9]%positive.
Proof.
  destruct (remove_correct sample sample_tree 5%positive [2%positive] [9%positive] sample_repr sample_rbt eq_refl) as (st' & t' & H & H1 & H2 & H3 & _).
  exists st', t'. split; [exact H|]. split; [exact H1|]. split; [exact H2|exact H3].
Defined.

End RbRemove.
