(* ===== verification/RbScan.v ===== *)
(** RB_SCAN with a callback that removes elements: it goes through the elements of the range that are still there
    when it comes to them, and never loses its place. *)

From stdpp Require Import base list gmap sets sorting.
From S2P Require Import Prelude RbTree RbTreeTheory RbBalance RbSearch RbIter RbRemove.

Module RbScan.
Import RbTree RbTreeTheory RbBalance RbSearch RbIter RbRemove.

(** * The first element of the range *)

(** Below the range, in it, above it. *)
Definition ranges (f : elem → Z) (l : list elem) : Prop := StronglySorted (λ x y, (f x = 0 → 0 ≤ f y) ∧ (0 < f x → 0 < f y)) l.

Definition zeros (f : elem → Z) (l : list elem) : list elem := filter (λ x, f x = 0) l.

Lemma zeros_none f l : (∀ y, y ∈ l → f y ≠ 0) → zeros f l = [].
Proof.
  intros H. unfold zeros. induction l as [|x l IH]; [done|]. rewrite filter_cons_False by (apply H; set_solver). apply IH. intros y Hy. apply H. set_solver.
Qed.

Lemma scan_first_ok {D} (scancmp : elem → D → Z) fuel st data k t best : repr st (fill k t) → (length (elements t) < fuel)%nat →
  ranges (λ x, scancmp x data) (elements t) → scan_first scancmp fuel st data (root_of t) best =
    Ok (match head (zeros (λ x, scancmp x data) (elements t)) with Some x => Some x | None => best end).
Proof.
  set (f := λ x, scancmp x data). revert k t best. induction fuel as [|fuel IH]; intros k t best H Hf Hs; [lia|]. destruct t as [|c l x r]; [done|].
  cbn [scan_first root_of elements]. destruct (children_at _ _ _ _ _ _ H) as [El Er]. cbn in Hf, Hs. rewrite length_app in Hf. cbn in Hf.
  unfold ranges in Hs. rewrite StronglySorted_app, StronglySorted_cons, Forall_forall in Hs. destruct Hs as (H1 & Hsl & H2 & Hsr).
  assert (Hl : ∀ y, y ∈ elements l → (f y = 0 → 0 ≤ f x) ∧ (0 < f y → 0 < f x)) by (intros y Hy; apply H1; set_solver).
  change (scancmp x data) with (f x). unfold zeros. rewrite filter_app. fold (zeros f (elements l)). destruct (f x <? 0) eqn:E1; [|destruct (f x >? 0) eqn:E2]; bool_prop.
  - rewrite Er. cbn [obind]. rewrite filter_cons_False by (change (f x ≠ 0); lia). rewrite (zeros_none f (elements l)) by (intros y Hy; specialize (Hl y Hy); lia).
    apply (IH (Frame R c x l :: k)); [done|lia|done].
  - rewrite El. cbn [obind]. rewrite filter_cons_False by (change (f x ≠ 0); lia). fold (zeros f (elements r)). rewrite (zeros_none f (elements r)) by (intros y Hy; specialize (H2 y Hy); lia).
    rewrite app_nil_r. apply (IH (Frame L c x r :: k)); [done|lia|done].
  - rewrite El. cbn [obind]. rewrite filter_cons_True by (change (f x = 0); lia). rewrite null_root. destruct l as [|cl ll xl rl]; [done|].
    rewrite (IH (Frame L c x r :: k)) by (done || lia). by destruct (zeros f (elements (T cl ll xl rl))).
Qed.

(** * Removals by the callback *)

Fixpoint removes (st : state) (dead : list elem) : outcome state :=
  match dead with
  | [] => Ok st
  | x :: dead => let* st := RB_REMOVE st (Some x) in removes st dead
  end.

Definition alive (dead l : list elem) : list elem := filter (λ x, x ∉ dead) l.

Lemma alive_nil l : alive [] l = l.
Proof. unfold alive. induction l as [|x l IH]; [done|]. rewrite filter_cons_True by apply not_elem_of_nil. by rewrite IH. Qed.

Lemma alive_absent x dead l : x ∉ l → alive (x :: dead) l = alive dead l.
Proof.
  intros Hx. unfold alive. induction l as [|y l IH]; [done|]. apply not_elem_of_cons in Hx as [Hy Hl]. specialize (IH Hl). destruct (decide (y ∈ dead)) as [Hd|Hd].
  - rewrite !filter_cons_False by (rewrite ?not_elem_of_cons; tauto). exact IH.
  - rewrite (filter_cons_True _ y l) by (rewrite not_elem_of_cons; split; [congruence|done]). rewrite filter_cons_True by done. by rewrite IH.
Qed.

Lemma alive_cons x dead l1 l2 : x ∉ l1 → x ∉ l2 → alive (x :: dead) (l1 ++ x :: l2) = alive dead (l1 ++ l2).
Proof.
  intros H1 H2. unfold alive. rewrite !filter_app. rewrite filter_cons_False by set_solver. f_equal; by apply alive_absent.
Qed.

(** The place of the scan: the elements before it and those after it. *)
Record placed (st : state) (info : nat) (ids : list nat) (pre rest : list elem) (t : tree) : Prop := {
  pl_repr : repr st t;
  pl_rbt : rbt t;
  pl_elements : elements t = pre ++ rest;
  pl_inprog : ∃ others, rbh_inprog st = (info, head rest) :: others ∧ others.*1 = ids
}.

Lemma skip_ids x next l : (skip x next l).*1 = l.*1.
Proof. unfold skip. induction l as [|[id node] l IH]; [done|]. cbn. by rewrite IH. Qed.

Lemma removes_ok dead st info ids pre rest t : placed st info ids pre rest t → NoDup dead → dead ⊆ elements t →
  ∃ st' t', removes st dead = Ok st' ∧ placed st' info ids (alive dead pre) (alive dead rest) t' ∧ dom (mem st') = dom (mem st).
Proof.
  revert st pre rest t. induction dead as [|x dead IH]; intros st pre rest t [Hr Hb He (others & Hi & Hids)] Hn Hd.
  { exists st, t. rewrite !alive_nil. split; [done|]. split; [|done]. split; try done. by exists others. }
  apply NoDup_cons in Hn as [Hx Hn]. assert (Hxt : x ∈ elements t) by (apply Hd; set_solver). destruct (list_elem_of_split _ _ Hxt) as (l1 & l2 & E).
  pose proof (proj1 Hr) as Hnd. cbn [removes]. destruct (remove_ok st t x l1 l2 Hr Hb E) as (st1 & t1 & -> & Hr1 & Hb1 & E1 & Hi1 & _ & Hdom). cbn [obind].
  rewrite E in Hnd. assert (Hx1 : x ∉ l1 ∧ x ∉ l2) by (apply NoDup_app in Hnd as (_ & Ha & [Hx2 _]%NoDup_cons); split; [intros Hin; by apply (Ha x Hin), elem_of_cons; left|done]).
  assert (Hsub : dead ⊆ elements t1).
  { rewrite E1. intros y Hy. assert (y ∈ elements t) as Hyt by (apply Hd; set_solver). rewrite E in Hyt. assert (y ≠ x) by congruence. set_solver. }
  assert (Hplace : ∃ pre1 rest1, elements t1 = pre1 ++ rest1 ∧ (if eqp (head rest) (Some x) then head l2 else head rest) = head rest1 ∧
    alive (x :: dead) pre = alive dead pre1 ∧ alive (x :: dead) rest = alive dead rest1).
  { rewrite He in E. destruct (decide (x ∈ pre)) as [Hp|Hp].
    - destruct (list_elem_of_split _ _ Hp) as (p1 & p2 & ->). rewrite <- app_assoc in E. cbn in E. symmetry in E.
      destruct (split_unique x _ _ _ _ Hnd E) as [-> ->]. exists (p1 ++ p2), rest. rewrite E1, <- app_assoc. split; [done|]. split.
      + unfold eqp. rewrite bool_decide_eq_false_2; [done|]. destruct rest; [done|]. intros [= ->]. set_solver.
      + split; [apply alive_cons; set_solver|apply alive_absent; set_solver].
    - assert (x ∈ rest) as Hin by (assert (x ∈ pre ++ rest) by (rewrite <- He; done); set_solver). destruct (list_elem_of_split _ _ Hin) as (r1 & r2 & ->).
      rewrite app_assoc in E. symmetry in E. destruct (split_unique x _ _ _ _ Hnd E) as [-> ->]. exists pre, (r1 ++ r2). rewrite E1, <- app_assoc. split; [done|]. split.
      + destruct r1 as [|y r1]; cbn; unfold eqp; [by rewrite bool_decide_eq_true_2|]. rewrite bool_decide_eq_false_2; [done|]. intros [= ->]. set_solver.
      + split; [by apply alive_absent|apply alive_cons; set_solver]. }
  destruct Hplace as (pre1 & rest1 & He1 & Hh & -> & ->). destruct (IH st1 pre1 rest1 t1) as (st2 & t2 & -> & Hp2 & Hdom2); [|done|done|].
  - split; try done. exists (skip x (head l2) others). rewrite Hi1, Hi, skip_ids. split; [|done]. by rewrite <- Hh.
  - exists st2, t2. split; [done|]. split; [done|congruence].
Qed.

(** * The loop *)

Section scan.
Context {D : Type} (scancmp : elem → D → Z).

(** What the callback does: the new data, the elements it removes, and its answer. *)
Context (act : elem → D → D * list elem * Z).

Definition callback (b : elem) (s : state * D) : outcome (state * D * Z) :=
  let '(data, dead, comp) := act b s.2 in let* st := removes s.1 dead in Ok (st, data, comp).

(** The scan of a list: [best], then those of [rest] that are in the range and still there.
    The result is the data, the answer of RB_SCAN, and the elements of the tree, of which [all] are there at first. *)
Fixpoint scan_list (fuel : nat) (all : list elem) (best : elem) (rest : list elem) (data : D) (count : Z) : option (D * Z * list elem) :=
  match fuel with
  | O => None
  | S fuel =>
      let '(data, dead, comp) := act best data in
      let all := alive dead all in
      if comp <? 0 then Some (data, comp, all)
      else
        let count := s32 (count + comp) in
        match alive dead rest with
        | [] => Some (data, count, all)
        | best :: rest => if scancmp best data =? 0 then scan_list fuel all best rest data count else Some (data, count, all)
        end
  end.

(** The callback removes elements that are there. *)
Context (I : list elem → D → Prop).
Context (act_ok : ∀ all b data, I all data → let '(data', dead, comp) := act b data in NoDup dead ∧ dead ⊆ all ∧ I (alive dead all) data').

Lemma alive_length dead l : (length (alive dead l) ≤ length l)%nat.
Proof. apply length_filter. Qed.

Lemma alive_app dead l1 l2 : alive dead (l1 ++ l2) = alive dead l1 ++ alive dead l2.
Proof. apply filter_app. Qed.

Lemma set_info_ok st info ids others node next pre rest t : repr st t → rbt t → elements t = pre ++ rest → next = head rest →
  rbh_inprog st = (info, node) :: others → others.*1 = ids → placed (set_info_node info next st) info ids pre rest t.
Proof.
  intros Hr Hb He -> Hi Hids. split; try done. cbn. rewrite Hi. cbn. rewrite bool_decide_eq_true_2 by done. eexists. split; [done|]. rewrite <- Hids. clear.
  induction others as [|[id n] l IH]; [done|]. cbn. rewrite IH. by destruct (bool_decide _).
Qed.

Lemma scan_loop_ok fuel st info ids pre best rest t data count : placed st info ids (pre ++ [best]) rest t → I (elements t) data → (length rest < fuel)%nat →
  ∃ st' data' comp' count' all' t' node' others', scan_loop scancmp callback fuel info st data best count = Ok (st', data', comp', count') ∧
    scan_list fuel (elements t) best rest data count = Some (data', (if comp' <? 0 then comp' else count'), all') ∧
    repr st' t' ∧ rbt t' ∧ elements t' = all' ∧ rbh_inprog st' = (info, node') :: others' ∧ others'.*1 = ids.
Proof.
  revert st pre best rest t data count. induction fuel as [|fuel IH]; intros st pre best rest t data count Hp HI Hf; [lia|].
  cbn [scan_loop scan_list]. unfold callback. cbn [fst snd]. pose proof (act_ok (elements t) best data HI) as Ha. destruct (act best data) as [[data' dead] comp]. destruct Ha as (Hn & Hd & HI').
  destruct (removes_ok dead st info ids _ rest t Hp Hn Hd) as (st1 & t1 & -> & Hp1 & _). cbn [obind]. pose proof Hp1 as [Hr1 Hb1 He1 (others & Hi1 & Hids1)].
  assert (Hall : elements t1 = alive dead (elements t)) by (rewrite (pl_elements _ _ _ _ _ _ Hp), alive_app; exact He1). rewrite <- Hall in HI' |- *.
  destruct (comp <? 0) eqn:Ec.
  { exists st1, data', comp, count, (elements t1), t1, (head (alive dead rest)), others. rewrite Ec. by split_and!. }
  rewrite Hi1. cbn [info_node]. rewrite bool_decide_eq_true_2 by done. cbn [obind].
  destruct (alive dead rest) as [|best' rest'] eqn:Erest; cbn [head].
  { eexists _, _, comp, _, _, t1, None, others. rewrite Ec. by split_and!. }
  destruct (scancmp best' data' =? 0) eqn:Es; cbn [negb].
  - rewrite (proj1 (neighbours_ok st1 t1 (alive dead (pre ++ [best])) best' rest' Hr1 He1)). cbn [obind].
    apply (IH (set_info_node info (head rest') st1) (alive dead (pre ++ [best])) best' rest' t1 data').
    + apply (set_info_ok st1 info ids others (Some best')); try done. rewrite He1, <- app_assoc. done.
    + done.
    + pose proof (alive_length dead rest) as Hl. rewrite Erest in Hl. cbn in Hl. lia.
  - eexists _, _, comp, _, _, t1, (Some best'), others. rewrite Ec. by split_and!.
Qed.

End scan.

(** The first element of the range, and those after it. *)
Fixpoint from_first (f : elem → Z) (l : list elem) : option (elem * list elem) :=
  match l with
  | [] => None
  | x :: l => if f x =? 0 then Some (x, l) else from_first f l
  end.

Lemma from_first_ok f l : head (zeros f l) = fst <$> from_first f l ∧
  match from_first f l with Some (x, l2) => ∃ l1, l = l1 ++ x :: l2 | None => True end.
Proof.
  induction l as [|x l [IH1 IH2]]; [done|]. cbn [from_first]. unfold zeros. destruct (f x =? 0) eqn:E; bool_prop.
  - rewrite filter_cons_True by done. split; [done|]. by exists [].
  - rewrite filter_cons_False by done. split; [exact IH1|]. destruct (from_first f l) as [[y l2]|]; [|done]. destruct IH2 as [l1 ->]. by exists (x :: l1).
Qed.

Definition scan_of {D} (scancmp : elem → D → Z) (act : elem → D → D * list elem * Z) (l : list elem) (data : D) : option (D * Z * list elem) :=
  match from_first (λ x, scancmp x data) l with
  | None => Some (data, 0, l)
  | Some (best, rest) => scan_list scancmp act (S (length l)) l best rest data 0
  end.

(** C3: RB_SCAN of a red-black tree with a callback that removes any elements that are in the tree, its own argument or others: it returns, after at most as many calls as there
    are elements, and has done what the scan of the list of the elements does: the callback was called for the elements of the range in their order, as long as the next one
    is in the range, those that were removed before their turn excepted; the answer is the sum of those of the callback, or the first one that is negative.  The tree is a red-black tree with the elements that
    remain, and the scan is no longer in progress. *)
Theorem scan_correct {D : Type} (scancmp : elem → D → Z) (act : elem → D → D * list elem * Z) (I : list elem → D → Prop) st t info data :
  (∀ all b data, I all data → let '(data', dead, comp) := act b data in NoDup dead ∧ dead ⊆ all ∧ I (alive dead all) data') →
  repr st t → rbt t → ranges (λ x, scancmp x data) (elements t) → I (elements t) data →
  ∃ st' data' r t', RB_SCAN scancmp (callback act) (S (length (elements t))) info st data = Ok (st', data', r) ∧
    scan_of scancmp act (elements t) data = Some (data', r, elements t') ∧ repr st' t' ∧ rbt t' ∧ (rbh_inprog st').*1 = (rbh_inprog st).*1.
Proof.
  intros Hact H Hb Hs HI. unfold RB_SCAN, scan_of. replace (rbh_root st) with (root_of t) by (symmetry; apply H).
  rewrite (scan_first_ok scancmp _ st data [] t None H) by (done || (pose proof (fuel_ok st [] t H); cbn in *; lia)). cbn [obind].
  destruct (from_first_ok (λ x, scancmp x data) (elements t)) as [-> Hf]. destruct (from_first _ _) as [[best rest]|]; cbn [fmap option_fmap option_map fst].
  2:{ by exists st, data, 0, t. }
  destruct Hf as [pre E]. rewrite (proj1 (neighbours_ok st t pre best rest H E)). cbn [obind].
  destruct (scan_loop_ok scancmp act I Hact (S (length (elements t))) (scan_info_link info (head rest) st) info (rbh_inprog st).*1 pre best rest t data 0)
    as (st' & data' & comp & count & all & t' & node & others & -> & -> & Hr' & Hb' & <- & Hi & Hids).
  - split; [exact H|done|by rewrite <- app_assoc|]. by exists (rbh_inprog st).
  - done.
  - rewrite E, length_app. cbn. lia.
  - cbn [obind]. unfold scan_info_done. rewrite Hi. cbn [unlink_info]. rewrite bool_decide_eq_true_2 by done. cbn [obind].
    eexists _, data', _, t'. split; [done|]. by split_and!.
Qed.

(** At 2 the callback removes 2 and 5; 9 is next. *)
Definition sample_act (b : elem) (data : list elem) : list elem * list elem * Z :=
  (data ++ [b], if bool_decide (b = 2%positive ∧ data = []) then [2; 5]%positive else [], 1).

Lemma scan_correct_witness : ∃ st' t', RB_SCAN SCANCMP_ALL (callback sample_act) 4 0 sample [] = Ok (st', [2; 9]%positive, 2) ∧ repr st' t' ∧ rbt t' ∧ elements t' = [9]%positive.
Proof.
  destruct (scan_correct SCANCMP_ALL sample_act (λ all data, data = [] → all = elements sample_tree) sample sample_tree 0 []) as (st' & data' & r & t' & H & Hs & H1 & H2 & _).
  - intros all b data HI. unfold sample_act. destruct (bool_decide_reflect (b = 2%positive ∧ data = [])) as [[_ Hd]|_].
    + rewrite (HI Hd). split; [by_decide|]. split; [|intros E; by destruct data]. intros x Hx. cbn. set_solver.
    + split; [by_decide|]. split; [set_solver|]. intros E. by destruct data.
  - exact sample_repr.
  - exact sample_rbt.
  - unfold ranges, SCANCMP_ALL. repeat first [by intros; lia|constructor].
  - done.
  - assert (E : scan_of SCANCMP_ALL sample_act (elements sample_tree) [] = Some ([2; 9]%positive, 2, [9]%positive)) by (vm_compute; reflexivity).
    assert (Hq : Some (data', r, elements t') = Some ([2; 9]%positive, 2, [9]%positive)) by (etransitivity; [symmetry; exact Hs|exact E]).
    injection Hq as -> -> Ht. exists st', t'. split; [exact H|]. split; [exact H1|]. split; [exact H2|exact Ht].
Defined.

End RbScan.
