(* ===== verification/BpfFilter.v ===== *)
(** * The BPF filter machine (sys/net/bpf_filter.c, sys/net/bpf.h)

    The interpreter [bpf_filter] that the kernel runs on every captured packet,
    the mbuf accessors it uses when the packet is not in one buffer, and the
    static check [bpf_validate] that a program must pass before it is
    installed. *)

From Stdlib Require Import ZArith Lia Bool.
From stdpp Require Import base list.
From S2P Require Import Prelude.

Module Bpf.

(** ** Instructions (bpf.h) *)

Record bpf_insn := { code : Z; jt : Z; jf : Z; k : Z }.

(** The types of the C struct: u_short, u_char, u_char, u_int32_t. *)
Definition insn_ok (i : bpf_insn) : Prop :=
  is_u 16 (code i) ∧ is_u 8 (jt i) ∧ is_u 8 (jf i) ∧ is_u 32 (k i).

#[export] Instance insn_ok_dec i : Decision (insn_ok i).
Proof. unfold insn_ok. apply _. Defined.

Definition BPF_MAXINSNS : Z := 512.
Definition BPF_MEMWORDS : Z := 16.

Definition BPF_CLASS (c : Z) : Z := Z.land c 0x07.
Definition BPF_LD := 0x00.
Definition BPF_LDX := 0x01.
Definition BPF_ST := 0x02.
Definition BPF_STX := 0x03.
Definition BPF_ALU := 0x04.
Definition BPF_JMP := 0x05.
Definition BPF_RET := 0x06.
Definition BPF_MISC := 0x07.

Definition BPF_W := 0x00.
Definition BPF_H := 0x08.
Definition BPF_B := 0x10.

Definition BPF_MODE (c : Z) : Z := Z.land c 0xe0.
Definition BPF_IMM := 0x00.
Definition BPF_ABS := 0x20.
Definition BPF_IND := 0x40.
Definition BPF_MEM := 0x60.
Definition BPF_LEN := 0x80.
Definition BPF_MSH := 0xa0.

Definition BPF_OP (c : Z) : Z := Z.land c 0xf0.
Definition BPF_ADD := 0x00.
Definition BPF_SUB := 0x10.
Definition BPF_MUL := 0x20.
Definition BPF_DIV := 0x30.
Definition BPF_OR := 0x40.
Definition BPF_AND := 0x50.
Definition BPF_LSH := 0x60.
Definition BPF_RSH := 0x70.
Definition BPF_NEG := 0x80.
Definition BPF_JA := 0x00.
Definition BPF_JEQ := 0x10.
Definition BPF_JGT := 0x20.
Definition BPF_JGE := 0x30.
Definition BPF_JSET := 0x40.
Definition BPF_SRC (c : Z) : Z := Z.land c 0x08.
Definition BPF_K := 0x00.
Definition BPF_X := 0x08.
Definition BPF_A := 0x10.
Definition BPF_TAX := 0x00.
Definition BPF_TXA := 0x80.

(** ** Packets

    [bpf_filter] receives a pointer [p] that is a flat buffer when
    [buflen <> 0] and an mbuf chain when [buflen = 0].  An mbuf is the list of
    its [m_len] bytes. *)

Inductive packet :=
  | PBuf (bytes : list Z)
  | PMbuf (chain : list (list Z)).

Definition EXTRACT_SHORT (b0 b1 : Z) : Z := Z.lor (Z.shiftl b0 8) b1.
Definition EXTRACT_LONG (b0 b1 b2 b3 : Z) : Z :=
  Z.lor (Z.lor (Z.lor (Z.shiftl b0 24) (Z.shiftl b1 16)) (Z.shiftl b2 8)) b3.

Definition m_len (m : list Z) : Z := Z.of_nat (length m).

(** The walk to the mbuf that holds offset [o]: the chain from that mbuf on
    and the offset inside it; [None] when the chain ends first.  It is the
    common loop of [m_xword], [m_xhalf] and MINDEX. *)
Fixpoint m_walk (chain : list (list Z)) (o : Z) : option (list Z * list (list Z) * Z) :=
  match chain with
  | [] => None
  | m :: rest =>
      if o >=? m_len m then m_walk rest (u32 (o - m_len m))
      else Some (m, rest, o)
  end.

(** The result and the [err] flag of the C functions. *)
Definition m_xword (chain : list (list Z)) (o : Z) : outcome (Z * bool) :=
  match m_walk chain o with
  | None => Ok (0, true)
  | Some (m, rest, o) =>
      let len := m_len m in
      if len - o >=? 4 then
        let* c0 := aget m o in let* c1 := aget m (o + 1) in
        let* c2 := aget m (o + 2) in let* c3 := aget m (o + 3) in
        Ok (EXTRACT_LONG c0 c1 c2 c3, false)
      else
        match rest with
        | [] => Ok (0, true)
        | m0 :: _ =>
            if m_len m0 + len - o <? 4 then Ok (0, true)
            else if len - o =? 1 then
              let* c0 := aget m o in let* n0 := aget m0 0 in
              let* n1 := aget m0 1 in let* n2 := aget m0 2 in
              Ok (EXTRACT_LONG c0 n0 n1 n2, false)
            else if len - o =? 2 then
              let* c0 := aget m o in let* c1 := aget m (o + 1) in
              let* n0 := aget m0 0 in let* n1 := aget m0 1 in
              Ok (EXTRACT_LONG c0 c1 n0 n1, false)
            else
              let* c0 := aget m o in let* c1 := aget m (o + 1) in
              let* c2 := aget m (o + 2) in let* n0 := aget m0 0 in
              Ok (EXTRACT_LONG c0 c1 c2 n0, false)
        end
  end.

Definition m_xhalf (chain : list (list Z)) (o : Z) : outcome (Z * bool) :=
  match m_walk chain o with
  | None => Ok (0, true)
  | Some (m, rest, o) =>
      let len := m_len m in
      if len - o >=? 2 then
        let* c0 := aget m o in let* c1 := aget m (o + 1) in
        Ok (EXTRACT_SHORT c0 c1, false)
      else
        match rest with
        | [] => Ok (0, true)
        | m0 :: _ =>
            let* c0 := aget m o in let* n0 := aget m0 0 in
            Ok (Z.lor (Z.shiftl c0 8) n0, false)
        end
  end.

(** The byte at offset [o] of the chain; [None] is the [return 0] of MINDEX. *)
Definition MINDEX (chain : list (list Z)) (o : Z) : outcome (option Z) :=
  match m_walk chain o with
  | None => Ok None
  | Some (m, _, o) => let* b := aget m o in Ok (Some b)
  end.

(** ** The machine *)

Record state := { pc : Z; A : Z; X : Z; mem : list Z }.

(** What one pass through the loop does: return from the function, or go on. *)
Inductive next :=
  | Return (v : Z)
  | Continue (s : state).

Definition set_A (s : state) (a : Z) : state :=
  {| pc := pc s; A := a; X := X s; mem := mem s |}.
Definition set_X (s : state) (x : Z) : state :=
  {| pc := pc s; A := A s; X := x; mem := mem s |}.
Definition set_mem (s : state) (m : list Z) : state :=
  {| pc := pc s; A := A s; X := X s; mem := m |}.
Definition jump (s : state) (off : Z) : state :=
  {| pc := pc s + off; A := A s; X := X s; mem := mem s |}.

(** The left and right shift of a u_int32_t; C leaves counts of 32 and more
    undefined. *)
Definition shl32 (a n : Z) : outcome Z :=
  if n <? 32 then Ok (u32 (Z.shiftl a n)) else Undef BadShift.
Definition shr32 (a n : Z) : outcome Z :=
  if n <? 32 then Ok (Z.shiftr a n) else Undef BadShift.

Definition as_mbuf (p : packet) : outcome (list (list Z)) :=
  match p with
  | PMbuf [] => Undef NullDeref
  | PMbuf c => Ok c
  | PBuf _ => Undef OutOfBounds
  end.

Definition buf_byte (p : packet) (o : Z) : outcome Z :=
  match p with
  | PBuf b => aget b o
  | PMbuf _ => Undef OutOfBounds
  end.

(** [A = ntohl] of the word at [p + o], on a little-endian machine. *)
Definition buf_word (p : packet) (o : Z) : outcome Z :=
  let* b0 := buf_byte p o in let* b1 := buf_byte p (o + 1) in
  let* b2 := buf_byte p (o + 2) in let* b3 := buf_byte p (o + 3) in
  Ok (EXTRACT_LONG b0 b1 b2 b3).
Definition buf_half (p : packet) (o : Z) : outcome Z :=
  let* b0 := buf_byte p o in let* b1 := buf_byte p (o + 1) in
  Ok (EXTRACT_SHORT b0 b1).

Section Exec.
Context (p : packet) (wirelen buflen : Z).

(** The slow path of a load: [m_xword] or [m_xhalf] on the chain, and the
    [merr] test when the code has it. *)
Definition ld_mbuf (f : list (list Z) → Z → outcome (Z * bool)) (check : bool)
    (s : state) (o : Z) : outcome next :=
  if negb (buflen =? 0) then Ok (Return 0)
  else
    let* c := as_mbuf p in
    let* r := f c o in
    if check && snd r then Ok (Return 0) else Ok (Continue (set_A s (fst r))).

(** The slow path of a byte load. *)
Definition ld_mbuf_byte (set : state → Z → state) (s : state) (o : Z) : outcome next :=
  if negb (buflen =? 0) then Ok (Return 0)
  else
    let* c := as_mbuf p in
    let* b := MINDEX c o in
    match b with
    | None => Ok (Return 0)
    | Some b => Ok (Continue (set s b))
    end.

Definition ld_abs_w (i : bpf_insn) (s : state) : outcome next :=
  let o := k i in
  if (o >? buflen) || (4 >? u32 (buflen - o)) then ld_mbuf m_xword true s o
  else let* v := buf_word p o in Ok (Continue (set_A s v)).

Definition ld_abs_h (i : bpf_insn) (s : state) : outcome next :=
  let o := k i in
  if (o >? buflen) || (2 >? u32 (buflen - o)) then ld_mbuf m_xhalf false s o
  else let* v := buf_half p o in Ok (Continue (set_A s v)).

Definition ld_abs_b (i : bpf_insn) (s : state) : outcome next :=
  let o := k i in
  if o >=? buflen then ld_mbuf_byte set_A s o
  else let* v := buf_byte p o in Ok (Continue (set_A s v)).

Definition ld_ind_w (i : bpf_insn) (s : state) : outcome next :=
  let o := u32 (X s + k i) in
  if (k i >? buflen) || (X s >? u32 (buflen - k i)) || (4 >? u32 (buflen - o))
  then ld_mbuf m_xword true s o
  else let* v := buf_word p o in Ok (Continue (set_A s v)).

Definition ld_ind_h (i : bpf_insn) (s : state) : outcome next :=
  let o := u32 (X s + k i) in
  if (X s >? buflen) || (k i >? u32 (buflen - X s)) || (2 >? u32 (buflen - o))
  then ld_mbuf m_xhalf true s o
  else let* v := buf_half p o in Ok (Continue (set_A s v)).

Definition ld_ind_b (i : bpf_insn) (s : state) : outcome next :=
  let o := u32 (X s + k i) in
  if (k i >=? buflen) || (X s >=? u32 (buflen - k i)) then ld_mbuf_byte set_A s o
  else let* v := buf_byte p o in Ok (Continue (set_A s v)).

(** [X = (byte & 0xf) << 2]: the length of an IP header. *)
Definition set_X_msh (s : state) (b : Z) : state := set_X s (Z.shiftl (Z.land b 0xf) 2).

Definition ldx_msh (i : bpf_insn) (s : state) : outcome next :=
  let o := k i in
  if o >=? buflen then ld_mbuf_byte set_X_msh s o
  else let* v := buf_byte p (k i) in Ok (Continue (set_X_msh s v)).

(** The scratch memory holds int32_t; registers are u_int32_t. *)
Definition ld_mem (i : bpf_insn) (s : state) : outcome next :=
  let* v := aget (mem s) (k i) in Ok (Continue (set_A s (u32 v))).
Definition ldx_mem (i : bpf_insn) (s : state) : outcome next :=
  let* v := aget (mem s) (k i) in Ok (Continue (set_X s (u32 v))).
Definition st (i : bpf_insn) (s : state) : outcome next :=
  let* m := aset (mem s) (k i) (s32 (A s)) in Ok (Continue (set_mem s m)).
Definition stx (i : bpf_insn) (s : state) : outcome next :=
  let* m := aset (mem s) (k i) (s32 (X s)) in Ok (Continue (set_mem s m)).

Definition cond_jump (i : bpf_insn) (s : state) (b : bool) : outcome next :=
  Ok (Continue (jump s (if b then jt i else jf i))).

Definition alu (s : state) (v : outcome Z) : outcome next :=
  let* v := v in Ok (Continue (set_A s v)).

(** The [switch (pc->code)], one Definition per group of its cases.  A group
    answers [None] for a code that is not one of its cases. *)
Definition exec_load (i : bpf_insn) (s : state) : option (outcome next) :=
  let c := code i in
  if c =? BPF_RET + BPF_K then Some (Ok (Return (k i)))
  else if c =? BPF_RET + BPF_A then Some (Ok (Return (A s)))
  else if c =? BPF_LD + BPF_W + BPF_ABS then Some (ld_abs_w i s)
  else if c =? BPF_LD + BPF_H + BPF_ABS then Some (ld_abs_h i s)
  else if c =? BPF_LD + BPF_B + BPF_ABS then Some (ld_abs_b i s)
  else if c =? BPF_LD + BPF_W + BPF_LEN then Some (Ok (Continue (set_A s wirelen)))
  else if c =? BPF_LDX + BPF_W + BPF_LEN then Some (Ok (Continue (set_X s wirelen)))
  else if c =? BPF_LD + BPF_W + BPF_IND then Some (ld_ind_w i s)
  else if c =? BPF_LD + BPF_H + BPF_IND then Some (ld_ind_h i s)
  else if c =? BPF_LD + BPF_B + BPF_IND then Some (ld_ind_b i s)
  else if c =? BPF_LDX + BPF_MSH + BPF_B then Some (ldx_msh i s)
  else None.

Definition exec_mem (i : bpf_insn) (s : state) : option (outcome next) :=
  let c := code i in
  if c =? BPF_LD + BPF_IMM then Some (Ok (Continue (set_A s (k i))))
  else if c =? BPF_LDX + BPF_IMM then Some (Ok (Continue (set_X s (k i))))
  else if c =? BPF_LD + BPF_MEM then Some (ld_mem i s)
  else if c =? BPF_LDX + BPF_MEM then Some (ldx_mem i s)
  else if c =? BPF_ST then Some (st i s)
  else if c =? BPF_STX then Some (stx i s)
  else None.

Definition exec_jmp (i : bpf_insn) (s : state) : option (outcome next) :=
  let c := code i in
  if c =? BPF_JMP + BPF_JA then Some (Ok (Continue (jump s (k i))))
  else if c =? BPF_JMP + BPF_JGT + BPF_K then Some (cond_jump i s (A s >? k i))
  else if c =? BPF_JMP + BPF_JGE + BPF_K then Some (cond_jump i s (A s >=? k i))
  else if c =? BPF_JMP + BPF_JEQ + BPF_K then Some (cond_jump i s (A s =? k i))
  else if c =? BPF_JMP + BPF_JSET + BPF_K
  then Some (cond_jump i s (negb (Z.land (A s) (k i) =? 0)))
  else if c =? BPF_JMP + BPF_JGT + BPF_X then Some (cond_jump i s (A s >? X s))
  else if c =? BPF_JMP + BPF_JGE + BPF_X then Some (cond_jump i s (A s >=? X s))
  else if c =? BPF_JMP + BPF_JEQ + BPF_X then Some (cond_jump i s (A s =? X s))
  else if c =? BPF_JMP + BPF_JSET + BPF_X
  then Some (cond_jump i s (negb (Z.land (A s) (X s) =? 0)))
  else None.

Definition exec_alu (i : bpf_insn) (s : state) : option (outcome next) :=
  let c := code i in
  if c =? BPF_ALU + BPF_ADD + BPF_X then Some (alu s (Ok (A s +u X s)%C))
  else if c =? BPF_ALU + BPF_SUB + BPF_X then Some (alu s (Ok (A s -u X s)%C))
  else if c =? BPF_ALU + BPF_MUL + BPF_X then Some (alu s (Ok (A s *u X s)%C))
  else if c =? BPF_ALU + BPF_DIV + BPF_X
  then Some (if X s =? 0 then Ok (Return 0) else alu s (Ok (A s / X s)))
  else if c =? BPF_ALU + BPF_AND + BPF_X then Some (alu s (Ok (Z.land (A s) (X s))))
  else if c =? BPF_ALU + BPF_OR + BPF_X then Some (alu s (Ok (Z.lor (A s) (X s))))
  else if c =? BPF_ALU + BPF_LSH + BPF_X then Some (alu s (shl32 (A s) (X s)))
  else if c =? BPF_ALU + BPF_RSH + BPF_X then Some (alu s (shr32 (A s) (X s)))
  else if c =? BPF_ALU + BPF_ADD + BPF_K then Some (alu s (Ok (A s +u k i)%C))
  else if c =? BPF_ALU + BPF_SUB + BPF_K then Some (alu s (Ok (A s -u k i)%C))
  else if c =? BPF_ALU + BPF_MUL + BPF_K then Some (alu s (Ok (A s *u k i)%C))
  else if c =? BPF_ALU + BPF_DIV + BPF_K
  then Some (alu s (if k i =? 0 then Undef DivByZero else Ok (A s / k i)))
  else if c =? BPF_ALU + BPF_AND + BPF_K then Some (alu s (Ok (Z.land (A s) (k i))))
  else if c =? BPF_ALU + BPF_OR + BPF_K then Some (alu s (Ok (Z.lor (A s) (k i))))
  else if c =? BPF_ALU + BPF_LSH + BPF_K then Some (alu s (shl32 (A s) (k i)))
  else if c =? BPF_ALU + BPF_RSH + BPF_K then Some (alu s (shr32 (A s) (k i)))
  else if c =? BPF_ALU + BPF_NEG then Some (alu s (Ok (u32 (- A s))))
  else None.

Definition exec_misc (i : bpf_insn) (s : state) : option (outcome next) :=
  let c := code i in
  if c =? BPF_MISC + BPF_TAX then Some (Ok (Continue (set_X s (A s))))
  else if c =? BPF_MISC + BPF_TXA then Some (Ok (Continue (set_A s (X s))))
  else None.

Definition or_else {T} (a b : option T) : option T :=
  match a with Some _ => a | None => b end.

(** The whole switch; its [default] returns 0. *)
Definition exec (i : bpf_insn) (s : state) : outcome next :=
  match or_else (exec_load i s) (or_else (exec_mem i s)
          (or_else (exec_jmp i s) (or_else (exec_alu i s) (exec_misc i s)))) with
  | Some r => r
  | None => Ok (Return 0)
  end.

(** The [while (1)] loop: [++pc], fetch, switch. *)
Fixpoint run (fuel : nat) (prog : list bpf_insn) (s : state) : outcome Z :=
  match fuel with
  | O => NoFuel
  | S fuel =>
      let s := jump s 1 in
      let* i := aget prog (pc s) in
      let* n := exec i s in
      match n with
      | Return v => Ok v
      | Continue s => run fuel prog s
      end
  end.

Definition init_state : state :=
  {| pc := -1; A := 0; X := 0; mem := replicate (Z.to_nat BPF_MEMWORDS) 0 |}.

(** [None] is the null program: no filter means accept all. *)
Definition bpf_filter (fuel : nat) (prog : option (list bpf_insn)) : outcome Z :=
  match prog with
  | None => Ok (u32 (-1))
  | Some prog => run fuel prog init_state
  end.

End Exec.

(** ** The validator *)

Section Validate.
Context (bpf_maxbufsize : Z).

Definition valid_load (i : bpf_insn) : bool :=
  let m := BPF_MODE (code i) in
  if m =? BPF_IMM then true
  else if (m =? BPF_ABS) || (m =? BPF_IND) || (m =? BPF_MSH)
  then negb (k i >=? u32 bpf_maxbufsize)
  else if m =? BPF_MEM then negb (k i >=? BPF_MEMWORDS)
  else if m =? BPF_LEN then true
  else false.

Definition valid_alu (i : bpf_insn) : bool :=
  let o := BPF_OP (code i) in
  if (o =? BPF_ADD) || (o =? BPF_SUB) || (o =? BPF_MUL) || (o =? BPF_OR)
     || (o =? BPF_AND) || (o =? BPF_LSH) || (o =? BPF_RSH) || (o =? BPF_NEG)
  then true
  else if o =? BPF_DIV then negb ((BPF_SRC (code i) =? BPF_K) && (k i =? 0))
  else false.

Definition valid_jmp (i : bpf_insn) (n len : Z) : bool :=
  let from := u32 (n + 1) in
  let o := BPF_OP (code i) in
  if o =? BPF_JA
  then negb ((u32 (from + k i) <? from) || (u32 (from + k i) >=? len))
  else if (o =? BPF_JEQ) || (o =? BPF_JGT) || (o =? BPF_JGE) || (o =? BPF_JSET)
  then negb ((u32 (from + jt i) >=? len) || (u32 (from + jf i) >=? len))
  else false.

(** The body of the loop for instruction [n]. *)
Definition valid_insn (i : bpf_insn) (n len : Z) : bool :=
  let c := BPF_CLASS (code i) in
  if (c =? BPF_LD) || (c =? BPF_LDX) then valid_load i
  else if (c =? BPF_ST) || (c =? BPF_STX) then negb (k i >=? BPF_MEMWORDS)
  else if c =? BPF_ALU then valid_alu i
  else if c =? BPF_JMP then valid_jmp i n len
  else if c =? BPF_RET then true
  else if c =? BPF_MISC then true
  else false.

Fixpoint valid_from (f : list bpf_insn) (n len : Z) : bool :=
  match f with
  | [] => true
  | i :: f => valid_insn i n len && valid_from f (n + 1) len
  end.

(** [f] holds the [len] instructions the caller passes. *)
Definition bpf_validate (f : list bpf_insn) : bool :=
  let len := Z.of_nat (length f) in
  if (len <? 1) || (len >? BPF_MAXINSNS) then false
  else if valid_from f 0 len
  then match f !! Z.to_nat (len - 1) with
       | Some i => BPF_CLASS (code i) =? BPF_RET
       | None => false
       end
  else false.

End Validate.

(** * Theorems *)

(** ** Data that the callers hand in *)

Definition bytes_ok (b : list Z) : Prop := Forall (is_u 8) b.

(** A flat buffer holds at least [buflen] bytes; a chain ([buflen = 0] selects
    it) has an mbuf. *)
Definition packet_ok (p : packet) (buflen : Z) : Prop :=
  match p with
  | PBuf b => buflen ≠ 0 ∧ buflen ≤ m_len b ∧ bytes_ok b
  | PMbuf c => buflen = 0 ∧ c ≠ [] ∧ Forall bytes_ok c
  end.

(** The chain has an empty mbuf right behind one that is not empty. *)
Definition gapped (p : packet) : Prop :=
  match p with
  | PBuf _ => False
  | PMbuf c => ∃ pre m post, c = pre ++ m :: [] :: post ∧ m ≠ []
  end.

(** A load of a half-word of the packet. *)
Definition half_load (i : bpf_insn) : Prop :=
  code i = BPF_LD + BPF_H + BPF_ABS ∨ code i = BPF_LD + BPF_H + BPF_IND.

Definition state_ok (s : state) : Prop :=
  is_u 32 (A s) ∧ is_u 32 (X s) ∧ length (mem s) = 16%nat ∧ Forall (is_s 32) (mem s).

(** An instruction that cannot shift by 32 or more. *)
Definition small_shift (i : bpf_insn) : Prop :=
  code i ≠ BPF_ALU + BPF_LSH + BPF_X ∧ code i ≠ BPF_ALU + BPF_RSH + BPF_X ∧
  (code i = BPF_ALU + BPF_LSH + BPF_K → k i < 32) ∧
  (code i = BPF_ALU + BPF_RSH + BPF_K → k i < 32).

(** ** Accessors *)

Lemma shiftl_byte_range a n : is_u 8 a → 0 ≤ n ≤ 24 → is_u 32 (Z.shiftl a n).
Proof.
  intros Ha Hn. rewrite Z.shiftl_mul_pow2 by lia. width.
  assert (1 ≤ 2 ^ n) by (apply (Z.pow_le_mono_r 2 0); lia).
  assert (2 ^ n ≤ 2 ^ 24) by (apply Z.pow_le_mono_r; lia).
  change (2 ^ 24) with 16777216 in *. nia.
Qed.

Lemma byte_is_u32 a : is_u 8 a → is_u 32 a.
Proof. width. Qed.

#[local] Hint Resolve shiftl_byte_range byte_is_u32 lor_is_u : core.

Lemma extract_long_range a b c d :
  is_u 8 a → is_u 8 b → is_u 8 c → is_u 8 d → is_u 32 (EXTRACT_LONG a b c d).
Proof. intros. unfold EXTRACT_LONG. auto 8 with lia. Qed.

Lemma extract_short_range a b : is_u 8 a → is_u 8 b → is_u 32 (EXTRACT_SHORT a b).
Proof. intros. unfold EXTRACT_SHORT. auto 8 with lia. Qed.

Lemma aget_byte (b : list Z) o :
  bytes_ok b → 0 ≤ o < m_len b → ∃ v, aget b o = Ok v ∧ is_u 8 v.
Proof.
  intros Hb Ho. destruct (aget_in_bounds b o Ho) as (v & E & L).
  exists v. split; [done|]. by apply (Forall_lookup_1 _ _ _ _ Hb L).
Qed.

(** Reads the next byte of an access chain. *)
Ltac read_byte :=
  match goal with
  | |- context [aget ?b ?o] =>
      let v := fresh "v" in let E := fresh "E" in let R := fresh "R" in
      destruct (aget_byte b o) as (v & E & R);
      [try done | unfold m_len in *; lia | rewrite E; cbn [obind]]
  end.

(** The walk finds the mbuf that holds the offset. *)
Lemma m_walk_Some chain o m rest o' :
  is_u 32 o → m_walk chain o = Some (m, rest, o') →
  0 ≤ o' < m_len m ∧ is_u 32 o' ∧
  ∃ pre, chain = pre ++ m :: rest ∧ o = m_len (concat pre) + o'.
Proof.
  revert o. induction chain as [|a chain IH]; intros o Ho; cbn [m_walk]; [done|].
  case_test; bool_prop.
  - intros H. assert (Hr : u32 (o - m_len a) = o - m_len a).
    { apply unsigned_of_small. unfold m_len in *. width. }
    rewrite Hr in H. apply IH in H as (? & ? & pre & -> & Hp); [|unfold m_len in *; width].
    split; [done|]. split; [done|]. exists (a :: pre). split; [done|].
    cbn [concat]. unfold m_len in *. rewrite length_app. lia.
  - intros [= -> -> ->]. split; [width|]. split; [done|].
    exists []. split; [done|]. unfold m_len. cbn [concat length]. lia.
Qed.

Lemma m_walk_None chain o :
  is_u 32 o → m_walk chain o = None → m_len (concat chain) ≤ o.
Proof.
  revert o. induction chain as [|a chain IH]; intros o Ho; cbn [m_walk].
  { intros _. unfold m_len. cbn [concat length Z.of_nat]. width. }
  case_test; bool_prop; [|done]. intros H.
  assert (Hr : u32 (o - m_len a) = o - m_len a).
  { apply unsigned_of_small. unfold m_len in *. width. }
  rewrite Hr in H. apply IH in H; [|unfold m_len in *; width].
  cbn [concat]. unfold m_len in *. rewrite length_app. lia.
Qed.


Lemma m_walk_bytes chain o m rest o' :
  Forall bytes_ok chain → is_u 32 o →
  m_walk chain o = Some (m, rest, o') →
  bytes_ok m ∧ Forall bytes_ok rest ∧ 0 ≤ o' < m_len m ∧ ∃ pre, chain = pre ++ m :: rest.
Proof.
  intros Hc Ho H. apply m_walk_Some in H as (? & ? & pre & -> & _); [|done].
  apply Forall_app in Hc as [_ Hc]. apply Forall_cons in Hc as [? ?].
  split; [done|]. split; [done|]. split; [done|]. by exists pre.
Qed.

Lemma m_len_pos (m : list Z) o : 0 ≤ o < m_len m → m ≠ [].
Proof. intros Ho ->. change (m_len []) with 0 in Ho. lia. Qed.

(** An accessor is safe on [chain]: it answers a 32-bit value. *)
Definition accessor_ok (f : list (list Z) → Z → outcome (Z * bool)) : Prop :=
  ∀ chain o, Forall bytes_ok chain → is_u 32 o →
  ∃ v e, f chain o = Ok (v, e) ∧ is_u 32 v.

Lemma zero_is_u32 : is_u 32 0.
Proof. width. Qed.

#[local] Hint Resolve zero_is_u32 extract_long_range extract_short_range : core.

Lemma m_xword_ok : accessor_ok m_xword.
Proof.
  intros chain o Hc Ho. unfold m_xword.
  destruct (m_walk chain o) as [[[m rest] o']|] eqn:W; [|by eauto].
  apply m_walk_bytes in W as (Hm & Hr & Ho' & pre & Hpre); [|done..].
  case_test; bool_prop.
  { repeat read_byte. eauto. }
  destruct rest as [|m0 rest]; [by eauto|].
  apply Forall_cons in Hr as [Hm0 _].
  repeat (case_test; bool_prop); try solve [repeat read_byte; eauto]; eauto.
Qed.

(** [m_xhalf] does not look at the length of the second mbuf. *)
Lemma m_xhalf_ok chain o : Forall bytes_ok chain → is_u 32 o →
  (∃ v e, m_xhalf chain o = Ok (v, e) ∧ is_u 32 v) ∨ (m_xhalf chain o = Undef OutOfBounds ∧ gapped (PMbuf chain)).
Proof.
  intros Hc Ho. unfold m_xhalf.
  destruct (m_walk chain o) as [[[m rest] o']|] eqn:W; [|by eauto].
  apply m_walk_bytes in W as (Hm & Hr & Ho' & pre & Hpre); [|done..].
  case_test; bool_prop.
  { left. repeat read_byte. eauto. }
  destruct rest as [|m0 rest]; [by eauto|].
  apply Forall_cons in Hr as [Hm0 _]. read_byte. destruct m0 as [|b0 m0].
  - right. split; [done|]. exists pre, m, rest. split; [done|]. by apply (m_len_pos m o').
  - left. destruct (aget_byte (b0 :: m0) 0) as (v0 & -> & ?); [done|unfold m_len; cbn [length]; lia|]. cbn [obind]. eexists _, _. split; [done|]. auto with lia.
Qed.

Lemma MINDEX_ok chain o :
  Forall bytes_ok chain → is_u 32 o →
  MINDEX chain o = Ok None ∨ ∃ b, MINDEX chain o = Ok (Some b) ∧ is_u 8 b.
Proof.
  intros Hc Ho. unfold MINDEX.
  destruct (m_walk chain o) as [[[m rest] o']|] eqn:W; [|by eauto].
  apply m_walk_bytes in W as (Hm & Hr & Ho' & pre & Hpre); [|done..].
  read_byte. eauto.
Qed.

(** ** One instruction *)

Section Safety.
Context (p : packet) (wirelen buflen : Z).
Context (Hp : packet_ok p buflen) (Hw : is_u 32 wirelen) (Hb : is_u 32 buflen).

(** What [exec] may answer for a checked instruction that does not jump. *)
Definition stays (s : state) (r : outcome next) : Prop :=
  match r with
  | Ok (Return v) => is_u 32 v
  | Ok (Continue s') => state_ok s' ∧ pc s' = pc s
  | _ => False
  end.

Lemma set_A_ok s v : state_ok s → is_u 32 v → state_ok (set_A s v).
Proof. unfold state_ok. cbn. tauto. Qed.
Lemma set_X_ok s v : state_ok s → is_u 32 v → state_ok (set_X s v).
Proof. unfold state_ok. cbn. tauto. Qed.

Lemma set_X_msh_ok s b : state_ok s → is_u 8 b → state_ok (set_X_msh s b).
Proof.
  intros Hs Hb'. apply set_X_ok; [done|].
  assert (is_u 4 (Z.land b 15)).
  { rewrite Z.land_comm. apply land_is_u; [lia| |width]. unfold is_u. lia. }
  apply shiftl_byte_range; [|lia]. unfold is_u in *. lia.
Qed.

#[local] Hint Resolve set_A_ok set_X_ok set_X_msh_ok : core.

Lemma ld_mbuf_stays f b s o :
  accessor_ok f → state_ok s → is_u 32 o → stays s (ld_mbuf p buflen f b s o).
Proof.
  intros Hf Hs Ho. unfold ld_mbuf. case_test; bool_prop; [cbn; auto|].
  destruct p as [bs|c]; cbn in Hp; [lia|].
  destruct Hp as (_ & Hne & Hc). cbn [as_mbuf].
  destruct c as [|m c]; [done|]. cbn [obind].
  destruct (Hf (m :: c) o Hc Ho) as (v & e & -> & Hv). cbn [obind fst snd].
  case_test; cbn; auto.
Qed.

Lemma ld_mbuf_half_stays b s o : state_ok s → is_u 32 o →
  stays s (ld_mbuf p buflen m_xhalf b s o) ∨ (ld_mbuf p buflen m_xhalf b s o = Undef OutOfBounds ∧ gapped p).
Proof.
  intros Hs Ho. unfold ld_mbuf. case_test; bool_prop; [left; cbn; auto|].
  destruct p as [bs|c]; cbn in Hp; [lia|].
  destruct Hp as (_ & Hne & Hc). cbn [as_mbuf].
  destruct c as [|m c]; [done|]. cbn [obind].
  destruct (m_xhalf_ok (m :: c) o Hc Ho) as [(v & e & -> & Hv)|[-> ?]]; cbn [obind fst snd]; [|by right].
  left. case_test; cbn; auto.
Qed.

Lemma ld_mbuf_byte_stays set s o :
  (∀ b, is_u 8 b → state_ok (set s b) ∧ pc (set s b) = pc s) → is_u 32 o →
  stays s (ld_mbuf_byte p buflen set s o).
Proof.
  intros Hset Ho. unfold ld_mbuf_byte. case_test; bool_prop; [cbn; auto|].
  destruct p as [bs|c]; cbn in Hp; [lia|].
  destruct Hp as (_ & Hne & Hc). cbn [as_mbuf].
  destruct c as [|m c]; [done|]. cbn [obind].
  destruct (MINDEX_ok (m :: c) o Hc Ho) as [->|(b & -> & Hbyte)]; cbn; auto.
Qed.

(** A read of the flat buffer inside [buflen]. *)
Lemma buf_byte_ok o : 0 ≤ o < buflen → ∃ v, buf_byte p o = Ok v ∧ is_u 8 v.
Proof.
  intros Ho. destruct p as [bs|c]; cbn in Hp; [|lia].
  destruct Hp as (_ & ? & ?). apply aget_byte; [done|]. unfold m_len in *. lia.
Qed.

Ltac read_buf :=
  match goal with
  | |- context [buf_byte p ?o] =>
      let v := fresh "v" in let E := fresh "E" in let R := fresh "R" in
      destruct (buf_byte_ok o) as (v & E & R); [lia| rewrite E; cbn [obind]]
  end.

Lemma buf_word_ok o : 0 ≤ o → o + 4 ≤ buflen → ∃ v, buf_word p o = Ok v ∧ is_u 32 v.
Proof. intros. unfold buf_word. repeat read_buf. eauto. Qed.
Lemma buf_half_ok o : 0 ≤ o → o + 2 ≤ buflen → ∃ v, buf_half p o = Ok v ∧ is_u 32 v.
Proof. intros. unfold buf_half. repeat read_buf. eauto. Qed.

Lemma u32_sub_exact x : 0 ≤ x ≤ buflen → u32 (buflen - x) = buflen - x.
Proof. intros. apply unsigned_of_small. width. Qed.

Lemma u32_add_exact x y : 0 ≤ x → 0 ≤ y → x + y ≤ buflen → u32 (x + y) = x + y.
Proof. intros. apply unsigned_of_small. width. Qed.

Lemma u32_range x : is_u 32 (u32 x).
Proof. apply unsigned_of_range. lia. Qed.

#[local] Hint Resolve u32_range m_xword_ok : core.

Section Insn.
Context (i : bpf_insn) (s : state) (Hi : insn_ok i) (Hs : state_ok s).

Let Hk : is_u 32 (k i).
Proof. apply Hi. Qed.
Let HX : is_u 32 (X s).
Proof. apply Hs. Qed.

Ltac bounds := rewrite ?is_u32_iff in *; lia.

Lemma ld_abs_w_stays : stays s (ld_abs_w p buflen i s).
Proof.
  unfold ld_abs_w. case_test; bool_prop; [apply ld_mbuf_stays; auto|].
  rewrite u32_sub_exact in * by bounds.
  destruct (buf_word_ok (k i)) as (v & -> & ?); [bounds..|]. cbn. auto.
Qed.

Lemma ld_abs_h_stays : stays s (ld_abs_h p buflen i s) ∨ (ld_abs_h p buflen i s = Undef OutOfBounds ∧ gapped p).
Proof.
  unfold ld_abs_h. case_test; bool_prop; [apply ld_mbuf_half_stays; auto|].
  rewrite u32_sub_exact in * by bounds.
  destruct (buf_half_ok (k i)) as (v & -> & ?); [bounds..|]. left. cbn. auto.
Qed.

Lemma ld_abs_b_stays : stays s (ld_abs_b p buflen i s).
Proof.
  unfold ld_abs_b. case_test; bool_prop; [apply ld_mbuf_byte_stays; auto|].
  destruct (buf_byte_ok (k i)) as (v & -> & ?); [bounds..|]. cbn. auto.
Qed.

Lemma ldx_msh_stays : stays s (ldx_msh p buflen i s).
Proof.
  unfold ldx_msh. case_test; bool_prop; [apply ld_mbuf_byte_stays; auto|].
  destruct (buf_byte_ok (k i)) as (v & -> & ?); [bounds..|]. cbn. auto.
Qed.

Lemma ld_ind_w_stays : stays s (ld_ind_w p buflen i s).
Proof.
  unfold ld_ind_w. case_test; bool_prop; [apply ld_mbuf_stays; auto|].
  rewrite (u32_sub_exact (k i)) in * by bounds.
  rewrite u32_add_exact in * by bounds. rewrite u32_sub_exact in * by bounds.
  destruct (buf_word_ok (X s + k i)) as (v & -> & ?); [bounds..|]. cbn. auto.
Qed.

Lemma ld_ind_h_stays : stays s (ld_ind_h p buflen i s) ∨ (ld_ind_h p buflen i s = Undef OutOfBounds ∧ gapped p).
Proof.
  unfold ld_ind_h. case_test; bool_prop; [apply ld_mbuf_half_stays; auto|].
  rewrite (u32_sub_exact (X s)) in * by bounds.
  rewrite u32_add_exact in * by bounds. rewrite u32_sub_exact in * by bounds.
  destruct (buf_half_ok (X s + k i)) as (v & -> & ?); [bounds..|]. left. cbn. auto.
Qed.

Lemma ld_ind_b_stays : stays s (ld_ind_b p buflen i s).
Proof.
  unfold ld_ind_b. case_test; bool_prop; [apply ld_mbuf_byte_stays; auto|].
  rewrite (u32_sub_exact (k i)) in * by bounds. rewrite u32_add_exact in * by bounds.
  destruct (buf_byte_ok (X s + k i)) as (v & -> & ?); [bounds..|]. cbn. auto.
Qed.


(** The scratch memory. *)
Lemma aget_mem o : 0 ≤ o < 16 → ∃ v, aget (mem s) o = Ok v.
Proof.
  intros Ho. destruct Hs as (_ & _ & Hl & _).
  destruct (aget_in_bounds (mem s) o) as (v & E & _); [rewrite Hl; lia|eauto].
Qed.

Lemma store_stays o v :
  0 ≤ o < 16 →
  stays s (let* m := aset (mem s) o (s32 v) in Ok (Continue (set_mem s m))).
Proof.
  intros Ho. destruct Hs as (? & ? & Hl & Hm).
  rewrite aset_in_bounds by (rewrite Hl; lia). cbn [obind stays]. split; [|done].
  unfold state_ok. cbn [A X mem set_mem].
  repeat split; try apply Hs.
  - rewrite length_insert. done.
  - apply Forall_insert; [done|]. apply signed_of_range. lia.
Qed.

End Insn.

(** What [exec] may answer for instruction [n] of a checked program of [len]
    instructions. *)
Definition step_post (n len : Z) (i : bpf_insn) (s : state) (r : outcome next) : Prop :=
  match r with
  | Ok (Return v) => is_u 32 v
  | Ok (Continue s') =>
      state_ok s' ∧ BPF_CLASS (code i) ≠ BPF_RET ∧ n ≤ pc s' ∧
      (pc s' = n ∨ pc s' + 1 < len)
  | Undef BadShift => ¬ small_shift i
  | Undef OutOfBounds => gapped p ∧ half_load i
  | _ => False
  end.

Lemma stays_post n len i s r :
  pc s = n → BPF_CLASS (code i) ≠ BPF_RET → stays s r → step_post n len i s r.
Proof.
  intros Hn Hc Hr. destruct r as [[v|s']| | |]; cbn in *; try done.
  destruct Hr as [? ->]. split_and!; [done..|lia|by left].
Qed.

Lemma half_post n len i s r :
  pc s = n → BPF_CLASS (code i) ≠ BPF_RET → half_load i → stays s r ∨ (r = Undef OutOfBounds ∧ gapped p) →
  step_post n len i s r.
Proof. intros Hn Hc Hh [Hr|[-> Hg]]; [by apply stays_post|by split]. Qed.

Section Groups.
Context (maxbuf n len : Z) (i : bpf_insn) (s : state).
Context (Hi : insn_ok i) (Hs : state_ok s) (Hpc : pc s = n).
Context (Hn : 0 ≤ n < len) (Hlen : len ≤ BPF_MAXINSNS).
Context (Hv : valid_insn maxbuf i n len = true).

(** Takes the first case of a group of the switch: in it [E] gives the code;
    after it the test is known to be false. *)
Ltac next_case :=
  match goal with
  | |- (if ?b then _ else _) = _ → _ =>
      let E := fresh "E" in
      destruct b eqn:E; [apply Z.eqb_eq in E; intros [= <-]|clear E]
  end.

(** The case does not return from the function or jump. *)
Ltac no_jump :=
  apply stays_post; [done|match goal with E : code i = _ |- _ => rewrite E end; discriminate|].

(** The same, for a load of a half-word. *)
Ltac half_case :=
  apply half_post; [done|match goal with E : code i = _ |- _ => rewrite E end; discriminate| |].

Ltac eval_in H t := let v := eval vm_compute in t in change t with v in H.

(** Evaluates the tests on literal codes in [H]. *)
Ltac eval_codes H :=
  repeat match type of H with
  | context [BPF_CLASS ?c] => eval_in H (BPF_CLASS c)
  | context [BPF_MODE ?c] => eval_in H (BPF_MODE c)
  | context [BPF_OP ?c] => eval_in H (BPF_OP c)
  | context [BPF_SRC ?c] => eval_in H (BPF_SRC c)
  end;
  repeat match type of H with
  | context [?a =? ?b] =>
      let v := eval vm_compute in (a =? b) in
      lazymatch v with true => idtac | false => idtac end;
      change (a =? b) with v in H
  end;
  cbn [orb andb] in H.

(** What the validator tested for the code of the case. *)
Ltac checked :=
  match goal with E : code i = _ |- _ =>
    unfold valid_insn, valid_load, valid_alu, valid_jmp in Hv; rewrite E in Hv;
    eval_codes Hv
  end; bool_prop; unfold BPF_MEMWORDS, BPF_MAXINSNS in *.

Lemma exec_load_post r : exec_load p wirelen buflen i s = Some r → step_post n len i s r.
Proof.
  unfold exec_load.
  next_case; [apply Hi|]. next_case; [apply Hs|].
  next_case; [no_jump; auto using ld_abs_w_stays|].
  next_case; [half_case; [by left|auto using ld_abs_h_stays]|].
  do 4 (next_case; [no_jump; auto using ld_abs_b_stays, ld_ind_w_stays; cbn; auto|]).
  next_case; [half_case; [by right|auto using ld_ind_h_stays]|].
  repeat (next_case; [no_jump; auto using ld_ind_b_stays, ldx_msh_stays|]).
  done.
Qed.

Lemma exec_mem_post r : exec_mem i s = Some r → step_post n len i s r.
Proof.
  assert (Hk : 0 ≤ k i) by (destruct Hi as (_ & _ & _ & ?); width).
  unfold exec_mem. unfold BPF_MEMWORDS in *.
  next_case; [no_jump; cbn; split; [apply set_A_ok; [done|apply Hi]|done]|].
  next_case; [no_jump; cbn; split; [apply set_X_ok; [done|apply Hi]|done]|].
  next_case; [no_jump; checked|].
  { unfold ld_mem. destruct (aget_mem s Hs (k i)) as (v & ->); [lia|]. cbn. auto. }
  next_case; [no_jump; checked|].
  { unfold ldx_mem. destruct (aget_mem s Hs (k i)) as (v & ->); [lia|]. cbn. auto. }
  next_case; [no_jump; checked; apply store_stays; [done|lia]|].
  next_case; [no_jump; checked; apply store_stays; [done|lia]|].
  done.
Qed.


Lemma jump_post o :
  BPF_CLASS (code i) ≠ BPF_RET → 0 ≤ o → n + 1 + o < len →
  step_post n len i s (Ok (Continue (jump s o))).
Proof. intros. cbn [step_post]. split_and!; [apply Hs|done|cbn; lia|cbn; lia]. Qed.

(** The sums of the validator do not wrap. *)
Lemma from_exact o :
  0 ≤ o < 4294967296 → u32 (u32 (n + 1) + o) < len → u32 (n + 1) ≤ u32 (u32 (n + 1) + o) →
  n + 1 + o < len.
Proof.
  intros Ho. unfold BPF_MAXINSNS in Hlen.
  rewrite (unsigned_of_small 32 (n + 1)) by width.
  destruct (Z.lt_ge_cases (n + 1 + o) 4294967296).
  - rewrite unsigned_of_small by width. lia.
  - assert (E : u32 (n + 1 + o) = n + 1 + o - 4294967296).
    { symmetry. apply Z.mod_unique with 1; [left|]; lia. }
    rewrite E. lia.
Qed.

Lemma short_exact o :
  is_u 8 o → u32 (u32 (n + 1) + o) < len → n + 1 + o < len.
Proof.
  intros Ho. unfold BPF_MAXINSNS in Hlen. width.
  rewrite !unsigned_of_small by (rewrite ?unsigned_of_small; width). lia.
Qed.

Lemma cond_jump_post b :
  BPF_CLASS (code i) ≠ BPF_RET →
  u32 (u32 (n + 1) + jt i) < len → u32 (u32 (n + 1) + jf i) < len →
  step_post n len i s (cond_jump i s b).
Proof.
  intros Hc Ht Hf. destruct Hi as (_ & Hjt & Hjf & _).
  unfold cond_jump. destruct b; apply jump_post; try done;
    first [by apply short_exact | width].
Qed.

Ltac class_ne :=
  match goal with E : code i = _ |- _ => rewrite E; discriminate end.

Lemma exec_jmp_post r : exec_jmp i s = Some r → step_post n len i s r.
Proof.
  unfold exec_jmp.
  next_case.
  { checked. destruct Hi as (_ & _ & _ & Hk). rewrite is_u32_iff in Hk.
    apply jump_post; [class_ne|lia|]. apply from_exact; lia. }
  repeat (next_case; [checked; apply cond_jump_post; [class_ne|lia..]|]).
  done.
Qed.

Lemma shl32_post m a :
  BPF_CLASS (code i) ≠ BPF_RET → (32 ≤ m → ¬ small_shift i) →
  step_post n len i s (alu s (shl32 a m)).
Proof.
  intros Hc Hb'. unfold shl32. case_test; bool_prop; [|cbn; auto].
  apply stays_post; [done..|]. cbn. split; [apply set_A_ok; auto using u32_range|done].
Qed.

Lemma shr32_post m a :
  BPF_CLASS (code i) ≠ BPF_RET → is_u 32 a → 0 ≤ m → (32 ≤ m → ¬ small_shift i) →
  step_post n len i s (alu s (shr32 a m)).
Proof.
  intros Hc Ha Hm Hb'. unfold shr32. case_test; bool_prop; [|cbn; auto].
  apply stays_post; [done..|]. cbn. split; [|done]. apply set_A_ok; [done|].
  rewrite Z.shiftr_div_pow2 by lia. width.
  assert (1 ≤ 2 ^ m) by (apply (Z.pow_le_mono_r 2 0); lia).
  split; [apply Z.div_pos; lia|]. apply Z.div_lt_upper_bound; nia.
Qed.

Lemma div_is_u32 a b : is_u 32 a → 0 < b → is_u 32 (a / b).
Proof.
  intros. width. split; [apply Z.div_pos; lia|]. apply Z.div_lt_upper_bound; nia.
Qed.

(** The shift of the case has a count of 32 or more. *)
Ltac big_shift :=
  match goal with E : code i = _ |- _ =>
    intros ? (H1 & H2 & H3 & H4);
    first [by apply H1 | by apply H2 | specialize (H3 E); lia | specialize (H4 E); lia]
  end.

Lemma exec_alu_post r : exec_alu i s = Some r → step_post n len i s r.
Proof.
  assert (HA : is_u 32 (A s)) by apply Hs.
  assert (HX : is_u 32 (X s)) by apply Hs.
  assert (Hk : is_u 32 (k i)) by apply Hi.
  assert (0 ≤ X s ∧ 0 ≤ k i) as [HX0 Hk0] by (split; [apply HX|apply Hk]).
  assert (alu_ok : ∀ v, BPF_CLASS (code i) ≠ BPF_RET → is_u 32 v →
    step_post n len i s (alu s (Ok v))).
  { intros v Hc Hv'. apply stays_post; [done..|]. cbn. auto using set_A_ok. }
  unfold exec_alu.
  repeat (next_case;
    [first [ solve [apply alu_ok; [class_ne|first [apply u32_range
                   | apply land_is_u; [lia|done|lia] | by apply lor_is_u]]]
           | apply shl32_post; [class_ne|big_shift]
           | apply shr32_post; [class_ne|done|lia|big_shift]
           | solve [case_test; bool_prop;
               [cbn; auto; fail|apply alu_ok; [class_ne|apply div_is_u32; [done|lia]]]]
           | checked; case_test; bool_prop; [lia|apply alu_ok; [class_ne|apply div_is_u32; [done|lia]]]
           ]|]).
  done.
Qed.

Lemma exec_misc_post r : exec_misc i s = Some r → step_post n len i s r.
Proof.
  unfold exec_misc.
  next_case; [no_jump; cbn; split; [apply set_X_ok; [done|apply Hs]|done]|].
  next_case; [no_jump; cbn; split; [apply set_A_ok; [done|apply Hs]|done]|].
  done.
Qed.

(** A checked instruction never leaves the machine's memory. *)
Lemma exec_post : step_post n len i s (exec p wirelen buflen i s).
Proof.
  unfold exec.
  pose proof (exec_load_post) as H1. pose proof exec_mem_post as H2.
  pose proof exec_jmp_post as H3. pose proof exec_alu_post as H4.
  pose proof exec_misc_post as H5.
  destruct (exec_load p wirelen buflen i s); [by apply H1|].
  destruct (exec_mem i s); [by apply H2|].
  destruct (exec_jmp i s); [by apply H3|].
  destruct (exec_alu i s); [by apply H4|].
  destruct (exec_misc i s); [by apply H5|]. cbn. auto.
Qed.

End Groups.

(** ** Whole programs *)

Section Program.
Context (maxbuf : Z) (prog : list bpf_insn).
Context (Hprog : Forall insn_ok prog) (Hvalid : bpf_validate maxbuf prog = true).

Let len := Z.of_nat (length prog).

Lemma valid_from_lookup f n m i :
  valid_from maxbuf f n len = true → f !! m = Some i →
  valid_insn maxbuf i (n + Z.of_nat m) len = true.
Proof.
  revert n m. induction f as [|j f IH]; intros n m; cbn [valid_from]; [done|].
  intros H. bool_prop. destruct m as [|m]; cbn [lookup list_lookup].
  - intros [= ->]. by replace (n + Z.of_nat 0) with n by lia.
  - intros Hm. replace (n + Z.of_nat (S m)) with (n + 1 + Z.of_nat m) by lia. by apply IH.
Qed.

Lemma validate_spec :
  1 ≤ len ≤ BPF_MAXINSNS ∧
  (∀ m i, prog !! m = Some i → valid_insn maxbuf i (Z.of_nat m) len = true) ∧
  (∀ i, prog !! Z.to_nat (len - 1) = Some i → BPF_CLASS (code i) = BPF_RET).
Proof.
  unfold bpf_validate in Hvalid. fold len in Hvalid.
  destruct ((len <? 1) || (len >? BPF_MAXINSNS)) eqn:E; [done|].
  destruct (valid_from maxbuf prog 0 len) eqn:V; [|done]. bool_prop.
  split; [lia|]. split.
  - intros m i Hm. apply (valid_from_lookup prog 0 m i V Hm).
  - intros i Hi. rewrite Hi in Hvalid. by bool_prop.
Qed.

(** The outcomes of a checked program. *)
Definition run_ok (r : outcome Z) : Prop :=
  (∃ v, r = Ok v ∧ is_u 32 v) ∨ (r = Undef BadShift ∧ ¬ Forall small_shift prog) ∨
  (r = Undef OutOfBounds ∧ gapped p ∧ Exists half_load prog).

Lemma run_safe fuel s :
  state_ok s → -1 ≤ pc s → pc s + 1 < len → len - (pc s + 1) ≤ Z.of_nat fuel →
  run_ok (run p wirelen buflen fuel prog s).
Proof.
  destruct validate_spec as (Hlen & Hins & Hlast).
  revert s. induction fuel as [|fuel IH]; intros s Hs Hlo Hhi Hf; [lia|].
  cbn [run]. destruct (aget_in_bounds prog (pc (jump s 1))) as (i & -> & Hi);
    [cbn; fold len; lia|].
  cbn [obind]. change (pc (jump s 1)) with (pc s + 1) in Hi.
  pose proof (exec_post maxbuf (pc s + 1) len i (jump s 1)) as H.
  rewrite Forall_lookup in Hprog. specialize (Hins _ _ Hi).
  rewrite Z2Nat.id in Hins by lia.
  specialize (H (Hprog _ _ Hi) Hs eq_refl ltac:(lia) ltac:(lia) Hins).
  destruct (exec p wirelen buflen i (jump s 1)) as [[v|s']| |f|]; cbn in H; try done.
  - left. by exists v.
  - destruct H as (Hs' & Hc & Hle & Hpc). apply IH; [done|lia| |lia].
    destruct Hpc as [Hpc|]; [|lia].
    destruct (decide (pc s + 1 = len - 1)) as [El|]; [|lia].
    exfalso. apply Hc, Hlast. by rewrite <- El.
  - destruct f; try done; right.
    + right. split; [done|]. split; [apply H|]. apply Exists_exists. exists i. split; [by eapply list_elem_of_lookup_2|apply H].
    + left. split; [done|]. rewrite Forall_lookup. intros Hall. apply H. by apply (Hall (Z.to_nat (pc s + 1))).
Qed.

End Program.
End Safety.

Lemma init_state_ok : state_ok init_state.
Proof.
  split_and!; [cbn; width..|done|]. apply Forall_replicate. unfold is_s. lia.
Qed.

(** ** Access to a chain is access to its bytes *)

Definition byte_at (d : list Z) (o : Z) : option Z :=
  if o <? 0 then None else d !! Z.to_nat o.

Definition be32_at (d : list Z) (o : Z) : option Z :=
  match byte_at d o, byte_at d (o + 1), byte_at d (o + 2), byte_at d (o + 3) with
  | Some a, Some b, Some c, Some e => Some (EXTRACT_LONG a b c e)
  | _, _, _, _ => None
  end.

Definition be16_at (d : list Z) (o : Z) : option Z :=
  match byte_at d o, byte_at d (o + 1) with
  | Some a, Some b => Some (EXTRACT_SHORT a b)
  | _, _ => None
  end.

(** The pair that the accessors return. *)
Definition accessor_result (r : option Z) : Z * bool :=
  match r with Some v => (v, false) | None => (0, true) end.

Lemma aget_byte_at d o :
  aget d o = match byte_at d o with Some b => Ok b | None => Undef OutOfBounds end.
Proof. unfold aget, byte_at. by destruct (o <? 0). Qed.

Lemma byte_at_app a b j :
  0 ≤ j →
  byte_at (a ++ b) j = if j <? m_len a then byte_at a j else byte_at b (j - m_len a).
Proof.
  intros Hj. unfold byte_at, m_len.
  destruct (j <? 0) eqn:E0; bool_prop; [lia|].
  destruct (j <? Z.of_nat (length a)) eqn:E1; bool_prop.
  - rewrite lookup_app_l by lia. done.
  - destruct (j - Z.of_nat (length a) <? 0) eqn:E2; bool_prop; [lia|].
    rewrite lookup_app_r by lia. f_equal. lia.
Qed.

Lemma byte_at_Some d o : 0 ≤ o < m_len d → ∃ b, byte_at d o = Some b.
Proof.
  intros Ho. unfold byte_at, m_len in *. destruct (o <? 0) eqn:E; bool_prop; [lia|].
  apply lookup_lt_is_Some_2. lia.
Qed.

Lemma byte_at_None d o : m_len d ≤ o → byte_at d o = None.
Proof.
  intros Ho. unfold byte_at, m_len in *. destruct (o <? 0); [done|].
  apply lookup_ge_None_2. lia.
Qed.

(** Where the bytes after offset [o] are, once the walk has found its mbuf. *)
Lemma byte_at_walk chain o m rest o' j :
  is_u 32 o → m_walk chain o = Some (m, rest, o') → 0 ≤ j →
  byte_at (concat chain) (o + j) = byte_at (m ++ concat rest) (o' + j).
Proof.
  intros Ho H Hj. apply m_walk_Some in H as (? & ? & pre & -> & ->); [|done].
  rewrite concat_app. cbn [concat]. rewrite byte_at_app by (unfold m_len in *; lia).
  destruct (_ <? _) eqn:E; bool_prop; [lia|]. f_equal. lia.
Qed.

(** Resolves the bytes of an access against the mbuf [m] that holds its start
    and the next one. *)
Ltac flat_byte :=
  match goal with
  | |- context [byte_at ?d ?o] =>
      let b := fresh "b" in let E := fresh "E" in
      destruct (byte_at_Some d o) as [b E]; [unfold m_len in *; lia|]; rewrite !E; cbn [obind]
  end.

Lemma byte_at_left a b j : 0 ≤ j < m_len a → byte_at (a ++ b) j = byte_at a j.
Proof.
  intros Hj. rewrite byte_at_app by lia.
  by replace (j <? m_len a) with true by (symmetry; apply Z.ltb_lt; lia).
Qed.

Lemma byte_at_right a b j : m_len a ≤ j → byte_at (a ++ b) j = byte_at b (j - m_len a).
Proof.
  intros Hj. rewrite byte_at_app by (unfold m_len in *; lia).
  by replace (j <? m_len a) with false by (symmetry; apply Z.ltb_ge; lia).
Qed.

(** The byte at offset [o' + j] lies in [m], or is byte [n] of the next mbuf. *)
Lemma byte_at_next (m m0 : list Z) rest j n :
  j = m_len m + n → 0 ≤ n < m_len m0 →
  byte_at (m ++ concat (m0 :: rest)) j = byte_at m0 n.
Proof.
  intros -> Hn. rewrite byte_at_right by lia. cbn [concat].
  rewrite byte_at_left by lia. f_equal. lia.
Qed.

(** [m_xword] on a chain reads the big-endian word at offset [o] of its bytes,
    and signals an error exactly when there is none. *)
Lemma m_xword_flat chain o :
  Forall (λ m, 3 ≤ m_len m) chain → is_u 32 o →
  m_xword chain o = Ok (accessor_result (be32_at (concat chain) o)).
Proof.
  intros Hc Ho. unfold m_xword, be32_at.
  destruct (m_walk chain o) as [[[m rest] o']|] eqn:W.
  2:{ apply m_walk_None in W; [|done]. by rewrite byte_at_None. }
  rewrite <- (Z.add_0_r o) at 1. rewrite !(byte_at_walk _ _ _ _ _ _ Ho W) by lia.
  apply m_walk_Some in W as (Hlt & _ & pre & -> & _); [|done].
  apply Forall_app in Hc as [_ Hc]. apply Forall_cons in Hc as [_ Hc].
  rewrite Z.add_0_r, !aget_byte_at.
  case_test; bool_prop.
  { rewrite !byte_at_left by lia. repeat flat_byte. done. }
  destruct rest as [|m0 rest].
  { cbn [concat]. rewrite app_nil_r.
    rewrite (byte_at_None m (o' + 3)) by lia. by repeat case_match. }
  apply Forall_cons in Hc as [Hm0 _].
  destruct (m_len m0 + m_len m - o' <? 4) eqn:E1; bool_prop; [lia|].
  rewrite (byte_at_left m _ o') by lia.
  destruct (m_len m - o' =? 1) eqn:E2; bool_prop; [|destruct (m_len m - o' =? 2) eqn:E3; bool_prop].
  - rewrite (byte_at_next m m0 rest (o' + 1) 0), (byte_at_next m m0 rest (o' + 2) 1),
      (byte_at_next m m0 rest (o' + 3) 2) by lia.
    rewrite !aget_byte_at. repeat flat_byte. done.
  - rewrite (byte_at_left m _ (o' + 1)) by lia.
    rewrite (byte_at_next m m0 rest (o' + 2) 0), (byte_at_next m m0 rest (o' + 3) 1) by lia.
    rewrite !aget_byte_at. repeat flat_byte. done.
  - rewrite (byte_at_left m _ (o' + 1)), (byte_at_left m _ (o' + 2)) by lia.
    rewrite (byte_at_next m m0 rest (o' + 3) 0) by lia.
    rewrite !aget_byte_at. repeat flat_byte. done.
Qed.

Lemma m_xhalf_flat chain o :
  Forall (λ m, 3 ≤ m_len m) chain → is_u 32 o →
  m_xhalf chain o = Ok (accessor_result (be16_at (concat chain) o)).
Proof.
  intros Hc Ho. unfold m_xhalf, be16_at.
  destruct (m_walk chain o) as [[[m rest] o']|] eqn:W.
  2:{ apply m_walk_None in W; [|done]. by rewrite byte_at_None. }
  rewrite <- (Z.add_0_r o) at 1. rewrite !(byte_at_walk _ _ _ _ _ _ Ho W) by lia.
  apply m_walk_Some in W as (Hlt & _ & pre & -> & _); [|done].
  apply Forall_app in Hc as [_ Hc]. apply Forall_cons in Hc as [_ Hc].
  rewrite Z.add_0_r, !aget_byte_at.
  case_test; bool_prop.
  { rewrite !byte_at_left by lia. repeat flat_byte. done. }
  destruct rest as [|m0 rest].
  { cbn [concat]. rewrite app_nil_r.
    rewrite (byte_at_None m (o' + 1)) by lia. by repeat case_match. }
  apply Forall_cons in Hc as [Hm0 _].
  rewrite (byte_at_left m _ o') by lia.
  rewrite (byte_at_next m m0 rest (o' + 1) 0) by lia.
  rewrite !aget_byte_at. repeat flat_byte. done.
Qed.

Lemma MINDEX_flat chain o :
  is_u 32 o → MINDEX chain o = Ok (byte_at (concat chain) o).
Proof.
  intros Ho. unfold MINDEX.
  destruct (m_walk chain o) as [[[m rest] o']|] eqn:W.
  2:{ apply m_walk_None in W; [|done]. by rewrite byte_at_None. }
  rewrite <- (Z.add_0_r o), (byte_at_walk _ _ _ _ _ _ Ho W) by lia.
  apply m_walk_Some in W as (Hlt & _); [|done].
  rewrite Z.add_0_r, byte_at_left, aget_byte_at by lia. flat_byte. done.
Qed.

(** ** One packet, two representations *)

(** Instructions that behave the same on both: all but the absolute half-word
    load, whose slow path ignores the error of [m_xhalf], and the indexed
    loads, whose slow path wraps the offset. *)
Definition uniform_insn (i : bpf_insn) : Prop :=
  code i ≠ BPF_LD + BPF_H + BPF_ABS ∧ code i ≠ BPF_LD + BPF_W + BPF_IND ∧
  code i ≠ BPF_LD + BPF_H + BPF_IND ∧ code i ≠ BPF_LD + BPF_B + BPF_IND.

#[export] Instance uniform_insn_dec i : Decision (uniform_insn i).
Proof. unfold uniform_insn. apply _. Defined.

Section Uniform.
Context (c : list (list Z)) (wirelen : Z).
Context (Hc : Forall (λ m, 3 ≤ m_len m) c) (Hne : c ≠ []).

Let data := concat c.
Let total := m_len data.
Context (Htotal : is_u 32 (m_len (concat c))).

Lemma total_pos : 0 < total.
Proof.
  unfold total, data. destruct c as [|m c']; [done|].
  apply Forall_cons in Hc as [Hm _]. cbn [concat]. unfold m_len in *.
  rewrite length_app. lia.
Qed.

Lemma as_mbuf_c : as_mbuf (PMbuf c) = Ok c.
Proof. by destruct c. Qed.

Lemma ld_mbuf_buf f b s o : ld_mbuf (PBuf data) total f b s o = Ok (Return 0).
Proof.
  unfold ld_mbuf. pose proof total_pos.
  by replace (total =? 0) with false by (symmetry; apply Z.eqb_neq; lia).
Qed.

Lemma ld_mbuf_byte_buf set s o : ld_mbuf_byte (PBuf data) total set s o = Ok (Return 0).
Proof.
  unfold ld_mbuf_byte. pose proof total_pos.
  by replace (total =? 0) with false by (symmetry; apply Z.eqb_neq; lia).
Qed.

(** On a chain the tests of a load always choose the slow path. *)
Lemma slow_path o w : is_u 32 o → 0 < w → (o >? 0) || (w >? u32 (0 - o)) = true.
Proof.
  intros Ho Hw. width. destruct (o >? 0) eqn:E; [done|]. bool_prop.
  replace o with 0 by lia. rewrite Z.gtb_ltb. apply Z.ltb_lt. done.
Qed.

Lemma be32_at_buf o :
  0 ≤ o → o + 4 ≤ total →
  ∃ v, be32_at data o = Some v ∧ buf_word (PBuf data) o = Ok v.
Proof.
  intros Ho Hle. unfold be32_at, buf_word, buf_byte. rewrite !aget_byte_at.
  unfold total in Hle. repeat flat_byte. eauto.
Qed.

Lemma ld_abs_w_uniform i s :
  is_u 32 (k i) →
  ld_abs_w (PMbuf c) 0 i s = ld_abs_w (PBuf data) total i s.
Proof.
  intros Hk. unfold ld_abs_w. rewrite (slow_path (k i) 4) by (done || lia).
  rewrite ld_mbuf_buf. unfold ld_mbuf at 1. rewrite as_mbuf_c. cbn [Z.eqb negb obind].
  rewrite m_xword_flat by done. cbn [obind]. fold data. pose proof total_pos.
  assert (Ht : is_u 32 total) by exact Htotal.
  destruct ((k i >? total) || (4 >? u32 (total - k i))) eqn:E.
  - replace (be32_at data (k i)) with (@None Z); [done|]. symmetry.
    unfold be32_at. rewrite (byte_at_None data (k i + 3)); [by repeat case_match|].
    fold total. destruct (k i >? total) eqn:E1; cbn [orb] in E; bool_prop; [lia|].
    rewrite unsigned_of_small in E by width. lia.
  - bool_prop. rewrite unsigned_of_small in * by width. width.
    destruct (be32_at_buf (k i)) as (v & -> & ->); [lia..|]. done.
Qed.

Lemma byte_uniform set o s :
  is_u 32 o →
  ld_mbuf_byte (PMbuf c) 0 set s o =
  (if o >=? total then ld_mbuf_byte (PBuf data) total set s o
   else let* v := buf_byte (PBuf data) o in Ok (Continue (set s v))).
Proof.
  intros Ho. rewrite ld_mbuf_byte_buf. unfold ld_mbuf_byte. rewrite as_mbuf_c.
  cbn [Z.eqb negb obind]. rewrite MINDEX_flat by done. cbn [obind]. fold data.
  destruct (o >=? total) eqn:E; bool_prop.
  - rewrite byte_at_None by (fold total; lia). done.
  - unfold buf_byte. rewrite aget_byte_at. width.
    destruct (byte_at_Some data o) as [b ->]; [fold total; lia|]. done.
Qed.

Lemma ge_0 o : is_u 32 o → (o >=? 0) = true.
Proof. intros. rewrite Z.geb_leb. apply Z.leb_le. width. Qed.

Lemma exec_uniform i s :
  insn_ok i → uniform_insn i →
  exec (PMbuf c) wirelen 0 i s = exec (PBuf data) wirelen total i s.
Proof.
  intros (_ & _ & _ & Hk) (N1 & N2 & N3 & N4). unfold exec.
  enough (exec_load (PMbuf c) wirelen 0 i s = exec_load (PBuf data) wirelen total i s)
    as -> by done.
  unfold exec_load.
  repeat match goal with
  | N : code i ≠ ?x |- context [code i =? ?x] =>
      replace (code i =? x) with false by (symmetry; by apply Z.eqb_neq)
  end.
  rewrite ld_abs_w_uniform by done. unfold ld_abs_b, ldx_msh.
  rewrite (ge_0 _ Hk), !byte_uniform by done. done.
Qed.

Lemma run_uniform prog fuel s :
  Forall insn_ok prog → Forall uniform_insn prog →
  run (PMbuf c) wirelen 0 fuel prog s = run (PBuf data) wirelen total fuel prog s.
Proof.
  intros Hp Hu. revert s. induction fuel as [|fuel IH]; intros s; [done|]. cbn [run].
  destruct (aget prog (pc (jump s 1))) as [i| | |] eqn:Ei; try done. cbn [obind].
  apply aget_Ok in Ei as [_ Ei]. rewrite Forall_lookup in Hp, Hu.
  rewrite exec_uniform by eauto.
  destruct (exec (PBuf data) wirelen total i (jump s 1)) as [[v|s']| | |]; try done.
  cbn [obind]. apply IH.
Qed.
End Uniform.

(** ** The properties *)

(** C5: a program that [bpf_validate] accepts is safe to run in the kernel on
    every packet, a flat buffer of [buflen] bytes or a chain of mbufs: as many
    turns of the loop as it has instructions are enough for it to return, it
    never fetches an instruction or uses the scratch memory out of bounds and
    never divides by zero.  Two things can go wrong besides: a shift by 32 or
    more, only for a program that contains such a shift; and a read outside the
    packet, only by a half-word load that meets an empty mbuf behind one that
    is not empty, whose length [m_xhalf] does not look at. *)
Theorem bpf_validate_safe (maxbuf : Z) (prog : list bpf_insn) (p : packet)
    (wirelen buflen : Z)
    (Hprog : Forall insn_ok prog) (Hp : packet_ok p buflen)
    (Hw : is_u 32 wirelen) (Hb : is_u 32 buflen)
    (Hvalid : bpf_validate maxbuf prog = true) :
  (∃ v, bpf_filter p wirelen buflen (length prog) (Some prog) = Ok v ∧ is_u 32 v) ∨
  (bpf_filter p wirelen buflen (length prog) (Some prog) = Undef BadShift ∧
   ¬ Forall small_shift prog) ∨
  (bpf_filter p wirelen buflen (length prog) (Some prog) = Undef OutOfBounds ∧
   gapped p ∧ Exists half_load prog).
Proof.
  pose proof (validate_spec maxbuf prog Hvalid) as (Hlen & _).
  apply (run_safe p wirelen buflen Hp Hw Hb maxbuf prog Hprog Hvalid);
    [apply init_state_ok|cbn; lia|cbn; lia|cbn; lia].
Qed.

(** the accessor [m_xword] used for packets in mbuf chains computes the
    big-endian word at the given offset of the chain's bytes, also when the
    word straddles two mbufs, and raises its error flag exactly when the chain
    holds no such word (the mbufs being at least three bytes long). *)
Theorem m_xword_spec (chain : list (list Z)) (o : Z)
    (Hc : Forall (λ m, 3 ≤ m_len m) chain) (Ho : is_u 32 o) :
  m_xword chain o = Ok (accessor_result (be32_at (concat chain) o)).
Proof. by apply m_xword_flat. Qed.

(** C40: a filter gives the same verdict on a packet in a chain of mbufs of at
    least three bytes each as on the same bytes in one buffer, for programs
    without indexed loads and absolute half-word loads.  (A word that three
    mbufs share is not found, see [bpf_short_mbufs].) *)
Theorem bpf_filter_uniform (c : list (list Z)) (wirelen : Z) (fuel : nat)
    (prog : list bpf_insn)
    (Hc : Forall (λ m, 3 ≤ m_len m) c) (Hne : c ≠ []) (Ht : is_u 32 (m_len (concat c)))
    (Hp : Forall insn_ok prog) (Hu : Forall uniform_insn prog) :
  bpf_filter (PMbuf c) wirelen 0 fuel (Some prog) =
  bpf_filter (PBuf (concat c)) wirelen (m_len (concat c)) fuel (Some prog).
Proof. by apply run_uniform. Qed.

(** Instructions of the examples. *)
Definition stmt (c v : Z) : bpf_insn := {| code := c; jt := 0; jf := 0; k := v |}.

Definition ldh_abs_prog : list bpf_insn :=
  [stmt (BPF_LD + BPF_H + BPF_ABS) 64; stmt (BPF_RET + BPF_K) 7].
Definition ldb_ind_prog : list bpf_insn :=
  [stmt (BPF_LDX + BPF_IMM) 4294967295; stmt (BPF_LD + BPF_B + BPF_IND) 1;
   stmt (BPF_RET + BPF_K) 7].

(** the two loads excluded there do diverge: on a four-byte packet a valid
    program with an absolute half-word load past the end rejects the flat
    buffer but accepts the chain (the [merr] of [m_xhalf] is not tested), and
    one whose indexed load overflows the 32-bit offset does the same (the
    chain's offset wraps to the start). *)
Theorem bpf_slow_path_diverges :
  bpf_validate 0x80000 ldh_abs_prog = true ∧
  bpf_filter (PBuf [1; 2; 3; 4]) 4 4 2 (Some ldh_abs_prog) = Ok 0 ∧
  bpf_filter (PMbuf [[1; 2; 3; 4]]) 4 0 2 (Some ldh_abs_prog) = Ok 7 ∧
  bpf_validate 0x80000 ldb_ind_prog = true ∧
  bpf_filter (PBuf [1; 2; 3; 4]) 4 4 3 (Some ldb_ind_prog) = Ok 0 ∧
  bpf_filter (PMbuf [[1; 2; 3; 4]]) 4 0 3 (Some ldb_ind_prog) = Ok 7.
Proof. vm_compute. done. Qed.

(** Chains of short mbufs: a word that lies in four mbufs is taken to be
    outside the packet, and a half-word whose second byte would be in an empty
    mbuf is read from behind that mbuf's data. *)
Definition ldw_abs_prog : list bpf_insn :=
  [stmt (BPF_LD + BPF_W + BPF_ABS) 0; stmt (BPF_RET + BPF_K) 7].
Definition ldh_first_prog : list bpf_insn :=
  [stmt (BPF_LD + BPF_H + BPF_ABS) 0; stmt (BPF_RET + BPF_K) 7].

Lemma bpf_short_mbufs :
  bpf_validate 0x80000 ldw_abs_prog = true ∧
  bpf_filter (PBuf [1; 2; 3; 4]) 4 4 2 (Some ldw_abs_prog) = Ok 7 ∧
  bpf_filter (PMbuf [[1]; [2]; [3]; [4]]) 4 0 2 (Some ldw_abs_prog) = Ok 0 ∧
  bpf_validate 0x80000 ldh_first_prog = true ∧
  bpf_filter (PMbuf [[1]; []; [2]]) 2 0 2 (Some ldh_first_prog) = Undef OutOfBounds.
Proof. vm_compute. done. Qed.

(** ** Witnesses *)

(** An "is it IP" filter: ethertype word at offset 12. *)
Definition ip_prog : list bpf_insn :=
  [stmt (BPF_LD + BPF_W + BPF_ABS) 12;
   {| code := BPF_JMP + BPF_JEQ + BPF_K; jt := 0; jf := 1; k := 0x08004500 |};
   stmt (BPF_RET + BPF_K) 96; stmt (BPF_RET + BPF_K) 0].
Definition ip_packet : list Z := replicate 12 0 ++ [8; 0; 0x45; 0; 1; 2].

Lemma bpf_validate_safe_witness :
  bpf_filter (PBuf ip_packet) 18 18 4 (Some ip_prog) = Ok 96 ∧
  ((∃ v, bpf_filter (PBuf ip_packet) 18 18 (length ip_prog) (Some ip_prog) = Ok v ∧ is_u 32 v) ∨
   (bpf_filter (PBuf ip_packet) 18 18 (length ip_prog) (Some ip_prog) = Undef BadShift ∧
    ¬ Forall small_shift ip_prog) ∨
   (bpf_filter (PBuf ip_packet) 18 18 (length ip_prog) (Some ip_prog) = Undef OutOfBounds ∧
    gapped (PBuf ip_packet) ∧ Exists half_load ip_prog)).
Proof.
  split; [vm_compute; reflexivity|].
  apply (bpf_validate_safe 0x80000 ip_prog (PBuf ip_packet) 18 18); by_decide.
Defined.

Lemma m_xword_spec_witness :
  m_xword [[1; 2; 3]; [4; 5; 6; 7]] 1 = Ok (0x02030405, false) ∧
  m_xword [[1; 2; 3]; [4; 5; 6; 7]] 1 =
    Ok (accessor_result (be32_at (concat [[1; 2; 3]; [4; 5; 6; 7]]) 1)).
Proof. split; [vm_compute; reflexivity|]. apply m_xword_spec; by_decide. Defined.

Lemma bpf_filter_uniform_witness :
  bpf_filter (PMbuf [take 14 ip_packet; drop 14 ip_packet]) 18 0 4 (Some ip_prog) = Ok 96 ∧
  bpf_filter (PMbuf [take 14 ip_packet; drop 14 ip_packet]) 18 0 4 (Some ip_prog) =
  bpf_filter (PBuf (concat [take 14 ip_packet; drop 14 ip_packet])) 18
    (m_len (concat [take 14 ip_packet; drop 14 ip_packet])) 4 (Some ip_prog).
Proof. split; [vm_compute; reflexivity|]. apply bpf_filter_uniform; by_decide. Defined.

End Bpf.
