(* ===== verification/FdTree.v ===== *)
(** * The descriptor table of a process (sys/kern/kern_descrip.c)

    [fd_files] is an array of 2^n - 1 descriptor slots laid out as an in-place
    binary tree: the [allocated] count of a slot is the number of slots in use
    in the subtree that starts there.  [fdalloc] finds the lowest free
    descriptor by walking that tree.  This file models the table, the search,
    the reservation and release of a descriptor; FdOps.v builds the reference
    counts and the system calls on it. *)

From Stdlib Require Import ZArith Lia Bool.
From stdpp Require Import base list.
From S2P Require Import Prelude.

Module FdTree.

(** ** Data (sys/filedesc.h) *)

(** A struct file is known to the table by its address only. *)
Abbreviation file_ptr := Z.

Record fdnode := {
  fp : option file_ptr;
  fileflags : Z;
  reserved : Z;
  allocated : Z
}.

(** The table part of struct filedesc; [fd_nfiles] is kept beside the array as
    in C.  The last two fields count closers that fdfree() has to wait for. *)
Record filedesc := {
  fd_files : list fdnode;
  fd_nfiles : Z;
  fd_lastfile : Z;
  fd_freefile : Z;
  fd_holdleaderscount : Z;
  fd_holdleaderswakeup : Z
}.

Definition NDFILE : Z := 15.
Definition INT_MAX : Z := 2147483647.
Definition EBADF : Z := 9.
Definition EINVAL : Z := 22.
Definition ENFILE : Z := 23.
Definition EMFILE : Z := 24.

Definition fdnode0 : fdnode := {| fp := None; fileflags := 0; reserved := 0; allocated := 0 |}.

Definition node_set_fp (x : option file_ptr) (n : fdnode) : fdnode :=
  {| fp := x; fileflags := fileflags n; reserved := reserved n; allocated := allocated n |}.
Definition node_set_flags (x : Z) (n : fdnode) : fdnode :=
  {| fp := fp n; fileflags := x; reserved := reserved n; allocated := allocated n |}.
Definition node_set_reserved (x : Z) (n : fdnode) : fdnode :=
  {| fp := fp n; fileflags := fileflags n; reserved := x; allocated := allocated n |}.
Definition node_set_allocated (x : Z) (n : fdnode) : fdnode :=
  {| fp := fp n; fileflags := fileflags n; reserved := reserved n; allocated := x |}.

Definition set_files (l : list fdnode) (d : filedesc) : filedesc :=
  {| fd_files := l; fd_nfiles := fd_nfiles d; fd_lastfile := fd_lastfile d;
     fd_freefile := fd_freefile d; fd_holdleaderscount := fd_holdleaderscount d;
     fd_holdleaderswakeup := fd_holdleaderswakeup d |}.
Definition set_nfiles (x : Z) (d : filedesc) : filedesc :=
  {| fd_files := fd_files d; fd_nfiles := x; fd_lastfile := fd_lastfile d;
     fd_freefile := fd_freefile d; fd_holdleaderscount := fd_holdleaderscount d;
     fd_holdleaderswakeup := fd_holdleaderswakeup d |}.
Definition set_lastfile (x : Z) (d : filedesc) : filedesc :=
  {| fd_files := fd_files d; fd_nfiles := fd_nfiles d; fd_lastfile := x;
     fd_freefile := fd_freefile d; fd_holdleaderscount := fd_holdleaderscount d;
     fd_holdleaderswakeup := fd_holdleaderswakeup d |}.
Definition set_freefile (x : Z) (d : filedesc) : filedesc :=
  {| fd_files := fd_files d; fd_nfiles := fd_nfiles d; fd_lastfile := fd_lastfile d;
     fd_freefile := x; fd_holdleaderscount := fd_holdleaderscount d;
     fd_holdleaderswakeup := fd_holdleaderswakeup d |}.

(** [fdp->fd_files[i]], read and updated in place. *)
Definition get_node (d : filedesc) (i : Z) : outcome fdnode := aget (fd_files d) i.
Definition upd_node (f : fdnode → fdnode) (i : Z) (d : filedesc) : outcome filedesc :=
  let* n := aget (fd_files d) i in
  let* l := aset (fd_files d) i (f n) in
  Ok (set_files l d).

(** Is the slot in use: associated with a file, or reserved for one? *)
Definition in_use (n : fdnode) : bool :=
  match fp n with Some _ => true | None => negb (reserved n =? 0) end.

(** ** The tree *)

Definition right_subtree_size (n : Z) : Z := Z.lxor n (Z.lor n (n + 1)).
Definition right_ancestor (n : Z) : Z := Z.lor n (n + 1).
Definition left_ancestor (n : Z) : Z := Z.land n (n + 1) - 1.

(** Loops over the tree move by powers of two inside a 31-bit index, and so
    turn at most 32 times; [fdreserve_locked] gets one more turn to test the
    final [-1]. *)
Definition tree_fuel : nat := 33.

Fixpoint fdreserve_loop (fuel : nat) (d : filedesc) (fd incr : Z) : outcome filedesc :=
  match fuel with
  | O => NoFuel
  | S fuel =>
      if fd >=? 0 then
        let* n := get_node d fd in
        let a := allocated n + incr in
        let* d := upd_node (node_set_allocated a) fd d in
        kkassert (a >=? 0) (fdreserve_loop fuel d (left_ancestor fd) incr)
      else Ok d
  end.

Definition fdreserve_locked (d : filedesc) (fd incr : Z) : outcome filedesc :=
  fdreserve_loop tree_fuel d fd incr.

(** The [while] of [fdfixup_locked]; it stops at the first slot in use, at most
    [fd_lastfile + 1] turns down. *)
Fixpoint fdfixup_loop (fuel : nat) (d : filedesc) : outcome filedesc :=
  match fuel with
  | O => NoFuel
  | S fuel =>
      if fd_lastfile d >=? 0 then
        let* n := get_node d (fd_lastfile d) in
        match fp n with
        | None =>
            if reserved n =? 0
            then fdfixup_loop fuel (set_lastfile (fd_lastfile d - 1) d)
            else Ok d
        | Some _ => Ok d
        end
      else Ok d
  end.

Definition fdfixup_locked (d : filedesc) (fd : Z) : outcome filedesc :=
  let d := if fd <? fd_freefile d then set_freefile fd d else d in
  fdfixup_loop (S (Z.to_nat (fd_lastfile d + 1))) d.

(** The doubling loop of [fdgrow_locked] ([nf] is a 31-bit number). *)
Fixpoint grow_size (fuel : nat) (nf want : Z) : outcome Z :=
  match fuel with
  | O => NoFuel
  | S fuel =>
      let nf := 2 * nf + 1 in
      if nf <=? want then grow_size fuel nf want else Ok nf
  end.

(** The table is grown by the calling thread; [fdgrow_locked]'s test for a
    concurrent grower is false then. *)
Definition fdgrow_locked (d : filedesc) (want : Z) : outcome filedesc :=
  let* nf := grow_size 32 (fd_nfiles d) want in
  if fd_nfiles d >=? nf then Ok d
  else
    let extra := nf - fd_nfiles d in
    let l := take (Z.to_nat (fd_nfiles d)) (fd_files d) ++ replicate (Z.to_nat extra) fdnode0 in
    Ok (set_nfiles nf (set_files l d)).

(** ** fdalloc *)

(** What [fdalloc] reads of the process and of the system's limits. *)
Record limits := {
  rlim_cur : Z;
  maxfilesperproc : Z;
  minfilesperproc : Z;
  cr_uid : Z;
  ui_openfiles : Z;
  maxfilesperuser : Z
}.

Definition dtable_limit (p : limits) : Z :=
  let lim := if rlim_cur p >? INT_MAX then INT_MAX else rlim_cur p in
  let lim := if lim >? maxfilesperproc p then maxfilesperproc p else lim in
  if lim <? minfilesperproc p then minfilesperproc p else lim.

(** The descent: [for (rsum = 0, rsize /= 2; rsize > 0; rsize /= 2)]. *)
Fixpoint fdalloc_down (fuel : nat) (d : filedesc) (fd rsize rsum : Z) : outcome Z :=
  match fuel with
  | O => NoFuel
  | S fuel =>
      if rsize >? 0 then
        let node := fd + rsize in
        let* nn := get_node d node in
        let rsum := rsum + allocated nn in
        let* fn := get_node d fd in
        if allocated fn =? rsum + rsize then
          if allocated nn =? 0 then Ok node
          else fdalloc_down fuel d node (rsize / 2) 0
        else fdalloc_down fuel d fd (rsize / 2) rsum
      else Ok fd
  end.

(** The climb over full subtrees: [for (...; fd = right_ancestor(fd))];
    [None] when it leaves the table. *)
Fixpoint fdalloc_up (fuel : nat) (d : filedesc) (fd lim : Z) : outcome (option Z) :=
  match fuel with
  | O => NoFuel
  | S fuel =>
      if fd <? Z.min (fd_nfiles d) lim then
        let* n := get_node d fd in
        if allocated n =? 0 then Ok (Some fd)
        else
          let rsize := right_subtree_size fd in
          if allocated n =? rsize then fdalloc_up fuel d (right_ancestor fd) lim
          else let* r := fdalloc_down tree_fuel d fd (rsize / 2) 0 in Ok (Some r)
      else Ok None
  end.

(** The [found:] block. *)
Definition fdalloc_found (d : filedesc) (want fd : Z) : outcome filedesc :=
  kkassert (fd <? fd_nfiles d)
    (let d := if fd >? fd_lastfile d then set_lastfile fd d else d in
     let d := if want <=? fd_freefile d then set_freefile fd d else d in
     let* n := get_node d fd in
     kkassert (match fp n with None => true | Some _ => false end)
       (kkassert (reserved n =? 0)
          (let* d := upd_node (node_set_flags 0) fd d in
           let* d := upd_node (node_set_reserved 1) fd d in
           fdreserve_locked d fd 1))).

(** [retry:]: after an expansion the search starts again; the old table being
    full, the second search succeeds. *)
Fixpoint fdalloc_retry (fuel : nat) (d : filedesc) (want lim : Z) :
    outcome (Z + filedesc * Z) :=
  match fuel with
  | O => NoFuel
  | S fuel =>
      let* r := fdalloc_up tree_fuel d (Z.max want (fd_freefile d)) lim in
      match r with
      | Some fd => let* d := fdalloc_found d want fd in Ok (inr (d, fd))
      | None =>
          if fd_nfiles d >=? lim then Ok (inl EMFILE)
          else let* d := fdgrow_locked d want in fdalloc_retry fuel d want lim
      end
  end.

(** The result is an error number, or the new table and the descriptor. *)
Definition fdalloc (p : limits) (d : filedesc) (want : Z) : outcome (Z + filedesc * Z) :=
  let lim := dtable_limit p in
  if want >=? lim then Ok (inl EMFILE)
  else if negb (cr_uid p =? 0) && (fd_nfiles d >=? minfilesperproc p)
          && (ui_openfiles p >? maxfilesperuser p) then Ok (inl ENFILE)
  else
    let* d := if want >=? fd_nfiles d then fdgrow_locked d want else Ok d in
    fdalloc_retry 2 d want lim.

(** The scan of [fdavail]: [for (i = last - fd_freefile; --i >= 0; ++fdnode)];
    true when [n] slots without a file are found. *)
Fixpoint fdavail_scan (l : list fdnode) (i : nat) (n : Z) : bool :=
  match i, l with
  | S i, f :: l =>
      match fp f with
      | None => if n - 1 <=? 0 then true else fdavail_scan l i (n - 1)
      | Some _ => fdavail_scan l i n
      end
  | _, _ => false
  end.

Definition fdavail (p : limits) (d : filedesc) (n : Z) : bool :=
  let lim := dtable_limit p in
  let i := lim - fd_nfiles d in
  let n' := if i >? 0 then n - i else n in
  if (i >? 0) && (n' <=? 0) then true
  else
    let last := Z.min (fd_nfiles d) lim in
    fdavail_scan (drop (Z.to_nat (fd_freefile d)) (fd_files d))
      (Z.to_nat (last - fd_freefile d)) n'.

(** ** Association and release *)

(** Dropping a reservation: the [else] branch of [fsetfd_locked]. *)
Definition fsetfd_clear (d : filedesc) (fd : Z) : outcome filedesc :=
  kkassert ((0 <=? fd) && (fd <? fd_nfiles d))
    (let* n := get_node d fd in
     kkassert (negb (reserved n =? 0))
       (let* d := upd_node (node_set_reserved 0) fd d in
        let* d := fdreserve_locked d fd (-1) in
        fdfixup_locked d fd)).

(** The table's side of the [if (fp)] branch; the reference is taken in
    FdOps.v. *)
Definition fsetfd_set (d : filedesc) (f : file_ptr) (fd : Z) : outcome filedesc :=
  kkassert ((0 <=? fd) && (fd <? fd_nfiles d))
    (let* n := get_node d fd in
     kkassert (negb (reserved n =? 0))
       (let* d := upd_node (node_set_fp (Some f)) fd d in
        upd_node (node_set_reserved 0) fd d)).

Definition funsetfd_locked (d : filedesc) (fd : Z) : outcome (filedesc * option file_ptr) :=
  if (fd <? 0) || (fd >=? fd_nfiles d) then Ok (d, None)
  else
    let* n := get_node d fd in
    match fp n with
    | None => Ok (d, None)
    | Some f =>
        let* d := upd_node (node_set_fp None) fd d in
        let* d := upd_node (node_set_flags 0) fd d in
        let* d := fdreserve_locked d fd (-1) in
        let* d := fdfixup_locked d fd in
        Ok (d, Some f)
    end.

(** The table a process starts with (fdinit, fdinit_bootstrap). *)
Definition fdinit_table : filedesc :=
  {| fd_files := replicate (Z.to_nat NDFILE) fdnode0; fd_nfiles := NDFILE;
     fd_lastfile := -1; fd_freefile := 0;
     fd_holdleaderscount := 0; fd_holdleaderswakeup := 0 |}.


(** * Theorems *)

(** ** The shape of the tree

    Every slot [n] is written [n + 1 = (2 q + 1) 2^k]: the subtree of [n] is
    the interval of [2^k] slots that starts there. *)

Definition at_level (n k q : Z) : Prop := 0 ≤ k ∧ 0 ≤ q ∧ n + 1 = (2 * q + 1) * 2 ^ k.

Lemma level_exists n : 0 ≤ n → ∃ k q, at_level n k q.
Proof.
  intros Hn. destruct (odd_part (n + 1)) as (k & q & ? & ? & E); [lia|].
  by exists k, q.
Qed.

Section Level.
Context (n k q : Z) (H : at_level n k q).

Lemma level_pow : 0 < 2 ^ k.
Proof. destruct H. apply Z.pow_pos_nonneg; lia. Qed.

Lemma level_low : is_u k (2 ^ k - 1).
Proof. unfold is_u. pose proof level_pow. lia. Qed.

Lemma level_n : n = 2 * q * 2 ^ k + (2 ^ k - 1).
Proof. destruct H as (? & ? & E). lia. Qed.

Lemma level_n1 : n + 1 = (2 * q + 1) * 2 ^ k + 0.
Proof. destruct H as (? & ? & E). lia. Qed.

Lemma level_right_ancestor : right_ancestor n = n + 2 ^ k.
Proof.
  unfold right_ancestor. rewrite level_n1, level_n at 1.
  assert (is_u k 0) by (pose proof level_pow; unfold is_u; lia).
  destruct H as (Hk & _). rewrite lor_split by (done || apply level_low).
  destruct (odd_even q) as [-> _]. rewrite Z.lor_0_r. rewrite level_n. lia.
Qed.

Lemma level_left_ancestor : left_ancestor n = n - 2 ^ k.
Proof.
  unfold left_ancestor. rewrite level_n1, level_n at 1.
  assert (is_u k 0) by (pose proof level_pow; unfold is_u; lia).
  destruct H as (Hk & _). rewrite land_split by (done || apply level_low).
  destruct (odd_even q) as (_ & -> & _). rewrite Z.land_0_r. rewrite level_n. lia.
Qed.

Lemma level_subtree_size : right_subtree_size n = 2 ^ k.
Proof.
  unfold right_subtree_size. fold (right_ancestor n). rewrite level_right_ancestor.
  rewrite level_n. destruct H as (Hk & _).
  replace (2 * q * 2 ^ k + (2 ^ k - 1) + 2 ^ k) with ((2 * q + 1) * 2 ^ k + (2 ^ k - 1)) by lia.
  rewrite lxor_split by (done || apply level_low).
  destruct (odd_even q) as (_ & _ & ->). lia.
Qed.
End Level.

(** The slot half-way up a block of [2^(j+1)] aligned slots heads the upper
    half of the block. *)
Lemma level_node fd j a :
  0 ≤ j → 0 ≤ a → fd + 1 = a * 2 ^ (j + 1) → at_level (fd + 2 ^ j) j a.
Proof.
  intros Hj Ha E. split_and!; [done..|]. rewrite Z.pow_add_r in E by lia. lia.
Qed.

(** Two multiples of [m] that differ, differ by at least [m]. *)
Lemma mult_gap m a b : 0 < m → m * a < m * b → m * a + m ≤ m * b.
Proof. intros. assert (a < b) by nia. nia. Qed.

(** The subtrees a slot belongs to are those of its left ancestors: [n]'s
    subtree contains [f] iff [n = f] or it contains [f]'s left ancestor. *)
Lemma subtree_left_ancestor n j p f k q :
  at_level n j p → at_level f k q → n ≠ f →
  (n ≤ f < n + 2 ^ j ↔ n ≤ f - 2 ^ k < n + 2 ^ j).
Proof.
  intros (Hj & Hp & En) (Hk & Hq & Ef) Hne.
  assert (0 < 2 ^ j) by (apply Z.pow_pos_nonneg; lia).
  assert (0 < 2 ^ k) by (apply Z.pow_pos_nonneg; lia).
  assert (C : k < j ∨ k = j ∨ j < k) by lia. destruct C as [C|[->|C]].
  - assert (E : 2 ^ j = 2 ^ k * 2 * 2 ^ (j - k - 1)).
    { replace j with (k + 1 + (j - k - 1)) at 1 by lia. rewrite !Z.pow_add_r by lia. lia. }
    set (m := 2 ^ k) in *. set (c := 2 ^ (j - k - 1)) in *.
    assert (0 < c) by (apply Z.pow_pos_nonneg; lia).
    split; intros [Hl Hu]; split; try lia.
    + assert (m * 2 * ((2 * p + 1) * c) ≤ m * 2 * q); [|lia].
      assert (m * 2 * ((2 * p + 1) * c) < m * 2 * (q + 1)) by lia.
      pose proof (mult_gap (m * 2) ((2 * p + 1) * c) (q + 1)). lia.
    + pose proof (mult_gap (m * 2) q ((2 * p + 1) * c + c)). lia.
  - set (m := 2 ^ j) in *. split; intros [Hl Hu]; exfalso.
    + assert (m * (2 * p + 1) < m * (2 * q + 1)) by lia.
      pose proof (mult_gap m (2 * p + 1) (2 * q + 1)). lia.
    + assert (p < q) by nia. nia.
  - assert (E : 2 ^ k = 2 ^ j * 2 * 2 ^ (k - j - 1)).
    { replace k with (j + 1 + (k - j - 1)) at 1 by lia. rewrite !Z.pow_add_r by lia. lia. }
    set (m := 2 ^ j) in *. set (c := 2 ^ (k - j - 1)) in *.
    split; intros [Hl Hu]; exfalso.
    + pose proof (mult_gap (m * 2) p ((2 * q + 1) * c)). lia.
    + pose proof (mult_gap (m * 2) p (2 * q * c)). lia.
Qed.


(** A table of [2^m - 1] slots contains the subtrees of its slots. *)
Lemma subtree_in_table n m :
  0 ≤ m → 0 ≤ n < 2 ^ m - 1 → n < right_ancestor n ≤ 2 ^ m - 1.
Proof.
  intros Hm Hn. destruct (level_exists n) as (k & q & HL); [lia|].
  rewrite (level_right_ancestor n k q HL). destruct HL as (Hk & Hq & E).
  assert (0 < 2 ^ k) by (apply Z.pow_pos_nonneg; lia).
  split; [lia|]. destruct (Z.lt_ge_cases k m).
  - assert (Em : 2 ^ m = 2 ^ k * 2 ^ (m - k)).
    { rewrite <- Z.pow_add_r by lia. f_equal. lia. }
    pose proof (mult_gap (2 ^ k) (2 * q + 1) (2 ^ (m - k))). lia.
  - assert (2 ^ m ≤ 2 ^ k) by (apply Z.pow_le_mono_r; lia). nia.
Qed.

(** ** Slots in use *)

Definition slot (l : list fdnode) (i : Z) : option fdnode :=
  if i <? 0 then None else l !! Z.to_nat i.

Definition used_in (l : list fdnode) (i : Z) : bool :=
  match slot l i with Some n => in_use n | None => false end.

Definition used (d : filedesc) (i : Z) : bool := used_in (fd_files d) i.

Definition len (l : list fdnode) : Z := Z.of_nat (length l).

Lemma slot_Some l i : 0 ≤ i < len l → ∃ n, slot l i = Some n.
Proof.
  unfold slot, len. intros Hi. destruct (i <? 0) eqn:E; bool_prop; [lia|].
  apply lookup_lt_is_Some_2. lia.
Qed.

Lemma slot_None l i : i < 0 ∨ len l ≤ i → slot l i = None.
Proof.
  unfold slot, len. intros Hi. destruct (i <? 0) eqn:E; bool_prop; [done|].
  apply lookup_ge_None_2. lia.
Qed.

Lemma slot_range l i n : slot l i = Some n → 0 ≤ i < len l.
Proof.
  unfold slot, len. destruct (i <? 0) eqn:E; bool_prop; [done|].
  intros H%lookup_lt_Some. lia.
Qed.

Lemma aget_slot l i n : slot l i = Some n → aget l i = Ok n.
Proof.
  unfold slot. intros H. apply aget_Ok. destruct (i <? 0) eqn:E; bool_prop; [done|].
  split; [lia|done].
Qed.

Lemma slot_insert l i j n :
  0 ≤ i < len l → slot (<[Z.to_nat i := n]> l) j = if decide (j = i) then Some n else slot l j.
Proof.
  unfold slot, len. intros Hi. destruct (j <? 0) eqn:E; bool_prop.
  { case_decide; [lia|done]. }
  case_decide; [subst; apply list_lookup_insert_eq; lia|].
  apply list_lookup_insert_ne. lia.
Qed.

Lemma len_insert l i n : len (<[i := n]> l) = len l.
Proof. unfold len. by rewrite length_insert. Qed.

Lemma slot_ext l l' :
  len l = len l' → (∀ i, 0 ≤ i < len l → slot l i = slot l' i) → l = l'.
Proof.
  intros Hl H. apply list_eq. intros i.
  destruct (decide (i < length l)%nat) as [Hi|Hi].
  - specialize (H (Z.of_nat i)). unfold slot, len in *.
    destruct (Z.of_nat i <? 0) eqn:E; bool_prop; [lia|].
    rewrite !Nat2Z.id in H. apply H. lia.
  - unfold len in Hl. rewrite !lookup_ge_None_2 by lia. done.
Qed.

(** The in-place update of a slot of the table. *)
Lemma upd_node_Ok f i d n :
  slot (fd_files d) i = Some n →
  upd_node f i d = Ok (set_files (<[Z.to_nat i := f n]> (fd_files d)) d).
Proof.
  intros H. pose proof (slot_range _ _ _ H) as Hr. unfold upd_node.
  rewrite (aget_slot _ _ _ H). cbn [obind]. by rewrite aset_in_bounds.
Qed.

(** ** Reservation: the counts of all the subtrees that hold the slot *)

(** Slot [f] is in the subtree of slot [i]. *)
Definition in_subtree (f i : Z) : bool := (i <=? f) && (f <? right_ancestor i).

Definition bump (incr f : Z) (l : list fdnode) : list fdnode :=
  imap (λ i n, if in_subtree f (Z.of_nat i)
               then node_set_allocated (allocated n + incr) n else n) l.

Lemma slot_bump incr f l i :
  slot (bump incr f l) i =
  (λ n, if in_subtree f i then node_set_allocated (allocated n + incr) n else n) <$> slot l i.
Proof.
  unfold slot, bump. destruct (i <? 0) eqn:E; bool_prop; [done|].
  rewrite list_lookup_imap, Z2Nat.id by lia. done.
Qed.

Lemma len_bump incr f l : len (bump incr f l) = len l.
Proof. unfold len, bump. by rewrite length_imap. Qed.

Lemma in_subtree_self f : 0 ≤ f → in_subtree f f = true.
Proof.
  intros Hf. destruct (level_exists f Hf) as (k & q & HL). unfold in_subtree.
  rewrite (level_right_ancestor f k q HL). pose proof (level_pow f k q HL).
  apply andb_true_iff. split; [apply Z.leb_le|apply Z.ltb_lt]; lia.
Qed.

Lemma in_subtree_left f i :
  0 ≤ f → 0 ≤ i → i ≠ f → in_subtree f i = in_subtree (left_ancestor f) i.
Proof.
  intros Hf Hi Hne. destruct (level_exists f Hf) as (k & q & HF).
  destruct (level_exists i Hi) as (j & p & HI). unfold in_subtree.
  rewrite (level_right_ancestor i j p HI), (level_left_ancestor f k q HF).
  pose proof (subtree_left_ancestor i j p f k q HI HF Hne) as E.
  apply eq_true_iff_eq. rewrite !andb_true_iff, !Z.leb_le, !Z.ltb_lt. exact E.
Qed.

Lemma left_ancestor_lt f : 0 ≤ f → -1 ≤ left_ancestor f < f ∧ in_subtree (left_ancestor f) f = false.
Proof.
  intros Hf. destruct (level_exists f Hf) as (k & q & HF).
  rewrite (level_left_ancestor f k q HF). pose proof (level_pow f k q HF).
  destruct HF as (_ & ? & E). unfold in_subtree. split; [nia|].
  apply andb_false_iff. left. apply Z.leb_gt. lia.
Qed.

Lemma set_files_set_files l l' d : set_files l (set_files l' d) = set_files l d.
Proof. done. Qed.

Lemma set_files_id d : set_files (fd_files d) d = d.
Proof. by destruct d. Qed.

Lemma bump_neg incr l : bump incr (-1) l = l.
Proof.
  apply slot_ext; [apply len_bump|]. intros i. rewrite len_bump. intros Hi.
  rewrite slot_bump. unfold in_subtree.
  replace (i <=? -1) with false by (symmetry; apply Z.leb_gt; lia). cbn.
  by destruct (slot l i).
Qed.

Lemma bump_step incr f l n :
  slot l f = Some n →
  bump incr (left_ancestor f) (<[Z.to_nat f := node_set_allocated (allocated n + incr) n]> l)
  = bump incr f l.
Proof.
  intros H. pose proof (slot_range _ _ _ H) as Hf.
  apply slot_ext; [by rewrite !len_bump, len_insert|]. intros i _.
  rewrite !slot_bump, slot_insert by done.
  destruct (decide (i = f)) as [->|Hne].
  - rewrite in_subtree_self, H by lia. cbn.
    destruct (left_ancestor_lt f) as [_ ->]; [lia|]. done.
  - destruct (slot l i) eqn:E; [|done]. apply slot_range in E.
    by rewrite (in_subtree_left f i) by lia.
Qed.

Lemma fdreserve_loop_spec fuel d f incr k a :
  -1 ≤ f < len (fd_files d) → 0 ≤ k → f + 1 = a * 2 ^ k → 0 ≤ a < 2 ^ Z.of_nat fuel →
  (∀ i n, slot (fd_files d) i = Some n → in_subtree f i = true → 0 ≤ allocated n + incr) →
  fdreserve_loop (S fuel) d f incr = Ok (set_files (bump incr f (fd_files d)) d).
Proof.
  revert d f k a. induction fuel as [|fuel IH]; intros d f k a Hf Hk Ea Ha Hpos.
  { change (2 ^ Z.of_nat 0) with 1 in Ha. assert (a = 0) as -> by lia.
    replace f with (-1) by lia. cbn. by rewrite bump_neg, set_files_id. }
  cbn [fdreserve_loop]. destruct (f >=? 0) eqn:E; bool_prop.
  2:{ replace f with (-1) by lia. by rewrite bump_neg, set_files_id. }
  destruct (slot_Some (fd_files d) f) as [n Hn]; [lia|].
  unfold get_node. rewrite (aget_slot _ _ _ Hn). cbn [obind].
  rewrite (upd_node_Ok _ _ _ _ Hn). cbn [obind].
  specialize (Hpos f n Hn) as H0. rewrite in_subtree_self in H0 by lia.
  replace (allocated n + incr >=? 0) with true
    by (symmetry; rewrite Z.geb_leb; apply Z.leb_le; auto). cbn [kkassert].
  destruct (left_ancestor_lt f) as [Hla _]; [lia|].
  destruct (level_exists (a - 1)) as (j & q & HL); [nia|].
  assert (HF : at_level f (j + k) q).
  { destruct HL as (? & ? & HL). split_and!; [lia..|]. rewrite Z.pow_add_r by lia. nia. }
  assert (El : left_ancestor f + 1 = q * 2 ^ (j + k + 1)).
  { rewrite (level_left_ancestor _ _ _ HF). destruct HF as (? & ? & HF).
    rewrite (Z.pow_add_r 2 (j + k) 1) by lia. lia. }
  change (fdreserve_loop (S fuel)
    (set_files (<[Z.to_nat f := node_set_allocated (allocated n + incr) n]> (fd_files d)) d)
    (left_ancestor f) incr = Ok (set_files (bump incr f (fd_files d)) d)).
  rewrite (IH _ _ (j + k + 1) q).
  - cbn [fd_files set_files]. rewrite bump_step by done. done.
  - cbn [fd_files set_files]. rewrite len_insert. lia.
  - destruct HL. lia.
  - done.
  - destruct HL as (Hj & Hq & HL). split; [lia|].
    assert (1 ≤ 2 ^ j) by (apply (Z.pow_le_mono_r 2 0); lia).
    rewrite Nat2Z.inj_succ, Z.pow_succ_r in Ha by lia. nia.
  - cbn [fd_files set_files]. intros i m. rewrite slot_insert by lia.
    destruct (decide (i = f)) as [->|Hne].
    + destruct (left_ancestor_lt f) as [_ ->]; [lia|done].
    + intros Hm Hs. pose proof (slot_range _ _ _ Hm).
      apply (Hpos i m Hm). by rewrite in_subtree_left by lia.
Qed.


(** ** The invariant of the table *)

(** The counts are the numbers of slots in use, for a use predicate [u]. *)
Definition alloc_ok (u : Z → bool) (l : list fdnode) : Prop :=
  ∀ i n, slot l i = Some n → allocated n = count u i (right_ancestor i).

Definition table_size (sz : Z) : Prop := ∃ m, 0 ≤ m ≤ 31 ∧ sz = 2 ^ m - 1.

(** All descriptors below [fd_freefile] are in use; none above [fd_lastfile]
    is, and [fd_lastfile] is, or is -1. *)
Definition freefile_ok (u : Z → bool) (d : filedesc) : Prop :=
  0 ≤ fd_freefile d ≤ fd_nfiles d ∧ ∀ i, 0 ≤ i < fd_freefile d → u i = true.
Definition lastfile_bound (u : Z → bool) (d : filedesc) : Prop :=
  -1 ≤ fd_lastfile d < fd_nfiles d ∧ ∀ i, fd_lastfile d < i → u i = false.
Definition lastfile_ok (u : Z → bool) (d : filedesc) : Prop :=
  lastfile_bound u d ∧ (0 ≤ fd_lastfile d → u (fd_lastfile d) = true).

Record tree_ok (d : filedesc) : Prop := {
  ok_len : fd_nfiles d = len (fd_files d);
  ok_size : table_size (fd_nfiles d);
  ok_alloc : alloc_ok (used d) (fd_files d);
  ok_freefile : freefile_ok (used d) d;
  ok_lastfile : lastfile_ok (used d) d
}.

Lemma used_out_of_range d i : i < 0 ∨ len (fd_files d) ≤ i → used d i = false.
Proof. intros. unfold used, used_in. by rewrite slot_None. Qed.

Lemma size_bound sz : table_size sz → 0 ≤ sz < 2147483648.
Proof.
  intros (m & Hm & ->). assert (1 ≤ 2 ^ m) by (apply (Z.pow_le_mono_r 2 0); lia).
  assert (2 ^ m ≤ 2 ^ 31) by (apply Z.pow_le_mono_r; lia).
  change (2 ^ 31) with 2147483648 in *. lia.
Qed.

Lemma subtree_bound sz i : table_size sz → 0 ≤ i < sz → i < right_ancestor i ≤ sz.
Proof. intros (m & Hm & ->) Hi. apply subtree_in_table; lia. Qed.

(** Adding [incr] along the left ancestors of [f] moves the counts from the
    use predicate [u] to [v], which differ at [f] by [incr]. *)
Lemma fdreserve_spec u v d f incr :
  table_size (len (fd_files d)) → 0 ≤ f < len (fd_files d) →
  alloc_ok u (fd_files d) → (∀ i, i ≠ f → u i = v i) →
  incr = (if v f then 1 else 0) - (if u f then 1 else 0) →
  fdreserve_locked d f incr = Ok (set_files (bump incr f (fd_files d)) d) ∧
  alloc_ok v (bump incr f (fd_files d)).
Proof.
  intros Hsz Hf Ha Huv Hi. pose proof (size_bound _ Hsz).
  assert (Hcnt : ∀ i, 0 ≤ i < len (fd_files d) →
    count v i (right_ancestor i) =
    count u i (right_ancestor i) + if in_subtree f i then incr else 0).
  { intros i Hr. unfold in_subtree.
    destruct ((i <=? f) && (f <? right_ancestor i)) eqn:E.
    - bool_prop. rewrite (count_update u v _ _ f) by (auto || lia). lia.
    - rewrite (count_ext v u); [lia|]. intros j Hj. symmetry. apply Huv. intros ->.
      assert ((i <=? f) && (f <? right_ancestor i) = true); [|congruence].
      apply andb_true_iff. rewrite Z.leb_le, Z.ltb_lt. lia. }
  split.
  - apply (fdreserve_loop_spec 32 d f incr 0 (f + 1)); [lia..| |].
    + change (2 ^ Z.of_nat 32) with 4294967296. lia.
    + intros i n Hn Hs. rewrite (Ha i n Hn). pose proof (slot_range _ _ _ Hn) as Hr.
      specialize (Hcnt i Hr). rewrite Hs in Hcnt.
      pose proof (count_nonneg v i (right_ancestor i)). lia.
  - intros i n. rewrite slot_bump. destruct (slot (fd_files d) i) as [m|] eqn:E; [|done].
    cbn. intros [= <-]. pose proof (slot_range _ _ _ E) as Hr. specialize (Ha i m E).
    specialize (Hcnt i Hr). destruct (in_subtree f i); cbn [allocated node_set_allocated]; lia.
Qed.

Lemma used_bump incr f d i : used (set_files (bump incr f (fd_files d)) d) i = used d i.
Proof.
  unfold used, used_in. cbn [fd_files set_files]. rewrite slot_bump.
  destruct (slot (fd_files d) i); [|done]. cbn. by destruct (in_subtree f i).
Qed.

(** Updates that keep [allocated] keep the counts. *)
Lemma alloc_ok_insert u l f n m :
  slot l f = Some n → allocated m = allocated n → alloc_ok u l →
  alloc_ok u (<[Z.to_nat f := m]> l).
Proof.
  intros Hn Hm Ha i x. pose proof (slot_range _ _ _ Hn). rewrite slot_insert by done.
  case_decide; subst; [|by apply Ha]. intros [= <-]. rewrite Hm. by apply Ha.
Qed.

(** ** fdfixup_locked *)

Lemma fdfixup_loop_spec fuel d :
  Z.of_nat fuel = fd_lastfile d + 2 → fd_nfiles d = len (fd_files d) →
  lastfile_bound (used d) d →
  ∃ L, fdfixup_loop fuel d = Ok (set_lastfile L d) ∧ L ≤ fd_lastfile d ∧
       lastfile_ok (used d) (set_lastfile L d).
Proof.
  revert d. induction fuel as [|fuel IH]; intros d Hfuel Hlen (Hr & Hfree); [lia|].
  cbn [fdfixup_loop].
  assert (Hself : set_lastfile (fd_lastfile d) d = d) by (by destruct d).
  destruct (fd_lastfile d >=? 0) eqn:E; bool_prop.
  2:{ exists (fd_lastfile d). rewrite Hself. split_and!; [done|lia|]. split; [done|lia]. }
  destruct (slot_Some (fd_files d) (fd_lastfile d)) as [n Hn]; [lia|].
  unfold get_node. rewrite (aget_slot _ _ _ Hn). cbn [obind].
  destruct (used d (fd_lastfile d)) eqn:U.
  - exists (fd_lastfile d). rewrite Hself. split_and!; [|lia|by split].
    unfold used, used_in in U. rewrite Hn in U. unfold in_use in U.
    destruct (fp n); [done|]. by destruct (reserved n =? 0).
  - assert (Hb : match fp n with
                 | None => if reserved n =? 0 then fdfixup_loop fuel (set_lastfile (fd_lastfile d - 1) d)
                           else Ok d
                 | Some _ => Ok d end = fdfixup_loop fuel (set_lastfile (fd_lastfile d - 1) d)).
    { unfold used, used_in in U. rewrite Hn in U. unfold in_use in U.
      destruct (fp n); [done|]. by destruct (reserved n =? 0). }
    rewrite Hb. destruct (IH (set_lastfile (fd_lastfile d - 1) d)) as (L & EL & HL & Hok).
    + cbn. lia.
    + done.
    + split; cbn [fd_lastfile fd_nfiles set_lastfile]; [lia|]. intros i Hi.
      destruct (decide (i = fd_lastfile d)) as [->|]; [done|]. apply Hfree. lia.
    + exists L. split_and!; [done|cbn in HL; lia|done].
Qed.

Lemma fdfixup_spec u d f :
  fd_nfiles d = len (fd_files d) → 0 ≤ f < fd_nfiles d →
  freefile_ok u d → lastfile_bound (used d) d → (∀ i, i ≠ f → used d i = u i) →
  ∃ F L, fdfixup_locked d f = Ok (set_lastfile L (set_freefile F d)) ∧
    freefile_ok (used d) (set_lastfile L (set_freefile F d)) ∧
    lastfile_ok (used d) (set_lastfile L (set_freefile F d)).
Proof.
  intros Hlen Hf (Hfr & Hfu) Hl Hu. unfold fdfixup_locked.
  set (d1 := if f <? fd_freefile d then set_freefile f d else d).
  assert (E1 : d1 = set_freefile (Z.min f (fd_freefile d)) d).
  { unfold d1. destruct (f <? fd_freefile d) eqn:E; bool_prop; [by rewrite Z.min_l by lia|].
    rewrite Z.min_r by lia. by destruct d. }
  rewrite E1. set (F := Z.min f (fd_freefile d)).
  destruct (fdfixup_loop_spec (S (Z.to_nat (fd_lastfile (set_freefile F d) + 1)))
    (set_freefile F d)) as (L & EL & HL & Hok); [|done|done|].
  - cbn [fd_lastfile set_freefile]. destruct Hl. lia.
  - exists F, L. split; [done|]. split; [|done]. split.
    + cbn [fd_freefile set_lastfile set_freefile fd_nfiles]. lia.
    + cbn [fd_freefile set_lastfile set_freefile]. intros i Hi. rewrite Hu by lia.
      apply Hfu. lia.
Qed.


(** ** fdgrow_locked *)

Lemma grow_size_spec fuel m want :
  0 ≤ m → m < 31 → want < INT_MAX → 31 - m ≤ Z.of_nat fuel →
  ∃ m', grow_size fuel (2 ^ m - 1) want = Ok (2 ^ m' - 1) ∧ m < m' ≤ 31 ∧ want < 2 ^ m' - 1.
Proof.
  revert m. induction fuel as [|fuel IH]; intros m Hm Hm31 Hw Hf; [lia|].
  cbn [grow_size]. replace (2 * (2 ^ m - 1) + 1) with (2 ^ (m + 1) - 1)
    by (rewrite Z.pow_add_r by lia; lia).
  destruct (2 ^ (m + 1) - 1 <=? want) eqn:E; bool_prop.
  - destruct (decide (m + 1 = 31)) as [E31|].
    { rewrite E31 in E. change (2 ^ 31) with 2147483648 in E. unfold INT_MAX in Hw. lia. }
    destruct (IH (m + 1)) as (m' & -> & ? & ?); [lia..|]. exists m'. split_and!; [done|lia..].
  - exists (m + 1). split_and!; [done|lia..].
Qed.

Lemma slot_app l l' i :
  0 ≤ i → slot (l ++ l') i = if i <? len l then slot l i else slot l' (i - len l).
Proof.
  intros Hi. unfold slot, len. destruct (i <? 0) eqn:E0; bool_prop; [lia|].
  destruct (i <? Z.of_nat (length l)) eqn:E1; bool_prop.
  - by rewrite lookup_app_l by lia.
  - destruct (i - Z.of_nat (length l) <? 0) eqn:E2; bool_prop; [lia|].
    rewrite lookup_app_r by lia. f_equal. lia.
Qed.

Lemma slot_replicate n i m :
  slot (replicate n fdnode0) i = Some m → m = fdnode0.
Proof.
  unfold slot. destruct (i <? 0); [done|]. by intros [-> _]%lookup_replicate.
Qed.

Lemma used_app_free l n i : used_in (l ++ replicate n fdnode0) i = used_in l i.
Proof.
  destruct (decide (0 ≤ i)).
  2:{ unfold used_in. by rewrite !slot_None by lia. }
  unfold used_in. rewrite slot_app by lia. destruct (i <? len l) eqn:E; bool_prop; [done|].
  rewrite (slot_None l) by lia. destruct (slot (replicate _ _) _) eqn:R; [|done].
  by apply slot_replicate in R as ->.
Qed.

Lemma fdgrow_spec d want :
  tree_ok d → fd_nfiles d < INT_MAX → want < INT_MAX →
  ∃ d', fdgrow_locked d want = Ok d' ∧ tree_ok d' ∧ (∀ i, used d' i = used d i) ∧
    (∀ i, 0 ≤ i < fd_nfiles d → slot (fd_files d') i = slot (fd_files d) i) ∧
    fd_nfiles d < fd_nfiles d' ∧ want < fd_nfiles d' ∧ fd_freefile d' = fd_freefile d.
Proof.
  intros [Hlen (m & Hm & Hsz) Hal Hfr Hl] Hn Hw. unfold fdgrow_locked.
  assert (m < 31).
  { destruct (decide (m = 31)) as [->|]; [|lia]. unfold INT_MAX in Hn.
    change (2 ^ 31) with 2147483648 in Hsz. lia. }
  rewrite Hsz. destruct (grow_size_spec 32 m want) as (m' & -> & Hm' & Hw'); [lia..|].
  cbn [obind]. assert (Hlt : 2 ^ m < 2 ^ m') by (apply Z.pow_lt_mono_r; lia).
  destruct (2 ^ m - 1 >=? 2 ^ m' - 1) eqn:E; bool_prop; [lia|]. rewrite <- Hsz.
  rewrite take_ge by (unfold len in Hlen; lia).
  set (n := Z.to_nat (2 ^ m' - 1 - fd_nfiles d)).
  eexists. split; [done|].
  assert (Hu : ∀ i, used (set_nfiles (2 ^ m' - 1)
    (set_files (fd_files d ++ replicate n fdnode0) d)) i = used d i).
  { intros i. apply used_app_free. }
  split; [|split; [done|]; split; [|cbn; split_and!; [lia|lia|done]]].
  - destruct Hfr as [Hfr Hfu]. destruct Hl as [[Hl Hlu] Hlast]. split.
    + cbn. unfold len in *. rewrite length_app, length_replicate. lia.
    + exists m'. split; [lia|done].
    + intros i x. cbn [fd_files set_nfiles set_files]. intros Hx.
      pose proof (slot_range _ _ _ Hx) as Hr. rewrite slot_app in Hx by lia.
      rewrite (count_ext _ (used d)) by auto.
      destruct (i <? len (fd_files d)) eqn:Ei; bool_prop; [by apply Hal|].
      apply slot_replicate in Hx as ->. cbn. symmetry.
      destruct (subtree_in_table i m') as [? _]; [lia| |].
      { unfold len in *. rewrite length_app, length_replicate in Hr. lia. }
      rewrite (count_ext _ (λ _, false)).
      * unfold count. generalize (Z.to_nat (right_ancestor i - i)) as x.
        induction x; cbn [count_n]; lia.
      * intros j Hj. apply used_out_of_range. lia.
    + split; cbn; [lia|]. intros i Hi. rewrite Hu. by apply Hfu.
    + split; [split|]; cbn; [lia| |]; intros; rewrite Hu; auto.
  - intros i Hi. cbn [fd_files set_nfiles set_files]. rewrite slot_app by lia.
    by replace (i <? len (fd_files d)) with true by (symmetry; apply Z.ltb_lt; lia).
Qed.

(** ** The search *)

Section Search.
Context (d : filedesc) (Hok : tree_ok d).

Let u := used d.
Let nf := fd_nfiles d.

Lemma node_in_table i : 0 ≤ i < nf → ∃ n, get_node d i = Ok n ∧
  slot (fd_files d) i = Some n ∧ allocated n = count u i (right_ancestor i).
Proof.
  intros Hi. destruct (slot_Some (fd_files d) i) as [n Hn].
  { rewrite <- (ok_len d Hok). exact Hi. }
  exists n. split_and!; [by apply aget_slot|done|by apply (ok_alloc d Hok)].
Qed.

(** The descent in a block of [2^s] aligned slots that is not full finds its
    lowest free slot. *)
Lemma fdalloc_down_spec fuel fd s a fn :
  0 ≤ s < Z.of_nat fuel → 0 ≤ a → fd + 1 = a * 2 ^ s → 0 ≤ fd → fd + 2 ^ s ≤ nf →
  get_node d fd = Ok fn → count u fd (fd + 2 ^ s) < 2 ^ s →
  ∃ r, fdalloc_down fuel d fd (2 ^ s / 2) (allocated fn - count u fd (fd + 2 ^ s)) = Ok r ∧
    fd ≤ r < fd + 2 ^ s ∧ u r = false ∧ ∀ i, fd ≤ i < r → u i = true.
Proof.
  revert fd s a fn. induction fuel as [|fuel IH]; intros fd s a fn Hs Ha E Hfd Hin Hfn Hc; [lia|].
  cbn [fdalloc_down]. destruct (decide (s = 0)) as [->|Hs0].
  { change (2 ^ 0) with 1 in *. change (1 / 2 >? 0) with false.
    exists fd. split; [done|]. split; [lia|]. split; [|lia].
    rewrite count_one in Hc. destruct (u fd); [lia|done]. }
  set (j := s - 1). assert (E2 : 2 ^ s = 2 * 2 ^ j).
  { unfold j. rewrite <- Z.pow_succ_r by lia. f_equal. lia. }
  assert (Hj : 0 < 2 ^ j) by (apply Z.pow_pos_nonneg; unfold j; lia).
  rewrite E2. rewrite Z.mul_comm, Z.div_mul by lia. rewrite Z.mul_comm.
  destruct (2 ^ j >? 0) eqn:T; bool_prop; [|lia].
  assert (HL : at_level (fd + 2 ^ j) j a).
  { apply level_node; [unfold j; lia|done|]. by replace (j + 1) with s by (unfold j; lia). }
  destruct (node_in_table (fd + 2 ^ j)) as (nn & Hnn & _ & Enn); [lia|]. rewrite Hnn. cbn [obind].
  rewrite Hfn. cbn [obind].
  rewrite (level_right_ancestor _ _ _ HL) in Enn.
  rewrite E2 in Hc. rewrite (count_app u fd (fd + 2 ^ j)) in Hc |- * by lia.
  replace (fd + 2 * 2 ^ j) with (fd + 2 ^ j + 2 ^ j) in * by lia.
  pose proof (count_range u fd (fd + 2 ^ j)) as Hc1.
  pose proof (count_range u (fd + 2 ^ j) (fd + 2 ^ j + 2 ^ j)) as Hc2.
  match goal with |- context [?x =? ?y] =>
    replace (x =? y) with (count u fd (fd + 2 ^ j) =? 2 ^ j)
      by (apply eq_true_iff_eq; rewrite !Z.eqb_eq; lia) end.
  destruct (count u fd (fd + 2 ^ j) =? 2 ^ j) eqn:F; bool_prop.
  - assert (Hfull : ∀ i, fd ≤ i < fd + 2 ^ j → u i = true).
    { intros i Hi. apply (count_full u fd (fd + 2 ^ j)); [lia|done]. }
    destruct (allocated nn =? 0) eqn:Z0; bool_prop.
    + exists (fd + 2 ^ j). split_and!; [done|lia|lia| |].
      * apply (count_zero u (fd + 2 ^ j) (fd + 2 ^ j + 2 ^ j)); lia.
      * intros i Hi. apply Hfull. lia.
    + destruct (IH (fd + 2 ^ j) j (2 * a + 1) nn) as (r & Er & Hr & Hur & Hall);
        [unfold j; lia|lia|destruct HL; lia|lia|lia|done|lia|].
      exists r. split_and!; [|lia|lia|done|].
      * rewrite <- Er. f_equal. lia.
      * intros i Hi. destruct (decide (i < fd + 2 ^ j)); [apply Hfull|apply Hall]; lia.
  - destruct (IH fd j (2 * a) fn) as (r & Er & Hr & Hur & Hall);
      [unfold j; lia|lia|lia|lia|lia|done|lia|].
    exists r. split_and!; [|lia|lia|done|done].
    rewrite <- Er. f_equal. lia.
Qed.

(** The level of a slot is at least that of any block it heads. *)
Lemma level_ge n k q j a : at_level n k q → 0 ≤ j → n + 1 = a * 2 ^ j → j ≤ k.
Proof.
  intros (Hk & Hq & En) Hj Ea. destruct (Z.le_gt_cases j k); [done|]. exfalso.
  assert (E : 2 ^ j = 2 ^ k * 2 * 2 ^ (j - k - 1)).
  { replace j with (k + 1 + (j - k - 1)) at 1 by lia. rewrite !Z.pow_add_r by lia. lia. }
  assert (0 < 2 ^ k) by (apply Z.pow_pos_nonneg; lia).
  rewrite En, E in Ea. assert (2 * q + 1 = 2 * (a * 2 ^ (j - k - 1))); [|lia].
  apply (Z.mul_cancel_l _ _ (2 ^ k)); lia.
Qed.

(** The climb: it stops at a subtree that is not full, or leaves the range. *)
Lemma fdalloc_up_spec fuel fd lim k a :
  0 ≤ fd ≤ nf → 0 ≤ k → fd + 1 = a * 2 ^ k → 31 - k < Z.of_nat fuel →
  (∃ r, fdalloc_up fuel d fd lim = Ok (Some r) ∧ fd ≤ r < nf ∧ u r = false ∧
        ∀ i, fd ≤ i < r → u i = true) ∨
  (fdalloc_up fuel d fd lim = Ok None ∧ ∀ i, fd ≤ i < Z.min nf lim → u i = true).
Proof.
  revert fd k a. pose proof (size_bound _ (ok_size d Hok)) as Hnf. fold nf in Hnf.
  induction fuel as [|fuel IH]; intros fd k a Hfd Hk Ea Hfuel.
  { exfalso. assert (2 ^ 32 ≤ 2 ^ k) by (apply Z.pow_le_mono_r; lia).
    change (2 ^ 32) with 4294967296 in *. generalize dependent (2 ^ k). intros x Ea Hx.
    assert (0 < a) by nia. nia. }
  cbn [fdalloc_up]. destruct (fd <? Z.min (fd_nfiles d) lim) eqn:T; bool_prop.
  2:{ right. split; [done|]. unfold nf. lia. }
  assert (Hr : 0 ≤ fd < nf) by (unfold nf; lia).
  destruct (node_in_table fd Hr) as (n & Hn & _ & En). rewrite Hn. cbn [obind].
  destruct (level_exists fd) as (k' & q & HL); [lia|].
  pose proof (level_pow _ _ _ HL) as Hp. pose proof (level_ge _ _ _ _ _ HL Hk Ea) as Hge.
  pose proof (subtree_bound nf fd (ok_size d Hok) Hr) as Hsub.
  rewrite (level_right_ancestor _ _ _ HL) in En, Hsub |- *.
  rewrite (level_subtree_size _ _ _ HL).
  pose proof (count_range u fd (fd + 2 ^ k')) as Hcr.
  destruct HL as (Hk' & Hq & EL).
  destruct (allocated n =? 0) eqn:Z0; bool_prop.
  { left. exists fd. split_and!; [done|lia|lia| |lia].
    apply (count_zero u fd (fd + 2 ^ k')); lia. }
  destruct (allocated n =? 2 ^ k') eqn:F; bool_prop.
  - assert (Hfull : ∀ i, fd ≤ i < fd + 2 ^ k' → u i = true).
    { intros i Hi. apply (count_full u fd (fd + 2 ^ k')); [lia|done]. }
    destruct (IH (fd + 2 ^ k') (k' + 1) (q + 1)) as [(r & Er & Hrr & Hur & Hall)|[Er Hall]];
      [lia|lia|rewrite (Z.pow_add_r 2 k' 1) by lia; lia|lia| |].
    + left. exists r. split_and!; [done|lia|lia|done|].
      intros i Hi. destruct (decide (i < fd + 2 ^ k')); [apply Hfull|apply Hall]; lia.
    + right. split; [done|].
      intros i Hi. destruct (decide (i < fd + 2 ^ k')); [apply Hfull|apply Hall]; lia.
  - left. assert (k' < Z.of_nat tree_fuel).
    { destruct (Z.lt_ge_cases k' 31); [unfold tree_fuel; lia|].
      assert (2 ^ 31 ≤ 2 ^ k') by (apply Z.pow_le_mono_r; lia).
      change (2 ^ 31) with 2147483648 in *. lia. }
    destruct (fdalloc_down_spec tree_fuel fd k' (2 * q + 1) n) as (r & Er & Hrr & Hur & Hall);
      [lia..|done|lia|].
    replace (allocated n - count u fd (fd + 2 ^ k')) with 0 in Er by lia.
    rewrite Er. cbn [obind]. exists r. split_and!; [done|lia|lia|done|done].
Qed.
End Search.

(** ** One slot changes *)

(** What a slot holds, its count aside. *)
Definition view (n : fdnode) : option file_ptr * Z * Z := (fp n, fileflags n, reserved n).
Definition view_at (d : filedesc) (i : Z) : option (option file_ptr * Z * Z) :=
  view <$> slot (fd_files d) i.

(** [d'] is [d] with the slot [f] holding [x], and the same size. *)
Definition slot_changed (f : Z) (x : option file_ptr * Z * Z) (d d' : filedesc) : Prop :=
  fd_nfiles d' = fd_nfiles d ∧ len (fd_files d') = len (fd_files d) ∧
  view_at d' f = Some x ∧ ∀ i, i ≠ f → view_at d' i = view_at d i.

Definition use_of (x : option file_ptr * Z * Z) : bool :=
  match x with (Some _, _, _) => true | (None, _, r) => negb (r =? 0) end.

Lemma used_view d i :
  used d i = match view_at d i with Some x => use_of x | None => false end.
Proof.
  unfold used, used_in, view_at. destruct (slot (fd_files d) i) as [n|]; [|done].
  cbn. unfold in_use. by destruct (fp n).
Qed.

Lemma slot_changed_used f x d d' i :
  slot_changed f x d d' → used d' i = if decide (i = f) then use_of x else used d i.
Proof.
  intros (_ & _ & Hf & Ho). rewrite used_view. case_decide; subst; [by rewrite Hf|].
  by rewrite Ho, <- used_view.
Qed.

(** Replacing the slot and adjusting the counts by the change of its use. *)
Lemma change_slot d f n n' :
  fd_nfiles d = len (fd_files d) → table_size (fd_nfiles d) →
  alloc_ok (used d) (fd_files d) → slot (fd_files d) f = Some n →
  allocated n' = allocated n →
  let d1 := set_files (<[Z.to_nat f := n']> (fd_files d)) d in
  let incr := (if in_use n' then 1 else 0) - (if in_use n then 1 else 0) in
  ∃ d', fdreserve_locked d1 f incr = Ok d' ∧ alloc_ok (used d') (fd_files d') ∧
    slot_changed f (view n') d d' ∧
    fd_lastfile d' = fd_lastfile d ∧ fd_freefile d' = fd_freefile d ∧
    fd_holdleaderscount d' = fd_holdleaderscount d ∧
    fd_holdleaderswakeup d' = fd_holdleaderswakeup d.
Proof.
  intros Hlen Hsz Ha Hn Hn' d1 incr. pose proof (slot_range _ _ _ Hn) as Hr.
  assert (Hl1 : len (fd_files d1) = len (fd_files d)) by apply len_insert.
  assert (Hv : view_at (set_files (bump incr f (fd_files d1)) d1) f = Some (view n')).
  { unfold view_at. cbn [fd_files set_files]. rewrite slot_bump. cbn [fd_files set_files d1].
    rewrite slot_insert, decide_True by done. cbn. by destruct (in_subtree f f). }
  assert (Hc : slot_changed f (view n') d (set_files (bump incr f (fd_files d1)) d1)).
  { split_and!; [done|by rewrite <- Hl1; apply len_bump|done|].
    intros i Hi. unfold view_at. cbn [fd_files set_files]. rewrite slot_bump. cbn [fd_files set_files d1].
    rewrite slot_insert, decide_False by done.
    destruct (slot (fd_files d) i); [|done]. cbn. by destruct (in_subtree f i). }
  destruct (fdreserve_spec (used d) (used (set_files (bump incr f (fd_files d1)) d1)) d1 f incr)
    as [Er Hok].
  - rewrite Hl1, <- Hlen. exact Hsz.
  - lia.
  - apply (alloc_ok_insert _ _ _ n); [done..|]. exact Ha.
  - intros i Hi. rewrite (slot_changed_used _ _ _ _ i Hc). by rewrite decide_False.
  - rewrite (slot_changed_used _ _ _ _ f Hc), decide_True by done.
    unfold incr. replace (use_of (view n')) with (in_use n').
    + unfold used, used_in. by rewrite Hn.
    + unfold in_use, use_of, view. by destruct (fp n').
  - exists (set_files (bump incr f (fd_files d1)) d1). split_and!; try done.
Qed.

(** ** fdalloc *)

Lemma upd_twice d f g h n :
  slot (fd_files d) f = Some n →
  (let* d := upd_node g f d in upd_node h f d) =
  Ok (set_files (<[Z.to_nat f := h (g n)]> (fd_files d)) d).
Proof.
  intros Hn. pose proof (slot_range _ _ _ Hn) as Hr. rewrite (upd_node_Ok _ _ _ _ Hn).
  cbn [obind]. rewrite (upd_node_Ok _ _ _ (g n)).
  - cbn [fd_files set_files]. by rewrite list_insert_insert_eq.
  - cbn [fd_files set_files]. by rewrite slot_insert, decide_True.
Qed.

Lemma obind_assoc {T U V} (o : outcome T) (f : T → outcome U) (g : U → outcome V) :
  obind (obind o f) g = obind o (λ x, obind (f x) g).
Proof. by destruct o. Qed.

Lemma fdalloc_found_spec d want fd :
  tree_ok d → 0 ≤ want ≤ fd → fd < fd_nfiles d → used d fd = false →
  (∀ i, Z.max want (fd_freefile d) ≤ i < fd → used d i = true) →
  ∃ d', fdalloc_found d want fd = Ok d' ∧ tree_ok d' ∧
    slot_changed fd (None, 0, 1) d d' ∧ fd_nfiles d' = fd_nfiles d.
Proof.
  intros [Hlen Hsz Ha [Hfr Hfu] [[Hl Hlu] Hlast]] Hw Hfd Hfree Hall.
  unfold fdalloc_found. replace (fd <? fd_nfiles d) with true by (symmetry; apply Z.ltb_lt; lia).
  cbn [kkassert].
  set (d1 := if fd >? fd_lastfile d then set_lastfile fd d else d).
  set (d2 := if want <=? fd_freefile d1 then set_freefile fd d1 else d1).
  assert (Ef : fd_files d2 = fd_files d).
  { unfold d2, d1. by repeat case_match. }
  assert (En : fd_nfiles d2 = fd_nfiles d).
  { unfold d2, d1. by repeat case_match. }
  assert (El : fd_lastfile d2 = Z.max fd (fd_lastfile d)).
  { unfold d2, d1. destruct (fd >? fd_lastfile d) eqn:E; bool_prop;
      case_match; cbn [fd_lastfile set_freefile set_lastfile]; lia. }
  assert (Er : fd_freefile d2 = if want <=? fd_freefile d then fd else fd_freefile d).
  { unfold d2, d1. by destruct (fd >? fd_lastfile d); cbn [fd_freefile set_lastfile];
      destruct (want <=? fd_freefile d). }
  clearbody d2. clear d1.
  destruct (slot_Some (fd_files d) fd) as [n Hn]; [lia|].
  unfold get_node. rewrite Ef, (aget_slot _ _ _ Hn). cbn [obind].
  assert (fp n = None ∧ reserved n = 0) as [Hfp Hres].
  { unfold used, used_in in Hfree. rewrite Hn in Hfree. unfold in_use in Hfree.
    destruct (fp n); [done|]. by bool_prop. }
  rewrite Hfp, Hres. cbn [kkassert Z.eqb].
  rewrite <- obind_assoc, (upd_twice d2 fd _ _ n) by (by rewrite Ef). cbn [obind].
  set (n' := node_set_reserved 1 (node_set_flags 0 n)).
  assert (Hu2 : ∀ i, used d2 i = used d i) by (intros i; unfold used; by rewrite Ef).
  destruct (change_slot d2 fd n n') as (d' & Ed & Hok & Hc & E1 & E2 & _).
  - by rewrite En, Ef.
  - by rewrite En.
  - rewrite Ef. intros i m Hm. rewrite (count_ext _ (used d)) by auto. by apply Ha.
  - by rewrite Ef.
  - done.
  - replace (_ - _) with 1 in Ed.
    2:{ unfold in_use. cbn [fp node_set_reserved node_set_flags n' reserved]. rewrite Hfp, Hres. done. }
    exists d'. split; [exact Ed|].
    assert (Hc' : slot_changed fd (None, 0, 1) d d').
    { destruct Hc as (C1 & C2 & C3 & C4). split_and!; [by rewrite C1|by rewrite C2, Ef| |].
      - rewrite C3. unfold view. cbn. by rewrite Hfp.
      - intros i Hi. rewrite C4 by done. unfold view_at. by rewrite Ef. }
    assert (Hu' : ∀ i, used d' i = if decide (i = fd) then true else used d i).
    { intros i. apply (slot_changed_used _ _ _ _ i Hc'). }
    destruct Hc' as (C1 & C2 & C3 & C4).
    split; [|split; [done|done]]. split.
    + by rewrite C1, C2.
    + by rewrite C1.
    + exact Hok.
    + split; rewrite E2, Er, ?C1.
      * case_match; lia.
      * intros i Hi. rewrite Hu'. case_decide; [done|].
        destruct (want <=? fd_freefile d) eqn:E; bool_prop; [|by apply Hfu].
        destruct (decide (i < fd_freefile d)); [apply Hfu; lia|apply Hall; lia].
    + split; [split|]; rewrite E1, El, ?C1; [lia| |].
      * intros i Hi. rewrite Hu'. case_decide; [lia|]. apply Hlu. lia.
      * intros _. rewrite Hu'. case_decide; [done|].
        replace (Z.max fd (fd_lastfile d)) with (fd_lastfile d) by lia. apply Hlast. lia.
Qed.


(** The search over the table: the lowest free slot, or none below the limit. *)
Lemma fdalloc_search d start lim :
  tree_ok d → 0 ≤ start ≤ fd_nfiles d →
  (∃ r, fdalloc_up tree_fuel d start lim = Ok (Some r) ∧ start ≤ r < fd_nfiles d ∧
        used d r = false ∧ ∀ i, start ≤ i < r → used d i = true) ∨
  (fdalloc_up tree_fuel d start lim = Ok None ∧
   ∀ i, start ≤ i < Z.min (fd_nfiles d) lim → used d i = true).
Proof.
  intros Hok Hs. apply (fdalloc_up_spec d Hok tree_fuel start lim 0 (start + 1)); try lia.
  unfold tree_fuel. lia.
Qed.

(** All of [want, start) is in use when the search starts at [fd_freefile]. *)
Lemma below_start d want i :
  freefile_ok (used d) d → want ≤ i < Z.max want (fd_freefile d) → 0 ≤ want → used d i = true.
Proof. intros [Hr Hu] Hi Hw. apply Hu. lia. Qed.

(** What a successful [fdalloc] did to the table [d]. *)
Definition allocates (d : filedesc) (want : Z) (d' : filedesc) (fd : Z) : Prop :=
  tree_ok d' ∧ want ≤ fd < fd_nfiles d' ∧ fd_nfiles d ≤ fd_nfiles d' ∧
  used d fd = false ∧ (∀ i, want ≤ i < fd → used d i = true) ∧
  view_at d' fd = Some (None, 0, 1) ∧
  ∀ i, i ≠ fd → used d' i = used d i ∧ (i < fd_nfiles d → view_at d' i = view_at d i).

Lemma allocates_found d want fd :
  tree_ok d → 0 ≤ want → Z.max want (fd_freefile d) ≤ fd < fd_nfiles d →
  used d fd = false → (∀ i, Z.max want (fd_freefile d) ≤ i < fd → used d i = true) →
  ∃ d', fdalloc_found d want fd = Ok d' ∧ allocates d want d' fd.
Proof.
  intros Hok Hw Hfd Hfree Hall.
  destruct (fdalloc_found_spec d want fd) as (d' & Ed & Hok' & Hc & Hn); [done|lia..|done|done|].
  exists d'. split; [done|].
  pose proof (fun i => slot_changed_used _ _ _ _ i Hc) as Hu.
  destruct Hc as (C1 & C2 & C3 & C4). split_and!; try done; try lia.
  - intros i Hi. destruct (decide (i < Z.max want (fd_freefile d))).
    + apply (below_start d want); [apply (ok_freefile d Hok)|lia|lia].
    + apply Hall. lia.
  - intros i Hi. split; [rewrite Hu; by rewrite decide_False|intros _; by apply C4].
Qed.

(** Growing first changes nothing that the caller can see. *)
Lemma allocates_grown d d1 want d2 fd :
  fd_nfiles d ≤ fd_nfiles d1 → (∀ i, used d1 i = used d i) →
  (∀ i, 0 ≤ i < fd_nfiles d → slot (fd_files d1) i = slot (fd_files d) i) →
  allocates d1 want d2 fd → allocates d want d2 fd.
Proof.
  intros Hn Hu Hs (A1 & A2 & A3 & A4 & A5 & A6 & A7).
  split_and!; try done; try lia.
  - by rewrite <- Hu.
  - intros i Hi. rewrite <- Hu. by apply A5.
  - intros i Hi. destruct (A7 i Hi) as [B1 B2]. split; [by rewrite B1|].
    intros Hlt. rewrite B2 by lia. unfold view_at. destruct (decide (0 ≤ i)).
    + by rewrite Hs by lia.
    + by rewrite !slot_None by lia.
Qed.

Lemma fdalloc_retry_spec d want lim :
  tree_ok d → 0 ≤ want < fd_nfiles d → lim ≤ INT_MAX →
  (∃ d' fd, fdalloc_retry 2 d want lim = Ok (inr (d', fd)) ∧ allocates d want d' fd) ∨
  (fdalloc_retry 2 d want lim = Ok (inl EMFILE) ∧ ∀ i, want ≤ i < lim → used d i = true).
Proof.
  intros Hok Hw Hlim. pose proof (ok_freefile d Hok) as Hfr. destruct Hfr as [Hfr Hfu].
  pose proof (size_bound _ (ok_size d Hok)) as Hsz.
  cbn [fdalloc_retry].
  destruct (fdalloc_search d (Z.max want (fd_freefile d)) lim Hok) as
    [(r & -> & Hr & Hur & Hall)|[-> Hall]]; [lia| |]; cbn [obind].
  { left. destruct (allocates_found d want r) as (d' & -> & HA); [done|lia|lia|done|done|].
    exists d', r. by split. }
  destruct (fd_nfiles d >=? lim) eqn:E; bool_prop.
  { right. split; [done|]. intros i Hi. destruct (decide (i < Z.max want (fd_freefile d))).
    - apply (below_start d want); [by split|lia|lia].
    - apply Hall. lia. }
  left. destruct (fdgrow_spec d want) as (d1 & -> & Hok1 & Hu1 & Hs1 & Hn1 & Hw1 & Hf1);
    [done|unfold INT_MAX in *; lia|unfold INT_MAX in *; lia|]. cbn [obind].
  destruct (fdalloc_search d1 (Z.max want (fd_freefile d1)) lim Hok1) as
    [(r & -> & Hr & Hur & Hall1)|[_ Hall1]]; [rewrite Hf1; lia| |]; cbn [obind].
  - destruct (allocates_found d1 want r) as (d' & -> & HA); [done|lia|lia|done|done|].
    exists d', r. split; [done|]. apply (allocates_grown d d1); try done. lia.
  - exfalso. specialize (Hall1 (fd_nfiles d)). rewrite Hu1 in Hall1.
    rewrite used_out_of_range in Hall1 by (right; rewrite (ok_len d Hok); lia).
    rewrite Hf1 in Hall1. discriminate Hall1. lia.
Qed.

(** The administrator's limits are C ints. *)
Definition limits_ok (p : limits) : Prop :=
  maxfilesperproc p ≤ INT_MAX ∧ minfilesperproc p ≤ INT_MAX.

#[export] Instance limits_ok_dec p : Decision (limits_ok p).
Proof. unfold limits_ok. apply _. Defined.

Lemma dtable_limit_int p : limits_ok p → dtable_limit p ≤ INT_MAX.
Proof.
  intros [H1 H2]. unfold dtable_limit.
  destruct (rlim_cur p >? INT_MAX) eqn:E1; bool_prop;
    destruct (_ >? maxfilesperproc p) eqn:E2; bool_prop;
    destruct (_ <? minfilesperproc p) eqn:E3; bool_prop; lia.
Qed.

(** ** Release *)

Lemma slot_view d i x : view_at d i = Some x →
  ∃ n, slot (fd_files d) i = Some n ∧ view n = x ∧ get_node d i = Ok n ∧ 0 ≤ i < len (fd_files d).
Proof.
  unfold view_at. destruct (slot (fd_files d) i) as [n|] eqn:E; [|done].
  intros [= <-]. exists n. split_and!; [done|done|by apply aget_slot|by eapply slot_range..].
Qed.

(** Emptying a slot in use. *)
Lemma release_spec d f n n' :
  tree_ok d → slot (fd_files d) f = Some n → in_use n = true →
  allocated n' = allocated n → in_use n' = false →
  ∃ d1 d', fdreserve_locked (set_files (<[Z.to_nat f := n']> (fd_files d)) d) f (-1) = Ok d1 ∧
    fdfixup_locked d1 f = Ok d' ∧ tree_ok d' ∧ slot_changed f (view n') d d'.
Proof.
  intros Hok Hn Hu Ha' Hu'. pose proof (slot_range _ _ _ Hn) as Hr.
  destruct Hok as [Hlen Hsz Ha [Hfr Hfu] [[Hl Hlu] Hlast]].
  destruct (change_slot d f n n' Hlen Hsz Ha Hn Ha') as (d1 & Ed & Hok1 & Hc & E1 & E2 & _).
  rewrite Hu, Hu' in Ed. change (0 - 1) with (-1) in Ed.
  pose proof (fun i => slot_changed_used _ _ _ _ i Hc) as Hu1.
  assert (Huf : used d f = true) by (unfold used, used_in; by rewrite Hn).
  assert (Hfree : used d1 f = false).
  { rewrite Hu1, decide_True by done. unfold use_of, view.
    unfold in_use in Hu'. by destruct (fp n'). }
  destruct (fdfixup_spec (used d) d1 f) as (F & L & Ef & HF & HL).
  - destruct Hc as (-> & -> & _). done.
  - destruct Hc as (-> & _). lia.
  - destruct Hc as (C1 & _). split; rewrite E2, ?C1; done.
  - destruct Hc as (C1 & _). split; rewrite E1, ?C1; [done|].
    intros i Hi. rewrite Hu1. case_decide; [|by apply Hlu].
    subst. rewrite Hlu in Huf by done. done.
  - intros i Hi. rewrite Hu1. by rewrite decide_False.
  - exists d1, (set_lastfile L (set_freefile F d1)). split_and!; [done|done| |done].
    destruct Hc as (C1 & C2 & _). split; try done.
    + cbn. by rewrite C1, C2.
    + cbn. by rewrite C1.
Qed.


Lemma in_range_bool d f : 0 ≤ f < fd_nfiles d → (0 <=? f) && (f <? fd_nfiles d) = true.
Proof. intros. apply andb_true_iff. rewrite Z.leb_le, Z.ltb_lt. lia. Qed.

(** [fsetfd(fdp, NULL, fd)]: the reservation is returned to the pool. *)
Lemma fsetfd_clear_spec d f flags r :
  tree_ok d → view_at d f = Some (None, flags, r) → r ≠ 0 →
  ∃ d', fsetfd_clear d f = Ok d' ∧ tree_ok d' ∧ slot_changed f (None, flags, 0) d d'.
Proof.
  intros Hok Hv Hr. apply slot_view in Hv as (n & Hn & Hv & Hg & Hf).
  unfold view in Hv. injection Hv as Hfp Hfl Hres.
  unfold fsetfd_clear. rewrite in_range_bool by (rewrite (ok_len d Hok); done). cbn [kkassert].
  rewrite Hg. cbn [obind]. rewrite Hres.
  replace (r =? 0) with false by (symmetry; apply Z.eqb_neq; done). cbn [negb kkassert].
  rewrite (upd_node_Ok _ _ _ _ Hn). cbn [obind].
  destruct (release_spec d f n (node_set_reserved 0 n) Hok Hn) as (d1 & d' & -> & E & ? & Hc).
  - unfold in_use. rewrite Hfp, Hres. by apply negb_true_iff, Z.eqb_neq.
  - done.
  - unfold in_use. cbn. by rewrite Hfp.
  - cbn [obind]. exists d'. split_and!; [done..|]. unfold view in Hc. cbn in Hc.
    by rewrite Hfp, Hfl in Hc.
Qed.

(** A close: the slot is emptied and its file returned; an empty or
    out-of-range slot is left alone. *)
Lemma funsetfd_spec d f :
  tree_ok d →
  match view_at d f with
  | Some (Some x, flags, r) =>
      r = 0 → ∃ d', funsetfd_locked d f = Ok (d', Some x) ∧ tree_ok d' ∧
                    slot_changed f (None, 0, 0) d d'
  | _ => funsetfd_locked d f = Ok (d, None)
  end.
Proof.
  intros Hok. unfold funsetfd_locked. destruct (view_at d f) as [[[[x|] flags] r]|] eqn:Hv.
  - apply slot_view in Hv as (n & Hn & Hv & Hg & Hf). injection Hv as Hfp Hfl Hres. intros Hr.
    replace ((f <? 0) || (f >=? fd_nfiles d)) with false.
    2:{ symmetry. apply orb_false_iff. rewrite Z.ltb_ge, Z.geb_leb, Z.leb_gt, (ok_len d Hok). lia. }
    rewrite Hg. cbn [obind]. rewrite Hfp, <- obind_assoc, (upd_twice d f _ _ n) by done.
    cbn [obind].
    destruct (release_spec d f n (node_set_flags 0 (node_set_fp None n)) Hok Hn)
      as (d1 & d' & -> & E & ? & Hc).
    + unfold in_use. by rewrite Hfp.
    + done.
    + unfold in_use. cbn. by rewrite Hres, Hr.
    + cbn [obind]. rewrite E. cbn [obind]. exists d'. split_and!; [done..|].
      unfold view in Hc. cbn in Hc. by rewrite Hres, Hr in Hc.
  - apply slot_view in Hv as (n & Hn & Hv & Hg & Hf). injection Hv as Hfp Hfl Hres.
    destruct (_ || _); [done|]. rewrite Hg. cbn [obind]. by rewrite Hfp.
  - unfold view_at in Hv. destruct (slot (fd_files d) f) eqn:E; [done|].
    replace ((f <? 0) || (f >=? fd_nfiles d)) with true; [done|]. symmetry.
    apply orb_true_iff. rewrite Z.ltb_lt, Z.geb_leb, Z.leb_le, (ok_len d Hok).
    destruct (Z.lt_ge_cases f 0); [by left|right].
    destruct (Z.le_gt_cases (len (fd_files d)) f); [done|].
    destruct (slot_Some (fd_files d) f) as [n Hn]; [lia|congruence].
Qed.

(** A change of a slot that does not change whether it is in use. *)
Lemma tree_ok_keep d f n n' :
  tree_ok d → slot (fd_files d) f = Some n →
  allocated n' = allocated n → in_use n' = in_use n →
  let d' := set_files (<[Z.to_nat f := n']> (fd_files d)) d in
  tree_ok d' ∧ slot_changed f (view n') d d'.
Proof.
  intros Hok Hn Ha' Hu' d'. pose proof (slot_range _ _ _ Hn) as Hf.
  assert (Hc : slot_changed f (view n') d d').
  { split_and!; [done|apply len_insert| |]; unfold view_at; cbn [fd_files set_files d'].
    - by rewrite slot_insert, decide_True.
    - intros i Hi. by rewrite slot_insert, decide_False. }
  split; [|done].
  assert (Hu : ∀ i, used d' i = used d i).
  { intros i. rewrite (slot_changed_used _ _ _ _ i Hc). case_decide as Hif; [|done]. rewrite Hif.
    unfold used, used_in. rewrite Hn, <- Hu'. unfold in_use, use_of, view. by destruct (fp n'). }
  destruct Hok as [Hlen Hsz Ha [Hfr Hfu] [[Hl Hlu] Hlast]]. split.
  - destruct Hc as (_ & -> & _). done.
  - done.
  - apply (alloc_ok_insert _ _ _ n); [done..|].
    intros i m Hm. rewrite (count_ext _ (used d)) by auto. by apply Ha.
  - split; [done|]. intros i Hi. rewrite Hu. by apply Hfu.
  - split; [split|]; [done| |]; intros; rewrite Hu; [by apply Hlu|by apply Hlast].
Qed.

(** Associating a file with a reserved slot keeps every count. *)
Lemma fsetfd_set_spec d f x flags r :
  tree_ok d → view_at d f = Some (None, flags, r) → r ≠ 0 →
  ∃ d', fsetfd_set d x f = Ok d' ∧ tree_ok d' ∧ slot_changed f (Some x, flags, 0) d d'.
Proof.
  intros Hok Hv Hr. apply slot_view in Hv as (n & Hn & Hv & Hg & Hf).
  injection Hv as Hfp Hfl Hres.
  unfold fsetfd_set. rewrite in_range_bool by (rewrite (ok_len d Hok); done). cbn [kkassert].
  rewrite Hg. cbn [obind]. rewrite Hres.
  replace (r =? 0) with false by (symmetry; apply Z.eqb_neq; done). cbn [negb kkassert].
  rewrite (upd_twice d f _ _ n) by done.
  set (n' := node_set_reserved 0 (node_set_fp (Some x) n)).
  destruct (tree_ok_keep d f n n' Hok Hn) as [Hok' Hc]; [done| |].
  - unfold in_use. rewrite Hfp, Hres. symmetry. by apply negb_true_iff, Z.eqb_neq.
  - unfold view in Hc. cbn in Hc. rewrite Hfl in Hc. by eexists.
Qed.

(** A reservation of a free slot keeps the invariant once [fd_lastfile] covers
    it. *)
Lemma reserve_spec d f n n' :
  tree_ok d → slot (fd_files d) f = Some n → in_use n = false →
  allocated n' = allocated n → in_use n' = true →
  ∃ d1, fdreserve_locked (set_files (<[Z.to_nat f := n']> (fd_files d)) d) f 1 = Ok d1 ∧
    let d' := if f >? fd_lastfile d1 then set_lastfile f d1 else d1 in
    tree_ok d' ∧ slot_changed f (view n') d d'.
Proof.
  intros Hok Hn Hu Ha' Hu'. pose proof (slot_range _ _ _ Hn) as Hr.
  destruct Hok as [Hlen Hsz Ha [Hfr Hfu] [[Hl Hlu] Hlast]].
  destruct (change_slot d f n n' Hlen Hsz Ha Hn Ha') as (d1 & Ed & Hok1 & Hc & E1 & E2 & _).
  rewrite Hu, Hu' in Ed. change (1 - 0) with 1 in Ed. exists d1. split; [done|].
  set (d' := if f >? fd_lastfile d1 then set_lastfile f d1 else d1).
  assert (Hd' : fd_files d' = fd_files d1 ∧ fd_nfiles d' = fd_nfiles d1 ∧
    fd_freefile d' = fd_freefile d1 ∧ fd_lastfile d' = Z.max f (fd_lastfile d1)).
  { unfold d'. destruct (f >? fd_lastfile d1) eqn:E; bool_prop; split_and!; cbn; try done; lia. }
  clearbody d'. destruct Hd' as (F1 & F2 & F3 & F4).
  assert (Hc' : slot_changed f (view n') d d').
  { destruct Hc as (C1 & C2 & C3 & C4). unfold slot_changed, view_at in *. by rewrite F1, F2. }
  pose proof (fun i => slot_changed_used _ _ _ _ i Hc') as Hu1.
  assert (Huf : use_of (view n') = true).
  { unfold in_use in Hu'. unfold use_of, view. by destruct (fp n'). }
  pose proof Hc' as (C1 & C2 & _).
  cbn zeta. split; [|done]. split.
  - by rewrite C1, C2.
  - by rewrite C1.
  - rewrite F1. intros i m Hm. rewrite (Hok1 i m Hm). unfold used. by rewrite F1.
  - split; [rewrite F3, E2, C1; done|]. rewrite F3, E2. intros i Hi. rewrite Hu1.
    case_decide; [done|by apply Hfu].
  - split; [split|]; rewrite F4, E1; [lia| |].
    + intros i Hi. rewrite Hu1, decide_False by lia. apply Hlu. lia.
    + intros _. rewrite Hu1. case_decide; [done|].
      replace (Z.max f (fd_lastfile d)) with (fd_lastfile d) by lia. apply Hlast. lia.
Qed.

Lemma fdinit_ok : tree_ok fdinit_table.
Proof.
  assert (Hu : ∀ i, used fdinit_table i = false).
  { intros i. unfold used, used_in. destruct (slot _ _) eqn:E; [|done].
    by apply slot_replicate in E as ->. }
  split; [done|by exists 4| | |].
  - intros i n Hn. pose proof Hn as Hs. apply slot_replicate in Hs as ->.
    rewrite (count_ext _ (λ _, false)) by auto. cbn [allocated fdnode0].
    unfold count. generalize (Z.to_nat (right_ancestor i - i)) as x.
    induction x; cbn [count_n]; lia.
  - split; cbn; [unfold NDFILE; lia|lia].
  - split; [split|]; cbn; [unfold NDFILE; lia|auto|lia].
Qed.

(** A user other than root with more open files than maxfilesperuser, in a
    process whose table has at least minfilesperproc slots. *)
Definition over_quota (p : limits) (d : filedesc) : Prop :=
  cr_uid p ≠ 0 ∧ minfilesperproc p ≤ fd_nfiles d ∧ maxfilesperuser p < ui_openfiles p.

Lemma fdalloc_spec (p : limits) (d : filedesc) (want : Z)
    (Hd : tree_ok d) (Hp : limits_ok p) (Hw : 0 ≤ want) :
  (∃ d' fd, fdalloc p d want = Ok (inr (d', fd)) ∧ want < dtable_limit p ∧ ¬ over_quota p d ∧ allocates d want d' fd) ∨
  (fdalloc p d want = Ok (inl EMFILE) ∧
   (dtable_limit p ≤ want ∨ ¬ over_quota p d ∧ ∀ i, want ≤ i < dtable_limit p → used d i = true)) ∨
  (fdalloc p d want = Ok (inl ENFILE) ∧ want < dtable_limit p ∧ over_quota p d).
Proof.
  pose proof (dtable_limit_int p Hp) as Hlim. unfold fdalloc.
  destruct (want >=? dtable_limit p) eqn:E1; bool_prop; [right; left; split; [done|by left]|].
  destruct (negb (cr_uid p =? 0) && _ && _) eqn:E2; bool_prop.
  { right; right. unfold over_quota. split_and!; done || lia. }
  assert (Hq : ¬ over_quota p d) by (unfold over_quota; intros (? & ? & ?); lia).
  destruct (want >=? fd_nfiles d) eqn:E3; bool_prop; cbn [obind].
  - destruct (fdgrow_spec d want) as (d1 & -> & Hok1 & Hu1 & Hs1 & Hn1 & Hw1 & Hf1);
      [done|lia|lia|]. cbn [obind].
    destruct (fdalloc_retry_spec d1 want (dtable_limit p)) as [(d' & fd & -> & HA)|[-> HA]];
      [done|lia|done| |].
    + left. exists d', fd. split_and!; [done..|]. apply (allocates_grown d d1); try done. lia.
    + right; left. split; [done|]. right. split; [done|]. intros i Hi. rewrite <- Hu1. by apply HA.
  - destruct (fdalloc_retry_spec d want (dtable_limit p)) as [(d' & fd & -> & HA)|[-> HA]];
      [done|lia|done| |].
    + left. by exists d', fd.
    + right; left. split; [done|]. by right.
Qed.

(** ** The properties *)


(** Closing a descriptor undoes its allocation: on a well-formed table
    [funsetfd_locked] of a slot that holds a file returns that file, frees the
    slot and nothing else, and restores the invariant of the counts, of
    [fd_freefile] and of [fd_lastfile]. *)
Theorem funsetfd_frees (d : filedesc) (f : Z) (x : file_ptr) (flags : Z)
    (Hd : tree_ok d) (Hv : view_at d f = Some (Some x, flags, 0)) :
  ∃ d', funsetfd_locked d f = Ok (d', Some x) ∧ tree_ok d' ∧
    used d' f = false ∧ (∀ i, i ≠ f → view_at d' i = view_at d i ∧ used d' i = used d i).
Proof.
  pose proof (funsetfd_spec d f Hd) as H. rewrite Hv in H.
  destruct (H eq_refl) as (d' & E & Hok & Hc). exists d'. split_and!; try done.
  - by rewrite (slot_changed_used _ _ _ _ f Hc), decide_True.
  - intros i Hi. split; [by apply Hc|].
    by rewrite (slot_changed_used _ _ _ _ i Hc), decide_False.
Qed.

(** Allocates [n] descriptors from 0 up; the descriptors got. *)
Fixpoint alloc_many (n : nat) (p : limits) (d : filedesc) : outcome (list Z * filedesc) :=
  match n with
  | O => Ok ([], d)
  | S n =>
      let* r := fdalloc p d 0 in
      match r with
      | inl _ => Ok ([], d)
      | inr (d, fd) => let* s := alloc_many n p d in Ok (fd :: fst s, snd s)
      end
  end.

Definition limits20 : limits :=
  {| rlim_cur := 20; maxfilesperproc := 1000; minfilesperproc := 8;
     cr_uid := 0; ui_openfiles := 0; maxfilesperuser := 1000 |}.

(** The limit on open files can be overrun: the climb only compares the
    root of a subtree with the limit, and the descent then returns a slot
    above it.  With RLIMIT_NOFILE at 20 a fresh process gets the 21 descriptors
    0 to 20; descriptor 20 is outside the limit. *)
Lemma fdalloc_over_limit :
  dtable_limit limits20 = 20 ∧
  ∃ d, alloc_many 30 limits20 fdinit_table = Ok (seqZ 0 21, d).
Proof. split; [done|]. eexists. vm_compute. reflexivity. Qed.

(** ** Witnesses *)

Definition table3 : filedesc :=
  match alloc_many 3 limits20 fdinit_table with
  | Ok (_, d) => d
  | _ => fdinit_table
  end.

Lemma table3_ok : tree_ok table3.
Proof.
  unfold table3. enough (H : ∀ n p d r, tree_ok d → limits_ok p → alloc_many n p d = Ok r → tree_ok (snd r)).
  { destruct (alloc_many 3 limits20 fdinit_table) as [[l d]| | |] eqn:E; try apply fdinit_ok.
    assert (Hl : limits_ok limits20) by by_decide.
    exact (H 3%nat limits20 fdinit_table (l, d) fdinit_ok Hl E). }
  induction n as [|n IH]; intros p d r Hok Hp; cbn [alloc_many]; [by intros [= <-]|].
  destruct (fdalloc_spec p d 0 Hok Hp ltac:(lia)) as [(d' & fd & -> & _ & _ & HA)|[[-> _]|[-> _]]];
    cbn [obind]; [|by intros [= <-]..].
  destruct (alloc_many n p d') as [s| | |] eqn:E; cbn [obind]; try done.
  intros [= <-]. cbn [snd]. eapply IH; [apply HA|done|done].
Qed.


(** Descriptor 1 of [table3] associated with the file at address 77. *)
Definition table_file : filedesc :=
  match fsetfd_set table3 77 1 with Ok d => d | _ => table3 end.

Lemma table_file_ok : tree_ok table_file.
Proof.
  unfold table_file.
  destruct (fsetfd_set_spec table3 1 77 0 1 table3_ok) as (d' & -> & Hok & _); [|done|done].
  vm_compute. reflexivity.
Qed.

Lemma funsetfd_frees_witness :
  view_at table_file 1 = Some (Some 77, 0, 0) ∧
  ∃ d', funsetfd_locked table_file 1 = Ok (d', Some 77) ∧ tree_ok d' ∧
    used d' 1 = false ∧
    (∀ i, i ≠ 1 → view_at d' i = view_at table_file i ∧ used d' i = used table_file i).
Proof.
  split; [vm_compute; reflexivity|].
  apply (funsetfd_frees table_file 1 77 0); [exact table_file_ok|vm_compute; reflexivity].
Defined.

End FdTree.
