(* ===== verification/FdOps.v ===== *)
(** * File references and descriptor system calls (sys/kern/kern_descrip.c)

    The struct files that descriptors refer to, their reference counts, and the
    operations that move references: [fhold], [fdrop], [closef], [kern_close],
    [kern_closefrom], [fdcloseexec], [kern_dup], [fdcopy] and the flag
    accessors, on top of the table of FdTree.v.

    One thread runs at a time: what another thread can do while a spinlock is
    dropped is not modelled, so the race checks of the code are present but
    never fire, and the wait for a descriptor that another thread has reserved
    is an answer of its own ([DupWait]). *)

From Stdlib Require Import ZArith Lia Bool.
From stdpp Require Import base list gmap.
From S2P Require Import Prelude FdTree.
Import FdTree.

Module FdOps.

Definition DTYPE_VNODE : Z := 1.
Definition DTYPE_KQUEUE : Z := 5.
Definition FHASLOCK : Z := 0x4000.
Definition VMAYHAVELOCKS : Z := 0x80.
Definition P_ADVLOCK : Z := 0x1.
Definition UF_EXCLOSE : Z := 0x1.

(** ** State *)

(** struct file; [f_klist] lists the descriptors of this table through which
    a knote is attached, [v_flag] is that of the vnode in [f_data]. *)
Record file := {
  f_count : Z;
  f_type : Z;
  f_flag : Z;
  f_badops : bool;
  f_klist : list Z;
  v_flag : Z
}.

(** struct filedesc_to_leader, with the flags of its leader. *)
Record fdtol := {
  fdl_leader : Z;
  leader_flags : Z;
  fdl_holdcount : Z;
  fdl_wakeup : Z
}.

(** Calls that leave the modelled state: the advisory locks of an owner on a
    file's vnode are released, the file's own close operation runs, its memory
    is released, a sleeper is woken. *)
Inductive event :=
  | AdvUnlock (owner : Z) (f : file_ptr)
  | FoClose (f : file_ptr)
  | Ffree (f : file_ptr)
  | WakeupLeader (leader : Z)
  | WakeupHolders.

(** The process and the kernel's file table.  [p_fdtol] holds the other members
    of the circular list of leaders, in order, when the process has one. *)
Record kernel := {
  fdp : filedesc;
  ftab : gmap Z file;
  nfiles : Z;
  p_leader : Z;
  p_leader_flags : Z;
  p_fdtol : option (list fdtol);
  trace : list event
}.

Definition set_fdp (d : filedesc) (s : kernel) : kernel :=
  {| fdp := d; ftab := ftab s; nfiles := nfiles s; p_leader := p_leader s;
     p_leader_flags := p_leader_flags s; p_fdtol := p_fdtol s; trace := trace s |}.
Definition set_ftab (t : gmap Z file) (s : kernel) : kernel :=
  {| fdp := fdp s; ftab := t; nfiles := nfiles s; p_leader := p_leader s;
     p_leader_flags := p_leader_flags s; p_fdtol := p_fdtol s; trace := trace s |}.
Definition set_knfiles (x : Z) (s : kernel) : kernel :=
  {| fdp := fdp s; ftab := ftab s; nfiles := x; p_leader := p_leader s;
     p_leader_flags := p_leader_flags s; p_fdtol := p_fdtol s; trace := trace s |}.
Definition set_fdtol (l : option (list fdtol)) (s : kernel) : kernel :=
  {| fdp := fdp s; ftab := ftab s; nfiles := nfiles s; p_leader := p_leader s;
     p_leader_flags := p_leader_flags s; p_fdtol := l; trace := trace s |}.
Definition emit (e : event) (s : kernel) : kernel :=
  {| fdp := fdp s; ftab := ftab s; nfiles := nfiles s; p_leader := p_leader s;
     p_leader_flags := p_leader_flags s; p_fdtol := p_fdtol s; trace := trace s ++ [e] |}.

Definition file_set_count (n : Z) (f : file) : file :=
  {| f_count := n; f_type := f_type f; f_flag := f_flag f; f_badops := f_badops f;
     f_klist := f_klist f; v_flag := v_flag f |}.
Definition file_set_klist (l : list Z) (f : file) : file :=
  {| f_count := f_count f; f_type := f_type f; f_flag := f_flag f; f_badops := f_badops f;
     f_klist := l; v_flag := v_flag f |}.

(** [*fp]; a file that is not in the table any more is a dangling pointer. *)
Definition get_file (s : kernel) (f : file_ptr) : outcome file :=
  match ftab s !! f with Some x => Ok x | None => Undef NullDeref end.
Definition upd_file (g : file → file) (f : file_ptr) (s : kernel) : outcome kernel :=
  let* x := get_file s f in Ok (set_ftab (<[f := g x]> (ftab s)) s).

Definition with_fdp {A} (f : filedesc → outcome (filedesc * A)) (s : kernel) :
    outcome (kernel * A) :=
  let* r := f (fdp s) in Ok (set_fdp (fst r) s, snd r).
Definition on_fdp (f : filedesc → outcome filedesc) (s : kernel) : outcome kernel :=
  let* d := f (fdp s) in Ok (set_fdp d s).

Definition has (flags bit : Z) : bool := negb (Z.land flags bit =? 0).

Section Ops.

(** The close operation of the file's type ([fo_close]): its error. *)
Context (fo_close : file_ptr → Z).

(** ** References *)

Definition fhold (f : file_ptr) (s : kernel) : outcome kernel :=
  upd_file (λ x, file_set_count (f_count x + 1) x) f s.

Definition ffree (f : file_ptr) (s : kernel) : outcome kernel :=
  let* x := get_file s f in
  kkassert (f_count x =? 0)
    (Ok (emit (Ffree f) (set_ftab (delete f (ftab s)) (set_knfiles (nfiles s - 1) s)))).

(** [atomic_fetchadd_int] returns the old count as an unsigned int. *)
Definition fdrop (f : file_ptr) (s : kernel) : outcome (kernel * Z) :=
  let* x := get_file s f in
  let old := u32 (f_count x) in
  let* s := upd_file (λ x, file_set_count (f_count x - 1) x) f s in
  if old >? 1 then Ok (s, 0)
  else
    let* x := get_file s f in
    kkassert (match f_klist x with [] => true | _ => false end)
      (if f_count x <? 0 then Panic
       else
         let s := if has (f_flag x) FHASLOCK && (f_type x =? DTYPE_VNODE)
                     && has (v_flag x) VMAYHAVELOCKS
                  then emit (AdvUnlock f f) s else s in
         let error := if f_badops x then 0 else fo_close f in
         let s := if f_badops x then s else emit (FoClose f) s in
         let* s := ffree f s in
         Ok (s, error)).

(** One turn of [closef]'s loop over the other leaders; the hold count is
    raised and lowered around the unlock. *)
Definition closef_leader (f : file_ptr) (l : fdtol) (s : kernel) : fdtol * kernel :=
  if has (leader_flags l) P_ADVLOCK then
    let s := emit (AdvUnlock (fdl_leader l) f) s in
    if (fdl_holdcount l =? 0) && negb (fdl_wakeup l =? 0)
    then ({| fdl_leader := fdl_leader l; leader_flags := leader_flags l;
             fdl_holdcount := fdl_holdcount l; fdl_wakeup := 0 |},
          emit (WakeupLeader (fdl_leader l)) s)
    else (l, s)
  else (l, s).

Fixpoint closef_leaders (f : file_ptr) (ls : list fdtol) (s : kernel) : list fdtol * kernel :=
  match ls with
  | [] => ([], s)
  | l :: ls =>
      let '(l, s) := closef_leader f l s in
      let '(ls, s) := closef_leaders f ls s in
      (l :: ls, s)
  end.

Definition closef (f : file_ptr) (s : kernel) : outcome (kernel * Z) :=
  let* x := get_file s f in
  let s :=
    if (f_type x =? DTYPE_VNODE) && has (v_flag x) VMAYHAVELOCKS then
      let s := if has (p_leader_flags s) P_ADVLOCK then emit (AdvUnlock (p_leader s) f) s else s in
      match p_fdtol s with
      | None => s
      | Some ls => let '(ls, s) := closef_leaders f ls s in set_fdtol (Some ls) s
      end
    else s in
  fdrop f s.

(** kern_event.c: the knotes attached through this descriptor go. *)
Definition knote_fdclose (f : file_ptr) (fd : Z) (s : kernel) : outcome kernel :=
  upd_file (λ x, file_set_klist (filter (λ i, i ≠ fd) (f_klist x)) x) f s.

(** The code takes the reference before it stores the pointer; the two touch
    different objects. *)
Definition fsetfd_locked (f : option file_ptr) (fd : Z) (s : kernel) : outcome kernel :=
  match f with
  | None => on_fdp (λ d, fsetfd_clear d fd) s
  | Some f =>
      let* s' := on_fdp (λ d, fsetfd_set d f fd) s in
      fhold f s'
  end.

(** ** Lookup and flags *)

(** The descriptor is checked as an unsigned number against [fd_nfiles]. *)
Definition fd_valid (d : filedesc) (fd : Z) : bool := (0 <=? fd) && (fd <? fd_nfiles d).

Definition holdfp (fd flag : Z) (s : kernel) : outcome (kernel * option file_ptr) :=
  if negb (fd_valid (fdp s) fd) then Ok (s, None)
  else
    let* n := get_node (fdp s) fd in
    match fp n with
    | None => Ok (s, None)
    | Some f =>
        let* x := get_file s f in
        if negb (has (f_flag x) flag) && negb (flag =? -1) then Ok (s, None)
        else let* s := fhold f s in Ok (s, Some f)
    end.

Definition checkfdclosed (d : filedesc) (fd : Z) (f : option file_ptr) : outcome Z :=
  if negb (fd_valid d fd) then Ok EBADF
  else let* n := get_node d fd in
       Ok (if decide (f = fp n) then 0 else EBADF).

(** The common shape of the flag accessors. *)
Definition with_flags {A} (d : filedesc) (fd : Z) (k : Z → outcome A) (e : A) : outcome A :=
  if negb (fd_valid d fd) then Ok e
  else let* n := get_node d fd in
       match fp n with None => Ok e | Some _ => k (fileflags n) end.

Definition fgetfdflags (d : filedesc) (fd : Z) : outcome (Z + Z) :=
  with_flags d fd (λ fl, Ok (inr fl)) (inl EBADF).
Definition fsetfdflags (d : filedesc) (fd add : Z) : outcome (filedesc * Z) :=
  with_flags d fd (λ fl, let* d := upd_node (node_set_flags (Z.lor fl add)) fd d in Ok (d, 0))
    (d, EBADF).
Definition fclrfdflags (d : filedesc) (fd rem : Z) : outcome (filedesc * Z) :=
  with_flags d fd (λ fl, let* d := upd_node (node_set_flags (Z.ldiff fl rem)) fd d in Ok (d, 0))
    (d, EBADF).

(** ** Closing *)

Definition hold_leaders (s : kernel) : kernel :=
  let d := fdp s in
  set_fdp {| fd_files := fd_files d; fd_nfiles := fd_nfiles d; fd_lastfile := fd_lastfile d;
             fd_freefile := fd_freefile d;
             fd_holdleaderscount := fd_holdleaderscount d + 1;
             fd_holdleaderswakeup := fd_holdleaderswakeup d |} s.

Definition release_leaders (s : kernel) : kernel :=
  let d := fdp s in
  let c := fd_holdleaderscount d - 1 in
  let wake := (c =? 0) && negb (fd_holdleaderswakeup d =? 0) in
  let s := set_fdp {| fd_files := fd_files d; fd_nfiles := fd_nfiles d;
             fd_lastfile := fd_lastfile d; fd_freefile := fd_freefile d;
             fd_holdleaderscount := c;
             fd_holdleaderswakeup := if wake then 0 else fd_holdleaderswakeup d |} s in
  if wake then emit WakeupHolders s else s.

Definition kern_close (fd : Z) (s : kernel) : outcome (kernel * Z) :=
  let* r := with_fdp (λ d, funsetfd_locked d fd) s in
  match r with
  | (s, None) => Ok (s, EBADF)
  | (s, Some f) =>
      let holdleaders := match p_fdtol s with Some _ => true | None => false end in
      let s := if holdleaders then hold_leaders s else s in
      let* s := knote_fdclose f fd s in
      let* r := closef f s in
      Ok (if holdleaders then release_leaders (fst r) else fst r, snd r)
  end.

Definition EINTR : Z := 4.

(** [fd_lastfile] is read again on every turn and only falls. *)
Fixpoint closefrom_loop (fuel : nat) (fd : Z) (s : kernel) : outcome (kernel * Z) :=
  match fuel with
  | O => NoFuel
  | S fuel =>
      if fd <=? fd_lastfile (fdp s) then
        let* n := get_node (fdp s) fd in
        match fp n with
        | Some _ =>
            let* r := kern_close fd s in
            if snd r =? EINTR then Ok (fst r, EINTR)
            else closefrom_loop fuel (fd + 1) (fst r)
        | None => closefrom_loop fuel (fd + 1) s
        end
      else Ok (s, 0)
  end.

Definition kern_closefrom (fd : Z) (s : kernel) : outcome (kernel * Z) :=
  if fd <? 0 then Ok (s, EINVAL)
  else closefrom_loop (S (Z.to_nat (fd_nfiles (fdp s)))) fd s.

(** Close-on-exec. *)
Fixpoint closeexec_loop (fuel : nat) (i : Z) (s : kernel) : outcome kernel :=
  match fuel with
  | O => NoFuel
  | S fuel =>
      if i <=? fd_lastfile (fdp s) then
        let* n := get_node (fdp s) i in
        let* s :=
          match fp n with
          | Some _ =>
              if has (fileflags n) UF_EXCLOSE then
                let* r := with_fdp (λ d, funsetfd_locked d i) s in
                match r with
                | (s, Some f) =>
                    let* s := knote_fdclose f i s in
                    let* r := closef f s in Ok (fst r)
                | (s, None) => Ok s
                end
              else Ok s
          | None => Ok s
          end in
        closeexec_loop fuel (i + 1) s
      else Ok s
  end.

Definition fdcloseexec (s : kernel) : outcome kernel :=
  closeexec_loop (S (Z.to_nat (fd_nfiles (fdp s)))) 0 s.

(** ** Duplication *)

Inductive dup_type := DUP_FIXED | DUP_VARIABLE.

#[export] Instance dup_type_eq_dec : EqDecision dup_type.
Proof. solve_decision. Defined.

Inductive dup_result :=
  | DupErr (e : Z)
  | DupOk (fd : Z)
  | DupWait.

Definition is_variable (t : dup_type) : bool :=
  match t with DUP_VARIABLE => true | DUP_FIXED => false end.

(** The tail of [kern_dup]: the reserved target takes the file; a file it
    displaced is closed. *)
Definition dup_finish (f : file_ptr) (oldflags new : Z) (delfp : option file_ptr)
    (s : kernel) : outcome (kernel * dup_result) :=
  let holdleaders := match delfp, p_fdtol s with Some _, Some _ => true | _, _ => false end in
  let s := if holdleaders then hold_leaders s else s in
  let* s := fsetfd_locked (Some f) new s in
  let* s := on_fdp (upd_node (node_set_flags (Z.ldiff oldflags UF_EXCLOSE)) new) s in
  let* r := fdrop f s in
  match delfp with
  | None => Ok (fst r, DupOk new)
  | Some g =>
      let* s := knote_fdclose g new (fst r) in
      let* r := closef g s in
      Ok (if holdleaders then release_leaders (fst r) else fst r, DupOk new)
  end.

(** The [else] branch: the target inside the table is made a reservation; the
    file it held is handed to the tail. *)
Definition dup_reserve (new : Z) (d : filedesc) : outcome (filedesc * option file_ptr) :=
  let* n := get_node d new in
  let delfp := fp n in
  let* d := upd_node (node_set_fp None) new d in
  let* d := upd_node (node_set_reserved 1) new d in
  match delfp with
  | Some _ => Ok (d, delfp)
  | None =>
      let* d := fdreserve_locked d new 1 in
      Ok (if new >? fd_lastfile d then set_lastfile new d else d, None)
  end.

Fixpoint kern_dup (fuel : nat) (p : limits) (t : dup_type) (old new : Z) (s : kernel) :
    outcome (kernel * dup_result) :=
  match fuel with
  | O => NoFuel
  | S fuel =>
      let dtsize := dtable_limit p in
      if (new <? 0) || (new >? dtsize) then Ok (s, DupErr EINVAL)
      else if negb (fd_valid (fdp s) old) then Ok (s, DupErr EBADF)
      else
        let* n := get_node (fdp s) old in
        match fp n with
        | None => Ok (s, DupErr EBADF)
        | Some f =>
            if negb (is_variable t) && (old =? new) then Ok (s, DupOk new)
            else
              let oldflags := fileflags n in
              let* s := fhold f s in
              if is_variable t || (new >=? fd_nfiles (fdp s)) then
                let* r := fdalloc p (fdp s) new in
                match r with
                | inl e => let* r := fdrop f s in Ok (fst r, DupErr e)
                | inr (d, newfd) =>
                    let s := set_fdp d s in
                    let* m := get_node (fdp s) old in
                    if negb (bool_decide (fp m = Some f)) ||
                       (negb (is_variable t) && negb (new =? newfd)) || (old =? newfd)
                    then
                      let* s := fsetfd_locked None newfd s in
                      let* r := fdrop f s in
                      kern_dup fuel p t old new (fst r)
                    else dup_finish f oldflags newfd None s
                end
              else
                let* m := get_node (fdp s) new in
                if negb (reserved m =? 0) then
                  let* r := fdrop f s in Ok (fst r, DupWait)
                else
                  let* r := with_fdp (dup_reserve new) s in
                  dup_finish f oldflags new (snd r) (fst r)
        end
  end.

(** ** Copying a table (fork) *)

Fixpoint shrink_size (fuel : nat) (i lastfile : Z) : outcome Z :=
  match fuel with
  | O => NoFuel
  | S fuel =>
      let ni := (i - 1) / 2 in
      if (ni >? lastfile) && (ni >? NDFILE) then shrink_size fuel ni lastfile else Ok i
  end.

Definition copy_size (d : filedesc) : outcome Z :=
  if fd_lastfile d <? NDFILE then Ok NDFILE
  else shrink_size 32 (fd_nfiles d) (fd_lastfile d).

(** The clean-up scan over the copied slots: reservations and kqueues do not
    survive, every other file gains a reference. *)
Fixpoint copy_scan (fuel : nat) (i : Z) (d : filedesc) (s : kernel) :
    outcome (filedesc * kernel) :=
  match fuel with
  | O => Ok (d, s)
  | S fuel =>
      let* n := get_node d i in
      if negb (reserved n =? 0) then
        let* d := fdreserve_locked d i (-1) in
        let* d := upd_node (node_set_reserved 0) i d in
        let* d := fdfixup_locked d i in
        copy_scan fuel (i + 1) d s
      else
        match fp n with
        | None => copy_scan fuel (i + 1) d s
        | Some f =>
            let* x := get_file s f in
            if f_type x =? DTYPE_KQUEUE then
              let* r := funsetfd_locked d i in copy_scan fuel (i + 1) (fst r) s
            else let* s := fhold f s in copy_scan fuel (i + 1) d s
        end
  end.

Definition fdcopy (s : kernel) : outcome (filedesc * kernel) :=
  let d := fdp s in
  let* i := copy_size d in
  let newfdp := {| fd_files := take (Z.to_nat i) (fd_files d); fd_nfiles := i;
                   fd_lastfile := fd_lastfile d; fd_freefile := fd_freefile d;
                   fd_holdleaderscount := 0; fd_holdleaderswakeup := 0 |} in
  copy_scan (Z.to_nat i) 0 newfdp s.

End Ops.

(** * Theorems *)

(** ** The reference invariant *)

(** The file a descriptor refers to. *)
Definition fp_at (d : filedesc) (i : Z) : option file_ptr :=
  match view_at d i with Some (o, _, _) => o | None => None end.

Definition refers (d : filedesc) (x : file_ptr) (i : Z) : bool := bool_decide (fp_at d i = Some x).

(** How many descriptors refer to [x]. *)
Definition refs (d : filedesc) (x : file_ptr) : Z := count (refers d x) 0 (fd_nfiles d).

(** A reserved slot refers to no file. *)
Definition exclusive (d : filedesc) : Prop :=
  ∀ i x fl r, view_at d i = Some (Some x, fl, r) → r = 0.

(** The count of every live file is the number of descriptors that refer to it
    plus the references [ext] held elsewhere, at most [b]; no descriptor
    dangles. *)
Record refs_ok (b : Z) (ext : Z → Z) (d : filedesc) (t : gmap Z file) : Prop := {
  ref_tree : tree_ok d;
  ref_excl : exclusive d;
  ref_live : ∀ i x, fp_at d i = Some x → is_Some (t !! x);
  ref_count : ∀ x f, t !! x = Some f → f_count f = refs d x + ext x ∧ 1 ≤ f_count f ≤ b;
  ref_ext : ∀ x, 0 ≤ ext x
}.

(** Knotes are attached through descriptors that refer to their file. *)
Definition klist_ok (d : filedesc) (t : gmap Z file) : Prop :=
  ∀ x f i, t !! x = Some f → i ∈ f_klist f → fp_at d i = Some x.

Definition shift (ext : Z → Z) (x : Z) (n : Z) : Z → Z :=
  λ y, if decide (y = x) then ext y + n else ext y.

Definition kernel_ok (b : Z) (ext : Z → Z) (s : kernel) : Prop :=
  refs_ok b ext (fdp s) (ftab s) ∧ klist_ok (fdp s) (ftab s).

Definition b01 (b : bool) : Z := if b then 1 else 0.

Lemma fp_at_range d i x : fp_at d i = Some x → 0 ≤ i < len (fd_files d).
Proof.
  unfold fp_at, view_at. destruct (slot (fd_files d) i) eqn:E; [|done].
  intros _. by eapply slot_range.
Qed.

Lemma fp_at_view d i x : exclusive d → fp_at d i = Some x → ∃ fl, view_at d i = Some (Some x, fl, 0).
Proof.
  intros He. unfold fp_at. destruct (view_at d i) as [[[o fl] r]|] eqn:E; [|done].
  intros ->. exists fl. by rewrite (He _ _ _ _ E).
Qed.

Lemma slot_changed_fp f o fl r d d' i :
  slot_changed f (o, fl, r) d d' → fp_at d' i = if decide (i = f) then o else fp_at d i.
Proof.
  intros (_ & _ & Hf & Ho). unfold fp_at. case_decide as E; [by rewrite E, Hf|by rewrite Ho].
Qed.

Lemma slot_changed_refs f o fl r d d' x :
  slot_changed f (o, fl, r) d d' → 0 ≤ f < fd_nfiles d →
  refs d' x = refs d x + b01 (bool_decide (o = Some x)) - b01 (bool_decide (fp_at d f = Some x)).
Proof.
  intros Hc Hf. unfold refs. destruct Hc as (Hn & Hl & Hv & Ho) eqn:E. rewrite Hn.
  rewrite (count_update (refers d x) (refers d' x) _ _ f).
  - unfold refers. rewrite (slot_changed_fp _ _ _ _ _ _ f Hc), decide_True by done. done.
  - done.
  - intros j Hj Hne. unfold refers.
    by rewrite (slot_changed_fp _ _ _ _ _ _ j Hc), decide_False.
Qed.

Lemma slot_changed_exclusive f o fl r d d' :
  slot_changed f (o, fl, r) d d' → exclusive d → (∀ x, o = Some x → r = 0) → exclusive d'.
Proof.
  intros (_ & _ & Hf & Ho) He Hr i x fl' r'. destruct (decide (i = f)) as [->|Hi].
  - rewrite Hf. intros [= -> <- <-]. by apply (Hr x).
  - rewrite Ho by done. apply He.
Qed.

(** Files beyond the table do not count. *)
Lemma refs_wide d x n :
  tree_ok d → fd_nfiles d ≤ n → count (refers d x) 0 n = refs d x.
Proof.
  intros Hok Hn. unfold refs. pose proof (size_bound _ (ok_size d Hok)).
  rewrite (count_app _ 0 (fd_nfiles d)) by lia.
  rewrite (count_ext _ (λ _, false) (fd_nfiles d)).
  - unfold count at 2. generalize (Z.to_nat (n - fd_nfiles d)) as k.
    induction k; cbn [count_n]; lia.
  - intros i Hi. unfold refers. apply bool_decide_eq_false. intros E%fp_at_range.
    rewrite (ok_len d Hok) in Hi. lia.
Qed.


(** The counts transfer to a table and a file map with the same sums. *)
Lemma refs_ok_move b b' ext ext' d d' t t' :
  refs_ok b ext d t → tree_ok d' → exclusive d' →
  (∀ i x, fp_at d' i = Some x → is_Some (t' !! x)) →
  (∀ x f', t' !! x = Some f' → f_count f' = refs d' x + ext' x ∧ 1 ≤ f_count f' ≤ b') →
  (∀ x, 0 ≤ ext' x) → refs_ok b' ext' d' t'.
Proof. intros. by split. Qed.


Lemma refs_nonneg d x : 0 ≤ refs d x.
Proof. apply count_nonneg. Qed.

Lemma refs_pos d i x : tree_ok d → fp_at d i = Some x → 1 ≤ refs d x.
Proof.
  intros Hok Hi. pose proof (fp_at_range _ _ _ Hi) as Hr. unfold refs.
  rewrite <- (ok_len d Hok) in Hr.
  rewrite (count_app _ 0 i), (count_app _ i (i + 1)), count_one by lia.
  unfold refers at 2. rewrite bool_decide_true by done.
  pose proof (count_nonneg (refers d x) 0 i).
  pose proof (count_nonneg (refers d x) (i + 1) (fd_nfiles d)). lia.
Qed.

Lemma refs_zero d i x : tree_ok d → refs d x = 0 → fp_at d i ≠ Some x.
Proof. intros Hok H0 Hi. pose proof (refs_pos d i x Hok Hi). lia. Qed.


(** ** Taking and dropping a reference *)


Lemma klist_ok_count d t x f n :
  klist_ok d t → t !! x = Some f → klist_ok d (<[x := file_set_count n f]> t).
Proof.
  intros H Hx y g i. rewrite lookup_insert. case_decide as E; [subst|by apply H].
  intros [= <-]. by apply (H _ _ _ Hx).
Qed.


(** The file map after a reference to [x] is dropped. *)
Definition dropped (t : gmap Z file) (x : file_ptr) (f : file) : gmap Z file :=
  if 1 <? f_count f then <[x := file_set_count (f_count f - 1) f]> t else delete x t.

Lemma dropped_refs_ok b ext d t x f :
  refs_ok b ext d t → t !! x = Some f → 1 ≤ ext x →
  refs_ok b (shift ext x (-1)) d (dropped t x f).
Proof.
  intros [H1 H2 H3 H4 H5] Hx He. destruct (H4 _ _ Hx) as [Hc Hb]. unfold dropped.
  assert (Hext : ∀ y, 0 ≤ shift ext x (-1) y).
  { intros y. unfold shift. specialize (H5 y). case_decide as E; [rewrite E|]; lia. }
  destruct (1 <? f_count f) eqn:E; bool_prop.
  - split; try done.
    + intros i y Hi. rewrite lookup_insert. case_decide; [by eexists|by apply (H3 i)].
    + intros y g. unfold shift. destruct (decide (y = x)) as [->|Hne].
      * rewrite lookup_insert_eq. intros [= <-]. cbn [f_count file_set_count]. lia.
      * rewrite lookup_insert_ne by done. intros Hy. destruct (H4 _ _ Hy). lia.
  - split; try done.
    + intros i y Hi. rewrite lookup_delete. case_decide as E1; [|by apply (H3 i)].
      subst y. exfalso. apply (refs_zero d i x H1); [|done].
      pose proof (refs_nonneg d x). lia.
    + intros y g. unfold shift. destruct (decide (y = x)) as [->|Hne].
      * by rewrite lookup_delete_eq.
      * rewrite lookup_delete_ne by done. by apply H4.
Qed.

Lemma dropped_klist_ok d t x f :
  klist_ok d t → t !! x = Some f → klist_ok d (dropped t x f).
Proof.
  intros Hk Hx. unfold dropped. destruct (1 <? f_count f); [by apply klist_ok_count|].
  intros y g i. rewrite lookup_delete. case_decide; [done|]. by apply Hk.
Qed.

(** The result of the close operation, when it runs. *)
Definition drop_error (fo_close : file_ptr → Z) (x : file_ptr) (f : file) : Z :=
  if 1 <? f_count f then 0 else if f_badops f then 0 else fo_close x.

(** Dropping a reference that is held outside the table. *)
Lemma fdrop_spec fo_close b ext s x f :
  refs_ok b ext (fdp s) (ftab s) → ftab s !! x = Some f → 1 ≤ ext x → b < 4294967296 →
  (f_count f = 1 → f_klist f = []) →
  ∃ s', fdrop fo_close x s = Ok (s', drop_error fo_close x f) ∧ fdp s' = fdp s ∧
    p_fdtol s' = p_fdtol s ∧ ftab s' = dropped (ftab s) x f.
Proof.
  intros Hr Hx He Hb Hk. destruct (ref_count _ _ _ _ Hr _ _ Hx) as [Hc Hcb].
  unfold fdrop, upd_file, get_file. rewrite Hx. cbn [obind].
  rewrite unsigned_of_small by (unfold is_u; lia). unfold drop_error, dropped.
  destruct (1 <? f_count f) eqn:E; bool_prop.
  { replace (f_count f >? 1) with true by (symmetry; rewrite Z.gtb_ltb; apply Z.ltb_lt; lia).
    eexists. split; [done|]. done. }
  replace (f_count f >? 1) with false by (symmetry; rewrite Z.gtb_ltb; apply Z.ltb_ge; lia).
  cbn [ftab set_ftab]. rewrite lookup_insert_eq.
  cbn [obind f_klist file_set_count f_count f_badops f_flag f_type v_flag].
  rewrite Hk by lia. cbn [kkassert].
  replace (f_count f - 1) with 0 by lia. cbn [Z.ltb Z.compare].
  set (c := has (f_flag f) FHASLOCK && (f_type f =? DTYPE_VNODE) && has (v_flag f) VMAYHAVELOCKS).
  set (t := <[x:=file_set_count 0 f]> (ftab s)). unfold ffree, get_file.
  destruct c, (f_badops f); cbn [ftab set_ftab emit fdp nfiles p_fdtol];
    unfold t; rewrite lookup_insert_eq; cbn [obind f_count file_set_count Z.eqb kkassert];
    (eexists; split; [done|]; cbn [ftab set_ftab emit fdp p_fdtol set_knfiles];
     split_and!; [done..|by rewrite delete_insert_eq]).
Qed.

(** [closef]'s walk over the leaders only records unlocks. *)
Lemma closef_leaders_frame f ls s :
  fdp (snd (closef_leaders f ls s)) = fdp s ∧ ftab (snd (closef_leaders f ls s)) = ftab s.
Proof.
  revert s. induction ls as [|l ls IH]; intros s; [done|]. cbn [closef_leaders].
  assert (H1 : fdp (snd (closef_leader f l s)) = fdp s ∧ ftab (snd (closef_leader f l s)) = ftab s).
  { unfold closef_leader. by destruct (has (leader_flags l) P_ADVLOCK);
      destruct ((fdl_holdcount l =? 0) && negb (fdl_wakeup l =? 0)). }
  destruct (closef_leader f l s) as [l' s1]. specialize (IH s1).
  destruct (closef_leaders f ls s1) as [ls' s2]. cbn [snd] in *.
  destruct IH as [-> ->]. done.
Qed.

Lemma closef_frame (x : file) f s :
  let s' :=
    if (f_type x =? DTYPE_VNODE) && has (v_flag x) VMAYHAVELOCKS then
      let s := if has (p_leader_flags s) P_ADVLOCK then emit (AdvUnlock (p_leader s) f) s else s in
      match p_fdtol s with
      | None => s
      | Some ls => let '(ls, s) := closef_leaders f ls s in set_fdtol (Some ls) s
      end
    else s in
  fdp s' = fdp s ∧ ftab s' = ftab s.
Proof.
  cbn zeta. destruct (_ && _); [|done].
  set (s1 := if has (p_leader_flags s) P_ADVLOCK then _ else _).
  assert (E : fdp s1 = fdp s ∧ ftab s1 = ftab s) by (unfold s1; by case_match).
  destruct (p_fdtol s1) as [ls|]; [|done].
  pose proof (closef_leaders_frame f ls s1) as [H1 H2].
  destruct (closef_leaders f ls s1). cbn [snd fdp ftab set_fdtol] in *.
  destruct E. split; congruence.
Qed.

Lemma closef_spec fo_close b ext s x f :
  refs_ok b ext (fdp s) (ftab s) → ftab s !! x = Some f → 1 ≤ ext x → b < 4294967296 →
  (f_count f = 1 → f_klist f = []) →
  ∃ s', closef fo_close x s = Ok (s', drop_error fo_close x f) ∧ fdp s' = fdp s ∧
    ftab s' = dropped (ftab s) x f.
Proof.
  intros Hr Hx He Hb Hk. unfold closef, get_file. rewrite Hx. cbn [obind].
  pose proof (closef_frame f x s) as [E1 E2]. cbn zeta in E1, E2.
  set (s1 := if _ && _ then _ else s) in *. clearbody s1.
  destruct (fdrop_spec fo_close b ext s1 x f) as (s' & -> & F1 & _ & F2);
    [by rewrite E1, E2|by rewrite E2|done..|].
  exists s'. split_and!; [done|congruence|congruence].
Qed.


(** ** Moving references between a descriptor and the running thread *)

Lemma refs_ok_ext b ext ext' d t :
  (∀ y, ext y = ext' y) → refs_ok b ext d t → refs_ok b ext' d t.
Proof.
  intros E [H1 H2 H3 H4 H5]. split; try done.
  - intros x f Hx. rewrite <- E. by apply H4.
  - intros x. by rewrite <- E.
Qed.

Lemma shift_back ext x n y : shift (shift ext x n) x (- n) y = ext y.
Proof. unfold shift. case_decide; lia. Qed.

Lemma shift_forth ext x n y : shift (shift ext x (- n)) x n y = ext y.
Proof. unfold shift. case_decide; lia. Qed.

(** Emptying a slot hands its reference to the thread. *)
Lemma refs_ok_take b ext d d' t i x fl :
  refs_ok b ext d t → tree_ok d' → fp_at d i = Some x →
  slot_changed i (None, fl, 0) d d' ∨ slot_changed i (None, fl, 1) d d' →
  refs_ok b (shift ext x 1) d' t.
Proof.
  intros [H1 H2 H3 H4 H5] Hok Hi Hc'.
  assert (∃ r, slot_changed i (None, fl, r) d d') as [r Hc] by (destruct Hc'; eauto).
  clear Hc'. pose proof (fp_at_range _ _ _ Hi) as Hr. rewrite <- (ok_len d H1) in Hr.
  split; [done| | | |].
  - by apply (slot_changed_exclusive _ _ _ _ _ _ Hc).
  - intros j y. rewrite (slot_changed_fp _ _ _ _ _ _ j Hc). case_decide; [done|]. apply H3.
  - intros y f Hy. destruct (H4 y f Hy) as [Hcnt Hb].
    rewrite (slot_changed_refs _ _ _ _ _ _ y Hc) by done. rewrite Hi.
    rewrite (bool_decide_false (None = Some y)) by done. cbn [b01]. unfold shift.
    case_decide as E.
    + subst. rewrite bool_decide_true by done. cbn [b01]. lia.
    + rewrite bool_decide_false by congruence. cbn [b01]. lia.
  - intros y. unfold shift. specialize (H5 y). case_decide; lia.
Qed.

(** Filling an empty slot takes the reference from the thread. *)
Lemma refs_ok_give b ext d d' t i x fl :
  refs_ok b ext d t → tree_ok d' → fp_at d i = None → 0 ≤ i < fd_nfiles d →
  1 ≤ ext x → is_Some (t !! x) → slot_changed i (Some x, fl, 0) d d' →
  refs_ok b (shift ext x (-1)) d' t.
Proof.
  intros [H1 H2 H3 H4 H5] Hok Hi Hr He Hx Hc. split; [done| | | |].
  - by apply (slot_changed_exclusive _ _ _ _ _ _ Hc).
  - intros j y. rewrite (slot_changed_fp _ _ _ _ _ _ j Hc). case_decide; [|apply H3].
    intros [= <-]. done.
  - intros y f Hy. destruct (H4 y f Hy) as [Hcnt Hb].
    rewrite (slot_changed_refs _ _ _ _ _ _ y Hc) by done. rewrite Hi.
    rewrite (bool_decide_false (None = Some y)) by done. cbn [b01]. unfold shift.
    case_decide as E.
    + subst. rewrite bool_decide_true by done. cbn [b01]. lia.
    + rewrite bool_decide_false by congruence. cbn [b01]. lia.
  - intros y. unfold shift. specialize (H5 y). case_decide as E; [rewrite E|]; lia.
Qed.

(** An update of a slot that keeps its file. *)
Lemma refs_ok_same b ext d d' t :
  refs_ok b ext d t → tree_ok d' → exclusive d' → fd_nfiles d ≤ fd_nfiles d' →
  (∀ i, fp_at d' i = fp_at d i) → refs_ok b ext d' t.
Proof.
  intros [H1 H2 H3 H4 H5] Hok He Hn Hf.
  assert (Hr : ∀ x, refs d' x = refs d x).
  { intros x. rewrite <- (refs_wide d x (fd_nfiles d')) by done. unfold refs.
    apply count_ext. intros i _. unfold refers. by rewrite Hf. }
  split; try done.
  - intros i x. rewrite Hf. apply H3.
  - intros x f Hx. rewrite Hr. by apply H4.
Qed.

Lemma refs_ok_leaders b ext d t c w :
  refs_ok b ext d t →
  refs_ok b ext {| fd_files := fd_files d; fd_nfiles := fd_nfiles d;
                   fd_lastfile := fd_lastfile d; fd_freefile := fd_freefile d;
                   fd_holdleaderscount := c; fd_holdleaderswakeup := w |} t.
Proof.
  intros H. apply (refs_ok_same _ _ d); [done| | |cbn; lia|done].
  - destruct (ref_tree _ _ _ _ H) as [G1 G2 G3 G4 G5]. by split.
  - exact (ref_excl _ _ _ _ H).
Qed.

Lemma refs_ok_klist b ext d t x f l :
  refs_ok b ext d t → t !! x = Some f → refs_ok b ext d (<[x := file_set_klist l f]> t).
Proof.
  intros [H1 H2 H3 H4 H5] Hx. split; try done.
  - intros i y Hi. rewrite lookup_insert. case_decide; [by eexists|by apply (H3 i)].
  - intros y g. destruct (decide (y = x)) as [->|Hne].
    + rewrite lookup_insert_eq. intros [= <-]. by apply (H4 _ _ Hx).
    + rewrite lookup_insert_ne by done. apply H4.
Qed.

(** The knotes of [x] may still name descriptor [i], which no longer refers
    to it: the state between [funsetfd] and [knote_fdclose]. *)
Definition klist_but (x : file_ptr) (i : Z) (d : filedesc) (t : gmap Z file) : Prop :=
  ∀ y f j, t !! y = Some f → j ∈ f_klist f → fp_at d j = Some y ∨ (y = x ∧ j = i).

Lemma klist_but_close x i d t f :
  klist_but x i d t → t !! x = Some f →
  klist_ok d (<[x := file_set_klist (filter (λ j, j ≠ i) (f_klist f)) f]> t).
Proof.
  intros H Hx y g j. destruct (decide (y = x)) as [->|Hne].
  - rewrite lookup_insert_eq. intros [= <-]. cbn [f_klist file_set_klist].
    rewrite list_elem_of_filter. intros [Hji Hj]. by destruct (H _ _ _ Hx Hj) as [|[_ ?]].
  - rewrite lookup_insert_ne by done. intros Hy Hj.
    by destruct (H _ _ _ Hy Hj) as [|[? _]].
Qed.

Lemma klist_nil d t x f :
  tree_ok d → klist_ok d t → t !! x = Some f → refs d x = 0 → f_klist f = [].
Proof.
  intros Hok Hk Hx H0. destruct (f_klist f) as [|j l] eqn:E; [done|]. exfalso.
  apply (refs_zero d j x Hok H0). apply (Hk x f j Hx). rewrite E. by left.
Qed.

Definition closed_klist (i : Z) (f : file) : file :=
  file_set_klist (filter (λ j, j ≠ i) (f_klist f)) f.

(** [knote_fdclose] and [closef] of a file whose reference the thread took
    from descriptor [i]. *)
Lemma close_taken fo_close b ext s x f i :
  refs_ok b (shift ext x 1) (fdp s) (ftab s) → klist_but x i (fdp s) (ftab s) →
  ftab s !! x = Some f → 0 ≤ ext x → b < 4294967296 →
  ∃ s1 s', knote_fdclose x i s = Ok s1 ∧
    closef fo_close x s1 = Ok (s', drop_error fo_close x f) ∧
    fdp s' = fdp s ∧ ftab s' = dropped (<[x := closed_klist i f]> (ftab s)) x (closed_klist i f) ∧
    refs_ok b ext (fdp s') (ftab s') ∧ klist_ok (fdp s') (ftab s').
Proof.
  intros Hr Hk Hx He Hb.
  assert (Hx1 : <[x := closed_klist i f]> (ftab s) !! x = Some (closed_klist i f))
    by apply lookup_insert_eq.
  assert (Hr1 : refs_ok b (shift ext x 1) (fdp s) (<[x := closed_klist i f]> (ftab s)))
    by (by apply refs_ok_klist).
  assert (Hk1 : klist_ok (fdp s) (<[x := closed_klist i f]> (ftab s)))
    by (by apply (klist_but_close x i)).
  unfold knote_fdclose, upd_file, get_file. rewrite Hx. cbn [obind].
  exists (set_ftab (<[x := closed_klist i f]> (ftab s)) s).
  set (s1 := set_ftab _ s).
  assert (He1 : shift ext x 1 x = ext x + 1) by (unfold shift; by rewrite decide_True).
  destruct (closef_spec fo_close b (shift ext x 1) s1 x (closed_klist i f)) as (s' & E & F1 & F2);
    [done|done|lia|done| |].
  { intros Hc1. apply (klist_nil (fdp s) (ftab s1) x); [apply Hr1|done|done|].
    destruct (ref_count _ _ _ _ Hr1 _ _ Hx1) as [Hc2 _]. pose proof (refs_nonneg (fdp s) x). lia. }
  exists s'. split_and!; [done|exact E|by rewrite F1|by rewrite F2| |].
  - rewrite F1, F2. apply (refs_ok_ext _ (shift (shift ext x 1) x (-1))).
    + intros y. apply (shift_back ext x 1 y).
    + apply dropped_refs_ok; [done|done|lia].
  - rewrite F1, F2. by apply dropped_klist_ok.
Qed.

Lemma set_fdp_id s : set_fdp (fdp s) s = s.
Proof. by destruct s. Qed.

Lemma klist_ok_but d d' t i x fl r :
  klist_ok d t → exclusive d → fp_at d i = Some x → slot_changed i (None, fl, r) d d' →
  klist_but x i d' t.
Proof.
  intros Hk He Hi Hc y f j Hy Hj. pose proof (Hk y f j Hy Hj) as Hfj.
  rewrite (slot_changed_fp _ _ _ _ _ _ j Hc). case_decide as E; [|by left].
  right. subst. split; congruence.
Qed.


(** ** Closing a descriptor *)

(** The file map after the close of descriptor [i], which referred to [x]. *)
Definition closed_files (t : gmap Z file) (x : file_ptr) (i : Z) (f : file) : gmap Z file :=
  dropped (<[x := closed_klist i f]> t) x (closed_klist i f).

Lemma kern_close_spec fo_close b ext s fd x f :
  kernel_ok b ext s → b < 4294967296 → fp_at (fdp s) fd = Some x → ftab s !! x = Some f →
  ∃ s', kern_close fo_close fd s = Ok (s', drop_error fo_close x f) ∧ kernel_ok b ext s' ∧
    (∀ i, fp_at (fdp s') i = if decide (i = fd) then None else fp_at (fdp s) i) ∧
    ftab s' = closed_files (ftab s) x fd f ∧ fd_nfiles (fdp s') = fd_nfiles (fdp s).
Proof.
  intros [Hr Hk] Hb Hfd Hx. destruct (fp_at_view _ _ _ (ref_excl _ _ _ _ Hr) Hfd) as [fl Hv].
  pose proof (funsetfd_spec (fdp s) fd (ref_tree _ _ _ _ Hr)) as H. rewrite Hv in H.
  destruct (H eq_refl) as (d' & Ed & Hok' & Hc). clear H.
  unfold kern_close, with_fdp. rewrite Ed. cbn [obind fst snd].
  assert (Hr1 : refs_ok b (shift ext x 1) d' (ftab s))
    by (apply (refs_ok_take b ext (fdp s) d' (ftab s) fd x 0); eauto).
  assert (Hk1 : klist_but x fd d' (ftab s))
    by (apply (klist_ok_but (fdp s) d' _ _ _ 0 0); [done|apply Hr|done|done]).
  pose proof (ref_ext _ _ _ _ Hr x) as Hext.
  set (hl := match p_fdtol (set_fdp d' s) with Some _ => true | None => false end).
  set (s1 := if hl then hold_leaders (set_fdp d' s) else set_fdp d' s).
  assert (Hs1 : refs_ok b (shift ext x 1) (fdp s1) (ftab s1) ∧ klist_but x fd (fdp s1) (ftab s1)
    ∧ ftab s1 = ftab s ∧ (∀ i, fp_at (fdp s1) i = fp_at d' i) ∧ fd_nfiles (fdp s1) = fd_nfiles d').
  { unfold s1. destruct hl; [|done]. split_and!; try done. by apply refs_ok_leaders. }
  destruct Hs1 as (Hr2 & Hk2 & Et & Ef & En).
  destruct (close_taken fo_close b ext s1 x f fd) as (s2 & s3 & -> & E3 & F1 & F2 & Hr3 & Hk3);
    [done|done|by rewrite Et|done|done|].
  cbn [obind]. rewrite E3. cbn [obind fst snd].
  assert (Hfin : kernel_ok b ext s3 ∧
    (∀ i, fp_at (fdp s3) i = if decide (i = fd) then None else fp_at (fdp s) i) ∧
    ftab s3 = closed_files (ftab s) x fd f ∧ fd_nfiles (fdp s3) = fd_nfiles (fdp s)).
  { split_and!; [done| | |].
    - intros i. rewrite F1, Ef. apply (slot_changed_fp _ _ _ _ _ _ i Hc).
    - by rewrite F2, Et.
    - rewrite F1, En. apply Hc. }
  destruct hl; [|by exists s3].
  exists (release_leaders s3). split; [done|].
  destruct Hfin as ([G1 G2] & G3 & G4 & G5). unfold release_leaders.
  set (c := _ && _). destruct c; split_and!; try done; (split; [by apply refs_ok_leaders|done]).
Qed.

Lemma kern_close_bad fo_close b ext s fd :
  kernel_ok b ext s → fp_at (fdp s) fd = None → kern_close fo_close fd s = Ok (s, EBADF).
Proof.
  intros [Hr Hk] Hfd. pose proof (funsetfd_spec (fdp s) fd (ref_tree _ _ _ _ Hr)) as H.
  unfold fp_at in Hfd. destruct (view_at (fdp s) fd) as [[[[]]]|]; try done;
    unfold kern_close, with_fdp; rewrite H; cbn [obind fst snd]; by rewrite set_fdp_id.
Qed.

(** ** Duplicating a descriptor *)























(** ** Closing many descriptors *)

Lemma unused_fp d i : used d i = false → fp_at d i = None.
Proof. rewrite used_view. unfold fp_at. by destruct (view_at d i) as [[[[]]]|]. Qed.

Lemma above_lastfile d i : tree_ok d → fd_lastfile d < i → fp_at d i = None.
Proof. intros Hok Hi. apply unused_fp. destruct (ok_lastfile _ Hok) as [[_ H] _]. by apply H. Qed.

Lemma lastfile_view d i :
  tree_ok d → 0 ≤ i ≤ fd_lastfile d → ∃ n, get_node d i = Ok n ∧ view_at d i = Some (view n).
Proof.
  intros Hok Hi. destruct (ok_lastfile _ Hok) as [[H _] _]. rewrite (ok_len _ Hok) in H.
  destruct (slot_Some (fd_files d) i) as [n Hn]; [lia|].
  exists n. split; [by apply aget_slot|]. unfold view_at. by rewrite Hn.
Qed.

Lemma closefrom_loop_spec fo_close b ext fuel : ∀ fd s,
  kernel_ok b ext s → b < 4294967296 → 0 ≤ fd → Z.max 0 (fd_nfiles (fdp s) - fd) < Z.of_nat fuel →
  ∃ s' e, closefrom_loop fo_close fuel fd s = Ok (s', e) ∧ kernel_ok b ext s' ∧
    fd_nfiles (fdp s') = fd_nfiles (fdp s) ∧
    (∀ i, i < fd → fp_at (fdp s') i = fp_at (fdp s) i) ∧
    ((e = 0 ∧ ∀ i, fd ≤ i → fp_at (fdp s') i = None) ∨
     (e = EINTR ∧ ∃ x, fo_close x = EINTR)).
Proof.
  induction fuel as [|fuel IH]; intros fd s Hs Hb Hfd Hf.
  { lia. }
  pose proof Hs as [Hr Hk]. pose proof (ref_tree _ _ _ _ Hr) as Hok. cbn [closefrom_loop].
  pose proof (proj1 (proj1 (ok_lastfile _ Hok))) as Hlast.
  destruct (fd <=? fd_lastfile (fdp s)) eqn:El; bool_prop.
  2:{ exists s, 0. split_and!; try done. left. split; [done|].
      intros i Hi. apply above_lastfile; [done|lia]. }
  destruct (lastfile_view (fdp s) fd Hok) as (n & -> & Hv); [lia|]. cbn [obind].
  assert (Hfp : fp_at (fdp s) fd = fp n) by (unfold fp_at; by rewrite Hv).
  destruct (fp n) as [x|].
  - destruct (ref_live _ _ _ _ Hr _ _ Hfp) as [f Hx].
    destruct (kern_close_spec fo_close b ext s fd x f Hs Hb Hfp Hx) as (s1 & -> & Hs1 & Ho & _ & Hn).
    cbn [obind fst snd]. destruct (drop_error fo_close x f =? EINTR) eqn:Ee; bool_prop.
    + exists s1, EINTR. split_and!; try done.
      * intros i Hi. rewrite Ho, decide_False by lia. done.
      * right. split; [done|]. exists x. unfold drop_error in Ee. by repeat case_match.
    + destruct (IH (fd + 1) s1) as (s' & e & -> & Hs' & Hn' & Hlt & Hc); [done..|lia|lia|].
      exists s', e. split_and!; try done.
      * congruence.
      * intros i Hi. rewrite Hlt, Ho, decide_False by lia. done.
      * destruct Hc as [[-> Hc]|Hc]; [left|by right]. split; [done|]. intros i Hi.
        destruct (decide (i = fd)) as [->|]; [|apply Hc; lia].
        rewrite Hlt, Ho, decide_True by (done || lia). done.
  - destruct (IH (fd + 1) s) as (s' & e & -> & Hs' & Hn' & Hlt & Hc); [done..|lia|lia|].
    exists s', e. split_and!; try done.
    + intros i Hi. apply Hlt. lia.
    + destruct Hc as [[-> Hc]|Hc]; [left|by right]. split; [done|]. intros i Hi.
      destruct (decide (i = fd)) as [->|]; [|apply Hc; lia]. rewrite Hlt by lia. done.
Qed.

(** Does [fdcloseexec] close this slot? *)
Definition exec_closes (d : filedesc) (i : Z) : bool :=
  match view_at d i with Some (Some _, fl, _) => has fl UF_EXCLOSE | _ => false end.

(** One turn of its loop. *)
Definition closeexec_step (fo_close : file_ptr → Z) (i : Z) (s : kernel) : outcome kernel :=
  let* n := get_node (fdp s) i in
  match fp n with
  | Some _ =>
      if has (fileflags n) UF_EXCLOSE then
        let* r := with_fdp (λ d, funsetfd_locked d i) s in
        match r with
        | (s, Some f) =>
            let* s := knote_fdclose f i s in
            let* r := closef fo_close f s in Ok (fst r)
        | (s, None) => Ok s
        end
      else Ok s
  | None => Ok s
  end.

Lemma closeexec_loop_eq fo_close fuel i s :
  closeexec_loop fo_close (S fuel) i s =
  if i <=? fd_lastfile (fdp s)
  then let* s' := closeexec_step fo_close i s in closeexec_loop fo_close fuel (i + 1) s'
  else Ok s.
Proof.
  cbn [closeexec_loop]. unfold closeexec_step. rewrite obind_assoc. by case_match.
Qed.

Lemma closeexec_step_spec fo_close b ext i s :
  kernel_ok b ext s → b < 4294967296 → 0 ≤ i ≤ fd_lastfile (fdp s) →
  ∃ s', closeexec_step fo_close i s = Ok s' ∧ kernel_ok b ext s' ∧
    fd_nfiles (fdp s') = fd_nfiles (fdp s) ∧
    (exec_closes (fdp s) i = true → fp_at (fdp s') i = None) ∧
    (∀ j, j ≠ i ∨ exec_closes (fdp s) i = false → view_at (fdp s') j = view_at (fdp s) j).
Proof.
  intros [Hr Hk] Hb Hi. pose proof (ref_tree _ _ _ _ Hr) as Hok.
  destruct (lastfile_view (fdp s) i Hok Hi) as (n & Hg & Hv).
  unfold closeexec_step, exec_closes. rewrite Hg, Hv. cbn [obind view].
  destruct (fp n) as [x|] eqn:Hfp; [|by exists s].
  destruct (has (fileflags n) UF_EXCLOSE); [|by exists s].
  assert (Hx : fp_at (fdp s) i = Some x) by (unfold fp_at; by rewrite Hv, <- Hfp).
  destruct (fp_at_view _ _ _ (ref_excl _ _ _ _ Hr) Hx) as [fl Hvi].
  pose proof (funsetfd_spec (fdp s) i Hok) as H. rewrite Hvi in H.
  destruct (H eq_refl) as (d' & Ed & Hok' & Hc). clear H.
  unfold with_fdp. rewrite Ed. cbn [obind fst snd].
  destruct (ref_live _ _ _ _ Hr _ _ Hx) as [f Hf].
  destruct (close_taken fo_close b ext (set_fdp d' s) x f i) as (s1 & s2 & -> & E2 & F1 & _ & Hfin);
    cbn [fdp ftab set_fdp]; try done.
  - apply (refs_ok_take b ext (fdp s) d' (ftab s) i x 0); eauto.
  - by apply (klist_ok_but (fdp s) d' _ _ _ 0 0); [|apply Hr| |].
  - apply (ref_ext _ _ _ _ Hr).
  - cbn [obind]. rewrite E2. cbn [obind fst]. exists s2. rewrite F1. cbn [fdp set_fdp].
    split_and!; [done|apply Hfin..|apply Hc| |].
    + intros _. rewrite (slot_changed_fp _ _ _ _ _ _ i Hc). by rewrite decide_True.
    + intros j [Hj|]; [|done]. by apply Hc.
Qed.

Lemma closeexec_loop_spec fo_close b ext fuel : ∀ i s,
  kernel_ok b ext s → b < 4294967296 → 0 ≤ i → Z.max 0 (fd_nfiles (fdp s) - i) < Z.of_nat fuel →
  ∃ s', closeexec_loop fo_close fuel i s = Ok s' ∧ kernel_ok b ext s' ∧
    (∀ j, i ≤ j → exec_closes (fdp s) j = true → fp_at (fdp s') j = None) ∧
    (∀ j, j < i ∨ exec_closes (fdp s) j = false → view_at (fdp s') j = view_at (fdp s) j).
Proof.
  induction fuel as [|fuel IH]; intros i s Hs Hb Hi Hf.
  { lia. }
  pose proof (proj1 (proj1 (ok_lastfile _ (ref_tree _ _ _ _ (proj1 Hs))))) as Hlast.
  rewrite closeexec_loop_eq. destruct (i <=? fd_lastfile (fdp s)) eqn:El; bool_prop.
  2:{ exists s. split_and!; try done. intros j Hj He.
      apply above_lastfile; [apply Hs|lia]. }
  destruct (closeexec_step_spec fo_close b ext i s Hs Hb) as (s1 & -> & Hs1 & Hn1 & Hc1 & Ho1); [lia|].
  cbn [obind]. destruct (IH (i + 1) s1) as (s' & -> & Hs' & Hc & Ho); [done..|lia|lia|].
  exists s'. split_and!; try done.
  - intros j Hj He. destruct (decide (j = i)) as [->|].
    + unfold fp_at in *. rewrite Ho by lia. by apply Hc1.
    + apply Hc; [lia|]. unfold exec_closes. rewrite Ho1 by (by left). exact He.
  - intros j Hj. assert (Hv1 : view_at (fdp s1) j = view_at (fdp s) j).
    { apply Ho1. destruct Hj as [Hj|Hj]; [left; lia|].
      destruct (decide (j = i)) as [->|]; [by right|by left]. }
    rewrite <- Hv1. apply Ho. destruct Hj as [Hj|Hj]; [left; lia|right].
    unfold exec_closes. by rewrite Hv1.
Qed.

(** ** Copying a table *)

Lemma shrink_size_spec fuel m last :
  4 ≤ m ≤ 31 → last < 2 ^ m - 1 → m - 4 < Z.of_nat fuel →
  ∃ m', shrink_size fuel (2 ^ m - 1) last = Ok (2 ^ m' - 1) ∧ 4 ≤ m' ≤ m ∧ last < 2 ^ m' - 1.
Proof.
  revert m. induction fuel as [|fuel IH]; intros m Hm Hl Hf; [lia|]. cbn [shrink_size].
  assert (E : 2 ^ m = 2 * 2 ^ (m - 1)).
  { replace m with (Z.succ (m - 1)) at 1 by lia. apply Z.pow_succ_r. lia. }
  replace ((2 ^ m - 1 - 1) / 2) with (2 ^ (m - 1) - 1)
    by (rewrite E; replace (2 * 2 ^ (m - 1) - 1 - 1) with ((2 ^ (m - 1) - 1) * 2) by lia;
        by rewrite Z.div_mul).
  destruct ((2 ^ (m - 1) - 1 >? last) && (2 ^ (m - 1) - 1 >? NDFILE)) eqn:Et; bool_prop.
  - assert (4 < m - 1).
    { destruct (Z.le_gt_cases (m - 1) 4) as [H4|]; [|done]. exfalso.
      assert (2 ^ (m - 1) ≤ 2 ^ 4) by (apply Z.pow_le_mono_r; lia).
      change (2 ^ 4) with 16 in *. unfold NDFILE in *. lia. }
    destruct (IH (m - 1)) as (m' & -> & ? & ?); [lia..|]. exists m'. split_and!; [done|lia..].
  - exists m. split_and!; [done|lia..].
Qed.

Lemma copy_size_spec d :
  tree_ok d → NDFILE ≤ fd_nfiles d →
  ∃ i, copy_size d = Ok i ∧ table_size i ∧ fd_lastfile d < i ≤ fd_nfiles d.
Proof.
  intros Hok Hn. destruct (ok_size _ Hok) as (m & Hm & Em). unfold copy_size.
  destruct (ok_lastfile _ Hok) as [[Hl _] _].
  destruct (fd_lastfile d <? NDFILE) eqn:E; bool_prop.
  { exists NDFILE. split_and!; [done|by exists 4|done|done]. }
  assert (4 ≤ m).
  { destruct (Z.le_gt_cases 4 m) as [|H4]; [done|]. exfalso.
    assert (2 ^ m ≤ 2 ^ 3) by (apply Z.pow_le_mono_r; lia).
    change (2 ^ 3) with 8 in *. unfold NDFILE in *. lia. }
  rewrite Em. destruct (shrink_size_spec 32 m (fd_lastfile d)) as (m' & -> & Hm' & Hl'); [lia..|].
  exists (2 ^ m' - 1). split_and!; [done|exists m'; split; [lia|done]|done|].
  pose proof (Z.pow_le_mono_r 2 m' m). lia.
Qed.

Definition child_table (d : filedesc) (i : Z) : filedesc :=
  {| fd_files := take (Z.to_nat i) (fd_files d); fd_nfiles := i;
     fd_lastfile := fd_lastfile d; fd_freefile := fd_freefile d;
     fd_holdleaderscount := 0; fd_holdleaderswakeup := 0 |}.

Lemma slot_take l n i : 0 ≤ n → slot (take (Z.to_nat n) l) i = if i <? n then slot l i else None.
Proof.
  intros Hn. unfold slot. destruct (i <? 0) eqn:E; bool_prop; [by destruct (i <? n)|].
  destruct (i <? n) eqn:E2; bool_prop; [apply lookup_take_lt; lia|apply lookup_take_ge; lia].
Qed.

Lemma child_table_view d i j :
  0 ≤ i → view_at (child_table d i) j = if j <? i then view_at d j else None.
Proof.
  intros Hi. unfold view_at, child_table. cbn [fd_files]. rewrite slot_take by done.
  by destruct (j <? i).
Qed.

Lemma child_table_ok d i :
  tree_ok d → table_size i → fd_lastfile d < i ≤ fd_nfiles d → tree_ok (child_table d i).
Proof.
  intros Hok Hs [Hl Hn]. pose proof (size_bound _ Hs) as Hi.
  assert (Hu : ∀ j, used (child_table d i) j = if j <? i then used d j else false).
  { intros j. rewrite !used_view, child_table_view by lia. by destruct (j <? i). }
  destruct Hok as [Hlen Hsz Ha [Hfr Hfu] [[Hlr Hlu] Hlast]].
  assert (Hcl : len (fd_files (child_table d i)) = i).
  { unfold len. cbn. rewrite length_take. unfold len in Hlen. lia. }
  assert (Hff : fd_freefile d ≤ i).
  { destruct (Z.le_gt_cases (fd_freefile d) i) as [|H]; [done|]. exfalso.
    assert (used d i = true) by (apply Hfu; lia). rewrite Hlu in * by lia. done. }
  split; [done|done| | |].
  - intros j n. cbn [fd_files child_table]. rewrite slot_take by lia.
    destruct (j <? i) eqn:Ej; [|done]. bool_prop. intros Hn'. rewrite (Ha j n Hn').
    pose proof (slot_range _ _ _ Hn'). pose proof (subtree_bound i j Hs).
    apply count_ext. intros k Hk. rewrite Hu.
    replace (k <? i) with true by (symmetry; apply Z.ltb_lt; lia). done.
  - split; cbn [child_table fd_freefile fd_nfiles]; [lia|]. intros j Hj. rewrite Hu.
    replace (j <? i) with true by (symmetry; apply Z.ltb_lt; lia). by apply Hfu.
  - split; [split|]; cbn [child_table fd_lastfile fd_nfiles].
    + lia.
    + intros j Hj. rewrite Hu. destruct (j <? i); [by apply Hlu|done].
    + intros Hj. rewrite Hu. replace (fd_lastfile d <? i) with true by (symmetry; by apply Z.ltb_lt).
      by apply Hlast.
Qed.

(** What the child has in a slot where the parent has [v]. *)
Definition inherited (t : gmap Z file) (v : option file_ptr * Z * Z) : option file_ptr * Z * Z :=
  match v with
  | (Some x, fl, r) =>
      match t !! x with
      | Some f => if f_type f =? DTYPE_KQUEUE then (None, 0, 0) else v
      | None => v
      end
  | (None, fl, r) => (None, fl, 0)
  end.

(** A reservation dropped as [fdcopy] does it: counts first, then the slot. *)
Lemma drop_reservation d i n fl r :
  tree_ok d → slot (fd_files d) i = Some n → view n = (None, fl, r) → r ≠ 0 →
  ∃ d1 d2 d', fdreserve_locked d i (-1) = Ok d1 ∧ upd_node (node_set_reserved 0) i d1 = Ok d2 ∧
    fdfixup_locked d2 i = Ok d' ∧ tree_ok d' ∧ slot_changed i (None, fl, 0) d d'.
Proof.
  intros Hok Hn [= Hfp Hfl Hres] Hr. pose proof (slot_range _ _ _ Hn) as Hrng.
  pose proof Hok as [Hlen Hsz Ha _ _].
  assert (Hu : in_use n = true).
  { unfold in_use. rewrite Hfp, Hres. by apply negb_true_iff, Z.eqb_neq. }
  set (n' := node_set_reserved 0 n).
  assert (Hu' : in_use n' = false) by (unfold in_use; cbn; by rewrite Hfp).
  destruct (release_spec d i n n' Hok Hn Hu eq_refl Hu') as (d1 & d' & E1 & E2 & Hok' & Hc).
  destruct (fdreserve_spec (used d) (λ j, if decide (j = i) then false else used d j) d i (-1))
    as [E0 _].
  - by rewrite <- Hlen.
  - done.
  - done.
  - intros j Hj. by rewrite decide_False.
  - rewrite decide_True by done. unfold used, used_in. by rewrite Hn, Hu.
  - exists (set_files (bump (-1) i (fd_files d)) d), d1, d'.
    destruct (fdreserve_spec (used d) (λ j, if decide (j = i) then false else used d j)
      (set_files (<[Z.to_nat i := n']> (fd_files d)) d) i (-1)) as [E3 _].
    + cbn [fd_files set_files]. by rewrite len_insert, <- Hlen.
    + cbn [fd_files set_files]. by rewrite len_insert.
    + cbn [fd_files set_files]. apply (alloc_ok_insert _ _ _ n); done.
    + intros j Hj. by rewrite decide_False.
    + rewrite decide_True by done. unfold used, used_in. by rewrite Hn, Hu.
    + rewrite E1 in E3. injection E3 as E3.
      set (n1 := node_set_allocated (allocated n + -1) n).
      assert (Hn1 : slot (bump (-1) i (fd_files d)) i = Some n1).
      { rewrite slot_bump, Hn. cbn. rewrite in_subtree_self by lia. done. }
      split_and!; [done| |done|done|].
      * rewrite (upd_node_Ok _ _ _ n1) by exact Hn1. f_equal. rewrite E3.
        cbn [fd_files set_files]. rewrite !set_files_set_files. f_equal.
        apply slot_ext; [by rewrite len_insert, !len_bump, len_insert|].
        intros j _. rewrite slot_insert by (rewrite len_bump; done).
        rewrite !slot_bump, slot_insert by done. case_decide; [|done]. subst j. cbn.
        rewrite in_subtree_self by lia. done.
      * unfold view in Hc. cbn in Hc. by rewrite Hfp, Hfl in Hc.
Qed.

(** One slot of the scan. *)
Definition copy_step (i : Z) (d : filedesc) (s : kernel) : outcome (filedesc * kernel) :=
  let* n := get_node d i in
  if negb (reserved n =? 0) then
    let* d := fdreserve_locked d i (-1) in
    let* d := upd_node (node_set_reserved 0) i d in
    let* d := fdfixup_locked d i in
    Ok (d, s)
  else
    match fp n with
    | None => Ok (d, s)
    | Some f =>
        let* x := get_file s f in
        if f_type x =? DTYPE_KQUEUE then
          let* r := funsetfd_locked d i in Ok (fst r, s)
        else let* s := fhold f s in Ok (d, s)
    end.

Lemma copy_scan_eq fuel i d s :
  copy_scan (S fuel) i d s =
  let* r := copy_step i d s in copy_scan fuel (i + 1) (fst r) (snd r).
Proof.
  cbn [copy_scan]. unfold copy_step. destruct (get_node d i) as [n| | |]; try done. cbn [obind].
  destruct (negb (reserved n =? 0)).
  - rewrite !obind_assoc. destruct (fdreserve_locked d i (-1)); try done. cbn [obind].
    rewrite obind_assoc. destruct (upd_node _ i a); try done. cbn [obind]. by rewrite obind_assoc.
  - destruct (fp n) as [f|]; [|done]. rewrite obind_assoc.
    destruct (get_file s f) as [x| | |]; try done. cbn [obind].
    destruct (f_type x =? DTYPE_KQUEUE); by rewrite obind_assoc.
Qed.

(** The file map with [k x] references added to file [x]. *)
Definition more_refs (k : Z → Z) (t t' : gmap Z file) : Prop :=
  ∀ x, t' !! x = (λ f, file_set_count (f_count f + k x) f) <$> t !! x.

Lemma file_set_count_0 f : file_set_count (f_count f + 0) f = f.
Proof. destruct f. unfold file_set_count. cbn. f_equal. lia. Qed.

Lemma more_refs_0 k t : (∀ x, k x = 0) → more_refs k t t.
Proof. intros Hk x. rewrite Hk. destruct (t !! x); cbn; [by rewrite file_set_count_0|done]. Qed.

Lemma more_refs_trans k l t t' t'' :
  more_refs k t t' → more_refs l t' t'' → more_refs (λ x, k x + l x) t t''.
Proof.
  intros H1 H2 x. rewrite H2, H1. destruct (t !! x) as [f|]; [|done]. cbn.
  f_equal. unfold file_set_count. cbn. f_equal. lia.
Qed.

Lemma more_refs_ext k l t t' : (∀ x, k x = l x) → more_refs k t t' → more_refs l t t'.
Proof. intros E H x. by rewrite <- E. Qed.

Lemma inherited_more k t t' v : more_refs k t t' → inherited t' v = inherited t v.
Proof.
  intros H. destruct v as [[[x|] fl] r]; [|done]. cbn. rewrite H. by destruct (t !! x).
Qed.

Lemma view_at_fp d d' i : view_at d i = view_at d' i → fp_at d i = fp_at d' i.
Proof. unfold fp_at. by intros ->. Qed.

Lemma copy_step_spec i d s :
  tree_ok d → exclusive d → (∀ j x, fp_at d j = Some x → is_Some (ftab s !! x)) →
  0 ≤ i < fd_nfiles d →
  ∃ d' s', copy_step i d s = Ok (d', s') ∧ tree_ok d' ∧ fd_nfiles d' = fd_nfiles d ∧
    (∀ j, view_at d' j = if decide (j = i) then inherited (ftab s) <$> view_at d j else view_at d j) ∧
    fdp s' = fdp s ∧ more_refs (λ x, b01 (refers d' x i)) (ftab s) (ftab s').
Proof.
  intros Hok He Hlive Hi. destruct (slot_Some (fd_files d) i) as [n Hn]; [by rewrite <- (ok_len _ Hok)|].
  assert (Hv : view_at d i = Some (view n)) by (unfold view_at; by rewrite Hn).
  unfold copy_step, get_node. rewrite (aget_slot _ _ _ Hn). cbn [obind].
  assert (Hnone : ∀ d', fp_at d' i = None → more_refs (λ x, b01 (refers d' x i)) (ftab s) (ftab s)).
  { intros d' Hf. apply more_refs_0. intros x. unfold refers. by rewrite bool_decide_false by (by rewrite Hf). }
  destruct (fp n) as [x|] eqn:Hfp.
  - assert (Hvn : view n = (Some x, fileflags n, 0)).
    { unfold view in *. rewrite Hfp in *. by rewrite (He _ _ _ _ Hv). }
    pose proof Hvn as [= _ Hres]. rewrite Hres. cbn [Z.eqb negb].
    rewrite Hvn in Hv.
    destruct (Hlive i x) as [f Hf]; [unfold fp_at; by rewrite Hv|].
    unfold get_file. rewrite Hf. cbn [obind].
    assert (Hin : inherited (ftab s) (Some x, fileflags n, 0) =
      if f_type f =? DTYPE_KQUEUE then (None, 0, 0) else (Some x, fileflags n, 0))
      by (cbn; by rewrite Hf).
    destruct (f_type f =? DTYPE_KQUEUE) eqn:Et.
    + pose proof (funsetfd_spec d i Hok) as H. rewrite Hv in H.
      destruct (H eq_refl) as (d' & -> & Hok' & Hc). cbn [obind fst].
      exists d', s. split_and!; [done|done|apply Hc| |done|].
      * intros j. destruct Hc as (_ & _ & V & O). case_decide as E; [|by apply O].
        subst j. by rewrite V, Hv; cbn [fmap option_fmap option_map]; rewrite Hin.
      * apply Hnone. rewrite (slot_changed_fp _ _ _ _ _ _ i Hc). by rewrite decide_True.
    + unfold fhold, upd_file, get_file. rewrite Hf. cbn [obind].
      eexists d, _. split_and!; [done|done|done| |done|].
      * intros j. case_decide as E; [|done]. subst j. rewrite Hv.
        cbn [fmap option_fmap option_map]. by rewrite Hin.
      * intros y. cbn [ftab set_ftab]. unfold refers, fp_at. rewrite Hv.
        destruct (decide (y = x)) as [->|Hne].
        -- rewrite lookup_insert_eq, Hf, bool_decide_true by done. done.
        -- rewrite lookup_insert_ne by done. rewrite bool_decide_false by congruence. cbn [b01].
           destruct (ftab s !! y); [|done]. cbn. by rewrite file_set_count_0.
  - assert (Hvn : view n = (None, fileflags n, reserved n)) by (unfold view; by rewrite Hfp).
    destruct (reserved n =? 0) eqn:Er; bool_prop; cbn [negb].
    + exists d, s. split_and!; [done|done|done| |done|].
      * intros j. case_decide as E; [|done]. subst j. rewrite Hv, Hvn, Er. done.
      * apply Hnone. unfold fp_at. by rewrite Hv, Hvn.
    + destruct (drop_reservation d i n (fileflags n) (reserved n) Hok Hn) as
        (d1 & d2 & d' & -> & E2 & E3 & Hok' & Hc); [done|done|].
      cbn [obind]. rewrite E2. cbn [obind]. rewrite E3. cbn [obind].
      exists d', s. split_and!; [done|done|apply Hc| |done|].
      * intros j. destruct Hc as (_ & _ & V & O). case_decide as E; [|by apply O].
        subst j. by rewrite V, Hv, Hvn.
      * apply Hnone. rewrite (slot_changed_fp _ _ _ _ _ _ i Hc). by rewrite decide_True.
Qed.

Lemma inherited_fp t v o fl r x fl' r' :
  inherited t v = (Some x, fl', r') → v = (o, fl, r) → o = Some x ∧ r' = r.
Proof.
  intros H ->. unfold inherited in H. destruct o as [y|]; [|done].
  repeat case_match; by simplify_eq.
Qed.

Lemma copy_scan_spec fuel : ∀ i d s,
  tree_ok d → exclusive d → (∀ j x, fp_at d j = Some x → is_Some (ftab s !! x)) →
  0 ≤ i → i + Z.of_nat fuel = fd_nfiles d →
  ∃ d' s', copy_scan fuel i d s = Ok (d', s') ∧ tree_ok d' ∧ fd_nfiles d' = fd_nfiles d ∧
    (∀ j, view_at d' j = if i <=? j then inherited (ftab s) <$> view_at d j else view_at d j) ∧
    fdp s' = fdp s ∧ more_refs (λ x, count (refers d' x) i (fd_nfiles d)) (ftab s) (ftab s').
Proof.
  induction fuel as [|fuel IH]; intros i d s Hok He Hlive Hi Hf.
  { exists d, s. split_and!; try done.
    - intros j. case_test; [|done]. bool_prop. unfold view_at.
      rewrite slot_None; [done|]. right. rewrite <- (ok_len _ Hok). lia.
    - apply more_refs_0. intros x. apply count_empty. lia. }
  rewrite copy_scan_eq.
  destruct (copy_step_spec i d s Hok He Hlive) as (d1 & s1 & -> & Hok1 & Hn1 & Hv1 & Hs1 & Hm1); [lia|].
  cbn [obind fst snd].
  assert (Hfp1 : ∀ j x fl r, view_at d1 j = Some (Some x, fl, r) →
    ∃ fl', view_at d j = Some (Some x, fl', r)).
  { intros j x fl r. rewrite Hv1. case_decide as E; [|by eauto]. subst j.
    destruct (view_at d i) as [[[o g] q]|]; [|done]. cbn [fmap option_fmap option_map].
    intros H%(inj Some). destruct (inherited_fp _ _ o g q _ _ _ H) as [-> ->]; [done|]. by eauto. }
  destruct (IH (i + 1) d1 s1) as (d' & s' & -> & Hok' & Hn' & Hv' & Hs' & Hm').
  - done.
  - intros j x fl r H. destruct (Hfp1 _ _ _ _ H) as [fl' H']. by apply (He _ _ _ _ H').
  - intros j x Hj. rewrite (Hm1 x). apply fmap_is_Some. apply (Hlive j).
    unfold fp_at in Hj |- *. destruct (view_at d1 j) as [[[o g] q]|] eqn:E; [|done].
    subst o. destruct (Hfp1 _ _ _ _ E) as [fl' ->]. done.
  - lia.
  - lia.
  - exists d', s'. split_and!; [done|done|congruence| |congruence|].
    + intros j. rewrite Hv', Hv1. destruct (decide (j = i)) as [->|Hne].
      * replace (i + 1 <=? i) with false by (symmetry; apply Z.leb_gt; lia).
        replace (i <=? i) with true by (symmetry; apply Z.leb_le; lia). done.
      * destruct (i <=? j) eqn:E1, (i + 1 <=? j) eqn:E2; bool_prop; try lia; try done.
        destruct (view_at d j); [|done]. cbn. by rewrite (inherited_more _ _ _ _ Hm1).
    + eapply more_refs_ext; [|eapply more_refs_trans; [exact Hm1|exact Hm']].
      intros x. cbn. rewrite (count_app _ i (i + 1)), count_one, Hn1 by lia.
      f_equal. unfold b01, refers. rewrite (view_at_fp d' d1 i); [done|].
      rewrite Hv'. replace (i + 1 <=? i) with false by (symmetry; apply Z.leb_gt; lia). done.
Qed.

Lemma fdcopy_spec b ext s :
  kernel_ok b ext s → NDFILE ≤ fd_nfiles (fdp s) →
  ∃ d s', fdcopy s = Ok (d, s') ∧ tree_ok d ∧ fdp s' = fdp s ∧
    (∀ i, view_at d i = if i <? fd_nfiles d then inherited (ftab s) <$> view_at (fdp s) i else None) ∧
    (∀ i, fd_nfiles d ≤ i → used (fdp s) i = false) ∧
    more_refs (refs d) (ftab s) (ftab s').
Proof.
  intros [Hr Hk] Hn. pose proof (ref_tree _ _ _ _ Hr) as Hok.
  unfold fdcopy. destruct (copy_size_spec (fdp s) Hok Hn) as (i & -> & Hs & Hi). cbn [obind].
  pose proof (size_bound _ Hs) as Hib. fold (child_table (fdp s) i).
  destruct (copy_scan_spec (Z.to_nat i) 0 (child_table (fdp s) i) s) as
    (d' & s' & -> & Hok' & Hn' & Hv' & Hs' & Hm').
  - by apply child_table_ok.
  - intros j x fl r. rewrite child_table_view by lia. case_test; [|done].
    apply (ref_excl _ _ _ _ Hr).
  - intros j x. unfold fp_at. rewrite child_table_view by lia. case_test; [|done].
    apply (ref_live _ _ _ _ Hr).
  - lia.
  - cbn. lia.
  - cbn [fd_nfiles child_table] in Hn'. exists d', s'. split_and!; try done.
    + intros j. rewrite Hv', Hn', child_table_view by lia.
      destruct (0 <=? j) eqn:E; bool_prop; destruct (j <? i) eqn:E'; bool_prop; try done.
      unfold view_at. rewrite slot_None by lia. done.
    + intros j Hj. destruct (ok_lastfile _ Hok) as [[_ H] _]. apply H. lia.
    + eapply more_refs_ext; [|exact Hm']. intros x. unfold refs. by rewrite Hn'.
Qed.

(** The parent after a fork: its files have gained the child's references. *)
Lemma refs_ok_more b ext d t t' k n :
  refs_ok b ext d t → more_refs k t t' → (∀ x, 0 ≤ k x ≤ n) →
  refs_ok (b + n) (λ x, ext x + k x) d t'.
Proof.
  intros [H1 H2 H3 H4 H5] Hm Hk. split; try done.
  - intros i x Hi. rewrite (Hm x). apply fmap_is_Some. by apply (H3 i).
  - intros x f'. rewrite (Hm x). destruct (t !! x) as [f|] eqn:E; [|done].
    intros [= <-]. cbn. destruct (H4 x f E). specialize (Hk x). lia.
  - intros x. specialize (Hk x). specialize (H5 x). lia.
Qed.

Lemma klist_ok_more d t t' k : klist_ok d t → more_refs k t t' → klist_ok d t'.
Proof.
  intros H Hm x f' i. rewrite (Hm x). destruct (t !! x) as [f|] eqn:E; [|done].
  intros [= <-]. cbn. by apply (H x f).
Qed.

(** ** The properties *)

(** C18: [kern_close] of a descriptor that refers to no file changes nothing and
    returns EBADF.  Otherwise the descriptor and only that one is emptied, the
    count of the file falls by exactly the reference the descriptor held, the
    file is destroyed (after its close operation, whose error is returned) when
    that was the last one, the knotes attached through the descriptor are gone,
    and every count and every tree invariant of the table still holds. *)
Theorem kern_close_correct (fo_close : file_ptr → Z) (b : Z) (ext : Z → Z) (s : kernel) (fd : Z)
    (Hs : kernel_ok b ext s) (Hb : b < 4294967296) :
  match fp_at (fdp s) fd with
  | None => kern_close fo_close fd s = Ok (s, EBADF)
  | Some x => ∃ f s', ftab s !! x = Some f ∧
      kern_close fo_close fd s = Ok (s', drop_error fo_close x f) ∧ kernel_ok b ext s' ∧
      (∀ i, fp_at (fdp s') i = if decide (i = fd) then None else fp_at (fdp s) i) ∧
      ftab s' = closed_files (ftab s) x fd f
  end.
Proof.
  destruct (fp_at (fdp s) fd) as [x|] eqn:Hfd; [|by apply (kern_close_bad _ b ext)].
  destruct (ref_live _ _ _ _ (proj1 Hs) _ _ Hfd) as [f Hx]. exists f.
  destruct (kern_close_spec fo_close b ext s fd x f Hs Hb Hfd Hx) as (s' & ? & ? & ? & ? & ?).
  by exists s'.
Qed.


(** C20: the table a fork gives the child is well formed and, slot by slot, is
    the parent's less its reservations and its kqueues, however far the copy
    shrank the table; the parent's own table is untouched, and the count of each
    file grew by the number of the child's descriptors that refer to it, so that
    the counts of both tables together are exact. *)
Theorem fdcopy_correct (b : Z) (ext : Z → Z) (s : kernel)
    (Hs : kernel_ok b ext s) (Hn : NDFILE ≤ fd_nfiles (fdp s)) :
  ∃ d s', fdcopy s = Ok (d, s') ∧ tree_ok d ∧ fdp s' = fdp s ∧
    (∀ i, i < fd_nfiles d → view_at d i = inherited (ftab s) <$> view_at (fdp s) i) ∧
    (∀ i, fd_nfiles d ≤ i → used (fdp s) i = false) ∧
    kernel_ok (b + fd_nfiles d) (λ x, ext x + refs d x) s'.
Proof.
  destruct (fdcopy_spec b ext s Hs Hn) as (d & s' & E & Hok & Hf & Hv & Hu & Hm).
  exists d, s'. destruct Hs as [Hr Hk]. pose proof (size_bound _ (ok_size _ Hok)).
  split_and!; try done.
  - intros i Hi. rewrite Hv. by replace (i <? fd_nfiles d) with true by (symmetry; by apply Z.ltb_lt).
  - unfold kernel_ok. rewrite Hf. split; [|by apply (klist_ok_more _ (ftab s) _ (refs d))].
    apply (refs_ok_more b ext _ (ftab s)); [done|done|].
    intros x. unfold refs. pose proof (count_range (refers d x) 0 (fd_nfiles d)). lia.
Qed.

(** [kern_closefrom] terminates and, unless a close operation was
    interrupted, leaves no file in any descriptor from [fd] up, and all lower
    descriptors as they were, with exact counts. *)
Theorem kern_closefrom_correct (fo_close : file_ptr → Z) (b : Z) (ext : Z → Z) (s : kernel) (fd : Z)
    (Hs : kernel_ok b ext s) (Hb : b < 4294967296) (Hfd : 0 ≤ fd) :
  ∃ s' e, kern_closefrom fo_close fd s = Ok (s', e) ∧ kernel_ok b ext s' ∧
    (∀ i, i < fd → fp_at (fdp s') i = fp_at (fdp s) i) ∧
    ((e = 0 ∧ ∀ i, fd ≤ i → fp_at (fdp s') i = None) ∨ (e = EINTR ∧ ∃ x, fo_close x = EINTR)).
Proof.
  pose proof (size_bound _ (ok_size _ (ref_tree _ _ _ _ (proj1 Hs)))).
  unfold kern_closefrom. replace (fd <? 0) with false by (symmetry; by apply Z.ltb_ge).
  destruct (closefrom_loop_spec fo_close b ext (S (Z.to_nat (fd_nfiles (fdp s)))) fd s)
    as (s' & e & ? & ? & ? & ? & ?); [done..|lia|]. by exists s', e.
Qed.

(** execve's [fdcloseexec] empties exactly the descriptors that carry the
    close-on-exec flag: the others keep their file, flags and reservation, and
    the counts stay exact. *)
Theorem fdcloseexec_correct (fo_close : file_ptr → Z) (b : Z) (ext : Z → Z) (s : kernel)
    (Hs : kernel_ok b ext s) (Hb : b < 4294967296) :
  ∃ s', fdcloseexec fo_close s = Ok s' ∧ kernel_ok b ext s' ∧
    ∀ i, if exec_closes (fdp s) i then fp_at (fdp s') i = None
         else view_at (fdp s') i = view_at (fdp s) i.
Proof.
  pose proof (size_bound _ (ok_size _ (ref_tree _ _ _ _ (proj1 Hs)))).
  destruct (closeexec_loop_spec fo_close b ext (S (Z.to_nat (fd_nfiles (fdp s)))) 0 s)
    as (s' & E & Hs' & Hc & Ho); [done..|lia|].
  exists s'. split_and!; [done|done|]. intros i. destruct (exec_closes (fdp s) i) eqn:Ei.
  - apply Hc; [|done]. unfold exec_closes in Ei.
    destruct (view_at (fdp s) i) as [v|] eqn:Ev; [|done]. apply slot_view in Ev as (_ & _ & _ & _ & ?). lia.
  - apply Ho. by right.
Qed.

(** ** Witnesses *)

(** A process with descriptors 0 and 2 reserved and 1 on the vnode file 77. *)
Definition file77 : file :=
  {| f_count := 1; f_type := DTYPE_VNODE; f_flag := 0; f_badops := false; f_klist := [1];
     v_flag := VMAYHAVELOCKS |}.

Definition kernel77 : kernel :=
  {| fdp := table_file; ftab := {[77 := file77]}; nfiles := 1; p_leader := 1;
     p_leader_flags := P_ADVLOCK; p_fdtol := None; trace := [] |}.

Lemma table3_empty i : fp_at table3 i = None.
Proof.
  unfold fp_at, view_at, slot. destruct (i <? 0); [done|].
  destruct (fd_files table3 !! Z.to_nat i) as [n|] eqn:E; [|done]. cbn.
  assert (H : Forall (λ n, fp n = None) (fd_files table3)) by by_decide.
  by apply (Forall_lookup_1 _ _ _ _ H E).
Qed.

Lemma kernel77_ok : kernel_ok 1 (λ _, 0) kernel77.
Proof.
  assert (H3 : refs_ok 1 (λ x, if decide (x = 77) then 1 else 0) table3 {[77 := file77]}).
  { split.
    - exact table3_ok.
    - intros i x fl r Hv. pose proof (table3_empty i) as E. unfold fp_at in E. by rewrite Hv in E.
    - intros i x. by rewrite table3_empty.
    - intros x f. rewrite lookup_singleton. case_decide; [|done]. intros [= <-]. subst x.
      unfold refs. rewrite (count_ext _ (λ _, false)).
      + rewrite decide_True by done. split; [|done]. by vm_compute.
      + intros i _. unfold refers. by rewrite table3_empty.
    - intros x. by case_decide. }
  destruct (fsetfd_set_spec table3 1 77 0 1 table3_ok) as (d' & E & Hok & Hc);
    [by vm_compute|done|].
  assert (Hd : table_file = d') by (unfold table_file; by rewrite E). split; cbn [fdp ftab kernel77].
  - rewrite Hd. apply (refs_ok_ext _ (shift (λ x, if decide (x = 77) then 1 else 0) 77 (-1))).
    + intros y. unfold shift. by case_decide.
    + apply (refs_ok_give 1 _ table3 d' _ 1 77 0);
        [exact H3|exact Hok|apply table3_empty|by_decide|by rewrite decide_True| |exact Hc].
      exists file77. apply lookup_singleton_eq.
  - intros x f i. rewrite lookup_singleton. case_decide; [|done]. subst x. intros [= <-].
    intros ->%list_elem_of_singleton. by vm_compute.
Qed.

Lemma kern_close_correct_witness :
  fp_at (fdp kernel77) 1 = Some 77 ∧
  ∃ f s', ftab kernel77 !! 77 = Some f ∧
    kern_close (λ _, 5) 1 kernel77 = Ok (s', drop_error (λ _, 5) 77 f) ∧ kernel_ok 1 (λ _, 0) s' ∧
    (∀ i, fp_at (fdp s') i = if decide (i = 1) then None else fp_at (fdp kernel77) i) ∧
    ftab s' = closed_files (ftab kernel77) 77 1 f.
Proof.
  split; [vm_compute; reflexivity|].
  exact (kern_close_correct (λ _, 5) 1 (λ _, 0) kernel77 1 kernel77_ok ltac:(lia)).
Defined.


(** A user over the quota of open files: the comment in [kern_dup] says that
    maxfilesperuser is not applicable to dup(), which opens no file, but
    [fdalloc] applies it. *)
Definition limits_over : limits :=
  {| rlim_cur := 20; maxfilesperproc := 1000; minfilesperproc := 8;
     cr_uid := 5; ui_openfiles := 11; maxfilesperuser := 10 |}.

Lemma kern_dup_enfile : over_quota limits_over (fdp kernel77) ∧
  ∃ s', kern_dup (λ _, 0) 1 limits_over DUP_VARIABLE 1 0 kernel77 = Ok (s', DupErr ENFILE).
Proof. split; [by vm_compute|]. eexists. vm_compute. reflexivity. Qed.


Lemma fdcopy_correct_witness :
  ∃ d s', fdcopy kernel77 = Ok (d, s') ∧ tree_ok d ∧ fdp s' = fdp kernel77 ∧
    (∀ i, i < fd_nfiles d → view_at d i = inherited (ftab kernel77) <$> view_at (fdp kernel77) i) ∧
    (∀ i, fd_nfiles d ≤ i → used (fdp kernel77) i = false) ∧
    kernel_ok (1 + fd_nfiles d) (λ x, 0 + refs d x) s'.
Proof.
  apply (fdcopy_correct 1 (λ _, 0) kernel77); [exact kernel77_ok|]. vm_compute. discriminate.
Defined.

Lemma kern_closefrom_correct_witness :
  ∃ s' e, kern_closefrom (λ _, 0) 0 kernel77 = Ok (s', e) ∧ kernel_ok 1 (λ _, 0) s' ∧
    (∀ i, i < 0 → fp_at (fdp s') i = fp_at (fdp kernel77) i) ∧
    ((e = 0 ∧ ∀ i, 0 ≤ i → fp_at (fdp s') i = None) ∨ (e = EINTR ∧ ∃ x : Z, 0 = EINTR)).
Proof.
  apply (kern_closefrom_correct (λ _, 0) 1 (λ _, 0) kernel77 0); [exact kernel77_ok|lia|lia].
Defined.

Lemma fdcloseexec_correct_witness :
  ∃ s', fdcloseexec (λ _, 0) kernel77 = Ok s' ∧ kernel_ok 1 (λ _, 0) s' ∧
    ∀ i, if exec_closes (fdp kernel77) i then fp_at (fdp s') i = None
         else view_at (fdp s') i = view_at (fdp kernel77) i.
Proof. apply (fdcloseexec_correct (λ _, 0) 1 (λ _, 0) kernel77); [exact kernel77_ok|lia]. Defined.

End FdOps.
