(* ===== verification/Lockf.v ===== *)
(** Advisory record locks (sys/kern/kern_lockf.c, sys/sys/lockf.h): the byte
    ranges locked on a file, sorted by their start, the requests that sleep
    for a conflicting range to go away, and the count of POSIX locks per
    process and per user that a resource limit bounds.

    The pool token makes every stretch of code between two sleeps atomic; an
    operation that has to sleep ends in [SetlockSleep] and its thread goes on
    in [lf_setlock_wakeup] when tsleep(9) returns.  Allocations are taken not
    to sleep.  A range structure has an address that is never used again; one
    that is on no queue and that no sleeping thread refers to is forgotten. *)

From stdpp Require Import base list gmap.
From S2P Require Import Prelude TailQ FdTree FdOps.

Module Lockf.
Import TailQ.

(** * Data *)

Definition F_RDLCK : Z := 1.
Definition F_UNLCK : Z := 2.
Definition F_WRLCK : Z := 3.

Definition F_WAIT : Z := 0x010.
Definition F_POSIX : Z := 0x040.
Definition F_NOEND : Z := 0x080.

Definition F_GETLK : Z := 7.
Definition F_SETLK : Z := 8.

Definition SEEK_SET : Z := 0.
Definition SEEK_CUR : Z := 1.
Definition SEEK_END : Z := 2.

Definition EDEADLK : Z := 11.
Definition EAGAIN : Z := 35.
Definition ENOLCK : Z := 77.
Notation EINVAL := FdTree.EINVAL.

Definition LLONG_MAX : Z := 0x7fffffffffffffff.

(** struct lockf_range, with its address. *)
Record lockf_range := Range {
  lf_addr : Z;
  lf_type : Z;
  lf_flags : Z;
  lf_start : Z;
  lf_end : Z;
  lf_owner : Z
}.

#[export] Instance lockf_range_eq_dec : EqDecision lockf_range.
Proof. solve_decision. Defined.

Definition set_type_flags (t f : Z) (r : lockf_range) : lockf_range :=
  Range (lf_addr r) t f (lf_start r) (lf_end r) (lf_owner r).
Definition set_flags (f : Z) (r : lockf_range) : lockf_range :=
  Range (lf_addr r) (lf_type r) f (lf_start r) (lf_end r) (lf_owner r).
Definition set_start (s : Z) (r : lockf_range) : lockf_range :=
  Range (lf_addr r) (lf_type r) (lf_flags r) s (lf_end r) (lf_owner r).
Definition set_end (e : Z) (r : lockf_range) : lockf_range :=
  Range (lf_addr r) (lf_type r) (lf_flags r) (lf_start r) e (lf_owner r).

(** struct flock. *)
Record flock := Flock {
  l_start : Z;
  l_len : Z;
  l_pid : Z;
  l_type : Z;
  l_whence : Z
}.

(** What the code reads and writes of an owning process: its pid, its count
    of locks, its credentials (a user id and the structure of its user) and
    its limit. *)
Record proc := Proc {
  p_pid : Z;
  p_numposixlocks : Z;
  cr_uid : Z;
  cr_uidinfo : Z;
  rlim_cur : Z
}.

(** The locks of one file, struct lockf, with what they depend on: the
    processes and the lock counts [ui_posixlocks] of users; the flag of the
    vnode; the range structures of threads that have been woken but have not
    run yet ([lf_woken]), which are on no queue any more; and the address of
    the next structure kmalloc(9) returns. *)
Record lockf := Lockf {
  lf_range : list lockf_range;
  lf_blocked : list lockf_range;
  init_done : Z;
  lf_woken : list lockf_range;
  procs : gmap Z proc;
  ui_posixlocks : gmap Z Z;
  maxposixlocksperuid : Z;
  v_flag : Z;
  next_addr : Z
}.

Definition set_range (l : list lockf_range) (w : lockf) : lockf :=
  Lockf l (lf_blocked w) (init_done w) (lf_woken w) (procs w) (ui_posixlocks w)
    (maxposixlocksperuid w) (v_flag w) (next_addr w).
Definition set_blocked (l wk : list lockf_range) (w : lockf) : lockf :=
  Lockf (lf_range w) l (init_done w) wk (procs w) (ui_posixlocks w)
    (maxposixlocksperuid w) (v_flag w) (next_addr w).
Definition set_counts (ps : gmap Z proc) (us : gmap Z Z) (w : lockf) : lockf :=
  Lockf (lf_range w) (lf_blocked w) (init_done w) (lf_woken w) ps us
    (maxposixlocksperuid w) (v_flag w) (next_addr w).
Definition set_v_flag (f : Z) (w : lockf) : lockf :=
  Lockf (lf_range w) (lf_blocked w) (init_done w) (lf_woken w) (procs w) (ui_posixlocks w)
    (maxposixlocksperuid w) f (next_addr w).
Definition set_next_addr (a : Z) (w : lockf) : lockf :=
  Lockf (lf_range w) (lf_blocked w) (init_done w) (lf_woken w) (procs w) (ui_posixlocks w)
    (maxposixlocksperuid w) (v_flag w) a.
Definition lockf_init (w : lockf) : lockf :=
  if init_done w =? 0
  then Lockf [] [] 1 (lf_woken w) (procs w) (ui_posixlocks w)
         (maxposixlocksperuid w) (v_flag w) (next_addr w)
  else w.

(** * Ranges *)

Definition lf_match (range : lockf_range) (type flags : Z) : bool :=
  if negb (lf_type range =? type) then false
  else if negb (Z.land (Z.lxor (lf_flags range) flags) F_POSIX =? 0) then false
  else true.

Definition lf_overlap (range : lockf_range) (start end_ : Z) : bool :=
  if (lf_start range >=? start) && (lf_start range <=? end_) then true
  else if (start >=? lf_start range) && (start <=? lf_end range) then true
  else false.

Definition lf_alloc_range (w : lockf) : Z * lockf :=
  (next_addr w, set_next_addr (next_addr w + 1) w).

Definition lf_create_range (range owner type flags start end_ : Z) : outcome lockf_range :=
  kkassert (start <=? end_) (Ok (Range range type flags start end_ owner)).

(** The loop of [lf_insert], from the insertion point on. *)
Fixpoint lf_insert_point (rest : list lockf_range) (elm : lockf_range) : option Z :=
  match rest with
  | [] => None
  | r :: rest' => if lf_start r <? lf_start elm then lf_insert_point rest' elm else Some (lf_addr r)
  end.

Definition lf_insert (l : list lockf_range) (elm : lockf_range) (insert_point : option Z) :
    list lockf_range :=
  let insert_point :=
    match insert_point with
    | None => None
    | Some a => lf_insert_point (tq_from lf_addr l a) elm
    end in
  match insert_point with
  | Some a => TAILQ_INSERT_BEFORE lf_addr l a elm
  | None => TAILQ_INSERT_TAIL l elm
  end.

(** * Accounting *)

Definition uidinfo_of (w : lockf) (owner : Z) : outcome (proc * Z) :=
  match procs w !! owner with
  | None => Undef NullDeref
  | Some p =>
      match ui_posixlocks w !! cr_uidinfo p with
      | None => Undef NullDeref
      | Some n => Ok (p, n)
      end
  end.

Definition lf_count_adjust (w : lockf) (owner : Z) (increase : bool) : outcome lockf :=
  kkassert (negb (owner =? 0))
    (let* (p, n) := uidinfo_of w owner in
     let n := s32 (if increase then n + p_numposixlocks p else n - p_numposixlocks p) in
     kkassert (n >=? 0) (Ok (set_counts (procs w) (<[cr_uidinfo p := n]> (ui_posixlocks w)) w))).

(** The answer is the C one: true for a refused increase. *)
Definition lf_count_change (w : lockf) (owner diff : Z) : outcome (lockf * bool) :=
  if owner =? 0 then Ok (w, false)
  else
    let* (p, n) := uidinfo_of w owner in
    let max := s32 (Z.min (rlim_cur p) (maxposixlocksperuid w)) in
    if (diff >? 0) && negb (cr_uid p =? 0) && negb (max =? -1) && (n >=? max)
    then Ok (w, true)
    else
      let n := s32 (n + diff) in
      let m := s32 (p_numposixlocks p + diff) in
      kkassert (n >=? 0)
        (kkassert (m >=? 0)
          (Ok (set_counts
                 (<[owner := Proc (p_pid p) m (cr_uid p) (cr_uidinfo p) (rlim_cur p)]> (procs w))
                 (<[cr_uidinfo p := n]> (ui_posixlocks w)) w, false))).

(** * Waiters *)

(** The loop over the blocked requests: the ones that stay on the queue and
    the ones that are taken off and woken. *)
Fixpoint lf_wakeup_loop (l : list lockf_range) (start end_ : Z) :
    list lockf_range * list lockf_range :=
  match l with
  | [] => ([], [])
  | range :: rest =>
      let (keep, woken) := lf_wakeup_loop rest start end_ in
      if negb (lf_overlap range start end_) then (range :: keep, woken)
      else (keep, set_flags 1 range :: woken)
  end.

Definition lf_wakeup (w : lockf) (start end_ : Z) : lockf :=
  let (keep, woken) := lf_wakeup_loop (lf_blocked w) start end_ in
  set_blocked keep (lf_woken w ++ woken) w.

(** * Setting and clearing locks *)

(** What the first loop of [lf_setlock] finds. *)
Record scan := Scan {
  conflict : option lockf_range;    (* [range] after the loop *)
  insert_point : option Z;
  first_match : option Z;
  last_match : option Z
}.

Fixpoint lf_setlock_scan (rest : list lockf_range) (owner type start end_ : Z)
    (ip fm lm : option Z) : scan :=
  match rest with
  | [] => Scan None ip fm lm
  | range :: rest' =>
      let ip :=
        match ip with
        | None => if lf_start range >=? start then Some (lf_addr range) else None
        | Some _ => ip
        end in
      if lf_end range <? start then lf_setlock_scan rest' owner type start end_ ip fm lm
      else if lf_start range >? end_ then Scan None ip fm lm
      else if lf_owner range =? owner then
        let fm := match fm with None => Some (lf_addr range) | Some _ => fm end in
        lf_setlock_scan rest' owner type start end_ ip fm (Some (lf_addr range))
      else if negb (type =? F_UNLCK) && ((type =? F_WRLCK) || (lf_type range =? F_WRLCK)) then
        Scan (Some range) ip fm lm
      else lf_setlock_scan rest' owner type start end_ ip fm lm
  end.

(** The state of the loop that clips and destroys the old ranges. *)
Record clip := Clip {
  c_range : list lockf_range;
  c_brange : option Z;
  c_count : Z;
  c_wakeup : bool
}.

Definition deref_opt (l : list lockf_range) (a : option Z) : outcome (option lockf_range) :=
  match a with
  | None => Ok None
  | Some a => let* x := deref lf_addr l a in Ok (Some x)
  end.

Definition same (a : option Z) (b : Z) : bool := bool_decide (a = Some b).

Section clip_loop.
Variables owner type flags start end_ : Z.
Variables first_match last_match : option Z.

(** The clip of a range that starts before the request; the answer holds the
    new [next] too. *)
Definition lf_clip_left (c : clip) (range : lockf_range) (next : option Z) :
    outcome (clip * option Z) :=
  let l := c_range c in
  let a := lf_addr range in
  kkassert (same first_match a)
    (let* brange := deref_opt l (c_brange c) in
     let merge :=
       match brange with
       | Some b => if (lf_end range >=? start - 1) && lf_match range type flags then Some b else None
       | None => None
       end in
     match merge with
     | Some b =>
         let l1 := tq_update lf_addr l a
                     (fun r => set_flags (Z.lor (lf_flags r) (Z.land (lf_flags b) F_NOEND))
                                 (set_end (lf_end b) r)) in
         let next := if same next (lf_addr b) then TAILQ_NEXT lf_addr l1 (lf_addr b) else next in
         let l2 := TAILQ_REMOVE lf_addr l1 (lf_addr b) in
         let count := if has_flag (lf_flags b) F_POSIX then c_count c - 1 else c_count c in
         Ok (Clip l2 (Some a) count (c_wakeup c), next)
     | None =>
         if lf_end range >=? start then
           let l1 := tq_update lf_addr l a
                       (fun r => let r := set_end (start - 1) r in
                                 if negb (type =? F_UNLCK)
                                 then set_flags (Z.ldiff (lf_flags r) F_NOEND) r else r) in
           Ok (Clip l1 (c_brange c) (c_count c) (c_wakeup c), next)
         else Ok (c, next)
     end).

(** The clip of a range that ends after the request. *)
Definition lf_clip_right (c : clip) (range : lockf_range) (next : option Z) : outcome clip :=
  let l := c_range c in
  let a := lf_addr range in
  kkassert (same last_match a)
    (let* brange := deref_opt l (c_brange c) in
     let merge :=
       match brange with
       | Some b => if (lf_start range <=? s64 (end_ + 1)) && lf_match range type flags then Some b else None
       | None => None
       end in
     match merge with
     | Some b =>
         let l1 := tq_update lf_addr l (lf_addr b)
                     (fun r => set_flags (Z.lor (lf_flags r) (Z.land (lf_flags range) F_NOEND))
                                 (set_end (lf_end range) r)) in
         let l2 := TAILQ_REMOVE lf_addr l1 a in
         let count := if has_flag (lf_flags range) F_POSIX then c_count c - 1 else c_count c in
         Ok (Clip l2 (c_brange c) count (c_wakeup c))
     | None =>
         if lf_start range <=? end_ then
           let moved := set_start (s64 (end_ + 1)) range in
           let l1 := TAILQ_REMOVE lf_addr l a in
           Ok (Clip (lf_insert l1 moved next) (c_brange c) (c_count c) (c_wakeup c))
         else Ok c
     end).

(** A range inside the request is destroyed. *)
Definition lf_clip_enclosed (c : clip) (range : lockf_range) : outcome clip :=
  kkassert ((lf_start range >=? start) && (lf_end range <=? end_))
    (let l1 := TAILQ_REMOVE lf_addr (c_range c) (lf_addr range) in
     let count := if has_flag (lf_flags range) F_POSIX then c_count c - 1 else c_count c in
     Ok (Clip l1 (c_brange c) count (c_wakeup c))).

Fixpoint lf_clip_loop (fuel : nat) (c : clip) (next : option Z) : outcome clip :=
  match fuel with
  | O => NoFuel
  | S fuel =>
      match next with
      | None => Ok c
      | Some a =>
          let* range := deref lf_addr (c_range c) a in
          let next := TAILQ_NEXT lf_addr (c_range c) a in
          if negb (lf_owner range =? owner) || same (c_brange c) a then lf_clip_loop fuel c next
          else
            let wakeup :=
              if type =? F_UNLCK then true
              else if (type =? F_RDLCK) && (lf_type range =? F_WRLCK) then true
              else c_wakeup c in
            let c := Clip (c_range c) (c_brange c) (c_count c) wakeup in
            if lf_start range <? start then
              let* (c, next) := lf_clip_left c range next in
              if same last_match a then Ok c else lf_clip_loop fuel c next
            else if lf_end range >? end_ then lf_clip_right c range next
            else
              let* c := lf_clip_enclosed c range in
              if same last_match a then Ok c else lf_clip_loop fuel c next
      end
  end.

(** The merge of [brange] with the ranges next to it on the queue. *)
Definition lf_merge_prev (l : list lockf_range) (b : Z) (count : Z) :
    outcome (list lockf_range * Z * Z) :=
  let* brange := deref lf_addr l b in
  let* prev := deref_opt l (TAILQ_PREV lf_addr l b) in
  match prev with
  | Some range =>
      if (lf_owner range =? owner) && (lf_end range =? lf_start brange - 1) && lf_match range type flags
      then
        let l1 := tq_update lf_addr l (lf_addr range)
                    (fun r => set_flags (Z.lor (lf_flags r) (Z.land (lf_flags brange) F_NOEND))
                                (set_end (lf_end brange) r)) in
        let l2 := TAILQ_REMOVE lf_addr l1 b in
        let count := if has_flag (lf_flags brange) F_POSIX then count - 1 else count in
        Ok (l2, lf_addr range, count)
      else Ok (l, b, count)
  | None => Ok (l, b, count)
  end.

Definition lf_merge_next (l : list lockf_range) (b : Z) (count : Z) :
    outcome (list lockf_range * Z) :=
  let* brange := deref lf_addr l b in
  let* next := deref_opt l (TAILQ_NEXT lf_addr l b) in
  match next with
  | Some range =>
      if (lf_owner range =? owner) && (lf_start range =? s64 (lf_end brange + 1)) && lf_match range type flags
      then
        let l1 := tq_update lf_addr l b
                    (fun r => set_flags (Z.lor (lf_flags r) (Z.land (lf_flags range) F_NOEND))
                                (set_end (lf_end range) r)) in
        let l2 := TAILQ_REMOVE lf_addr l1 (lf_addr range) in
        let count := if has_flag (lf_flags range) F_POSIX then count - 1 else count in
        Ok (l2, count)
      else Ok (l, count)
  | None => Ok (l, count)
  end.

End clip_loop.


(** The part of [lf_setlock] after the conflict check, when no range of the
    owner overlaps the request. *)
Definition lf_setlock_new (w : lockf) (owner type flags start end_ : Z) (ip : option Z) (range1 : Z) :
    outcome (lockf * Z) :=
  if type =? F_UNLCK then Ok (w, 0)
  else
    let* (w, refused) := if has_flag flags F_POSIX then lf_count_change w owner 1 else Ok (w, false) in
    if refused then Ok (w, ENOLCK)
    else
      let* range := lf_create_range range1 owner type flags start end_ in
      Ok (set_range (lf_insert (lf_range w) range ip) w, 0).

(** The worst case of the number of locks, to be charged before any change. *)
Definition lf_worst_count (type flags start end_ : Z) (first last : lockf_range) : Z * bool :=
  let double_clip :=
    (lf_start first <? start) && (lf_addr first =? lf_addr last) && (lf_end last >? end_) in
  let unlock_override :=
    negb (lf_start first <? start) && (type =? F_UNLCK) && (lf_end last <=? end_) in
  let count :=
    if has_flag flags F_POSIX && negb unlock_override then
      if negb (lf_match first type flags) && negb (lf_match last type flags)
      then if double_clip && negb (type =? F_UNLCK) then -2 else -1
      else 0
    else 0 in
  (count, double_clip).

(** The new range, [brange], goes on the queue unless this is an unlock. *)
Definition lf_insert_request (l : list lockf_range) (owner type flags start end_ : Z)
    (ip : option Z) (range1 : Z) (count : Z) : outcome (list lockf_range * option Z * Z) :=
  if negb (type =? F_UNLCK) then
    let* brange := lf_create_range range1 owner type flags start end_ in
    Ok (lf_insert l brange ip, Some range1, if has_flag flags F_POSIX then count + 1 else count)
  else Ok (l, None, count).

(** A range that sticks out on both sides of the request is cut in two. *)
Definition lf_double_clip (l : list lockf_range) (start end_ : Z) (first : lockf_range) (range2 : Z)
    (count : Z) : outcome (list lockf_range * option Z * Z) :=
  let* last := lf_create_range range2 (lf_owner first) (lf_type first) (lf_flags first)
                  (s64 (end_ + 1)) (lf_end first) in
  let l1 := tq_update lf_addr l (lf_addr first)
              (fun r => let r := set_end (start - 1) r in
                        set_flags (Z.ldiff (lf_flags r) F_NOEND) r) in
  Ok (lf_insert l1 last (Some (lf_addr first)), Some range2,
      if has_flag (lf_flags last) F_POSIX then count + 1 else count).

Definition lf_merge (l : list lockf_range) (owner type flags : Z) (b : option Z) (count : Z) :
    outcome (list lockf_range * Z) :=
  match b with
  | None => Ok (l, count)
  | Some b =>
      let* (l, b, count) := lf_merge_prev owner type flags l b count in
      lf_merge_next owner type flags l b count
  end.

(** The part of [lf_setlock] after the conflict check, when ranges of the
    owner overlap the request. *)
Definition lf_setlock_replace (w : lockf) (owner type flags start end_ : Z)
    (ip : option Z) (fm lm : Z) (range1 range2 : Z) : outcome (lockf * Z) :=
  let* first := deref lf_addr (lf_range w) fm in
  let* last := deref lf_addr (lf_range w) lm in
  let (count, double_clip) := lf_worst_count type flags start end_ first last in
  let* (w, refused) :=
    if negb (count =? 0) then lf_count_change w owner (- count) else Ok (w, false) in
  if refused then Ok (w, ENOLCK)
  else
    let* (l, brange, count) :=
      lf_insert_request (lf_range w) owner type flags start end_ ip range1 count in
    let* (l, lm, count) :=
      if double_clip then
        kkassert (fm =? lm) (lf_double_clip l start end_ first range2 count)
      else Ok (l, Some lm, count) in
    let* c :=
      lf_clip_loop owner type flags start end_ (Some fm) lm (S (length l))
        (Clip l brange count false) (Some fm) in
    let* (l, count) := lf_merge (c_range c) owner type flags (c_brange c) (c_count c) in
    let w := set_range l w in
    kkassert (count <=? 0)
      (let* (w, _) := if count <? 0 then lf_count_change w owner count else Ok (w, false) in
       let w := if c_wakeup c then lf_wakeup w start end_ else w in
       Ok (w, 0)).

(** A pass through [lf_setlock] ends with an answer or with a thread that
    sleeps on its range structure. *)
Inductive setlock_result :=
  | SetlockDone (error : Z)
  | SetlockSleep (brange : Z).

Definition deadlock (w : lockf) (range : lockf_range) : bool :=
  existsb (fun brange => lf_owner brange =? lf_owner range) (lf_blocked w).

(** [lf_setlock] from [restart] on; [fuel] bounds the depth of its recursion,
    in which a flock(2) style request gives up the shared locks it holds. *)
Fixpoint lf_setlock (fuel : nat) (w : lockf) (owner type flags start end_ : Z) :
    outcome (lockf * setlock_result) :=
  match fuel with
  | O => NoFuel
  | S fuel =>
      let (range1, w) := lf_alloc_range w in
      let (range2, w) := lf_alloc_range w in
      let found := lf_setlock_scan (lf_range w) owner type start end_ None None None in
      match conflict found with
      | Some range =>
          if negb (has_flag flags F_WAIT) then Ok (w, SetlockDone EAGAIN)
          else if has_flag flags F_POSIX && deadlock w range then Ok (w, SetlockDone EDEADLK)
          else
            let* w :=
              if negb (has_flag flags F_POSIX) && (type =? F_WRLCK) then
                let* (w, _) := lf_setlock fuel w owner F_UNLCK 0 start end_ in Ok w
              else Ok w in
            let* brange := lf_create_range range1 owner type 0 start end_ in
            Ok (set_blocked (TAILQ_INSERT_TAIL (lf_blocked w) brange) (lf_woken w) w,
                SetlockSleep range1)
      | None =>
          let* (w, error) :=
            match first_match found, last_match found with
            | Some fm, Some lm =>
                lf_setlock_replace w owner type flags start end_ (insert_point found) fm lm range1 range2
            | _, _ =>
                lf_setlock_new w owner type flags start end_ (insert_point found) range1
            end in
          Ok (w, SetlockDone error)
      end
  end.

(** The thread that sleeps on [brange] runs again, with the answer of
    tsleep(9): it takes its range structure off the queue unless [lf_wakeup]
    did, which the flags tell, and gives up with an error or goes back to
    [restart]. *)
Definition lf_setlock_wakeup (w : lockf) (brange error : Z) (flags : Z) :
    outcome (lockf * setlock_result) :=
  match tq_find lf_addr (lf_blocked w ++ lf_woken w) brange with
  | None => Undef NullDeref
  | Some r =>
      let w :=
        if lf_flags r =? 0
        then set_blocked (TAILQ_REMOVE lf_addr (lf_blocked w) brange) (lf_woken w) w
        else set_blocked (lf_blocked w) (TAILQ_REMOVE lf_addr (lf_woken w) brange) w in
      if negb (error =? 0) then Ok (w, SetlockDone error)
      else lf_setlock 2 w (lf_owner r) (lf_type r) flags (lf_start r) (lf_end r)
  end.

(** * Queries *)

Fixpoint lf_getlock_scan (l : list lockf_range) (owner type start end_ : Z) : option lockf_range :=
  match l with
  | [] => None
  | range :: rest =>
      if negb (lf_owner range =? owner) && lf_overlap range start end_ &&
         ((type =? F_WRLCK) || (lf_type range =? F_WRLCK))
      then Some range
      else lf_getlock_scan rest owner type start end_
  end.

Definition lf_getlock (fl : flock) (w : lockf) (owner type flags start end_ : Z) : outcome flock :=
  match lf_getlock_scan (lf_range w) owner type start end_ with
  | None => Ok (Flock (l_start fl) (l_len fl) (l_pid fl) F_UNLCK (l_whence fl))
  | Some range =>
      let len :=
        if has_flag (lf_flags range) F_NOEND then 0
        else s64 (lf_end range - lf_start range + 1) in
      let* pid :=
        if negb (lf_owner range =? 0) && has_flag (lf_flags range) F_POSIX then
          match procs w !! lf_owner range with
          | None => Undef NullDeref
          | Some p => Ok (p_pid p)
          end
        else Ok (-1) in
      Ok (Flock (lf_start range) len pid (lf_type range) SEEK_SET)
  end.

(** * The entry point *)

(** The conversion of a struct flock to a range: [None] for EINVAL. *)
Definition lf_advlock_range (fl : flock) (size : Z) (flags : Z) : option (Z * Z * Z) :=
  let start :=
    if (l_whence fl =? SEEK_SET) || (l_whence fl =? SEEK_CUR) then Some (l_start fl)
    else if l_whence fl =? SEEK_END then Some (s64 (size + l_start fl))
    else None in
  match start with
  | None => None
  | Some start =>
      if start <? 0 then None
      else if l_len fl =? 0 then Some (start, LLONG_MAX, Z.lor flags F_NOEND)
      else if l_len fl <? 0 then None
      else
        let end_ := s64 (s64 (start + l_len fl) - 1) in
        if end_ <? start then None else Some (start, end_, flags)
  end.

Definition lf_advlock (w : lockf) (owner op : Z) (fl : flock) (a_flags size : Z) :
    outcome (lockf * flock * setlock_result) :=
  match lf_advlock_range fl size a_flags with
  | None => Ok (w, fl, SetlockDone EINVAL)
  | Some (start, end_, flags) =>
      let type := l_type fl in
      let w := lockf_init w in
      if op =? F_SETLK then
        let* (w, r) := lf_setlock 2 w owner type flags start end_ in
        Ok (match r with
            | SetlockDone _ => set_v_flag (Z.lor (v_flag w) FdOps.VMAYHAVELOCKS) w
            | SetlockSleep _ => w
            end, fl, r)
      else if op =? F_UNLCK then
        let* (w, r) := lf_setlock 2 w owner type flags start end_ in
        Ok (if TAILQ_EMPTY (lf_range w) && TAILQ_EMPTY (lf_blocked w)
            then set_v_flag (Z.ldiff (v_flag w) FdOps.VMAYHAVELOCKS) w else w, fl, r)
      else if op =? F_GETLK then
        let* fl := lf_getlock fl w owner type flags start end_ in
        Ok (w, fl, SetlockDone 0)
      else Ok (w, fl, SetlockDone EINVAL)
  end.


(** The same thread when it runs again after a sleep in F_SETLK; the other
    operations do not sleep. *)
Definition lf_advlock_wakeup (w : lockf) (brange error flags : Z) :
    outcome (lockf * setlock_result) :=
  let* (w, r) := lf_setlock_wakeup w brange error flags in
  Ok (match r with
      | SetlockDone _ => set_v_flag (Z.lor (v_flag w) FdOps.VMAYHAVELOCKS) w
      | SetlockSleep _ => w
      end, r).

End Lockf.
