(* ===== verification/LockfTheory.v ===== *)
(** Correctness of the advisory record locks of Lockf.v.

    What a queue of ranges means is the relation [holds]: which owner holds a
    lock of which type on which byte.  [ranges_ok] says that the queue is
    sorted and that the ranges of one owner are disjoint; setting and clearing
    locks keep it, change what the owner holds on the bytes of the request and
    nothing else, and keep the count of POSIX locks equal to the number of
    ranges that carry the flag.  Over any sequence of requests, sleeps and
    wakeups, no two owners ever hold conflicting locks, and a request that
    sleeps and has not been woken has a lock to wait for. *)

From stdpp Require Import base list gmap sorting.
From S2P Require Import Prelude TailQ FdTree FdOps Lockf.

Module LockfTheory.
Import TailQ Lockf.

(** * What the queue of ranges means *)

Definition covers (r : lockf_range) (b : Z) : Prop := lf_start r ≤ b ≤ lf_end r.

(** [owner] holds a lock of type [t] on the byte [b]. *)
Definition holds (l : list lockf_range) (owner b t : Z) : Prop :=
  ∃ r, r ∈ l ∧ lf_owner r = owner ∧ covers r b ∧ lf_type r = t.

Definition lock_type (t : Z) : Prop := t = F_RDLCK ∨ t = F_WRLCK.

Definition range_ok (r : lockf_range) : Prop :=
  0 ≤ lf_start r ≤ lf_end r ∧ lf_end r ≤ LLONG_MAX ∧ lock_type (lf_type r).

Definition disjoint (r1 r2 : lockf_range) : Prop :=
  lf_end r1 < lf_start r2 ∨ lf_end r2 < lf_start r1.

Definition sorted (l : list lockf_range) : Prop := StronglySorted Z.le (lf_start <$> l).

(** The shape of the queue: different addresses, sorted, proper ranges. *)
Record queue_ok (l : list lockf_range) : Prop := {
  queue_addr : tq_ok lf_addr l;
  queue_sorted : sorted l;
  queue_range : ∀ r, r ∈ l → range_ok r
}.

Record ranges_ok (l : list lockf_range) : Prop := {
  ranges_queue : queue_ok l;
  ranges_disjoint : ∀ r1 r2, r1 ∈ l → r2 ∈ l → lf_owner r1 = lf_owner r2 → r1 ≠ r2 → disjoint r1 r2
}.

(** Two types of lock exclude each other. *)
Definition excludes (t1 t2 : Z) : Prop := t1 = F_WRLCK ∨ t2 = F_WRLCK.

(** No two owners hold locks that exclude each other. *)
Definition compatible (l : list lockf_range) : Prop :=
  ∀ o1 o2 b t1 t2, o1 ≠ o2 → holds l o1 b t1 → holds l o2 b t2 → ¬ excludes t1 t2.

(** A request of [owner] on the bytes [s..e] has to wait for [r]. *)
Definition blocks (r : lockf_range) (owner type s e : Z) : Prop :=
  lf_owner r ≠ owner ∧ type ≠ F_UNLCK ∧ lf_start r ≤ e ∧ s ≤ lf_end r ∧ excludes type (lf_type r).

Definition is_posix (flags : Z) : bool := has_flag flags F_POSIX.

(** The number of ranges of [owner] that count as POSIX locks. *)
Fixpoint nposix (owner : Z) (l : list lockf_range) : Z :=
  match l with
  | [] => 0
  | r :: l => (if (lf_owner r =? owner) && is_posix (lf_flags r) then 1 else 0) + nposix owner l
  end.

(** All the ranges of an owner are of one kind. *)
Definition one_kind (l : list lockf_range) (owner flags : Z) : Prop :=
  ∀ r, r ∈ l → lf_owner r = owner → is_posix (lf_flags r) = is_posix flags.

Lemma lock_type_unlck t : lock_type t → t ≠ F_UNLCK.
Proof. by intros [-> | ->]. Qed.

Lemma nposix_app o l1 l2 : nposix o (l1 ++ l2) = nposix o l1 + nposix o l2.
Proof. induction l1 as [|r l1 IH]; cbn [nposix app]; [done|]. rewrite IH. lia. Qed.

Lemma nposix_nonneg o l : 0 ≤ nposix o l.
Proof. induction l as [|r l IH]; cbn [nposix]; [lia|]. case_test; lia. Qed.

Lemma holds_type l o b t : queue_ok l → holds l o b t → lock_type t.
Proof. intros Hl (r & Hr & _ & _ & <-). by apply (queue_range l Hl). Qed.

Lemma holds_unique l o b t1 t2 : ranges_ok l → holds l o b t1 → holds l o b t2 → t1 = t2.
Proof.
  intros Hl (r1 & H1 & O1 & C1 & <-) (r2 & H2 & O2 & C2 & <-).
  destruct (decide (r1 = r2)) as [->|Hne]; [done|].
  destruct (ranges_disjoint l Hl r1 r2) as [H|H]; try done; [congruence| |];
    unfold covers in *; lia.
Qed.

(** ** Shape under the queue operations *)

Lemma sorted_app l1 l2 :
  sorted (l1 ++ l2) ↔
  (∀ x y, x ∈ l1 → y ∈ l2 → lf_start x ≤ lf_start y) ∧ sorted l1 ∧ sorted l2.
Proof.
  unfold sorted. rewrite fmap_app, StronglySorted_app. split; intros (H & ? & ?); split_and!; try done.
  - intros x y Hx Hy. apply H; by apply list_elem_of_fmap_2.
  - intros ? ? (x & -> & Hx)%list_elem_of_fmap (y & -> & Hy)%list_elem_of_fmap. by apply H.
Qed.

Lemma sorted_cons x l : sorted (x :: l) ↔ (∀ y, y ∈ l → lf_start x ≤ lf_start y) ∧ sorted l.
Proof.
  change (x :: l) with ([x] ++ l). rewrite sorted_app. split.
  - intros (H & _ & ?). split; [|done]. intros y Hy. apply H; [left|done].
  - intros [H ?]. split_and!; [|repeat constructor|done].
    intros ? y ->%list_elem_of_singleton Hy. by apply H.
Qed.

Lemma queue_ok_remove l1 x l2 : queue_ok (l1 ++ x :: l2) → queue_ok (l1 ++ l2).
Proof.
  intros [Ha Hs Hr]. split.
  - rewrite tq_ok_app in *. rewrite tq_ok_cons in Ha. destruct Ha as (? & H & ? & ?).
    split_and!; try done. intros y z Hy Hz. apply H; [done|by right].
  - rewrite sorted_app in *. rewrite sorted_cons in Hs. destruct Hs as (H & ? & ? & ?).
    split_and!; try done. intros y z Hy Hz. apply H; [done|by right].
  - intros y Hy. apply Hr. rewrite elem_of_app in *. rewrite elem_of_cons. tauto.
Qed.

(** Replacing a range by one with the same address and start. *)
Lemma queue_ok_replace l1 x y l2 :
  queue_ok (l1 ++ x :: l2) → lf_addr y = lf_addr x → lf_start y = lf_start x → range_ok y →
  queue_ok (l1 ++ y :: l2).
Proof.
  intros [Ha Hs Hr] Ea Es Hy. split.
  - unfold tq_ok in *. rewrite fmap_app, fmap_cons in *. by rewrite Ea.
  - unfold sorted in *. rewrite fmap_app, fmap_cons in *. by rewrite Es.
  - intros z. rewrite elem_of_app, elem_of_cons. intros [?|[->|?]]; [|done|];
      apply Hr; rewrite elem_of_app, elem_of_cons; tauto.
Qed.

(** [lf_insert], from a point before which every range starts earlier. *)
Lemma lf_insert_point_spec B e :
  tq_ok lf_addr B →
  ∃ B1 B2, B = B1 ++ B2 ∧ (∀ x, x ∈ B1 → lf_start x < lf_start e) ∧
    (match B2 with [] => True | x :: _ => lf_start e ≤ lf_start x end) ∧
    lf_insert_point B e = TAILQ_FIRST lf_addr B2.
Proof.
  induction B as [|r B IH]; intros HB.
  - exists [], []. split_and!; try done. intros x. by rewrite elem_of_nil.
  - cbn. destruct (lf_start r <? lf_start e) eqn:E; bool_prop.
    + apply tq_ok_cons in HB as [_ HB]. destruct (IH HB) as (B1 & B2 & -> & H1 & H2 & H3).
      exists (r :: B1), B2. split_and!; try done.
      intros x [->|?]%elem_of_cons; auto.
    + exists [], (r :: B). split_and!; try done. intros x. by rewrite elem_of_nil.
Qed.

Lemma lf_insert_spec A B e :
  tq_ok lf_addr (A ++ B) →
  ∃ B1 B2, B = B1 ++ B2 ∧ (∀ x, x ∈ B1 → lf_start x < lf_start e) ∧
    (match B2 with [] => True | x :: _ => lf_start e ≤ lf_start x end) ∧
    lf_insert (A ++ B) e (TAILQ_FIRST lf_addr B) = A ++ B1 ++ e :: B2.
Proof.
  intros Hok. pose proof Hok as (_ & _ & HB)%tq_ok_app.
  destruct (lf_insert_point_spec B e HB) as (B1 & B2 & E & H1 & H2 & H3).
  exists B1, B2. split_and!; try done.
  unfold lf_insert. destruct B as [|r B]; cbn [TAILQ_FIRST].
  { symmetry in E. apply app_nil in E as [-> ->]. unfold TAILQ_INSERT_TAIL. by rewrite app_nil_r. }
  rewrite tq_from_app by (by apply tq_ok_middle in Hok as [? _]).
  rewrite tq_from_here, H3, E.
  destruct B2 as [|x B2]; cbn [TAILQ_FIRST].
  - unfold TAILQ_INSERT_TAIL. by rewrite app_nil_r, <- app_assoc.
  - rewrite E, app_assoc in Hok. apply tq_ok_middle in Hok as [Hok _].
    rewrite app_assoc, TAILQ_INSERT_BEFORE_app by done.
    by rewrite TAILQ_INSERT_BEFORE_here, <- app_assoc.
Qed.

Lemma queue_ok_insert A B1 B2 e :
  queue_ok (A ++ B1 ++ B2) → range_ok e → (∀ x, x ∈ A ++ B1 ++ B2 → lf_addr x ≠ lf_addr e) →
  (∀ x, x ∈ A ++ B1 → lf_start x ≤ lf_start e) →
  (match B2 with [] => True | x :: _ => lf_start e ≤ lf_start x end) →
  queue_ok (A ++ B1 ++ e :: B2).
Proof.
  rewrite !app_assoc. set (C := A ++ B1). intros [Ha Hs Hr] He Hfresh HC HB2. split.
  - rewrite tq_ok_app in *. rewrite tq_ok_cons. destruct Ha as (H1 & H2 & H3).
    split_and!; try done.
    + intros x y Hx [->|Hy]%elem_of_cons; [|by apply H2].
      apply Hfresh. rewrite elem_of_app. by left.
    + intros y Hy. apply Hfresh. rewrite elem_of_app. by right.
  - rewrite sorted_app in *. rewrite sorted_cons. destruct Hs as (H1 & H2 & H3).
    split_and!; try done.
    + intros x y Hx [->|Hy]%elem_of_cons; auto.
    + intros y Hy. destruct B2 as [|x B2]; [by rewrite elem_of_nil in Hy|].
      apply sorted_cons in H3 as [H3 _]. apply elem_of_cons in Hy as [->|Hy]; [done|].
      specialize (H3 y Hy). lia.
  - intros x. rewrite elem_of_app, elem_of_cons. intros [?|[->|?]]; [|done|];
      apply Hr; rewrite elem_of_app; tauto.
Qed.


(** * The scan for a conflict *)

Ltac split_test := case_test; bool_prop.

Section scan.
Variables owner type s e : Z.

(** A range of the owner that the request overlaps. *)
Definition hit (r : lockf_range) : Prop := lf_owner r = owner ∧ lf_start r ≤ e ∧ s ≤ lf_end r.

Notation scan_of := (λ rest ip fm lm, lf_setlock_scan rest owner type s e ip fm lm).

Lemma not_hit_below r : lf_end r < s → ¬ hit r.
Proof. unfold hit. lia. Qed.

Lemma past_the_request rest r :
  sorted (r :: rest) → e < lf_start r →
  ∀ x, x ∈ r :: rest → ¬ hit x ∧ ¬ blocks x owner type s e ∧ e < lf_start x.
Proof.
  rewrite sorted_cons. intros [H _] Hr x Hx. assert (e < lf_start x).
  { apply elem_of_cons in Hx as [->|Hx]; [done|]. specialize (H x Hx). lia. }
  unfold hit, blocks. split_and!; [lia|lia|done].
Qed.

Lemma scan_conflict rest ip fm lm :
  sorted rest →
  match conflict (scan_of rest ip fm lm) with
  | Some r => r ∈ rest ∧ blocks r owner type s e
  | None => ∀ r, r ∈ rest → ¬ blocks r owner type s e
  end.
Proof.
  revert ip fm lm. induction rest as [|r rest IH]; intros ip fm lm Hs; cbn.
  { intros r Hr. by apply elem_of_nil in Hr. }
  set (ip' := match ip with Some _ => _ | None => _ end). clearbody ip'.
  pose proof Hs as [_ Hs']%sorted_cons.
  assert (Hskip : ∀ fm lm, ¬ blocks r owner type s e →
    match conflict (scan_of rest ip' fm lm) with
    | Some r0 => r0 ∈ r :: rest ∧ blocks r0 owner type s e
    | None => ∀ r0, r0 ∈ r :: rest → ¬ blocks r0 owner type s e
    end).
  { intros fm' lm' Hr. specialize (IH ip' fm' lm' Hs').
    destruct (conflict _); [split; [right|]; apply IH|].
    intros x [->|Hx]%elem_of_cons; auto. }
  split_test; [apply Hskip; unfold blocks; lia|].
  split_test; [intros x Hx; by apply (past_the_request rest r)|].
  split_test; [apply Hskip; unfold blocks; lia|].
  destruct (negb (type =? F_UNLCK) && ((type =? F_WRLCK) || (lf_type r =? F_WRLCK))) eqn:E2; cbn.
  - apply andb_true_iff in E2 as [E2 E3]. bool_prop.
    split; [left|]. unfold blocks, excludes. split_and!; try done; lia.
  - apply Hskip. unfold blocks, excludes. intros (_ & H1 & _ & _ & H2).
    apply andb_false_iff in E2 as [E2|E2]; bool_prop; [done|]. tauto.
Qed.

Lemma scan_ip_set rest a fm lm :
  conflict (scan_of rest (Some a) fm lm) = None →
  insert_point (scan_of rest (Some a) fm lm) = Some a.
Proof.
  revert fm lm. induction rest as [|r rest IH]; intros fm lm; cbn; [done|].
  repeat split_test; auto; done.
Qed.

Lemma scan_ip rest fm lm :
  s ≤ e → sorted rest → conflict (scan_of rest None fm lm) = None →
  ∃ A B, rest = A ++ B ∧ insert_point (scan_of rest None fm lm) = TAILQ_FIRST lf_addr B ∧
    (∀ x, x ∈ A → lf_start x < s) ∧ (∀ x, x ∈ B → s ≤ lf_start x).
Proof.
  intros Hse. revert fm lm. induction rest as [|r rest IH]; intros fm lm Hs; cbn.
  { intros _. exists [], []. split_and!; try done; intros x Hx; by apply elem_of_nil in Hx. }
  pose proof Hs as [Hle Hs']%sorted_cons.
  destruct (lf_start r >=? s) eqn:E; bool_prop; cbn.
  - intros Hc. exists [], (r :: rest). split_and!; try done.
    + revert Hc. repeat split_test; try done; apply scan_ip_set.
    + intros x Hx. by apply elem_of_nil in Hx.
    + intros x [->|Hx]%elem_of_cons; [lia|]. specialize (Hle x Hx). lia.
  - assert (Hskip : ∀ fm lm, conflict (scan_of rest None fm lm) = None → ∃ A B,
      r :: rest = A ++ B ∧ insert_point (scan_of rest None fm lm) = TAILQ_FIRST lf_addr B ∧
      (∀ x, x ∈ A → lf_start x < s) ∧ (∀ x, x ∈ B → s ≤ lf_start x)).
    { intros fm' lm' Hc. destruct (IH fm' lm' Hs' Hc) as (A & B & -> & H1 & H2 & H3).
      exists (r :: A), B. split_and!; try done. intros x [->|Hx]%elem_of_cons; auto. }
    split_test; [apply Hskip|]. split_test; [lia|].
    split_test; [apply Hskip|]. split_test; [done|apply Hskip].
Qed.

Lemma scan_first_set rest ip a lm : first_match (scan_of rest ip (Some a) lm) = Some a.
Proof.
  revert ip lm. induction rest as [|r rest IH]; intros ip lm; cbn; [done|].
  repeat split_test; auto; done.
Qed.

Lemma scan_first rest ip lm :
  sorted rest → conflict (scan_of rest ip None lm) = None →
  match first_match (scan_of rest ip None lm) with
  | None => ∀ r, r ∈ rest → ¬ hit r
  | Some a => ∃ A f B, rest = A ++ f :: B ∧ lf_addr f = a ∧ hit f ∧ ∀ x, x ∈ A → ¬ hit x
  end.
Proof.
  revert ip lm. induction rest as [|r rest IH]; intros ip lm Hs; cbn.
  { intros _ r Hr. by apply elem_of_nil in Hr. }
  set (ip' := match ip with Some _ => _ | None => _ end). clearbody ip'.
  pose proof Hs as [_ Hs']%sorted_cons.
  assert (Hskip : ∀ lm, ¬ hit r → conflict (scan_of rest ip' None lm) = None →
    match first_match (scan_of rest ip' None lm) with
    | None => ∀ x, x ∈ r :: rest → ¬ hit x
    | Some a => ∃ A f B, r :: rest = A ++ f :: B ∧ lf_addr f = a ∧ hit f ∧ ∀ x, x ∈ A → ¬ hit x
    end).
  { intros lm' Hr Hc. specialize (IH ip' lm' Hs' Hc). destruct (first_match _).
    - destruct IH as (A & f & B & -> & ? & ? & HA). exists (r :: A), f, B. split_and!; try done.
      intros x [->|Hx]%elem_of_cons; auto.
    - intros x [->|Hx]%elem_of_cons; auto. }
  split_test; [apply Hskip; by apply not_hit_below|].
  split_test; [intros _ x Hx; by apply (past_the_request rest r)|].
  split_test.
  - intros _. rewrite scan_first_set. exists [], r, rest. split_and!; try done; try (unfold hit; lia).
    intros x Hx. by apply elem_of_nil in Hx.
  - split_test; [done|]. apply Hskip. unfold hit. tauto.
Qed.

Lemma scan_last rest ip fm lm :
  sorted rest → conflict (scan_of rest ip fm lm) = None →
  (last_match (scan_of rest ip fm lm) = lm ∧ ∀ r, r ∈ rest → ¬ hit r) ∨
  ∃ A g B, rest = A ++ g :: B ∧ last_match (scan_of rest ip fm lm) = Some (lf_addr g) ∧ hit g ∧
    ∀ x, x ∈ B → ¬ hit x.
Proof.
  revert ip fm lm. induction rest as [|r rest IH]; intros ip fm lm Hs; cbn.
  { intros _. left. split; [done|]. intros r Hr. by apply elem_of_nil in Hr. }
  set (ip' := match ip with Some _ => _ | None => _ end). clearbody ip'.
  pose proof Hs as [_ Hs']%sorted_cons.
  assert (Hskip : ∀ fm lm', conflict (scan_of rest ip' fm lm') = None →
    (hit r ∧ lm' = Some (lf_addr r)) ∨ (¬ hit r ∧ lm' = lm) →
    (last_match (scan_of rest ip' fm lm') = lm ∧ ∀ x, x ∈ r :: rest → ¬ hit x) ∨
    ∃ A g B, r :: rest = A ++ g :: B ∧ last_match (scan_of rest ip' fm lm') = Some (lf_addr g) ∧
      hit g ∧ ∀ x, x ∈ B → ¬ hit x).
  { intros fm' lm' Hc Hr. destruct (IH ip' fm' lm' Hs' Hc) as [[-> Hno]|(A & g & B & -> & ? & ? & ?)].
    - destruct Hr as [[Hr ->]|[Hr ->]].
      + right. by exists [], r, rest.
      + left. split; [done|]. intros x [->|Hx]%elem_of_cons; auto.
    - right. by exists (r :: A), g, B. }
  split_test; [intros Hc; apply Hskip; [done|]; right; split; [by apply not_hit_below|done]|].
  split_test; [intros _; left; split; [done|]; intros x Hx; by apply (past_the_request rest r)|].
  split_test.
  - intros Hc. apply Hskip; [done|]. left. unfold hit. split; [lia|done].
  - split_test; [done|]. intros Hc. apply Hskip; [done|]. right. unfold hit. tauto.
Qed.

End scan.


(** * Replacing the ranges of the owner *)

Lemma queue_elem_remove A x B z :
  queue_ok (A ++ x :: B) → z ∈ A ++ B ↔ z ∈ A ++ x :: B ∧ z ≠ x.
Proof.
  intros [Ha _ _]. apply tq_ok_middle in Ha as [H1 H2].
  rewrite !elem_of_app, elem_of_cons. split; [|tauto].
  intros Hz. split; [tauto|]. intros ->. destruct Hz as [Hz|Hz]; [by apply (H1 x)|by apply (H2 x)].
Qed.

Lemma queue_elem_replace A x y B z :
  queue_ok (A ++ x :: B) → z ∈ A ++ y :: B ↔ (z ∈ A ++ x :: B ∧ z ≠ x) ∨ z = y.
Proof.
  intros H. rewrite <- (queue_elem_remove A x B z H), !elem_of_app, elem_of_cons. tauto.
Qed.

Lemma is_posix_lor f g : is_posix (Z.lor f (Z.land g F_NOEND)) = is_posix f.
Proof.
  unfold is_posix, has_flag. do 2 f_equal. apply Z.bits_inj'. intros i Hi.
  rewrite !Z.land_spec, Z.lor_spec, Z.land_spec.
  destruct (decide (i = 6)) as [->|Hne].
  - change (Z.testbit F_NOEND 6) with false. by rewrite andb_false_r, orb_false_r.
  - change F_POSIX with (2 ^ 6). rewrite Z.pow2_bits_false by lia. by rewrite !andb_false_r.
Qed.

Lemma is_posix_ldiff f : is_posix (Z.ldiff f F_NOEND) = is_posix f.
Proof.
  unfold is_posix, has_flag. do 2 f_equal. apply Z.bits_inj'. intros i Hi.
  rewrite !Z.land_spec, Z.ldiff_spec.
  destruct (decide (i = 6)) as [->|Hne].
  - change (Z.testbit F_NOEND 6) with false. by rewrite andb_true_r.
  - change F_POSIX with (2 ^ 6). rewrite Z.pow2_bits_false by lia. by rewrite !andb_false_r.
Qed.

Lemma lf_match_spec r type flags :
  lf_match r type flags = true ↔ lf_type r = type ∧ is_posix (lf_flags r) = is_posix flags.
Proof.
  unfold lf_match, is_posix, has_flag.
  assert (Hp : ∀ x, (Z.land x F_POSIX =? 0) = negb (Z.testbit x 6)).
  { intros x. destruct (Z.testbit x 6) eqn:E; cbn.
    - apply Z.eqb_neq. intros H. apply (f_equal (λ y, Z.testbit y 6)) in H.
      rewrite Z.land_spec, E, Z.bits_0 in H. done.
    - apply Z.eqb_eq, Z.bits_inj'. intros i Hi. rewrite Z.land_spec, Z.bits_0.
      destruct (decide (i = 6)) as [->|Hne]; [by rewrite E|].
      change F_POSIX with (2 ^ 6). rewrite Z.pow2_bits_false by lia. apply andb_false_r. }
  rewrite !Hp, Z.lxor_spec.
  generalize (Z.testbit (lf_flags r) 6), (Z.testbit flags 6). intros p q.
  destruct (lf_type r =? type) eqn:E; bool_prop; cbn [negb]; [|split; [done|tauto]].
  destruct p, q; (split; [done || by split|done || by intros []]).
Qed.

Section replace.
Variables (o type flags s e : Z) (l0 : list lockf_range) (bound : Z).
Hypothesis Hse : s ≤ e.

(** The ranges of the owner other than the one of the request. *)
Definition old (l : list lockf_range) (ob : option lockf_range) (r : lockf_range) : Prop :=
  r ∈ l ∧ lf_owner r = o ∧ ob ≠ Some r.

(** While the queue [l] is being changed, with [ob] the range that covers the
    request: the ranges of others are the ones of [l0]; outside the request
    the owner holds what it held in [l0]; and two ranges of the owner only
    meet inside the request, where one of them is [ob]; addresses are below
    [bound]. *)
Record changing (l : list lockf_range) (ob : option lockf_range) : Prop := {
  ch_addr : ∀ r, r ∈ l → lf_addr r < bound;
  ch_other : ∀ r, lf_owner r ≠ o → r ∈ l ↔ r ∈ l0;
  ch_kind : ∀ r, r ∈ l → lf_owner r = o → is_posix (lf_flags r) = is_posix flags;
  ch_request : match ob with
               | None => type = F_UNLCK
               | Some b => b ∈ l ∧ lf_owner b = o ∧ lf_type b = type ∧ lf_start b ≤ s ∧ e ≤ lf_end b
               end;
  ch_disjoint : ∀ r1 r2, old l ob r1 → old l ob r2 → r1 ≠ r2 → disjoint r1 r2;
  ch_meet : ∀ b r x, ob = Some b → old l ob r → covers b x → covers r x → s ≤ x ≤ e;
  ch_outside : ∀ x t, ¬ (s ≤ x ≤ e) → holds l o x t ↔ holds l0 o x t
}.

(** A range inside the request is destroyed. *)
Lemma changing_remove l l' ob r :
  changing l ob → old l ob r → s ≤ lf_start r → lf_end r ≤ e →
  (∀ z, z ∈ l' ↔ z ∈ l ∧ z ≠ r) → changing l' ob.
Proof.
  intros [Hb0 Ho Hk Hr Hd Hm Hx] (Hr1 & Hr2 & Hr3) Hs He Hl.
  assert (Hold : ∀ z, old l' ob z → old l ob z) by (intros z; unfold old; rewrite Hl; tauto).
  split.
  - intros z. rewrite Hl. intros [? _]. by apply Hb0.
  - intros z Hz. rewrite Hl, Ho by done. split; [tauto|]. intros. split; [done|]. by intros ->.
  - intros z. rewrite Hl. naive_solver.
  - destruct ob as [b|]; [|done]. rewrite Hl. split_and!; try naive_solver.
  - auto.
  - eauto.
  - intros x t Hxr. rewrite <- Hx by done. unfold holds. split; intros (z & Hz & Hz2 & Hz3 & Hz4).
    + exists z. rewrite Hl in Hz. tauto.
    + exists z. rewrite Hl. split_and!; try done. intros ->. unfold covers in Hz3. lia.
Qed.

(** A range loses its bytes inside the request. *)
Lemma changing_trim l l' ob r y :
  changing l ob → old l ob r → (∀ b, ob = Some b → b ≠ y) → lf_addr y < bound →
  lf_owner y = o → lf_type y = lf_type r → is_posix (lf_flags y) = is_posix (lf_flags r) →
  (∀ x, covers y x ↔ covers r x ∧ ¬ (s ≤ x ≤ e)) → lf_start y ≤ lf_end y →
  (∀ z, z ∈ l' ↔ (z ∈ l ∧ z ≠ r) ∨ z = y) → changing l' ob.
Proof.
  intros [Hb0 Ho Hk Hr Hd Hm Hx] Hrold Hby Hyb Hy1 Hy2 Hy3 Hy4 Hy5 Hl.
  pose proof Hrold as (Hr1 & Hr2 & Hr3).
  assert (Hold : ∀ z, old l' ob z → (old l ob z ∧ z ≠ r) ∨ z = y).
  { intros z. unfold old. rewrite Hl. tauto. }
  assert (Hsub : ∀ x, covers y x → covers r x) by (intros x; rewrite Hy4; tauto).
  assert (Hdis : ∀ z, disjoint r z → disjoint y z).
  { intros z. pose proof (Hsub (lf_start y)) as H1. pose proof (Hsub (lf_end y)) as H2.
    unfold covers, disjoint in *. lia. }
  split.
  - intros z. rewrite Hl. intros [[? _]| ->]; [by apply Hb0|done].
  - intros z Hz. rewrite Hl. rewrite <- Ho by done. split; [|intros; left; split; congruence].
    intros [[? ?]| ->]; [done|congruence].
  - intros z. rewrite Hl. intros [[? ?]| ->]; [by apply Hk|]. rewrite Hy3. intros _. by apply Hk.
  - destruct ob as [b|]; [|done]. rewrite Hl. split_and!; try naive_solver.
  - intros r1 r2 [[H1 N1]| ->]%Hold [[H2 N2]| ->]%Hold Hne; try done.
    + by apply Hd.
    + assert (disjoint y r1) by (by apply Hdis, Hd). unfold disjoint in *. lia.
    + by apply Hdis, Hd.
  - intros b z x Hb [[Hz _]| ->]%Hold Hbx Hzx; [by apply (Hm b z)|].
    by apply (Hm b r); auto.
  - intros x t Hxr. rewrite <- Hx by done. unfold holds. split; intros (z & Hz & Hz2 & Hz3 & Hz4).
    + rewrite Hl in Hz. destruct Hz as [[Hz _]| ->]; [by exists z|].
      exists r. split_and!; try done; [by apply Hsub|congruence].
    + destruct (decide (z = r)) as [->|Hne].
      * exists y. rewrite Hl, Hy4, Hy2. split_and!; auto.
      * exists z. rewrite Hl. split_and!; auto.
Qed.

(** A range is cut in two around the request. *)
Lemma changing_split l l' ob r y1 y2 :
  changing l ob → old l ob r → (∀ b, ob = Some b → b ≠ y1 ∧ b ≠ y2) →
  lf_addr y1 < bound → lf_addr y2 < bound →
  lf_owner y1 = o → lf_type y1 = lf_type r → is_posix (lf_flags y1) = is_posix (lf_flags r) →
  lf_owner y2 = o → lf_type y2 = lf_type r → is_posix (lf_flags y2) = is_posix (lf_flags r) →
  (∀ x, covers y1 x ∨ covers y2 x ↔ covers r x ∧ ¬ (s ≤ x ≤ e)) →
  lf_start y1 ≤ lf_end y1 → lf_start y2 ≤ lf_end y2 → lf_end y1 < lf_start y2 →
  (∀ z, z ∈ l' ↔ (z ∈ l ∧ z ≠ r) ∨ z = y1 ∨ z = y2) → changing l' ob.
Proof.
  intros [Hb0 Ho Hk Hr Hd Hm Hx] Hrold Hby Hyb1 Hyb2 Ho1 Ht1 Hp1 Ho2 Ht2 Hp2 Hcov Hn1 Hn2 Hsep Hl.
  pose proof Hrold as (Hr1 & Hr2 & Hr3).
  assert (Hold : ∀ z, old l' ob z → (old l ob z ∧ z ≠ r) ∨ z = y1 ∨ z = y2).
  { intros z. unfold old. rewrite Hl. tauto. }
  assert (Hdis : ∀ z y, y = y1 ∨ y = y2 → disjoint r z → disjoint y z).
  { intros z y Hy. pose proof (Hcov (lf_start y)) as H1. pose proof (Hcov (lf_end y)) as H2.
    destruct Hy as [-> | ->]; unfold covers, disjoint in *; lia. }
  assert (Hdis' : ∀ z y, y = y1 ∨ y = y2 → disjoint r z → disjoint z y).
  { intros z y Hy Hz. destruct (Hdis z y Hy Hz); [by right|by left]. }
  split.
  - intros z. rewrite Hl. intros [[? _]|[-> | ->]]; [by apply Hb0|done|done].
  - intros z Hz. rewrite Hl. rewrite <- Ho by done. split; [|intros; left; split; congruence].
    intros [[? ?]|[-> | ->]]; congruence || done.
  - intros z. rewrite Hl. intros [[? ?]|[-> | ->]] Hzo; [by apply Hk| |];
      rewrite ?Hp1, ?Hp2; by apply Hk.
  - destruct ob as [b|]; [|done]. rewrite Hl. split_and!; try naive_solver.
  - intros r1 r2 [[H1 N1]|H1]%Hold [[H2 N2]|H2]%Hold Hne.
    + by apply Hd.
    + apply (Hdis' r1 r2 H2), Hd; done.
    + apply (Hdis r2 r1 H1), Hd; done.
    + destruct H1 as [-> | ->], H2 as [-> | ->]; try done; [by left|by right].
  - intros b z x Hb [[Hz _]|Hz]%Hold Hbx Hzx; [by apply (Hm b z)|].
    apply (Hm b r); try done. apply Hcov. destruct Hz as [-> | ->]; auto.
  - intros x t Hxr. rewrite <- Hx by done. unfold holds. split; intros (z & Hz & Hz2 & Hz3 & Hz4).
    + rewrite Hl in Hz. destruct Hz as [[Hz _]|Hz]; [by exists z|].
      exists r. split_and!; try done; [apply Hcov|]; destruct Hz as [-> | ->]; auto; congruence.
    + destruct (decide (z = r)) as [->|Hne].
      * destruct (proj2 (Hcov x)) as [?|?]; [done|exists y1|exists y2]; rewrite Hl;
          split_and!; auto; congruence.
      * exists z. rewrite Hl. split_and!; auto.
Qed.

(** A range is merged with the one of the request. *)
Lemma changing_merge l l' b r y :
  changing l (Some b) → old l (Some b) r →
  lf_type r = type → lf_addr y < bound →
  lf_owner y = o → lf_type y = type → is_posix (lf_flags y) = is_posix flags →
  (∀ x, covers y x ↔ covers b x ∨ covers r x) → lf_start y ≤ lf_start b → lf_end b ≤ lf_end y →
  (∀ z, z ∈ l' ↔ (z ∈ l ∧ z ≠ r ∧ z ≠ b) ∨ z = y) → changing l' (Some y).
Proof.
  intros [Hb0 Ho Hk Hr Hd Hm Hx] Hrold Hrt Hyb Hy1 Hy2 Hy3 Hy4 Hy5 Hy6 Hl.
  pose proof Hrold as (Hr1 & Hr2 & Hr3). destruct Hr as (Hb1 & Hb2 & Hb3 & Hb4 & Hb5).
  assert (Hold : ∀ z, old l' (Some y) z → old l (Some b) z ∧ z ≠ r).
  { intros z. unfold old. rewrite Hl. intros ([(? & ? & ?)| ->] & ? & ?); [|done]. naive_solver. }
  split.
  - intros z. rewrite Hl. intros [(? & _)| ->]; [by apply Hb0|done].
  - intros z Hz. rewrite Hl. rewrite <- Ho by done. split.
    + intros [(? & ? & ?)| ->]; [done|congruence].
    + intros ?. left. split_and!; [done|congruence|congruence].
  - intros z. rewrite Hl. intros [(? & ? & ?)| ->]; [by apply Hk|done].
  - rewrite Hl. split_and!; auto; lia.
  - intros r1 r2 [H1 _]%Hold [H2 _]%Hold. by apply Hd.
  - intros y' z x [= <-] [Hz Hzr]%Hold Hyx Hzx.
    apply Hy4 in Hyx as [Hbx|Hrx]; [by apply (Hm b z)|].
    destruct (Hd z r Hz Hrold Hzr); unfold covers in *; lia.
  - intros x t Hxr. rewrite <- Hx by done. unfold holds. split; intros (z & Hz & Hz2 & Hz3 & Hz4).
    + rewrite Hl in Hz. destruct Hz as [[Hz _]| ->]; [by exists z|].
      apply Hy4 in Hz3 as [Hz3|Hz3]; [exists b|exists r]; split_and!; congruence || done.
    + destruct (decide (z = r)) as [->|Hne]; [|destruct (decide (z = b)) as [->|Hne2]].
      * exists y. rewrite Hl, Hy4. split_and!; auto. congruence.
      * exists y. rewrite Hl, Hy4. split_and!; auto. congruence.
      * exists z. rewrite Hl. split_and!; auto.
Qed.

End replace.


(** * The loop that clips the ranges of the owner *)

Lemma off_t_small x : 0 ≤ x ≤ LLONG_MAX → s64 x = x.
Proof. intros H. apply signed_of_small; [lia|]. unfold is_s, LLONG_MAX in *. lia. Qed.

Lemma same_spec a b : same a b = true ↔ a = Some b.
Proof. apply bool_decide_eq_true. Qed.
Lemma same_spec_false a b : same a b = false ↔ a ≠ Some b.
Proof. apply bool_decide_eq_false. Qed.

Lemma TAILQ_FIRST_app C1 x C2 : ∃ y, y ∈ C1 ++ x :: C2 ∧ TAILQ_FIRST lf_addr (C1 ++ x :: C2) = Some (lf_addr y).
Proof. destruct C1 as [|y C1]; [exists x|exists y]; (split; [left|done]). Qed.

(** [next] after the range it may point to has been removed. *)
Lemma next_after_removal pre r C1 b C2 :
  tq_ok lf_addr (pre ++ r :: C1 ++ b :: C2) →
  (if same (TAILQ_FIRST lf_addr (C1 ++ b :: C2)) (lf_addr b)
   then TAILQ_NEXT lf_addr (pre ++ r :: C1 ++ b :: C2) (lf_addr b)
   else TAILQ_FIRST lf_addr (C1 ++ b :: C2)) = TAILQ_FIRST lf_addr (C1 ++ C2).
Proof.
  intros Hok. replace (pre ++ r :: C1 ++ b :: C2) with ((pre ++ r :: C1) ++ b :: C2) in *
    by (by rewrite <- app_assoc).
  apply tq_ok_middle in Hok as [H1 _].
  destruct (same _ _) eqn:E.
  - rewrite TAILQ_NEXT_middle by done. apply same_spec in E.
    destruct C1 as [|x C1]; [done|]. cbn in E. exfalso. apply (H1 x); [|by injection E].
    rewrite elem_of_app, elem_of_cons. right. right. left.
  - apply same_spec_false in E. by destruct C1 as [|x C1].
Qed.

Lemma nposix_cons o r l :
  nposix o (r :: l) = (if (lf_owner r =? o) && is_posix (lf_flags r) then 1 else 0) + nposix o l.
Proof. done. Qed.

Lemma nposix_other o r y l1 l2 :
  lf_owner y = lf_owner r → is_posix (lf_flags y) = is_posix (lf_flags r) →
  nposix o (l1 ++ y :: l2) = nposix o (l1 ++ r :: l2).
Proof. intros E1 E2. by rewrite !nposix_app, !nposix_cons, E1, E2. Qed.

Lemma nposix_removed o r l1 l2 :
  lf_owner r = o →
  nposix o (l1 ++ r :: l2) = nposix o (l1 ++ l2) + (if is_posix (lf_flags r) then 1 else 0).
Proof.
  intros <-. rewrite !nposix_app, nposix_cons, Z.eqb_refl. cbn [andb]. lia.
Qed.

Lemma regroup {A} (pre : list A) y C D : pre ++ y :: C ++ D = (pre ++ y :: C) ++ D.
Proof. by rewrite <- app_assoc. Qed.

(** The queue operations through the elements they take and give. *)
Lemma update_spec l x f :
  queue_ok l → x ∈ l → lf_addr (f x) = lf_addr x → lf_start (f x) = lf_start x → range_ok (f x) →
  let l' := tq_update lf_addr l (lf_addr x) f in
  queue_ok l' ∧ (∀ z, z ∈ l' ↔ (z ∈ l ∧ z ≠ x) ∨ z = f x) ∧
  ∀ o, lf_owner (f x) = lf_owner x → is_posix (lf_flags (f x)) = is_posix (lf_flags x) →
       nposix o l' = nposix o l.
Proof.
  intros Hq Hx E1 E2 Hok l'. destruct (tq_split lf_addr l x (queue_addr _ Hq) Hx) as (A & B & -> & HA & _).
  unfold l'. rewrite tq_update_app, tq_update_here by done. split_and!.
  - by apply (queue_ok_replace A x).
  - intros z. by apply queue_elem_replace.
  - intros o. apply nposix_other.
Qed.

Lemma remove_spec l x :
  queue_ok l → x ∈ l →
  let l' := TAILQ_REMOVE lf_addr l (lf_addr x) in
  queue_ok l' ∧ (∀ z, z ∈ l' ↔ z ∈ l ∧ z ≠ x) ∧
  ∀ o, lf_owner x = o → nposix o l = nposix o l' + (if is_posix (lf_flags x) then 1 else 0).
Proof.
  intros Hq Hx l'. destruct (tq_split lf_addr l x (queue_addr _ Hq) Hx) as (A & B & -> & HA & _).
  unfold l'. rewrite TAILQ_REMOVE_app, TAILQ_REMOVE_here by done. split_and!.
  - by apply (queue_ok_remove A x).
  - intros z. by apply queue_elem_remove.
  - intros o. apply nposix_removed.
Qed.

Section clip.
Variables (o type flags s e : Z) (l0 : list lockf_range) (bound : Z).
Hypothesis Hse : s ≤ e.
Hypothesis Hs0 : 0 ≤ s.
Hypothesis He : e ≤ LLONG_MAX.

Notation old := (old o).
Notation changing := (changing o type flags s e l0 bound).
Notation hit := (hit o s e).

Lemma deref_request l ob :
  queue_ok l → changing l ob → deref_opt l (lf_addr <$> ob) = Ok ob.
Proof.
  intros [Ha _ _] Hc. destruct ob as [b|]; [|done]. cbn.
  rewrite deref_elem; [done|done|]. by destruct (ch_request _ _ _ _ _ _ _ _ _ Hc).
Qed.

(** The effect of clipping the range [r] between [pre] and [rest]. *)
Record clipped (pre : list lockf_range) (r : lockf_range) (rest : list lockf_range)
    (ob : option lockf_range) (cnt : Z) (l' : list lockf_range) (ob' : option lockf_range) (cnt' : Z) : Prop := {
  cl_queue : queue_ok l';
  cl_changing : changing l' ob';
  cl_old : ∀ z, old l' ob' z → (old (pre ++ r :: rest) ob z ∧ z ≠ r) ∨ (lf_addr z = lf_addr r ∧ ¬ hit z);
  cl_keep : ∀ z, old (pre ++ r :: rest) ob z → z ≠ r → old l' ob' z;
  cl_count : cnt' - cnt = nposix o l' - nposix o (pre ++ r :: rest);
  cl_matched : is_posix flags = true → type ≠ F_UNLCK → lf_match r type flags = true → cnt' ≤ cnt - 1;
  cl_le : cnt' ≤ cnt
}.

Lemma not_hit_below' r : lf_end r < s → ¬ hit r.
Proof. apply not_hit_below. Qed.

Lemma unlck_no_match r :
  range_ok r → lf_match r type flags = true → type ≠ F_UNLCK.
Proof. intros (_ & _ & Ht) [<- _]%lf_match_spec. by apply lock_type_unlck. Qed.

Lemma request_after pre r rest b :
  queue_ok (pre ++ r :: rest) → changing (pre ++ r :: rest) (Some b) →
  old (pre ++ r :: rest) (Some b) r → lf_start r < s → s - 1 ≤ lf_end r →
  lf_start b = s ∧ ∃ C1 C2, rest = C1 ++ b :: C2.
Proof.
  intros Hq Hc Hr Hrs Hre.
  destruct (ch_request _ _ _ _ _ _ _ _ _ Hc) as (Hb & Hbo & Hbt & Hbs & Hbe).
  assert (lf_start b = s) as Hbeq.
  { destruct (decide (lf_start b = s)) as [|Hne]; [done|].
    pose proof (ch_meet _ _ _ _ _ _ _ _ _ Hc b r (s - 1) eq_refl Hr) as H. unfold covers in H. lia. }
  split; [done|].
  apply elem_of_app in Hb as [Hb|Hb].
  - pose proof (queue_sorted _ Hq) as (H & _)%sorted_app.
    specialize (H b r Hb ltac:(left)). lia.
  - apply elem_of_cons in Hb as [->|Hb]; [by destruct Hr as (_ & _ & [])|].
    by apply list_elem_of_split in Hb.
Qed.

(** ** The left clip *)

Lemma clip_left_merge fm pre r C1 b C2 cnt wk :
  queue_ok (pre ++ r :: C1 ++ b :: C2) → changing (pre ++ r :: C1 ++ b :: C2) (Some b) →
  old (pre ++ r :: C1 ++ b :: C2) (Some b) r → lf_start b = s →
  lf_start r < s → s - 1 ≤ lf_end r ≤ e → fm = Some (lf_addr r) → lf_match r type flags = true →
  let y := set_flags (Z.lor (lf_flags r) (Z.land (lf_flags b) F_NOEND)) (set_end (lf_end b) r) in
  let cnt' := if has_flag (lf_flags b) F_POSIX then cnt - 1 else cnt in
  lf_clip_left type flags s fm (Clip (pre ++ r :: C1 ++ b :: C2) (Some (lf_addr b)) cnt wk) r
    (TAILQ_FIRST lf_addr (C1 ++ b :: C2)) =
    Ok (Clip (pre ++ y :: C1 ++ C2) (Some (lf_addr y)) cnt' wk, TAILQ_FIRST lf_addr (C1 ++ C2)) ∧
  clipped pre r (C1 ++ b :: C2) (Some b) cnt (pre ++ y :: C1 ++ C2) (Some y) cnt'.
Proof.
  intros Hq Hc Hr Hbs Hrs Hre -> Hm y cnt'.
  pose proof (queue_addr _ Hq) as Ha. pose proof (tq_ok_middle _ _ _ _ Ha) as [Ha1 _].
  destruct (ch_request _ _ _ _ _ _ _ _ _ Hc) as (Hb & Hbo & Hbt & _ & Hbe).
  assert (Hy : queue_ok (pre ++ y :: C1 ++ b :: C2)).
  { apply (queue_ok_replace _ r); try done. destruct (queue_range _ Hq r) as (? & ? & ?); [apply Hr|].
    destruct (queue_range _ Hq b Hb) as (? & ? & ?). unfold y. split; cbn; [lia|]. split; [lia|done]. }
  assert (Hy' : queue_ok (pre ++ y :: C1 ++ C2)).
  { rewrite (regroup pre y C1 C2).
    apply (queue_ok_remove _ b). by rewrite <- app_assoc. }
  assert (Hrem : TAILQ_REMOVE lf_addr (pre ++ y :: C1 ++ b :: C2) (lf_addr b) = pre ++ y :: C1 ++ C2).
  { rewrite (regroup pre y C1 (b :: C2)).
    rewrite TAILQ_REMOVE_app, TAILQ_REMOVE_here; [by rewrite <- app_assoc|].
    pose proof (queue_addr _ Hy) as Hy2.
    rewrite (regroup pre y C1 (b :: C2)) in Hy2.
    by apply tq_ok_middle in Hy2 as [? _]. }
  assert (Hel : ∀ z, z ∈ pre ++ y :: C1 ++ C2 ↔ (z ∈ pre ++ r :: C1 ++ b :: C2 ∧ z ≠ r ∧ z ≠ b) ∨ z = y).
  { intros z.
    assert (H1 : z ∈ pre ++ y :: C1 ++ C2 ↔ z ∈ pre ++ y :: C1 ++ b :: C2 ∧ z ≠ b).
    { rewrite (regroup pre y C1 C2).
      rewrite (regroup pre y C1 (b :: C2)) in *.
      by apply queue_elem_remove. }
    rewrite H1, (queue_elem_replace pre r y) by done.
    assert (y ≠ b).
    { intros E. assert (lf_start y = lf_start b) by congruence. unfold y in *. cbn in *. lia. }
    naive_solver. }
  pose proof (proj1 (lf_match_spec _ _ _) Hm) as [Hrt Hrp].
  assert (Hyp : is_posix (lf_flags y) = is_posix (lf_flags r)) by apply is_posix_lor.
  split.
  - unfold lf_clip_left. cbn [c_range c_brange c_count c_wakeup].
    replace (same (Some (lf_addr r)) (lf_addr r)) with true by (symmetry; by apply same_spec).
    cbn [kkassert]. pose proof (deref_request _ (Some b) Hq Hc) as Hd.
    change (lf_addr <$> Some b) with (Some (lf_addr b)) in Hd. rewrite Hd. cbn [obind].
    replace (lf_end r >=? s - 1) with true by (symmetry; rewrite Z.geb_leb; apply Z.leb_le; lia).
    rewrite Hm. cbn [andb].
    rewrite tq_update_app, tq_update_here by done. fold y.
    rewrite next_after_removal by apply Hy. by rewrite Hrem.
  - assert (changing (pre ++ y :: C1 ++ C2) (Some y)) as Hch.
    { apply (changing_merge o type flags s e l0 bound (pre ++ r :: C1 ++ b :: C2) _ b r y); try done.
      - apply (ch_addr _ _ _ _ _ _ _ _ _ Hc r), Hr.
      - by destruct Hr as (_ & ? & _).
      - by rewrite Hyp.
      - intros x. unfold covers, y. cbn. lia.
      - unfold y. cbn. lia. }
    split; try done.
    + intros z (Hz & Hzo & Hzy). left. apply Hel in Hz as [(? & ? & ?)| ->]; [|done].
      split; [|done]. split_and!; [done|done|]. congruence.
    + intros z (Hz & Hzo & Hzb) Hzr. split_and!; [|done|].
      * apply Hel. left. split_and!; [done|done|congruence].
      * intros [= E]. apply Hzr. apply (tq_ok_inj lf_addr _ _ _ Ha); [done|apply Hr|by rewrite <- E].
    + rewrite <- (nposix_other o r y) by (done || by destruct Hr as (_ & -> & _)).
      rewrite (regroup pre y C1 (b :: C2)).
      rewrite (nposix_removed o b) by done. rewrite <- (regroup pre y C1 C2). unfold cnt', is_posix.
      case_test; lia.
    + intros Hp _ _. unfold cnt'. fold (is_posix (lf_flags b)).
      rewrite (ch_kind _ _ _ _ _ _ _ _ _ Hc b Hb Hbo), Hp. lia.
    + unfold cnt'. case_test; lia.
Qed.


(** The cases in which a range is kept. *)
Lemma clipped_same pre r rest ob cnt :
  queue_ok (pre ++ r :: rest) → changing (pre ++ r :: rest) ob → ¬ hit r →
  lf_match r type flags = false ∨ type = F_UNLCK →
  clipped pre r rest ob cnt (pre ++ r :: rest) ob cnt.
Proof.
  intros Hq Hc Hr Hm. split; try done; try lia.
  - intros z Hz. destruct (decide (z = r)) as [->|Hne]; [by right|by left].
  - intros _ ? ?. destruct Hm; congruence.
Qed.

Lemma no_merge ob r :
  (if ob is Some _ then lf_match r type flags = false else True) →
  (∃ l, changing l ob) → lf_match r type flags = false ∨ type = F_UNLCK.
Proof.
  destruct ob; [by left|]. intros _ [l Hc]. right. apply (ch_request _ _ _ _ _ _ _ _ _ Hc).
Qed.

(** A trim to [y] of the same owner, type and kind. *)
Lemma clipped_trim pre r rest ob cnt l' y :
  queue_ok (pre ++ r :: rest) → changing (pre ++ r :: rest) ob →
  old (pre ++ r :: rest) ob r →
  lf_match r type flags = false ∨ type = F_UNLCK →
  lf_addr y = lf_addr r → lf_owner y = lf_owner r → lf_type y = lf_type r →
  is_posix (lf_flags y) = is_posix (lf_flags r) →
  (∀ x, covers y x ↔ covers r x ∧ ¬ (s ≤ x ≤ e)) → lf_start y ≤ lf_end y →
  queue_ok l' → (∀ z, z ∈ l' ↔ (z ∈ pre ++ r :: rest ∧ z ≠ r) ∨ z = y) →
  nposix o l' = nposix o (pre ++ r :: rest) →
  clipped pre r rest ob cnt l' ob cnt.
Proof.
  intros Hq Hc Hr Hm Ea Eo Et Ep Hcov Hne Hq' Hel Hn.
  pose proof Hr as (Hr1 & Hr2 & Hr3).
  assert (Hby : ∀ b, ob = Some b → b ≠ y).
  { intros b -> ->. destruct (ch_request _ _ _ _ _ _ _ _ _ Hc) as (Hb & _).
    apply Hr3. f_equal. by apply (tq_ok_inj lf_addr _ _ _ (queue_addr _ Hq)). }
  split; try done; try lia.
  - apply (changing_trim o type flags s e l0 bound (pre ++ r :: rest) l' ob r y); try done; [|congruence].
    rewrite Ea. by apply (ch_addr _ _ _ _ _ _ _ _ _ Hc).
  - intros z (Hz & Hzo & Hzb). apply Hel in Hz as [[Hz Hzr]| ->]; [by left|]. right.
    split; [done|]. intros (_ & H1 & H2).
    destruct (proj1 (Hcov (Z.max s (lf_start y)))) as [_ H]; [unfold covers; lia|]. lia.
  - intros z (Hz & Hzo & Hzb) Hzr. split_and!; [|done|done]. apply Hel. by left.
  - intros _ ? ?. destruct Hm; congruence.
Qed.

Lemma clip_left_trim fm pre r rest ob cnt wk :
  queue_ok (pre ++ r :: rest) → changing (pre ++ r :: rest) ob →
  old (pre ++ r :: rest) ob r → lf_start r < s → s ≤ lf_end r ≤ e → fm = Some (lf_addr r) →
  (if ob is Some _ then lf_match r type flags = false else True) →
  ∃ y, lf_addr y = lf_addr r ∧
  lf_clip_left type flags s fm (Clip (pre ++ r :: rest) (lf_addr <$> ob) cnt wk) r
    (TAILQ_FIRST lf_addr rest) =
    Ok (Clip (pre ++ y :: rest) (lf_addr <$> ob) cnt wk, TAILQ_FIRST lf_addr rest) ∧
  clipped pre r rest ob cnt (pre ++ y :: rest) ob cnt.
Proof.
  intros Hq Hc Hr Hrs Hre -> Hm.
  set (y := let r := set_end (s - 1) r in
            if negb (type =? F_UNLCK) then set_flags (Z.ldiff (lf_flags r) F_NOEND) r else r).
  assert (Hy : lf_addr y = lf_addr r ∧ lf_owner y = lf_owner r ∧ lf_type y = lf_type r ∧
    is_posix (lf_flags y) = is_posix (lf_flags r) ∧ lf_start y = lf_start r ∧ lf_end y = s - 1).
  { unfold y. destruct (negb _); split_and!; try done. apply is_posix_ldiff. }
  pose proof (tq_ok_middle _ _ _ _ (queue_addr _ Hq)) as [Ha1 _].
  assert (Hok : range_ok r) by (apply (queue_range _ Hq), Hr).
  exists y. split; [apply Hy|]. split.
  - unfold lf_clip_left. cbn [c_range c_brange c_count c_wakeup].
    replace (same (Some (lf_addr r)) (lf_addr r)) with true by (symmetry; by apply same_spec).
    cbn [kkassert]. rewrite (deref_request _ ob Hq Hc). cbn [obind].
    rewrite tq_update_app, tq_update_here by done. fold y.
    replace (lf_end r >=? s) with true by (symmetry; rewrite Z.geb_leb; apply Z.leb_le; lia).
    destruct ob; [rewrite Hm, andb_false_r|]; done.
  - destruct Hy as (Ea & Eo & Et & Ep & Es & Ee). clearbody y. apply clipped_trim with (y := y); try done.
    + apply (no_merge ob); [done|by eexists].
    + intros x. unfold covers. rewrite Es, Ee. lia.
    + lia.
    + apply (queue_ok_replace pre r); try done. destruct Hok as (? & ? & ?).
      unfold range_ok. rewrite Es, Ee, Et. split_and!; [lia|lia|lia|done].
    + intros z. by apply queue_elem_replace.
    + by apply nposix_other.
Qed.

(** A range that ends just before the request, which a double clip leaves. *)
Lemma clip_left_none fm pre r rest ob cnt wk :
  queue_ok (pre ++ r :: rest) → changing (pre ++ r :: rest) ob →
  old (pre ++ r :: rest) ob r → lf_end r = s - 1 → fm = Some (lf_addr r) →
  (if ob is Some _ then lf_match r type flags = false else True) →
  lf_clip_left type flags s fm (Clip (pre ++ r :: rest) (lf_addr <$> ob) cnt wk) r
    (TAILQ_FIRST lf_addr rest) =
    Ok (Clip (pre ++ r :: rest) (lf_addr <$> ob) cnt wk, TAILQ_FIRST lf_addr rest) ∧
  clipped pre r rest ob cnt (pre ++ r :: rest) ob cnt.
Proof.
  intros Hq Hc Hr Hre -> Hm. split.
  - unfold lf_clip_left. cbn [c_range c_brange c_count c_wakeup].
    replace (same (Some (lf_addr r)) (lf_addr r)) with true by (symmetry; by apply same_spec).
    cbn [kkassert]. rewrite (deref_request _ ob Hq Hc). cbn [obind].
    replace (lf_end r >=? s) with false by (symmetry; rewrite Z.geb_leb; apply Z.leb_gt; lia).
    destruct ob; [rewrite Hm, andb_false_r|]; done.
  - apply clipped_same; [done|done|apply not_hit_below; lia|]. apply (no_merge ob); [done|by eexists].
Qed.

(** All cases of the left clip. *)
Lemma clip_left_spec fm pre r rest ob cnt wk :
  queue_ok (pre ++ r :: rest) → changing (pre ++ r :: rest) ob →
  old (pre ++ r :: rest) ob r → lf_start r < s → s - 1 ≤ lf_end r ≤ e → fm = Some (lf_addr r) →
  ∃ y rest' ob' cnt', lf_addr y = lf_addr r ∧
  lf_clip_left type flags s fm (Clip (pre ++ r :: rest) (lf_addr <$> ob) cnt wk) r
    (TAILQ_FIRST lf_addr rest) =
    Ok (Clip (pre ++ y :: rest') (lf_addr <$> ob') cnt' wk, TAILQ_FIRST lf_addr rest') ∧
  (rest' = rest ∨ ∃ C1 b C2, ob = Some b ∧ rest = C1 ++ b :: C2 ∧ rest' = C1 ++ C2) ∧
  clipped pre r rest ob cnt (pre ++ y :: rest') ob' cnt'.
Proof.
  intros Hq Hc Hr Hrs Hre Hfm.
  destruct (match ob with Some _ => lf_match r type flags | None => false end) eqn:Hm.
  - destruct ob as [b|]; [|done].
    destruct (request_after pre r rest b Hq Hc Hr Hrs) as (Hbs & C1 & C2 & ->); [lia|].
    edestruct (clip_left_merge fm pre r C1 b C2 cnt wk) as [E H]; try done.
    eexists (set_flags (Z.lor (lf_flags r) (Z.land (lf_flags b) F_NOEND)) (set_end (lf_end b) r)),
      (C1 ++ C2), (Some _), _. split; [done|]. split; [exact E|]. split; [|exact H].
    right. by exists C1, b, C2.
  - assert (Hm' : if ob is Some _ then lf_match r type flags = false else True) by (by destruct ob).
    destruct (decide (lf_end r = s - 1)) as [He1|He1].
    + edestruct (clip_left_none fm pre r rest ob cnt wk) as [E H]; try done.
      exists r, rest, ob, cnt. split; [done|]. split; [exact E|]. split; [by left|exact H].
    + edestruct (clip_left_trim fm pre r rest ob cnt wk) as (y & Ey & E & H); try done; [lia|].
      exists y, rest, ob, cnt. split; [done|]. split; [exact E|]. split; [by left|exact H].
Qed.

(** ** The right clip *)

Lemma clipped_right_merge pre r rest b cnt :
  queue_ok (pre ++ r :: rest) → changing (pre ++ r :: rest) (Some b) →
  old (pre ++ r :: rest) (Some b) r → s ≤ lf_start r ≤ e + 1 → e < lf_end r →
  lf_match r type flags = true →
  let f := λ x, set_flags (Z.lor (lf_flags x) (Z.land (lf_flags r) F_NOEND)) (set_end (lf_end r) x) in
  clipped pre r rest (Some b) cnt
    (TAILQ_REMOVE lf_addr (tq_update lf_addr (pre ++ r :: rest) (lf_addr b) f) (lf_addr r))
    (Some (f b)) (if has_flag (lf_flags r) F_POSIX then cnt - 1 else cnt).
Proof.
  intros Hq Hc Hr Hrs Hre Hm f.
  destruct (ch_request _ _ _ _ _ _ _ _ _ Hc) as (Hb & Hbo & Hbt & Hbs & Hbe).
  pose proof Hr as (Hr1 & Hr2 & Hr3).
  pose proof (proj1 (lf_match_spec _ _ _) Hm) as [Hrt Hrp].
  assert (Hok : range_ok r) by (by apply (queue_range _ Hq)).
  assert (Hyp : is_posix (lf_flags (f b)) = is_posix flags).
  { unfold f. cbn [lf_flags set_flags]. rewrite is_posix_lor. by apply (ch_kind _ _ _ _ _ _ _ _ _ Hc). }
  assert (Hmeet : lf_end b < lf_end r).
  { destruct (decide (lf_end b < lf_end r)) as [|Hn]; [done|].
    pose proof (ch_meet _ _ _ _ _ _ _ _ _ Hc b r (lf_end r) eq_refl Hr) as H. unfold covers in H. lia. }
  destruct (update_spec (pre ++ r :: rest) b f) as (Hq1 & Hel1 & Hn1); try done.
  { destruct (queue_range _ Hq b Hb) as (? & ? & ?), Hok as (? & ? & ?). unfold range_ok, f. cbn. split_and!; try done; lia. }
  set (l1 := tq_update _ _ _ _) in *.
  assert (Hrl1 : r ∈ l1) by (apply Hel1; left; naive_solver).
  destruct (remove_spec l1 r Hq1 Hrl1) as (Hq2 & Hel2 & Hn2).
  set (l2 := TAILQ_REMOVE _ _ _) in *.
  assert (Hfr : f b ≠ r).
  { intros E. assert (b = r) as ->; [|done].
    apply (tq_ok_inj lf_addr _ _ _ (queue_addr _ Hq)); try done. by rewrite <- E. }
  assert (Hel : ∀ z, z ∈ l2 ↔ (z ∈ pre ++ r :: rest ∧ z ≠ r ∧ z ≠ b) ∨ z = f b).
  { intros z. rewrite Hel2, Hel1. naive_solver. }
  split; try done.
  - apply (changing_merge o type flags s e l0 bound (pre ++ r :: rest) l2 b r (f b)); try done.
    + by apply (ch_addr _ _ _ _ _ _ _ _ _ Hc b).
    + intros x. unfold covers, f. cbn. lia.
    + unfold f. cbn. lia.
  - intros z (Hz & Hzo & Hzy). left. apply Hel in Hz as [(? & ? & ?)| ->]; [|done].
    split; [|done]. split_and!; [done|done|]. congruence.
  - intros z (Hz & Hzo & Hzb) Hzr. split_and!; [|done|].
    + apply Hel. left. split_and!; [done|done|congruence].
    + intros [= E]. apply Hzb. f_equal. symmetry.
      apply (tq_ok_inj lf_addr _ _ _ (queue_addr _ Hq)); [done|done|by rewrite <- E].
  - rewrite <- (Hn1 o), (Hn2 o) by (done || by apply is_posix_lor). unfold is_posix. case_test; lia.
  - intros Hp _ _. fold (is_posix (lf_flags r)). rewrite Hrp, Hp. lia.
  - case_test; lia.
Qed.

Lemma clipped_right_trim pre r rest ob cnt :
  queue_ok (pre ++ r :: rest) → changing (pre ++ r :: rest) ob →
  old (pre ++ r :: rest) ob r → s ≤ lf_start r ≤ e → e < lf_end r →
  (if ob is Some _ then lf_match r type flags = false else True) →
  clipped pre r rest ob cnt
    (lf_insert (pre ++ rest) (set_start (e + 1) r) (TAILQ_FIRST lf_addr rest)) ob cnt.
Proof.
  intros Hq Hc Hr Hrs Hre Hm.
  pose proof (queue_ok_remove _ _ _ Hq) as Hq1.
  destruct (lf_insert_spec pre rest (set_start (e + 1) r) (queue_addr _ Hq1)) as (B1 & B2 & E & H1 & H2 & ->).
  assert (Hok : range_ok r) by (apply (queue_range _ Hq), Hr).
  assert (Hel : ∀ z, z ∈ pre ++ B1 ++ set_start (e + 1) r :: B2 ↔
    (z ∈ pre ++ r :: rest ∧ z ≠ r) ∨ z = set_start (e + 1) r).
  { intros z. rewrite <- (queue_elem_remove pre r rest z Hq), E, !elem_of_app, elem_of_cons. tauto. }
  apply clipped_trim with (y := set_start (e + 1) r); try done.
  - apply (no_merge ob); [done|by eexists].
  - intros x. unfold covers. cbn. lia.
  - cbn. lia.
  - apply queue_ok_insert; try done.
    + by rewrite <- E.
    + destruct Hok as (? & ? & ?). unfold range_ok. cbn. split_and!; try done; lia.
    + rewrite <- E. intros x Hx Ex. apply (queue_elem_remove _ r) in Hx as [Hx Hne]; [|done].
      apply Hne. apply (tq_ok_inj lf_addr _ _ _ (queue_addr _ Hq)); [done|apply Hr|done].
    + intros x [Hx|Hx]%elem_of_app; [|specialize (H1 x Hx); lia].
      pose proof (queue_sorted _ Hq) as (H & _)%sorted_app. specialize (H x r Hx ltac:(left)). cbn. lia.
  - rewrite E, !nposix_app, !nposix_cons, nposix_app. cbn [lf_owner lf_flags set_start]. lia.
Qed.

Lemma clip_right_spec lm pre r rest ob cnt wk :
  queue_ok (pre ++ r :: rest) → changing (pre ++ r :: rest) ob →
  old (pre ++ r :: rest) ob r → s ≤ lf_start r ≤ e + 1 → e < lf_end r → lm = Some (lf_addr r) →
  ∃ l' ob' cnt',
  lf_clip_right type flags e lm (Clip (pre ++ r :: rest) (lf_addr <$> ob) cnt wk) r
    (TAILQ_FIRST lf_addr rest) = Ok (Clip l' (lf_addr <$> ob') cnt' wk) ∧
  clipped pre r rest ob cnt l' ob' cnt'.
Proof.
  intros Hq Hc Hr Hrs Hre ->.
  assert (Hok : range_ok r) by (apply (queue_range _ Hq), Hr).
  unfold lf_clip_right. cbn [c_range c_brange c_count c_wakeup].
  replace (same (Some (lf_addr r)) (lf_addr r)) with true by (symmetry; by apply same_spec).
  cbn [kkassert]. rewrite (deref_request _ ob Hq Hc). cbn [obind].
  assert (Hoff : s64 (e + 1) = e + 1) by (apply off_t_small; destruct Hok as (? & ? & _); lia).
  rewrite Hoff.
  replace (lf_start r <=? e + 1) with true by (symmetry; apply Z.leb_le; lia). cbn [andb].
  destruct (match ob with Some _ => lf_match r type flags | None => false end) eqn:Hm.
  - destruct ob as [b|]; [|done]. rewrite Hm. cbn [andb].
    set (f := λ x, set_flags (Z.lor (lf_flags x) (Z.land (lf_flags r) F_NOEND)) (set_end (lf_end r) x)).
    eexists _, (Some (f b)), _. split; [done|]. fold f. by apply clipped_right_merge.
  - assert (Hm' : if ob is Some _ then lf_match r type flags = false else True) by (by destruct ob).
    destruct (lf_start r <=? e) eqn:Hst; bool_prop.
    + exists (lf_insert (pre ++ rest) (set_start (e + 1) r) (TAILQ_FIRST lf_addr rest)), ob, cnt.
      split; [|apply clipped_right_trim; try done; lia].
      pose proof (tq_ok_middle _ _ _ _ (queue_addr _ Hq)) as [Ha1 _].
      rewrite TAILQ_REMOVE_app, TAILQ_REMOVE_here by done.
      destruct ob; [rewrite Hm|]; done.
    + exists (pre ++ r :: rest), ob, cnt. split; [destruct ob; [rewrite Hm|]; done|].
      apply clipped_same; [done|done|unfold hit; lia|]. apply (no_merge ob); [done|by eexists].
Qed.


(** ** The loop *)

Lemma clip_enclosed_spec pre r rest ob cnt wk :
  queue_ok (pre ++ r :: rest) → changing (pre ++ r :: rest) ob →
  old (pre ++ r :: rest) ob r → s ≤ lf_start r → lf_end r ≤ e →
  let cnt' := if has_flag (lf_flags r) F_POSIX then cnt - 1 else cnt in
  lf_clip_enclosed s e (Clip (pre ++ r :: rest) (lf_addr <$> ob) cnt wk) r =
    Ok (Clip (pre ++ rest) (lf_addr <$> ob) cnt' wk) ∧
  clipped pre r rest ob cnt (pre ++ rest) ob cnt'.
Proof.
  intros Hq Hc Hr Hrs Hre cnt'. pose proof Hr as (Hr1 & Hr2 & Hr3).
  pose proof (tq_ok_middle _ _ _ _ (queue_addr _ Hq)) as [Ha1 _].
  assert (Hel : ∀ z, z ∈ pre ++ rest ↔ z ∈ pre ++ r :: rest ∧ z ≠ r) by (intros z; by apply queue_elem_remove).
  split.
  - unfold lf_clip_enclosed. cbn [c_range c_brange c_count c_wakeup].
    replace ((lf_start r >=? s) && (lf_end r <=? e)) with true by lia. cbn [kkassert].
    by rewrite TAILQ_REMOVE_app, TAILQ_REMOVE_here by done.
  - split.
    + by apply (queue_ok_remove pre r).
    + by apply (changing_remove o type flags s e l0 bound (pre ++ r :: rest) _ ob r).
    + intros z (Hz & Hzo & Hzb). apply Hel in Hz as [Hz Hzr]. by left.
    + intros z (Hz & Hzo & Hzb) Hzr. split_and!; [|done|done]. by apply Hel.
    + rewrite (nposix_removed o r pre rest) by done. unfold cnt', is_posix. case_test; lia.
    + intros Hp _ Hm. apply lf_match_spec in Hm as [_ Hm]. unfold cnt'.
      fold (is_posix (lf_flags r)). rewrite Hm, Hp. lia.
    + unfold cnt'. case_test; lia.
Qed.

Lemma split_without mid (g : lockf_range) tail C1 b C2 :
  mid ++ g :: tail = C1 ++ b :: C2 → b ≠ g →
  ∃ mid2 tail2, C1 ++ C2 = mid2 ++ g :: tail2 ∧ (length mid2 ≤ length mid)%nat ∧
    (∀ z, z ∈ mid2 → z ∈ mid) ∧ (∀ z, z ∈ mid → z ∈ mid2 ∨ z = b).
Proof.
  revert C1. induction mid as [|x mid IH]; intros [|c C1] E Hbg; cbn in E.
  - by injection E as -> _.
  - injection E as -> ->. exists [], (C1 ++ C2). split_and!; [done|done|done|by left].
  - injection E as -> <-. exists mid, tail. split_and!; [done|cbn; lia|by right|].
    intros z [->|Hz]%elem_of_cons; [by right|by left].
  - injection E as -> E. destruct (IH C1 E Hbg) as (m2 & t2 & E2 & Hl & H1 & H2).
    exists (c :: m2), t2. split_and!; [cbn; by rewrite E2|cbn; lia| |].
    + intros z [->|Hz]%elem_of_cons; [left|right; auto].
    + intros z [->|Hz]%elem_of_cons; [left; left|].
      destruct (H2 z Hz) as [?| ->]; [left; by right|by right].
Qed.

(** What the loop ends in. *)
Record loop_result (todo l : list lockf_range) (ob : option lockf_range) (cnt : Z) (wk : bool)
    (l' : list lockf_range) (ob' : option lockf_range) (cnt' : Z) (wk' : bool) : Prop := {
  lr_queue : queue_ok l';
  lr_changing : changing l' ob';
  lr_clear : ∀ r, old l' ob' r → ¬ hit r;
  lr_count : cnt' - cnt = nposix o l' - nposix o l;
  lr_matched : is_posix flags = true → type ≠ F_UNLCK →
    ∀ M, NoDup M → (∀ r, r ∈ M → r ∈ todo ∧ old l ob r ∧ lf_match r type flags = true) →
    cnt' + Z.of_nat (length M) ≤ cnt;
  lr_le : cnt' ≤ cnt;
  lr_wakeup : wk = true ∨ type = F_UNLCK ∨
    (type = F_RDLCK ∧ ∃ r, r ∈ todo ∧ old l ob r ∧ lf_type r = F_WRLCK) → wk' = true
}.

(** One more range is clipped and the rest of the loop does the others. *)
Lemma loop_result_step pre r rest todo todo' ob cnt wk l1 ob1 cnt1 l' ob' cnt' wk' :
  clipped pre r rest ob cnt l1 ob1 cnt1 →
  (∀ z, z ∈ todo → z = r ∨ z ∈ todo' ∨ ob = Some z) →
  loop_result todo' l1 ob1 cnt1
    (if type =? F_UNLCK then true else if (type =? F_RDLCK) && (lf_type r =? F_WRLCK) then true else wk)
    l' ob' cnt' wk' →
  loop_result todo (pre ++ r :: rest) ob cnt wk l' ob' cnt' wk'.
Proof.
  intros Hcl Htodo [H1 H2 H3 H4 H5 H5' H6]. split; try done.
  - pose proof (cl_count _ _ _ _ _ _ _ _ Hcl). lia.
  - intros Hp Ht M HM HMr.
    assert (Hstep : ∀ z, z ∈ M → z ≠ r → z ∈ todo' ∧ old l1 ob1 z ∧ lf_match z type flags = true).
    { intros z Hz Hzr. destruct (HMr z Hz) as (Hzt & Hzo & Hzm). split_and!; [|by apply (cl_keep _ _ _ _ _ _ _ _ Hcl)|done].
      destruct (Htodo z Hzt) as [?|[?|Hzb]]; [done|done|]. by destruct Hzo as (_ & _ & []). }
    destruct (decide (r ∈ M)) as [Hr|Hr].
    + apply list_elem_of_split in Hr as (M1 & M2 & ->).
      assert (Hperm : M1 ++ r :: M2 ≡ₚ r :: M1 ++ M2) by (symmetry; apply Permutation_middle).
      rewrite Hperm in HM. apply NoDup_cons in HM as [Hrn HM].
      pose proof (H5 Hp Ht (M1 ++ M2) HM) as H.
      destruct (HMr r) as (_ & _ & Hrm); [rewrite Hperm; left|].
      pose proof (cl_matched _ _ _ _ _ _ _ _ Hcl Hp Ht Hrm).
      rewrite Hperm. cbn [length].
      assert (cnt' + Z.of_nat (length (M1 ++ M2)) ≤ cnt1); [|lia].
      apply H. intros z Hz. apply Hstep; [rewrite Hperm; by right|]. by intros ->.
    + pose proof (cl_le _ _ _ _ _ _ _ _ Hcl).
      assert (cnt' + Z.of_nat (length M) ≤ cnt1); [|lia].
      apply H5; [done..|]. intros z Hz. apply Hstep; [done|]. by intros ->.
  - pose proof (cl_le _ _ _ _ _ _ _ _ Hcl). lia.
  - intros Hwk. apply H6. destruct (type =? F_UNLCK) eqn:Et; [by left|]. bool_prop.
    destruct Hwk as [->|[?|[-> (z & Hz & Hzo & Hzw)]]]; [left; by case_test|done|].
    destruct (decide (z = r)) as [->|Hzr].
    + left. rewrite Hzw. done.
    + right; right. split; [done|]. exists z. split_and!; [|by apply (cl_keep _ _ _ _ _ _ _ _ Hcl)|done].
      destruct (Htodo z Hz) as [?|[?|Hzb]]; [done|done|]. by destruct Hzo as (_ & _ & []).
Qed.


(** The state of the loop before it looks at [mid]; [g] is [last_match]. *)
Record loop_state (fm : option Z) (pre mid : list lockf_range) (g : lockf_range)
    (tail : list lockf_range) (ob : option lockf_range) : Prop := {
  ls_queue : queue_ok (pre ++ mid ++ g :: tail);
  ls_changing : changing (pre ++ mid ++ g :: tail) ob;
  ls_last : old (pre ++ mid ++ g :: tail) ob g;
  ls_first : ∀ r, r ∈ mid ++ [g] → old (pre ++ mid ++ g :: tail) ob r → lf_start r < s →
             fm = Some (lf_addr r) ∧ s - 1 ≤ lf_end r;
  ls_mid : ∀ r, r ∈ mid → old (pre ++ mid ++ g :: tail) ob r → lf_end r ≤ e;
  ls_last_start : lf_start g ≤ e + 1;
  ls_last_end : lf_start g < s → lf_end g ≤ e;
  ls_todo : ∀ r, old (pre ++ mid ++ g :: tail) ob r → hit r → r ∈ mid ∨ r = g
}.

Lemma loop_state_next fm pre r mid g tail ob cnt pre2 mid2 tail2 ob2 cnt2 :
  loop_state fm pre (r :: mid) g tail ob →
  clipped pre r (mid ++ g :: tail) ob cnt (pre2 ++ mid2 ++ g :: tail2) ob2 cnt2 →
  (∀ z, z ∈ mid2 → z ∈ mid) → (∀ z, z ∈ mid → z ∈ mid2 ∨ ob = Some z) →
  loop_state fm pre2 mid2 g tail2 ob2.
Proof.
  intros [Hq Hc Hg Hf Hm Hg1 Hg2 Ht] Hcl Hsub Hsup. cbn [app] in *.
  pose proof (tq_ok_middle _ _ _ _ (queue_addr _ Hq)) as [_ Hr].
  assert (Hgr : g ≠ r).
  { intros ->. apply (Hr r); [|done]. rewrite elem_of_app, elem_of_cons. tauto. }
  assert (Hold : ∀ z, z ∈ mid2 ++ [g] → old (pre2 ++ mid2 ++ g :: tail2) ob2 z →
            old (pre ++ r :: mid ++ g :: tail) ob z).
  { intros z Hz Hzo. destruct (cl_old _ _ _ _ _ _ _ _ Hcl z Hzo) as [[? _]|[Ez _]]; [done|].
    exfalso. apply (Hr z); [|done]. apply elem_of_app in Hz as [Hz| ->%list_elem_of_singleton];
      rewrite elem_of_app, elem_of_cons; [left; auto|by right; left]. }
  assert (Hin : ∀ z, z ∈ mid2 ++ [g] → z ∈ (r :: mid) ++ [g]).
  { intros z. rewrite !elem_of_app, elem_of_cons.
    intros [Hz|Hz]; [left; right; by apply Hsub|by right]. }
  split; [by apply (cl_queue _ _ _ _ _ _ _ _ Hcl)|by apply (cl_changing _ _ _ _ _ _ _ _ Hcl)| | | |done|done|].
  - by apply (cl_keep _ _ _ _ _ _ _ _ Hcl).
  - intros z Hz Hzo. apply Hf; auto.
  - intros z Hz Hzo. apply Hm; [right; auto|]. apply Hold; [|done].
    rewrite elem_of_app. by left.
  - intros z Hzo Hh. destruct (cl_old _ _ _ _ _ _ _ _ Hcl z Hzo) as [[Hzo' Hzr]|[_ Hn]]; [|done].
    destruct (Ht z Hzo' Hh) as [Hz| ->]; [|by right].
    apply elem_of_cons in Hz as [->|Hz]; [done|].
    destruct (Hsup z Hz) as [?|Hb]; [by left|]. by destruct Hzo' as (_ & _ & []).
Qed.

Lemma loop_result_end pre r rest ob cnt wk l' ob' cnt' :
  clipped pre r rest ob cnt l' ob' cnt' →
  (∀ z, old (pre ++ r :: rest) ob z → hit z → z = r) →
  loop_result [r] (pre ++ r :: rest) ob cnt wk l' ob' cnt'
    (if type =? F_UNLCK then true else if (type =? F_RDLCK) && (lf_type r =? F_WRLCK) then true else wk).
Proof.
  intros Hcl Hh. apply (loop_result_step pre r rest [r] [] ob cnt wk l' ob' cnt' l' ob' cnt'); [done| |].
  - intros z Hz%list_elem_of_singleton. by left.
  - destruct Hcl as [H1 H2 H3 H4 H5 H6 H7]. split; try done; try lia.
    + intros z Hz. destruct (H3 z Hz) as [[Hz' Hzr]|[_ ?]]; [|done].
      intros Hhz. apply Hzr. by apply Hh.
    + intros _ _ M HM HMr. destruct M as [|z M]; [cbn; lia|].
      destruct (HMr z) as (Hz & _); [left|]. by apply elem_of_nil in Hz.
    + intros [->|[->|(-> & z & Hz & _)]]; [by repeat case_test|done|by apply elem_of_nil in Hz].
Qed.

Lemma skip_test l ob r :
  queue_ok l → changing l ob → r ∈ l →
  if negb (lf_owner r =? o) || same (lf_addr <$> ob) (lf_addr r) then ¬ old l ob r else old l ob r.
Proof.
  intros Hq Hc Hr. destruct (lf_owner r =? o) eqn:Eo; bool_prop; cbn [negb orb].
  - destruct (same _ _) eqn:Es.
    + apply same_spec in Es. destruct ob as [b|]; [|done]. injection Es as Es.
      assert (b = r) as ->; [|by intros (_ & _ & [])].
      apply (tq_ok_inj lf_addr _ _ _ (queue_addr _ Hq)); [|done|done].
      by destruct (ch_request _ _ _ _ _ _ _ _ _ Hc).
    + apply same_spec_false in Es. split_and!; [done|done|]. by intros ->.
  - intros (_ & ? & _). done.
Qed.

(** The loop at the range [r]. *)
Lemma clip_loop_at fm lm fuel pre r rest ob cnt wk :
  queue_ok (pre ++ r :: rest) → changing (pre ++ r :: rest) ob →
  let l := pre ++ r :: rest in
  let wk' := if type =? F_UNLCK then true
             else if (type =? F_RDLCK) && (lf_type r =? F_WRLCK) then true else wk in
  let c := Clip l (lf_addr <$> ob) cnt wk' in
  lf_clip_loop o type flags s e fm lm (S fuel) (Clip l (lf_addr <$> ob) cnt wk) (Some (lf_addr r)) =
  if negb (lf_owner r =? o) || same (lf_addr <$> ob) (lf_addr r)
  then lf_clip_loop o type flags s e fm lm fuel (Clip l (lf_addr <$> ob) cnt wk) (TAILQ_FIRST lf_addr rest)
  else if lf_start r <? s then
    let* (c, next) := lf_clip_left type flags s fm c r (TAILQ_FIRST lf_addr rest) in
    if same lm (lf_addr r) then Ok c else lf_clip_loop o type flags s e fm lm fuel c next
  else if lf_end r >? e then lf_clip_right type flags e lm c r (TAILQ_FIRST lf_addr rest)
  else
    let* c := lf_clip_enclosed s e c r in
    if same lm (lf_addr r) then Ok c else lf_clip_loop o type flags s e fm lm fuel c (TAILQ_FIRST lf_addr rest).
Proof.
  intros Hq Hc l wk' c. pose proof (tq_ok_middle _ _ _ _ (queue_addr _ Hq)) as [Ha1 _].
  cbn [lf_clip_loop c_range c_brange c_count c_wakeup].
  rewrite deref_elem; [|apply Hq|unfold l; rewrite elem_of_app, elem_of_cons; tauto].
  cbn [obind]. unfold l. by rewrite TAILQ_NEXT_middle.
Qed.

Lemma loop_result_more todo todo' l ob cnt wk l' ob' cnt' wk' :
  loop_result todo' l ob cnt wk l' ob' cnt' wk' →
  (∀ z, z ∈ todo → old l ob z → z ∈ todo') →
  loop_result todo l ob cnt wk l' ob' cnt' wk'.
Proof.
  intros [H1 H2 H3 H4 H5 H5' H6] Hsub. split; try done.
  - intros Hp Ht M HM HMr. apply H5; try done. intros r Hr.
    destruct (HMr r Hr) as (? & ? & ?). split_and!; auto.
  - intros [?|[?|(? & r & ? & ? & ?)]]; apply H6; [by left|by right; left|].
    right; right. split; [done|]. exists r. split_and!; auto.
Qed.

Lemma clip_loop_last fm g pre tail ob cnt wk fuel :
  loop_state fm pre [] g tail ob →
  ∃ l' ob' cnt' wk',
    lf_clip_loop o type flags s e fm (Some (lf_addr g)) (S fuel)
      (Clip (pre ++ g :: tail) (lf_addr <$> ob) cnt wk) (Some (lf_addr g)) =
      Ok (Clip l' (lf_addr <$> ob') cnt' wk') ∧
    loop_result [g] (pre ++ g :: tail) ob cnt wk l' ob' cnt' wk'.
Proof.
  intros [Hq Hc Hg Hf _ Hg1 Hg2 Ht]. cbn [app] in *.
  assert (Hend : ∀ z, old (pre ++ g :: tail) ob z → hit z → z = g).
  { intros z Hz Hh. destruct (Ht z Hz Hh) as [Hn|?]; [by apply elem_of_nil in Hn|done]. }
  rewrite clip_loop_at by done.
  pose proof (skip_test _ ob g Hq Hc) as Hskip.
  destruct (negb (lf_owner g =? o) || _); [by exfalso; apply Hskip; [apply Hg|]|]. clear Hskip.
  replace (same (Some (lf_addr g)) (lf_addr g)) with true by (symmetry; by apply same_spec).
  set (wk' := if type =? F_UNLCK then _ else _).
  case_test; bool_prop.
  { destruct (Hf g) as [Hfm Hge]; [left|done|done|].
    destruct (clip_left_spec fm pre g tail ob cnt wk') as (y & rest' & ob' & cnt' & _ & -> & _ & Hcl); try done; [lia|].
    cbn [obind]. eexists _, ob', cnt', wk'. split; [done|]. by apply loop_result_end. }
  case_test; bool_prop.
  - destruct (clip_right_spec (Some (lf_addr g)) pre g tail ob cnt wk') as (l' & ob' & cnt' & -> & Hcl); try done.
    eexists l', ob', cnt', wk'. split; [done|]. by apply loop_result_end.
  - destruct (clip_enclosed_spec pre g tail ob cnt wk') as (-> & Hcl); try done.
    cbn [obind]. eexists _, ob, _, wk'. split; [done|]. by apply loop_result_end.
Qed.

Lemma clip_loop_spec fm g mid pre tail ob cnt wk fuel :
  (length mid < fuel)%nat → loop_state fm pre mid g tail ob →
  ∃ l' ob' cnt' wk',
    lf_clip_loop o type flags s e fm (Some (lf_addr g)) fuel
      (Clip (pre ++ mid ++ g :: tail) (lf_addr <$> ob) cnt wk) (TAILQ_FIRST lf_addr (mid ++ g :: tail)) =
      Ok (Clip l' (lf_addr <$> ob') cnt' wk') ∧
    loop_result (mid ++ [g]) (pre ++ mid ++ g :: tail) ob cnt wk l' ob' cnt' wk'.
Proof.
  revert mid pre tail ob cnt wk. induction fuel as [|fuel IH]; intros mid pre tail ob cnt wk Hfuel Hst; [lia|].
  destruct mid as [|r mid]; [by apply clip_loop_last|].
  cbn [app TAILQ_FIRST]. cbn [length] in Hfuel.
  pose proof Hst as [Hq Hc Hg Hf Hm Hg1 Hg2 Ht]. cbn [app] in *.
  pose proof (tq_ok_middle _ _ _ _ (queue_addr _ Hq)) as [_ Hr].
  assert (Hgr : lf_addr g ≠ lf_addr r) by (apply Hr; rewrite elem_of_app, elem_of_cons; tauto).
  rewrite clip_loop_at by done.
  pose proof (skip_test _ ob r Hq Hc) as Hskip.
  replace (same (Some (lf_addr g)) (lf_addr r)) with false
    by (symmetry; apply same_spec_false; congruence).
  set (wk1 := if type =? F_UNLCK then _ else _).
  destruct (negb (lf_owner r =? o) || _).
  { (* not ours *)
    assert (Hno : ¬ old (pre ++ r :: mid ++ g :: tail) ob r) by (apply Hskip; rewrite elem_of_app; right; left).
    assert (Hst' : loop_state fm (pre ++ [r]) mid g tail ob).
    { replace ((pre ++ [r]) ++ mid ++ g :: tail) with (pre ++ r :: mid ++ g :: tail) by (by rewrite <- app_assoc).
      split; rewrite <- ?app_assoc; try done; cbn [app]; try done.
      - intros z Hz. apply Hf. by right.
      - intros z Hz. apply Hm. by right.
      - intros z Hz Hh. destruct (Ht z Hz Hh) as [[->|?]%elem_of_cons|?]; [done|by left|by right]. }
    destruct (IH mid (pre ++ [r]) tail ob cnt wk) as (l' & ob' & cnt' & wk' & E & Hres); [lia|done|].
    rewrite <- app_assoc in E, Hres. cbn [app] in E, Hres. rewrite E.
    eexists l', ob', cnt', wk'. split; [done|].
    apply (loop_result_more _ (mid ++ [g])); [done|].
    intros z [->|Hz]%elem_of_cons Hzo; done. }
  assert (Hro : old (pre ++ r :: mid ++ g :: tail) ob r) by (apply Hskip; rewrite elem_of_app; right; left).
  clear Hskip. specialize (Hm r ltac:(left) Hro).
  case_test; bool_prop.
  - destruct (Hf r) as [Hfm Hre]; [left|done|done|].
    destruct (clip_left_spec fm pre r (mid ++ g :: tail) ob cnt wk1)
      as (y & rest' & ob1 & cnt1 & Ey & -> & Hrest & Hcl); try done.
    cbn [obind].
    assert (∃ mid2 tail2, rest' = mid2 ++ g :: tail2 ∧ (length mid2 ≤ length mid)%nat ∧
      (∀ z, z ∈ mid2 → z ∈ mid) ∧ (∀ z, z ∈ mid → z ∈ mid2 ∨ ob = Some z)) as (mid2 & tail2 & -> & Hlen & Hsub & Hsup).
    { destruct Hrest as [->|(C1 & b & C2 & -> & E2 & ->)].
      - exists mid, tail. split_and!; auto.
      - destruct (split_without mid g tail C1 b C2 E2) as (mid2 & tail2 & E3 & Hl & H1 & H2).
        { intros ->. by destruct Hg as (_ & _ & []). }
        exists mid2, tail2. split_and!; try done. intros z Hz. destruct (H2 z Hz) as [?| ->]; auto. }
    replace (pre ++ y :: mid2 ++ g :: tail2) with ((pre ++ [y]) ++ mid2 ++ g :: tail2) in * by (by rewrite <- app_assoc).
    destruct (IH mid2 (pre ++ [y]) tail2 ob1 cnt1 wk1) as (l' & ob' & cnt' & wk' & E2 & Hres); [lia| |].
    { by apply (loop_state_next fm pre r mid g tail ob cnt _ _ _ _ cnt1). }
    eexists l', ob', cnt', wk'. split; [exact E2|].
    apply (loop_result_step pre r (mid ++ g :: tail) (r :: mid ++ [g]) (mid2 ++ [g]) ob cnt wk _ _ _ _ _ _ _ Hcl); [|done].
    intros z. rewrite elem_of_cons, !elem_of_app. intros [->|[Hz|Hz]]; [by left| |by right; left; right].
    right. destruct (Hsup z Hz); [left; by left|by right].
  - case_test; bool_prop; [lia|].
    destruct (clip_enclosed_spec pre r (mid ++ g :: tail) ob cnt wk1) as (-> & Hcl); try done.
    cbn [obind].
    set (cnt1 := if has_flag (lf_flags r) F_POSIX then cnt - 1 else cnt) in *.
    destruct (IH mid pre tail ob cnt1 wk1) as (l' & ob' & cnt' & wk' & E2 & Hres);
      [lia|by apply (loop_state_next fm pre r mid g tail ob cnt _ _ _ _ _ Hst Hcl); auto|].
    eexists l', ob', cnt', wk'. split; [exact E2|].
    apply (loop_result_step pre r (mid ++ g :: tail) (r :: mid ++ [g]) (mid ++ [g]) ob cnt wk _ _ _ _ _ _ _ Hcl); [|done].
    intros z [->|Hz]%elem_of_cons; auto.
Qed.


(** ** Merging with the neighbours *)

(** [brange] is merged with the range [r]; the range [x] is changed into
    their union [f x] and the other one, [d], is removed. *)
Lemma merge_spec l b r x d f cnt :
  queue_ok l → changing l (Some b) → (∀ z, old l (Some b) z → ¬ hit z) → old l (Some b) r →
  lf_match r type flags = true →
  (x = b ∧ d = r) ∨ (x = r ∧ d = b) →
  lf_addr (f x) = lf_addr x → lf_start (f x) = lf_start x → lf_end (f x) = lf_end d →
  lf_type (f x) = lf_type x → lf_owner (f x) = lf_owner x → is_posix (lf_flags (f x)) = is_posix (lf_flags x) →
  lf_start d = lf_end x + 1 →
  let l' := TAILQ_REMOVE lf_addr (tq_update lf_addr l (lf_addr x) f) (lf_addr d) in
  let cnt' := if has_flag (lf_flags d) F_POSIX then cnt - 1 else cnt in
  queue_ok l' ∧ changing l' (Some (f x)) ∧ (∀ z, old l' (Some (f x)) z → ¬ hit z) ∧
  cnt' - cnt = nposix o l' - nposix o l ∧ cnt' ≤ cnt.
Proof.
  intros Hq Hc Hclear Hr Hm Hxd Ea Es Ee Et Eo Ep Hadj l' cnt'.
  destruct (ch_request _ _ _ _ _ _ _ _ _ Hc) as (Hb & Hbo & Hbt & Hbs & Hbe).
  pose proof Hr as (Hr1 & Hr2 & Hr3). apply lf_match_spec in Hm as [Hrt Hrp].
  assert (Hrb : r ≠ b) by (by intros ->).
  assert (Hx : x ∈ l ∧ d ∈ l ∧ x ≠ d ∧ lf_owner x = o ∧ lf_owner d = o ∧ lf_type x = type)
    by (destruct Hxd as [[-> ->]|[-> ->]]; split_and!; done).
  destruct Hx as (Hx & Hd & Hne & Hxo & Hdo & Hxt).
  pose proof (queue_range _ Hq x Hx) as (? & ? & Hxt'). pose proof (queue_range _ Hq d Hd) as (? & ? & ?).
  destruct (update_spec l x f) as (Hq1 & Hel1 & Hn1); try done.
  { unfold range_ok. rewrite Es, Ee, Et. split_and!; try done; lia. }
  set (l1 := tq_update _ _ _ _) in *.
  destruct (remove_spec l1 d Hq1) as (Hq2 & Hel2 & Hn2).
  { apply Hel1. left. split; [done|congruence]. }
  fold l' in Hq2, Hel2, Hn2.
  assert (Hel : ∀ z, z ∈ l' ↔ (z ∈ l ∧ z ≠ r ∧ z ≠ b) ∨ z = f x).
  { intros z. rewrite Hel2, Hel1.
    assert (f x ≠ d).
    { intros E. apply Hne. apply (tq_ok_inj lf_addr _ _ _ (queue_addr _ Hq)); [done|done|].
      by rewrite <- Ea, E. }
    destruct Hxd as [[-> ->]|[-> ->]]; naive_solver. }
  assert (Hch : changing l' (Some (f x))).
  { apply (changing_merge o type flags s e l0 bound l l' b r (f x)); try done.
    - rewrite Ea. by apply (ch_addr _ _ _ _ _ _ _ _ _ Hc).
    - congruence.
    - congruence.
    - rewrite Ep. by apply (ch_kind _ _ _ _ _ _ _ _ _ Hc).
    - intros z. unfold covers. rewrite Es, Ee. destruct Hxd as [[-> ->]|[-> ->]]; lia.
    - rewrite Es. destruct Hxd as [[-> ->]|[-> ->]]; lia.
    - rewrite Ee. destruct Hxd as [[-> ->]|[-> ->]]; lia. }
  split_and!; try done.
  - intros z (Hz & Hzo & Hzy). apply Hel in Hz as [(Hz & Hzr & Hzb)| ->]; [|done].
    apply Hclear. split_and!; [done|done|congruence].
  - rewrite <- (Hn1 o), (Hn2 o) by congruence. unfold cnt', is_posix. case_test; lia.
  - unfold cnt'. case_test; lia.
Qed.

(** A queue in which the request is done up to merging. *)
Definition settled l ob : Prop :=
  queue_ok l ∧ changing l ob ∧ ∀ z, old l ob z → ¬ hit z.

Lemma merge_prev_spec l b cnt :
  settled l (Some b) →
  ∃ l' b' cnt', lf_merge_prev o type flags l (lf_addr b) cnt = Ok (l', lf_addr b', cnt') ∧
    settled l' (Some b') ∧ cnt' - cnt = nposix o l' - nposix o l ∧ cnt' ≤ cnt.
Proof.
  intros (Hq & Hc & Hclear). destruct (ch_request _ _ _ _ _ _ _ _ _ Hc) as (Hb & Hbo & Hbt & _ & _).
  unfold lf_merge_prev. rewrite deref_elem by (done || apply Hq). cbn [obind].
  assert (Hkeep : ∃ l' b' cnt', @Ok (list lockf_range * Z * Z) (l, lf_addr b, cnt) = Ok (l', lf_addr b', cnt') ∧
    settled l' (Some b') ∧ cnt' - cnt = nposix o l' - nposix o l ∧ cnt' ≤ cnt).
  { exists l, b, cnt. split_and!; try done; lia. }
  destruct (TAILQ_PREV lf_addr l (lf_addr b)) as [p|] eqn:Ep; [|exact Hkeep].
  apply TAILQ_PREV_Some in Ep as (A & x & y & B & El & <- & Ey).
  assert (Hx : x ∈ l) by (rewrite El, elem_of_app; right; left).
  assert (Hxb : x ≠ b).
  { intros ->. pose proof (queue_addr _ Hq) as Ha. rewrite El in Ha.
    apply tq_ok_middle in Ha as [_ Ha]. apply (Ha y); [left|done]. }
  cbn [deref_opt]. rewrite deref_elem by (done || apply Hq). cbn [obind].
  destruct ((lf_owner x =? o) && (lf_end x =? lf_start b - 1) && lf_match x type flags) eqn:E; [|exact Hkeep].
  apply andb_true_iff in E as [E Hm]. bool_prop.
  set (f := λ r, set_flags (Z.lor (lf_flags r) (Z.land (lf_flags b) F_NOEND)) (set_end (lf_end b) r)).
  destruct (merge_spec l b x x b f cnt) as (H1 & H2 & H3 & H4 & H5); try done; auto.
  - split_and!; [done|done|congruence].
  - apply is_posix_lor.
  - lia.
  - eexists _, (f x), _. by split_and!.
Qed.

Lemma off_t_next x y : 0 ≤ x ≤ LLONG_MAX → 0 ≤ y → y = s64 (x + 1) → y = x + 1.
Proof.
  intros Hx Hy ->. destruct (decide (x = LLONG_MAX)) as [->|Hne]; [by vm_compute in Hy|].
  apply off_t_small. lia.
Qed.

Lemma merge_next_spec l b cnt :
  settled l (Some b) →
  ∃ l' b' cnt', lf_merge_next o type flags l (lf_addr b) cnt = Ok (l', cnt') ∧
    settled l' (Some b') ∧ cnt' - cnt = nposix o l' - nposix o l ∧ cnt' ≤ cnt.
Proof.
  intros (Hq & Hc & Hclear). destruct (ch_request _ _ _ _ _ _ _ _ _ Hc) as (Hb & Hbo & Hbt & _ & _).
  unfold lf_merge_next. rewrite deref_elem by (done || apply Hq). cbn [obind].
  assert (Hkeep : ∃ l' b' cnt', @Ok (list lockf_range * Z) (l, cnt) = Ok (l', cnt') ∧
    settled l' (Some b') ∧ cnt' - cnt = nposix o l' - nposix o l ∧ cnt' ≤ cnt).
  { exists l, b, cnt. split_and!; try done; lia. }
  destruct (tq_split lf_addr l b (queue_addr _ Hq) Hb) as (A & B & El & HA & HB).
  replace (TAILQ_NEXT lf_addr l (lf_addr b)) with (TAILQ_FIRST lf_addr B)
    by (rewrite El; symmetry; by apply TAILQ_NEXT_middle).
  destruct B as [|x B]; [exact Hkeep|]. cbn [TAILQ_FIRST deref_opt].
  assert (Hx : x ∈ l) by (rewrite El, elem_of_app; right; right; left).
  assert (Hxb : x ≠ b) by (intros ->; apply (HB b); [left|done]).
  rewrite deref_elem by (done || apply Hq). cbn [obind].
  destruct ((lf_owner x =? o) && (lf_start x =? s64 (lf_end b + 1)) && lf_match x type flags) eqn:E; [|exact Hkeep].
  apply andb_true_iff in E as [E Hm]. bool_prop.
  pose proof (queue_range _ Hq b Hb) as (? & ? & _). pose proof (queue_range _ Hq x Hx) as (? & ? & _).
  assert (lf_start x = lf_end b + 1) by (apply off_t_next; [lia|lia|done]).
  set (f := λ r, set_flags (Z.lor (lf_flags r) (Z.land (lf_flags x) F_NOEND)) (set_end (lf_end x) r)).
  destruct (merge_spec l b x b x f cnt) as (H1' & H2' & H3' & H4' & H5'); try done; auto.
  - split_and!; [done|done|congruence].
  - apply is_posix_lor.
  - eexists _, (f b), _. by split_and!.
Qed.

Lemma lf_merge_spec l ob cnt :
  settled l ob →
  ∃ l' ob' cnt', lf_merge l o type flags (lf_addr <$> ob) cnt = Ok (l', cnt') ∧
    settled l' ob' ∧ cnt' - cnt = nposix o l' - nposix o l ∧ cnt' ≤ cnt.
Proof.
  intros Hs. destruct ob as [b|]; cbn [lf_merge fmap option_fmap option_map].
  - destruct (merge_prev_spec l b cnt Hs) as (l1 & b1 & c1 & -> & Hs1 & Hn1 & Hc1). cbn [obind].
    destruct (merge_next_spec l1 b1 c1 Hs1) as (l2 & b2 & c2 & -> & Hs2 & Hn2 & Hc2).
    exists l2, (Some b2), c2. split_and!; [done|done|lia|lia].
  - exists l, None, cnt. split_and!; [done|done|lia|lia].
Qed.


(** ** What the settled queue means *)

Lemma apart_disjoint r1 r2 :
  range_ok r1 → range_ok r2 → (∀ x, covers r1 x → ¬ covers r2 x) → disjoint r1 r2.
Proof.
  intros (H1 & _) (H2 & _) H.
  pose proof (H (Z.max (lf_start r1) (lf_start r2))) as H3. unfold covers, disjoint in *. lia.
Qed.

Lemma settled_ranges_ok l ob : ranges_ok l0 → settled l ob → ranges_ok l.
Proof.
  intros Hl0 (Hq & Hc & Hclear). split; [done|].
  assert (Hwith : ∀ b r, ob = Some b → old l ob r → disjoint b r).
  { intros b r -> Hr. destruct (ch_request _ _ _ _ _ _ _ _ _ Hc) as (Hb & Hbo & _).
    apply apart_disjoint; [by apply (queue_range _ Hq)|apply (queue_range _ Hq), Hr|].
    intros x Hbx Hrx. pose proof (ch_meet _ _ _ _ _ _ _ _ _ Hc b r x eq_refl Hr Hbx Hrx).
    apply (Hclear r Hr). unfold hit, covers in *. destruct Hr as (_ & ? & _). lia. }
  intros r1 r2 H1 H2 E Hne. destruct (decide (lf_owner r1 = o)) as [Eo|Eo].
  - destruct (decide (ob = Some r1)) as [->|N1]; [|destruct (decide (ob = Some r2)) as [->|N2]].
    + apply Hwith; [done|]. split_and!; [done|congruence|congruence].
    + assert (disjoint r2 r1) as [?|?]; [|by right|by left].
      apply Hwith; [done|]. by split_and!.
    + apply (ch_disjoint _ _ _ _ _ _ _ _ _ Hc); [|split_and!; congruence|done]. by split_and!.
  - apply (ranges_disjoint l0 Hl0); try done; by apply (ch_other _ _ _ _ _ _ _ _ _ Hc); congruence.
Qed.

Lemma settled_holds l ob o' x t :
  settled l ob →
  holds l o' x t ↔
  if decide (o' = o ∧ s ≤ x ≤ e) then type ≠ F_UNLCK ∧ t = type else holds l0 o' x t.
Proof.
  intros (Hq & Hc & Hclear). destruct (decide _) as [[-> Hx]|Hn].
  - split.
    + intros (r & Hr & Hro & Hrx & <-). destruct (decide (ob = Some r)) as [->|Hob].
      * destruct (ch_request _ _ _ _ _ _ _ _ _ Hc) as (_ & _ & <- & _). split; [|done].
        apply lock_type_unlck. by apply (queue_range _ Hq).
      * exfalso. apply (Hclear r); [by split_and!|]. unfold hit, covers in *. lia.
    + intros [Ht ->]. destruct ob as [b|]; [|by destruct Ht; apply (ch_request _ _ _ _ _ _ _ _ _ Hc)].
      destruct (ch_request _ _ _ _ _ _ _ _ _ Hc) as (Hb & Hbo & Hbt & ? & ?).
      exists b. split_and!; try done; unfold covers; lia.
  - destruct (decide (o' = o)) as [->|Ho].
    + apply (ch_outside _ _ _ _ _ _ _ _ _ Hc). tauto.
    + unfold holds. split; intros (r & Hr & Hro & Hrx & Hrt); exists r; split_and!; try done;
        apply (ch_other _ _ _ _ _ _ _ _ _ Hc); congruence.
Qed.

Lemma settled_one_kind l ob o' flags' :
  settled l ob → one_kind l0 o' flags' → (o' = o → is_posix flags' = is_posix flags) → one_kind l o' flags'.
Proof.
  intros (Hq & Hc & _) Hk Hf r Hr Hro. destruct (decide (o' = o)) as [->|Ho].
  - rewrite Hf by done. by apply (ch_kind _ _ _ _ _ _ _ _ _ Hc).
  - apply Hk; [|done]. apply (ch_other _ _ _ _ _ _ _ _ _ Hc); congruence.
Qed.

(** ** The queue before the loop *)

Lemma changing_start :
  type = F_UNLCK → ranges_ok l0 → one_kind l0 o flags → (∀ z, z ∈ l0 → lf_addr z < bound) →
  changing l0 None.
Proof.
  intros Ht Hl Hk Hbd. split; try done.
  - intros r1 r2 (? & ? & _) (? & ? & _). apply (ranges_disjoint l0 Hl); congruence.
Qed.

(** The range of the request has been inserted. *)
Lemma request_inserted b l1 :
  ranges_ok l0 → one_kind l0 o flags → queue_ok l1 →
  lf_owner b = o → lf_type b = type → lf_start b = s → lf_end b = e →
  is_posix (lf_flags b) = is_posix flags →
  (∀ z, z ∈ l0 → lf_addr z < bound ∧ lf_addr z ≠ lf_addr b) → lf_addr b < bound →
  (∀ z, z ∈ l1 ↔ z ∈ l0 ∨ z = b) →
  changing l1 (Some b).
Proof.
  intros Hl Hk Hq Hbo Hbt Hbs Hbe Hbp Hfresh Hbb Hel.
  assert (Hold : ∀ z, old l1 (Some b) z → z ∈ l0 ∧ lf_owner z = o).
  { intros z (Hz & ? & ?). apply Hel in Hz as [?| ->]; [by split|done]. }
  split.
  - intros z. rewrite Hel. intros [?| ->]; [by apply Hfresh|done].
  - intros r Hr. rewrite Hel. split; [|by left]. intros [?| ->]; done.
  - intros r Hr Hro. apply Hel in Hr as [?| ->]; [by apply Hk|done].
  - rewrite Hel. split_and!; auto; lia.
  - intros r1 r2 [? ?]%Hold [? ?]%Hold. apply (ranges_disjoint l0 Hl); congruence.
  - intros ? r x [= <-] _ Hbx _. unfold covers in Hbx. lia.
  - intros x t Hx. unfold holds. split; intros (r & Hr & Hro & Hrx & Hrt).
    + apply Hel in Hr as [?| ->]; [by exists r|]. unfold covers in Hrx. lia.
    + exists r. rewrite Hel. split_and!; auto.
Qed.

Lemma insert_request_spec b A B :
  ranges_ok l0 → one_kind l0 o flags → l0 = A ++ B →
  (∀ x, x ∈ A → lf_start x < s) → (∀ x, x ∈ B → s ≤ lf_start x) →
  lf_owner b = o → lf_type b = type → lf_start b = s → lf_end b = e → lf_flags b = flags →
  lock_type type → (∀ z, z ∈ l0 → lf_addr z < bound ∧ lf_addr z ≠ lf_addr b) → lf_addr b < bound →
  let l1 := lf_insert l0 b (TAILQ_FIRST lf_addr B) in
  queue_ok l1 ∧ changing l1 (Some b) ∧ (∀ z, z ∈ l1 ↔ z ∈ l0 ∨ z = b) ∧
  nposix o l1 = nposix o l0 + (if is_posix flags then 1 else 0).
Proof.
  intros Hl Hk El HA HB Hbo Hbt Hbs Hbe Hbf Ht Hfresh Hbb l1.
  pose proof (ranges_queue l0 Hl) as Hq. rewrite El in Hq.
  destruct (lf_insert_spec A B b (queue_addr _ Hq)) as (B1 & B2 & EB & H1 & H2 & Ei).
  assert (El1 : l1 = A ++ B1 ++ b :: B2) by (unfold l1; by rewrite El).
  assert (Hel : ∀ z, z ∈ l1 ↔ z ∈ l0 ∨ z = b).
  { intros z. rewrite El1, El, EB, !elem_of_app, elem_of_cons. tauto. }
  assert (Hq1 : queue_ok l1).
  { rewrite El1. apply queue_ok_insert; try done.
    - by rewrite <- EB.
    - unfold range_ok. rewrite Hbs, Hbe, Hbt. split_and!; try done; lia.
    - rewrite <- EB, <- El. intros z Hz. by apply Hfresh.
    - rewrite Hbs. intros x [Hx|Hx]%elem_of_app; [specialize (HA x Hx); lia|].
      specialize (H1 x Hx). lia. }
  split_and!; [done| |done|].
  - apply request_inserted; try done. by rewrite Hbf.
  - rewrite El1, El, EB, !nposix_app, nposix_cons, Hbo, Z.eqb_refl, Hbf. cbn [andb]. lia.
Qed.


Lemma hit_apart r1 r2 :
  ranges_ok l0 → r1 ∈ l0 → r2 ∈ l0 → lf_owner r1 = o → lf_owner r2 = o → r1 ≠ r2 → disjoint r1 r2.
Proof. intros Hl ? ? ? ? ?. apply (ranges_disjoint l0 Hl); congruence. Qed.

(** The first and the last range of the owner that the request overlaps. *)
Definition first_last (F G : lockf_range) : Prop :=
  F ∈ l0 ∧ G ∈ l0 ∧ hit F ∧ hit G ∧
  ∀ z, z ∈ l0 → hit z → (z = F ∨ lf_end F < lf_start z) ∧ (z = G ∨ lf_end z < lf_start G).

Lemma first_last_intro A F B C G D :
  ranges_ok l0 → l0 = A ++ F :: B → l0 = C ++ G :: D → hit F → hit G →
  (∀ z, z ∈ A → ¬ hit z) → (∀ z, z ∈ D → ¬ hit z) → first_last F G.
Proof.
  intros Hl E1 E2 HF HG HA HD. pose proof (ranges_queue l0 Hl) as Hq.
  assert (F ∈ l0) by (rewrite E1, elem_of_app; right; left).
  assert (G ∈ l0) by (rewrite E2, elem_of_app; right; left).
  split_and!; try done. intros z Hz Hh. pose proof Hh as (Hzo & ? & ?).
  pose proof HF as (HFo & ? & ?). pose proof HG as (HGo & ? & ?).
  pose proof (queue_range _ Hq z Hz) as (? & _). split.
  - destruct (decide (z = F)) as [->|Hne]; [by left|right].
    rewrite E1 in Hz. apply elem_of_app in Hz as [Hz|Hz]; [by destruct (HA z Hz)|].
    apply elem_of_cons in Hz as [->|Hz]; [done|].
    destruct (hit_apart F z Hl) as [?|?]; try done; [rewrite E1, elem_of_app; right; by right|].
    pose proof (queue_sorted _ Hq) as Hs. rewrite E1 in Hs. apply sorted_app in Hs as (_ & _ & Hs).
    apply sorted_cons in Hs as [Hs _]. specialize (Hs z Hz). lia.
  - destruct (decide (z = G)) as [->|Hne]; [by left|right].
    rewrite E2 in Hz. apply elem_of_app in Hz as [Hz|Hz].
    + destruct (hit_apart z G Hl) as [?|?]; try done; [rewrite E2, elem_of_app; by left|].
      pose proof (queue_sorted _ Hq) as Hs. rewrite E2 in Hs. apply sorted_app in Hs as (Hs & _ & _).
      specialize (Hs z G Hz ltac:(left)). pose proof (queue_range _ Hq G ltac:(done)) as (? & _). lia.
    + apply elem_of_cons in Hz as [->|Hz]; [done|]. by destruct (HD z Hz).
Qed.

Lemma sorted_before l1 x l2 y : sorted (l1 ++ x :: l2) → y ∈ l1 ++ x :: l2 → lf_start x < lf_start y → y ∈ l2.
Proof.
  intros (H & _)%sorted_app Hy Hlt. apply elem_of_app in Hy as [Hy|[->|Hy]%elem_of_cons]; [|lia|done].
  specialize (H y x Hy ltac:(left)). lia.
Qed.

Lemma loop_start_plain l1 ob F G :
  ranges_ok l0 → first_last F G → queue_ok l1 → changing l1 ob →
  (∀ z, old l1 ob z ↔ z ∈ l0 ∧ lf_owner z = o) →
  ¬ (lf_start F < s ∧ F = G ∧ e < lf_end G) →
  ∃ pre mid tail, l1 = pre ++ mid ++ G :: tail ∧
    TAILQ_FIRST lf_addr (mid ++ G :: tail) = Some (lf_addr F) ∧ F ∈ mid ++ [G] ∧
    loop_state (Some (lf_addr F)) pre mid G tail ob.
Proof.
  intros Hl (HF0 & HG0 & HF & HG & Hfl) Hq Hc Hold Hnd.
  pose proof HF as (HFo & HFs & HFe). pose proof HG as (HGo & HGs & HGe).
  assert (HF1 : F ∈ l1) by (by apply Hold).
  assert (HG1 : G ∈ l1) by (by apply Hold).
  pose proof (queue_range _ Hq F HF1) as (HFok & _). pose proof (queue_range _ Hq G HG1) as (HGok & _).
  apply list_elem_of_split in HF1 as (pre & R & E1).
  assert (Hsplit : ∃ mid tail, F :: R = mid ++ G :: tail).
  { destruct (decide (F = G)) as [->|Hne]; [by exists [], R|].
    destruct (Hfl G HG0 HG) as [[?|Hlt] _]; [congruence|].
    assert (G ∈ R) as (m & t & ->)%list_elem_of_split.
    { apply (sorted_before pre F); [rewrite <- E1; apply Hq|by rewrite <- E1|lia]. }
    by exists (F :: m), t. }
  destruct Hsplit as (mid & tail & ER). rewrite ER in E1.
  assert (Hsort : sorted (pre ++ mid ++ G :: tail)) by (rewrite <- E1; apply Hq).
  assert (HF2 : F ∈ mid ++ [G]).
  { destruct mid as [|x mid]; cbn in ER; injection ER as -> _; left. }
  assert (HFmin : ∀ z, z ∈ mid ++ G :: tail → lf_start F ≤ lf_start z).
  { intros z Hz. rewrite <- ER in Hz, Hsort. apply sorted_app in Hsort as (_ & _ & Hsort).
    apply sorted_cons in Hsort as [Hs _]. apply elem_of_cons in Hz as [->|Hz]; [lia|auto]. }
  assert (Hfirst : ∀ z, z ∈ mid ++ G :: tail → z ∈ l0 → lf_owner z = o → z = F ∨ lf_end F < lf_start z).
  { intros z Hz Hz0 Hzo. destruct (decide (z = F)) as [->|Hne]; [by left|]. right.
    specialize (HFmin z Hz). destruct (hit_apart F z Hl) as [?|?]; try done.
    pose proof (queue_range _ (ranges_queue l0 Hl) z Hz0) as (? & _). lia. }
  assert (Hsub : ∀ z, z ∈ mid ++ [G] → z ∈ mid ++ G :: tail).
  { intros z. rewrite !elem_of_app, elem_of_cons, elem_of_nil, elem_of_cons. tauto. }
  exists pre, mid, tail. split_and!; [done|by rewrite <- ER|done|].
  split; rewrite <- ?E1; try done.
  - by apply Hold.
  - intros z Hz [Hz0 Hzo]%Hold Hzs. destruct (Hfirst z) as [->|?]; auto; [split; [done|lia]|lia].
  - intros z Hz [Hz0 Hzo]%Hold. destruct (decide (z = G)) as [->|Hne].
    + (* G occurs once *) exfalso. pose proof (queue_addr _ Hq) as Ha. rewrite E1, app_assoc in Ha.
      apply tq_ok_middle in Ha as [Ha _]. apply (Ha G); [rewrite elem_of_app; by right|done].
    + destruct (hit_apart z G Hl) as [?|?]; try done; [lia|].
      apply sorted_app in Hsort as (_ & _ & Hsort). apply sorted_app in Hsort as (Hsort & _).
      specialize (Hsort z G Hz ltac:(left)). pose proof (queue_range _ (ranges_queue l0 Hl) z Hz0) as (? & _). lia.
  - lia.
  - intros HGs'. destruct (Hfirst G) as [EG|?]; try done; [rewrite elem_of_app; right; left|subst G|lia].
    destruct (decide (lf_end F ≤ e)); [done|]. destruct Hnd. split_and!; try done; lia.
  - intros z [Hz0 Hzo]%Hold Hh. destruct (Hfl z Hz0 Hh) as [H1 H2].
    assert (Hz1 : z ∈ l1) by (by apply Hold). rewrite E1 in Hz1.
    pose proof (queue_range _ (ranges_queue l0 Hl) z Hz0) as (? & _).
    apply elem_of_app in Hz1 as [Hz1|Hz1].
    + apply sorted_app in Hsort as (Hsort & _). assert (lf_start z ≤ lf_start F).
      { apply Hsort; [done|]. by apply Hsub. }
      destruct H1 as [->|?]; [|lia]. apply elem_of_app in HF2 as [?| ->%list_elem_of_singleton]; auto.
    + apply elem_of_app in Hz1 as [?|[->|Hz1]%elem_of_cons]; auto.
      destruct H2 as [->|?]; [by right|].
      apply sorted_app in Hsort as (_ & _ & Hsort). apply sorted_app in Hsort as (_ & _ & Hsort).
      apply sorted_cons in Hsort as [Hs _]. specialize (Hs z Hz1). lia.
Qed.


(** The double clip, before the loop: the range [F] sticks out of the request
    on both sides. *)
Lemma double_clip_spec l1 ob F range2 cnt :
  ranges_ok l0 → first_last F F → queue_ok l1 → changing l1 ob →
  (∀ z, old l1 ob z ↔ z ∈ l0 ∧ lf_owner z = o) →
  lf_start F < s → e < lf_end F → (∀ z, z ∈ l1 → lf_addr z ≠ range2) → range2 < bound →
  ∃ pre mid g tail cnt',
    lf_double_clip l1 s e F range2 cnt = Ok (pre ++ mid ++ g :: tail, Some (lf_addr g), cnt') ∧
    (∃ y, y ∈ mid ∧ y ∈ pre ++ mid ++ g :: tail ∧ lf_type y = lf_type F ∧
       is_posix (lf_flags y) = is_posix (lf_flags F) ∧
       old (pre ++ mid ++ g :: tail) ob y ∧ y ≠ g) ∧
    lf_type g = lf_type F ∧ is_posix (lf_flags g) = is_posix (lf_flags F) ∧
    TAILQ_FIRST lf_addr (mid ++ g :: tail) = Some (lf_addr F) ∧
    loop_state (Some (lf_addr F)) pre mid g tail ob ∧
    cnt' - cnt = nposix o (pre ++ mid ++ g :: tail) - nposix o l1 ∧
    cnt' = cnt + (if is_posix (lf_flags F) then 1 else 0).
Proof.
  intros Hl (HF0 & _ & HF & _ & Hfl) Hq Hc Hold HFs HFe Hfresh Hrb.
  pose proof HF as (HFo & _ & _).
  assert (HFold : old l1 ob F) by (by apply Hold).
  pose proof HFold as (HF1 & _ & HFb).
  pose proof (queue_range _ Hq F HF1) as (HFok1 & HFok2 & HFok3).
  destruct (tq_split lf_addr l1 F (queue_addr _ Hq) HF1) as (pre & R & E1 & Hpre & HR).
  set (f := λ r, set_flags (Z.ldiff (lf_flags (set_end (s - 1) r)) F_NOEND) (set_end (s - 1) r)).
  set (y := f F). set (g := Range range2 (lf_type F) (lf_flags F) (e + 1) (lf_end F) (lf_owner F)).
  assert (Hq1 : queue_ok (pre ++ y :: R)).
  { apply (queue_ok_replace pre F); [by rewrite <- E1|done|done|].
    unfold range_ok, y, f. cbn. split_and!; try done; lia. }
  destruct (lf_insert_spec pre (y :: R) g (queue_addr _ Hq1)) as (B1 & B2 & EB & H1 & H2 & Ei).
  destruct B1 as [|y' mid].
  { destruct B2 as [|x B2]; [done|]. injection EB as <- <-. unfold g, y, f in H2. cbn in H2. lia. }
  injection EB as <- ER.
  assert (Hposix : is_posix (lf_flags y) = is_posix (lf_flags F)) by apply is_posix_ldiff.
  assert (Hfresh1 : ∀ z, z ∈ pre ++ y :: R → lf_addr z ≠ lf_addr g).
  { intros z. rewrite E1 in Hfresh. rewrite elem_of_app, elem_of_cons. intros [Hz|[->|Hz]].
    - apply Hfresh. rewrite elem_of_app. by left.
    - apply (Hfresh F). rewrite elem_of_app. right. left.
    - apply Hfresh. rewrite elem_of_app. right. by right. }
  assert (Hq2 : queue_ok (pre ++ (y :: mid) ++ g :: B2)).
  { apply queue_ok_insert; try done.
    - cbn [app]. by rewrite <- ER.
    - unfold range_ok, g. cbn. split_and!; try done; lia.
    - cbn [app]. by rewrite <- ER.
    - intros z [Hz|Hz]%elem_of_app; [|specialize (H1 z Hz); lia].
      pose proof (queue_sorted _ Hq1) as (H & _)%sorted_app. specialize (H z y Hz ltac:(left)).
      unfold y, f, g in *. cbn in *. lia. }
  assert (Hel : ∀ z, z ∈ pre ++ (y :: mid) ++ g :: B2 ↔ (z ∈ l1 ∧ z ≠ F) ∨ z = y ∨ z = g).
  { intros z. rewrite E1, <- (queue_elem_remove pre F R z) by (by rewrite <- E1).
    rewrite ER, !elem_of_app, !elem_of_cons. tauto. }
  assert (Hyg : y ≠ g).
  { intros E. apply (Hfresh1 y); [rewrite elem_of_app; right; left|by rewrite E]. }
  assert (Hob : ∀ b, ob = Some b → b ∈ l1).
  { intros b ->. by destruct (ch_request _ _ _ _ _ _ _ _ _ Hc). }
  assert (Hby : ∀ b, ob = Some b → b ≠ y).
  { intros b Hb ->. apply HFb. rewrite Hb. f_equal.
    by apply (tq_ok_inj lf_addr _ _ _ (queue_addr _ Hq)); auto. }
  assert (Hbg : ∀ b, ob = Some b → b ≠ g).
  { intros b Hb ->. apply (Hfresh g); auto. }
  assert (Hc2 : changing (pre ++ (y :: mid) ++ g :: B2) ob).
  { apply (changing_split o type flags s e l0 bound Hse l1 _ ob F y g); try done; auto.
    - by apply (ch_addr _ _ _ _ _ _ _ _ _ Hc F).
    - intros x. unfold covers, y, g, f. cbn. lia.
    - unfold y, f. cbn. lia.
    - unfold g. cbn. lia.
    - unfold y, f, g. cbn. lia. }
  assert (Hold2 : ∀ z, old (pre ++ (y :: mid) ++ g :: B2) ob z →
    z = y ∨ z = g ∨ (z ∈ l0 ∧ lf_owner z = o ∧ disjoint F z)).
  { intros z (Hz & Hzo & Hzb). apply Hel in Hz as [[Hz HzF]|[?|?]]; [|by left|by right; left].
    right; right. assert (z ∈ l0 ∧ lf_owner z = o) as [? ?] by (apply Hold; by split_and!).
    split_and!; [done|done|]. by apply (hit_apart F z Hl); auto. }
  assert (Hyold : old (pre ++ (y :: mid) ++ g :: B2) ob y).
  { split_and!; [apply Hel; auto|done|]. intros E. by apply (Hby y). }
  assert (Hn : nposix o (pre ++ (y :: mid) ++ g :: B2) = nposix o l1 + (if is_posix (lf_flags F) then 1 else 0)).
  { rewrite E1, ER. cbn [app]. rewrite !nposix_app, !nposix_cons, !nposix_app, nposix_cons, Hposix.
    unfold y, f, g. cbn [lf_owner lf_flags set_flags set_end]. rewrite HFo, Z.eqb_refl. cbn [andb]. lia. }
  set (cnt' := if is_posix (lf_flags F) then cnt + 1 else cnt).
  exists pre, (y :: mid), g, B2, cnt'. split_and!.
  - unfold lf_double_clip, lf_create_range. rewrite off_t_small by lia.
    replace (e + 1 <=? lf_end F) with true by (symmetry; apply Z.leb_le; lia). cbn [kkassert obind].
    rewrite E1, tq_update_app, tq_update_here by done.
    change (lf_insert _ _ _) with (lf_insert (pre ++ y :: R) g (TAILQ_FIRST lf_addr (y :: R))).
    by rewrite Ei.
  - exists y. split_and!; try done; [left|by apply Hyold].
  - done.
  - done.
  - done.
  - split; try done.
    + split_and!; [apply Hel; auto|done|]. intros E. by apply (Hbg g).
    + intros z Hz Hzo Hzs. destruct (Hold2 z Hzo) as [->|[->|(Hz0 & _ & Hd)]].
      * split; [done|]. unfold y, f. cbn. lia.
      * unfold g in Hzs. cbn in Hzs. lia.
      * exfalso. assert (lf_start F ≤ lf_start z).
        { apply elem_of_app in Hz as [Hz| ->%list_elem_of_singleton]; [|unfold g in Hzs; cbn in Hzs; lia].
          apply elem_of_cons in Hz as [->|Hz]; [done|].
          pose proof (queue_sorted _ Hq1) as (_ & _ & Hs)%sorted_app. apply sorted_cons in Hs as [Hs _].
          apply (Hs z). rewrite ER, elem_of_app. by left. }
        pose proof (queue_range _ (ranges_queue l0 Hl) z Hz0) as (? & _). unfold disjoint in Hd. lia.
    + intros z Hz Hzo. destruct (Hold2 z Hzo) as [->|[->|(Hz0 & _ & Hd)]].
      * unfold y, f. cbn. lia.
      * exfalso. pose proof (queue_addr _ Hq2) as Ha. rewrite app_assoc in Ha.
        apply tq_ok_middle in Ha as [Ha _]. apply (Ha g); [rewrite elem_of_app; by right|done].
      * exfalso. pose proof (queue_range _ (ranges_queue l0 Hl) z Hz0) as (? & _).
        specialize (H1 z Hz). unfold g in H1. cbn in H1.
        apply elem_of_cons in Hz as [->|Hz]; [unfold disjoint, y, f in Hd; cbn in Hd; lia|].
        pose proof (queue_sorted _ Hq1) as (_ & _ & Hs)%sorted_app. apply sorted_cons in Hs as [Hs _].
        assert (Hyz : lf_start y ≤ lf_start z) by (apply Hs; rewrite ER, elem_of_app; by left).
        change (lf_start y) with (lf_start F) in Hyz. unfold disjoint in Hd. lia.
    + unfold g. cbn. lia.
    + intros z Hzo Hh. exfalso. destruct Hh as (_ & ? & ?).
      destruct (Hold2 z Hzo) as [->|[->|(Hz0 & _ & Hd)]].
      * unfold y, f in *. cbn in *. lia.
      * unfold g in *. cbn in *. lia.
      * unfold disjoint in Hd. lia.
  - unfold cnt'. rewrite Hn. case_test; lia.
  - unfold cnt'. case_test; lia.
Qed.

End clip.

End LockfTheory.
