(* ===== verification/LockfSetlock.v ===== *)
(** What the calls on advisory record locks do: [lf_setlock] and
    [lf_getlock] against the relation [holds] of LockfTheory.v, the
    accounting of POSIX locks, the conversion of a struct flock, and what any
    sequence of requests, sleeps and wakeups keeps true. *)

From stdpp Require Import base list gmap sorting.
From S2P Require Import Prelude TailQ FdTree FdOps Lockf LockfTheory.

Module LockfSetlock.
Import TailQ Lockf LockfTheory.

(** * Accounting *)

(** The process [p] of an owner and the count [n] of its user cover the locks
    the owner has on this file, and there is room to count two more. *)
Record account (w : lockf) (o : Z) (p : proc) (n : Z) : Prop := {
  acc_owner : o ≠ 0;
  acc_proc : procs w !! o = Some p;
  acc_user : ui_posixlocks w !! cr_uidinfo p = Some n;
  acc_covers : nposix o (lf_range w) ≤ p_numposixlocks p;
  acc_total : p_numposixlocks p ≤ n;
  acc_room : n + 2 < 2 ^ 31
}.

Definition with_count (m : Z) (p : proc) : proc :=
  Proc (p_pid p) m (cr_uid p) (cr_uidinfo p) (rlim_cur p).

(** The counts after [d] more locks of [o]. *)
Definition counted (w : lockf) (o : Z) (p : proc) (n d : Z) : lockf :=
  set_counts (<[o := with_count (p_numposixlocks p + d) p]> (procs w))
    (<[cr_uidinfo p := n + d]> (ui_posixlocks w)) w.

(** The limit that applies to a process stops it from having more locks. *)
Definition at_limit (w : lockf) (p : proc) (n : Z) : Prop :=
  cr_uid p ≠ 0 ∧
  let max := s32 (Z.min (rlim_cur p) (maxposixlocksperuid w)) in max ≠ -1 ∧ max ≤ n.

Lemma lf_count_change_spec w o p n d :
  account w o p n → 0 ≤ p_numposixlocks p + d → d ≤ 2 →
  (lf_count_change w o d = Ok (w, true) ∧ 0 < d ∧ at_limit w p n) ∨
  (lf_count_change w o d = Ok (counted w o p n d, false) ∧ (0 < d → ¬ at_limit w p n)).
Proof.
  intros [Ho Hp Hn Hcov Htot Hroom] Hd0 Hd2. unfold lf_count_change, uidinfo_of.
  replace (o =? 0) with false by (symmetry; by apply Z.eqb_neq). rewrite Hp, Hn. cbn [obind].
  set (max := s32 (Z.min (rlim_cur p) (maxposixlocksperuid w))).
  pose proof (nposix_nonneg o (lf_range w)).
  destruct ((d >? 0) && negb (cr_uid p =? 0) && negb (max =? -1) && (n >=? max)) eqn:E.
  - left. bool_prop. split; [done|]. unfold at_limit. fold max. split_and!; lia || done.
  - right. unfold counted, with_count.
    assert (0 ≤ n + d) by lia.
    rewrite !signed_of_small by (unfold is_s; lia).
    replace (n + d >=? 0) with true by (symmetry; rewrite Z.geb_leb; apply Z.leb_le; lia).
    replace (p_numposixlocks p + d >=? 0) with true by (symmetry; rewrite Z.geb_leb; apply Z.leb_le; lia).
    split; [done|]. unfold at_limit. fold max. lia.
Qed.

Lemma lf_count_change_counted w o p n d1 d2 :
  account w o p n → d2 ≤ 0 → d1 ≤ 2 → 0 ≤ p_numposixlocks p + d1 + d2 →
  lf_count_change (counted w o p n d1) o d2 = Ok (counted w o p n (d1 + d2), false).
Proof.
  intros [Ho Hp Hn Hcov Htot Hroom] Hd2 Hd1 Hd. unfold lf_count_change, uidinfo_of.
  replace (o =? 0) with false by (symmetry; by apply Z.eqb_neq).
  unfold counted at 1 2. cbn [procs ui_posixlocks set_counts].
  rewrite lookup_insert_eq. cbn [cr_uidinfo with_count]. rewrite lookup_insert_eq. cbn [obind].
  replace (d2 >? 0) with false by (symmetry; rewrite Z.gtb_ltb; apply Z.ltb_ge; lia). cbn [andb].
  pose proof (nposix_nonneg o (lf_range w)).
  cbn [p_numposixlocks with_count p_pid cr_uid cr_uidinfo rlim_cur].
  rewrite !signed_of_small by (unfold is_s; lia).
  replace (n + d1 + d2 >=? 0) with true by (symmetry; rewrite Z.geb_leb; apply Z.leb_le; lia).
  replace (p_numposixlocks p + d1 + d2 >=? 0) with true by (symmetry; rewrite Z.geb_leb; apply Z.leb_le; lia).
  cbn [kkassert]. unfold counted, set_counts. cbn. rewrite !insert_insert_eq. unfold with_count.
  by rewrite !Z.add_assoc.
Qed.

Lemma lf_count_change_set_range w l o d :
  lf_count_change (set_range l w) o d =
  let* (w', b) := lf_count_change w o d in Ok (set_range l w', b).
Proof.
  unfold lf_count_change, uidinfo_of. cbn [procs ui_posixlocks set_range maxposixlocksperuid].
  destruct (o =? 0); [done|]. destruct (procs w !! o) as [p|]; [|done].
  destruct (ui_posixlocks w !! cr_uidinfo p); [|done]. cbn [obind].
  case_test; [done|]. unfold kkassert. by repeat case_test.
Qed.

Lemma counted_zero w o p n : account w o p n → counted w o p n 0 = w.
Proof.
  intros [Ho Hp Hn _ _ _]. unfold counted, set_counts. rewrite !Z.add_0_r.
  replace (with_count (p_numposixlocks p) p) with p by (by destruct p).
  rewrite (insert_id (procs w)), (insert_id (ui_posixlocks w)) by done. by destruct w.
Qed.

(** What a request that goes through leaves: the queue [l] and, for a POSIX
    request, the counts moved by the change in the number of ranges. *)
Definition granted (w : lockf) (o flags : Z) (pn : proc * Z) (l : list lockf_range) : lockf :=
  set_range l
    (if is_posix flags then counted w o (fst pn) (snd pn) (nposix o l - nposix o (lf_range w)) else w).

(** A POSIX request needs the process of its owner. *)
Definition accounted (w : lockf) (o flags : Z) (pn : proc * Z) : Prop :=
  is_posix flags = true → account w o (fst pn) (snd pn).

Lemma nposix_none o l : (∀ r, r ∈ l → lf_owner r = o → is_posix (lf_flags r) = false) → nposix o l = 0.
Proof.
  induction l as [|r l IH]; intros H; [done|]. rewrite nposix_cons.
  destruct (lf_owner r =? o) eqn:E; bool_prop; cbn [andb].
  - rewrite (H r) by (done || left). apply IH. intros z Hz. apply H. by right.
  - apply IH. intros z Hz. apply H. by right.
Qed.

Lemma granted_same w o flags pn : accounted w o flags pn → granted w o flags pn (lf_range w) = w.
Proof.
  intros Ha. unfold granted. destruct (is_posix flags) eqn:E.
  - rewrite Z.sub_diag, counted_zero by (by apply Ha, E). by destruct w.
  - by destruct w.
Qed.


(** * Granting a request *)

Section grant.
Variables (w : lockf) (o type flags s e bound : Z) (pn : proc * Z).
Notation l0 := (lf_range w).
Hypothesis Hs : 0 ≤ s ≤ e.
Hypothesis He : e ≤ LLONG_MAX.
Hypothesis Htype : type = F_UNLCK ∨ lock_type type.
Hypothesis Hl0 : ranges_ok l0.
Hypothesis Hkind : one_kind l0 o flags.
Hypothesis Hbound : ∀ r, r ∈ l0 → lf_addr r < bound.
Hypothesis Hacc : accounted w o flags pn.

Notation settled := (settled o type flags s e l0 bound).
Notation changing := (changing o type flags s e l0 bound).
Notation hit := (hit o s e).

Lemma hits_nposix l : one_kind l o flags → is_posix flags = false → nposix o l = 0.
Proof. intros Hk Hp. apply nposix_none. intros r Hr Hro. by rewrite (Hk r Hr Hro). Qed.

Lemma lf_create_range_ok a : lf_create_range a o type flags s e = Ok (Range a type flags s e o).
Proof. unfold lf_create_range. by replace (s <=? e) with true by (symmetry; apply Z.leb_le; lia). Qed.

Lemma lf_setlock_new_spec A B range1 :
  l0 = A ++ B → (∀ x, x ∈ A → lf_start x < s) → (∀ x, x ∈ B → s ≤ lf_start x) →
  (∀ r, r ∈ l0 → ¬ hit r) → (∀ r, r ∈ l0 → lf_addr r ≠ range1) → range1 < bound →
  (∃ l ob, lf_setlock_new w o type flags s e (TAILQ_FIRST lf_addr B) range1 =
     Ok (granted w o flags pn l, 0) ∧ settled l ob ∧
     (is_posix flags = true → nposix o l0 < nposix o l → ¬ at_limit w (fst pn) (snd pn))) ∨
  (lf_setlock_new w o type flags s e (TAILQ_FIRST lf_addr B) range1 = Ok (w, ENOLCK) ∧
     is_posix flags = true ∧ type ≠ F_UNLCK ∧ at_limit w (fst pn) (snd pn)).
Proof.
  intros El HA HB Hno Hfresh Hr1. unfold lf_setlock_new.
  destruct (type =? F_UNLCK) eqn:Et; bool_prop.
  { left. exists l0, None. rewrite granted_same by done. split; [done|]. split; [|lia].
    split_and!; [apply Hl0|by apply changing_start|]. intros z (Hz & _ & _). by apply Hno. }
  destruct Htype as [?|Hlt]; [done|].
  set (b := Range range1 type flags s e o).
  destruct (insert_request_spec o type flags s e l0 bound ltac:(lia) ltac:(lia) He b A B)
    as (Hq & Hc & Hel & Hn); try done.
  { intros z Hz. split; [by apply Hbound|by apply Hfresh]. }
  set (l := lf_insert l0 b (TAILQ_FIRST lf_addr B)) in *.
  assert (Hset : settled l (Some b)).
  { split_and!; [done|done|]. intros z (Hz & Hzo & Hzb). apply Hel in Hz as [?| ->]; [by apply Hno|done]. }
  unfold granted. change (has_flag flags F_POSIX) with (is_posix flags). destruct (is_posix flags) eqn:Ep.
  - pose proof (Hacc Ep) as Ha. pose proof (nposix_nonneg o l0).
    destruct (lf_count_change_spec w o (fst pn) (snd pn) 1 Ha) as [(-> & _ & Hlim)|(-> & Hlim)];
      [pose proof (acc_covers _ _ _ _ Ha); lia|lia|right|left]; cbn [obind].
    + by split_and!.
    + exists l, (Some b). rewrite lf_create_range_ok. cbn [obind].
      split; [|split; [done|]].
      * replace (nposix o l - nposix o l0) with 1 by lia. done.
      * intros _ _. apply Hlim. lia.
  - left. cbn [obind]. exists l, (Some b). rewrite lf_create_range_ok. cbn [obind].
    split; [done|]. by split.
Qed.


(** ** Replacing ranges of the owner *)

Lemma lf_insert_request_spec A B range1 cnt :
  l0 = A ++ B → (∀ x, x ∈ A → lf_start x < s) → (∀ x, x ∈ B → s ≤ lf_start x) →
  (∀ r, r ∈ l0 → lf_addr r ≠ range1) → range1 < bound →
  ∃ l1 ob cnt1,
    lf_insert_request l0 o type flags s e (TAILQ_FIRST lf_addr B) range1 cnt = Ok (l1, lf_addr <$> ob, cnt1) ∧
    queue_ok l1 ∧ changing l1 ob ∧ (∀ z, old o l1 ob z ↔ z ∈ l0 ∧ lf_owner z = o) ∧
    (∀ z, z ∈ l1 → z ∈ l0 ∨ lf_addr z = range1) ∧
    cnt1 - cnt = nposix o l1 - nposix o l0 ∧
    cnt1 = cnt + (if negb (type =? F_UNLCK) && is_posix flags then 1 else 0).
Proof.
  intros El HA HB Hfresh Hr1. unfold lf_insert_request.
  destruct (type =? F_UNLCK) eqn:Et; bool_prop; cbn [negb andb].
  - exists l0, None, cnt. split_and!; try done; try lia; [apply Hl0|by apply changing_start| |by left].
    intros z. unfold old. split; [tauto|]. intros [? ?]. by split_and!.
  - destruct Htype as [?|Hlt]; [done|]. rewrite lf_create_range_ok. cbn [obind].
    set (b := Range range1 type flags s e o).
    destruct (insert_request_spec o type flags s e l0 bound ltac:(lia) ltac:(lia) He b A B)
      as (Hq & Hc & Hel & Hn); try done.
    { intros z Hz. split; [by apply Hbound|by apply Hfresh]. }
    eexists _, (Some b), _. split; [done|]. split; [done|]. split; [done|].
    change (has_flag flags F_POSIX) with (is_posix flags).
    split_and!.
    + intros z. unfold old. rewrite Hel. split.
      * intros ([?| ->] & ? & ?); [by split|done].
      * intros [Hz ?]. split_and!; [by left|done|]. intros [= <-]. by apply (Hfresh b).
    + intros z. rewrite Hel. intros [?| ->]; auto.
    + rewrite Hn. case_test; lia.
    + case_test; lia.
Qed.

(** The charge for the worst case, and when the request is cut in two. *)
Lemma lf_worst_count_spec F G :
  F ∈ l0 → G ∈ l0 → lf_owner F = o → lf_owner G = o →
  let (cnt, dbl) := lf_worst_count type flags s e F G in
  (dbl = true ↔ lf_start F < s ∧ F = G ∧ e < lf_end G) ∧
  -2 ≤ cnt ≤ 0 ∧ (is_posix flags = false → cnt = 0) ∧
  (type ≠ F_UNLCK → is_posix flags = true →
    lf_match F type flags = true ∨ lf_match G type flags = true ∨
    (cnt = if dbl then -2 else -1)) ∧
  (type = F_UNLCK → is_posix flags = true → cnt = -1 ∨ (cnt = 0 ∧ dbl = false)).
Proof.
  intros HF HG HFo HGo. unfold lf_worst_count. change (has_flag flags F_POSIX) with (is_posix flags).
  pose proof (ranges_queue _ Hl0) as Hq.
  assert (Hno : ∀ r, r ∈ l0 → type = F_UNLCK → lf_match r type flags = false).
  { intros r Hr Ht. destruct (lf_match r type flags) eqn:E; [|done].
    apply unlck_no_match in E; [done|by apply (queue_range _ Hq)]. }
  set (dbl := (lf_start F <? s) && (lf_addr F =? lf_addr G) && (lf_end G >? e)).
  assert (Hdbl : dbl = true ↔ lf_start F < s ∧ F = G ∧ e < lf_end G).
  { unfold dbl. split.
    - intros ?. bool_prop. split_and!; [done| |done].
      by apply (tq_ok_inj lf_addr l0); [apply Hq|done|done|].
    - intros (? & -> & ?). rewrite Z.eqb_refl. lia. }
  split; [done|]. split_and!.
  - repeat case_test; lia.
  - repeat case_test; lia.
  - intros Hp. by rewrite Hp.
  - intros Ht Hp. rewrite Hp. apply Z.eqb_neq in Ht. rewrite Ht. cbn [negb andb].
    rewrite andb_false_r. cbn [andb negb].
    destruct (lf_match F type flags), (lf_match G type flags); cbn [negb andb]; auto.
    right; right. rewrite andb_true_r. done.
  - intros Ht Hp. rewrite Hp, (Hno F HF Ht), (Hno G HG Ht). rewrite Ht, Z.eqb_refl.
    cbn [negb andb]. rewrite !andb_false_r, andb_true_r. unfold dbl.
    destruct (lf_start F <? s), (lf_end G <=? e); cbn [negb andb]; auto.
Qed.


(** The queue the loop starts from, whatever the shape of the overlap. *)
Lemma prepare_spec F G A B range1 range2 :
  let (cnt, dbl) := lf_worst_count type flags s e F G in
  first_last o s e l0 F G →
  l0 = A ++ B → (∀ x, x ∈ A → lf_start x < s) → (∀ x, x ∈ B → s ≤ lf_start x) →
  (∀ r, r ∈ l0 → lf_addr r ≠ range1 ∧ lf_addr r ≠ range2) → range1 ≠ range2 →
  range1 < bound → range2 < bound →
  ∃ l1 ob pre mid g tail cnt1 cnt2,
    lf_insert_request l0 o type flags s e (TAILQ_FIRST lf_addr B) range1 cnt = Ok (l1, lf_addr <$> ob, cnt1) ∧
    (if dbl then kkassert (lf_addr F =? lf_addr G) (lf_double_clip l1 s e F range2 cnt1)
     else Ok (l1, Some (lf_addr G), cnt1)) = Ok (pre ++ mid ++ g :: tail, Some (lf_addr g), cnt2) ∧
    TAILQ_FIRST lf_addr (mid ++ g :: tail) = Some (lf_addr F) ∧
    loop_state o type flags s e l0 bound (Some (lf_addr F)) pre mid g tail ob ∧
    cnt2 - cnt = nposix o (pre ++ mid ++ g :: tail) - nposix o l0 ∧
    (type = F_UNLCK ∨ is_posix flags = false → cnt2 ≤ 0) ∧
    (type ≠ F_UNLCK → is_posix flags = true → ∃ M, NoDup M ∧ cnt2 ≤ Z.of_nat (length M) ∧
      ∀ r, r ∈ M → r ∈ mid ++ [g] ∧ old o (pre ++ mid ++ g :: tail) ob r ∧ lf_match r type flags = true) ∧
    (type = F_RDLCK → (∃ z, z ∈ l0 ∧ hit z ∧ lf_type z = F_WRLCK) →
      ∃ r, r ∈ mid ++ [g] ∧ old o (pre ++ mid ++ g :: tail) ob r ∧ lf_type r = F_WRLCK).
Proof.
  destruct (lf_worst_count type flags s e F G) as [cnt dbl] eqn:Ewc.
  intros Hfl El HA HB Hfresh Hne Hr1 Hr2.
  pose proof Hfl as (HF0 & HG0 & HF & HG & Hall).
  pose proof HF as (HFo & _ & _). pose proof HG as (HGo & _ & _).
  pose proof (lf_worst_count_spec F G HF0 HG0 HFo HGo) as Hwc. rewrite Ewc in Hwc.
  destruct Hwc as (Hdbl & Hrange & Hnp & Hlock & Hunlock).
  destruct (lf_insert_request_spec A B range1 cnt El HA HB) as
    (l1 & ob & cnt1 & Ei & Hq1 & Hc1 & Hold & Hel & Hn1 & Hcnt1); [by intros r Hr; apply Hfresh|done|].
  assert (HFk : is_posix (lf_flags F) = is_posix flags) by (by apply Hkind).
  destruct dbl.
  - destruct (proj1 Hdbl eq_refl) as (HFs & <- & HFe).
    destruct (double_clip_spec o type flags s e l0 bound ltac:(lia) l1 ob F range2 cnt1)
      as (pre & mid & g & tail & cnt2 & Ed & (y & Hymid & Hyl & Hyt & Hyp & Hyold & Hyg) & Hgt & Hgp & Hfirst & Hst & Hn2 & Hcnt2);
      try done.
    { intros z Hz. destruct (Hel z Hz) as [?| ->]; [by apply Hfresh|done]. }
    exists l1, ob, pre, mid, g, tail, cnt1, cnt2. rewrite Z.eqb_refl. cbn [kkassert].
    split_and!; try done; [lia| | |].
    + intros Hc. rewrite HFk in Hcnt2. destruct (is_posix flags) eqn:Ep.
      * destruct Hc as [Hc|?]; [|done]. destruct (Hunlock Hc eq_refl) as [?|[_ ?]]; [|done].
        rewrite Hc in Hcnt1. cbn in Hcnt1. lia.
      * rewrite (Hnp eq_refl) in *. rewrite andb_false_r in Hcnt1. lia.
    + intros Ht Hp. destruct (lf_match F type flags) eqn:Hm.
      * apply lf_match_spec in Hm as [Hmt Hmp]. exists [y; g]. split_and!.
        -- apply NoDup_cons. split; [by intros ?%list_elem_of_singleton|apply NoDup_singleton].
        -- rewrite HFk, Hp in Hcnt2. rewrite Hp in Hcnt1. cbn [length]. case_test_in Hcnt1; lia.
        -- intros r Hr. apply elem_of_cons in Hr as [->|Hr].
           { split_and!; [rewrite elem_of_app; by left|exact Hyold|].
             apply lf_match_spec. split; congruence. }
           apply list_elem_of_singleton in Hr as ->.
           split_and!; [rewrite elem_of_app; right; left|apply Hst|].
           apply lf_match_spec. split; congruence.
      * exists []. split_and!; [constructor| |intros r Hr; by apply elem_of_nil in Hr].
        destruct (Hlock Ht Hp) as [?|[?|Hc]]; [congruence|congruence|].
        rewrite HFk, Hp in Hcnt2. rewrite Hp in Hcnt1. cbn [length]. case_test_in Hcnt1; lia.
    + intros Ht (z & Hz & Hh & Hzt). exists y. split_and!; [rewrite elem_of_app; by left|exact Hyold|].
      destruct (Hall z Hz Hh) as [[->|?] [?|?]]; try congruence.
      pose proof (queue_range _ (ranges_queue _ Hl0) z Hz) as (? & _).
      pose proof (queue_range _ (ranges_queue _ Hl0) F HF0) as (? & _). lia.
  - destruct (loop_start_plain o type flags s e l0 bound l1 ob F G)
      as (pre & mid & tail & E1 & Hfirst & HFin & Hst); try done.
    { intros Hd. apply Hdbl in Hd. done. }
    exists l1, ob, pre, mid, G, tail, cnt1, cnt1. rewrite <- E1.
    split_and!; try done.
    + intros Hc. destruct (is_posix flags) eqn:Ep.
      * destruct Hc as [Hc|?]; [|done]. rewrite Hc in Hcnt1. cbn in Hcnt1.
        destruct (Hunlock Hc eq_refl) as [?|[? _]]; lia.
      * rewrite (Hnp eq_refl) in *. rewrite andb_false_r in Hcnt1. lia.
    + intros Ht Hp. rewrite Hp in Hcnt1.
      assert (Hone : ∀ r, r ∈ mid ++ [G] → old o l1 ob r → lf_match r type flags = true →
        ∃ M, NoDup M ∧ cnt1 ≤ Z.of_nat (length M) ∧
        ∀ r, r ∈ M → r ∈ mid ++ [G] ∧ old o l1 ob r ∧ lf_match r type flags = true).
      { intros r Hr Hro Hm. exists [r]. split_and!; [apply NoDup_singleton|cbn [length]; case_test_in Hcnt1; lia|].
        intros z ->%list_elem_of_singleton. done. }
      destruct (Hlock Ht Hp) as [Hm|[Hm|Hc]].
      * apply (Hone F); [done|by apply Hold|done].
      * apply (Hone G); [rewrite elem_of_app; right; left|by apply Hold|done].
      * exists []. split_and!; [constructor| |intros r Hr; by apply elem_of_nil in Hr].
        cbn [length]. case_test_in Hcnt1; lia.
    + intros Ht (z & Hz & Hh & Hzt). assert (Hzo : old o l1 ob z).
      { apply Hold. split; [done|]. apply Hh. }
      exists z. split; [|done]. destruct Hst as [_ _ _ _ _ _ _ Htodo]. rewrite <- E1 in Htodo.
      destruct (Htodo z Hzo Hh) as [?| ->]; rewrite elem_of_app; [by left|right; left].
Qed.


(** The charge before the change. *)
Lemma charge_spec cnt :
  -2 ≤ cnt ≤ 0 → (is_posix flags = false → cnt = 0) →
  let r := if negb (cnt =? 0) then lf_count_change w o (- cnt) else Ok (w, false) in
  (r = Ok (w, true) ∧ cnt < 0 ∧ is_posix flags = true ∧ at_limit w (fst pn) (snd pn)) ∨
  (r = Ok (if is_posix flags then counted w o (fst pn) (snd pn) (- cnt) else w, false) ∧
     (cnt < 0 → ¬ at_limit w (fst pn) (snd pn))).
Proof.
  intros Hc Hnp. destruct (cnt =? 0) eqn:E; bool_prop; cbn [negb].
  - right. subst cnt. split; [|lia]. destruct (is_posix flags) eqn:Ep; [|done].
    change (- 0) with 0. by rewrite (counted_zero _ _ _ _ (Hacc Ep)).
  - destruct (is_posix flags) eqn:Ep; [|by specialize (Hnp eq_refl)].
    pose proof (Hacc Ep) as Ha. pose proof (nposix_nonneg o l0). pose proof (acc_covers _ _ _ _ Ha).
    destruct (lf_count_change_spec w o (fst pn) (snd pn) (- cnt) Ha) as [(-> & ? & ?)|(-> & Hlim)];
      [lia|lia|left|right].
    + split_and!; try done. lia.
    + split; [done|]. intros ?. apply Hlim. lia.
Qed.

(** The settling of the account at the end. *)
Lemma settle_spec cnt cnt' l ob :
  settled l ob → -2 ≤ cnt ≤ 0 → (is_posix flags = false → cnt = 0) → cnt' ≤ 0 →
  cnt' - cnt = nposix o l - nposix o l0 →
  (let* (w, _) :=
     let w := set_range l (if is_posix flags then counted w o (fst pn) (snd pn) (- cnt) else w) in
     if cnt' <? 0 then lf_count_change w o cnt' else Ok (w, false) in Ok w) = Ok (granted w o flags pn l).
Proof.
  intros Hset Hc Hnp Hc' Hd. unfold granted. destruct (is_posix flags) eqn:Ep.
  - pose proof (Hacc Ep) as Ha. pose proof (nposix_nonneg o l). pose proof (acc_covers _ _ _ _ Ha).
    replace (nposix o l - nposix o l0) with (- cnt + cnt') by lia.
    destruct (cnt' <? 0) eqn:E; bool_prop.
    + by rewrite lf_count_change_set_range, lf_count_change_counted by (done || lia).
    + replace cnt' with 0 by lia. by rewrite Z.add_0_r.
  - assert (cnt' = 0) as ->; [|done]. rewrite (Hnp eq_refl) in Hd.
    rewrite (hits_nposix l0), (hits_nposix l) in Hd; try done; [lia|].
    apply (settled_one_kind o type flags s e l0 bound l ob o flags); done.
Qed.

Lemma lf_setlock_replace_spec F G A B range1 range2 :
  first_last o s e l0 F G →
  l0 = A ++ B → (∀ x, x ∈ A → lf_start x < s) → (∀ x, x ∈ B → s ≤ lf_start x) →
  (∀ r, r ∈ l0 → lf_addr r ≠ range1 ∧ lf_addr r ≠ range2) → range1 ≠ range2 →
  range1 < bound → range2 < bound →
  let r := lf_setlock_replace w o type flags s e (TAILQ_FIRST lf_addr B) (lf_addr F) (lf_addr G) range1 range2 in
  (∃ l ob (wk : bool),
     r = Ok (if wk then lf_wakeup (granted w o flags pn l) s e else granted w o flags pn l, 0) ∧
     settled l ob ∧
     ((∃ z, z ∈ l0 ∧ hit z ∧ (type = F_UNLCK ∨ type = F_RDLCK ∧ lf_type z = F_WRLCK)) → wk = true)) ∨
  (r = Ok (w, ENOLCK) ∧ is_posix flags = true ∧ at_limit w (fst pn) (snd pn) ∧
     (type = F_UNLCK → lf_start F < s ∨ e < lf_end G)).
Proof.
  intros Hfl El HA HB Hfresh Hne Hr1 Hr2 r. pose proof Hfl as (HF0 & HG0 & HF & HG & Hall).
  pose proof HF as (HFo & _ & _). pose proof HG as (HGo & _ & _).
  pose proof (prepare_spec F G A B range1 range2) as Hprep.
  pose proof (lf_worst_count_spec F G HF0 HG0 HFo HGo) as Hwc.
  unfold r, lf_setlock_replace.
  rewrite !deref_elem by (done || apply Hl0). cbn [obind].
  destruct (lf_worst_count type flags s e F G) as [cnt dbl] eqn:Ewc.
  destruct Hwc as (Hdbl & Hrange & Hnp & Hlock & Hunlock).
  destruct (charge_spec cnt Hrange Hnp) as [(-> & Hneg & Hp & Hlim)|(-> & _)]; cbn [obind].
  { right. split_and!; try done. intros Ht.
    unfold lf_worst_count in Ewc. rewrite Ht in Ewc. change (F_UNLCK =? F_UNLCK) with true in Ewc.
    destruct (decide (lf_start F < s)) as [|Hn1]; [by left|]. right.
    destruct (decide (e < lf_end G)) as [|Hn2]; [done|].
    replace (lf_start F <? s) with false in Ewc by (symmetry; apply Z.ltb_ge; lia).
    replace (lf_end G <=? e) with true in Ewc by (symmetry; apply Z.leb_le; lia).
    cbn [negb andb] in Ewc. rewrite andb_false_r in Ewc. injection Ewc as <- _. lia. }
  destruct (Hprep Hfl El HA HB Hfresh Hne Hr1 Hr2) as
    (l1 & ob & pre & mid & g & tail & cnt1 & cnt2 & E1 & E2 & Hfirst & Hst & Hn2 & Hle0 & HM & Hwr).
  assert (Hr : lf_range (if is_posix flags then counted w o (fst pn) (snd pn) (- cnt) else w) = l0)
    by (by destruct (is_posix flags)).
  rewrite Hr, E1. cbn [obind]. rewrite E2. cbn [obind].
  destruct (clip_loop_spec o type flags s e l0 bound ltac:(lia) ltac:(lia) (Some (lf_addr F)) g mid pre tail ob cnt2 false
    (S (length (pre ++ mid ++ g :: tail)))) as (l2 & ob2 & cnt3 & wk & Eloop & Hres); [|done|].
  { rewrite length_app, length_app. cbn [length]. lia. }
  rewrite Hfirst in Eloop. rewrite Eloop. cbn [obind c_range c_brange c_count c_wakeup].
  destruct Hres as [Hlq Hlc Hclear Hlcount Hlm Hlle Hlw].
  destruct (lf_merge_spec o type flags s e l0 bound l2 ob2 cnt3) as (l3 & ob3 & cnt4 & Em & Hset & Hn4 & Hle4);
    [by split_and!|].
  rewrite Em. cbn [obind].
  assert (Hcnt4 : cnt4 ≤ 0).
  { destruct (decide (type = F_UNLCK)) as [Ht|Ht]; [specialize (Hle0 (or_introl Ht)); lia|].
    destruct (is_posix flags) eqn:Ep; [|specialize (Hle0 (or_intror eq_refl)); lia].
    destruct (HM Ht eq_refl) as (M & HMnd & HMc & HMr). specialize (Hlm eq_refl Ht M HMnd HMr). lia. }
  replace (cnt4 <=? 0) with true by (symmetry; apply Z.leb_le; lia). cbn [kkassert].
  pose proof (settle_spec cnt cnt4 l3 ob3 Hset Hrange Hnp Hcnt4 ltac:(lia)) as Hsettle. cbv zeta in Hsettle.
  left. exists l3, ob3, wk. split; [|split; [done|]].
  - set (X := if cnt4 <? 0 then _ else _) in *.
    destruct X as [[w' b]| | |]; try done. cbn [obind] in *. injection Hsettle as ->. done.
  - intros (z & Hz & Hh & Hzt). apply Hlw. right.
    destruct Hzt as [?|[Ht Hzt]]; [by left|]. right. split; [done|]. apply Hwr; [done|]. by exists z.
Qed.

End grant.


(** * What a request does *)

(** The request has to wait for somebody. *)
Definition conflicts (l : list lockf_range) (o type s e : Z) : Prop :=
  ∃ o' b t, o' ≠ o ∧ s ≤ b ≤ e ∧ holds l o' b t ∧ type ≠ F_UNLCK ∧ excludes type t.

(** Inside the request the owner holds what it asked for; nothing else changes. *)
Definition changes (l l' : list lockf_range) (o type s e : Z) : Prop :=
  ∀ o' b t, holds l' o' b t ↔
    if decide (o' = o ∧ s ≤ b ≤ e) then type ≠ F_UNLCK ∧ t = type else holds l o' b t.

(** The number of POSIX locks of the owner moves as its number of ranges. *)
Definition counts_moved (w w' : lockf) (o flags : Z) (pn : proc * Z) : Prop :=
  let d := nposix o (lf_range w') - nposix o (lf_range w) in
  if is_posix flags then
    procs w' = <[o := with_count (p_numposixlocks (fst pn) + d) (fst pn)]> (procs w) ∧
    ui_posixlocks w' = <[cr_uidinfo (fst pn) := snd pn + d]> (ui_posixlocks w)
  else procs w' = procs w ∧ ui_posixlocks w' = ui_posixlocks w.

(** The blocked requests that the range [s..e] overlaps are woken. *)
Definition wakes (w w' : lockf) (s e : Z) (wk : bool) : Prop :=
  if wk then
    let (keep, woken) := lf_wakeup_loop (lf_blocked w) s e in
    lf_blocked w' = keep ∧ lf_woken w' = lf_woken w ++ woken
  else lf_blocked w' = lf_blocked w ∧ lf_woken w' = lf_woken w.

(** The owner gives up a lock on a byte of the request, or downgrades one. *)
Definition releases (l : list lockf_range) (o type s e : Z) : Prop :=
  ∃ b t, s ≤ b ≤ e ∧ holds l o b t ∧ (type = F_UNLCK ∨ type = F_RDLCK ∧ t = F_WRLCK).

(** What does not depend on the locks. *)
Definition same_frame (w w' : lockf) : Prop :=
  init_done w' = init_done w ∧ maxposixlocksperuid w' = maxposixlocksperuid w ∧
  v_flag w' = v_flag w ∧ next_addr w < next_addr w'.

(** The locks, the waiters and the counts are as before. *)
Definition unchanged (w w' : lockf) : Prop :=
  same_frame w w' ∧ lf_range w' = lf_range w ∧ lf_blocked w' = lf_blocked w ∧
  lf_woken w' = lf_woken w ∧ procs w' = procs w ∧ ui_posixlocks w' = ui_posixlocks w.

(** Addresses: every range structure is older than the next one. *)
Definition fresh (w : lockf) : Prop :=
  ∀ r, r ∈ lf_range w ++ lf_blocked w ++ lf_woken w → lf_addr r < next_addr w.

Record grants (w : lockf) (o type flags s e : Z) (pn : proc * Z) (w' : lockf) : Prop := {
  gr_free : ¬ conflicts (lf_range w) o type s e;
  gr_ranges : ranges_ok (lf_range w');
  gr_changes : changes (lf_range w) (lf_range w') o type s e;
  gr_counts : counts_moved w w' o flags pn;
  gr_kind : ∀ kind : Z → bool, (∀ r, r ∈ lf_range w → is_posix (lf_flags r) = kind (lf_owner r)) →
            kind o = is_posix flags →
            ∀ r, r ∈ lf_range w' → is_posix (lf_flags r) = kind (lf_owner r);
  gr_other : ∀ o', o' ≠ o → nposix o' (lf_range w') = nposix o' (lf_range w);
  gr_wakes : ∃ wk, wakes w w' s e wk ∧ (releases (lf_range w) o type s e → wk = true);
  gr_frame : same_frame w w';
  gr_fresh : fresh w'
}.

(** The answers of [lf_setlock]. *)
Inductive setlock_outcome (w : lockf) (o type flags s e : Z) (pn : proc * Z) :
    lockf → setlock_result → Prop :=
  | Granted w' :
      grants w o type flags s e pn w' →
      setlock_outcome w o type flags s e pn w' (SetlockDone 0)
  | Limited w' :
      ¬ conflicts (lf_range w) o type s e → unchanged w w' →
      is_posix flags = true → at_limit w (fst pn) (snd pn) →
      (type = F_UNLCK → 0 < s ∨ e < LLONG_MAX) →
      setlock_outcome w o type flags s e pn w' (SetlockDone ENOLCK)
  | Refused w' :
      conflicts (lf_range w) o type s e → unchanged w w' → has_flag flags F_WAIT = false →
      setlock_outcome w o type flags s e pn w' (SetlockDone EAGAIN)
  | Deadlock w' r q :
      conflicts (lf_range w) o type s e → unchanged w w' → has_flag flags F_WAIT = true →
      is_posix flags = true → r ∈ lf_range w → blocks r o type s e →
      q ∈ lf_blocked w → lf_owner q = lf_owner r →
      setlock_outcome w o type flags s e pn w' (SetlockDone EDEADLK)
  | Slept w1 w' a :
      conflicts (lf_range w) o type s e → has_flag flags F_WAIT = true →
      (if negb (is_posix flags) && (type =? F_WRLCK)
       then grants w o F_UNLCK 0 s e pn w1 else unchanged w w1) →
      same_frame w w' → fresh w' → next_addr w ≤ a →
      lf_range w' = lf_range w1 → lf_woken w' = lf_woken w1 →
      procs w' = procs w ∧ ui_posixlocks w' = ui_posixlocks w →
      lf_blocked w' = lf_blocked w1 ++ [Range a type 0 s e o] →
      (∀ r, r ∈ lf_blocked w1 ++ lf_woken w1 → lf_addr r ≠ a) →
      setlock_outcome w o type flags s e pn w' (SetlockSleep a).

Lemma blocks_conflicts l o type s e :
  (∀ r, r ∈ l → range_ok r) → s ≤ e →
  (∃ r, r ∈ l ∧ blocks r o type s e) ↔ conflicts l o type s e.
Proof.
  intros Hok Hse. split.
  - intros (r & Hr & Ho & Ht & H1 & H2 & Hx). destruct (Hok r Hr) as (? & _).
    exists (lf_owner r), (Z.max s (lf_start r)), (lf_type r).
    split_and!; try done; try lia. exists r. split_and!; try done; unfold covers; lia.
  - intros (o' & b & t & Ho & Hb & (r & Hr & Hro & Hrb & Hrt) & Ht & Hx).
    exists r. split; [done|]. unfold covers in Hrb. unfold blocks. split_and!; try lia; try done; congruence.
Qed.

Lemma lf_wakeup_loop_spec l s e :
  let (keep, woken) := lf_wakeup_loop l s e in
  (∀ q, q ∈ keep ↔ q ∈ l ∧ lf_overlap q s e = false) ∧
  (∀ q, q ∈ woken ↔ ∃ q0, q0 ∈ l ∧ lf_overlap q0 s e = true ∧ q = set_flags 1 q0) ∧
  (lf_addr <$> keep) ++ (lf_addr <$> woken) ≡ₚ lf_addr <$> l.
Proof.
  induction l as [|r l IH]; cbn [lf_wakeup_loop].
  - split_and!; [|intros q; rewrite elem_of_nil; split; [done|]|done].
    + intros q. rewrite elem_of_nil. tauto.
    + intros (? & ?%elem_of_nil & _). done.
  - destruct (lf_wakeup_loop l s e) as [keep woken]. destruct IH as (IH1 & IH2 & IH3).
    destruct (lf_overlap r s e) eqn:E; cbn [negb]; split_and!.
    + intros q. rewrite IH1, elem_of_cons. split; [tauto|]. intros [[->|?] ?]; [congruence|done].
    + intros q. rewrite elem_of_cons, IH2. split.
      * intros [->|(q0 & ? & ? & ?)]; [exists r|exists q0]; (split; [|by split]); [left|by right].
      * intros (q0 & [->|?]%elem_of_cons & ? & ?); [by left|right; by exists q0].
    + rewrite !fmap_cons. cbn [lf_addr set_flags]. by rewrite <- Permutation_middle, IH3.
    + intros q. rewrite !elem_of_cons, IH1. split; [|tauto]. intros [->|?]; tauto.
    + intros q. rewrite IH2. split.
      * intros (q0 & ? & ? & ?). exists q0. split; [by right|by split].
      * intros (q0 & [->|?]%elem_of_cons & ? & ?); [congruence|by exists q0].
    + rewrite !fmap_cons. cbn [app]. by rewrite IH3.
Qed.

Lemma lf_overlap_spec r s e : lf_start r ≤ lf_end r → s ≤ e →
  lf_overlap r s e = true ↔ ∃ b, s ≤ b ≤ e ∧ covers r b.
Proof.
  intros Hr Hse. unfold lf_overlap, covers. split.
  - intros H. exists (Z.max s (lf_start r)). repeat case_test_in H; bool_prop; try done; lia.
  - intros (b & Hb & Hrb).
    destruct ((lf_start r >=? s) && (lf_start r <=? e)) eqn:E1; [done|].
    replace ((s >=? lf_start r) && (s <=? lf_end r)) with true; [done|]. symmetry.
    apply andb_false_iff in E1. apply andb_true_iff. destruct E1 as [E1|E1]; bool_prop;
      (split; [rewrite Z.geb_leb|]; apply Z.leb_le; lia).
Qed.


(** ** The count of ranges depends on the set of ranges only *)

Lemma nposix_perm o l1 l2 : l1 ≡ₚ l2 → nposix o l1 = nposix o l2.
Proof. induction 1; cbn [nposix]; lia. Qed.

Lemma nposix_filter o l : nposix o (filter (λ r, lf_owner r = o) l) = nposix o l.
Proof.
  induction l as [|r l IH]; [done|]. rewrite filter_cons, nposix_cons.
  destruct (decide (lf_owner r = o)) as [E|E].
  - by rewrite nposix_cons, IH.
  - apply Z.eqb_neq in E. rewrite E, IH. cbn [andb]. lia.
Qed.

Lemma nposix_same o l1 l2 :
  queue_ok l1 → queue_ok l2 → (∀ r, lf_owner r = o → r ∈ l1 ↔ r ∈ l2) → nposix o l1 = nposix o l2.
Proof.
  intros H1 H2 Hel. rewrite <- (nposix_filter o l1), <- (nposix_filter o l2). apply nposix_perm.
  apply NoDup_Permutation.
  - apply NoDup_filter. eapply NoDup_fmap_1, H1.
  - apply NoDup_filter. eapply NoDup_fmap_1, H2.
  - intros r. rewrite !list_elem_of_filter. split; intros [? ?]; (split; [done|]); by apply Hel.
Qed.

(** A request that the model can run: a proper range and type on a proper
    queue, by an owner all of whose ranges are of the kind it asks for. *)
Record request_ok (w : lockf) (o type flags s e : Z) (pn : proc * Z) : Prop := {
  rq_range : 0 ≤ s ≤ e;
  rq_end : e ≤ LLONG_MAX;
  rq_type : type = F_UNLCK ∨ lock_type type;
  rq_ranges : ranges_ok (lf_range w);
  rq_kind : one_kind (lf_range w) o flags;
  rq_fresh : fresh w;
  rq_account : accounted w o flags pn
}.

Lemma account_next w a o p n : account w o p n → account (set_next_addr a w) o p n.
Proof. by intros []. Qed.

Definition allocated (w : lockf) : lockf := set_next_addr (next_addr w + 1 + 1) w.

Lemma wakes_wakeup w wA w' s e :
  lf_blocked wA = lf_blocked w → lf_woken wA = lf_woken w → w' = lf_wakeup wA s e → wakes w w' s e true.
Proof.
  intros Hb Hk ->. unfold wakes, lf_wakeup. rewrite Hb, Hk.
  destruct (lf_wakeup_loop (lf_blocked w) s e). done.
Qed.

Lemma wakeup_fields w s e :
  let w' := lf_wakeup w s e in
  lf_range w' = lf_range w ∧ procs w' = procs w ∧ ui_posixlocks w' = ui_posixlocks w ∧
  init_done w' = init_done w ∧ maxposixlocksperuid w' = maxposixlocksperuid w ∧
  v_flag w' = v_flag w ∧ next_addr w' = next_addr w.
Proof. unfold lf_wakeup. by destruct (lf_wakeup_loop (lf_blocked w) s e). Qed.

Lemma granted_fields w o flags pn l :
  let w' := granted w o flags pn l in
  lf_range w' = l ∧ lf_blocked w' = lf_blocked w ∧ lf_woken w' = lf_woken w ∧
  init_done w' = init_done w ∧ maxposixlocksperuid w' = maxposixlocksperuid w ∧
  v_flag w' = v_flag w ∧ next_addr w' = next_addr w.
Proof. unfold granted. by destruct (is_posix flags). Qed.

Lemma grants_granted w o type flags s e pn l ob (wk : bool) :
  request_ok w o type flags s e pn →
  settled o type flags s e (lf_range w) (next_addr w + 1 + 1) l ob →
  ¬ conflicts (lf_range w) o type s e → (releases (lf_range w) o type s e → wk = true) →
  grants w o type flags s e pn
    (if wk then lf_wakeup (granted (allocated w) o flags pn l) s e else granted (allocated w) o flags pn l).
Proof.
  intros Hrq Hset Hfree Hrel. pose proof Hset as (Hq & Hc & _).
  destruct (granted_fields (allocated w) o flags pn l) as (G1 & G2 & G3 & G4 & G5 & G6 & G7).
  destruct (wakeup_fields (granted (allocated w) o flags pn l) s e) as (W1 & W2 & W3 & W4 & W5 & W6 & W7).
  set (wg := granted (allocated w) o flags pn l) in *.
  assert (Hcounts : ∀ w', lf_range w' = l → procs w' = procs wg → ui_posixlocks w' = ui_posixlocks wg →
            counts_moved w w' o flags pn).
  { intros w' E1 E2 E3. unfold counts_moved. rewrite E1, E2, E3. unfold wg, granted.
    by destruct (is_posix flags). }
  assert (Hframe : ∀ w', init_done w' = init_done wg → maxposixlocksperuid w' = maxposixlocksperuid wg →
            v_flag w' = v_flag wg → next_addr w' = next_addr wg → same_frame w w').
  { intros w' E1 E2 E3 E4. unfold same_frame. rewrite E1, E2, E3, E4, G4, G5, G6, G7. cbn.
    split_and!; try done; lia. }
  assert (Hfresh : ∀ w', lf_range w' = l → next_addr w' = next_addr wg →
            (∀ r, r ∈ lf_blocked w' ++ lf_woken w' → ∃ r0, r0 ∈ lf_blocked w ++ lf_woken w ∧ lf_addr r0 = lf_addr r) →
            fresh w').
  { intros w' E1 E2 Hw r. rewrite E1, E2, G7. cbn. intros [Hr|Hr]%elem_of_app.
    - by apply (ch_addr _ _ _ _ _ _ _ _ _ Hc).
    - destruct (Hw r Hr) as (r0 & Hr0 & <-). pose proof (rq_fresh _ _ _ _ _ _ _ Hrq r0) as H.
      rewrite elem_of_app in H. specialize (H (or_intror Hr0)). lia. }
  assert (Hw : ∀ q, q ∈ lf_blocked (lf_wakeup wg s e) ++ lf_woken (lf_wakeup wg s e) →
             ∃ r0, r0 ∈ lf_blocked w ++ lf_woken w ∧ lf_addr r0 = lf_addr q).
  { intros q. unfold lf_wakeup. rewrite G2, G3. cbn [lf_blocked lf_woken allocated set_next_addr].
    pose proof (lf_wakeup_loop_spec (lf_blocked w) s e) as H.
    destruct (lf_wakeup_loop (lf_blocked w) s e) as [keep woken]. destruct H as (H1 & H2 & _).
    cbn [lf_blocked lf_woken set_blocked]. rewrite !elem_of_app. intros [Hq'|[Hq'|Hq']].
    - exists q. rewrite elem_of_app. apply H1 in Hq' as [? _]. auto.
    - exists q. rewrite elem_of_app. auto.
    - apply H2 in Hq' as (q0 & ? & _ & ->). exists q0. rewrite elem_of_app. auto. }
  assert (Hl : lf_range (if wk then lf_wakeup wg s e else wg) = l) by (destruct wk; congruence).
  split.
  - done.
  - rewrite Hl. by apply (settled_ranges_ok _ _ _ _ _ _ _ _ _ (rq_ranges _ _ _ _ _ _ _ Hrq) Hset).
  - rewrite Hl. intros o' b t. by apply (settled_holds _ _ _ _ _ _ _ _ _ _ _ _ Hset).
  - destruct wk; apply Hcounts; congruence.
  - rewrite Hl. intros kind Hk Ho r Hr. destruct (decide (lf_owner r = o)) as [Hro|Hro].
    + rewrite Hro, Ho. by apply (ch_kind _ _ _ _ _ _ _ _ _ Hc).
    + apply Hk. by apply (ch_other _ _ _ _ _ _ _ _ _ Hc).
  - rewrite Hl. intros o' Ho'. apply nposix_same; [done|apply Hrq|].
    intros r Hr. apply (ch_other _ _ _ _ _ _ _ _ _ Hc). congruence.
  - exists wk. split; [|done]. destruct wk; [|unfold wakes; by rewrite G2, G3].
    by apply (wakes_wakeup w wg).
  - destruct wk; by apply Hframe.
  - destruct wk; apply Hfresh; try congruence; [done|]. rewrite G2, G3. intros r Hr. by exists r.
Qed.


Lemma unchanged_allocated w : unchanged w (allocated w).
Proof. unfold unchanged, same_frame, allocated. cbn. split_and!; try done; lia. Qed.

(** A request that nobody is in the way of. *)
Lemma lf_setlock_free fuel w o type flags s e pn :
  request_ok w o type flags s e pn → ¬ conflicts (lf_range w) o type s e →
  ∃ w' r, lf_setlock (S fuel) w o type flags s e = Ok (w', SetlockDone r) ∧
    setlock_outcome w o type flags s e pn w' (SetlockDone r).
Proof.
  intros Hrq Hfree. pose proof Hrq as [Hs He Ht Hl Hk Hf Ha].
  pose proof (ranges_queue _ Hl) as Hq. pose proof (queue_sorted _ Hq) as Hsort.
  cbn [lf_setlock]. unfold lf_alloc_range.
  change (set_next_addr (next_addr (set_next_addr (next_addr w + 1) w) + 1) (set_next_addr (next_addr w + 1) w))
    with (allocated w).
  change (next_addr (set_next_addr (next_addr w + 1) w)) with (next_addr w + 1).
  change (lf_range (allocated w)) with (lf_range w).
  set (found := lf_setlock_scan (lf_range w) o type s e None None None).
  pose proof (scan_conflict o type s e (lf_range w) None None None Hsort) as Hc. cbv beta in Hc. fold found in Hc.
  destruct (conflict found) as [r|] eqn:Ec.
  { destruct Hfree. apply blocks_conflicts; [apply Hq|lia|by exists r]. }
  destruct (scan_ip o type s e (lf_range w) None None ltac:(lia) Hsort Ec) as (A & B & El & Hip & HA & HB).
  pose proof (scan_first o type s e (lf_range w) None None Hsort Ec) as Hfm.
  pose proof (scan_last o type s e (lf_range w) None None None Hsort Ec) as Hlm.
  cbv beta in Hip, Hfm, Hlm. fold found in Hip, Hfm, Hlm. rewrite Hip.
  assert (Hbound : ∀ r, r ∈ lf_range w → lf_addr r < next_addr w + 1 + 1).
  { intros r Hr. pose proof (Hf r) as H. rewrite elem_of_app in H. specialize (H (or_introl Hr)). lia. }
  assert (Hne : ∀ r, r ∈ lf_range w → lf_addr r ≠ next_addr w ∧ lf_addr r ≠ next_addr w + 1).
  { intros r Hr. pose proof (Hf r) as H. rewrite elem_of_app in H. specialize (H (or_introl Hr)). lia. }
  assert (Ha' : accounted (allocated w) o flags pn) by (intros Hp; apply account_next; auto).
  destruct (first_match found) as [fm|] eqn:Efm.
  - destruct Hfm as (FA & F & FB & EF & <- & HF & HFA).
    destruct Hlm as [[_ Hno]|(GC & G & GD & EG & -> & HG & HGD)].
    { destruct (Hno F); [rewrite EF, elem_of_app; right; left|done]. }
    assert (Hfl : first_last o s e (lf_range w) F G).
    { by apply (first_last_intro o s e (lf_range w) FA F FB GC G GD). }
    destruct (lf_setlock_replace_spec (allocated w) o type flags s e (next_addr w + 1 + 1) pn Hs He Ht Hl Hk Hbound Ha'
      F G A B (next_addr w) (next_addr w + 1) Hfl El HA HB Hne) as
      [(l & ob & wk & -> & Hset & Hwk)|(-> & Hp & Hlim & Hpart)]; try lia; cbn [obind].
    + eexists _, 0. split; [done|]. apply Granted. apply (grants_granted w o type flags s e pn l ob wk); try done.
      intros (b & t & Hb & (r & Hr & Hro & Hrb & Hrt) & Htt). apply Hwk. exists r. split; [done|].
      split; [unfold hit, covers in *; lia|]. destruct Htt as [?|[? ?]]; [by left|right; by subst].
    + eexists _, ENOLCK. split; [done|]. apply Limited; try done; [apply unchanged_allocated|].
      intros Hu. destruct (queue_range _ Hq F) as (? & ? & _); [rewrite EF, elem_of_app; right; left|].
      destruct (queue_range _ Hq G) as (? & ? & _); [rewrite EG, elem_of_app; right; left|].
      destruct (Hpart Hu); lia.
  - assert (Hres : ∃ w' r, lf_setlock_new (allocated w) o type flags s e (TAILQ_FIRST lf_addr B) (next_addr w) = Ok (w', r) ∧
      setlock_outcome w o type flags s e pn w' (SetlockDone r)).
    { destruct (lf_setlock_new_spec (allocated w) o type flags s e (next_addr w + 1 + 1) pn Hs He Ht Hl Hk Hbound Ha'
        A B (next_addr w) El HA HB Hfm) as [(l & ob & -> & Hset & Hlim)|(-> & Hp & Hu & Hlim)];
        [intros r Hr; by apply Hne|lia| |].
      - eexists _, 0. split; [done|]. apply Granted.
        apply (grants_granted w o type flags s e pn l ob false); try done.
        intros (b & t & Hb & (r & Hr & Hro & Hrb & Hrt) & _). destruct (Hfm r Hr).
        unfold hit, covers in *. lia.
      - eexists _, ENOLCK. split; [done|]. apply Limited; try done. apply unchanged_allocated. }
    destruct Hres as (w' & r & Hnew & Hout). exists w', r.
    rewrite Hnew. by destruct (last_match found).
Qed.


Lemma wakes_addr w w' s e wk :
  wakes w w' s e wk →
  ∀ r, r ∈ lf_blocked w' ++ lf_woken w' → ∃ r0, r0 ∈ lf_blocked w ++ lf_woken w ∧ lf_addr r0 = lf_addr r.
Proof.
  unfold wakes. destruct wk.
  - pose proof (lf_wakeup_loop_spec (lf_blocked w) s e) as H.
    destruct (lf_wakeup_loop (lf_blocked w) s e) as [keep woken]. destruct H as (H1 & H2 & _).
    intros [-> ->] r. rewrite !elem_of_app. intros [Hr|[Hr|Hr]].
    + exists r. rewrite elem_of_app. apply H1 in Hr as [? _]. auto.
    + exists r. rewrite elem_of_app. auto.
    + apply H2 in Hr as (q0 & ? & _ & ->). exists q0. rewrite elem_of_app. auto.
  - intros [-> ->] r Hr. by exists r.
Qed.

Lemma fresh_allocated w : fresh w → fresh (allocated w).
Proof. intros Hf r Hr. specialize (Hf r Hr). cbn. lia. Qed.

(** The unlock of a flock(2) style request before it sleeps. *)
Lemma lf_setlock_giveup w o type flags s e pn :
  request_ok w o type flags s e pn → is_posix flags = false →
  ∃ w1, lf_setlock 1 (allocated w) o F_UNLCK 0 s e = Ok (w1, SetlockDone 0) ∧
    grants w o F_UNLCK 0 s e pn w1 ∧ next_addr (allocated w) ≤ next_addr w1 ∧
    procs w1 = procs w ∧ ui_posixlocks w1 = ui_posixlocks w.
Proof.
  intros [Hs He Ht Hl Hk Hf Ha] Hp.
  destruct (lf_setlock_free 0 (allocated w) o F_UNLCK 0 s e pn) as (w1 & r & E & Hout).
  - split; try done; [by left| |by apply fresh_allocated].
    intros r Hr Hro. by rewrite (Hk r Hr Hro), Hp.
  - intros (_ & _ & _ & _ & _ & _ & H & _). done.
  - inversion Hout as [? Hg| ? _ _ Hp0|? (_ & _ & _ & _ & _ & _ & H & _)|? ? ? (_ & _ & _ & _ & _ & _ & H & _)|];
      subst; try done.
    exists w1. split; [done|]. destruct Hg as [H1 H2 H3 H4 H5 H6 H7 (F1 & F2 & F3 & F4) H9].
    split_and!; [|lia|apply H4|apply H4].
    split; try done. unfold same_frame. split_and!; try done. cbn in F4. lia.
Qed.

Lemma sleep_outcome w o type flags s e pn w1 :
  request_ok w o type flags s e pn → conflicts (lf_range w) o type s e →
  has_flag flags F_WAIT = true →
  (if negb (is_posix flags) && (type =? F_WRLCK) then grants w o F_UNLCK 0 s e pn w1 else unchanged w w1) →
  next_addr w < next_addr w1 → procs w1 = procs w ∧ ui_posixlocks w1 = ui_posixlocks w → fresh w1 →
  setlock_outcome w o type flags s e pn
    (set_blocked (TAILQ_INSERT_TAIL (lf_blocked w1) (Range (next_addr w) type 0 s e o)) (lf_woken w1) w1)
    (SetlockSleep (next_addr w)).
Proof.
  intros Hrq Hc Hw H1 Hn Hpu Hf1.
  assert (Hframe : same_frame w w1) by (destruct (negb (is_posix flags) && (type =? F_WRLCK)); apply H1).
  apply (Slept w o type flags s e pn w1); try done.
  - intros r. cbn. unfold TAILQ_INSERT_TAIL. rewrite !elem_of_app, list_elem_of_singleton.
    intros [Hr|[[Hr| ->]|Hr]].
    + apply Hf1. rewrite elem_of_app. by left.
    + apply Hf1. rewrite !elem_of_app. auto.
    + done.
    + apply Hf1. rewrite !elem_of_app. auto.
  - intros r Hr. assert (∃ r0, r0 ∈ lf_blocked w ++ lf_woken w ∧ lf_addr r0 = lf_addr r) as (r0 & Hr0 & <-).
    { destruct (negb (is_posix flags) && (type =? F_WRLCK)).
      - destruct (gr_wakes _ _ _ _ _ _ _ _ H1) as (wk & Hwk & _). by apply (wakes_addr w w1 s e wk).
      - destruct H1 as (_ & _ & E1 & E2 & _). exists r. by rewrite <- E1, <- E2. }
    pose proof (rq_fresh _ _ _ _ _ _ _ Hrq r0) as H. rewrite elem_of_app in H.
    specialize (H (or_intror Hr0)). lia.
Qed.

(** Every request has one of the answers, and none fails an assertion. *)
Lemma lf_setlock_spec w o type flags s e pn :
  request_ok w o type flags s e pn →
  ∃ w' r, lf_setlock 2 w o type flags s e = Ok (w', r) ∧ setlock_outcome w o type flags s e pn w' r.
Proof.
  intros Hrq. pose proof Hrq as [Hs He Ht Hl Hk Hf Ha].
  pose proof (ranges_queue _ Hl) as Hq. pose proof (queue_sorted _ Hq) as Hsort.
  pose proof (scan_conflict o type s e (lf_range w) None None None Hsort) as Hc. cbv beta in Hc.
  destruct (conflict (lf_setlock_scan (lf_range w) o type s e None None None)) as [r|] eqn:Ec.
  2: { destruct (lf_setlock_free 1 w o type flags s e pn Hrq) as (w' & r & E & Hout).
       - intros (r & Hr & Hb)%blocks_conflicts; [by apply (Hc r)|apply Hq|lia].
       - by exists w', (SetlockDone r). }
  destruct Hc as [Hr Hb].
  assert (Hconf : conflicts (lf_range w) o type s e) by (apply blocks_conflicts; [apply Hq|lia|by exists r]).
  remember 1%nat as fuel eqn:Hfuel. cbn [lf_setlock]. unfold lf_alloc_range.
  change (set_next_addr (next_addr (set_next_addr (next_addr w + 1) w) + 1) (set_next_addr (next_addr w + 1) w))
    with (allocated w).
  change (lf_range (allocated w)) with (lf_range w). rewrite Ec.
  destruct (has_flag flags F_WAIT) eqn:Ew; cbn [negb].
  2: { eexists _, _. split; [done|]. apply Refused; try done. apply unchanged_allocated. }
  change (has_flag flags F_POSIX) with (is_posix flags).
  destruct (is_posix flags && deadlock (allocated w) r) eqn:Ed.
  { bool_prop. eexists _, _. split; [done|].
    match goal with H : deadlock _ _ = true |- _ => apply existsb_exists in H as (q & Hq1 & Hq2) end.
    bool_prop. apply (Deadlock _ _ _ _ _ _ _ _ r q); try done; [apply unchanged_allocated|].
    by apply list_elem_of_In. }
  pose proof (unchanged_allocated w) as Hun.
  destruct (negb (is_posix flags) && (type =? F_WRLCK)) eqn:Ef.
  - pose proof Ef as Ef'. apply andb_true_iff in Ef' as [Hp _]. apply negb_true_iff in Hp.
    subst fuel. destruct (lf_setlock_giveup w o type flags s e pn Hrq Hp) as (w1 & -> & Hg & Hn & Hpu).
    cbn [obind]. rewrite lf_create_range_ok by done. cbn [obind].
    eexists _, _. split; [done|]. apply sleep_outcome; try done; [by rewrite Ef|cbn in Hn; lia|apply Hg].
  - cbn [obind]. rewrite lf_create_range_ok by done. cbn [obind].
    eexists _, _. split; [done|]. apply sleep_outcome; try done; [by rewrite Ef|cbn; lia|by apply fresh_allocated].
Qed.


(** C12: a request of an owner on a sorted queue ends, without failing an
    assertion, in one of the answers of [setlock_outcome]: when no other owner
    holds a lock that excludes it, it is granted, and then the owner holds on
    the bytes of the request exactly what it asked for, every other lock on
    every byte is as before and the POSIX counts move with the ranges, or it
    is refused with ENOLCK at the limit and nothing changes; when another
    owner's lock excludes it, it answers EAGAIN or EDEADLK and changes nothing,
    or the thread sleeps, after giving up its own locks on the range for an
    exclusive flock(2) request. *)
Theorem lf_setlock_correct w o type flags s e pn :
  request_ok w o type flags s e pn →
  ∃ w' r, lf_setlock 2 w o type flags s e = Ok (w', r) ∧ setlock_outcome w o type flags s e pn w' r.
Proof. apply lf_setlock_spec. Qed.

(** C39: unlocking a whole file always succeeds, as closef() assumes, even at
    the limit of locks: afterwards the owner has no range on the queue and the
    locks of other owners are what they were. *)
Theorem lf_unlock_all w o flags pn :
  request_ok w o F_UNLCK flags 0 LLONG_MAX pn →
  ∃ w', lf_setlock 2 w o F_UNLCK flags 0 LLONG_MAX = Ok (w', SetlockDone 0) ∧
    (∀ r, r ∈ lf_range w' → lf_owner r ≠ o) ∧
    (∀ o' b t, o' ≠ o → holds (lf_range w') o' b t ↔ holds (lf_range w) o' b t).
Proof.
  intros Hrq. destruct (lf_setlock_spec _ _ _ _ _ _ _ Hrq) as (w' & r & E & Hout).
  assert (Hfree : ¬ conflicts (lf_range w) o F_UNLCK 0 LLONG_MAX) by (by intros (_ & _ & _ & _ & _ & _ & [] & _)).
  destruct Hout as [w' Hg|w' _ _ _ _ Hno|w' ? _ _|w' ? ? ? _|w1 w' a ?]; try done.
  - exists w'. split; [done|]. pose proof (gr_changes _ _ _ _ _ _ _ _ Hg) as Hch. split.
    + intros x Hx Hxo.
      destruct (queue_range _ (ranges_queue _ (gr_ranges _ _ _ _ _ _ _ _ Hg)) x Hx) as (? & ? & _).
      assert (Hh : holds (lf_range w') o (lf_start x) (lf_type x)).
      { exists x. split_and!; try done; unfold covers; lia. }
      apply Hch in Hh. rewrite decide_True in Hh by (split; [done|lia]). by destruct Hh.
    + intros o' b t Ho. rewrite (Hch o' b t). rewrite decide_False by tauto. done.
  - exfalso. destruct (Hno eq_refl); [lia|]. unfold LLONG_MAX in *. lia.
Qed.

(** ** Queries *)

Lemma lf_getlock_scan_spec l o type s e :
  (∀ r, r ∈ l → range_ok r) → s ≤ e → type ≠ F_UNLCK →
  match lf_getlock_scan l o type s e with
  | Some r => r ∈ l ∧ blocks r o type s e
  | None => ∀ r, r ∈ l → ¬ blocks r o type s e
  end.
Proof.
  intros Hok Hse Ht. induction l as [|r l IH]; cbn [lf_getlock_scan].
  { intros r Hr. by apply elem_of_nil in Hr. }
  assert (Hr : range_ok r) by (apply Hok; left).
  assert (Htest : (negb (lf_owner r =? o) && lf_overlap r s e && ((type =? F_WRLCK) || (lf_type r =? F_WRLCK))) = true
    ↔ blocks r o type s e).
  { rewrite !andb_true_iff, orb_true_iff, negb_true_iff, Z.eqb_neq, !Z.eqb_eq.
    rewrite lf_overlap_spec by (done || apply Hr). unfold blocks, excludes, covers.
    destruct Hr as (Hr1 & _). split.
    - intros ((H1 & b & H2 & H3) & H4). split_and!; try done; lia.
    - intros (H1 & _ & H3 & H4 & H5). split_and!; try done. exists (Z.max s (lf_start r)). lia. }
  destruct (negb _ && _ && _).
  - split; [left|by apply Htest].
  - specialize (IH ltac:(intros x Hx; apply Hok; by right)). destruct (lf_getlock_scan l o type s e).
    + split; [right|]; apply IH.
    + intros x [->|Hx]%elem_of_cons; [|by apply IH]. intros Hb%Htest. done.
Qed.

(** F_GETLK agrees with F_SETLK: it answers F_UNLCK exactly when the same
    request without F_WAIT would not be refused with EAGAIN, and otherwise
    describes a range of another owner that is in the way. *)
Theorem lf_getlock_agrees w o type flags s e pn fl :
  request_ok w o type flags s e pn → lock_type type → has_flag flags F_WAIT = false →
  (∀ r, r ∈ lf_range w → is_posix (lf_flags r) = true → is_Some (procs w !! lf_owner r)) →
  ∃ fl', lf_getlock fl w o type flags s e = Ok fl' ∧
    (l_type fl' ≠ F_UNLCK ↔ ∃ w', lf_setlock 2 w o type flags s e = Ok (w', SetlockDone EAGAIN)) ∧
    (l_type fl' ≠ F_UNLCK → ∃ r, r ∈ lf_range w ∧ blocks r o type s e ∧
       l_type fl' = lf_type r ∧ l_whence fl' = SEEK_SET ∧ l_start fl' = lf_start r ∧
       l_len fl' = (if has_flag (lf_flags r) F_NOEND then 0 else s64 (lf_end r - lf_start r + 1)) ∧
       (is_posix (lf_flags r) = false → l_pid fl' = -1)).
Proof.
  intros Hrq Ht Hw Hp. pose proof Hrq as [Hs He _ Hl _ _ _].
  pose proof (ranges_queue _ Hl) as Hq. pose proof (lock_type_unlck _ Ht) as Htu.
  pose proof (lf_getlock_scan_spec (lf_range w) o type s e (queue_range _ Hq) ltac:(lia) Htu) as Hscan.
  destruct (lf_setlock_spec _ _ _ _ _ _ _ Hrq) as (w' & r & E & Hout). unfold lf_getlock.
  destruct (lf_getlock_scan (lf_range w) o type s e) as [x|].
  - destruct Hscan as [Hx Hb].
    destruct (queue_range _ Hq x Hx) as (_ & _ & Hxt). apply lock_type_unlck in Hxt.
    assert (Hc : conflicts (lf_range w) o type s e) by (apply blocks_conflicts; [apply Hq|lia|by exists x]).
    assert (Hr : r = SetlockDone EAGAIN) by (inversion Hout as [? Hg| | | |]; subst; try congruence; by destruct (gr_free _ _ _ _ _ _ _ _ Hg)).
    assert (∃ pid, (if negb (lf_owner x =? 0) && has_flag (lf_flags x) F_POSIX
       then match procs w !! lf_owner x with Some p => Ok (p_pid p) | None => Undef NullDeref end
       else Ok (-1)) = Ok pid ∧ (is_posix (lf_flags x) = false → pid = -1)) as (pid & -> & Hpid).
    { change (has_flag (lf_flags x) F_POSIX) with (is_posix (lf_flags x)).
      destruct (is_posix (lf_flags x)) eqn:Ep.
      - destruct (Hp x Hx Ep) as [p ->]. rewrite andb_true_r. destruct (negb _); eexists; by split.
      - rewrite andb_false_r. exists (-1). by split. }
    cbn [obind]. eexists. split; [done|]. cbn [l_type l_whence l_start l_len l_pid]. split.
    + split; [|done]. intros _. exists w'. by rewrite <- Hr.
    + intros _. exists x. by split_and!.
  - eexists. split; [done|]. cbn [l_type]. split; [|done]. split; [done|]. intros (w'' & E2).
    rewrite E in E2. injection E2 as -> ->. inversion Hout as [| |? Hc| |]; subst.
    apply blocks_conflicts in Hc as (x & Hx & Hb); [by destruct (Hscan x Hx)|apply Hq|lia].
Qed.


(** ** A file with two readers *)

Definition ex_reader1 : lockf_range := Range 10 F_RDLCK F_POSIX 0 99 1.
Definition ex_reader2 : lockf_range := Range 12 F_RDLCK (Z.lor F_POSIX F_NOEND) 50 LLONG_MAX 2.
Definition ex_proc1 : proc := Proc 101 1 1000 7 100.
Definition ex_proc2 : proc := Proc 102 1 1000 7 100.
Definition ex_file : lockf :=
  Lockf [ex_reader1; ex_reader2] [] 1 [] {[1 := ex_proc1; 2 := ex_proc2]} {[7 := 2]} 64 FdOps.VMAYHAVELOCKS 20.

Lemma ex_elem r : r ∈ [ex_reader1; ex_reader2] → r = ex_reader1 ∨ r = ex_reader2.
Proof. rewrite !elem_of_cons, elem_of_nil. tauto. Qed.

Lemma ex_ranges : ranges_ok [ex_reader1; ex_reader2].
Proof.
  split; [split|].
  - by_decide.
  - repeat constructor; cbn; lia.
  - intros r [-> | ->]%ex_elem; unfold range_ok, lock_type; split_and!; (by_decide || by left).
  - intros r1 r2 [-> | ->]%ex_elem [-> | ->]%ex_elem; done.
Qed.

Lemma ex_request type flags s e :
  0 ≤ s ≤ e → e ≤ LLONG_MAX → type = F_UNLCK ∨ lock_type type → is_posix flags = true →
  request_ok ex_file 1 type flags s e (ex_proc1, 2).
Proof.
  intros Hs He Ht Hp. split; [done..|apply ex_ranges| | |].
  - intros r [-> | ->]%ex_elem _; rewrite Hp; by vm_compute.
  - intros r [-> | ->]%ex_elem; cbn; lia.
  - intros _. split; try done; by vm_compute.
Qed.

(** Upgrading bytes 0..20, which only the requester reads, goes through. *)
Lemma lf_setlock_correct_witness :
  ∃ w' r, lf_setlock 2 ex_file 1 F_WRLCK F_POSIX 0 20 = Ok (w', r) ∧
    setlock_outcome ex_file 1 F_WRLCK F_POSIX 0 20 (ex_proc1, 2) w' r.
Proof.
  apply lf_setlock_correct. apply ex_request; [lia|by vm_compute|by right; right|done].
Defined.

Lemma lf_unlock_all_witness :
  ∃ w', lf_setlock 2 ex_file 1 F_UNLCK F_POSIX 0 LLONG_MAX = Ok (w', SetlockDone 0) ∧
    (∀ r, r ∈ lf_range w' → lf_owner r ≠ 1) ∧
    (∀ o' b t, o' ≠ 1 → holds (lf_range w') o' b t ↔ holds (lf_range ex_file) o' b t).
Proof.
  apply (lf_unlock_all ex_file 1 F_POSIX (ex_proc1, 2)).
  apply ex_request; [by vm_compute|lia|by left|done].
Defined.

Lemma lf_getlock_agrees_witness :
  ∃ fl', lf_getlock (Flock 0 0 0 F_WRLCK 0) ex_file 1 F_WRLCK F_POSIX 40 60 = Ok fl' ∧
    (l_type fl' ≠ F_UNLCK ↔ ∃ w', lf_setlock 2 ex_file 1 F_WRLCK F_POSIX 40 60 = Ok (w', SetlockDone EAGAIN)) ∧
    (l_type fl' ≠ F_UNLCK → ∃ r, r ∈ lf_range ex_file ∧ blocks r 1 F_WRLCK 40 60 ∧
       l_type fl' = lf_type r ∧ l_whence fl' = SEEK_SET ∧ l_start fl' = lf_start r ∧
       l_len fl' = (if has_flag (lf_flags r) F_NOEND then 0 else s64 (lf_end r - lf_start r + 1)) ∧
       (is_posix (lf_flags r) = false → l_pid fl' = -1)).
Proof.
  apply (lf_getlock_agrees ex_file 1 F_WRLCK F_POSIX 40 60 (ex_proc1, 2)).
  - apply ex_request; [lia|by vm_compute|by right; right|done].
  - by right.
  - done.
  - intros r [-> | ->]%ex_elem _; by eexists.
Defined.

End LockfSetlock.
