(* ===== verification/LockfSystem.v ===== *)
(** Advisory locks under any interleaving: processes and open files lock and
    unlock ranges of one file, sleep, are woken by an unlock or by a signal and
    try again.  The states that can be reached have compatible locks and
    exact waiters. *)

From stdpp Require Import base list gmap sorting.
From S2P Require Import Prelude TailQ FdTree FdOps Lockf LockfTheory LockfSetlock.

Module LockfSystem.
Import TailQ Lockf LockfTheory LockfSetlock.

(** * The entry point *)

Lemma land_lor_other x y f : Z.land y f = 0 → Z.land (Z.lor x y) f = Z.land x f.
Proof.
  intros H. rewrite (Z.land_comm (Z.lor x y)), Z.land_lor_distr_r, (Z.land_comm f y), H, Z.lor_0_r.
  apply Z.land_comm.
Qed.

(** A struct flock whose fields are values of their types. *)
Definition flock_ok (fl : flock) : Prop :=
  is_s 64 (l_start fl) ∧ is_s 64 (l_len fl) ∧ (l_type fl = F_UNLCK ∨ lock_type (l_type fl)).

Lemma lf_advlock_range_ok fl size flags s e f :
  flock_ok fl → lf_advlock_range fl size flags = Some (s, e, f) →
  0 ≤ s ≤ e ∧ e ≤ LLONG_MAX ∧ is_posix f = is_posix flags ∧ has_flag f F_WAIT = has_flag flags F_WAIT.
Proof.
  intros (Hst & Hlen & _). unfold lf_advlock_range.
  set (start := if _ || _ then Some (l_start fl) else _).
  assert (Hstart : ∀ x, start = Some x → is_s 64 x).
  { unfold start. intros x. repeat case_test; try done; intros [= <-]; [done|by apply signed_of_range]. }
  destruct start as [x|]; [|done]. specialize (Hstart x eq_refl).
  unfold is_s in Hst, Hlen, Hstart.
  case_test; bool_prop; [done|].
  case_test; bool_prop.
  { intros [= <- <- <-]. unfold LLONG_MAX, is_posix, has_flag. rewrite !land_lor_other by done.
    split_and!; try done; lia. }
  case_test; bool_prop; [done|].
  pose proof (signed_of_range 64 (s64 (x + l_len fl) - 1) ltac:(lia)) as Hr. unfold is_s in Hr.
  case_test; bool_prop; [done|]. intros [= <- <- <-]. unfold LLONG_MAX. split_and!; try done; lia.
Qed.

(** * Accounts of all processes *)

Definition user_total (ps : gmap Z proc) (u : Z) : Z :=
  map_sum (λ p, if cr_uidinfo p =? u then p_numposixlocks p else 0) ps.

Lemma user_total_change ps o p d u :
  ps !! o = Some p →
  user_total (<[o := with_count (p_numposixlocks p + d) p]> ps) u =
  user_total ps u + (if cr_uidinfo p =? u then d else 0).
Proof.
  intros H. unfold user_total. rewrite (map_sum_update _ ps o p) by done.
  cbn [cr_uidinfo p_numposixlocks with_count]. case_test; lia.
Qed.

Lemma user_total_member ps o p :
  (∀ o p, ps !! o = Some p → 0 ≤ p_numposixlocks p) → ps !! o = Some p →
  p_numposixlocks p ≤ user_total ps (cr_uidinfo p).
Proof.
  intros H Ho. unfold user_total.
  pose proof (map_sum_member (λ q, if cr_uidinfo q =? cr_uidinfo p then p_numposixlocks q else 0) ps o p) as Hm.
  cbn beta in Hm. rewrite Z.eqb_refl in Hm. apply Hm; [|done].
  intros o' q Hq. case_test; [by apply (H o')|done].
Qed.

(** The locks on this file are counted for their processes, and the locks of
    processes for their users. *)
Record accounts_ok (w : lockf) : Prop := {
  ac_null : procs w !! 0 = None;
  ac_covers : ∀ o p, procs w !! o = Some p → nposix o (lf_range w) ≤ p_numposixlocks p;
  ac_user : ∀ o p, procs w !! o = Some p → is_Some (ui_posixlocks w !! cr_uidinfo p);
  ac_total : ∀ u n, ui_posixlocks w !! u = Some n → user_total (procs w) u ≤ n
}.

(** No user is near the largest int. *)
Definition room (w : lockf) : Prop := ∀ u n, ui_posixlocks w !! u = Some n → n + 2 < 2 ^ 31.

Lemma accounts_account w o p :
  accounts_ok w → room w → procs w !! o = Some p → ∃ n, account w o p n.
Proof.
  intros [H0 Hc Hu Ht] Hr Hp. destruct (Hu o p Hp) as [n Hn]. exists n. split; try done.
  - intros ->. congruence.
  - by apply Hc.
  - etransitivity; [|by apply Ht]. apply (user_total_member _ o); [|done].
    intros o' p' Hp'. pose proof (nposix_nonneg o' (lf_range w)). specialize (Hc o' p' Hp'). lia.
  - by apply (Hr _ _ Hn).
Qed.

Lemma grants_accounts w o type flags s e pn w' :
  grants w o type flags s e pn w' → accounts_ok w → accounted w o flags pn →
  (is_posix flags = false → nposix o (lf_range w') = nposix o (lf_range w)) → accounts_ok w'.
Proof.
  intros [_ _ _ Hcm _ Hother _ _ _] [H0 Hc Hu Ht] Ha Hnp. unfold counts_moved in Hcm.
  destruct (is_posix flags) eqn:Ep.
  - destruct Hcm as [Ep' Eu]. destruct (Ha Ep) as [Ho Hp Hn Hcov Htot Hroom]. destruct pn as [p n].
    cbn [fst snd] in *. set (d := nposix o (lf_range w') - nposix o (lf_range w)) in *.
    split; rewrite Ep'.
    + by rewrite lookup_insert_ne.
    + intros o' p'. destruct (decide (o' = o)) as [->|Hne].
      * rewrite lookup_insert_eq. intros [= <-]. cbn [p_numposixlocks with_count]. lia.
      * rewrite lookup_insert_ne by done. rewrite Hother by done. apply Hc.
    + intros o' p' Hp'. rewrite Eu. apply lookup_insert_is_Some'.
      destruct (decide (o' = o)) as [->|Hne].
      * rewrite lookup_insert_eq in Hp'. injection Hp' as <-. by left.
      * rewrite lookup_insert_ne in Hp' by done. right. by apply (Hu o').
    + intros u m. rewrite Eu, user_total_change by done. destruct (decide (u = cr_uidinfo p)) as [->|Hne].
      * rewrite lookup_insert_eq. intros [= <-]. rewrite Z.eqb_refl. specialize (Ht _ _ Hn). lia.
      * rewrite lookup_insert_ne by done. intros Hm. specialize (Ht _ _ Hm).
        replace (cr_uidinfo p =? u) with false by (symmetry; apply Z.eqb_neq; congruence). lia.
  - destruct Hcm as [Ep' Eu]. split; rewrite ?Ep', ?Eu; try done.
    intros o' p' Hp'. destruct (decide (o' = o)) as [->|Hne]; [rewrite (Hnp eq_refl)|rewrite Hother by done]; by apply Hc.
Qed.


(** * Steps *)

Section system.
(** [kind o] tells whether the owner [o] is a process, which takes POSIX
    locks, or an open file, which takes flock(2) locks. *)
Variable kind : Z → bool.

(** A request made through VOP_ADVLOCK, or a thread that sleeps and runs
    again because it was woken, because of a signal, or for no reason. *)
Inductive step (w : lockf) : lockf → Prop :=
  | step_advlock o op fl flags size w' fl' r :
      flock_ok fl → (op = F_UNLCK → l_type fl = F_UNLCK) → kind o = is_posix flags →
      (is_posix flags = true → is_Some (procs w !! o)) → room w →
      lf_advlock w o op fl flags size = Ok (w', fl', r) → step w w'
  | step_wakeup q error flags w' r :
      q ∈ lf_blocked w ++ lf_woken w → kind (lf_owner q) = is_posix flags →
      (is_posix flags = true → is_Some (procs w !! lf_owner q)) → room w →
      lf_advlock_wakeup w (lf_addr q) error flags = Ok (w', r) → step w w'.

Definition may_have_locks (w : lockf) : Prop := Z.land (v_flag w) FdOps.VMAYHAVELOCKS ≠ 0.

(** The flags of a range structure tell which list it is on. *)
Definition waiter_flags (w : lockf) : Prop :=
  (∀ q, q ∈ lf_blocked w → lf_flags q = 0) ∧ (∀ q, q ∈ lf_woken w → lf_flags q = 1).

Record lockf_inv (w : lockf) : Prop := {
  inv_init : init_done w = 0 → lf_range w = [] ∧ lf_blocked w = [] ∧ lf_woken w = [];
  inv_ranges : ranges_ok (lf_range w);
  inv_compatible : compatible (lf_range w);
  inv_kind : ∀ r, r ∈ lf_range w → is_posix (lf_flags r) = kind (lf_owner r);
  inv_fresh : fresh w;
  inv_waiter_addr : NoDup (lf_addr <$> lf_blocked w ++ lf_woken w);
  inv_waiter : ∀ q, q ∈ lf_blocked w ++ lf_woken w → range_ok q;
  inv_flags : waiter_flags w;
  inv_blocked : ∀ q, q ∈ lf_blocked w → conflicts (lf_range w) (lf_owner q) (lf_type q) (lf_start q) (lf_end q);
  inv_accounts : accounts_ok w;
  inv_procs : ∀ r, r ∈ lf_range w → is_posix (lf_flags r) = true → is_Some (procs w !! lf_owner r)
}.

(** ** Locks *)

Lemma changes_compatible l l' o type s e :
  compatible l → changes l l' o type s e → ¬ conflicts l o type s e → compatible l'.
Proof.
  intros Hc Hch Hfree o1 o2 b t1 t2 Hne H1 H2 Hx. apply Hch in H1, H2.
  destruct (decide (o1 = o ∧ s ≤ b ≤ e)) as [[-> Hb]|]; destruct (decide (o2 = o ∧ s ≤ b ≤ e)) as [[-> Hb']|].
  - done.
  - destruct H1 as [Ht ->]. apply Hfree. exists o2, b, t2. split_and!; done || lia || congruence.
  - destruct H2 as [Ht ->]. apply Hfree. exists o1, b, t1.
    unfold excludes in *. split_and!; done || lia || congruence.
  - by apply (Hc o1 o2 b t1 t2).
Qed.

(** ** Waiters *)

(** A request that is still blocked after a step has somebody to wait for. *)
Lemma blocked_kept w w' o type flags s e pn q :
  grants w o type flags s e pn w' → 0 ≤ s ≤ e → q ∈ lf_blocked w' →
  lf_start q ≤ lf_end q →
  (∀ q, q ∈ lf_blocked w → conflicts (lf_range w) (lf_owner q) (lf_type q) (lf_start q) (lf_end q)) →
  conflicts (lf_range w') (lf_owner q) (lf_type q) (lf_start q) (lf_end q).
Proof.
  intros Hg Hs Hq Hqok Hall. destruct (gr_wakes _ _ _ _ _ _ _ _ Hg) as (wk & Hwk & Hrel).
  assert (Hq' : q ∈ lf_blocked w ∧ (wk = true → lf_overlap q s e = false)).
  { unfold wakes in Hwk. destruct wk; [|destruct Hwk as [E _]; by rewrite E in Hq].
    pose proof (lf_wakeup_loop_spec (lf_blocked w) s e) as H.
    destruct (lf_wakeup_loop (lf_blocked w) s e) as [keep woken]. destruct H as (H1 & _), Hwk as [E _].
    rewrite E in Hq. apply H1 in Hq as [? ?]. by split. }
  destruct Hq' as [Hq' Hover]. destruct (Hall q Hq') as (o' & b & t & Ho & Hb & Hh & Ht & Hx).
  destruct (decide (o' = o ∧ s ≤ b ≤ e)) as [[-> Hbs]|Hn].
  - assert (Hwk0 : wk = false).
    { destruct wk; [|done]. specialize (Hover eq_refl).
      assert (lf_overlap q s e = true); [|congruence]. apply lf_overlap_spec; [done|lia|]. by exists b. }
    assert (Hnr : ¬ releases (lf_range w) o type s e) by (intros H; rewrite (Hrel H) in Hwk0; done).
    exists o, b, type. split_and!; try (done || lia).
    + apply (gr_changes _ _ _ _ _ _ _ _ Hg). rewrite decide_True by done. split; [|done].
      intros Hu. apply Hnr. exists b, t. split_and!; done || lia.
    + destruct Hx as [?|Hx]; [by left|]. right.
      destruct (decide (type = F_WRLCK)) as [|Hnw]; [done|]. exfalso. apply Hnr.
      exists b, t. split_and!; try (done || lia). subst t.
      assert (H : holds (lf_range w') o b type ∨ type = F_UNLCK).
      { destruct (decide (type = F_UNLCK)); [by right|left].
        apply (gr_changes _ _ _ _ _ _ _ _ Hg). rewrite decide_True by done. done. }
      destruct H as [H| ->]; [|by left]. right. split; [|done].
      destruct (holds_type _ _ _ _ (ranges_queue _ (gr_ranges _ _ _ _ _ _ _ _ Hg)) H) as [?|?]; [done|by destruct Hnw].
  - exists o', b, t. split_and!; try (done || lia). apply (gr_changes _ _ _ _ _ _ _ _ Hg). by rewrite decide_False.
Qed.

Lemma wakes_waiters w w' s e wk :
  wakes w w' s e wk →
  (NoDup (lf_addr <$> lf_blocked w ++ lf_woken w) → NoDup (lf_addr <$> lf_blocked w' ++ lf_woken w')) ∧
  (∀ q, q ∈ lf_blocked w' ++ lf_woken w' → ∃ q0, q0 ∈ lf_blocked w ++ lf_woken w ∧
     lf_type q = lf_type q0 ∧ lf_start q = lf_start q0 ∧ lf_end q = lf_end q0) ∧
  (waiter_flags w → waiter_flags w').
Proof.
  unfold wakes. destruct wk.
  - pose proof (lf_wakeup_loop_spec (lf_blocked w) s e) as H.
    destruct (lf_wakeup_loop (lf_blocked w) s e) as [keep woken]. destruct H as (H1 & H2 & H3).
    intros [E1 E2]. split_and!; [rewrite E1, E2|rewrite E1, E2|].
    + rewrite !fmap_app, (Permutation_app_comm (lf_addr <$> lf_woken w)), app_assoc, H3. done.
    + intros q. rewrite !elem_of_app. intros [Hq|[Hq|Hq]].
      * exists q. rewrite elem_of_app. apply H1 in Hq as [? _]. auto.
      * exists q. rewrite elem_of_app. auto.
      * apply H2 in Hq as (q0 & ? & _ & ->). exists q0. rewrite elem_of_app. auto.
    + intros [W1 W2]. unfold waiter_flags. rewrite E1, E2. split.
      * intros q [Hq _]%H1. by apply W1.
      * intros q [Hq|Hq]%elem_of_app; [by apply W2|]. by apply H2 in Hq as (q0 & _ & _ & ->).
  - unfold waiter_flags. intros [-> ->]. split_and!; [done| |done]. intros q Hq. by exists q.
Qed.

Lemma range_ok_same q q0 :
  lf_type q = lf_type q0 → lf_start q = lf_start q0 → lf_end q = lf_end q0 →
  range_ok q0 → range_ok q.
Proof. unfold range_ok. by intros -> -> ->. Qed.


Lemma grants_procs w o type flags s e pn w' o' :
  grants w o type flags s e pn w' → is_Some (procs w !! o') → is_Some (procs w' !! o').
Proof.
  intros Hg Ho. pose proof (gr_counts _ _ _ _ _ _ _ _ Hg) as Hc. unfold counts_moved in Hc.
  destruct (is_posix flags); destruct Hc as [-> _]; [|done]. apply lookup_insert_is_Some'. by right.
Qed.

Lemma grants_inv w o type flags s e pn w' :
  lockf_inv w → 0 ≤ s ≤ e → kind o = is_posix flags → accounted w o flags pn →
  grants w o type flags s e pn w' → init_done w' ≠ 0 → lockf_inv w'.
Proof.
  intros [Hi Hr Hc Hk Hf Hn Hw Hwf Hb Ha Hpr] Hs Hko Hacc Hg Hinit.
  destruct (gr_wakes _ _ _ _ _ _ _ _ Hg) as (wk & Hwk & _).
  destruct (wakes_waiters _ _ _ _ _ Hwk) as (Hn' & Hw' & Hwf').
  assert (Hwait : ∀ q, q ∈ lf_blocked w' ++ lf_woken w' → range_ok q).
  { intros q Hq. destruct (Hw' q Hq) as (q0 & Hq0 & E1 & E2 & E3). apply (range_ok_same q q0); auto. }
  pose proof (gr_kind _ _ _ _ _ _ _ _ Hg kind Hk Hko) as Hk'.
  split; try done.
  - by apply (gr_ranges _ _ _ _ _ _ _ _ Hg).
  - by apply (changes_compatible _ _ _ _ _ _ Hc (gr_changes _ _ _ _ _ _ _ _ Hg) (gr_free _ _ _ _ _ _ _ _ Hg)).
  - by apply (gr_fresh _ _ _ _ _ _ _ _ Hg).
  - by apply Hn'.
  - by apply Hwf'.
  - intros q Hq. apply (blocked_kept w w' o type flags s e pn q); try done.
    apply Hwait. rewrite elem_of_app. by left.
  - apply (grants_accounts w o type flags s e pn w'); try done. intros Hp.
    rewrite (nposix_none o (lf_range w)), (nposix_none o (lf_range w')); [done|..];
      intros r Hr' Hro; [rewrite Hk'|rewrite Hk]; congruence.
  - intros r Hr' Hp. apply (grants_procs w o type flags s e pn w'); [done|].
    destruct (decide (lf_owner r = o)) as [Hro|Hro].
    + rewrite Hro. assert (Hpo : is_posix flags = true) by (rewrite <- Hko, <- Hro, <- Hk'; done).
      exists (fst pn). apply (Hacc Hpo).
    + assert (Hrok : range_ok r) by (apply (queue_range _ (ranges_queue _ (gr_ranges _ _ _ _ _ _ _ _ Hg))); done).
      assert (Hh : holds (lf_range w') (lf_owner r) (lf_start r) (lf_type r)).
      { exists r. split_and!; try done; unfold covers; destruct Hrok as (? & _); lia. }
      apply (gr_changes _ _ _ _ _ _ _ _ Hg) in Hh. rewrite decide_False in Hh by tauto.
      destruct Hh as (r0 & Hr0 & Ho0 & _). rewrite <- Ho0. apply Hpr; [done|].
      rewrite Hk, Ho0, <- Hk' by done. done.
Qed.

Lemma unchanged_inv w w' : lockf_inv w → unchanged w w' → fresh w' → lockf_inv w'.
Proof.
  intros [Hi Hr Hc Hk Hf Hn Hw Hwf Hb Ha Hpr] (HF & E1 & E2 & E3 & E4 & E5) Hf'.
  split; rewrite ?E1, ?E2, ?E3; try done.
  - destruct HF as (-> & _). done.
  - unfold waiter_flags. by rewrite E2, E3.
  - destruct Ha as [A1 A2 A3 A4]. by split; rewrite ?E1, ?E4, ?E5.
  - by rewrite E4.
Qed.

Lemma unchanged_fresh w w' : fresh w → unchanged w w' → fresh w'.
Proof.
  intros Hf ((_ & _ & _ & Hlt) & E1 & E2 & E3 & _) r. rewrite E1, E2, E3. intros Hr.
  specialize (Hf r Hr). lia.
Qed.

(** A new waiter joins the queue. *)
Lemma sleep_inv w1 w' a o type s e :
  lockf_inv w1 → 0 ≤ s ≤ e → e ≤ LLONG_MAX → conflicts (lf_range w1) o type s e → lock_type type →
  lf_range w' = lf_range w1 → lf_woken w' = lf_woken w1 → procs w' = procs w1 → ui_posixlocks w' = ui_posixlocks w1 →
  lf_blocked w' = lf_blocked w1 ++ [Range a type 0 s e o] →
  (∀ r, r ∈ lf_blocked w1 ++ lf_woken w1 → lf_addr r ≠ a) → fresh w' → init_done w' ≠ 0 → lockf_inv w'.
Proof.
  intros [Hi Hr Hc Hk Hf Hn Hw Hwf Hb Ha Hpr] Hs He Hconf Ht E1 E2 E3 E4 E5 Hna Hf' Hinit.
  assert (Hmem : ∀ q, q ∈ lf_blocked w' ++ lf_woken w' → q ∈ lf_blocked w1 ++ lf_woken w1 ∨ q = Range a type 0 s e o).
  { intros q. rewrite E5, E2, !elem_of_app, list_elem_of_singleton. tauto. }
  split; rewrite ?E1; try done.
  - rewrite E5, E2. rewrite <- app_assoc. cbn [app]. rewrite fmap_app, fmap_cons, <- Permutation_middle, <- fmap_app.
    apply NoDup_cons. split; [|done]. intros (r & Er & Hr')%list_elem_of_fmap. by apply (Hna r).
  - intros q [Hq| ->]%Hmem; [by apply Hw|]. unfold range_ok. cbn. split_and!; try (done || lia); lia.
  - destruct Hwf as [W1 W2]. split; [|by rewrite E2].
    intros q. rewrite E5, elem_of_app, list_elem_of_singleton. intros [Hq|E]; [by apply W1|by subst q].
  - intros q. rewrite E5, elem_of_app, list_elem_of_singleton. intros [Hq| ->]; [by apply Hb|done].
  - destruct Ha as [A1 A2 A3 A4]. by split; rewrite ?E1, ?E3, ?E4.
  - by rewrite E3.
Qed.

Lemma outcome_inv w o type flags s e pn w' r :
  lockf_inv w → request_ok w o type flags s e pn → kind o = is_posix flags → init_done w ≠ 0 →
  setlock_outcome w o type flags s e pn w' r → lockf_inv w'.
Proof.
  intros Hinv [Hs He Ht Hl Hk Hf Ha] Hko Hinit Hout.
  destruct Hout as [w' Hg|w' _ Hu|w' _ Hu|w' ? ? _ Hu|w1 w' a Hc _ H1 HF Hf' _ E1 E2 [E3 E4] E5 Hna].
  - apply (grants_inv w o type flags s e pn); try done. by rewrite (proj1 (gr_frame _ _ _ _ _ _ _ _ Hg)).
  - apply (unchanged_inv w); try done. by apply (unchanged_fresh w).
  - apply (unchanged_inv w); try done. by apply (unchanged_fresh w).
  - apply (unchanged_inv w); try done. by apply (unchanged_fresh w).
  - assert (Hlt : lock_type type).
    { destruct Ht as [->|?]; [|done]. by destruct Hc as (_ & _ & _ & _ & _ & _ & [] & _). }
    assert (Hinit' : init_done w' ≠ 0) by (by rewrite (proj1 HF)).
    destruct (negb (is_posix flags) && (type =? F_WRLCK)) eqn:Ef.
    + bool_prop. match goal with H : is_posix flags = false |- _ => rename H into Hp end.
      assert (Hinit1 : init_done w1 ≠ 0) by (by rewrite (proj1 (gr_frame _ _ _ _ _ _ _ _ H1))).
      destruct (gr_counts _ _ _ _ _ _ _ _ H1) as [P1 P2].
      apply (sleep_inv w1 w' a o type s e); try done; try congruence.
      * apply (grants_inv w o F_UNLCK 0 s e pn); try done. by rewrite Hko, Hp.
      * destruct Hc as (o' & b & t & Ho & Hb & Hh & Hu & Hx). exists o', b, t. split_and!; try (done || lia).
        apply (gr_changes _ _ _ _ _ _ _ _ H1). rewrite decide_False; [done|]. by intros [? _].
    + pose proof H1 as (F1 & U1 & U2 & U3 & U4 & U5).
      apply (sleep_inv w1 w' a o type s e); try done; try congruence.
      apply (unchanged_inv w); try done. by apply (unchanged_fresh w).
Qed.


Lemma init_inv w : lockf_inv w → lockf_inv (lockf_init w) ∧ init_done (lockf_init w) ≠ 0.
Proof.
  intros Hinv. unfold lockf_init. destruct (init_done w =? 0) eqn:E; bool_prop; [|done].
  split; [|done]. destruct Hinv as [Hi Hr Hc Hk Hf Hn Hw Hwf Hb Ha Hpr]. destruct (Hi E) as (E1 & E2 & E3).
  split; cbn [init_done lf_range lf_blocked lf_woken]; rewrite ?E1, ?E2 in *; try done.
  - intros r Hr'. apply Hf. by rewrite E1, E2.
  - destruct Hwf as [_ W2]. split; [by intros q ?%elem_of_nil|done].
  - destruct Ha as [A1 A2 A3 A4]. split; try done. by rewrite E1 in A2.
Qed.

Lemma init_fields w :
  lockf_inv w →
  lf_range (lockf_init w) = lf_range w ∧ lf_blocked (lockf_init w) = lf_blocked w ∧
  lf_woken (lockf_init w) = lf_woken w ∧ procs (lockf_init w) = procs w ∧
  ui_posixlocks (lockf_init w) = ui_posixlocks w ∧ v_flag (lockf_init w) = v_flag w.
Proof.
  intros Hinv. unfold lockf_init. destruct (init_done w =? 0) eqn:E; bool_prop; [|done].
  destruct (inv_init w Hinv E) as (-> & -> & _). done.
Qed.

Lemma v_flag_inv w f : lockf_inv w → lockf_inv (set_v_flag f w).
Proof. intros [Hi Hr Hc Hk Hf Hn Hw Hwf Hb [A1 A2 A3 A4] Hpr]. by split. Qed.

Lemma request_from_inv w o type flags s e :
  lockf_inv w → 0 ≤ s ≤ e → e ≤ LLONG_MAX → type = F_UNLCK ∨ lock_type type →
  kind o = is_posix flags → (is_posix flags = true → is_Some (procs w !! o)) → room w →
  ∃ pn, request_ok w o type flags s e pn.
Proof.
  intros Hinv Hs He Ht Hko Hproc Hroom.
  assert (∃ pn, accounted w o flags pn) as [pn Ha].
  { unfold accounted. destruct (is_posix flags).
    - destruct (Hproc eq_refl) as [p Hp].
      destruct (accounts_account w o p (inv_accounts w Hinv) Hroom Hp) as [n Hn]. by exists (p, n).
    - by exists (Proc 0 0 0 0 0, 0). }
  exists pn. split; try done; [apply Hinv| |apply Hinv].
  intros r Hr Hro. rewrite (inv_kind w Hinv r Hr), Hro. done.
Qed.

(** The vnode says so when it may have locks. *)
Definition flag_ok (w : lockf) : Prop := lf_range w ≠ [] → may_have_locks w.

Lemma may_have_locks_set w : may_have_locks (set_v_flag (Z.lor (v_flag w) FdOps.VMAYHAVELOCKS) w).
Proof.
  unfold may_have_locks. cbn [v_flag set_v_flag]. intros H.
  apply (f_equal (λ x, Z.testbit x 7)) in H. rewrite Z.land_spec, Z.lor_spec, Z.bits_0 in H.
  change (Z.testbit FdOps.VMAYHAVELOCKS 7) with true in H. by rewrite orb_true_r in H.
Qed.

Lemma conflicts_nonempty l o type s e : conflicts l o type s e → l ≠ [].
Proof. intros (o' & b & t & _ & _ & (r & Hr & _) & _) ->. by apply elem_of_nil in Hr. Qed.

Lemma outcome_flag w o type flags s e pn w' a :
  flag_ok w → setlock_outcome w o type flags s e pn w' (SetlockSleep a) → flag_ok w'.
Proof.
  intros Hf Hout _. inversion Hout as [| | | |w1 ? ? Hc _ _ (_ & _ & Hv & _)]; subst.
  unfold may_have_locks. rewrite Hv. apply Hf. by apply (conflicts_nonempty _ _ _ _ _ Hc).
Qed.

Lemma unlock_flag w o flags s e pn w' r :
  flag_ok w → request_ok w o F_UNLCK flags s e pn →
  setlock_outcome w o F_UNLCK flags s e pn w' r → flag_ok w'.
Proof.
  intros Hf Hrq Hout.
  destruct Hout as [w' Hg|w' _ Hu|w' _ Hu|w' ? ? _ Hu|w1 w' a (_ & _ & _ & _ & _ & _ & [] & _)]; try done;
    try (destruct Hu as ((_ & _ & Hv & _) & E & _); unfold flag_ok, may_have_locks; by rewrite E, Hv).
  intros Hne. unfold may_have_locks. destruct (gr_frame _ _ _ _ _ _ _ _ Hg) as (_ & _ & -> & _).
  apply Hf. intros E. destruct (lf_range w') as [|x l] eqn:El; [done|].
  pose proof (ranges_queue _ (gr_ranges _ _ _ _ _ _ _ _ Hg)) as Hq. rewrite El in Hq.
  destruct (queue_range _ Hq x) as (? & _); [left|].
  assert (Hh : holds (lf_range w') (lf_owner x) (lf_start x) (lf_type x)).
  { exists x. rewrite El. split_and!; try done; [left|unfold covers; lia]. }
  apply (gr_changes _ _ _ _ _ _ _ _ Hg) in Hh. case_decide; [by destruct Hh|].
  destruct Hh as (z & Hz & _). rewrite E in Hz. by apply elem_of_nil in Hz.
Qed.

(** ** Every step *)

Definition good (w : lockf) : Prop := lockf_inv w ∧ flag_ok w.

Lemma advlock_good w o op fl flags size w' fl' r :
  good w → flock_ok fl → (op = F_UNLCK → l_type fl = F_UNLCK) → kind o = is_posix flags →
  (is_posix flags = true → is_Some (procs w !! o)) → room w →
  lf_advlock w o op fl flags size = Ok (w', fl', r) → good w'.
Proof.
  intros [Hinv Hflag] Hfl Hop Hko Hproc Hroom. unfold lf_advlock.
  destruct (lf_advlock_range fl size flags) as [[[s e] f]|] eqn:Er; [|intros [= <- _ _]; done].
  pose proof Hfl as (_ & _ & Ht).
  destruct (lf_advlock_range_ok fl size flags s e f Hfl Er) as (Hs & He & Hp & _).
  destruct (init_inv w Hinv) as [Hinv1 Hinit].
  destruct (init_fields w Hinv) as (F1 & F2 & F3 & F4 & F5 & F6).
  assert (Hflag1 : flag_ok (lockf_init w)) by (unfold flag_ok, may_have_locks; rewrite F1, F6; exact Hflag).
  set (w1 := lockf_init w) in *.
  destruct (request_from_inv w1 o (l_type fl) f s e) as [pn Hrq]; try done.
  { congruence. }
  { rewrite Hp, F4. done. }
  { unfold room. rewrite F5. done. }
  destruct (lf_setlock_spec w1 o (l_type fl) f s e pn Hrq) as (w2 & r2 & E2 & Hout).
  assert (Hinv2 : lockf_inv w2).
  { apply (outcome_inv w1 o (l_type fl) f s e pn w2 r2); try done. congruence. }
  case_test; [|case_test; [|case_test]].
  - rewrite E2. cbn [obind]. intros [= <- _ <-]. destruct r2 as [err|a].
    + split; [by apply v_flag_inv|]. intros _. apply may_have_locks_set.
    + split; [done|]. by apply (outcome_flag w1 o (l_type fl) f s e pn w2 a).
  - bool_prop. rewrite E2. cbn [obind]. intros [= <- _ _].
    rewrite (Hop ltac:(done)) in *.
    pose proof (unlock_flag w1 o f s e pn w2 r2 Hflag1 Hrq Hout) as Hf2.
    case_test; [|done]. apply andb_true_iff in E1 as [Hemp _]. split; [by apply v_flag_inv|].
    intros Hne. destruct Hne. cbn [lf_range set_v_flag]. by destruct (lf_range w2).
  - destruct (lf_getlock fl w1 o (l_type fl) f s e); cbn [obind]; [|done..]. intros [= <- _ _]. done.
  - intros [= <- _ _]. done.
Qed.


(** ** A thread that runs again *)

(** The waiters without the range structure of the thread. *)
Lemma waiter_removed w bl wk q :
  lockf_inv w → lf_blocked w ++ lf_woken w ≡ₚ q :: bl ++ wk →
  (∀ r, r ∈ bl → r ∈ lf_blocked w) → (∀ r, r ∈ wk → r ∈ lf_woken w) →
  lockf_inv (set_blocked bl wk w).
Proof.
  intros [Hi Hr Hc Hk Hf Hn Hw Hwf Hb [A1 A2 A3 A4] Hpr] Hperm Hsub Hsubw.
  assert (Hin : ∀ r, r ∈ bl ++ wk → r ∈ lf_blocked w ++ lf_woken w).
  { intros r Hr'. rewrite Hperm. by right. }
  split; cbn [lf_range lf_blocked lf_woken init_done set_blocked]; try done.
  - intros E. destruct (Hi E) as (_ & E1 & E2). rewrite E1, E2 in Hperm.
    by apply Permutation_nil_cons in Hperm.
  - intros r Hr'. apply (Hf r). cbn in Hr'. rewrite elem_of_app in *. destruct Hr'; [by left|right; by apply Hin].
  - rewrite Hperm, fmap_cons, NoDup_cons in Hn. apply Hn.
  - intros r Hr'. apply Hw. by apply Hin.
  - destruct Hwf as [W1 W2]. split; intros r Hr'; [apply W1, Hsub|apply W2, Hsubw]; exact Hr'.
  - intros r Hr'. apply Hb. by apply Hsub.
Qed.

Lemma removed_perm l q : tq_ok lf_addr l → q ∈ l →
  l ≡ₚ q :: TAILQ_REMOVE lf_addr l (lf_addr q) ∧ ∀ r, r ∈ TAILQ_REMOVE lf_addr l (lf_addr q) → r ∈ l.
Proof.
  intros Hok Hq. destruct (tq_split lf_addr l q Hok Hq) as (A & B & -> & HA & _).
  rewrite TAILQ_REMOVE_app, TAILQ_REMOVE_here by done. split; [by rewrite <- Permutation_middle|].
  intros r. rewrite !elem_of_app, elem_of_cons. tauto.
Qed.

Lemma tq_find_none l a : no_addr lf_addr a l → tq_find lf_addr l a = None.
Proof.
  intros H. pose proof (tq_find_app lf_addr a l [] H) as E. rewrite app_nil_r in E. done.
Qed.

Lemma tq_find_elem l q : tq_ok lf_addr l → q ∈ l → tq_find lf_addr l (lf_addr q) = Some q.
Proof. intros Hok Hq. pose proof (deref_elem lf_addr l q Hok Hq) as H. unfold deref in H. by destruct (tq_find _ _ _) as [x|]; [injection H as ->|]. Qed.

Lemma setlock_wakeup_cases w q error flags :
  lockf_inv w → q ∈ lf_blocked w ++ lf_woken w →
  ∃ w1, lockf_inv w1 ∧ lf_range w1 = lf_range w ∧ procs w1 = procs w ∧ ui_posixlocks w1 = ui_posixlocks w ∧
    v_flag w1 = v_flag w ∧ init_done w1 ≠ 0 ∧
    lf_setlock_wakeup w (lf_addr q) error flags =
      if negb (error =? 0) then Ok (w1, SetlockDone error)
      else lf_setlock 2 w1 (lf_owner q) (lf_type q) flags (lf_start q) (lf_end q).
Proof.
  intros Hinv Hq. pose proof (inv_waiter_addr w Hinv) as Hn.
  pose proof Hn as (Hn1 & Hn2 & Hn3)%(tq_ok_app lf_addr). unfold lf_setlock_wakeup.
  assert (Hinit : init_done w ≠ 0).
  { intros E. destruct (inv_init w Hinv E) as (_ & E1 & E2). rewrite E1, E2 in Hq. by apply elem_of_nil in Hq. }
  destruct (inv_flags w Hinv) as [W1 W2]. rewrite (tq_find_elem _ q Hn Hq).
  apply elem_of_app in Hq as [Hq|Hq].
  - destruct (removed_perm _ q Hn1 Hq) as [Hp Hsub]. rewrite (W1 q Hq). cbn [Z.eqb].
    exists (set_blocked (TAILQ_REMOVE lf_addr (lf_blocked w) (lf_addr q)) (lf_woken w) w).
    split_and!; try done. apply (waiter_removed w _ _ q Hinv); try done. by rewrite Hp at 1.
  - destruct (removed_perm _ q Hn3 Hq) as [Hp Hsub]. rewrite (W2 q Hq). cbn [Z.eqb].
    exists (set_blocked (lf_blocked w) (TAILQ_REMOVE lf_addr (lf_woken w) (lf_addr q)) w).
    split_and!; try done. apply (waiter_removed w _ _ q Hinv); try done.
    rewrite Hp at 1. by rewrite <- Permutation_middle.
Qed.

Lemma wakeup_good w q error flags w' r :
  good w → q ∈ lf_blocked w ++ lf_woken w → kind (lf_owner q) = is_posix flags →
  (is_posix flags = true → is_Some (procs w !! lf_owner q)) → room w →
  lf_advlock_wakeup w (lf_addr q) error flags = Ok (w', r) → good w'.
Proof.
  intros [Hinv Hflag] Hq Hko Hproc Hroom. unfold lf_advlock_wakeup.
  destruct (setlock_wakeup_cases w q error flags Hinv Hq) as (w1 & Hinv1 & F1 & F2 & F3 & F4 & Hinit & ->).
  assert (Hflag1 : flag_ok w1) by (unfold flag_ok, may_have_locks; rewrite F1, F4; exact Hflag).
  destruct (inv_waiter w Hinv q Hq) as (Hqs & Hqe & Hqt).
  case_test; cbn [obind].
  { intros [= <- _]. split; [by apply v_flag_inv|]. intros _. apply may_have_locks_set. }
  destruct (request_from_inv w1 (lf_owner q) (lf_type q) flags (lf_start q) (lf_end q)) as [pn Hrq]; try done.
  { by right. }
  { by rewrite F2. }
  { unfold room. by rewrite F3. }
  destruct (lf_setlock_spec w1 _ _ _ _ _ pn Hrq) as (w2 & r2 & -> & Hout). cbn [obind].
  assert (Hinv2 : lockf_inv w2) by (by apply (outcome_inv w1 (lf_owner q) (lf_type q) flags (lf_start q) (lf_end q) pn w2 r2)).
  intros [= <- _]. destruct r2 as [err|a].
  - split; [by apply v_flag_inv|]. intros _. apply may_have_locks_set.
  - split; [done|]. by apply (outcome_flag w1 (lf_owner q) (lf_type q) flags (lf_start q) (lf_end q) pn w2 a).
Qed.

Lemma step_good w w' : good w → step w w' → good w'.
Proof.
  intros Hg [o op fl flags size w1 fl' r ? ? ? ? ? ?|q error flags w1 r ? ? ? ? ?].
  - by apply (advlock_good w o op fl flags size w1 fl' r).
  - by apply (wakeup_good w q error flags w1 r).
Qed.

(** A file nobody has locked yet. *)
Definition initial (w : lockf) : Prop :=
  lf_range w = [] ∧ lf_blocked w = [] ∧ lf_woken w = [] ∧ accounts_ok w.

Lemma ranges_ok_nil : ranges_ok [].
Proof.
  split; [split|].
  - apply NoDup_nil_2.
  - apply SSorted_nil.
  - by intros r ?%elem_of_nil.
  - by intros r1 r2 ?%elem_of_nil.
Qed.

Lemma initial_good w : initial w → good w.
Proof.
  intros (E1 & E2 & E3 & Ha). split; [|by intros []].
  split; rewrite ?E1, ?E2, ?E3; try done.
  - apply ranges_ok_nil.
  - intros ? ? ? ? ? _ (? & []%elem_of_nil & _).
  - intros ? []%elem_of_nil.
  - intros r. rewrite E1, E2, E3. by intros ?%elem_of_nil.
  - apply NoDup_nil_2.
  - intros ? []%elem_of_nil.
  - unfold waiter_flags. rewrite E2, E3. split; by intros ? ?%elem_of_nil.
  - intros ? []%elem_of_nil.
  - by intros ? ?%elem_of_nil.
Qed.

Lemma reachable_good w0 w : initial w0 → rtc step w0 w → good w.
Proof.
  intros H0 Hr. apply initial_good in H0. induction Hr as [|w0 w1 w2 Hs _ IH]; [done|].
  apply IH. by apply (step_good w0).
Qed.


Lemma getlock_total w fl o type flags s e :
  lockf_inv w → ∃ fl', lf_getlock fl w o type flags s e = Ok fl'.
Proof.
  intros Hinv. unfold lf_getlock.
  assert (Hin : ∀ l r, lf_getlock_scan l o type s e = Some r → r ∈ l).
  { induction l as [|x l IH]; intros r; cbn; [done|]. case_test; [intros [= <-]; left|].
    intros H. right. by apply IH. }
  specialize (Hin (lf_range w)). destruct (lf_getlock_scan (lf_range w) o type s e) as [r|]; [|by eexists].
  specialize (Hin r eq_refl). destruct (negb (lf_owner r =? 0) && has_flag (lf_flags r) F_POSIX) eqn:E.
  - bool_prop. destruct (inv_procs w Hinv r Hin) as [p ->]; [done|]. by eexists.
  - by eexists.
Qed.

Lemma advlock_total w o op fl flags size :
  good w → flock_ok fl → kind o = is_posix flags →
  (is_posix flags = true → is_Some (procs w !! o)) → room w →
  ∃ x, lf_advlock w o op fl flags size = Ok x.
Proof.
  intros [Hinv _] Hfl Hko Hproc Hroom. unfold lf_advlock.
  destruct (lf_advlock_range fl size flags) as [[[s e] f]|] eqn:Er; [|by eexists].
  destruct (lf_advlock_range_ok fl size flags s e f Hfl Er) as (Hs & He & Hp & _).
  destruct (init_inv w Hinv) as [Hinv1 _]. destruct (init_fields w Hinv) as (_ & _ & _ & F4 & F5 & _).
  destruct (request_from_inv (lockf_init w) o (l_type fl) f s e) as [pn Hrq]; try done.
  { apply Hfl. }
  { congruence. }
  { by rewrite Hp, F4. }
  { unfold room. by rewrite F5. }
  destruct (lf_setlock_spec _ _ _ _ _ _ pn Hrq) as (w2 & r2 & E2 & _).
  destruct (getlock_total (lockf_init w) fl o (l_type fl) f s e Hinv1) as [fl' E3].
  repeat case_test; rewrite ?E2, ?E3; cbn [obind]; by eexists.
Qed.

End system.

(** C10: whatever processes and open files do with locks on a file, in any
    order and with any sleeps, wakeups and signals: no two owners ever hold
    locks that exclude each other on a byte, the queue stays sorted with
    disjoint ranges per owner, the vnode is marked whenever a lock is held, and
    no call that follows can fail an assertion. *)
Theorem lockf_safe (kind : Z → bool) w0 w :
  initial w0 → rtc (step kind) w0 w →
  compatible (lf_range w) ∧ ranges_ok (lf_range w) ∧ (lf_range w ≠ [] → may_have_locks w) ∧
  ∀ o op fl flags size, flock_ok fl → kind o = is_posix flags →
    (is_posix flags = true → is_Some (procs w !! o)) → room w →
    ∃ x, lf_advlock w o op fl flags size = Ok x.
Proof.
  intros H0 Hr. pose proof (reachable_good kind w0 w H0 Hr) as Hg. pose proof Hg as [Hinv Hf].
  split_and!; [apply (inv_compatible kind w Hinv)|apply (inv_ranges kind w Hinv)|done|].
  intros. by apply (advlock_total kind).
Qed.

(** C11: no wakeup is lost: in every state that can be reached, a request that
    is still on the queue of blocked ones has another owner's lock to wait
    for; and a thread whose request nobody is in the way of any more, when it
    runs, does not go back to sleep but holds its lock, or learns that its
    limit is reached. *)
Theorem lockf_no_lost_wakeup (kind : Z → bool) w0 w :
  initial w0 → rtc (step kind) w0 w →
  (∀ q, q ∈ lf_blocked w → conflicts (lf_range w) (lf_owner q) (lf_type q) (lf_start q) (lf_end q)) ∧
  ∀ q flags, q ∈ lf_blocked w ++ lf_woken w → kind (lf_owner q) = is_posix flags →
    (is_posix flags = true → is_Some (procs w !! lf_owner q)) → room w →
    ¬ conflicts (lf_range w) (lf_owner q) (lf_type q) (lf_start q) (lf_end q) →
    ∃ w' error, lf_advlock_wakeup w (lf_addr q) 0 flags = Ok (w', SetlockDone error) ∧
      (error = 0 ∧ (∀ b, lf_start q ≤ b ≤ lf_end q → holds (lf_range w') (lf_owner q) b (lf_type q)) ∨
       error = ENOLCK ∧ is_posix flags = true).
Proof.
  intros H0 Hr. pose proof (reachable_good kind w0 w H0 Hr) as [Hinv _].
  split; [apply (inv_blocked kind w Hinv)|]. intros q flags Hq Hko Hproc Hroom Hfree.
  destruct (setlock_wakeup_cases kind w q 0 flags Hinv Hq) as (w1 & Hinv1 & F1 & F2 & F3 & _ & _ & E).
  destruct (inv_waiter kind w Hinv q Hq) as (Hqs & Hqe & Hqt).
  destruct (request_from_inv kind w1 (lf_owner q) (lf_type q) flags (lf_start q) (lf_end q)) as [pn Hrq]; try done.
  { by right. }
  { by rewrite F2. }
  { unfold room. by rewrite F3. }
  destruct (lf_setlock_spec _ _ _ _ _ _ pn Hrq) as (w2 & r2 & E2 & Hout).
  unfold lf_advlock_wakeup. rewrite E. cbn [Z.eqb negb]. rewrite E2. cbn [obind].
  destruct Hout as [w2 Hg|w2 _ _ Hp _ _|w2 Hc _ _|w2 ? ? Hc|w3 w2 a Hc]; try (by rewrite F1 in Hc).
  - eexists _, 0. split; [done|]. left. split; [done|]. intros b Hb. cbn [lf_range set_v_flag].
    apply (gr_changes _ _ _ _ _ _ _ _ Hg). rewrite decide_True by done. split; [|done].
    by apply lock_type_unlck.
  - eexists _, ENOLCK. split; [done|]. by right.
Qed.

(** ** A file that is locked and partly unlocked *)

Definition ex_new : lockf :=
  Lockf [] [] 0 [] {[1 := ex_proc1; 2 := ex_proc2]} {[7 := 2]} 64 0 20.

Definition ex_kind (o : Z) : bool := (o =? 1) || (o =? 2).

(** Process 1 locks the file for writing from its start to no end. *)
Definition ex_lock : flock := Flock 0 0 0 F_WRLCK SEEK_SET.
(** It unlocks it from byte 100 on. *)
Definition ex_unlock : flock := Flock 100 0 0 F_UNLCK SEEK_SET.

Definition ex_lock_unlock : outcome lockf :=
  let* (w, _, _) := lf_advlock ex_new 1 F_SETLK ex_lock F_POSIX 0 in
  let* (w, _, _) := lf_advlock w 1 F_UNLCK ex_unlock F_POSIX 0 in
  Ok w.

(** the left clip of an unlock keeps F_NOEND on a range that has an end
    now: after a lock of the whole file and an unlock from byte 100 on, nobody
    holds a lock beyond byte 99, but F_GETLK reports the remaining lock with
    length 0, that is to the end of the file. *)
Theorem lf_unlock_tail_keeps_noend :
  ∃ w fl, ex_lock_unlock = Ok w ∧
    (∀ o b t, 100 ≤ b → ¬ holds (lf_range w) o b t) ∧
    lf_advlock w 2 F_GETLK (Flock 0 0 0 F_RDLCK SEEK_SET) F_POSIX 0 = Ok (w, fl, SetlockDone 0) ∧
    l_type fl = F_WRLCK ∧ l_start fl = 0 ∧ l_len fl = 0.
Proof.
  eexists _, _. split; [vm_compute; reflexivity|]. split; [|split; [vm_compute; reflexivity|done]].
  intros o b t Hb (r & Hr%list_elem_of_singleton & _ & Hc & _). subst r. unfold covers in Hc. cbn in Hc. lia.
Qed.

Lemma ex_new_proc o p : procs ex_new !! o = Some p → p = ex_proc1 ∨ p = ex_proc2.
Proof.
  cbn [procs ex_new]. rewrite lookup_insert_Some, lookup_singleton_Some.
  intros [[_ <-]|[_ [_ <-]]]; [by left|by right].
Qed.

Lemma ex_new_user u n : ui_posixlocks ex_new !! u = Some n → u = 7 ∧ n = 2.
Proof. cbn [ui_posixlocks ex_new]. rewrite lookup_singleton_Some. by intros [<- <-]. Qed.

Lemma ex_new_initial : initial ex_new.
Proof.
  split_and!; try done. split; [done| | |].
  - by intros o p [-> | ->]%ex_new_proc.
  - intros o p [-> | ->]%ex_new_proc; by eexists.
  - intros u n [-> ->]%ex_new_user. by vm_compute.
Qed.

Definition ex_locked : lockf :=
  match lf_advlock ex_new 1 F_SETLK ex_lock F_POSIX 0 with Ok (w, _, _) => w | _ => ex_new end.

Lemma ex_locked_reachable : rtc (step ex_kind) ex_new ex_locked.
Proof.
  apply rtc_once. apply (step_advlock ex_kind ex_new 1 F_SETLK ex_lock F_POSIX 0 _ ex_lock (SetlockDone 0)).
  - split_and!; [by_decide|by_decide|by right; right].
  - done.
  - done.
  - intros _. by eexists.
  - intros u n [-> ->]%ex_new_user. by_decide.
  - vm_compute. reflexivity.
Qed.

Lemma lockf_safe_witness : initial ex_new ∧ compatible (lf_range ex_locked).
Proof.
  split; [apply ex_new_initial|].
  apply (lockf_safe ex_kind ex_new ex_locked ex_new_initial ex_locked_reachable).
Defined.

(** Process 2 waits for process 1. *)
Definition ex_waiting : lockf :=
  match lf_advlock ex_locked 2 F_SETLK (Flock 10 5 0 F_RDLCK SEEK_SET) (Z.lor F_POSIX F_WAIT) 0 with
  | Ok (w, _, _) => w | _ => ex_new end.

Lemma ex_waiting_reachable : rtc (step ex_kind) ex_new ex_waiting.
Proof.
  eapply rtc_r; [apply ex_locked_reachable|].
  apply (step_advlock ex_kind ex_locked 2 F_SETLK (Flock 10 5 0 F_RDLCK SEEK_SET) (Z.lor F_POSIX F_WAIT) 0 _
    (Flock 10 5 0 F_RDLCK SEEK_SET) (SetlockSleep 22)).
  - split_and!; [by_decide|by_decide|by right; left].
  - done.
  - done.
  - intros _. by eexists.
  - intros u n. replace (ui_posixlocks ex_locked) with ({[7 := 3]} : gmap Z Z) by (vm_compute; reflexivity).
    rewrite lookup_singleton_Some. intros [<- <-]. lia.
  - vm_compute. reflexivity.
Qed.

Lemma lockf_no_lost_wakeup_witness :
  lf_blocked ex_waiting = [Range 22 F_RDLCK 0 10 14 2] ∧ conflicts (lf_range ex_waiting) 2 F_RDLCK 10 14.
Proof.
  split; [vm_compute; reflexivity|].
  apply (proj1 (lockf_no_lost_wakeup ex_kind ex_new ex_waiting ex_new_initial ex_waiting_reachable)
    (Range 22 F_RDLCK 0 10 14 2)).
  vm_compute. left.
Defined.

End LockfSystem.
