(* ===== verification/LockMgr.v ===== *)
(** The lock manager (sys/kern/kern_lock.c, sys/sys/lock.h): shared and
    exclusive locks with recursion, upgrades and downgrades, on which threads
    sleep.

    [lockmgr] holds the lock's spinlock except while it sleeps in [acquire],
    so a call is a sequence of stretches of code, each of them one step: from
    the call, or from the return of ssleep(9), to the next sleep or to the
    return.  What a stretch leaves behind for the next one, the local
    variables and the place of the sleep, is a [frame]. *)

From stdpp Require Import base list gmap.
From S2P Require Import Prelude Lockf.

Module LockMgr.

(** * Data *)

Definition LK_TYPE_MASK : Z := 0x0000000f.
Definition LK_SHARED : Z := 0x00000001.
Definition LK_EXCLUSIVE : Z := 0x00000002.
Definition LK_UPGRADE : Z := 0x00000003.
Definition LK_EXCLUPGRADE : Z := 0x00000004.
Definition LK_DOWNGRADE : Z := 0x00000005.
Definition LK_RELEASE : Z := 0x00000006.
Definition LK_EXCLOTHER : Z := 0x00000008.

Definition LK_EXTFLG_MASK : Z := 0x07000070.
Definition LK_NOWAIT : Z := 0x00000010.
Definition LK_SLEEPFAIL : Z := 0x00000020.
Definition LK_CANRECURSE : Z := 0x00000040.
Definition LK_TIMELOCK : Z := 0x02000000.
Definition LK_PCATCH : Z := 0x04000000.

Definition LK_WANT_UPGRADE : Z := 0x00000100.
Definition LK_WANT_EXCL : Z := 0x00000200.
Definition LK_HAVE_EXCL : Z := 0x00000400.
Definition LK_SHARE_NONZERO : Z := 0x00100000.
Definition LK_WAIT_NONZERO : Z := 0x00200000.

Definition LK_KERNTHREAD : Z := -2.
Definition LK_NOTHREAD : Z := -1.

Definition EBUSY : Z := 16.
Notation ENOLCK := Lockf.ENOLCK.

(** struct lock, without its spinlock and its message. *)
Record lock := Lock {
  lk_flags : Z;
  lk_sharecount : Z;
  lk_waitcount : Z;
  lk_exclusivecount : Z;
  lk_timo : Z;
  lk_lockholder : Z
}.

Definition set_flags (f : Z) (l : lock) : lock :=
  Lock f (lk_sharecount l) (lk_waitcount l) (lk_exclusivecount l) (lk_timo l) (lk_lockholder l).
Definition set_sharecount (n : Z) (l : lock) : lock :=
  Lock (lk_flags l) n (lk_waitcount l) (lk_exclusivecount l) (lk_timo l) (lk_lockholder l).
Definition set_waitcount (n : Z) (l : lock) : lock :=
  Lock (lk_flags l) (lk_sharecount l) n (lk_exclusivecount l) (lk_timo l) (lk_lockholder l).
Definition set_exclusivecount (n : Z) (l : lock) : lock :=
  Lock (lk_flags l) (lk_sharecount l) (lk_waitcount l) n (lk_timo l) (lk_lockholder l).
Definition set_lockholder (td : Z) (l : lock) : lock :=
  Lock (lk_flags l) (lk_sharecount l) (lk_waitcount l) (lk_exclusivecount l) (lk_timo l) td.

(** [lk_flags |= f] and [lk_flags &= ~f]. *)
Definition flag_on (f : Z) (l : lock) : lock := set_flags (Z.lor (lk_flags l) f) l.
Definition flag_off (f : Z) (l : lock) : lock := set_flags (Z.ldiff (lk_flags l) f) l.
Definition flagged (l : lock) (f : Z) : bool := has_flag (lk_flags l) f.

(** Where a thread sleeps in [lockmgr]: for a shared lock (with the
    thread's TDF_DEADLKTREAT), for an upgrade, or in the first or second wait for an
    exclusive lock. *)
Inductive site :=
  | SiteShared (deadlktreat : bool)
  | SiteUpgrade
  | SiteExcl1
  | SiteExcl2.

Record frame := Frame {
  f_site : site;
  f_extflags : Z;
  f_dowakeup : Z
}.

(** How a stretch of [lockmgr] ends: it returns an error with the count
    [dowakeup], or it sleeps. *)
Inductive progress :=
  | Return (error dowakeup : Z)
  | Sleep (f : frame).

(** * Helpers *)

Definition sharelock (lkp : lock) (incr : Z) : lock :=
  let lkp := flag_on LK_SHARE_NONZERO lkp in
  set_sharecount (s32 (lk_sharecount lkp + incr)) lkp.

Definition shareunlock (lkp : lock) (decr : Z) : outcome (lock * Z) :=
  kkassert (lk_sharecount lkp >=? decr)
    (if lk_sharecount lkp =? decr then
       let lkp := flag_off LK_SHARE_NONZERO lkp in
       let dowakeup := if flagged lkp (Z.lor LK_WANT_UPGRADE LK_WANT_EXCL) then 1 else 0 in
       Ok (set_sharecount 0 lkp, dowakeup)
     else Ok (set_sharecount (s32 (lk_sharecount lkp - decr)) lkp, 0)).

(** [acquire] up to its sleep: [Some error] is its answer, [None] a sleep. *)
Definition acquire_loop (lkp : lock) (wanted : Z) : lock * option Z :=
  if flagged lkp wanted then
    let lkp := flag_on LK_WAIT_NONZERO lkp in
    (set_waitcount (s32 (lk_waitcount lkp + 1)) lkp, None)
  else (lkp, Some 0).

Definition acquire (lkp : lock) (extflags wanted : Z) : lock * option Z :=
  if has_flag extflags LK_NOWAIT && flagged lkp wanted then (lkp, Some EBUSY)
  else acquire_loop lkp wanted.

(** [acquire] from the return of ssleep(9), with its error. *)
Definition acquire_wakeup (lkp : lock) (extflags wanted error : Z) : lock * option Z :=
  let lkp :=
    if lk_waitcount lkp =? 1 then set_waitcount 0 (flag_off LK_WAIT_NONZERO lkp)
    else set_waitcount (s32 (lk_waitcount lkp - 1)) lkp in
  if negb (error =? 0) then (lkp, Some error)
  else if has_flag extflags LK_SLEEPFAIL then (lkp, Some ENOLCK)
  else acquire_loop lkp wanted.

(** * The requests *)

Definition wanted_shared (deadlktreat : bool) : Z :=
  if deadlktreat then LK_HAVE_EXCL
  else Z.lor (Z.lor LK_HAVE_EXCL LK_WANT_EXCL) LK_WANT_UPGRADE.
Definition wanted_upgrade : Z := Z.lor LK_HAVE_EXCL LK_SHARE_NONZERO.
Definition wanted_excl1 : Z := Z.lor LK_HAVE_EXCL LK_WANT_EXCL.
Definition wanted_excl2 : Z := Z.lor (Z.lor LK_HAVE_EXCL LK_WANT_UPGRADE) LK_SHARE_NONZERO.

(** What follows the answer of [acquire], for each place it is called from. *)
Definition shared_got (lkp : lock) (error dowakeup : Z) : outcome (lock * progress) :=
  if negb (error =? 0) then Ok (lkp, Return error dowakeup)
  else Ok (sharelock lkp 1, Return error dowakeup).

Definition have_excl (td : Z) (lkp : lock) (dowakeup : Z) : outcome (lock * progress) :=
  let lkp := set_lockholder td (flag_on LK_HAVE_EXCL lkp) in
  if negb (lk_exclusivecount lkp =? 0) then Panic
  else Ok (set_exclusivecount 1 lkp, Return 0 dowakeup).

Definition upgrade_got (td : Z) (lkp : lock) (error dowakeup : Z) : outcome (lock * progress) :=
  let lkp := flag_off LK_WANT_UPGRADE lkp in
  if negb (error =? 0) then Ok (lkp, Return error dowakeup) else have_excl td lkp dowakeup.

Definition excl2_got (td : Z) (lkp : lock) (error dowakeup : Z) : outcome (lock * progress) :=
  let lkp := flag_off LK_WANT_EXCL lkp in
  if negb (error =? 0) then Ok (lkp, Return error dowakeup) else have_excl td lkp dowakeup.

Definition excl1_got (td : Z) (lkp : lock) (extflags error dowakeup : Z) : outcome (lock * progress) :=
  if negb (error =? 0) then Ok (lkp, Return error dowakeup)
  else
    let lkp := flag_on LK_WANT_EXCL lkp in
    match acquire lkp extflags wanted_excl2 with
    | (lkp, Some error) => excl2_got td lkp error dowakeup
    | (lkp, None) => Ok (lkp, Sleep (Frame SiteExcl2 extflags dowakeup))
    end.

Definition lockmgr_exclusive (td : Z) (lkp : lock) (extflags dowakeup : Z) : outcome (lock * progress) :=
  let own := (lk_lockholder lkp =? td) && negb (td =? LK_KERNTHREAD) in
  if own && negb (has_flag extflags (Z.lor LK_NOWAIT LK_CANRECURSE)) then Panic
  else if own && has_flag extflags LK_CANRECURSE then
    Ok (set_exclusivecount (s16 (lk_exclusivecount lkp + 1)) lkp, Return 0 dowakeup)
  else if has_flag extflags LK_NOWAIT &&
          flagged lkp (Z.lor (Z.lor (Z.lor LK_HAVE_EXCL LK_WANT_EXCL) LK_WANT_UPGRADE) LK_SHARE_NONZERO)
  then Ok (lkp, Return EBUSY dowakeup)
  else
    match acquire lkp extflags wanted_excl1 with
    | (lkp, Some error) => excl1_got td lkp extflags error dowakeup
    | (lkp, None) => Ok (lkp, Sleep (Frame SiteExcl1 extflags dowakeup))
    end.

Definition lockmgr_upgrade (td : Z) (lkp : lock) (extflags : Z) : outcome (lock * progress) :=
  if (lk_lockholder lkp =? td) || (lk_sharecount lkp <=? 0) then Panic
  else
    let* (lkp, dowakeup) := shareunlock lkp 1 in
    if has_flag extflags LK_NOWAIT && (flagged lkp LK_WANT_UPGRADE || (lk_sharecount lkp >? 1))
    then Ok (lkp, Return EBUSY dowakeup)
    else if negb (flagged lkp LK_WANT_UPGRADE) then
      let lkp := flag_on LK_WANT_UPGRADE lkp in
      match acquire lkp extflags wanted_upgrade with
      | (lkp, Some error) => upgrade_got td lkp error dowakeup
      | (lkp, None) => Ok (lkp, Sleep (Frame SiteUpgrade extflags dowakeup))
      end
    else
      let dowakeup :=
        if Z.land (lk_flags lkp) (Z.lor LK_SHARE_NONZERO LK_WAIT_NONZERO) =? LK_WAIT_NONZERO
        then dowakeup + 1 else dowakeup in
      lockmgr_exclusive td lkp extflags dowakeup.

Definition lockmgr_exclupgrade (td : Z) (lkp : lock) (extflags : Z) : outcome (lock * progress) :=
  if flagged lkp LK_WANT_UPGRADE then
    let* (lkp, dowakeup) := shareunlock lkp 1 in Ok (lkp, Return EBUSY dowakeup)
  else lockmgr_upgrade td lkp extflags.

Definition lockmgr_downgrade (td : Z) (lkp : lock) : outcome (lock * progress) :=
  if negb (lk_lockholder lkp =? td) || (lk_exclusivecount lkp =? 0) then Panic
  else
    let lkp := sharelock lkp (lk_exclusivecount lkp) in
    let lkp := set_lockholder LK_NOTHREAD (flag_off LK_HAVE_EXCL (set_exclusivecount 0 lkp)) in
    Ok (lkp, Return 0 (if negb (lk_waitcount lkp =? 0) then 1 else 0)).

Definition lockmgr_shared (td : Z) (deadlktreat : bool) (lkp : lock) (extflags : Z) :
    outcome (lock * progress) :=
  if negb (lk_lockholder lkp =? td) then
    match acquire lkp extflags (wanted_shared deadlktreat) with
    | (lkp, Some error) => shared_got lkp error 0
    | (lkp, None) => Ok (lkp, Sleep (Frame (SiteShared deadlktreat) extflags 0))
    end
  else lockmgr_downgrade td (sharelock lkp 1).

Definition lockmgr_release (td : Z) (lkp : lock) : outcome (lock * progress) :=
  let* (lkp, dowakeup) :=
    if negb (lk_exclusivecount lkp =? 0) then
      if negb (lk_lockholder lkp =? td) && negb (lk_lockholder lkp =? LK_KERNTHREAD) then Panic
      else if lk_exclusivecount lkp =? 1 then
        Ok (set_exclusivecount 0 (set_lockholder LK_NOTHREAD (flag_off LK_HAVE_EXCL lkp)), 0)
      else Ok (set_exclusivecount (s16 (lk_exclusivecount lkp - 1)) lkp, 0)
    else if flagged lkp LK_SHARE_NONZERO then shareunlock lkp 1
    else Panic in
  Ok (lkp, Return 0 (if flagged lkp LK_WAIT_NONZERO then dowakeup + 1 else dowakeup)).

(** A call of [lockmgr] by the thread [td]; [intr] tells that it is made from
    an interrupt (and the system is not down), [deadlktreat] is the thread's
    flag TDF_DEADLKTREAT. *)
Definition lockmgr (intr : bool) (td : Z) (deadlktreat : bool) (lkp : lock) (flags : Z) :
    outcome (lock * progress) :=
  let type := Z.land flags LK_TYPE_MASK in
  if intr && negb (has_flag flags LK_NOWAIT) && negb (type =? LK_RELEASE) then Panic
  else
    let extflags := Z.land (Z.lor flags (lk_flags lkp)) LK_EXTFLG_MASK in
    if type =? LK_SHARED then lockmgr_shared td deadlktreat lkp extflags
    else if type =? LK_DOWNGRADE then lockmgr_downgrade td lkp
    else if type =? LK_EXCLUPGRADE then lockmgr_exclupgrade td lkp extflags
    else if type =? LK_UPGRADE then lockmgr_upgrade td lkp extflags
    else if type =? LK_EXCLUSIVE then lockmgr_exclusive td lkp extflags 0
    else if type =? LK_RELEASE then lockmgr_release td lkp
    else Panic.

(** The call goes on when ssleep(9) returns [error]. *)
Definition lockmgr_wakeup (td : Z) (lkp : lock) (f : frame) (error : Z) : outcome (lock * progress) :=
  let ext := f_extflags f in
  match f_site f with
  | SiteShared deadlktreat =>
      match acquire_wakeup lkp ext (wanted_shared deadlktreat) error with
      | (lkp, Some error) => shared_got lkp error (f_dowakeup f)
      | (lkp, None) => Ok (lkp, Sleep f)
      end
  | SiteUpgrade =>
      match acquire_wakeup lkp ext wanted_upgrade error with
      | (lkp, Some error) => upgrade_got td lkp error (f_dowakeup f)
      | (lkp, None) => Ok (lkp, Sleep f)
      end
  | SiteExcl1 =>
      match acquire_wakeup lkp ext wanted_excl1 error with
      | (lkp, Some error) => excl1_got td lkp ext error (f_dowakeup f)
      | (lkp, None) => Ok (lkp, Sleep f)
      end
  | SiteExcl2 =>
      match acquire_wakeup lkp ext wanted_excl2 error with
      | (lkp, Some error) => excl2_got td lkp error (f_dowakeup f)
      | (lkp, None) => Ok (lkp, Sleep f)
      end
  end.

(** * The other functions *)

Definition lockmgr_kernproc (td : Z) (lp : lock) : outcome lock :=
  if negb (lk_lockholder lp =? LK_KERNTHREAD) then
    kkassert (lk_lockholder lp =? td) (Ok (set_lockholder LK_KERNTHREAD lp))
  else Ok lp.

Definition lockinit (timo flags : Z) : lock :=
  Lock (Z.land flags LK_EXTFLG_MASK) 0 0 0 timo LK_NOTHREAD.

Definition lockreinit (lkp : lock) (timo flags : Z) : lock :=
  Lock (Z.lor (Z.ldiff (lk_flags lkp) LK_EXTFLG_MASK) (Z.land flags LK_EXTFLG_MASK))
    (lk_sharecount lkp) (lk_waitcount lkp) (lk_exclusivecount lkp) timo (lk_lockholder lkp).

Definition lockuninit (l : lock) : outcome unit := kkassert (lk_waitcount l =? 0) (Ok tt).

(** The null pointer for [td] asks about any thread. *)
Definition lockstatus (lkp : lock) (td : option Z) : Z :=
  if negb (lk_exclusivecount lkp =? 0) then
    match td with
    | None => LK_EXCLUSIVE
    | Some td => if lk_lockholder lkp =? td then LK_EXCLUSIVE else LK_EXCLOTHER
    end
  else if negb (lk_sharecount lkp =? 0) then LK_SHARED
  else 0.

Definition lockowned (td : Z) (lkp : lock) : bool :=
  if negb (lk_exclusivecount lkp =? 0) then lk_lockholder lkp =? td
  else negb (lk_sharecount lkp =? 0).

Definition lockcount (lkp : lock) : Z := s32 (lk_exclusivecount lkp + lk_sharecount lkp).
Definition lockcountnb (lkp : lock) : Z := s32 (lk_exclusivecount lkp + lk_sharecount lkp).

End LockMgr.
