(* ===== verification/LockMgrTheory.v ===== *)
(** What the lock manager guarantees: the effect of every stretch of code on
    the lock and on what its thread holds, and the states that any number of
    threads can reach. *)

From Stdlib Require Import ZifyBool.
From stdpp Require Import base list gmap.
From S2P Require Import Prelude Lockf LockMgr.

Module LockMgrTheory.
Import LockMgr.

(** * Locks *)

(** The flags agree with the counts, and the owner with both. *)
Record lock_ok (l : lock) : Prop := {
  ok_share : flagged l LK_SHARE_NONZERO = negb (lk_sharecount l =? 0);
  ok_wait : flagged l LK_WAIT_NONZERO = negb (lk_waitcount l =? 0);
  ok_have : flagged l LK_HAVE_EXCL = negb (lk_exclusivecount l =? 0);
  ok_counts : 0 ≤ lk_sharecount l ∧ 0 ≤ lk_waitcount l ∧ 0 ≤ lk_exclusivecount l;
  ok_holder : (lk_lockholder l =? LK_NOTHREAD) = (lk_exclusivecount l =? 0);
  ok_excl : lk_exclusivecount l = 0 ∨ lk_sharecount l = 0
}.

(** No count is at its largest value. *)
Definition room (l : lock) : Prop :=
  lk_sharecount l + lk_exclusivecount l + 1 < 2 ^ 31 ∧ lk_waitcount l + 1 < 2 ^ 31 ∧
  lk_exclusivecount l + 1 < 2 ^ 15.

(** The exclusive locks of the thread [td]. *)
Definition owned (l : lock) (td : Z) : Z := if lk_lockholder l =? td then lk_exclusivecount l else 0.

Definition sleeps (p : progress) : Z := match p with Sleep _ => 1 | Return _ _ => 0 end.
Definition upgrades (p : progress) : Z := match p with Sleep (Frame SiteUpgrade _ _) => 1 | _ => 0 end.
Definition reserves (p : progress) : Z := match p with Sleep (Frame SiteExcl2 _ _) => 1 | _ => 0 end.

(** What a stretch of code of the thread [td] does to the lock, when its
    shared and exclusive locks change from [sh] and [ex] to [sh'] and [ex'],
    and the thread was ([w], [u], [x]) and is now asleep, asleep for an
    upgrade, and asleep with the exclusive lock reserved. *)
Record moved (td : Z) (l l' : lock) (sh ex : Z) (h' : Z * Z) (w u x : Z) (p : progress) : Prop := {
  mv_ok : lock_ok l';
  mv_share : lk_sharecount l' - fst h' = lk_sharecount l - sh;
  mv_wait : lk_waitcount l' - sleeps p = lk_waitcount l - w;
  mv_upgrade : Z.b2z (flagged l' LK_WANT_UPGRADE) - upgrades p = Z.b2z (flagged l LK_WANT_UPGRADE) - u;
  mv_reserve : Z.b2z (flagged l' LK_WANT_EXCL) - reserves p = Z.b2z (flagged l LK_WANT_EXCL) - x;
  mv_owned : owned l' td = snd h';
  mv_other : ∀ d, 0 ≤ d → d ≠ td → owned l' d = owned l d;
  mv_nonneg : 0 ≤ fst h';
  mv_asleep : sleeps p = 1 → snd h' = 0
}.

(** What a thread holds after a call, as its caller counts: [sh] shared and
    [ex] exclusive locks before; [kern] tells that the lock belongs to the
    kernel.  A call that sleeps has given up the shared lock of an upgrade. *)
Definition granted (p : progress) : bool := match p with Return error _ => error =? 0 | Sleep _ => false end.

Definition after_call (kern : bool) (type sh ex : Z) (p : progress) : Z * Z :=
  if type =? LK_SHARED then
    if granted p then (sh + 1 + ex, 0) else (sh, ex)
  else if type =? LK_DOWNGRADE then (sh + ex, 0)
  else if (type =? LK_UPGRADE) || (type =? LK_EXCLUPGRADE) then
    (sh - 1, if granted p then ex + 1 else ex)
  else if type =? LK_EXCLUSIVE then (sh, if granted p then ex + 1 else ex)
  else if kern then (sh, ex)
  else if 0 <? ex then (sh, ex - 1)
  else (sh - 1, ex).

Definition after_wakeup (s : site) (sh ex : Z) (p : progress) : Z * Z :=
  if granted p then
    match s with SiteShared _ => (sh + 1, ex) | _ => (sh, ex + 1) end
  else (sh, ex).

(** What callers must respect: interrupts do not wait, one upgrades a shared
    and downgrades an exclusive lock one has, releases a lock one has (or the
    kernel's) and does not lock against oneself. *)
Definition wf_call (intr : bool) (l : lock) (sh ex flags : Z) : Prop :=
  let type := Z.land flags LK_TYPE_MASK in
  let extflags := Z.land (Z.lor flags (lk_flags l)) LK_EXTFLG_MASK in
  (intr = true → has_flag flags LK_NOWAIT = true ∨ type = LK_RELEASE) ∧
  (type = LK_SHARED ∨
   type = LK_EXCLUSIVE ∧ (0 < ex → has_flag extflags (Z.lor LK_NOWAIT LK_CANRECURSE) = true) ∨
   (type = LK_UPGRADE ∨ type = LK_EXCLUPGRADE) ∧ 0 < sh ∨
   type = LK_DOWNGRADE ∧ 0 < ex ∨
   type = LK_RELEASE ∧ (0 < sh ∨ 0 < ex ∨ lk_lockholder l = LK_KERNTHREAD)).

(** ** The flag words *)

Ltac is_flag a :=
  first [is_const a | lazymatch a with Z0 => idtac | Z.pos _ => idtac end].

(** Reduces the test of a flag word that the code has changed to tests of the
    word before, evaluating the constants. *)
Ltac flags :=
  unfold flagged, flag_on, flag_off, wanted_shared, wanted_upgrade, wanted_excl1, wanted_excl2 in *;
  cbn [lk_flags lk_sharecount lk_waitcount lk_exclusivecount lk_lockholder lk_timo
       set_flags set_sharecount set_waitcount set_exclusivecount set_lockholder] in *;
  repeat match goal with
  | |- context [has_flag (Z.lor _ _) _] => rewrite has_flag_lor
  | |- context [has_flag (Z.ldiff _ _) _] => rewrite has_flag_ldiff
  | |- context [has_flag _ (Z.lor _ _)] => rewrite has_flag_lor_r
  | |- context [Z.ldiff ?a ?b] =>
      is_flag a; is_flag b;
      let v := eval vm_compute in (Z.ldiff a b) in
      let e := eval vm_compute in (Z.ldiff a b =? a) in
      lazymatch e with
      | true => change (Z.ldiff a b) with a
      | _ => change (Z.ldiff a b) with v
      end
  | |- context [has_flag _ 0] => rewrite has_flag_0_r
  | |- context [has_flag ?a ?b] =>
      is_flag a; is_flag b;
      let v := eval vm_compute in (has_flag a b) in
      lazymatch v with
      | true => change (has_flag a b) with true
      | false => change (has_flag a b) with false
      end
  end;
  rewrite ?orb_false_r, ?orb_true_r, ?orb_false_l, ?orb_true_l.


(** Unfolds what is known of the locks at hand and finishes by arithmetic. *)
Ltac lock_open :=
  repeat match goal with
  | H : lock_ok ?l |- _ =>
      let H1 := fresh "Hsh" in let H2 := fresh "Hwt" in let H3 := fresh "Hhv" in
      let H4 := fresh "Hcn" in let H5 := fresh "Hho" in let H6 := fresh "Hex" in
      destruct H as [H1 H2 H3 H4 H5 H6]
  end.

Lemma s32_small x : 0 ≤ x < 2 ^ 31 → s32 x = x.
Proof. intros. apply signed_of_small; [lia|unfold is_s; lia]. Qed.

Lemma s16_small x : 0 ≤ x < 2 ^ 15 → s16 x = x.
Proof. intros. apply signed_of_small; [lia|unfold is_s; lia]. Qed.

#[local] Opaque signed_of.

(** ** Changes that leave the exclusive lock alone *)

(** There are [ds] more shared locks and [d] more waiting threads; [du] and
    [dx] tell whether a reservation for an upgrade and for an exclusive lock
    was made (1) or given up (-1). *)
Record changed (ds d du dx : Z) (l l' : lock) : Prop := {
  ch_ok : lock_ok l';
  ch_share : lk_sharecount l' = lk_sharecount l + ds;
  ch_excl : lk_exclusivecount l' = lk_exclusivecount l;
  ch_holder : lk_lockholder l' = lk_lockholder l;
  ch_upgrade : Z.b2z (flagged l' LK_WANT_UPGRADE) = Z.b2z (flagged l LK_WANT_UPGRADE) + du;
  ch_reserve : Z.b2z (flagged l' LK_WANT_EXCL) = Z.b2z (flagged l LK_WANT_EXCL) + dx;
  ch_wait : lk_waitcount l' = lk_waitcount l + d
}.

Lemma changed_refl l : lock_ok l → changed 0 0 0 0 l l.
Proof. intros H. split; done || lia. Qed.

Lemma changed_room ds d du dx l l' :
  changed ds d du dx l l' → room l → ds ≤ 0 → d ≤ 0 → room l'.
Proof. intros [] (? & ? & ?) ? ?. split_and!; lia. Qed.

Ltac changed_tac := split; [split; flags; rewrite ?s32_small by lia|flags..]; rewrite ?s32_small by lia; try lia.

Lemma upgrade_on l : lock_ok l → flagged l LK_WANT_UPGRADE = false →
  changed 0 0 1 0 l (flag_on LK_WANT_UPGRADE l).
Proof. intros Hl Hf. lock_open. changed_tac. Qed.

Lemma upgrade_off l : lock_ok l → flagged l LK_WANT_UPGRADE = true →
  changed 0 0 (-1) 0 l (flag_off LK_WANT_UPGRADE l).
Proof. intros Hl Hf. lock_open. changed_tac. Qed.

Lemma reserve_on l : lock_ok l → flagged l LK_WANT_EXCL = false →
  changed 0 0 0 1 l (flag_on LK_WANT_EXCL l).
Proof. intros Hl Hf. lock_open. changed_tac. Qed.

Lemma reserve_off l : lock_ok l → flagged l LK_WANT_EXCL = true →
  changed 0 0 0 (-1) l (flag_off LK_WANT_EXCL l).
Proof. intros Hl Hf. lock_open. changed_tac. Qed.

Lemma sharelock_spec l n :
  lock_ok l → 0 < n → lk_sharecount l + n < 2 ^ 31 → lk_exclusivecount l = 0 →
  changed n 0 0 0 l (sharelock l n).
Proof. intros Hl Hn Hr He. unfold sharelock. lock_open. changed_tac. Qed.

Lemma shareunlock_spec l :
  lock_ok l → room l → 0 < lk_sharecount l →
  ∃ l' dw, shareunlock l 1 = Ok (l', dw) ∧ changed (-1) 0 0 0 l l'.
Proof.
  intros Hl (Hr & _) Hs. unfold shareunlock, kkassert. rewrite (proj2 (Z.geb_le _ _)) by lia.
  lock_open. case_test; bool_prop; (eexists _, _; split; [done|]); changed_tac.
Qed.

Lemma acquire_loop_spec l wanted :
  lock_ok l → room l →
  let (l', r) := acquire_loop l wanted in
  match r with
  | Some e => l' = l ∧ e = 0 ∧ flagged l wanted = false
  | None => changed 0 1 0 0 l l'
  end.
Proof.
  intros Hl [Hr1 [Hr2 Hr3]]. unfold acquire_loop. destruct (flagged l wanted) eqn:E; [|done].
  lock_open. changed_tac.
Qed.

Lemma acquire_spec l ext wanted :
  lock_ok l → room l →
  let (l', r) := acquire l ext wanted in
  match r with
  | Some e => l' = l ∧ (e = 0 → flagged l wanted = false)
  | None => changed 0 1 0 0 l l'
  end.
Proof.
  intros Hl Hr. unfold acquire. case_test; [done|].
  pose proof (acquire_loop_spec l wanted Hl Hr) as H. destruct (acquire_loop l wanted) as [l' [e|]]; tauto.
Qed.

Lemma changed_trans ds1 d1 du1 dx1 ds2 d2 du2 dx2 l l1 l2 :
  changed ds1 d1 du1 dx1 l l1 → changed ds2 d2 du2 dx2 l1 l2 →
  changed (ds1 + ds2) (d1 + d2) (du1 + du2) (dx1 + dx2) l l2.
Proof. intros [] []. split; try (congruence || lia). Qed.

Lemma acquire_wakeup_spec l ext wanted error :
  lock_ok l → room l → 0 < lk_waitcount l →
  let (l', r) := acquire_wakeup l ext wanted error in
  match r with
  | Some e => changed 0 (-1) 0 0 l l' ∧ (e = 0 → flagged l' wanted = false) ∧ (error ≠ 0 → e = error)
  | None => changed 0 0 0 0 l l' ∧ error = 0
  end.
Proof.
  intros Hl Hr Hw. unfold acquire_wakeup.
  set (l1 := if lk_waitcount l =? 1 then _ else _).
  assert (H1 : changed 0 (-1) 0 0 l l1).
  { unfold l1. clear l1. destruct Hr as (_ & Hr & _). lock_open. case_test; bool_prop; changed_tac. }
  clearbody l1. case_test; bool_prop; [by split_and!|]. case_test; [by split_and!|].
  assert (Hr1 : room l1) by (apply (changed_room _ _ _ _ _ _ H1); done || lia).
  pose proof (acquire_loop_spec l1 wanted (ch_ok _ _ _ _ _ _ H1) Hr1) as H.
  destruct (acquire_loop l1 wanted) as [l2 [e|]].
  - destruct H as (-> & -> & ?). by split_and!.
  - split; [|done]. by apply (changed_trans 0 (-1) 0 0 0 1 0 0 l l1 l2).
Qed.

(** ** Endings *)

(** A stretch that begins with a change. *)
Lemma moved_changed td ds d du dx l l1 l' sh ex h' w u x p :
  changed ds d du dx l l1 → moved td l1 l' (sh + ds) ex h' (w + d) (u + du) (x + dx) p →
  moved td l l' sh ex h' w u x p.
Proof.
  intros [] []. split; try done; try lia.
  intros d' ? ?. rewrite mv_other0 by done. unfold owned. by rewrite ch_holder0, ch_excl0.
Qed.

(** A stretch that does no more than that. *)
Lemma moved_end td ds d du dx l l' sh h' w u x p :
  changed ds d du dx l l' → sleeps p = w + d → upgrades p = u + du → reserves p = x + dx →
  fst h' = sh + ds → snd h' = 0 → owned l td = 0 → 0 ≤ sh + ds →
  moved td l l' sh 0 h' w u x p.
Proof.
  intros [] ? ? ? ? ? Ho ?. split; try done; try lia.
  - unfold owned in *. rewrite ch_holder0, ch_excl0. lia.
  - intros d' ? ?. unfold owned. by rewrite ch_holder0, ch_excl0.
Qed.

Lemma have_excl_spec td l dw sh :
  lock_ok l → 0 ≤ td → 0 ≤ sh → lk_sharecount l = 0 → lk_exclusivecount l = 0 →
  ∃ l', have_excl td l dw = Ok (l', Return 0 dw) ∧
    moved td l l' sh 0 (sh, 1) 0 0 0 (Return 0 dw).
Proof.
  intros Hl Htd Hsh H1 H2. unfold have_excl. flags. rewrite H2. cbn [Z.eqb negb].
  eexists. split; [done|]. lock_open.
  split; cbn [fst snd sleeps upgrades reserves]; unfold owned in *; flags; try lia.
  - split; flags; unfold LK_NOTHREAD in *; lia.
  - by rewrite Z.eqb_refl.
  - intros d Hd Hne. replace (td =? d) with false by lia. case_test; lia.
Qed.


Lemma sharing l : lock_ok l → flagged l LK_HAVE_EXCL = false → lk_exclusivecount l = 0.
Proof. intros Hl H. lock_open. flags. lia. Qed.

Lemma unshared l : lock_ok l → flagged l LK_SHARE_NONZERO = false → lk_sharecount l = 0.
Proof. intros Hl H. lock_open. flags. lia. Qed.

Lemma shared_got_spec td l error dw sh :
  lock_ok l → room l → 0 ≤ td → owned l td = 0 → 0 ≤ sh →
  (error = 0 → flagged l LK_HAVE_EXCL = false) →
  ∃ l' p, shared_got l error dw = Ok (l', p) ∧
    moved td l l' sh 0 (if granted p then sh + 1 else sh, 0) 0 0 0 p.
Proof.
  intros Hl (Hr & _) Htd Ho Hsh Hfree. unfold shared_got. case_test; bool_prop.
  - eexists _, _. split; [done|]. cbn [granted]. replace (error =? 0) with false by lia.
    apply (moved_end td 0 0 0 0 l l); try done; try apply changed_refl; cbn; done || lia.
  - subst. specialize (sharing l Hl (Hfree eq_refl)) as He. eexists _, _. split; [done|].
    apply (moved_end td 1 0 0 0 l); try done; try lia. apply sharelock_spec; done || lia.
Qed.

(** A reservation is given up, for the exclusive lock or with an error. *)
Lemma excl_got_spec td l l1 error dw sh u x :
  changed 0 0 (- u) (- x) l l1 → 0 ≤ td → owned l td = 0 → 0 ≤ sh → lock_ok l →
  (error = 0 → flagged l LK_HAVE_EXCL = false ∧ flagged l LK_SHARE_NONZERO = false) →
  ∃ l' p, (if negb (error =? 0) then Ok (l1, Return error dw) else have_excl td l1 dw) = Ok (l', p) ∧
    moved td l l' sh 0 (sh, if granted p then 1 else 0) 0 u x p.
Proof.
  intros Hch Htd Ho Hsh Hl Hfree. case_test; bool_prop.
  - eexists _, _. split; [done|]. cbn [granted]. replace (error =? 0) with false by lia.
    apply (moved_end td 0 0 (- u) (- x) l); cbn; done || lia.
  - destruct (Hfree E) as [Hf1 Hf2].
    destruct (have_excl_spec td l1 dw sh) as (l' & E' & Hm); try done.
    + apply Hch.
    + rewrite (ch_share _ _ _ _ _ _ Hch), (unshared l); done.
    + rewrite (ch_excl _ _ _ _ _ _ Hch), (sharing l); done.
    + exists l', (Return 0 dw). split; [done|]. apply (moved_changed td 0 0 (- u) (- x) _ _ _ _ _ _ _ _ _ _ Hch).
      by rewrite Z.add_0_r, !Z.add_opp_diag_r.
Qed.

Ltac free_flags H :=
  unfold wanted_shared, wanted_upgrade, wanted_excl1, wanted_excl2, flagged in H;
  rewrite ?has_flag_lor_r in H; bool_prop.

Lemma upgrade_got_spec td l error dw sh :
  lock_ok l → 0 ≤ td → owned l td = 0 → 0 ≤ sh → flagged l LK_WANT_UPGRADE = true →
  (error = 0 → flagged l wanted_upgrade = false) →
  ∃ l' p, upgrade_got td l error dw = Ok (l', p) ∧
    moved td l l' sh 0 (sh, if granted p then 1 else 0) 0 1 0 p.
Proof.
  intros Hl Htd Ho Hsh Hf Hfree. apply excl_got_spec; try done; [by apply upgrade_off|].
  intros H. specialize (Hfree H). free_flags Hfree. by split.
Qed.

Lemma excl2_got_spec td l error dw sh :
  lock_ok l → 0 ≤ td → owned l td = 0 → 0 ≤ sh → flagged l LK_WANT_EXCL = true →
  (error = 0 → flagged l wanted_excl2 = false) →
  ∃ l' p, excl2_got td l error dw = Ok (l', p) ∧
    moved td l l' sh 0 (sh, if granted p then 1 else 0) 0 0 1 p.
Proof.
  intros Hl Htd Ho Hsh Hf Hfree. apply excl_got_spec; try done; [by apply reserve_off|].
  intros H. specialize (Hfree H). free_flags Hfree. by split.
Qed.

Lemma excl1_got_spec td l ext error dw sh :
  lock_ok l → room l → 0 ≤ td → owned l td = 0 → 0 ≤ sh →
  (error = 0 → flagged l wanted_excl1 = false) →
  ∃ l' p, excl1_got td l ext error dw = Ok (l', p) ∧
    moved td l l' sh 0 (sh, if granted p then 1 else 0) 0 0 0 p.
Proof.
  intros Hl Hr Htd Ho Hsh Hfree. unfold excl1_got. case_test; bool_prop.
  - eexists _, _. split; [done|]. cbn [granted]. replace (error =? 0) with false by lia.
    apply (moved_end td 0 0 0 0 l l); try done; try apply changed_refl; cbn; done || lia.
  - specialize (Hfree E). free_flags Hfree. match goal with H : has_flag _ LK_WANT_EXCL = false |- _ =>
      pose proof (reserve_on l Hl H) as Hch end.
    set (l1 := flag_on LK_WANT_EXCL l) in *.
    assert (Hf1 : flagged l1 LK_WANT_EXCL = true) by (unfold l1; flags; done).
    assert (Hr1 : room l1) by (apply (changed_room _ _ _ _ _ _ Hch); done || lia).
    assert (Ho1 : owned l1 td = 0).
    { unfold owned in *. by rewrite (ch_holder _ _ _ _ _ _ Hch), (ch_excl _ _ _ _ _ _ Hch). }
    pose proof (acquire_spec l1 ext wanted_excl2 (ch_ok _ _ _ _ _ _ Hch) Hr1) as Ha.
    destruct (acquire l1 ext wanted_excl2) as [l2 [e|]].
    + destruct Ha as [-> Ha]. destruct (excl2_got_spec td l1 e dw sh) as (l' & p & E' & Hm); try done.
      { apply Hch. }
      exists l', p. split; [done|]. apply (moved_changed td 0 0 0 1 _ _ _ _ _ _ _ _ _ _ Hch).
      by rewrite Z.add_0_r.
    + eexists _, _. split; [done|]. apply (moved_changed td 0 0 0 1 _ _ _ _ _ _ _ _ _ _ Hch).
      apply (moved_end td 0 1 0 0 l1); cbn; try done; lia.
Qed.

(** The owner locks again, or an owner who does not wait is turned away. *)
Lemma lockmgr_recurse_spec td l ext dw sh ex :
  lock_ok l → room l → 0 ≤ td → ex = owned l td → 0 < ex → 0 ≤ sh →
  has_flag ext (Z.lor LK_NOWAIT LK_CANRECURSE) = true →
  ∃ l' p, lockmgr_exclusive td l ext dw = Ok (l', p) ∧
    moved td l l' sh ex (sh, if granted p then ex + 1 else ex) 0 0 0 p.
Proof.
  intros Hl (_ & _ & Hr) Htd Hex Hpos Hsh Hwf. unfold lockmgr_exclusive. rewrite Hwf, andb_false_r.
  assert (Eo : lk_lockholder l = td).
  { unfold owned in Hex. destruct (lk_lockholder l =? td) eqn:Eo; lia. }
  assert (Ee : lk_exclusivecount l = ex).
  { subst ex. unfold owned. by rewrite Eo, Z.eqb_refl. }
  rewrite Eo, Z.eqb_refl. replace (td =? LK_KERNTHREAD) with false by (unfold LK_KERNTHREAD; lia).
  cbn [negb andb]. destruct (has_flag ext LK_CANRECURSE) eqn:Ec.
  - eexists _, _. split; [done|]. cbn [granted Z.eqb].
    lock_open. split; cbn [fst snd sleeps upgrades reserves]; unfold owned in *; flags; rewrite ?s16_small by lia; try lia.
    + split; flags; rewrite ?s16_small by lia; lia.
    + rewrite Eo, Z.eqb_refl. lia.
    + intros d ? ?. rewrite Eo. replace (td =? d) with false by lia. done.
  - rewrite has_flag_lor_r, Ec, orb_false_r in Hwf. rewrite Hwf. cbn [andb].
    assert (Hh : flagged l LK_HAVE_EXCL = true) by (rewrite (ok_have l Hl); lia).
    unfold flagged. rewrite !has_flag_lor_r. unfold flagged in Hh. rewrite Hh.
    eexists _, _. split; [done|]. split; try done.
Qed.

Lemma lockmgr_exclusive_spec td l ext dw sh ex :
  lock_ok l → room l → 0 ≤ td → ex = owned l td → 0 ≤ sh →
  (0 < ex → has_flag ext (Z.lor LK_NOWAIT LK_CANRECURSE) = true) →
  ∃ l' p, lockmgr_exclusive td l ext dw = Ok (l', p) ∧
    moved td l l' sh ex (sh, if granted p then ex + 1 else ex) 0 0 0 p.
Proof.
  intros Hl Hr Htd Hex Hsh Hwf.
  destruct (decide (0 < ex)) as [Hpos|Hn]; [by apply lockmgr_recurse_spec; auto|].
  assert (Ho : owned l td = 0) by (pose proof (ok_counts l Hl); unfold owned in *; case_test; lia).
  rewrite Ho in Hex. subst ex.
  assert (Eo : (lk_lockholder l =? td) = false).
  { unfold owned in Ho. destruct (lk_lockholder l =? td) eqn:Eo; [|done]. lock_open. unfold LK_NOTHREAD in *. lia. }
  unfold lockmgr_exclusive. rewrite Eo. cbn [andb]. case_test.
  { eexists _, _. split; [done|]. apply (moved_end td 0 0 0 0 l l); try done; [by apply changed_refl|cbn; lia|lia]. }
  pose proof (acquire_spec l ext wanted_excl1 Hl Hr) as Ha.
  destruct (acquire l ext wanted_excl1) as [l2 [e|]].
  - destruct Ha as [-> Ha]. by apply excl1_got_spec.
  - eexists _, _. split; [done|]. apply (moved_end td 0 1 0 0 l); cbn; try done; lia.
Qed.

Lemma lockmgr_upgrade_spec td l ext sh :
  lock_ok l → room l → 0 ≤ td → owned l td = 0 → 0 < sh ≤ lk_sharecount l →
  ∃ l' p, lockmgr_upgrade td l ext = Ok (l', p) ∧
    moved td l l' sh 0 (sh - 1, if granted p then 1 else 0) 0 0 0 p.
Proof.
  intros Hl Hr Htd Ho Hsh. unfold lockmgr_upgrade.
  assert (Eo : (lk_lockholder l =? td) = false).
  { lock_open. unfold LK_NOTHREAD in *. lia. }
  rewrite Eo. replace (lk_sharecount l <=? 0) with false by lia. cbn [orb].
  destruct (shareunlock_spec l Hl Hr) as (l1 & dw & -> & Hch); [lia|]. cbn [obind].
  pose proof (ch_ok _ _ _ _ _ _ Hch) as Hl1.
  assert (Hr1 : room l1) by (apply (changed_room _ _ _ _ _ _ Hch); done || lia).
  assert (Ho1 : owned l1 td = 0).
  { unfold owned in *. by rewrite (ch_holder _ _ _ _ _ _ Hch), (ch_excl _ _ _ _ _ _ Hch). }
  case_test.
  { eexists _, _. split; [done|]. apply (moved_end td (-1) 0 0 0 l l1); cbn; try done; lia. }
  case_test.
  - bool_prop. pose proof (upgrade_on l1 Hl1 E0) as Hch2. set (l2 := flag_on LK_WANT_UPGRADE l1) in *.
    pose proof (changed_trans _ _ _ _ _ _ _ _ _ _ _ Hch Hch2) as Hch3.
    assert (Hf2 : flagged l2 LK_WANT_UPGRADE = true) by (unfold l2; flags; done).
    assert (Hr2 : room l2) by (apply (changed_room _ _ _ _ _ _ Hch2); done || lia).
    assert (Ho2 : owned l2 td = 0).
    { unfold owned in *. by rewrite (ch_holder _ _ _ _ _ _ Hch2), (ch_excl _ _ _ _ _ _ Hch2). }
    pose proof (acquire_spec l2 ext wanted_upgrade (ch_ok _ _ _ _ _ _ Hch2) Hr2) as Ha.
    destruct (acquire l2 ext wanted_upgrade) as [l3 [e|]].
    + destruct Ha as [-> Ha]. destruct (upgrade_got_spec td l2 e dw (sh - 1)) as (l' & p & E' & Hm); try done; [apply Hch2|lia|].
      exists l', p. split; [done|]. apply (moved_changed td _ _ _ _ _ _ _ _ _ _ _ _ _ _ Hch3). done.
    + eexists _, _. split; [done|]. apply (moved_changed td _ _ _ _ _ _ _ _ _ _ _ _ _ _ Hch3).
      apply (moved_end td 0 1 0 0 l2); cbn; try done; lia.
  - destruct (lockmgr_exclusive_spec td l1 ext
      (if Z.land (lk_flags l1) (Z.lor LK_SHARE_NONZERO LK_WAIT_NONZERO) =? LK_WAIT_NONZERO then dw + 1 else dw)
      (sh - 1) 0) as (l' & p & E' & Hm); try done; try lia.
    exists l', p. split; [done|]. apply (moved_changed td _ _ _ _ _ _ _ _ _ _ _ _ _ _ Hch). done.
Qed.


(** What it means that the thread owns the lock. *)
Lemma owned_pos l td : lock_ok l → 0 < owned l td →
  lk_lockholder l = td ∧ lk_exclusivecount l = owned l td ∧ lk_sharecount l = 0.
Proof.
  intros Hl. unfold owned. case_test; [|lia]. intros H. bool_prop. lock_open. lia.
Qed.

Lemma owned_none l td : lock_ok l → 0 ≤ td → owned l td = 0 → (lk_lockholder l =? td) = false.
Proof.
  intros Hl Htd Ho. unfold owned in Ho. destruct (lk_lockholder l =? td) eqn:Eo; [|done].
  lock_open. unfold LK_NOTHREAD in *. lia.
Qed.

(** Compares owners. *)
Ltac owner_tac :=
  intros; unfold LK_NOTHREAD, LK_KERNTHREAD in *; repeat (case_test; bool_prop); lia.

(** The owner's exclusive locks become shared ones; [n] tells whether it has
    just taken a shared lock on top. *)
Lemma downgrade_spec td l sh ex (n : bool) :
  lock_ok l → room l → 0 ≤ td → ex = owned l td → 0 < ex → sh = 0 →
  ∃ l' p, lockmgr_downgrade td (if n then sharelock l 1 else l) = Ok (l', p) ∧ granted p = true ∧
    moved td l l' sh ex (sh + (if n then 1 else 0) + ex, 0) 0 0 0 p.
Proof.
  intros Hl (Hr & _) Htd Hex Hpos Hsh. rewrite Hex in Hpos.
  destruct (owned_pos l td Hl Hpos) as (Eo & Ee & Es). rewrite <- Hex in Ee.
  unfold lockmgr_downgrade, sharelock. destruct n; flags; rewrite Eo, Ee, Es, Z.eqb_refl;
    replace (ex =? 0) with false by lia; cbn [negb orb]; (eexists _, _; split; [done|]); (split; [done|]);
    rewrite ?s32_small by (rewrite ?s32_small; lia); lock_open;
    split; cbn [fst snd sleeps upgrades reserves]; unfold owned in *; flags;
    rewrite ?s32_small by (rewrite ?s32_small; lia); try lia.
  all: try (split; flags; rewrite ?s32_small by (rewrite ?s32_small; lia); unfold LK_NOTHREAD; lia).
  all: owner_tac.
Qed.

Lemma lockmgr_shared_spec td treat l ext sh ex :
  lock_ok l → room l → 0 ≤ td → ex = owned l td → 0 ≤ sh ≤ lk_sharecount l →
  ∃ l' p, lockmgr_shared td treat l ext = Ok (l', p) ∧
    moved td l l' sh ex (if granted p then (sh + 1 + ex, 0) else (sh, ex)) 0 0 0 p.
Proof.
  intros Hl Hr Htd Hex Hsh. unfold lockmgr_shared.
  destruct (decide (owned l td = 0)) as [Ho|Hn].
  - rewrite (owned_none l td) by done. cbn [negb]. rewrite Ho in Hex. subst ex.
    pose proof (acquire_spec l ext (wanted_shared treat) Hl Hr) as Ha.
    destruct (acquire l ext (wanted_shared treat)) as [l2 [e|]].
    + destruct Ha as [-> Ha]. destruct (shared_got_spec td l e 0 sh) as (l' & p & -> & Hm); try done; [lia| |].
      { intros H. specialize (Ha H). destruct treat; free_flags Ha; done. }
      exists l', p. split; [done|]. rewrite Z.add_0_r. by destruct (granted p).
    + eexists _, _. split; [done|]. apply (moved_end td 0 1 0 0 l); cbn; try done; lia.
  - assert (Hpos : 0 < owned l td) by (pose proof (ok_counts l Hl); unfold owned in *; case_test; lia).
    destruct (owned_pos l td Hl Hpos) as (Eo & Ee & Es). rewrite Eo, Z.eqb_refl. cbn [negb].
    destruct (downgrade_spec td l sh ex true) as (l' & p & E & Hg & Hm); try done; try lia.
    exists l', p. split; [done|]. by rewrite Hg.
Qed.

Lemma lockmgr_release_spec td l sh ex :
  lock_ok l → room l → 0 ≤ td → ex = owned l td → 0 ≤ sh ≤ lk_sharecount l →
  0 < sh ∨ 0 < ex ∨ lk_lockholder l = LK_KERNTHREAD →
  ∃ l' p, lockmgr_release td l = Ok (l', p) ∧ granted p = true ∧
    moved td l l' sh ex
      (if lk_lockholder l =? LK_KERNTHREAD then (sh, ex) else if 0 <? ex then (sh, ex - 1) else (sh - 1, ex))
      0 0 0 p.
Proof.
  intros Hl Hr Htd Hex Hsh Hheld. unfold lockmgr_release.
  destruct (decide (lk_exclusivecount l = 0)) as [He|He].
  - assert (Ho : owned l td = 0) by (unfold owned; case_test; lia). rewrite Ho in Hex. subst ex.
    assert (Ek : (lk_lockholder l =? LK_KERNTHREAD) = false).
    { lock_open. unfold LK_NOTHREAD, LK_KERNTHREAD in *. lia. }
    rewrite He, Ek. cbn [Z.eqb negb Z.ltb Z.compare].
    assert (Hpos : 0 < sh) by (bool_prop; lia).
    rewrite (ok_share l Hl). replace (negb (lk_sharecount l =? 0)) with true by lia.
    destruct (shareunlock_spec l Hl Hr) as (l1 & dw & -> & Hch); [lia|]. cbn [obind].
    eexists _, _. split; [done|]. split; [done|]. apply (moved_end td (-1) 0 0 0 l); cbn; try done; lia.
  - replace (negb (lk_exclusivecount l =? 0)) with true by lia. destruct Hr as (_ & _ & Hr).
    pose proof (ok_counts l Hl) as Hc.
    assert (Hs0 : lk_sharecount l = 0) by (destruct (ok_excl l Hl); lia).
    assert (Hown : lk_lockholder l = td ∨ lk_lockholder l = LK_KERNTHREAD).
    { destruct Hheld as [?|[Hp|?]]; [lia| |by right]. left. rewrite Hex in Hp. by apply owned_pos. }
    replace (negb (lk_lockholder l =? td) && negb (lk_lockholder l =? LK_KERNTHREAD)) with false by lia.
    set (l1 := if lk_exclusivecount l =? 1 then
      set_exclusivecount 0 (set_lockholder LK_NOTHREAD (flag_off LK_HAVE_EXCL l))
      else set_exclusivecount (s16 (lk_exclusivecount l - 1)) l).
    replace (if lk_exclusivecount l =? 1 then _ else _) with (Ok (l1, 0)) by (unfold l1; by case_test).
    cbn [obind]. eexists _, _. split; [done|]. split; [done|].
    unfold l1. clear l1. lock_open. unfold owned in *. destruct Hown as [Eo|Eo]; rewrite Eo in *.
    + rewrite Z.eqb_refl in Hex. subst ex. replace (td =? LK_KERNTHREAD) with false by (unfold LK_KERNTHREAD; lia).
      replace (0 <? lk_exclusivecount l) with true by lia.
      case_test; bool_prop; split; cbn [fst snd sleeps upgrades reserves]; unfold owned; flags;
        rewrite ?s16_small by lia; try lia.
      all: try (split; flags; rewrite ?s16_small by lia; unfold LK_NOTHREAD in *; lia).
      all: owner_tac.
    + rewrite Z.eqb_refl. replace (LK_KERNTHREAD =? td) with false in Hex by (unfold LK_KERNTHREAD; lia). subst ex.
      case_test; bool_prop; split; cbn [fst snd sleeps upgrades reserves]; unfold owned; flags;
        rewrite ?s16_small by lia; try lia.
      all: try (split; flags; rewrite ?s16_small by lia; unfold LK_NOTHREAD in *; lia).
      all: owner_tac.
Qed.


(** ** Every call, and its continuation *)

Lemma lockmgr_spec intr td treat l flags sh ex :
  lock_ok l → room l → 0 ≤ td → ex = owned l td → 0 ≤ sh ≤ lk_sharecount l → wf_call intr l sh ex flags →
  ∃ l' p, lockmgr intr td treat l flags = Ok (l', p) ∧
    moved td l l' sh ex (after_call (lk_lockholder l =? LK_KERNTHREAD) (Z.land flags LK_TYPE_MASK) sh ex p)
      0 0 0 p.
Proof.
  intros Hl Hr Htd Hex Hsh [Hintr Hty]. unfold lockmgr, after_call.
  set (type := Z.land flags LK_TYPE_MASK) in *.
  set (ext := Z.land (Z.lor flags (lk_flags l)) LK_EXTFLG_MASK) in *.
  replace (intr && negb (has_flag flags LK_NOWAIT) && negb (type =? LK_RELEASE)) with false.
  2:{ symmetry. destruct intr; [|done]. destruct (Hintr eq_refl) as [-> | ->]; [done|]. by rewrite andb_comm. }
  assert (Hnone : 0 < sh → ex = 0).
  { intros H. destruct (decide (0 < ex)) as [Hp|]; [|pose proof (ok_counts l Hl); unfold owned in Hex; case_test_in Hex; lia].
    rewrite Hex in Hp. destruct (owned_pos l td Hl Hp). lia. }
  clearbody type. destruct Hty as [->|[[-> Hrec]|[[[->| ->] Hpos]|[[-> Hpos]|[-> Hrel]]]]]; cbn [LK_SHARED LK_EXCLUSIVE LK_UPGRADE LK_EXCLUPGRADE LK_DOWNGRADE LK_RELEASE Z.eqb Pos.eqb orb].
  - by apply lockmgr_shared_spec.
  - by apply lockmgr_exclusive_spec; try apply Hsh.
  - rewrite (Hnone Hpos) in *. apply lockmgr_upgrade_spec; done || lia.
  - rewrite (Hnone Hpos) in *. unfold lockmgr_exclupgrade. case_test.
    + destruct (shareunlock_spec l Hl Hr) as (l1 & dw & -> & Hch); [lia|]. cbn [obind].
      eexists _, _. split; [done|]. apply (moved_end td (-1) 0 0 0 l); cbn; try done; lia.
    + apply lockmgr_upgrade_spec; done || lia.
  - assert (sh = 0) as -> by lia.
    destruct (downgrade_spec td l 0 ex false Hl Hr Htd Hex Hpos eq_refl) as (l' & p & E & _ & Hm).
    exists l', p. split; [done|]. by rewrite Z.add_0_r in Hm.
  - destruct (lockmgr_release_spec td l sh ex) as (l' & p & E & _ & Hm); try done. by exists l', p.
Qed.

(** A thread that has stopped waiting: the lock without it. *)
Lemma awake td l l1 :
  changed 0 (-1) 0 0 l l1 → room l → owned l td = 0 →
  lock_ok l1 ∧ room l1 ∧ owned l1 td = 0 ∧
  (flagged l LK_WANT_UPGRADE = true → flagged l1 LK_WANT_UPGRADE = true) ∧
  (flagged l LK_WANT_EXCL = true → flagged l1 LK_WANT_EXCL = true).
Proof.
  intros Hch Hr Ho. pose proof Hch as []. split_and!; [done| | |lia|lia].
  - apply (changed_room _ _ _ _ _ _ Hch); done || lia.
  - unfold owned in *. by rewrite ch_holder0, ch_excl0.
Qed.

Lemma lockmgr_wakeup_spec td l f error sh :
  lock_ok l → room l → 0 ≤ td → owned l td = 0 → 0 ≤ sh → 0 < lk_waitcount l →
  (f_site f = SiteUpgrade → flagged l LK_WANT_UPGRADE = true) →
  (f_site f = SiteExcl2 → flagged l LK_WANT_EXCL = true) →
  ∃ l' p, lockmgr_wakeup td l f error = Ok (l', p) ∧
    moved td l l' sh 0 (after_wakeup (f_site f) sh 0 p) 1 (upgrades (Sleep f)) (reserves (Sleep f)) p.
Proof.
  intros Hl Hr Htd Ho Hsh Hw Hup Hre. unfold lockmgr_wakeup.
  destruct f as [s ext dw]. cbn [f_site f_extflags f_dowakeup] in *.
  assert (Hasleep : ∀ l', changed 0 0 0 0 l l' →
    moved td l l' sh 0 (sh, 0) 1 (upgrades (Sleep (Frame s ext dw))) (reserves (Sleep (Frame s ext dw)))
      (Sleep (Frame s ext dw))).
  { intros l' Hch. apply (moved_end td 0 0 0 0 l l' sh); done || (cbn [fst]; lia). }
  assert (Hgo : ∀ l' l1 h u x p, changed 0 (-1) 0 0 l l1 →
    moved td l1 l' sh 0 h 0 u x p → moved td l l' sh 0 h 1 u x p).
  { intros l' l1 h u x p Hch Hm. apply (moved_changed td 0 (-1) 0 0 l l1); [done|]. by rewrite !Z.add_0_r. }
  destruct s; cbn [upgrades reserves] in *;
    match goal with |- context [acquire_wakeup l ext ?wanted error] =>
      pose proof (acquire_wakeup_spec l ext wanted error Hl Hr Hw) as Ha;
      destruct (acquire_wakeup l ext wanted error) as [l1 [e|]];
      [|destruct Ha; eexists _, _; split; [done|]; by apply Hasleep] end;
    destruct Ha as (Hch & Hfree & _); destruct (awake td l l1 Hch Hr Ho) as (H1 & H2 & H3 & H4 & H5).
  - destruct (shared_got_spec td l1 e dw sh) as (l' & p & -> & Hm); try done.
    { intros H. specialize (Hfree H). destruct deadlktreat; free_flags Hfree; done. }
    exists l', p. split; [done|]. apply (Hgo l' l1); [done|]. unfold after_wakeup. by destruct (granted p).
  - destruct (upgrade_got_spec td l1 e dw sh) as (l' & p & -> & Hm); try done; [by auto|].
    exists l', p. split; [done|]. apply (Hgo l' l1); [done|]. unfold after_wakeup. by destruct (granted p).
  - destruct (excl1_got_spec td l1 ext e dw sh) as (l' & p & -> & Hm); try done.
    exists l', p. split; [done|]. apply (Hgo l' l1); [done|]. unfold after_wakeup. by destruct (granted p).
  - destruct (excl2_got_spec td l1 e dw sh) as (l' & p & -> & Hm); try done; [by auto|].
    exists l', p. split; [done|]. apply (Hgo l' l1); [done|]. unfold after_wakeup. by destruct (granted p).
Qed.

End LockMgrTheory.
