(* ===== verification/LockMgrSystem.v ===== *)
(** Threads that share one lock of the lock manager: their steps, in any
    interleaving, what they hold in every state they can reach, and the two
    ways in which a wakeup is lost. *)

From Stdlib Require Import ZifyBool.
From stdpp Require Import base list gmap.
From S2P Require Import Prelude Lockf LockMgr LockMgrTheory.

Module LockMgrSystem.
Import LockMgr LockMgrTheory.

(** * Threads *)

(** A thread is outside [lockmgr]; or in ssleep(9), maybe already woken; or
    has left the spinlock with a wakeup(9) to do before it returns. *)
Inductive status :=
  | Idle
  | Waiting (f : frame) (woken : bool)
  | Waking (error : Z).

(** A thread, with the shared and exclusive locks it holds according to the
    answers it got. *)
Record thread := Thread {
  t_status : status;
  t_deadlktreat : bool;
  t_shares : Z;
  t_excl : Z
}.

Record system := System {
  lk : lock;
  threads : gmap Z thread
}.

Definition set_status (st : status) (th : thread) : thread :=
  Thread st (t_deadlktreat th) (t_shares th) (t_excl th).

(** [if (dowakeup) wakeup(lkp)] is still to come when a stretch returns. *)
Definition status_after (p : progress) : status :=
  match p with
  | Return error dowakeup => if dowakeup =? 0 then Idle else Waking error
  | Sleep f => Waiting f false
  end.

(** uiomove(9) sets TDF_DEADLKTREAT of its thread while it copies, and puts back
    what it was; uiomove_fromphys does the same. *)
Definition set_deadlktreat (b : bool) (th : thread) : thread :=
  Thread (t_status th) b (t_shares th) (t_excl th).

Definition settle (th : thread) (h : Z * Z) (p : progress) : thread :=
  Thread (status_after p) (t_deadlktreat th) (fst h) (snd h).

(** wakeup(9). *)
Definition wake (th : thread) : thread :=
  match t_status th with
  | Waiting f _ => set_status (Waiting f true) th
  | _ => th
  end.

(** ssleep(9) returns 0 to a thread that was woken; a signal or a timeout
    makes it return an error, woken or not, if the caller asked for that. *)
Definition interruptible (f : frame) : bool := has_flag (f_extflags f) (Z.lor LK_PCATCH LK_TIMELOCK).

Definition may_return (f : frame) (woken : bool) (error : Z) : Prop :=
  (woken = true ∧ error = 0) ∨ (error ≠ 0 ∧ interruptible f = true).

(** The steps of threads that make the calls [may] allows. *)
Inductive step_if (may : Z → thread → Z → Prop) (s : system) : system → Prop :=
  | step_call td th intr flags l p :
      threads s !! td = Some th → t_status th = Idle → may td th flags →
      wf_call intr (lk s) (t_shares th) (t_excl th) flags → room (lk s) →
      lockmgr intr td (t_deadlktreat th) (lk s) flags = Ok (l, p) →
      step_if may s (System l (<[td := settle th
        (after_call (lk_lockholder (lk s) =? LK_KERNTHREAD) (Z.land flags LK_TYPE_MASK) (t_shares th) (t_excl th) p)
        p]> (threads s)))
  | step_resume td th f woken error l p :
      threads s !! td = Some th → t_status th = Waiting f woken → may_return f woken error → room (lk s) →
      lockmgr_wakeup td (lk s) f error = Ok (l, p) →
      step_if may s (System l (<[td := settle th (after_wakeup (f_site f) (t_shares th) (t_excl th) p) p]> (threads s)))
  | step_wakeup td th error :
      threads s !! td = Some th → t_status th = Waking error →
      step_if may s (System (lk s) (<[td := set_status Idle th]> (wake <$> threads s)))
  | step_kernproc td th l :
      threads s !! td = Some th → t_status th = Idle →
      0 < t_excl th ∨ lk_lockholder (lk s) = LK_KERNTHREAD →
      lockmgr_kernproc td (lk s) = Ok l →
      step_if may s (System l (<[td := Thread Idle (t_deadlktreat th) (t_shares th) 0]> (threads s)))
  | step_uiomove td th b :
      threads s !! td = Some th → t_status th = Idle →
      step_if may s (System (lk s) (<[td := set_deadlktreat b th]> (threads s)))
  | step_reinit timo flags :
      step_if may s (System (lockreinit (lk s) timo flags) (threads s)).

(** All threads, whatever they call. *)
Definition any_call (td : Z) (th : thread) (flags : Z) : Prop := True.
Abbreviation step := (step_if any_call).

(** A lock that was just initialised, and threads that hold nothing. *)
Definition initial (s : system) : Prop :=
  (∃ timo flags, lk s = lockinit timo flags) ∧
  ∀ td th, threads s !! td = Some th → 0 ≤ td ∧ t_status th = Idle ∧ t_shares th = 0 ∧ t_excl th = 0.

(** * The invariant *)

Definition waiting (th : thread) : Z := match t_status th with Waiting _ _ => 1 | _ => 0 end.
Definition upgrading (th : thread) : Z :=
  match t_status th with Waiting f _ => upgrades (Sleep f) | _ => 0 end.
Definition reserving (th : thread) : Z :=
  match t_status th with Waiting f _ => reserves (Sleep f) | _ => 0 end.

(** The counts of the lock are those of the threads: what they hold, who
    waits, and who has made the two reservations. *)
Record sys_ok (s : system) : Prop := {
  so_lock : lock_ok (lk s);
  so_shares : map_sum t_shares (threads s) = lk_sharecount (lk s);
  so_waiting : map_sum waiting (threads s) = lk_waitcount (lk s);
  so_upgrading : map_sum upgrading (threads s) = Z.b2z (flagged (lk s) LK_WANT_UPGRADE);
  so_reserving : map_sum reserving (threads s) = Z.b2z (flagged (lk s) LK_WANT_EXCL);
  so_thread : ∀ td th, threads s !! td = Some th →
    0 ≤ td ∧ 0 ≤ t_shares th ∧ t_excl th = owned (lk s) td ∧ (waiting th = 1 → t_excl th = 0)
}.

Lemma waiting_settle th h p : waiting (settle th h p) = sleeps p.
Proof. destruct p; [|done]. unfold waiting, settle. cbn. by case_test. Qed.
Lemma upgrading_settle th h p : upgrading (settle th h p) = upgrades p.
Proof. destruct p; [|done]. unfold upgrading, settle. cbn. by case_test. Qed.
Lemma reserving_settle th h p : reserving (settle th h p) = reserves p.
Proof. destruct p; [|done]. unfold reserving, settle. cbn. by case_test. Qed.

Lemma moved_ok s td th l h p :
  sys_ok s → threads s !! td = Some th →
  moved td (lk s) l (t_shares th) (t_excl th) h (waiting th) (upgrading th) (reserving th) p →
  sys_ok (System l (<[td := settle th h p]> (threads s))).
Proof.
  intros [Hl Hs Hw Hu Hx Ht] Htd [Ml Ms Mw Mu Mx Mo Mother Mn Ma].
  split; cbn [lk threads]; rewrite ?(map_sum_update _ (threads s) td th) by done;
    rewrite ?waiting_settle, ?upgrading_settle, ?reserving_settle; cbn [t_shares settle]; try done; try lia.
  intros td' th'. destruct (decide (td' = td)) as [->|Hne].
  - rewrite lookup_insert_eq. intros [= <-]. destruct (Ht td th Htd) as (? & _ & _ & _).
    rewrite waiting_settle. cbn [t_shares t_excl settle]. by split_and!.
  - rewrite lookup_insert_ne by done. intros Hth'. destruct (Ht td' th' Hth') as (? & ? & ? & ?).
    rewrite Mother by done. by split_and!.
Qed.

Lemma shares_bound s td th : sys_ok s → threads s !! td = Some th → 0 ≤ t_shares th ≤ lk_sharecount (lk s).
Proof.
  intros Hok Htd. assert (H : ∀ i a, threads s !! i = Some a → 0 ≤ t_shares a).
  { intros i a Hi. apply (so_thread s Hok i a Hi). }
  split; [by apply (H td)|]. rewrite <- (so_shares s Hok). by apply (map_sum_member _ _ td).
Qed.

Lemma call_moved s td th intr flags :
  sys_ok s → threads s !! td = Some th → t_status th = Idle →
  wf_call intr (lk s) (t_shares th) (t_excl th) flags → room (lk s) →
  ∃ l p, lockmgr intr td (t_deadlktreat th) (lk s) flags = Ok (l, p) ∧
    moved td (lk s) l (t_shares th) (t_excl th)
      (after_call (lk_lockholder (lk s) =? LK_KERNTHREAD) (Z.land flags LK_TYPE_MASK) (t_shares th) (t_excl th) p)
      (waiting th) (upgrading th) (reserving th) p.
Proof.
  intros Hok Htd Hidle Hwf Hr. destruct (so_thread s Hok td th Htd) as (Hpos & _ & Hex & _).
  unfold waiting, upgrading, reserving. rewrite Hidle.
  apply (lockmgr_spec intr td (t_deadlktreat th) (lk s) flags); try done; [apply Hok|by apply (shares_bound s td)].
Qed.

Lemma waiting_bounds th : 0 ≤ waiting th ∧ 0 ≤ upgrading th ∧ 0 ≤ reserving th.
Proof.
  unfold waiting, upgrading, reserving. destruct (t_status th) as [|[[] ? ?] ?|]; cbn; lia.
Qed.

Lemma resume_moved s td th f woken error :
  sys_ok s → threads s !! td = Some th → t_status th = Waiting f woken → room (lk s) →
  ∃ l p, lockmgr_wakeup td (lk s) f error = Ok (l, p) ∧
    moved td (lk s) l (t_shares th) (t_excl th) (after_wakeup (f_site f) (t_shares th) (t_excl th) p)
      (waiting th) (upgrading th) (reserving th) p.
Proof.
  intros Hok Htd Hst Hr. destruct (so_thread s Hok td th Htd) as (Hpos & Hsh & Hex & Hw0).
  assert (Hb : ∀ i a, threads s !! i = Some a → 0 ≤ waiting a ∧ 0 ≤ upgrading a ∧ 0 ≤ reserving a)
    by (intros; apply waiting_bounds).
  pose proof (map_sum_member waiting (threads s) td th ltac:(intros; by apply waiting_bounds) Htd) as H1.
  pose proof (map_sum_member upgrading (threads s) td th ltac:(intros; by apply waiting_bounds) Htd) as H2.
  pose proof (map_sum_member reserving (threads s) td th ltac:(intros; by apply waiting_bounds) Htd) as H3.
  rewrite (so_waiting s Hok) in H1. rewrite (so_upgrading s Hok) in H2. rewrite (so_reserving s Hok) in H3.
  unfold waiting, upgrading, reserving in *. rewrite Hst in *. rewrite Hw0 in * by done.
  apply lockmgr_wakeup_spec; try done; try apply Hok; try lia.
  - intros E. destruct f as [[] ? ?]; try done. cbn in H2. lia.
  - intros E. destruct f as [[] ? ?]; try done. cbn in H3. lia.
Qed.

Lemma wake_fields th :
  t_shares (wake th) = t_shares th ∧ t_excl (wake th) = t_excl th ∧ waiting (wake th) = waiting th ∧
  upgrading (wake th) = upgrading th ∧ reserving (wake th) = reserving th ∧
  t_deadlktreat (wake th) = t_deadlktreat th.
Proof. unfold wake, waiting, upgrading, reserving. by destruct (t_status th) eqn:E; rewrite ?E. Qed.

Lemma wake_ok s : sys_ok s → sys_ok (System (lk s) (wake <$> threads s)).
Proof.
  intros [Hl Hs Hw Hu Hx Ht]. split; cbn [lk threads]; rewrite ?map_sum_fmap; try done.
  - rewrite <- Hs. apply map_sum_ext. intros. apply wake_fields.
  - rewrite <- Hw. apply map_sum_ext. intros. apply wake_fields.
  - rewrite <- Hu. apply map_sum_ext. intros. apply wake_fields.
  - rewrite <- Hx. apply map_sum_ext. intros. apply wake_fields.
  - intros td th. rewrite lookup_fmap. intros (th0 & H0 & ->)%fmap_Some.
    destruct (wake_fields th0) as (-> & -> & -> & _). by apply Ht.
Qed.


Lemma initial_ok s : initial s → sys_ok s.
Proof.
  intros [(timo & flags & El) Hth].
  assert (Hs : ∀ i th, threads s !! i = Some th → t_shares th = 0 ∧ waiting th = 0 ∧ upgrading th = 0 ∧ reserving th = 0).
  { intros i th Hi. destruct (Hth i th Hi) as (_ & Hst & ? & _).
    unfold waiting, upgrading, reserving. by rewrite Hst. }
  assert (Hf : ∀ f, has_flag LK_EXTFLG_MASK f = false → flagged (lk s) f = false).
  { intros f Hm. rewrite El. unfold flagged, lockinit, has_flag in *. cbn [lk_flags].
    apply negb_false_iff, Z.eqb_eq in Hm. by rewrite <- Z.land_assoc, Hm, Z.land_0_r. }
  split; rewrite ?(Hf LK_WANT_UPGRADE), ?(Hf LK_WANT_EXCL) by done; rewrite ?El; cbn;
    try (apply map_sum_zero; intros i th Hi; by apply (Hs i)).
  - rewrite <- El. split; rewrite ?Hf by done; rewrite ?El; cbn; done || (left; done) || lia.
  - intros td th Htd. destruct (Hth td th Htd) as (? & Hst & -> & ->). split_and!; try done.
    unfold owned, lockinit. cbn. by case_test.
Qed.

Lemma kernproc_ok s td th l :
  sys_ok s → threads s !! td = Some th → t_status th = Idle →
  0 < t_excl th ∨ lk_lockholder (lk s) = LK_KERNTHREAD →
  lockmgr_kernproc td (lk s) = Ok l →
  sys_ok (System l (<[td := Thread Idle (t_deadlktreat th) (t_shares th) 0]> (threads s))).
Proof.
  intros Hok Htd Hst Hor. destruct (so_thread s Hok td th Htd) as (Hpos & Hsh & Hex & _).
  unfold lockmgr_kernproc, kkassert. intros Hk.
  assert (Hl : l = set_lockholder LK_KERNTHREAD (lk s) ∧
    (lk_lockholder (lk s) = td ∨ lk_lockholder (lk s) = LK_KERNTHREAD)).
  { destruct (lk_lockholder (lk s) =? LK_KERNTHREAD) eqn:E; cbn [negb] in Hk; bool_prop.
    - injection Hk as <-. split; [|by right]. destruct (lk s); cbn in *. by subst.
    - destruct (lk_lockholder (lk s) =? td) eqn:E2; [|done]. injection Hk as <-. bool_prop. split; [done|by left]. }
  destruct Hl as [-> Hhold]. pose proof (so_lock s Hok) as Hl.
  assert (Hne : lk_exclusivecount (lk s) ≠ 0).
  { pose proof (ok_holder _ Hl). unfold LK_NOTHREAD, LK_KERNTHREAD in *. lia. }
  replace th with (Thread (t_status th) (t_deadlktreat th) (t_shares th) (t_excl th)) in Htd by (by destruct th).
  destruct Hok as [_ Hs Hw Hu Hx Ht].
  split; cbn [lk threads]; rewrite ?(map_sum_update _ (threads s) td _ _ Htd);
    cbn [t_shares]; unfold waiting, upgrading, reserving in *; cbn [t_status]; rewrite ?Hst;
    try (cbn [lk_sharecount lk_waitcount set_lockholder] in *; lia).
  - lock_open. split; flags; unfold LK_KERNTHREAD, LK_NOTHREAD in *; lia.
  - cbn [upgrades]. rewrite Z.add_0_r. done.
  - rewrite Z.add_0_r. done.
  - intros td' th'. destruct (decide (td' = td)) as [->|Hd].
    + rewrite lookup_insert_eq. intros [= <-]. cbn. split_and!; try done. unfold owned. cbn [lk_lockholder lk_exclusivecount set_lockholder]. owner_tac.
    + rewrite lookup_insert_ne by done. intros H'. destruct (Ht td' th' H') as (? & ? & E & ?).
      split_and!; try done. rewrite E. unfold owned. cbn [lk_lockholder lk_exclusivecount set_lockholder]. owner_tac.
Qed.

Lemma reinit_flag l timo flags f :
  has_flag LK_EXTFLG_MASK f = false → flagged (lockreinit l timo flags) f = flagged l f.
Proof.
  intros Hm. unfold flagged, lockreinit. cbn [lk_flags]. rewrite has_flag_lor, has_flag_ldiff.
  unfold has_flag in *. apply negb_false_iff, Z.eqb_eq in Hm.
  rewrite <- (Z.land_assoc flags), Hm, Z.land_0_r, orb_false_r. do 2 f_equal.
  apply Z.bits_inj'. intros i Hi. apply (f_equal (λ x, Z.testbit x i)) in Hm.
  rewrite Z.land_spec, Z.bits_0 in Hm. rewrite !Z.land_spec, Z.ldiff_spec.
  destruct (Z.testbit f i); [|done]. rewrite andb_true_r in Hm. by rewrite Hm.
Qed.

Lemma reinit_ok s timo flags : sys_ok s → sys_ok (System (lockreinit (lk s) timo flags) (threads s)).
Proof.
  intros [[] Hs Hw Hu Hx Ht]. split; cbn [lk threads]; rewrite ?reinit_flag by done; try done.
  split; rewrite ?reinit_flag by done; done.
Qed.

Lemma uiomove_ok s td th b : sys_ok s → threads s !! td = Some th →
  sys_ok (System (lk s) (<[td := set_deadlktreat b th]> (threads s))).
Proof.
  intros [Hl Hs Hw Hu Hx Ht] Htd. split; cbn [lk threads]; rewrite ?(map_sum_update _ (threads s) td _ _ Htd);
    change (t_shares (set_deadlktreat b th)) with (t_shares th); change (waiting (set_deadlktreat b th)) with (waiting th);
    change (upgrading (set_deadlktreat b th)) with (upgrading th); change (reserving (set_deadlktreat b th)) with (reserving th);
    rewrite ?Z.add_simpl_r; try done; try lia.
  intros td' th'. destruct (decide (td' = td)) as [->|Hne]; [|rewrite lookup_insert_ne by done; apply Ht].
  rewrite lookup_insert_eq. intros [= <-]. apply (Ht td th Htd).
Qed.

Lemma step_ok may s s' : sys_ok s → step_if may s s' → sys_ok s'.
Proof.
  intros Hok [td th intr flags l p Htd Hst _ Hwf Hr E|td th f woken error l p Htd Hst _ Hr E|td th error Htd Hst
    |td th l Htd Hst Hor E|td th b Htd Hst|timo flags].
  - destruct (call_moved s td th intr flags) as (l' & p' & E' & Hm); try done.
    rewrite E in E'. injection E' as <- <-. by apply moved_ok.
  - destruct (resume_moved s td th f woken error) as (l' & p' & E' & Hm); try done.
    rewrite E in E'. injection E' as <- <-. by apply moved_ok.
  - pose proof (wake_ok s Hok) as Hok'.
    pose proof (moved_ok (System (lk s) (wake <$> threads s)) td th (lk s) (t_shares th, t_excl th) (Return 0 0) Hok') as Hm.
    cbn [lk threads] in Hm. apply Hm.
    + rewrite lookup_fmap, Htd. cbn. unfold wake. by rewrite Hst.
    + destruct (so_thread s Hok td th Htd) as (? & ? & Hex & _).
      unfold waiting, upgrading, reserving. rewrite Hst. split; try done. apply Hok.
  - by apply (kernproc_ok s td th).
  - by apply uiomove_ok.
  - by apply reinit_ok.
Qed.

Lemma reachable_ok s0 s : initial s0 → rtc step s0 s → sys_ok s.
Proof.
  intros H0 Hr. apply initial_ok in H0. induction Hr as [|s0 s1 s2 Hs _ IH]; [done|].
  apply IH. by apply (step_ok any_call s0).
Qed.


Lemma owned_status s td th :
  sys_ok s → threads s !! td = Some th →
  (lockstatus (lk s) (Some td) = LK_EXCLUSIVE ↔ 0 < t_excl th).
Proof.
  intros Hok Htd. destruct (so_thread s Hok td th Htd) as (Hpos & _ & -> & _).
  pose proof (ok_counts _ (so_lock s Hok)). unfold lockstatus, owned, LK_EXCLUSIVE, LK_EXCLOTHER, LK_SHARED.
  repeat case_test; bool_prop; lia.
Qed.

(** C6: threads that use a lock as they may, in any interleaving of calls,
    sleeps, wakeups, signals and timeouts: while one of them holds the lock
    exclusively no other holds it at all and nobody holds it shared, the
    lock's count of shared locks is the number of them the threads hold,
    lockstatus() answers LK_EXCLUSIVE to exactly the owner, and no call and no
    continuation of a call can panic. *)
Theorem lockmgr_safe s0 s :
  initial s0 → rtc step s0 s →
  (∀ td th td' th', threads s !! td = Some th → threads s !! td' = Some th' → 0 < t_excl th →
     t_shares th' = 0 ∧ (td' ≠ td → t_excl th' = 0)) ∧
  map_sum t_shares (threads s) = lk_sharecount (lk s) ∧
  (∀ td th, threads s !! td = Some th → lockstatus (lk s) (Some td) = LK_EXCLUSIVE ↔ 0 < t_excl th) ∧
  (room (lk s) → ∀ td th, threads s !! td = Some th →
     match t_status th with
     | Idle => ∀ intr flags, wf_call intr (lk s) (t_shares th) (t_excl th) flags →
         ∃ l p, lockmgr intr td (t_deadlktreat th) (lk s) flags = Ok (l, p)
     | Waiting f _ => ∀ error, ∃ l p, lockmgr_wakeup td (lk s) f error = Ok (l, p)
     | Waking _ => True
     end).
Proof.
  intros H0 Hr. pose proof (reachable_ok s0 s H0 Hr) as Hok. pose proof (so_lock s Hok) as Hl.
  split_and!; [|apply Hok|by intros; apply owned_status|].
  - intros td th td' th' Htd Htd' Hpos.
    destruct (so_thread s Hok td th Htd) as (_ & _ & Hex & _). rewrite Hex in Hpos.
    destruct (owned_pos _ _ Hl Hpos) as (Eo & _ & Es).
    pose proof (shares_bound s td' th' Hok Htd'). split; [lia|].
    intros Hne. destruct (so_thread s Hok td' th' Htd') as (_ & _ & -> & _).
    unfold owned. rewrite Eo. by replace (td =? td') with false by lia.
  - intros Hroom td th Htd. destruct (t_status th) as [|f woken|] eqn:Hst; [| |done].
    + intros intr flags Hwf. destruct (call_moved s td th intr flags) as (l & p & E & _); try done. by exists l, p.
    + intros error. destruct (resume_moved s td th f woken error) as (l & p & E & _); try done. by exists l, p.
Qed.

(** * A deadlock *)

(** Two threads sleep, one for an upgrade and one for the exclusive lock with
    the lock reserved; nobody holds the lock; and of the others some sleep
    until these two are done. *)
Definition bystander (th : thread) : Prop :=
  match t_status th with
  | Idle => True
  | Waiting (Frame (SiteShared false) _ 0) _ | Waiting (Frame SiteExcl1 _ 0) _ => True
  | _ => False
  end.

Definition stuck (s : system) (a : Z) (sa : site) : Prop :=
  ∃ th ext dw, threads s !! a = Some th ∧ t_status th = Waiting (Frame sa ext dw) false ∧
    interruptible (Frame sa ext dw) = false.

Record dead (a b : Z) (s : system) : Prop := {
  dd_ok : sys_ok s;
  dd_upgrade : flagged (lk s) LK_WANT_UPGRADE = true;
  dd_reserve : flagged (lk s) LK_WANT_EXCL = true;
  dd_free : lk_sharecount (lk s) = 0 ∧ lk_exclusivecount (lk s) = 0;
  dd_a : stuck s a SiteUpgrade;
  dd_b : stuck s b SiteExcl2;
  dd_threads : ∀ td th, threads s !! td = Some th → td ≠ a → td ≠ b → bystander th
}.

(** Threads that do not ask to share the lock from within uiomove(9): such a
    request does not wait for the reservations. *)
Definition outside_uiomove (td : Z) (th : thread) (flags : Z) : Prop :=
  Z.land flags LK_TYPE_MASK = LK_SHARED → t_deadlktreat th = false.

Lemma dead_holds a b s td th :
  dead a b s → threads s !! td = Some th → t_shares th = 0 ∧ t_excl th = 0.
Proof.
  intros [Hok _ _ [H1 H2] _ _ _] Htd. pose proof (shares_bound s td th Hok Htd).
  destruct (so_thread s Hok td th Htd) as (_ & _ & -> & _). unfold owned. case_test; lia.
Qed.

Lemma dead_holder a b s : dead a b s → lk_lockholder (lk s) = LK_NOTHREAD.
Proof. intros [Hok _ _ [H1 H2] _ _ _]. pose proof (ok_holder _ (so_lock s Hok)). lia. Qed.

(** A request for a lock that both reservations bar ends in a sleep or in an
    error, without a wakeup. *)
Definition turned_away (l : lock) (s : site) (r : outcome (lock * progress)) : Prop :=
  ∃ l' p, r = Ok (l', p) ∧ lk_sharecount l' = lk_sharecount l ∧ lk_exclusivecount l' = lk_exclusivecount l ∧
    flagged l' LK_WANT_UPGRADE = flagged l LK_WANT_UPGRADE ∧ flagged l' LK_WANT_EXCL = flagged l LK_WANT_EXCL ∧
    granted p = false ∧
    match p with Return _ dw => dw = 0 | Sleep f => f_site f = s ∧ f_dowakeup f = 0 end.

Lemma barred_shared l : flagged l LK_WANT_UPGRADE = true → flagged l (wanted_shared false) = true.
Proof. intros H. unfold wanted_shared, flagged in *. rewrite !has_flag_lor_r, H. by rewrite orb_true_r. Qed.

Lemma barred_excl1 l : flagged l LK_WANT_EXCL = true → flagged l wanted_excl1 = true.
Proof. intros H. unfold wanted_excl1, flagged in *. rewrite !has_flag_lor_r, H. by rewrite orb_true_r. Qed.

Lemma acquire_barred l ext wanted : flagged l wanted = true →
  acquire l ext wanted = (l, Some EBUSY) ∨
  acquire l ext wanted = (set_waitcount (s32 (lk_waitcount l + 1)) (flag_on LK_WAIT_NONZERO l), None).
Proof.
  intros H. unfold acquire, acquire_loop. rewrite H, andb_true_r. case_test; [by left|by right].
Qed.

Lemma turned_away_sleep l s ext :
  turned_away l s (Ok (set_waitcount (s32 (lk_waitcount l + 1)) (flag_on LK_WAIT_NONZERO l), Sleep (Frame s ext 0))).
Proof. eexists _, _. split; [done|]. split_and!; flags; done. Qed.

Lemma turned_away_error l s e : e ≠ 0 → turned_away l s (Ok (l, Return e 0)).
Proof. intros H. eexists _, _. split; [done|]. split_and!; try done. cbn. lia. Qed.

Lemma shared_barred td l ext :
  lk_lockholder l ≠ td → flagged l LK_WANT_UPGRADE = true →
  turned_away l (SiteShared false) (lockmgr_shared td false l ext).
Proof.
  intros Hh Hf. unfold lockmgr_shared. replace (lk_lockholder l =? td) with false by lia. cbn [negb].
  destruct (acquire_barred l ext _ (barred_shared l Hf)) as [-> | ->]; [by apply turned_away_error|apply turned_away_sleep].
Qed.

Lemma exclusive_barred td l ext :
  lk_lockholder l ≠ td → flagged l LK_WANT_EXCL = true →
  turned_away l SiteExcl1 (lockmgr_exclusive td l ext 0).
Proof.
  intros Hh Hf. unfold lockmgr_exclusive. replace (lk_lockholder l =? td) with false by lia. cbn [negb andb].
  case_test; [by apply turned_away_error|].
  destruct (acquire_barred l ext _ (barred_excl1 l Hf)) as [-> | ->]; [by apply turned_away_error|apply turned_away_sleep].
Qed.


Lemma wakeup_barred td l s ext error :
  s = SiteShared false ∨ s = SiteExcl1 → flagged l LK_WANT_UPGRADE = true → flagged l LK_WANT_EXCL = true →
  turned_away l s (lockmgr_wakeup td l (Frame s ext 0) error).
Proof.
  intros Hs Hu Hx. unfold lockmgr_wakeup, acquire_wakeup. cbn [f_site f_extflags f_dowakeup].
  set (l1 := if lk_waitcount l =? 1 then _ else _).
  assert (H1 : lk_sharecount l1 = lk_sharecount l ∧ lk_exclusivecount l1 = lk_exclusivecount l ∧
    flagged l1 LK_WANT_UPGRADE = flagged l LK_WANT_UPGRADE ∧ flagged l1 LK_WANT_EXCL = flagged l LK_WANT_EXCL).
  { unfold l1. case_test; split_and!; flags; done. }
  clearbody l1. destruct H1 as (E1 & E2 & E3 & E4). rewrite Hu in E3. rewrite Hx in E4.
  assert (Herr : ∀ e, e ≠ 0 → turned_away l s (Ok (l1, Return e 0))).
  { intros e He. eexists _, _. split; [done|]. rewrite E3, E4, Hu, Hx. split_and!; try done. cbn. lia. }
  assert (Hsleep : ∀ w, flagged l1 w = true → acquire_loop l1 w =
      (set_waitcount (s32 (lk_waitcount l1 + 1)) (flag_on LK_WAIT_NONZERO l1), None)).
  { intros w Hw. unfold acquire_loop. by rewrite Hw. }
  assert (Hend : turned_away l s
      (Ok (set_waitcount (s32 (lk_waitcount l1 + 1)) (flag_on LK_WAIT_NONZERO l1), Sleep (Frame s ext 0)))).
  { destruct (turned_away_sleep l1 s ext) as (l' & p & [= <- <-] & H1 & H2 & H3 & H4 & H5 & H6).
    eexists _, _. split; [done|]. rewrite H3, H4, E3, E4. split_and!; try done; congruence. }
  destruct Hs as [-> | ->].
  - destruct (negb (error =? 0)) eqn:Ee; [unfold shared_got; rewrite Ee; apply Herr; lia|].
    destruct (has_flag ext LK_SLEEPFAIL); [by apply Herr|].
    rewrite (Hsleep (wanted_shared false)) by (by apply barred_shared). done.
  - destruct (negb (error =? 0)) eqn:Ee; [unfold excl1_got; rewrite Ee; apply Herr; lia|].
    destruct (has_flag ext LK_SLEEPFAIL); [by apply Herr|].
    rewrite (Hsleep wanted_excl1) by (by apply barred_excl1). done.
Qed.

Lemma stuck_idle s a sa th : stuck s a sa → threads s !! a = Some th → t_status th ≠ Idle.
Proof. intros (th0 & ext & dw & H0 & Hst & _) H. rewrite H in H0. injection H0 as ->. by rewrite Hst. Qed.

Lemma stuck_resume s a sa th f woken error :
  stuck s a sa → threads s !! a = Some th → t_status th = Waiting f woken → ¬ may_return f woken error.
Proof.
  intros (th0 & ext & dw & H0 & Hst & Hi) H. rewrite H in H0. injection H0 as ->. rewrite Hst.
  intros [= <- <-] [[? _]|[_ ?]]; congruence.
Qed.

Lemma stuck_insert s l a sa td th : stuck s a sa → td ≠ a → stuck (System l (<[td := th]> (threads s))) a sa.
Proof.
  intros (th0 & ext & dw & H0 & Hst & Hi) Hne. exists th0, ext, dw. cbn [threads].
  by rewrite lookup_insert_ne.
Qed.

(** A step of a bystander that is turned away changes nothing. *)
Lemma dead_turned a b s td th s0 l p h :
  dead a b s → sys_ok (System l (<[td := settle th h p]> (threads s))) →
  threads s !! td = Some th → td ≠ a → td ≠ b → s0 = SiteShared false ∨ s0 = SiteExcl1 →
  turned_away (lk s) s0 (Ok (l, p)) → dead a b (System l (<[td := settle th h p]> (threads s))).
Proof.
  intros [Hok Hu Hx [Hf1 Hf2] Ha Hb Hth] Hok' Htd Hna Hnb Hs0 (l' & p' & [= <- <-] & E1 & E2 & E3 & E4 & Hg & Hp).
  split; cbn [lk threads]; try congruence; try (by apply stuck_insert).
  - split; congruence.
  - intros td' th'. destruct (decide (td' = td)) as [->|Hne].
    + rewrite lookup_insert_eq. intros [= <-] _ _.
      unfold bystander, settle. cbn [t_status]. destruct p as [e dw|[s1 ext dw]].
      * subst dw. done.
      * destruct Hp as [Hs1 Hdw]. cbn in Hs1, Hdw. subst s1 dw. by destruct Hs0 as [-> | ->].
    + rewrite lookup_insert_ne by done. apply Hth.
Qed.

Lemma dead_step a b s s' : dead a b s → step_if outside_uiomove s s' → dead a b s'.
Proof.
  intros Hd Hs. pose proof (step_ok _ s s' (dd_ok _ _ _ Hd) Hs) as Hok'. pose proof (dead_holder a b s Hd) as Hh.
  pose proof Hd as [Hok Hu Hx Hf Ha Hb Hth].
  destruct Hs as [td th intr flags l p Htd Hst Hmay Hwf Hr E|td th f woken error l p Htd Hst Hm Hr E|td th error Htd Hst
    |td th l Htd Hst Hor E|td th t Htd Hst|timo flags].
  - assert (td ≠ a) by (intros ->; by apply (stuck_idle s a SiteUpgrade th Ha)).
    assert (td ≠ b) by (intros ->; by apply (stuck_idle s b SiteExcl2 th Hb)).
    destruct (dead_holds a b s td th Hd Htd) as [Es Ee]. rewrite Es, Ee in Hwf.
    destruct (so_thread s Hok td th Htd) as (Hpos & _).
    assert (Hne : lk_lockholder (lk s) ≠ td) by (rewrite Hh; unfold LK_NOTHREAD; lia).
    unfold lockmgr in E. case_test_in E; [done|].
    destruct Hwf as [_ [Ety|[[Ety _]|[[_ ?]|[[_ ?]|[_ Hrel]]]]]]; try lia;
      [| |rewrite Hh in Hrel; by destruct Hrel as [?|[?|?]]]; rewrite Ety in E; cbn [LK_SHARED LK_EXCLUSIVE LK_UPGRADE LK_EXCLUPGRADE LK_DOWNGRADE LK_RELEASE Z.eqb Pos.eqb] in E.
    + apply (dead_turned a b s td th (SiteShared false)); try done; [by left|]. rewrite (Hmay Ety) in E. rewrite <- E. by apply shared_barred.
    + apply (dead_turned a b s td th SiteExcl1); try done; [by right|]. rewrite <- E. by apply exclusive_barred.
  - assert (td ≠ a) by (intros ->; by apply (stuck_resume s a SiteUpgrade th f woken error Ha)).
    assert (td ≠ b) by (intros ->; by apply (stuck_resume s b SiteExcl2 th f woken error Hb)).
    pose proof (Hth td th Htd ltac:(done) ltac:(done)) as Hby. unfold bystander in Hby.
    rewrite Hst in Hby. destruct f as [s0 ext dw].
    assert (Hs0 : dw = 0 ∧ (s0 = SiteShared false ∨ s0 = SiteExcl1)).
    { destruct s0 as [[]| | |]; destruct dw; tauto. }
    destruct Hs0 as [-> Hs0]. apply (dead_turned a b s td th s0); try done. rewrite <- E. by apply wakeup_barred.
  - exfalso. destruct (decide (td = a)) as [->|Hna].
    { destruct Ha as (th0 & ext & dw & H0 & Hst0 & _). congruence. }
    destruct (decide (td = b)) as [->|Hnb].
    { destruct Hb as (th0 & ext & dw & H0 & Hst0 & _). congruence. }
    pose proof (Hth td th Htd Hna Hnb) as Hby. unfold bystander in Hby. by rewrite Hst in Hby.
  - exfalso. destruct (dead_holds a b s td th Hd Htd) as [_ Ee]. destruct Hor as [?|Hk]; [lia|]. rewrite Hh in Hk. done.
  - assert (td ≠ a) by (intros ->; by apply (stuck_idle s a SiteUpgrade th Ha)).
    assert (td ≠ b) by (intros ->; by apply (stuck_idle s b SiteExcl2 th Hb)).
    split; cbn [lk threads]; try done; try (by apply stuck_insert). intros td' th'.
    destruct (decide (td' = td)) as [->|Hne]; [|rewrite lookup_insert_ne by done; apply Hth].
    rewrite lookup_insert_eq. intros [= <-]. unfold bystander, set_deadlktreat. cbn [t_status]. by rewrite Hst.
  - split; cbn [lk threads]; rewrite ?reinit_flag by done; done.
Qed.


Lemma dead_forever a b s s' : dead a b s → rtc (step_if outside_uiomove) s s' → dead a b s'.
Proof. intros Hd Hr. induction Hr as [|s0 s1 s2 Hs _ IH]; [done|]. apply IH. by apply (dead_step a b s0). Qed.

(** One call, with its result given. *)
Lemma call_step l0 m td th flags l p h :
  m !! td = Some th → t_status th = Idle →
  wf_call false l0 (t_shares th) (t_excl th) flags → room l0 →
  lockmgr false td (t_deadlktreat th) l0 flags = Ok (l, p) →
  after_call (lk_lockholder l0 =? LK_KERNTHREAD) (Z.land flags LK_TYPE_MASK) (t_shares th) (t_excl th) p = h →
  step (System l0 m) (System l (<[td := settle th h p]> m)).
Proof. intros Htd Hst Hwf Hr E <-. by apply (step_call any_call (System l0 m) td th false flags). Qed.

(** The lock in the four steps below: held shared by one thread, by two, by
    one of them with the other waiting to upgrade, and with both waiting. *)
Definition dl_lock (flags sharecount waitcount timo : Z) : lock :=
  Lock flags sharecount waitcount 0 timo LK_NOTHREAD.

Lemma two_upgrades s0 timo th1 th2 :
  lk s0 = lockinit timo 0 → threads s0 !! 1 = Some th1 → threads s0 !! 2 = Some th2 →
  t_status th1 = Idle → t_status th2 = Idle → t_shares th1 = 0 → t_shares th2 = 0 →
  t_excl th1 = 0 → t_excl th2 = 0 →
  rtc step s0 (System (dl_lock 0x200300 0 2 timo)
    (<[2 := settle th2 (0, 0) (Sleep (Frame SiteExcl2 0 2))]>
      (<[1 := settle th1 (0, 0) (Sleep (Frame SiteUpgrade 0 0))]> (threads s0)))).
Proof.
  intros El H1 H2 Hs1 Hs2 Hn1 Hn2 He1 He2. destruct s0 as [l0 m]. cbn [lk threads] in *. subst l0.
  set (t1 := settle th1 (1, 0) (Return 0 0)). set (t2 := settle th2 (1, 0) (Return 0 0)).
  set (u1 := settle th1 (0, 0) (Sleep (Frame SiteUpgrade 0 0))).
  apply (rtc_l _ _ (System (dl_lock 0x100000 1 0 timo) (<[1 := t1]> m))).
  { apply (call_step _ m 1 th1 LK_SHARED); rewrite ?Hn1, ?He1; try done.
    split; [done|by left]. }
  apply (rtc_l _ _ (System (dl_lock 0x100000 2 0 timo) (<[2 := t2]> (<[1 := t1]> m)))).
  { apply (call_step _ _ 2 th2 LK_SHARED); rewrite ?Hn2, ?He2; try done; [by rewrite lookup_insert_ne| |by destruct (t_deadlktreat th2)].
    split; [done|by left]. }
  assert (Hup : ∀ l, wf_call false l 1 0 LK_UPGRADE).
  { intros l. split; [done|]. right. right. left. split; [by left|done]. }
  rewrite (insert_insert_ne m) by done.
  apply (rtc_l _ _ (System (dl_lock 0x300100 1 1 timo) (<[1 := u1]> (<[2 := t2]> m)))).
  { rewrite <- (insert_insert_eq (<[2 := t2]> m) 1 u1 t1).
    apply (call_step _ _ 1 t1 LK_UPGRADE); try done. by rewrite lookup_insert_eq. }
  apply rtc_once. rewrite (insert_insert_ne m 1 2) by done.
  match goal with |- step _ (System _ (<[2 := ?u2]> _)) => rewrite <- (insert_insert_eq (<[1 := u1]> m) 2 u2 t2) end.
  apply (call_step _ _ 2 t2 LK_UPGRADE); try done. by rewrite lookup_insert_eq.
Qed.

(** C16: two threads that hold a lock shared and both ask for an upgrade can
    put each other and the lock to sleep for good: the second upgrade gives up
    the last shared lock but waits for the first one before it does the
    wakeup this calls for.  From then on, whatever any thread does, other than
    asking to share the lock while it copies in uiomove(9), nobody ever holds
    the lock again and the two never run again. *)
Theorem lockmgr_upgrade_deadlock s0 timo th1 th2 :
  initial s0 → lk s0 = lockinit timo 0 → threads s0 !! 1 = Some th1 → threads s0 !! 2 = Some th2 →
  ∃ s, rtc step s0 s ∧
    ∀ s', rtc (step_if outside_uiomove) s s' →
      (∀ td th, threads s' !! td = Some th → t_shares th = 0 ∧ t_excl th = 0) ∧
      (∃ th f, threads s' !! 1 = Some th ∧ t_status th = Waiting f false) ∧
      (∃ th f, threads s' !! 2 = Some th ∧ t_status th = Waiting f false).
Proof.
  intros H0 El H1 H2. pose proof (proj2 H0) as Hi.
  destruct (Hi 1 th1 H1) as (_ & A1 & A2 & A3). destruct (Hi 2 th2 H2) as (_ & B1 & B2 & B3).
  pose proof (two_upgrades s0 timo th1 th2 El H1 H2 A1 B1 A2 B2 A3 B3) as Hr.
  eexists. split; [exact Hr|]. intros s' Hr'.
  assert (Hdead : dead 1 2 s').
  { refine (dead_forever 1 2 _ s' _ Hr'). split; cbn [lk threads]; try done.
    - by apply (reachable_ok s0).
    - eexists _, 0, 0. cbn [threads]. rewrite lookup_insert_ne, lookup_insert_eq by done. done.
    - eexists _, 0, 2. cbn [threads]. rewrite lookup_insert_eq. done.
    - intros td th Htd Hn1 Hn2. rewrite !lookup_insert_ne in Htd by done.
      destruct (Hi td th Htd) as (_ & Hst & _). unfold bystander. by rewrite Hst. }
  split_and!.
  - intros td th. by apply (dead_holds 1 2).
  - destruct (dd_a _ _ _ Hdead) as (th & ext & dw & ? & ? & _). by eexists _, _.
  - destruct (dd_b _ _ _ Hdead) as (th & ext & dw & ? & ? & _). by eexists _, _.
Qed.


(** * Runs *)

(** The steps as a function, to follow a run on concrete threads. *)
Inductive event :=
  | ECall (td flags : Z)
  | EResume (td error : Z)
  | EWakeup (td : Z)
  | EUiomove (td : Z) (b : bool).

#[export] Instance wf_call_dec intr l sh ex flags : Decision (wf_call intr l sh ex flags).
Proof. unfold wf_call. apply _. Defined.
#[export] Instance room_dec l : Decision (room l).
Proof. unfold room. apply _. Defined.
#[export] Instance may_return_dec f woken error : Decision (may_return f woken error).
Proof. unfold may_return. apply _. Defined.

Definition exec (s : system) (e : event) : option system :=
  match e with
  | ECall td flags =>
      th ← threads s !! td;
      match t_status th, lockmgr false td (t_deadlktreat th) (lk s) flags with
      | Idle, Ok (l, p) =>
          if decide (wf_call false (lk s) (t_shares th) (t_excl th) flags ∧ room (lk s)) then
            let h := after_call (lk_lockholder (lk s) =? LK_KERNTHREAD) (Z.land flags LK_TYPE_MASK)
                       (t_shares th) (t_excl th) p in
            Some (System l (<[td := settle th h p]> (threads s)))
          else None
      | _, _ => None
      end
  | EResume td error =>
      th ← threads s !! td;
      match t_status th with
      | Waiting f woken =>
          match lockmgr_wakeup td (lk s) f error with
          | Ok (l, p) =>
              if decide (may_return f woken error ∧ room (lk s)) then
                Some (System l (<[td := settle th (after_wakeup (f_site f) (t_shares th) (t_excl th) p) p]> (threads s)))
              else None
          | _ => None
          end
      | _ => None
      end
  | EWakeup td =>
      th ← threads s !! td;
      match t_status th with
      | Waking _ => Some (System (lk s) (<[td := set_status Idle th]> (wake <$> threads s)))
      | _ => None
      end
  | EUiomove td b =>
      th ← threads s !! td;
      match t_status th with
      | Idle => Some (System (lk s) (<[td := set_deadlktreat b th]> (threads s)))
      | _ => None
      end
  end.

Fixpoint run (s : system) (es : list event) : option system :=
  match es with
  | [] => Some s
  | e :: es => s' ← exec s e; run s' es
  end.

Lemma exec_step s e s' : exec s e = Some s' → step s s'.
Proof.
  destruct e as [td flags|td error|td|td b]; cbn [exec]; intros (th & Htd & H)%bind_Some.
  - destruct (t_status th) eqn:Hst; [|done..].
    destruct (lockmgr false td (t_deadlktreat th) (lk s) flags) as [[l p]| | |] eqn:E; [|done..].
    case_decide as Hd; [|done]. injection H as <-. destruct Hd. by apply (step_call any_call s td th false flags).
  - destruct (t_status th) as [|f woken|] eqn:Hst; [done| |done].
    destruct (lockmgr_wakeup td (lk s) f error) as [[l p]| | |] eqn:E; [|done..].
    case_decide as Hd; [|done]. injection H as <-. destruct Hd. by apply (step_resume any_call s td th f woken error).
  - destruct (t_status th) as [| |e] eqn:Hst; [done..|]. injection H as <-. by apply (step_wakeup any_call s td th e).
  - destruct (t_status th) eqn:Hst; [|done..]. injection H as <-. by apply (step_uiomove any_call s td th b).
Qed.

Lemma run_reach s es s' : run s es = Some s' → rtc step s s'.
Proof.
  revert s. induction es as [|e es IH]; intros s; cbn [run].
  - intros [= <-]. apply rtc_refl.
  - intros (s1 & H1 & H2)%bind_Some. apply (rtc_l _ _ s1); [by apply (exec_step s e)|by apply IH].
Qed.

Definition ex_idle : thread := Thread Idle false 0 0.
Definition ex_system : system := System (lockinit 0 0) {[1 := ex_idle; 2 := ex_idle; 3 := ex_idle]}.

Lemma ex_initial : initial ex_system.
Proof.
  split; [by exists 0, 0|]. intros td th. cbn [threads ex_system].
  rewrite !lookup_insert_Some, lookup_singleton_Some.
  intros [[<- <-]|[_ [[<- <-]|[_ [<- <-]]]]]; done.
Qed.

(** Thread 1 holds the lock exclusively and thread 2 waits for it. *)
Definition ex_events : list event := [ECall 1 LK_EXCLUSIVE; ECall 2 LK_SHARED].
Definition ex_held : system := default ex_system (run ex_system ex_events).

Lemma ex_held_reachable : rtc step ex_system ex_held.
Proof. apply (run_reach _ ex_events). vm_compute. reflexivity. Qed.

Lemma lockmgr_safe_witness : initial ex_system ∧ map_sum t_shares (threads ex_held) = lk_sharecount (lk ex_held).
Proof. split; [apply ex_initial|]. apply (lockmgr_safe ex_system ex_held ex_initial ex_held_reachable). Defined.

Lemma lockmgr_upgrade_deadlock_witness :
  ∃ s, rtc step ex_system s ∧
    ∀ s', rtc (step_if outside_uiomove) s s' →
      (∀ td th, threads s' !! td = Some th → t_shares th = 0 ∧ t_excl th = 0) ∧
      (∃ th f, threads s' !! 1 = Some th ∧ t_status th = Waiting f false) ∧
      (∃ th f, threads s' !! 2 = Some th ∧ t_status th = Waiting f false).
Proof.
  by apply (lockmgr_upgrade_deadlock ex_system 0 ex_idle ex_idle ex_initial).
Defined.

(** The exception is one: a thread that asks for the shared lock within
    uiomove(9) gets it in spite of the reservations, and the wakeup of its
    release lets the two threads run (here the first upgrade is granted). *)
Definition ex_deadlock : list event := [ECall 1 LK_SHARED; ECall 2 LK_SHARED; ECall 1 LK_UPGRADE; ECall 2 LK_UPGRADE].

Lemma lockmgr_uiomove_ends_deadlock :
  (s ← run ex_system ex_deadlock; t_excl <$> threads s !! 1) = Some 0 ∧
  (s ← run ex_system (ex_deadlock ++ [EUiomove 3 true; ECall 3 LK_SHARED; ECall 3 LK_RELEASE; EWakeup 3; EUiomove 3 false; EResume 1 0]);
   t_excl <$> threads s !! 1) = Some 1.
Proof. split; vm_compute; reflexivity. Qed.

(** A request for the exclusive lock that a signal interrupts gives up its
    reservation without a wakeup: here thread 1 held the lock shared, thread 2
    reserved it, thread 3 asked to share it; the release wakes both, thread 3
    runs first and sleeps again because of the reservation, and then thread 2
    learns of the signal. *)
Definition ex_interrupt : list event :=
  [ECall 1 LK_SHARED; ECall 2 (Z.lor LK_EXCLUSIVE LK_PCATCH); ECall 3 LK_SHARED; ECall 1 LK_RELEASE;
   EWakeup 1; EResume 3 0; EResume 2 4].

Lemma lockmgr_interrupt_loses_wakeup :
  ∃ s, run ex_system ex_interrupt = Some s ∧
    threads s = {[1 := ex_idle; 2 := ex_idle;
                  3 := Thread (Waiting (Frame (SiteShared false) 0 0) false) false 0 0]} ∧
    lockcount (lk s) = 0 ∧ flagged (lk s) (wanted_shared false) = false.
Proof. eexists. split; [vm_compute; reflexivity|]. split; [vm_compute; reflexivity|]. split; vm_compute; reflexivity. Qed.

(** * Requests that do not wait *)

Lemma acquire_nowait l ext wanted :
  has_flag ext LK_NOWAIT = true → acquire l ext wanted = (l, Some (if flagged l wanted then EBUSY else 0)).
Proof. intros H. unfold acquire, acquire_loop. rewrite H. by destruct (flagged l wanted). Qed.

Lemma ext_nowait flags l :
  has_flag flags LK_NOWAIT = true → has_flag (Z.land (Z.lor flags (lk_flags l)) LK_EXTFLG_MASK) LK_NOWAIT = true.
Proof.
  intros H. unfold has_flag in *. rewrite <- Z.land_assoc. change (Z.land LK_EXTFLG_MASK LK_NOWAIT) with LK_NOWAIT.
  change (has_flag (Z.lor flags (lk_flags l)) LK_NOWAIT = true). rewrite has_flag_lor. unfold has_flag. by rewrite H.
Qed.

Lemma free_iff l : lock_ok l → room l →
  lockcount l = 0 ↔ flagged l LK_HAVE_EXCL = false ∧ flagged l LK_SHARE_NONZERO = false.
Proof.
  intros Hl (Hr & _). unfold lockcount. lock_open. rewrite s32_small by lia. flags. rewrite Hhv, Hsh. lia.
Qed.

Lemma exclusive_nowait td l ext :
  lock_ok l → room l → 0 ≤ td → owned l td = 0 → has_flag ext LK_NOWAIT = true →
  ∃ l' e, lockmgr_exclusive td l ext 0 = Ok (l', Return e 0) ∧ (e = 0 ∨ e = EBUSY) ∧
    (e = 0 ↔ lockcount l = 0 ∧ flagged l LK_WANT_EXCL = false ∧ flagged l LK_WANT_UPGRADE = false).
Proof.
  intros Hl Hr Htd Ho Hn. pose proof (free_iff l Hl Hr) as Hfree. unfold lockmgr_exclusive.
  rewrite (owned_none l td) by done. cbn [andb]. rewrite Hn. cbn [andb].
  unfold flagged at 1. rewrite !has_flag_lor_r. case_test.
  - eexists _, _. split; [done|]. split; [by right|]. split; [done|]. rewrite Hfree. intros ([H1 H2] & H3 & H4).
    unfold flagged in *. by rewrite H1, H2, H3, H4 in E.
  - bool_prop. rewrite acquire_nowait by done. unfold wanted_excl1, flagged at 1. rewrite has_flag_lor_r.
    replace (has_flag (lk_flags l) LK_HAVE_EXCL) with false by done. replace (has_flag (lk_flags l) LK_WANT_EXCL) with false by done.
    cbn [orb]. unfold excl1_got. cbn [Z.eqb negb]. rewrite acquire_nowait by done.
    replace (flagged (flag_on LK_WANT_EXCL l) wanted_excl2) with false.
    2:{ unfold flagged, wanted_excl2. rewrite !has_flag_lor_r. unfold flag_on, set_flags. cbn [lk_flags].
        rewrite !has_flag_lor. by repeat match goal with H : has_flag _ _ = false |- _ => rewrite H; clear H end. }
    unfold excl2_got, have_excl. flags. rewrite (sharing l) by done. cbn [Z.eqb negb].
    eexists _, _. split; [done|]. split; [by left|]. split; [|done]. intros _. by rewrite Hfree.
Qed.

Lemma upgrade_nowait td l ext :
  lock_ok l → room l → 0 ≤ td → owned l td = 0 → 0 < lk_sharecount l → has_flag ext LK_NOWAIT = true →
  ∃ l' e dw, lockmgr_upgrade td l ext = Ok (l', Return e dw) ∧ (e = 0 ∨ e = EBUSY) ∧
    (e = 0 ↔ lk_sharecount l = 1 ∧ flagged l LK_WANT_UPGRADE = false).
Proof.
  intros Hl Hr Htd Ho Hs Hn. unfold lockmgr_upgrade. rewrite (owned_none l td) by done.
  replace (lk_sharecount l <=? 0) with false by lia. cbn [orb].
  destruct (shareunlock_spec l Hl Hr Hs) as (l1 & dw & -> & Hch). cbn [obind]. rewrite Hn. cbn [andb].
  pose proof Hch as [Hl1 Es Ee _ Eu _ _].
  case_test.
  - eexists _, _, _. split; [done|]. split; [by right|]. split; [done|]. lia.
  - bool_prop. match goal with H : flagged l1 LK_WANT_UPGRADE = false |- _ => rename H into Hu end.
    rewrite Hu. cbn [negb]. rewrite acquire_nowait by done.
    replace (flagged (flag_on LK_WANT_UPGRADE l1) wanted_upgrade) with (negb (lk_sharecount l =? 1)).
    2:{ pose proof (ok_share _ Hl1). pose proof (ok_have _ Hl1). pose proof (ok_excl _ Hl).
        unfold flagged, wanted_upgrade in *. rewrite has_flag_lor_r. unfold flag_on, set_flags. cbn [lk_flags].
        rewrite !has_flag_lor. change (has_flag LK_WANT_UPGRADE LK_HAVE_EXCL) with false.
        change (has_flag LK_WANT_UPGRADE LK_SHARE_NONZERO) with false. lia. }
    unfold upgrade_got. destruct (lk_sharecount l =? 1) eqn:E1; bool_prop; cbn [negb].
    + cbn [Z.eqb negb]. unfold have_excl. flags.
      replace (lk_exclusivecount l1 =? 0) with true by (pose proof (ok_excl l Hl); lia). cbn [negb].
      eexists _, _, _. split; [done|]. split; [by left|]. lia.
    + eexists _, _, _. split; [done|]. split; [by right|]. unfold EBUSY. lia.
Qed.

(** A request that must not wait does not, even from an interrupt: it
    returns at once, with 0 or EBUSY, and it gets the lock exactly when the
    lock is free for it. *)
Theorem lockmgr_nowait td treat l flags sh :
  lock_ok l → room l → 0 ≤ td → owned l td = 0 → 0 ≤ sh ≤ lk_sharecount l → wf_call true l sh 0 flags →
  has_flag flags LK_NOWAIT = true →
  let type := Z.land flags LK_TYPE_MASK in
  ∃ l' e dw, lockmgr true td treat l flags = Ok (l', Return e dw) ∧ (e = 0 ∨ e = EBUSY) ∧
    (type = LK_SHARED → (e = 0 ↔ flagged l (wanted_shared treat) = false)) ∧
    (type = LK_EXCLUSIVE → (e = 0 ↔ lockcount l = 0 ∧
       flagged l LK_WANT_EXCL = false ∧ flagged l LK_WANT_UPGRADE = false)) ∧
    (type = LK_UPGRADE ∨ type = LK_EXCLUPGRADE →
       (e = 0 ↔ lk_sharecount l = 1 ∧ flagged l LK_WANT_UPGRADE = false)).
Proof.
  intros Hl Hr Htd Ho Hsh [_ Hty] Hn type. unfold lockmgr. rewrite Hn. cbn [negb andb].
  pose proof (ext_nowait flags l Hn) as He. set (ext := Z.land (Z.lor flags (lk_flags l)) LK_EXTFLG_MASK) in *.
  fold type in Hty |- *. clearbody type ext.
  destruct Hty as [->|[[-> _]|[[[->| ->] Hpos]|[[-> Hpos]|[-> Hrel]]]]]; try lia;
    cbn [LK_SHARED LK_EXCLUSIVE LK_UPGRADE LK_EXCLUPGRADE LK_DOWNGRADE LK_RELEASE Z.eqb Pos.eqb].
  - unfold lockmgr_shared. rewrite (owned_none l td) by done. cbn [negb]. rewrite acquire_nowait by done.
    unfold shared_got. destruct (flagged l (wanted_shared treat)); cbn; eexists _, _, _;
      (split; [done|]); (split; [by (left + right)|]); split_and!; intros H; try done; destruct H; done.
  - destruct (exclusive_nowait td l ext Hl Hr Htd Ho He) as (l' & e & -> & H1 & H2).
    eexists _, _, _. split; [done|]. split; [done|]. split_and!; intros H; try done; destruct H; done.
  - destruct (upgrade_nowait td l ext Hl Hr Htd Ho ltac:(lia) He) as (l' & e & dw & -> & H1 & H2).
    eexists _, _, _. split; [done|]. split; [done|]. by split_and!; intros H.
  - unfold lockmgr_exclupgrade. destruct (flagged l LK_WANT_UPGRADE) eqn:Eu.
    + destruct (shareunlock_spec l Hl Hr) as (l1 & dw & -> & _); [lia|]. cbn [obind].
      eexists _, _, _. split; [done|]. split; [by right|]. split_and!; intros H; try done. by split; [|intros [_ ?]].
    + destruct (upgrade_nowait td l ext Hl Hr Htd Ho ltac:(lia) He) as (l' & e & dw & -> & H1 & H2).
      rewrite Eu in H2. eexists _, _, _. split; [done|]. split; [done|]. by split_and!; intros H.
  - destruct (lockmgr_release_spec td l sh 0) as (l' & p & -> & Hg & Hm); try done.
    destruct p as [e dw|f]; [|done]. cbn in Hg. eexists _, _, _. split; [done|]. split; [left; lia|].
    split_and!; intros H; try done; destruct H; done.
Qed.

(** Thread 5 polls for an upgrade of the lock that it shares with another one. *)
Definition ex_shared : lock := Lock LK_SHARE_NONZERO 2 0 0 0 LK_NOTHREAD.

Lemma lockmgr_nowait_witness :
  ∃ l' e dw, lockmgr true 5 false ex_shared (Z.lor LK_UPGRADE LK_NOWAIT) = Ok (l', Return e dw) ∧ (e = 0 ∨ e = EBUSY) ∧
    (LK_UPGRADE = LK_SHARED → (e = 0 ↔ flagged ex_shared (wanted_shared false) = false)) ∧
    (LK_UPGRADE = LK_EXCLUSIVE → (e = 0 ↔ lockcount ex_shared = 0 ∧
       flagged ex_shared LK_WANT_EXCL = false ∧ flagged ex_shared LK_WANT_UPGRADE = false)) ∧
    (LK_UPGRADE = LK_UPGRADE ∨ LK_UPGRADE = LK_EXCLUPGRADE →
       (e = 0 ↔ lk_sharecount ex_shared = 1 ∧ flagged ex_shared LK_WANT_UPGRADE = false)).
Proof.
  apply (lockmgr_nowait 5 false ex_shared (Z.lor LK_UPGRADE LK_NOWAIT) 1); try done.
  - split; try done. by left.
  - split; [by left|]. right. right. left. split; [by left|done].
Defined.

End LockMgrSystem.
