(* ===== verification/Mutex.v ===== *)
(** Mutexes: all of sys/kern/kern_mutex.c and sys/sys/mutex2.h, at the
    granularity of one access to shared memory per step.

    A mutex is a word that is changed by compare-and-set (a count, and flags:
    held exclusively, shared or exclusive waiters, the ring of waiters is being
    worked on), an owner that is stored separately, and a ring of link
    structures, most of them on the stacks of waiting threads.  Every function
    is a control automaton: a constructor of [pc] for each access, with the
    local variables that are still needed, and [exec] for what happens there.
    What is done to the ring and its links while MTX_EXLINK is held is one
    step, except that the state of a link, which its thread also reads without
    MTX_EXLINK, is stored before the owner of the mutex.  Sleeping is that of
    tsleep(9) in sys/kern/kern_synch.c: a thread is on at most one sleep queue,
    is taken off by wakeup(9), and goes to sleep only if it is on one.

    The counters of collisions, and the counters that keep the current CPU from
    preempting a thread, are left out; memory is sequentially consistent. *)

From stdpp Require Import base functions list gmap.
From S2P Require Import Prelude.

Module Mutex.

(** * Data (mutex.h) *)

Definition MTX_EXCLUSIVE : Z := 0x80000000.
Definition MTX_SHWANTED : Z := 0x40000000.
Definition MTX_EXWANTED : Z := 0x20000000.
Definition MTX_EXLINK : Z := 0x10000000.
Definition MTX_MASK : Z := 0x0FFFFFFF.

Definition MTX_LINK_IDLE : Z := 0.
Definition MTX_LINK_ABORTED : Z := -1.
Definition MTX_LINK_LINKED : Z := 1.
Definition MTX_LINK_ACQUIRED : Z := 2.

Definition PCATCH : Z := 0x100.
Definition PINTERLOCKED : Z := 0x400.
Definition EDEADLK : Z := 11.
Definition EAGAIN : Z := 35.
Definition ENOLCK : Z := 77.

(** The address of a link: the local variable of a thread in [_mtx_lock_ex],
    or a structure its caller provides. *)
Inductive address :=
  | Stack (td : Z)
  | Given (a : Z).

#[export] Instance address_eq_dec : EqDecision address.
Proof. solve_decision. Defined.

Record mtx_link := Link {
  next : address;
  prev : address;
  link_owner : option Z;
  state : Z
}.

(** The mutex, and the memory its links are in. *)
Record mtx := Mtx {
  mtx_lock : Z;
  mtx_refs : Z;
  mtx_owner : option Z;
  mtx_first : option address;
  link_at : address → mtx_link
}.

Definition set_lock (w : Z) (m : mtx) : mtx := Mtx w (mtx_refs m) (mtx_owner m) (mtx_first m) (link_at m).
Definition set_owner (o : option Z) (m : mtx) : mtx := Mtx (mtx_lock m) (mtx_refs m) o (mtx_first m) (link_at m).
Definition set_first (l : option address) (m : mtx) : mtx := Mtx (mtx_lock m) (mtx_refs m) (mtx_owner m) l (link_at m).
Definition set_link (l : address) (x : mtx_link) (m : mtx) : mtx :=
  Mtx (mtx_lock m) (mtx_refs m) (mtx_owner m) (mtx_first m) (<[l := x]> (link_at m)).
Definition set_refs (r : Z) (m : mtx) : mtx := Mtx (mtx_lock m) r (mtx_owner m) (mtx_first m) (link_at m).

(** Stores to the fields of the link at an address. *)
Definition set_next (l x : address) (m : mtx) : mtx :=
  set_link l (Link x (prev (link_at m l)) (link_owner (link_at m l)) (state (link_at m l))) m.
Definition set_prev (l x : address) (m : mtx) : mtx :=
  set_link l (Link (next (link_at m l)) x (link_owner (link_at m l)) (state (link_at m l))) m.
Definition set_link_owner (l : address) (o : option Z) (m : mtx) : mtx :=
  set_link l (Link (next (link_at m l)) (prev (link_at m l)) o (state (link_at m l))) m.
Definition set_state (l : address) (x : Z) (m : mtx) : mtx :=
  set_link l (Link (next (link_at m l)) (prev (link_at m l)) (link_owner (link_at m l)) x) m.

Definition mtx_init (m : mtx) : mtx := Mtx 0 0 None None (link_at m).
Definition mtx_link_init (l : address) (m : mtx) : mtx := set_state l MTX_LINK_IDLE m.

(** The link is put at the end of the ring. *)
Definition link_in (l : address) (td : Z) (m : mtx) : mtx :=
  let m := set_link_owner l (Some td) m in
  let m := set_state l MTX_LINK_LINKED m in
  match mtx_first m with
  | Some f =>
      let m := set_next l f m in
      let m := set_prev l (prev (link_at m (next (link_at m l)))) m in
      let m := set_prev (next (link_at m l)) l m in
      set_next (prev (link_at m l)) l m
  | None =>
      let m := set_next l l m in
      let m := set_prev l l m in
      set_first (Some l) m
  end.

(** The link is taken out of the ring, which starts after it from then on. *)
Definition link_out (l : address) (m : mtx) : mtx :=
  if decide (next (link_at m l) = l) then set_first None m
  else
    let m := set_first (Some (next (link_at m l))) m in
    let m := set_prev (next (link_at m l)) (prev (link_at m l)) m in
    set_next (prev (link_at m l)) (next (link_at m l)) m.

(** * Control *)

(** The arguments of [__mtx_lock_ex]. *)
Record wait := Wait {
  w_link : address;
  w_flags : Z;
  w_to : Z
}.

(** Where a thread is, before the access that is named. *)
Inductive pc :=
  (* mtx_lock, mtx_lock_ex_link, mtx_lock_ex, mtx_lock_ex_quick *)
  | Ex_fast (a : wait)                         (* cmpset(0, MTX_EXCLUSIVE | 1) *)
  (* __mtx_lock_ex *)
  | Ex_read (a : wait)                         (* lock = mtx->mtx_lock *)
  | Ex_free (a : wait)                         (* cmpset(0, MTX_EXCLUSIVE | 1) *)
  | Ex_owner                                   (* mtx->mtx_owner = curthread *)
  | Ex_held (a : wait) (lock : Z)              (* mtx->mtx_owner == curthread *)
  | Ex_again (a : wait) (lock : Z)             (* cmpset(lock, lock + 1) *)
  | Ex_want (a : wait) (lock : Z)              (* cmpset(lock, lock | MTX_EXWANTED | MTX_EXLINK) *)
  | Ex_early (a : wait)                        (* link->state == MTX_LINK_ABORTED *)
  | Ex_early_unlink                            (* clear MTX_EXLINK *)
  | Ex_early_test                              (* mtx->mtx_link == NULL *)
  | Ex_early_clear                             (* clear MTX_EXWANTED *)
  | Ex_link (a : wait)                         (* the link is put into the ring *)
  | Ex_interlock (a : wait)                    (* tsleep_interlock(link, 0) *)
  | Ex_unlink (a : wait)                       (* clear MTX_EXLINK *)
  | Ex_tsleep (a : wait)                       (* tsleep(link, flags, ident, to) *)
  | Ex_asleep (a : wait)
  | Ex_woken (a : wait) (error : Z)            (* link->state == MTX_LINK_LINKED *)
  | Ex_acquired (a : wait) (error : Z)         (* link->state == MTX_LINK_ACQUIRED *)
  | Ex_mine (a : wait)                         (* KKASSERT(mtx->mtx_owner == link->owner) *)
  | Ex_aborted (a : wait) (error : Z)          (* link->state == MTX_LINK_ABORTED *)
  (* mtx_delete_link *)
  | Del_read (a : wait) (error : Z)            (* lock = mtx->mtx_lock *)
  | Del_lock (a : wait) (error : Z) (lock : Z) (* cmpset(lock, lock | MTX_EXLINK) *)
  | Del_link (a : wait) (error : Z)            (* the link is taken out of the ring *)
  | Del_unlock (a : wait) (error : Z)          (* clear MTX_EXLINK *)
  (* mtx_lock_sh, mtx_lock_sh_quick, __mtx_lock_sh *)
  | Sh_fast (flags to : Z)                     (* cmpset(0, 1) *)
  | Sh_read (flags to : Z)                     (* lock = mtx->mtx_lock *)
  | Sh_count (flags to lock : Z)               (* cmpset(lock, lock + 1) *)
  | Sh_interlock (flags to lock : Z)           (* tsleep_interlock(mtx, 0) *)
  | Sh_want (flags to lock : Z)                (* cmpset(lock, lock | MTX_SHWANTED) *)
  | Sh_tsleep (flags to : Z)                   (* tsleep(mtx, flags, ident, to) *)
  | Sh_asleep (flags to : Z)
  | Sh_remove (flags to : Z)                   (* tsleep_remove(curthread) *)
  (* mtx_spinlock, _mtx_spinlock *)
  | Spin_fast
  | Spin_read
  | Spin_free
  | Spin_owner                                 (* mtx->mtx_owner = curthread, inside *)
  | Spin_held (lock : Z)
  | Spin_again (lock : Z)
  | Spin_outer                                 (* mtx->mtx_owner = gd->gd_curthread *)
  (* mtx_lock_ex_try, _mtx_lock_ex_try; mtx_spinlock_try, _mtx_spinlock_try *)
  | Try_fast
  | Try_read
  | Try_free
  | Try_owner
  | Try_held (lock : Z)
  | Try_again (lock : Z)
  (* mtx_lock_sh_try, _mtx_lock_sh_try *)
  | TrySh_fast
  | TrySh_read
  | TrySh_count (lock : Z)
  (* mtx_downgrade, _mtx_downgrade *)
  | Down_owner                                 (* mtx->mtx_owner = NULL *)
  | Down_fast                                  (* cmpset(MTX_EXCLUSIVE | 1, 0) *)
  | Down_read
  | Down_check (lock : Z)                      (* KKASSERT(mtx->mtx_owner == curthread) *)
  | Down_clear (lock : Z)                      (* cmpset *)
  | Down_wakeup
  (* mtx_upgrade_try, _mtx_upgrade_try *)
  | Up_fast                                    (* cmpset(1, MTX_EXCLUSIVE | 1) *)
  | Up_read
  | Up_set (lock : Z)                          (* cmpset(lock, lock | MTX_EXCLUSIVE) *)
  | Up_owner
  | Up_check                                   (* KKASSERT(mtx->mtx_owner == curthread) *)
  (* mtx_unlock (sh: with the test for a shared lock), mtx_unlock_ex, mtx_unlock_sh *)
  | Fast_read (sh : bool)                      (* lock = mtx->mtx_lock *)
  | Fast_owner (lock : Z)                      (* mtx->mtx_owner = NULL *)
  | Fast_clear (lock : Z)                      (* cmpset(lock, 0) *)
  (* _mtx_unlock *)
  | Un_read                                    (* lock = mtx->mtx_lock *)
  | Un_shared (lock : Z)                       (* cmpset(lock, lock & MTX_EXLINK) *)
  | Un_owner (lock : Z)                        (* mtx->mtx_owner = NULL *)
  | Un_exclusive (lock : Z)                    (* cmpset(lock, lock & MTX_EXLINK) *)
  | Un_wakeup                                  (* wakeup(mtx) *)
  | Un_chain (lock nlock : Z)                  (* cmpset(lock, nlock) *)
  | Un_count (lock : Z)                        (* cmpset(lock, lock - 1) *)
  (* mtx_chain_link *)
  | Chain_pop                                  (* the first link is taken out of the ring and told *)
  | Chain_owner (l : address) (clock : Z)      (* mtx->mtx_owner = link->owner *)
  | Chain_read (link : option address) (clock : Z)           (* lock = mtx->mtx_lock *)
  | Chain_clear (link : option address) (clock lock : Z)     (* cmpset(lock, lock & ~clock) *)
  | Chain_wakeup (l : address)                 (* wakeup(link) *)
  | Chain_null                                 (* mtx->mtx_owner = NULL *)
  | Chain_wakeup_sh                            (* wakeup(mtx) *)
  (* mtx_abort_ex_link *)
  | Abort_read (l : address)
  | Abort_lock (l : address) (lock : Z)        (* cmpset(lock, lock | MTX_EXLINK) *)
  | Abort_link (l : address)                   (* switch (link->state) *)
  | Abort_wakeup (l : address)                 (* wakeup(link) *)
  | Abort_unlock (l : address).                (* clear MTX_EXLINK *)

(** What tsleep(9) and wakeup(9) identify a sleep queue by. *)
Inductive ident :=
  | OnMutex
  | OnLink (l : address).

#[export] Instance ident_eq_dec : EqDecision ident.
Proof. solve_decision. Defined.

(** What a step does to the sleep queues. *)
Inductive effect :=
  | NoEffect
  | Interlock (id : ident)
  | Remove
  | Wakeup (id : ident).

Inductive progress :=
  | Go (p : pc)
  | Return (error : Z).

(** The answer of a step, or the panic of a failed KKASSERT. *)
Definition result : Type := outcome (progress * mtx * effect).

Definition go (p : pc) (m : mtx) : result := Ok (Go p, m, NoEffect).
Definition ret (error : Z) (m : mtx) : result := Ok (Return error, m, NoEffect).

(** [atomic_cmpset_int(&mtx->mtx_lock, lock, nlock)], with what comes after
    success and failure. *)
Definition cmpset (m : mtx) (lock nlock : Z) (yes no : mtx → result) : result :=
  if mtx_lock m =? lock then yes (set_lock nlock m) else no m.

(** [atomic_clear_int(&mtx->mtx_lock, bits)]. *)
Definition clear_lock (bits : Z) (m : mtx) : mtx := set_lock (Z.ldiff (mtx_lock m) bits) m.

(** tsleep(9) puts the thread on the queue unless it is told that it is there;
    with PCATCH and a signal it returns at once. *)
Definition tsleep (id : ident) (flags err : Z) (asleep : pc) (back : progress) (m : mtx) : result :=
  let e := if has_flag flags PINTERLOCKED then NoEffect else Interlock id in
  if has_flag flags PCATCH && negb (err =? 0) then Ok (back, m, e)
  else Ok (Go asleep, m, e).

Definition lock_ex : Z := Z.lor MTX_EXCLUSIVE 1.

(** One access of thread [td] in each of the functions; [err] is what tsleep(9)
    returns where it does.  A function is only asked about its own places. *)

(** Called with a link, or with one on the stack that [_mtx_lock_ex] initialises. *)
Definition mtx_lock_ex (p : pc) (m : mtx) : result :=
  match p with
  | Ex_fast a =>
      cmpset m 0 lock_ex (go Ex_owner)
        (λ m, go (Ex_read a) (match w_link a with Stack _ => mtx_link_init (w_link a) m | Given _ => m end))
  | _ => go p m
  end.

Definition __mtx_lock_ex (td err : Z) (p : pc) (m : mtx) : result :=
  let lock := mtx_lock m in
  let self := bool_decide (mtx_owner m = Some td) in
  match p with
  | Ex_read a =>
      if lock =? 0 then go (Ex_free a) m
      else if has_flag lock MTX_EXCLUSIVE then go (Ex_held a lock) m
      else if has_flag lock MTX_EXLINK then go (Ex_read a) m
      else go (Ex_want a lock) m
  | Ex_free a => cmpset m 0 lock_ex (go Ex_owner) (go (Ex_read a))
  | Ex_owner => ret 0 (set_owner (Some td) m)
  | Ex_held a lock =>
      if self then kkassert (negb (Z.land lock MTX_MASK =? MTX_MASK)) (go (Ex_again a lock) m)
      else if has_flag lock MTX_EXLINK then go (Ex_read a) m
      else go (Ex_want a lock) m
  | Ex_again a lock => cmpset m lock (u32 (lock + 1)) (ret 0) (go (Ex_read a))
  | Ex_want a lock =>
      cmpset m lock (Z.lor (Z.lor lock MTX_EXWANTED) MTX_EXLINK) (go (Ex_early a)) (go (Ex_read a))
  | Ex_early a => if state (link_at m (w_link a)) =? MTX_LINK_ABORTED then go Ex_early_unlink m else go (Ex_link a) m
  | Ex_early_unlink => go Ex_early_test (clear_lock MTX_EXLINK m)
  | Ex_early_test => match mtx_first m with None => go Ex_early_clear m | Some _ => ret ENOLCK m end
  | Ex_early_clear => ret ENOLCK (clear_lock MTX_EXWANTED m)
  | Ex_link a => go (Ex_interlock a) (link_in (w_link a) td m)
  | Ex_interlock a => Ok (Go (Ex_unlink a), m, Interlock (OnLink (w_link a)))
  | Ex_unlink a => go (Ex_tsleep a) (clear_lock MTX_EXLINK m)
  | Ex_tsleep a => tsleep (OnLink (w_link a)) (w_flags a) err (Ex_asleep a) (Go (Ex_woken a err)) m
  | Ex_asleep a => Ok (Go (Ex_woken a err), m, Remove)
  | Ex_woken a error =>
      if state (link_at m (w_link a)) =? MTX_LINK_LINKED then go (Del_read a error) m else go (Ex_acquired a error) m
  | Ex_acquired a error =>
      if state (link_at m (w_link a)) =? MTX_LINK_ACQUIRED then go (Ex_mine a) m else go (Ex_aborted a error) m
  | Ex_mine a => kkassert (bool_decide (mtx_owner m = link_owner (link_at m (w_link a)))) (ret 0 m)
  | Ex_aborted a error =>
      if state (link_at m (w_link a)) =? MTX_LINK_ABORTED then ret ENOLCK m
      else if negb (error =? 0) then ret error m
      else go (Ex_read a) m
  | _ => go p m
  end.

Definition mtx_delete_link (p : pc) (m : mtx) : result :=
  let lock := mtx_lock m in
  match p with
  | Del_read a error => if has_flag lock MTX_EXLINK then go (Del_read a error) m else go (Del_lock a error lock) m
  | Del_lock a error lock => cmpset m lock (Z.lor lock MTX_EXLINK) (go (Del_link a error)) (go (Del_read a error))
  | Del_link a error =>
      go (Del_unlock a error)
        (if state (link_at m (w_link a)) =? MTX_LINK_LINKED
         then set_state (w_link a) MTX_LINK_IDLE (link_out (w_link a) m) else m)
  | Del_unlock a error => go (Ex_acquired a error) (clear_lock MTX_EXLINK m)
  | _ => go p m
  end.

Definition mtx_lock_sh (p : pc) (m : mtx) : result :=
  match p with
  | Sh_fast flags to => cmpset m 0 1 (ret 0) (go (Sh_read flags to))
  | _ => go p m
  end.

Definition __mtx_lock_sh (err : Z) (p : pc) (m : mtx) : result :=
  let lock := mtx_lock m in
  match p with
  | Sh_read flags to =>
      if negb (has_flag lock MTX_EXCLUSIVE)
      then kkassert (negb (Z.land lock MTX_MASK =? MTX_MASK)) (go (Sh_count flags to lock) m)
      else go (Sh_interlock flags to lock) m
  | Sh_count flags to lock => cmpset m lock (u32 (lock + 1)) (ret 0) (go (Sh_read flags to))
  | Sh_interlock flags to lock => Ok (Go (Sh_want flags to lock), m, Interlock OnMutex)
  | Sh_want flags to lock => cmpset m lock (Z.lor lock MTX_SHWANTED) (go (Sh_tsleep flags to)) (go (Sh_remove flags to))
  | Sh_tsleep flags to => tsleep OnMutex flags err (Sh_asleep flags to) (Return err) m
  | Sh_asleep flags to =>
      Ok (if negb (err =? 0) then Return err else Go (Sh_read flags to), m, Remove)
  | Sh_remove flags to => Ok (Go (Sh_read flags to), m, Remove)
  | _ => go p m
  end.

Definition mtx_spinlock (td : Z) (p : pc) (m : mtx) : result :=
  match p with
  | Spin_fast => cmpset m 0 lock_ex (go Spin_outer) (go Spin_read)
  | Spin_outer => ret 0 (set_owner (Some td) m)
  | _ => go p m
  end.

Definition _mtx_spinlock (td : Z) (p : pc) (m : mtx) : result :=
  let lock := mtx_lock m in
  let self := bool_decide (mtx_owner m = Some td) in
  match p with
  | Spin_read =>
      if lock =? 0 then go Spin_free m
      else if has_flag lock MTX_EXCLUSIVE then go (Spin_held lock) m
      else go Spin_read m
  | Spin_free => cmpset m 0 lock_ex (go Spin_owner) (go Spin_read)
  | Spin_owner => go Spin_outer (set_owner (Some td) m)
  | Spin_held lock =>
      if self then kkassert (negb (Z.land lock MTX_MASK =? MTX_MASK)) (go (Spin_again lock) m) else go Spin_read m
  | Spin_again lock => cmpset m lock (u32 (lock + 1)) (go Spin_outer) (go Spin_read)
  | _ => go p m
  end.

(** mtx_spinlock_try is the same. *)
Definition mtx_lock_ex_try (p : pc) (m : mtx) : result :=
  match p with
  | Try_fast => cmpset m 0 lock_ex (go Try_owner) (go Try_read)
  | _ => go p m
  end.

(** [_mtx_spinlock_try] is the same. *)
Definition _mtx_lock_ex_try (td : Z) (p : pc) (m : mtx) : result :=
  let lock := mtx_lock m in
  let self := bool_decide (mtx_owner m = Some td) in
  match p with
  | Try_read =>
      if lock =? 0 then go Try_free m
      else if has_flag lock MTX_EXCLUSIVE then go (Try_held lock) m
      else ret EAGAIN m
  | Try_free => cmpset m 0 lock_ex (go Try_owner) (go Try_read)
  | Try_owner => ret 0 (set_owner (Some td) m)
  | Try_held lock =>
      if self then kkassert (negb (Z.land lock MTX_MASK =? MTX_MASK)) (go (Try_again lock) m) else ret EAGAIN m
  | Try_again lock => cmpset m lock (u32 (lock + 1)) (ret 0) (go Try_read)
  | _ => go p m
  end.

Definition mtx_lock_sh_try (p : pc) (m : mtx) : result :=
  match p with
  | TrySh_fast => cmpset m 0 1 (ret 0) (go TrySh_read)
  | _ => go p m
  end.

Definition _mtx_lock_sh_try (p : pc) (m : mtx) : result :=
  let lock := mtx_lock m in
  match p with
  | TrySh_read =>
      if negb (has_flag lock MTX_EXCLUSIVE)
      then kkassert (negb (Z.land lock MTX_MASK =? MTX_MASK)) (go (TrySh_count lock) m)
      else ret EAGAIN m
  | TrySh_count lock => cmpset m lock (u32 (lock + 1)) (ret 0) (go TrySh_read)
  | _ => go p m
  end.

Definition mtx_downgrade (p : pc) (m : mtx) : result :=
  match p with
  | Down_owner => go Down_fast (set_owner None m)
  | Down_fast => cmpset m lock_ex 0 (ret 0) (go Down_read)
  | _ => go p m
  end.

Definition _mtx_downgrade (td : Z) (p : pc) (m : mtx) : result :=
  let lock := mtx_lock m in
  let self := bool_decide (mtx_owner m = Some td) in
  match p with
  | Down_read =>
      if negb (has_flag lock MTX_EXCLUSIVE) then kkassert (Z.land lock MTX_MASK >? 0) (ret 0 m)
      else go (Down_check lock) m
  | Down_check lock => kkassert self (go (Down_clear lock) m)
  | Down_clear lock =>
      cmpset m lock (Z.ldiff lock (Z.lor MTX_EXCLUSIVE MTX_SHWANTED))
        (if has_flag lock MTX_SHWANTED then go Down_wakeup else ret 0) (go Down_read)
  | Down_wakeup => Ok (Return 0, m, Wakeup OnMutex)
  | _ => go p m
  end.

Definition mtx_upgrade_try (p : pc) (m : mtx) : result :=
  match p with
  | Up_fast => cmpset m 1 lock_ex (ret 0) (go Up_read)
  | _ => go p m
  end.

Definition _mtx_upgrade_try (td : Z) (p : pc) (m : mtx) : result :=
  let lock := mtx_lock m in
  let self := bool_decide (mtx_owner m = Some td) in
  match p with
  | Up_read =>
      if Z.ldiff lock MTX_EXWANTED =? 1 then go (Up_set lock) m
      else if has_flag lock MTX_EXCLUSIVE then go Up_check m
      else ret EDEADLK m
  | Up_set lock => cmpset m lock (Z.lor lock MTX_EXCLUSIVE) (go Up_owner) (go Up_read)
  | Up_owner => ret 0 (set_owner (Some td) m)
  | Up_check => kkassert self (ret 0 m)
  | _ => go p m
  end.

(** With mtx_unlock_ex and mtx_unlock_sh, which starts at its last access. *)
Definition mtx_unlock (p : pc) (m : mtx) : result :=
  let lock := mtx_lock m in
  match p with
  | Fast_read sh =>
      if lock =? lock_ex then go (Fast_owner lock) m
      else if sh && (lock =? 1) then go (Fast_clear lock) m
      else go Un_read m
  | Fast_owner lock => go (Fast_clear lock) (set_owner None m)
  | Fast_clear lock => cmpset m lock 0 (ret 0) (go Un_read)
  | _ => go p m
  end.

Definition _mtx_unlock (p : pc) (m : mtx) : result :=
  let lock := mtx_lock m in
  match p with
  | Un_read =>
      let nlock := Z.ldiff lock (Z.lor MTX_SHWANTED MTX_EXLINK) in
      if nlock =? 1 then go (Un_shared lock) m
      else if nlock =? lock_ex then go (Un_owner lock) m
      else if nlock =? Z.lor MTX_EXWANTED 1 then
        if has_flag lock MTX_EXLINK then go Un_read m
        else go (Un_chain lock (Z.lor (Z.lor nlock (Z.lor MTX_EXLINK MTX_EXCLUSIVE)) (Z.land lock MTX_SHWANTED))) m
      else if nlock =? Z.lor (Z.lor MTX_EXCLUSIVE MTX_EXWANTED) 1 then
        if has_flag lock MTX_EXLINK then go Un_read m
        else go (Un_chain lock (Z.lor (Z.lor nlock MTX_EXLINK) (Z.land lock MTX_SHWANTED))) m
      else
        kkassert (negb (Z.land (u32 (lock - 1)) MTX_MASK =? MTX_MASK)) (go (Un_count lock) m)
  | Un_shared lock => cmpset m lock (Z.land lock MTX_EXLINK) (ret 0) (go Un_read)
  | Un_owner lock => go (Un_exclusive lock) (set_owner None m)
  | Un_exclusive lock =>
      cmpset m lock (Z.land lock MTX_EXLINK) (if has_flag lock MTX_SHWANTED then go Un_wakeup else ret 0) (go Un_read)
  | Un_wakeup => Ok (Return 0, m, Wakeup OnMutex)
  | Un_chain lock nlock => cmpset m lock nlock (go Chain_pop) (go Un_read)
  | Un_count lock => cmpset m lock (u32 (lock - 1)) (ret 0) (go Un_read)
  | _ => go p m
  end.

Definition mtx_chain_link (p : pc) (m : mtx) : result :=
  let lock := mtx_lock m in
  match p with
  | Chain_pop =>
      match mtx_first m with
      | Some l =>
          kkassert (state (link_at m l) =? MTX_LINK_LINKED)
            (let clock := if decide (next (link_at m l) = l) then Z.lor MTX_EXLINK MTX_EXWANTED else MTX_EXLINK in
             go (Chain_owner l clock) (set_state l MTX_LINK_ACQUIRED (link_out l m)))
      | None =>
          go (Chain_read None (Z.lor MTX_EXLINK (Z.lor (Z.lor MTX_EXCLUSIVE MTX_EXWANTED) (Z.lor MTX_SHWANTED 1)))) m
      end
  | Chain_owner l clock => go (Chain_read (Some l) clock) (set_owner (link_owner (link_at m l)) m)
  | Chain_read link clock => go (Chain_clear link clock lock) m
  | Chain_clear link clock lock =>
      cmpset m lock (Z.ldiff lock clock)
        (match link with
         | Some l => go (Chain_wakeup l)
         | None => if has_flag lock MTX_SHWANTED then go Chain_null else ret 0
         end) (go (Chain_read link clock))
  | Chain_wakeup l => Ok (Return 0, m, Wakeup (OnLink l))
  | Chain_null => go Chain_wakeup_sh (set_owner None m)
  | Chain_wakeup_sh => Ok (Return 0, m, Wakeup OnMutex)
  | _ => go p m
  end.

Definition mtx_abort_ex_link (p : pc) (m : mtx) : result :=
  let lock := mtx_lock m in
  match p with
  | Abort_read l => if has_flag lock MTX_EXLINK then go (Abort_read l) m else go (Abort_lock l lock) m
  | Abort_lock l lock => cmpset m lock (Z.lor lock MTX_EXLINK) (go (Abort_link l)) (go (Abort_read l))
  | Abort_link l =>
      let st := state (link_at m l) in
      if st =? MTX_LINK_IDLE then go (Abort_unlock l) (set_state l MTX_LINK_ABORTED m)
      else if st =? MTX_LINK_LINKED then go (Abort_wakeup l) (set_state l MTX_LINK_ABORTED (link_out l m))
      else go (Abort_unlock l) m
  | Abort_wakeup l => Ok (Go (Abort_unlock l), m, Wakeup (OnLink l))
  | Abort_unlock l => ret 0 (clear_lock MTX_EXLINK m)
  | _ => go p m
  end.

(** What a thread does at its place. *)
Definition exec (td err : Z) (p : pc) (m : mtx) : result :=
  match p with
  | Ex_fast _ => mtx_lock_ex p m
  | Ex_read _ | Ex_free _ | Ex_owner | Ex_held _ _ | Ex_again _ _ | Ex_want _ _ | Ex_early _ | Ex_early_unlink |
      Ex_early_test | Ex_early_clear | Ex_link _ | Ex_interlock _ | Ex_unlink _ | Ex_tsleep _ | Ex_asleep _ |
      Ex_woken _ _ | Ex_acquired _ _ | Ex_mine _ | Ex_aborted _ _ => __mtx_lock_ex td err p m
  | Del_read _ _ | Del_lock _ _ _ | Del_link _ _ | Del_unlock _ _ => mtx_delete_link p m
  | Sh_fast _ _ => mtx_lock_sh p m
  | Sh_read _ _ | Sh_count _ _ _ | Sh_interlock _ _ _ | Sh_want _ _ _ | Sh_tsleep _ _ | Sh_asleep _ _ | Sh_remove
      _ _ => __mtx_lock_sh err p m
  | Spin_fast | Spin_outer => mtx_spinlock td p m
  | Spin_read | Spin_free | Spin_owner | Spin_held _ | Spin_again _ => _mtx_spinlock td p m
  | Try_fast => mtx_lock_ex_try p m
  | Try_read | Try_free | Try_owner | Try_held _ | Try_again _ => _mtx_lock_ex_try td p m
  | TrySh_fast => mtx_lock_sh_try p m
  | TrySh_read | TrySh_count _ => _mtx_lock_sh_try p m
  | Down_owner | Down_fast => mtx_downgrade p m
  | Down_read | Down_check _ | Down_clear _ | Down_wakeup => _mtx_downgrade td p m
  | Up_fast => mtx_upgrade_try p m
  | Up_read | Up_set _ | Up_owner | Up_check => _mtx_upgrade_try td p m
  | Fast_read _ | Fast_owner _ | Fast_clear _ => mtx_unlock p m
  | Un_read | Un_shared _ | Un_owner _ | Un_exclusive _ | Un_wakeup | Un_chain _ _ | Un_count _ => _mtx_unlock p m
  | Chain_pop | Chain_owner _ _ | Chain_read _ _ | Chain_clear _ _ _ | Chain_wakeup _ | Chain_null |
      Chain_wakeup_sh => mtx_chain_link p m
  | Abort_read _ | Abort_lock _ _ | Abort_link _ | Abort_wakeup _ | Abort_unlock _ => mtx_abort_ex_link p m
  end.

(** A thread that is asleep goes on when it was woken, and else with an error
    when it asked for signals or a timeout. *)
Definition enabled (p : pc) (wchan : option ident) (err : Z) : bool :=
  let wakes flags to :=
    (bool_decide (wchan = None) && (err =? 0)) || (negb (err =? 0) && (has_flag flags PCATCH || negb (to =? 0))) in
  match p with
  | Ex_asleep a => wakes (w_flags a) (w_to a)
  | Sh_asleep flags to => wakes flags to
  | _ => true
  end.

(** ** What mutex2.h answers about a mutex *)

Definition mtx_islocked (m : mtx) : bool := negb (mtx_lock m =? 0).
Definition mtx_islocked_ex (m : mtx) : bool := has_flag (mtx_lock m) MTX_EXCLUSIVE.
Definition mtx_notlocked (m : mtx) : bool := mtx_lock m =? 0.
Definition mtx_notlocked_ex (m : mtx) : bool := has_flag (mtx_lock m) MTX_EXCLUSIVE.
Definition mtx_owned (td : Z) (m : mtx) : bool := has_flag (mtx_lock m) MTX_EXCLUSIVE && bool_decide (mtx_owner m = Some td).
Definition mtx_notowned (td : Z) (m : mtx) : bool :=
  negb (has_flag (mtx_lock m) MTX_EXCLUSIVE) || negb (bool_decide (mtx_owner m = Some td)).
Definition mtx_lockrefs (m : mtx) : Z := Z.land (mtx_lock m) MTX_MASK.
Definition mtx_hold (m : mtx) : mtx := set_refs (s32 (mtx_refs m + 1)) m.
Definition mtx_drop (m : mtx) : mtx * Z := (set_refs (s32 (mtx_refs m - 1)) m, mtx_refs m).

End Mutex.
