(* ===== verification/MutexTheory.v ===== *)
(** The word of a mutex as four flags and a count, and its ring of links as a
    list. *)

From stdpp Require Import base functions list gmap.
From S2P Require Import Prelude Mutex.

Module MutexTheory.
Import Mutex.

(** * The word *)

Definition flags_of (e s w l : bool) : Z := 8 * Z.b2z e + 4 * Z.b2z s + 2 * Z.b2z w + Z.b2z l.

(** Held exclusively; shared, exclusive waiters; the ring is worked on; count. *)
Definition word (e s w l : bool) (n : Z) : Z := flags_of e s w l * 2 ^ 28 + n.

Definition counts (n : Z) : Prop := is_u 28 n.

Lemma counts_iff n : counts n ↔ 0 ≤ n < 268435456.
Proof. done. Qed.

Lemma flags_range e s w l : 0 ≤ flags_of e s w l < 16.
Proof. unfold flags_of. destruct e, s, w, l; cbn; lia. Qed.

Lemma word_inj e s w l n e' s' w' l' n' : counts n → counts n' →
  word e s w l n = word e' s' w' l' n' → e = e' ∧ s = s' ∧ w = w' ∧ l = l' ∧ n = n'.
Proof.
  rewrite !counts_iff. unfold word. change (2 ^ 28) with 268435456. intros Hn Hn' H.
  assert (Hf : flags_of e s w l = flags_of e' s' w' l') by lia. assert (n = n') by lia. revert Hf. unfold flags_of.
  destruct e, s, w, l, e', s', w', l'; cbn; intros; (lia || done).
Qed.

Section word.
Context (n : Z) (Hn : counts n).

Lemma word_land e s w l f m : counts m → Z.land (word e s w l n) (f * 2 ^ 28 + m) = Z.land (flags_of e s w l) f * 2 ^ 28 + Z.land n m.
Proof. intros Hm. by apply land_split. Qed.
Lemma word_lor e s w l f : Z.lor (word e s w l n) (f * 2 ^ 28) = Z.lor (flags_of e s w l) f * 2 ^ 28 + n.
Proof. pose proof (lor_split (flags_of e s w l) f n 0 28) as H. rewrite Z.lor_0_r, Z.add_0_r in H. by apply H. Qed.
Lemma word_ldiff e s w l f : Z.ldiff (word e s w l n) (f * 2 ^ 28) = Z.ldiff (flags_of e s w l) f * 2 ^ 28 + n.
Proof. pose proof (ldiff_split (flags_of e s w l) f n 0 28) as H. rewrite Z.ldiff_0_r, Z.add_0_r in H. by apply H. Qed.

Lemma word_flag e s w l f : has_flag (word e s w l n) (f * 2 ^ 28) = negb (Z.land (flags_of e s w l) f =? 0).
Proof.
  unfold has_flag. f_equal. pose proof (word_land e s w l f 0) as H. rewrite Z.land_0_r, !Z.add_0_r in H. rewrite H by done.
  apply eq_true_iff_eq. rewrite !Z.eqb_eq. lia.
Qed.

Ltac by_flags := repeat match goal with b : bool |- _ => destruct b end; reflexivity.

Lemma word_ex e s w l : has_flag (word e s w l n) MTX_EXCLUSIVE = e.
Proof. change MTX_EXCLUSIVE with (8 * 2 ^ 28). rewrite word_flag. by_flags. Qed.
Lemma word_sw e s w l : has_flag (word e s w l n) MTX_SHWANTED = s.
Proof. change MTX_SHWANTED with (4 * 2 ^ 28). rewrite word_flag. by_flags. Qed.
Lemma word_exlink e s w l : has_flag (word e s w l n) MTX_EXLINK = l.
Proof. change MTX_EXLINK with (1 * 2 ^ 28). rewrite word_flag. by_flags. Qed.
Lemma word_mask e s w l : Z.land (word e s w l n) MTX_MASK = n.
Proof.
  change MTX_MASK with (0 * 2 ^ 28 + Z.ones 28). rewrite word_land by by_decide. rewrite Z.land_0_r, Z.land_ones by done.
  apply Z.mod_small. by apply counts_iff.
Qed.

Lemma word_set_ex e s w l : Z.lor (word e s w l n) MTX_EXCLUSIVE = word true s w l n.
Proof. change MTX_EXCLUSIVE with (8 * 2 ^ 28). rewrite word_lor. by_flags. Qed.
Lemma word_set_sw e s w l : Z.lor (word e s w l n) MTX_SHWANTED = word e true w l n.
Proof. change MTX_SHWANTED with (4 * 2 ^ 28). rewrite word_lor. by_flags. Qed.
Lemma word_set_want e s w l : Z.lor (word e s w l n) MTX_EXWANTED = word e s true l n.
Proof. change MTX_EXWANTED with (2 * 2 ^ 28). rewrite word_lor. by_flags. Qed.
Lemma word_set_link e s w l : Z.lor (word e s w l n) MTX_EXLINK = word e s w true n.
Proof. change MTX_EXLINK with (1 * 2 ^ 28). rewrite word_lor. by_flags. Qed.
Lemma word_set_ex_link e s w l : Z.lor (word e s w l n) (Z.lor MTX_EXLINK MTX_EXCLUSIVE) = word true s w true n.
Proof. change (Z.lor MTX_EXLINK MTX_EXCLUSIVE) with (9 * 2 ^ 28). rewrite word_lor. by_flags. Qed.

Lemma word_clear_link e s w l : Z.ldiff (word e s w l n) MTX_EXLINK = word e s w false n.
Proof. change MTX_EXLINK with (1 * 2 ^ 28). rewrite word_ldiff. by_flags. Qed.
Lemma word_clear_want e s w l : Z.ldiff (word e s w l n) MTX_EXWANTED = word e s false l n.
Proof. change MTX_EXWANTED with (2 * 2 ^ 28). rewrite word_ldiff. by_flags. Qed.
Lemma word_clear_both e s w l : Z.ldiff (word e s w l n) (Z.lor MTX_EXLINK MTX_EXWANTED) = word e s false false n.
Proof. change (Z.lor MTX_EXLINK MTX_EXWANTED) with (3 * 2 ^ 28). rewrite word_ldiff. by_flags. Qed.
Lemma word_clear_sw_link e s w l : Z.ldiff (word e s w l n) (Z.lor MTX_SHWANTED MTX_EXLINK) = word e false w false n.
Proof. change (Z.lor MTX_SHWANTED MTX_EXLINK) with (5 * 2 ^ 28). rewrite word_ldiff. by_flags. Qed.

Lemma word_and_link e s w l : Z.land (word e s w l n) MTX_EXLINK = word false false false l 0.
Proof. change MTX_EXLINK with (1 * 2 ^ 28 + 0). rewrite word_land by done. rewrite Z.land_0_r. by_flags. Qed.
Lemma word_add_sw e s w l : Z.lor (word e false w l n) (Z.land (word e s w l n) MTX_SHWANTED) = word e s w l n.
Proof.
  change MTX_SHWANTED with (4 * 2 ^ 28 + 0). rewrite word_land by done. rewrite Z.land_0_r, Z.add_0_r, word_lor. by_flags.
Qed.

Lemma word_succ e s w l : counts (n + 1) → u32 (word e s w l n + 1) = word e s w l (n + 1).
Proof.
  rewrite counts_iff. intros H. pose proof (flags_range e s w l). unfold word. rewrite <- Z.add_assoc. apply unsigned_of_small.
  apply is_u32_iff. lia.
Qed.
Lemma word_pred e s w l : counts (n - 1) → u32 (word e s w l n - 1) = word e s w l (n - 1).
Proof.
  rewrite counts_iff. intros H. pose proof (flags_range e s w l). unfold word. rewrite <- Z.add_sub_assoc. apply unsigned_of_small.
  apply is_u32_iff. lia.
Qed.

End word.

Lemma word_0 : 0 = word false false false false 0. Proof. done. Qed.
Lemma word_1 : 1 = word false false false false 1. Proof. done. Qed.
Lemma word_lock_ex : lock_ex = word true false false false 1. Proof. done. Qed.
Lemma word_want_1 : Z.lor MTX_EXWANTED 1 = word false false true false 1. Proof. done. Qed.
Lemma word_ex_want_1 : Z.lor (Z.lor MTX_EXCLUSIVE MTX_EXWANTED) 1 = word true false true false 1. Proof. done. Qed.

(** * The ring *)

Record ring (m : mtx) (rs : list address) : Prop := {
  ring_first : mtx_first m = head rs;
  ring_nodup : NoDup rs;
  ring_step : ∀ i a b, rs !! i = Some a → rs !! S i = Some b → next (link_at m a) = b ∧ prev (link_at m b) = a;
  ring_wrap : ∀ a b, last rs = Some a → head rs = Some b → next (link_at m a) = b ∧ prev (link_at m b) = a
}.

Lemma ring_ext m m' rs : mtx_first m' = mtx_first m →
  (∀ a, a ∈ rs → next (link_at m' a) = next (link_at m a) ∧ prev (link_at m' a) = prev (link_at m a)) → ring m rs → ring m' rs.
Proof.
  intros Hf H [H1 H2 H3 H4]. split; [by rewrite Hf|done| |].
  - intros i a b Ha Hb. destruct (H a) as [-> _]; [by eapply list_elem_of_lookup_2|]. destruct (H b) as [_ ->]; [by eapply list_elem_of_lookup_2|]. by eapply H3.
  - intros a b Ha Hb. destruct (H a) as [-> _]; [by apply last_Some_elem_of|]. destruct (H b) as [_ ->]; [by apply head_Some_elem_of|]. by apply H4.
Qed.

(** Everything but the links. *)
Definition same_but_links (m m' : mtx) : Prop :=
  mtx_lock m' = mtx_lock m ∧ mtx_refs m' = mtx_refs m ∧ mtx_owner m' = mtx_owner m.

Lemma set_link_at l v m y : link_at (set_link l v m) y = if decide (y = l) then v else link_at m y.
Proof. cbn. unfold insert, fn_insert. by repeat case_decide. Qed.

(** What [link_in] stores behind the last link [z] of a ring that starts with [f]. *)
Lemma link_in_at m l td f z x : mtx_first m = Some f → prev (link_at m f) = z → l ≠ f → l ≠ z →
  link_at (link_in l td m) x =
  if decide (x = l) then Link f z (Some td) MTX_LINK_LINKED
  else Link (if decide (x = z) then l else next (link_at m x)) (if decide (x = f) then l else prev (link_at m x))
    (link_owner (link_at m x)) (state (link_at m x)).
Proof.
  intros Hf Hz H1 H2. unfold link_in. set (m1 := set_state _ _ _).
  assert (A1 : ∀ y, link_at m1 y = if decide (y = l) then Link (next (link_at m l)) (prev (link_at m l)) (Some td) MTX_LINK_LINKED else link_at m y).
  { intros y. unfold m1, set_state, set_link_owner. rewrite !set_link_at. case_decide; [|done]. by rewrite decide_True. }
  assert (mtx_first m1 = Some f) as -> by done. set (m2 := set_next l f m1).
  assert (A2 : ∀ y, link_at m2 y = if decide (y = l) then Link f (prev (link_at m l)) (Some td) MTX_LINK_LINKED else link_at m y).
  { intros y. unfold m2, set_next. rewrite !set_link_at, !A1, (decide_True (P := l = l)) by done. by case_decide. }
  assert (prev (link_at m2 (next (link_at m2 l))) = z) as -> by by rewrite (A2 l), decide_True, A2, decide_False by done.
  set (m3 := set_prev l z m2).
  assert (A3 : ∀ y, link_at m3 y = if decide (y = l) then Link f z (Some td) MTX_LINK_LINKED else link_at m y).
  { intros y. unfold m3, set_prev. rewrite !set_link_at, !A2, (decide_True (P := l = l)) by done. by case_decide. }
  assert (next (link_at m3 l) = f) as -> by by rewrite A3, decide_True. set (m4 := set_prev f l m3).
  assert (A4 : ∀ y, link_at m4 y = if decide (y = l) then Link f z (Some td) MTX_LINK_LINKED
    else Link (next (link_at m y)) (if decide (y = f) then l else prev (link_at m y)) (link_owner (link_at m y)) (state (link_at m y))).
  { intros y. unfold m4, set_prev. rewrite !set_link_at, !A3, (decide_False (P := f = l)) by done. destruct (decide (y = f)) as [->|].
    - by rewrite decide_False.
    - by case_decide; destruct (link_at m y). }
  assert (prev (link_at m4 l) = z) as -> by by rewrite A4, decide_True. unfold set_next. rewrite set_link_at, !A4.
  rewrite (decide_False (P := z = l)) by done. destruct (decide (x = z)) as [->|]; [by rewrite (decide_False (P := z = l)) by done|done].
Qed.

Lemma link_in_alone_at m l td x : mtx_first m = None →
  mtx_first (link_in l td m) = Some l ∧
  link_at (link_in l td m) x = if decide (x = l) then Link l l (Some td) MTX_LINK_LINKED else link_at m x.
Proof.
  intros Hf. unfold link_in. cbn [set_state set_link_owner set_link mtx_first]. rewrite Hf. split; [done|].
  unfold set_next, set_prev, set_state, set_link_owner. cbn [set_first link_at].
  rewrite !set_link_at. case_decide; [|done]. by rewrite !(decide_True (P := l = l)).
Qed.

Lemma link_in_same m l td : same_but_links m (link_in l td m).
Proof. unfold link_in. by destruct (mtx_first _). Qed.

(** What [link_out] stores when the link is followed by [g] and preceded by [z]. *)
Lemma link_out_at m l g z x : next (link_at m l) = g → prev (link_at m l) = z → g ≠ l → z ≠ l → 
  mtx_first (link_out l m) = Some g ∧
  link_at (link_out l m) x =
  Link (if decide (x = z) then g else next (link_at m x)) (if decide (x = g) then z else prev (link_at m x))
    (link_owner (link_at m x)) (state (link_at m x)).
Proof.
  intros Hg Hz H1 H2. unfold link_out. rewrite decide_False by congruence. split; [by rewrite <- Hg|].
  cbn [set_first link_at]. rewrite Hg. set (m2 := set_prev _ _ _).
  assert (A2 : ∀ y, link_at m2 y = Link (next (link_at m y)) (if decide (y = g) then z else prev (link_at m y))
    (link_owner (link_at m y)) (state (link_at m y))).
  { intros y. unfold m2, set_prev. rewrite set_link_at. cbn [set_first link_at]. rewrite Hz.
    case_decide; [by subst|by destruct (link_at m y)]. }
  assert (prev (link_at m2 l) = z) as -> by by rewrite A2, decide_False. assert (next (link_at m2 l) = g) as -> by by rewrite A2.
  unfold set_next. rewrite set_link_at, !A2. case_decide; [by subst|done].
Qed.

Lemma link_out_alone m l : next (link_at m l) = l → link_out l m = set_first None m.
Proof. intros H. unfold link_out. by rewrite decide_True. Qed.

Lemma link_out_same m l : same_but_links m (link_out l m).
Proof. unfold link_out. by case_decide. Qed.

Lemma ring_in m rs l td : ring m rs → l ∉ rs → ring (link_in l td m) (rs ++ [l]) ∧
  link_owner (link_at (link_in l td m) l) = Some td ∧ state (link_at (link_in l td m) l) = MTX_LINK_LINKED ∧
  ∀ x, x ≠ l → link_owner (link_at (link_in l td m) x) = link_owner (link_at m x) ∧
    state (link_at (link_in l td m) x) = state (link_at m x).
Proof.
  intros [Hf Hnd Hs Hw] Hl. destruct rs as [|f rs].
  - destruct (link_in_alone_at m l td l Hf) as [Hf' Hat]. rewrite decide_True in Hat by done. rewrite Hat. cbn. split; [split|].
    + done.
    + by apply NoDup_singleton.
    + intros [|i] a b; cbn; done.
    + cbn. intros a b [= <-] [= <-]. by rewrite Hat.
    + split; [done|]. split; [done|]. intros x Hx. destruct (link_in_alone_at m l td x Hf) as [_ ->]. by rewrite decide_False.
  - destruct (last (f :: rs)) as [z|] eqn:Ez; [|by apply last_None in Ez]. destruct (Hw z f eq_refl eq_refl) as [Hzf Hfz].
    assert (Hz : l ≠ z) by (intros ->; by apply Hl, last_Some_elem_of). assert (Hlf : l ≠ f) by (intros ->; apply Hl; left).
    pose proof (λ x, link_in_at m l td f z x Hf Hfz Hlf Hz) as Hat. split; [split|].
    + unfold link_in. cbn [set_state set_link_owner set_link mtx_first]. by rewrite Hf.
    + apply NoDup_app. split; [done|]. split; [|by apply NoDup_singleton]. intros x Hx ->%list_elem_of_singleton. done.
    + intros i a b Ha Hb. rewrite !Hat. assert (Ha' : (f :: rs) !! i = Some a).
      { rewrite lookup_app_l in Ha; [done|]. apply lookup_lt_Some in Hb. rewrite length_app in Hb. cbn in *. lia. }
      assert (Hal : a ≠ l) by (intros ->; by apply Hl; eapply list_elem_of_lookup_2). rewrite (decide_False (P := a = l)) by done.
      destruct (decide (S i < length (f :: rs))%nat) as [Hi|Hi].
      * rewrite lookup_app_l in Hb by done. destruct (Hs i a b Ha' Hb) as [En Ep].
        assert (Hbl : b ≠ l) by (intros ->; apply Hl; by eapply list_elem_of_lookup_2).
        rewrite (decide_False (P := b = l)) by done. cbn [next prev]. split.
        -- rewrite decide_False; [done|]. intros ->. rewrite last_lookup in Ez. pose proof (NoDup_lookup _ _ _ _ Hnd Ha' Ez). cbn in *. lia.
        -- rewrite decide_False; [done|]. intros ->. pose proof (NoDup_lookup (f :: rs) (S i) 0 f Hnd Hb eq_refl). lia.
      * assert (Hii : S i = length (f :: rs)) by (apply lookup_lt_Some in Ha'; lia).
        rewrite lookup_app_r, Hii, Nat.sub_diag in Hb by lia. injection Hb as <-. rewrite (decide_True (P := l = l)) by done. cbn.
        rewrite last_lookup, <- Hii in Ez. cbn [pred] in Ez. rewrite Ha' in Ez. injection Ez as ->. by rewrite decide_True.
    + intros a b. rewrite last_snoc. cbn [head app]. intros [= <-] [= <-]. rewrite !Hat.
      rewrite (decide_True (P := l = l)), (decide_False (P := f = l)) by done. cbn. by rewrite decide_True.
    + rewrite Hat, decide_True by done. cbn. split; [done|]. split; [done|]. intros x Hx. by rewrite Hat, decide_False.
Qed.

Lemma ring_out m l rs : ring m (l :: rs) → ring (link_out l m) rs ∧
  (next (link_at m l) = l ↔ rs = []) ∧
  ∀ x, link_owner (link_at (link_out l m) x) = link_owner (link_at m x) ∧ state (link_at (link_out l m) x) = state (link_at m x).
Proof.
  intros [Hf Hnd Hs Hw]. destruct rs as [|g rs].
  - destruct (Hw l l eq_refl eq_refl) as [Hn _]. rewrite link_out_alone by done. split; [|by split].
    split; cbn; [done|by apply NoDup_nil|done|done].
  - destruct (Hs 0%nat l g eq_refl eq_refl) as [Hn Hp].
    destruct (last (g :: rs)) as [z|] eqn:Ez; [|by apply last_None in Ez].
    destruct (Hw z l) as [Hzn Hlp]; [by rewrite last_cons, Ez|done|].
    apply NoDup_cons in Hnd as [Hl Hnd]. assert (Hgl : g ≠ l) by (intros ->; apply Hl; left).
    assert (Hzl : z ≠ l) by (intros ->; by apply Hl, last_Some_elem_of).
    pose proof (λ x, link_out_at m l g z x Hn Hlp Hgl Hzl) as Hat.
    assert (Hat' : ∀ x, link_at (link_out l m) x = _) by (intros x; apply Hat).
    split; [|split; [split; [congruence|done]|intros x; by rewrite Hat']]. split.
    + by destruct (Hat l).
    + done.
    + intros i a b Ha Hb. rewrite !Hat'. cbn [next prev]. destruct (Hs (S i) a b Ha Hb) as [En Ep]. split.
      * rewrite decide_False; [done|]. intros ->. rewrite last_lookup in Ez. pose proof (NoDup_lookup _ _ _ _ Hnd Ha Ez).
        apply lookup_lt_Some in Hb. cbn in *. lia.
      * rewrite decide_False; [done|]. intros ->. pose proof (NoDup_lookup (g :: rs) (S i) 0 g Hnd Hb eq_refl). lia.
    + intros a b Ha. rewrite Ez in Ha. injection Ha as <-. cbn. intros [= <-]. rewrite !Hat'. cbn. by rewrite !decide_True.
Qed.

End MutexTheory.
