(* ===== verification/MutexSystem.v ===== *)
(** Threads that share one mutex: what they call, and their accesses in any
    interleaving. *)

From stdpp Require Import base functions list gmap.
From S2P Require Import Prelude Mutex.

Module MutexSystem.
Import Mutex.

(** * Threads *)

(** What a thread calls. *)
Inductive op :=
  | OpLock (a : wait)            (* mtx_lock, mtx_lock_ex, mtx_lock_ex_quick, mtx_lock_ex_link *)
  | OpLockSh (flags to : Z)      (* mtx_lock_sh, mtx_lock_sh_quick *)
  | OpSpin                       (* mtx_spinlock *)
  | OpTry                        (* mtx_lock_ex_try, mtx_spinlock_try *)
  | OpTrySh                      (* mtx_lock_sh_try *)
  | OpDowngrade
  | OpUpgrade                    (* mtx_upgrade_try *)
  | OpUnlock                     (* mtx_unlock, mtx_spinunlock *)
  | OpUnlockEx
  | OpUnlockSh
  | OpAbort (l : address).       (* mtx_abort_ex_link *)

Definition entry (o : op) : pc :=
  match o with
  | OpLock a => Ex_fast a
  | OpLockSh flags to => Sh_fast flags to
  | OpSpin => Spin_fast
  | OpTry => Try_fast
  | OpTrySh => TrySh_fast
  | OpDowngrade => Down_owner
  | OpUpgrade => Up_fast
  | OpUnlock => Fast_read true
  | OpUnlockEx => Fast_read false
  | OpUnlockSh => Fast_clear 1
  | OpAbort l => Abort_read l
  end.

(** A thread is outside the functions of the mutex, or inside one that it
    called when it held the mutex exclusively [ex] times. *)
Inductive status :=
  | Idle
  | Running (o : op) (ex : Z) (p : pc).

(** A thread, the sleep queue it is on, and how often it may rely on holding
    the mutex exclusively and shared: from the return of the call that gave it
    to the call that takes it. *)
Record thread := Thread {
  t_status : status;
  t_wchan : option ident;
  t_ex : Z;
  t_sh : Z
}.

Record system := System {
  mx : mtx;
  threads : gmap Z thread
}.

(** What the caller can no longer rely on. *)
Definition part_with (o : op) (ex sh : Z) : Z * Z :=
  match o with
  | OpUnlock => if 0 <? ex then (ex - 1, sh) else (ex, sh - 1)
  | OpUnlockEx => (ex - 1, sh)
  | OpUnlockSh => (ex, sh - 1)
  | OpUpgrade => if 0 <? ex then (ex, sh) else (ex, sh - 1)
  | OpDowngrade => (0, sh)
  | _ => (ex, sh)
  end.

(** What the caller can rely on when the function has returned [error]. *)
Definition settle (o : op) (ex0 error ex sh : Z) : Z * Z :=
  match o with
  | OpLock _ | OpSpin | OpTry => if error =? 0 then (ex + 1, sh) else (ex, sh)
  | OpLockSh _ _ | OpTrySh => if error =? 0 then (ex, sh + 1) else (ex, sh)
  | OpUpgrade => if 0 <? ex0 then (ex, sh) else if error =? 0 then (ex + 1, sh) else (ex, sh + 1)
  | OpDowngrade => (ex, sh + ex0)
  | _ => (ex, sh)
  end.

Definition call (td : Z) (th : thread) (o : op) (s : system) : system :=
  let (ex, sh) := part_with o (t_ex th) (t_sh th) in
  System (mx s) (<[td := Thread (Running o (t_ex th) (entry o)) (t_wchan th) ex sh]> (threads s)).

Definition proceed (th : thread) (o : op) (ex : Z) (pr : progress) (e : effect) : thread :=
  let wchan := match e with Interlock id => Some id | Remove => None | _ => t_wchan th end in
  match pr with
  | Go p => Thread (Running o ex p) wchan (t_ex th) (t_sh th)
  | Return error => let (x, y) := settle o ex error (t_ex th) (t_sh th) in Thread Idle wchan x y
  end.

Definition wake (id : ident) (th : thread) : thread :=
  if decide (t_wchan th = Some id) then Thread (t_status th) None (t_ex th) (t_sh th) else th.

Definition woken (e : effect) (ths : gmap Z thread) : gmap Z thread :=
  match e with Wakeup id => wake id <$> ths | _ => ths end.

Definition perform (td : Z) (th : thread) (o : op) (ex : Z) (p : pc) (err : Z) (s : system) : outcome system :=
  let* (pr, m, e) := exec td err p (mx s) in
  Ok (System m (woken e (<[td := proceed th o ex pr e]> (threads s)))).

(** The count is not yet as large as it can be. *)
Definition room (m : mtx) : bool := negb (Z.land (mtx_lock m) MTX_MASK =? MTX_MASK).

(** Threads make calls that [may] allows, one access after the other. *)
Inductive step (may : Z → thread → op → Prop) (s : system) : system → Prop :=
  | step_call td th o :
      threads s !! td = Some th → t_status th = Idle → may td th o → step may s (call td th o s)
  | step_exec td th o ex p err s' :
      threads s !! td = Some th → t_status th = Running o ex p → enabled p (t_wchan th) err = true → room (mx s) = true →
      perform td th o ex p err s = Ok s' → step may s s'.

(** A mutex that was just initialised, and threads that hold nothing. *)
Definition initial (s : system) : Prop :=
  (∃ m, mx s = mtx_init m) ∧
  ∀ td th, threads s !! td = Some th → th = Thread Idle None 0 0.

(** The calls after which the mutex stays correct: no signals, no timeouts, no
    abort, no downgrade; an upgrade of a shared lock. *)
Definition plain (td : Z) : wait := Wait (Stack td) 0 0.

Definition careful (td : Z) (th : thread) (o : op) : Prop :=
  match o with
  | OpLock a => a = plain td
  | OpLockSh flags to => flags = 0 ∧ to = 0
  | OpSpin | OpTry | OpTrySh => True
  | OpUpgrade | OpUnlockSh => 0 < t_sh th
  | OpUnlock => 0 < t_ex th ∨ 0 < t_sh th
  | OpUnlockEx => 0 < t_ex th
  | OpDowngrade | OpAbort _ => False
  end.

(** ** Schedules that can be evaluated *)

Inductive event :=
  | Call (td : Z) (o : op)
  | Access (td err : Z).

#[export] Instance wait_eq_dec : EqDecision wait.
Proof. solve_decision. Defined.
#[export] Instance careful_dec td th o : Decision (careful td th o).
Proof. destruct o; cbn; apply _. Defined.

Section schedule.
Context (may : Z → thread → op → Prop) `{∀ td th o, Decision (may td th o)}.

Definition happen (ev : event) (s : system) : option system :=
  match ev with
  | Call td o =>
      th ← threads s !! td;
      match t_status th with
      | Idle => if decide (may td th o) then Some (call td th o s) else None
      | Running _ _ _ => None
      end
  | Access td err =>
      th ← threads s !! td;
      match t_status th with
      | Idle => None
      | Running o ex p =>
          if enabled p (t_wchan th) err && room (mx s) then
            match perform td th o ex p err s with Ok s' => Some s' | _ => None end
          else None
      end
  end.

Fixpoint schedule (evs : list event) (s : system) : option system :=
  match evs with
  | [] => Some s
  | ev :: evs => s' ← happen ev s; schedule evs s'
  end.

Lemma happen_step ev s s' : happen ev s = Some s' → step may s s'.
Proof.
  destruct ev as [td o|td err]; cbn; destruct (threads s !! td) as [th|] eqn:Htd; cbn; try done;
    destruct (t_status th) as [|o2 ex p] eqn:Hst; try done.
  - case_decide; [|done]. intros [= <-]. by apply step_call.
  - destruct (enabled _ _ _) eqn:He; [|done]. destruct (room _) eqn:Hr; [|done]. cbn.
    destruct (perform _ _ _ _ _ _ _) eqn:Hp; try done. intros [= ->]. by apply (step_exec _ _ td th o2 ex p err).
Qed.

Lemma schedule_steps evs s s' : schedule evs s = Some s' → rtc (step may) s s'.
Proof.
  revert s. induction evs as [|ev evs IH]; cbn; intros s; [by intros [= ->]|].
  destruct (happen ev s) as [s2|] eqn:E; [|done]. cbn. intros Hs. apply rtc_l with s2; [by apply (happen_step ev)|by apply IH].
Qed.

End schedule.

(** Threads that come to a new mutex. *)
Definition newcomers (tds : list Z) : system :=
  System (mtx_init (Mtx 0 0 None None (λ _, Link (Stack 0) (Stack 0) None 0)))
    (list_to_map ((λ td, (td, Thread Idle None 0 0)) <$> tds)).

Lemma newcomers_initial tds : initial (newcomers tds).
Proof.
  split; [by eexists|]. intros td th Hth. apply elem_of_list_to_map_2, list_elem_of_fmap in Hth as (x & E & _). by injection E as _ ->.
Qed.

End MutexSystem.
