(* ===== verification/MutexInv.v ===== *)
(** The invariant of a mutex that careful threads share, and the ways in which
    a step moves from one state that satisfies it to the next. *)

From stdpp Require Import base functions list gmap.
From S2P Require Import Prelude Mutex MutexTheory MutexSystem.

Module MutexInv.
Import Mutex MutexTheory MutexSystem.

(** * What a thread is to the mutex *)

Inductive role :=
  | Out                                 (* nothing of the mutex *)
  | Pend                                (* it has set MTX_EXCLUSIVE, mtx_owner is to follow *)
  | UnlEx                               (* it gives up an exclusive lock *)
  | UnlNul                              (* the same, and mtx_owner is cleared *)
  | UnlSh                               (* it gives up a shared lock *)
  | Upg                                 (* it upgrades a shared lock *)
  | Enq                                 (* it has set MTX_EXLINK to wait *)
  | Lnk (crit : bool)                   (* its link is or was in the ring; crit: it holds MTX_EXLINK *)
  | Got                                 (* it was woken with the lock *)
  | Chain0                              (* it holds MTX_EXLINK to hand the lock on *)
  | Chain1 (l : address) (clock : Z)    (* it has told [l] *)
  | Chain2 (l : address) (clock : Z)    (* and stored the owner *)
  | Wake (l : address).                 (* and cleared MTX_EXLINK *)

Definition role_of (ex : Z) (p : pc) : role :=
  let unl := if 0 <? ex then UnlEx else UnlSh in
  match p with
  | Ex_owner | Spin_owner | Spin_outer | Try_owner | Up_owner => Pend
  | Ex_early _ | Ex_link _ => Enq
  | Ex_interlock _ | Ex_unlink _ => Lnk true
  | Ex_tsleep _ | Ex_asleep _ => Lnk false
  | Ex_woken _ _ | Ex_acquired _ _ | Ex_mine _ => Got
  | Up_fast | Up_read | Up_set _ => Upg
  | Fast_read _ | Fast_owner _ | Un_read | Un_shared _ | Un_owner _ | Un_chain _ _ | Un_count _ => unl
  | Fast_clear lock => if lock =? lock_ex then UnlNul else unl
  | Un_exclusive _ => UnlNul
  | Chain_pop => Chain0
  | Chain_owner l clock => Chain1 l clock
  | Chain_read (Some l) clock => Chain2 l clock
  | Chain_clear (Some l) clock _ => Chain2 l clock
  | Chain_wakeup l => Wake l
  | _ => Out
  end.

Record view := View {
  v_role : role;
  v_ex : Z;
  v_sh : Z
}.

Definition view_of (th : thread) : view :=
  View (match t_status th with Idle => Out | Running _ ex p => role_of ex p end) (t_ex th) (t_sh th).

(** The exclusive and shared counts a thread has in the word. *)
Definition in_ex (m : mtx) (u : Z) (r : role) : Z :=
  match r with
  | Pend | UnlEx | UnlNul | Chain0 => 1
  | Lnk _ | Got => if state (link_at m (Stack u)) =? MTX_LINK_ACQUIRED then 1 else 0
  | _ => 0
  end.
Definition exl (m : mtx) (u : Z) (v : view) : Z := v_ex v + in_ex m u (v_role v).
Definition shl (v : view) : Z := v_sh v + match v_role v with UnlSh | Upg => 1 | _ => 0 end.

(** It holds MTX_EXLINK; it has set MTX_EXWANTED for more than the ring holds;
    the link it hands the lock to. *)
Definition crit (r : role) : bool :=
  match r with Enq | Lnk true | Chain0 | Chain1 _ _ | Chain2 _ _ => true | _ => false end.
Definition wanting (r : role) : bool := match r with Enq | Chain1 _ _ | Chain2 _ _ => true | _ => false end.
Definition hands (r : role) : option address :=
  match r with Chain1 l _ | Chain2 l _ | Wake l => Some l | _ => None end.

(** The bits [mtx_chain_link] clears when [rs] is left in the ring. *)
Definition clock_of (rs : list address) : Z :=
  match rs with [] => Z.lor MTX_EXLINK MTX_EXWANTED | _ => MTX_EXLINK end.

Definition V (T : gmap Z view) (u : Z) : view := default (View Out 0 0) (T !! u).

(** ** The invariant *)

(** The counts: [h] holds the mutex exclusively, [n] is the count in the word. *)
Record Cnt (m : mtx) (T : gmap Z view) (e : bool) (n : Z) (h : option Z) : Prop := {
  c_h : e = bool_decide (is_Some h);
  c_nonneg : ∀ u, 0 ≤ v_ex (V T u) ∧ 0 ≤ v_sh (V T u);
  c_sum : map_sum shl T = if e then 0 else n;
  c_excl : ∀ u, exl m u (V T u) = if decide (h = Some u) then n else 0;
  c_owner : ∀ u, mtx_owner m = Some u → h = Some u ∨ ∃ a c, v_role (V T u) = Chain1 a c;
  c_null : ∀ u, v_role (V T u) = UnlNul → mtx_owner m ≠ Some u
}.

(** The ring [rs], with the flags for waiters ([w]) and for work on it ([l]). *)
Record Rng (m : mtx) (T : gmap Z view) (w l : bool) (rs : list address) : Prop := {
  r_exlink : l = true ↔ ∃ u, crit (v_role (V T u)) = true;
  r_uniq : ∀ u u', crit (v_role (V T u)) = true → crit (v_role (V T u')) = true → u = u';
  r_ring : ring m rs;
  r_linked : ∀ a, a ∈ rs → ∃ u c, a = Stack u ∧ v_role (V T u) = Lnk c ∧ state (link_at m a) = MTX_LINK_LINKED;
  r_waits : ∀ u c, v_role (V T u) = Lnk c → link_owner (link_at m (Stack u)) = Some u ∧
    (Stack u ∈ rs ∨ c = false ∧ state (link_at m (Stack u)) = MTX_LINK_ACQUIRED);
  r_got : ∀ u, v_role (V T u) = Got → link_owner (link_at m (Stack u)) = Some u ∧
    state (link_at m (Stack u)) = MTX_LINK_ACQUIRED ∧ mtx_owner m = Some u;
  r_want : w = true ↔ rs ≠ [] ∨ ∃ u, wanting (v_role (V T u)) = true;
  r_chain0 : ∀ u, v_role (V T u) = Chain0 → w = true ∧ v_ex (V T u) = 0;
  r_chain : ∀ u a c, v_role (V T u) = Chain1 a c ∨ v_role (V T u) = Chain2 a c → c = clock_of rs;
  r_to : ∀ u a, hands (v_role (V T u)) = Some a → ∃ u', a = Stack u' ∧ v_role (V T u') = Lnk false ∧
    state (link_at m a) = MTX_LINK_ACQUIRED ∧ ((∃ c, v_role (V T u) = Chain1 a c) ∨ mtx_owner m = Some u');
  r_hands : ∀ u u' a, hands (v_role (V T u)) = Some a → hands (v_role (V T u')) = Some a → u = u'
}.

Record G (m : mtx) (T : gmap Z view) (e s w l : bool) (n : Z) (h : option Z) (rs : list address) : Prop := {
  g_word : mtx_lock m = word e s w l n;
  g_counts : counts n;
  g_pos : e = true ∨ w = true → 1 ≤ n;
  g_sw : s = true → e = true;
  g_cnt : Cnt m T e n h;
  g_rng : Rng m T w l rs
}.


(** A waiting thread that was handed the lock and whose wakeup is done: what
    others do does not change that. *)
Definition released (m : mtx) (T : gmap Z view) (u : Z) : Prop :=
  state (link_at m (Stack u)) = MTX_LINK_ACQUIRED ∧ mtx_owner m = Some u ∧ v_role (V T u) = Lnk false ∧
  ∀ u', hands (v_role (V T u')) ≠ Some (Stack u).

Definition moved (m : mtx) (T : gmap Z view) (td : Z) (m' : mtx) (v : view) : Prop :=
  (∃ e s w l n h rs, G m' (<[td := v]> T) e s w l n h rs) ∧
  (∀ u, u ≠ td → released m T u → released m' (<[td := v]> T) u) ∧
  ∀ u, u ≠ td → state (link_at m (Stack u)) ≠ MTX_LINK_ABORTED → state (link_at m' (Stack u)) ≠ MTX_LINK_ABORTED.

Lemma V_insert T td v u : V (<[td := v]> T) u = if decide (u = td) then v else V T u.
Proof. unfold V. case_decide; [subst; by rewrite lookup_insert_eq|by rewrite lookup_insert_ne]. Qed.

Lemma V_lookup T td v : T !! td = Some v → V T td = v.
Proof. unfold V. by intros ->. Qed.

Section facts.
Context {m : mtx} {T : gmap Z view} {e s w l : bool} {n : Z} {h : option Z} {rs : list address}.
Context (H : G m T e s w l n h rs).

Lemma in_ex_range u r : 0 ≤ in_ex m u r ≤ 1.
Proof. unfold in_ex. destruct r; try lia; case_test; lia. Qed.

Lemma exl_nonneg u : 0 ≤ exl m u (V T u).
Proof. pose proof (c_nonneg _ _ _ _ _ (g_cnt _ _ _ _ _ _ _ _ _ H) u). pose proof (in_ex_range u (v_role (V T u))). unfold exl. lia. Qed.

Lemma shl_nonneg u : 0 ≤ shl (V T u).
Proof. pose proof (c_nonneg _ _ _ _ _ (g_cnt _ _ _ _ _ _ _ _ _ H) u). unfold shl. destruct (v_role (V T u)); lia. Qed.

(** A thread with an exclusive count holds the mutex alone. *)
Lemma holder u : 1 ≤ exl m u (V T u) → h = Some u ∧ e = true ∧ exl m u (V T u) = n.
Proof.
  intros Hu. pose proof (c_excl _ _ _ _ _ (g_cnt _ _ _ _ _ _ _ _ _ H) u) as E. case_decide; [|lia]. split; [done|]. split; [|done].
  rewrite (c_h _ _ _ _ _ (g_cnt _ _ _ _ _ _ _ _ _ H)). subst. by apply bool_decide_eq_true.
Qed.

(** A thread with a shared count: nobody holds the mutex exclusively. *)
Lemma sharer u v : T !! u = Some v → 1 ≤ shl v → e = false ∧ h = None ∧ shl v ≤ n.
Proof.
  intros Hu Hv. pose proof (c_sum _ _ _ _ _ (g_cnt _ _ _ _ _ _ _ _ _ H)) as E.
  assert (Hle : shl v ≤ map_sum shl T).
  { apply (map_sum_member _ _ u); [|done]. intros i a Hi. rewrite <- (V_lookup T i a Hi). apply shl_nonneg. }
  pose proof (c_h _ _ _ _ _ (g_cnt _ _ _ _ _ _ _ _ _ H)) as Eh. destruct e; [lia|]. split; [done|]. split; [|lia].
  symmetry in Eh. apply bool_decide_eq_false in Eh. destruct h; [by destruct Eh|done].
Qed.

Lemma acquired_holder u : v_role (V T u) = Lnk false ∨ v_role (V T u) = Got → state (link_at m (Stack u)) = MTX_LINK_ACQUIRED → h = Some u.
Proof.
  intros Hr Hs. apply holder. unfold exl, in_ex. pose proof (c_nonneg _ _ _ _ _ (g_cnt _ _ _ _ _ _ _ _ _ H) u).
  destruct Hr as [-> | ->]; rewrite Hs; cbn; lia.
Qed.

Lemma no_owner : h = None → mtx_owner m = None.
Proof.
  intros Hh. destruct (mtx_owner m) as [u|] eqn:E; [|done]. exfalso.
  destruct (c_owner _ _ _ _ _ (g_cnt _ _ _ _ _ _ _ _ _ H) u E) as [?|(a & c & Hc)]; [congruence|].
  destruct (r_to _ _ _ _ _ (g_rng _ _ _ _ _ _ _ _ _ H) u a) as (u' & -> & Hr & Hs & _); [by rewrite Hc|].
  pose proof (acquired_holder u' (or_introl Hr) Hs). congruence.
Qed.

Lemma worked_wanted : l = true → w = true.
Proof.
  destruct (g_rng _ _ _ _ _ _ _ _ _ H) as [Hl _ _ _ Hw _ Hwant H0 _ _ _]. intros Ht. apply Hl in Ht as (u & Hu).
  destruct (v_role (V T u)) as [| | | | | | |[]| | |a c|a c|] eqn:E; try done; try (apply Hwant; right; exists u; by rewrite E).
  - apply Hwant. left. destruct (Hw u true E) as [_ [Hin|[? _]]]; [|done]. by intros ->; apply not_elem_of_nil in Hin.
  - by apply (H0 u).
Qed.

End facts.

(** ** Steps of a thread that has nothing to do with the ring *)

Definition simple (r : role) : bool :=
  match r with Out | Pend | UnlEx | UnlNul | UnlSh | Upg => true | _ => false end.

Lemma simple_facts r : simple r = true → crit r = false ∧ wanting r = false ∧ hands r = None ∧ (∀ c, r ≠ Lnk c) ∧ r ≠ Got ∧ r ≠ Chain0 ∧
  (∀ a c, r ≠ Chain1 a c) ∧ (∀ a c, r ≠ Chain2 a c) ∧ ∀ m m' u, in_ex m u r = in_ex m' u r.
Proof. by destruct r. Qed.

Section update.
Context {m : mtx} {T : gmap Z view} {e s w l : bool} {n : Z} {h : option Z} {rs : list address}.
Context (H : G m T e s w l n h rs).
Context (td : Z) (v0 : view) (Htd : T !! td = Some v0).

(** What a step may do to the owner of the mutex, as far as waiting threads are
    concerned. *)
Definition owner_kept (m' : mtx) : Prop :=
  ∀ u, u ≠ td → h = Some u → mtx_owner m = Some u → mtx_owner m' = Some u.

Lemma kept_by_holder m' : 1 ≤ exl m td (V T td) → owner_kept m'.
Proof. intros Hx u Hu Hh. destruct (holder H td Hx) as (? & _). congruence. Qed.

Lemma kept_same m' : mtx_owner m' = mtx_owner m → owner_kept m'.
Proof. intros E u _ _ Ho. by rewrite E. Qed.

(** An existential over the threads does not see the update. *)
Lemma exists_update (f : role → bool) v : f (v_role v) = f (v_role v0) →
  (∃ u, f (v_role (V (<[td := v]> T) u)) = true) ↔ ∃ u, f (v_role (V T u)) = true.
Proof.
  intros Hf. split; intros [u Hu]; exists u; rewrite V_insert in *; case_decide; subst; try done.
  - by rewrite (V_lookup _ _ _ Htd), <- Hf.
  - by rewrite Hf, <- (V_lookup _ _ _ Htd).
Qed.

(** The threads in the ring are others. *)
Lemma linked_other a u c : a ∈ rs → simple (v_role v0) = true → a = Stack u → v_role (V T u) = Lnk c → u ≠ td.
Proof. intros _ Hs -> Hr ->. rewrite (V_lookup _ _ _ Htd) in Hr. by rewrite Hr in Hs. Qed.

Lemma not_in_ring : simple (v_role v0) = true → Stack td ∉ rs.
Proof.
  intros Hs Hin. destruct (r_linked _ _ _ _ _ (g_rng _ _ _ _ _ _ _ _ _ H) _ Hin) as (u & c & [= <-] & Hr & _).
  rewrite (V_lookup _ _ _ Htd) in Hr. by rewrite Hr in Hs.
Qed.

Context (m' : mtx) (v : view).
Context (Hfirst : mtx_first m' = mtx_first m) (Hlinks : ∀ a, a ≠ Stack td → link_at m' a = link_at m a).

Lemma in_ex_other u : u ≠ td → in_ex m' u (v_role (V T u)) = in_ex m u (v_role (V T u)).
Proof. intros Hu. unfold in_ex. by rewrite Hlinks by congruence. Qed.

Lemma Rng_simple : simple (v_role v0) = true → simple (v_role v) = true → owner_kept m' → Rng m' (<[td := v]> T) w l rs.
Proof.
  intros Hs0 Hs Hkeep. destruct (simple_facts _ Hs0) as (F1 & F2 & F3 & F4 & F5 & F6 & F7 & F8 & _).
  destruct (simple_facts _ Hs) as (E1 & E2 & E3 & E4 & E5 & E6 & E7 & E8 & _).
  pose proof (not_in_ring Hs0) as Hnin. pose proof (g_rng _ _ _ _ _ _ _ _ _ H) as HR. pose proof HR as [R1 R2 R3 R4 R5 R6 R7 R8 R9 R10 R11].
  assert (Hold : ∀ u, u = td → V T u = v0) by (intros ? ->; by apply V_lookup).
  split.
  - rewrite exists_update by congruence. done.
  - intros u u'. rewrite !V_insert. repeat case_decide; subst; try congruence. apply R2.
  - apply (ring_ext m); [done| |done]. intros a Ha. rewrite Hlinks by congruence. done.
  - intros a Ha. destruct (R4 a Ha) as (u & c & -> & Hr & Hst). exists u, c. rewrite V_insert, Hlinks by congruence.
    case_decide; [|done]. subst. congruence.
  - intros u c. rewrite V_insert. case_decide; [by intros ?%E4|]. rewrite Hlinks by congruence. apply R5.
  - intros u. rewrite V_insert. case_decide; [by intros ?%E5|]. rewrite Hlinks by congruence. intros Hg.
    destruct (R6 u Hg) as (? & ? & ?). split; [done|]. split; [done|]. apply Hkeep; [done| |done]. apply (acquired_holder H u); [by right|done].
  - rewrite exists_update by congruence. done.
  - intros u. rewrite V_insert. case_decide; [by intros ?%E6|apply R8].
  - intros u a c. rewrite V_insert. case_decide; [by intros [?%E7|?%E8]|apply R9].
  - intros u a. rewrite V_insert. case_decide; [by rewrite E3|]. intros Hu. destruct (R10 u a Hu) as (u' & -> & Hr & Hst & Ho).
    assert (u' ≠ td) by (intros ->; rewrite Hold in Hr by done; by apply (F4 false)). exists u'. rewrite V_insert, decide_False by done.
    rewrite Hlinks by congruence. split; [done|]. split; [done|]. split; [done|]. destruct Ho as [?|Ho]; [by left|right].
    apply Hkeep; [done| |done]. apply (acquired_holder H u'); [by left|done].
  - intros u u' a. rewrite !V_insert. repeat case_decide; subst; try congruence. apply R11.
Qed.

Lemma released_simple u : simple (v_role v) = true → owner_kept m' → u ≠ td → released m T u → released m' (<[td := v]> T) u.
Proof.
  intros Hs Hkeep Hu (Hst & Ho & Hr & Hh). destruct (simple_facts _ Hs) as (_ & _ & E3 & _). split; [by rewrite Hlinks by congruence|].
  split; [apply Hkeep; [done|apply (acquired_holder H u); [by left|done]|done]|]. rewrite V_insert, decide_False by done. split; [done|].
  intros u'. rewrite V_insert. case_decide; [by rewrite E3|apply Hh].
Qed.

Lemma Cnt_step (e' : bool) n' h' : 
  e' = bool_decide (is_Some h') → 0 ≤ v_ex v → 0 ≤ v_sh v →
  (if e then 0 else n) + (shl v - shl v0) = (if e' then 0 else n') →
  exl m' td v = (if decide (h' = Some td) then n' else 0) →
  (∀ u, u ≠ td → exl m u (V T u) = if decide (h' = Some u) then n' else 0) →
  (∀ u, mtx_owner m' = Some u → h' = Some u ∨ ∃ a c, v_role (V (<[td := v]> T) u) = Chain1 a c) →
  (∀ u, v_role (V (<[td := v]> T) u) = UnlNul → mtx_owner m' ≠ Some u) → Cnt m' (<[td := v]> T) e' n' h'.
Proof.
  intros Hh Hx0 Hs0 Hsum Hx Hxo Ho Hnul. destruct (g_cnt _ _ _ _ _ _ _ _ _ H) as [C1 C2 C3 C4 C5 C6]. split; try done.
  - intros u. rewrite V_insert. destruct (decide (u = td)); [done|apply C2].
  - by rewrite (map_sum_update _ _ _ _ _ Htd), C3.
  - intros u. rewrite V_insert. destruct (decide (u = td)) as [->|]; [done|]. rewrite <- Hxo by done. unfold exl. by rewrite in_ex_other.
Qed.

End update.

(** A test that is false. *)
Ltac not_decided E :=
  match type of E with context [decide ?P] => destruct (decide P); [discriminate|] end.

Section simple.
Context {m : mtx} {T : gmap Z view} {e s w l : bool} {n : Z} {h : option Z} {rs : list address}.
Context (H : G m T e s w l n h rs).
Context (td : Z) (v0 : view) (Htd : T !! td = Some v0) (Hs0 : simple (v_role v0) = true).

(** What a step does to the owner: nothing, unless the thread holds the mutex. *)
Definition owner_step (m' : mtx) (h' : option Z) : Prop :=
  (mtx_owner m' = mtx_owner m ∧ ∀ u, h = Some u → h' = Some u ∨ (u = td ∧ mtx_owner m ≠ Some td)) ∨
  ((mtx_owner m' = None ∨ (mtx_owner m' = Some td ∧ h' = Some td)) ∧ 1 ≤ exl m td v0).

(** Who holds the mutex afterwards. *)
Definition holder_step (n' : Z) (h' : option Z) : Prop :=
  (h' = h ∧ n' = n) ∨ ((h = None ∨ h = Some td) ∧ (h' = None ∨ h' = Some td)).

Lemma simple_step m' v e' s' n' h' :
  simple (v_role v) = true → mtx_first m' = mtx_first m → (∀ a, a ≠ Stack td → link_at m' a = link_at m a) →
  mtx_lock m' = word e' s' w l n' → counts n' → (e' = true ∨ w = true → 1 ≤ n') → (s' = true → e' = true) →
  e' = bool_decide (is_Some h') → 0 ≤ v_ex v → 0 ≤ v_sh v →
  (if e then 0 else n) + (shl v - shl v0) = (if e' then 0 else n') →
  exl m' td v = (if decide (h' = Some td) then n' else 0) →
  holder_step n' h' → owner_step m' h' → (v_role v = UnlNul → mtx_owner m' ≠ Some td) → moved m T td m' v.
Proof.
  intros Hs Hf Hl Hw Hn Hpos Hsw He Hx0 Hsh0 Hsum Hx Hho Hos Hnul.
  assert (Hkeep : owner_kept (m := m) (h := h) td m').
  { destruct Hos as [[Eo _]|[_ Hx1]]; [by apply kept_same|]. apply (kept_by_holder H). by rewrite (V_lookup _ _ _ Htd). }
  pose proof (g_cnt _ _ _ _ _ _ _ _ _ H) as [C1 C2 C3 C4 C5 C6]. split.
  - exists e', s', w, l, n', h', rs. split; try done; [|by apply (Rng_simple H td v0)].
    apply (Cnt_step H td v0 Htd); try done.
    + intros u Hu. rewrite C4. destruct Hho as [[-> ->]|[H1 H2]]; [done|]. rewrite !decide_False; [done| |]; intuition congruence.
    + intros u Ho. rewrite V_insert. destruct Hos as [[Eo Hk]|[[Eo|[Eo Eh]] _]]; [|congruence|left; congruence].
      rewrite Eo in Ho. destruct (C5 u Ho) as [Hu|(a & c & Hc)].
      * destruct (Hk u Hu) as [?|[-> ?]]; [by left|done].
      * right. exists a, c. destruct (decide (u = td)) as [->|]; [|done]. rewrite (V_lookup _ _ _ Htd) in Hc. by rewrite Hc in Hs0.
    + intros u. rewrite V_insert. destruct (decide (u = td)) as [->|Hu]; [done|]. intros Hr.
      destruct Hos as [[-> _]|[[->|[-> _]] _]]; [by apply C6|done|congruence].
  - split; [intros u Hu; by apply (released_simple H td)|]. intros u Hu. by rewrite Hl by congruence.
Qed.

End simple.

Section transitions.
Context {m : mtx} {T : gmap Z view} {e s w l : bool} {n : Z} {h : option Z} {rs : list address}.
Context (H : G m T e s w l n h rs).
Context (td : Z) (v0 : view) (Htd : T !! td = Some v0) (Hs0 : simple (v_role v0) = true).

(** No change of the counts: calls, reads, comparisons that fail. *)
Lemma same_step m' v : simple (v_role v) = true → v_role v ≠ UnlNul → mtx_first m' = mtx_first m →
  (∀ a, a ≠ Stack td → link_at m' a = link_at m a) → mtx_lock m' = mtx_lock m → mtx_owner m' = mtx_owner m →
  0 ≤ v_ex v → 0 ≤ v_sh v → exl m td v = exl m td v0 → shl v = shl v0 → moved m T td m' v.
Proof.
  intros Hs Hnul Hf Hl Hw Ho Hx0 Hsh0 Hx Hsh. pose proof H as [G1 G2 G3 G4 [C1 C2 C3 C4 C5 C6] _].
  apply (simple_step H td v0 Htd Hs0 m' v e s n h); try done; try lia.
  - rewrite <- C4, (V_lookup _ _ _ Htd), <- Hx. unfold exl. f_equal. by destruct (v_role v).
  - by left.
  - left. split; [done|]. intros u Hu. by left.
Qed.

(** The first exclusive lock of a free mutex. *)
Lemma acquire_step v : mtx_lock m = 0 → v_role v0 = Out → v_role v = Pend → v_ex v = v_ex v0 → v_sh v = v_sh v0 →
  moved m T td (set_lock lock_ex m) v.
Proof.
  intros H0 Hr0 Hr Hx Hsh. pose proof H as [G1 G2 G3 G4 [C1 C2 C3 C4 C5 C6] _].
  rewrite G1, word_0 in H0. apply word_inj in H0 as (-> & -> & -> & -> & ->); [|done..].
  pose proof (C2 td) as [P1 P2]. pose proof (C4 td) as P3. rewrite (V_lookup _ _ _ Htd) in P1, P2, P3.
  assert (h = None) as -> by (symmetry in C1; apply bool_decide_eq_false in C1; by destruct h; [destruct C1|]).
  unfold exl in P3. rewrite Hr0 in P3. cbn in P3. not_decided P3.
  apply (simple_step H td v0 Htd Hs0 _ v true false 1 (Some td)); try done; try lia.
  - by rewrite Hr.
  - unfold shl. rewrite Hr, Hr0, Hsh. lia.
  - unfold exl. rewrite Hr, decide_True by done. cbn. lia.
  - right. split; [by left|by right].
  - left. by split.
  - by rewrite Hr.
Qed.

(** The owner is stored. *)
Lemma owner_stored v : v_role v0 = Pend → v_role v = Out ∨ v_role v = Pend → exl m td v = exl m td v0 → 0 ≤ v_ex v →
  v_sh v = v_sh v0 → moved m T td (set_owner (Some td) m) v.
Proof.
  intros Hr0 Hr Hx Hx0 Hsh. pose proof H as [G1 G2 G3 G4 [C1 C2 C3 C4 C5 C6] _].
  pose proof (C2 td) as [P1 P2]. rewrite (V_lookup _ _ _ Htd) in P1, P2.
  assert (Hx1 : 1 ≤ exl m td v0) by (unfold exl; rewrite Hr0; cbn; lia).
  destruct (holder H td) as (-> & -> & En); [by rewrite (V_lookup _ _ _ Htd)|]. rewrite (V_lookup _ _ _ Htd) in En.
  apply (simple_step H td v0 Htd Hs0 _ v true s n (Some td)); try done; try lia.
  - by destruct Hr as [-> | ->].
  - unfold shl. rewrite Hr0, Hsh. destruct Hr as [-> | ->]; lia.
  - rewrite decide_True by done. rewrite <- En, <- Hx. done.
  - by left.
  - right. split; [right; by split|done].
  - destruct Hr as [-> | ->]; done.
Qed.

(** One more exclusive lock of the holder. *)
Lemma again_step v : v_role v0 = Out → 1 ≤ v_ex v0 → counts (n + 1) →
  (v_role v = Out ∧ v_ex v = v_ex v0 + 1 ∨ v_role v = Pend ∧ v_ex v = v_ex v0) → v_sh v = v_sh v0 →
  moved m T td (set_lock (word e s w l (n + 1)) m) v.
Proof.
  intros Hr0 Hx0 Hn Hr Hsh. pose proof H as [G1 G2 G3 G4 [C1 C2 C3 C4 C5 C6] _].
  pose proof (C2 td) as [P1 P2]. rewrite (V_lookup _ _ _ Htd) in P1, P2.
  assert (Hx1 : exl m td v0 = v_ex v0) by (unfold exl; rewrite Hr0; cbn; lia).
  destruct (holder H td) as (-> & -> & En); [by rewrite (V_lookup _ _ _ Htd), Hx1|]. rewrite (V_lookup _ _ _ Htd) in En.
  rewrite counts_iff in G2.
  apply (simple_step H td v0 Htd Hs0 _ v true s (n + 1) (Some td)); try done; try lia.
  - by destruct Hr as [[-> _]|[-> _]].
  - unfold shl. rewrite Hr0, Hsh. destruct Hr as [[-> _]|[-> _]]; lia.
  - rewrite decide_True by done. unfold exl. destruct Hr as [[-> ->]|[-> ->]]; cbn; lia.
  - right. split; by right.
  - left. split; [done|]. by left.
  - destruct Hr as [[-> _]|[-> _]]; done.
Qed.

(** A shared lock. *)
Lemma share_step v : e = false → v_role v0 = Out → counts (n + 1) → v_role v = Out → v_ex v = v_ex v0 → v_sh v = v_sh v0 + 1 →
  moved m T td (set_lock (word e s w l (n + 1)) m) v.
Proof.
  intros -> Hr0 Hn Hr Hx Hsh. pose proof H as [G1 G2 G3 G4 [C1 C2 C3 C4 C5 C6] _].
  pose proof (C2 td) as [P1 P2]. pose proof (C4 td) as P3. rewrite (V_lookup _ _ _ Htd) in P1, P2, P3.
  assert (h = None) as -> by (symmetry in C1; apply bool_decide_eq_false in C1; by destruct h; [destruct C1|]).
  unfold exl in P3. rewrite Hr0 in P3. cbn in P3. not_decided P3. rewrite counts_iff in G2.
  apply (simple_step H td v0 Htd Hs0 _ v false s (n + 1) None); try done; try lia.
  - by rewrite Hr.
  - unfold shl. rewrite Hr0, Hr, Hsh. lia.
  - unfold exl. rewrite Hr, decide_False by done. cbn. lia.
  - right. split; by left.
  - left. by split.
  - by rewrite Hr.
Qed.

(** MTX_SHWANTED. *)
Lemma shwanted_step : e = true → v_role v0 ≠ UnlNul → moved m T td (set_lock (word e true w l n) m) v0.
Proof.
  intros -> Hnul. pose proof H as [G1 G2 G3 G4 [C1 C2 C3 C4 C5 C6] _].
  pose proof (C2 td) as [P1 P2]. pose proof (C4 td) as P3. rewrite (V_lookup _ _ _ Htd) in P1, P2, P3.
  apply (simple_step H td v0 Htd Hs0 _ v0 true true n h); try done; try lia.
  - by left.
  - left. split; [done|]. intros u Hu. by left.
Qed.

(** The last shared lock becomes exclusive. *)
Lemma upgrade_step v : v_role v0 = Upg → mtx_lock m = word false false w l 1 →
  (v_role v = Out ∧ v_ex v = v_ex v0 + 1 ∨ v_role v = Pend ∧ v_ex v = v_ex v0) → v_sh v = v_sh v0 →
  moved m T td (set_lock (word true false w l 1) m) v.
Proof.
  intros Hr0 Hlk Hr Hsh. pose proof H as [G1 G2 G3 G4 [C1 C2 C3 C4 C5 C6] _].
  pose proof (C2 td) as [P1 P2]. pose proof (C4 td) as P3. rewrite (V_lookup _ _ _ Htd) in P1, P2, P3.
  rewrite G1 in Hlk. apply word_inj in Hlk as (-> & -> & _ & _ & ->); [|done..].
  assert (h = None) as -> by (symmetry in C1; apply bool_decide_eq_false in C1; by destruct h; [destruct C1|]).
  unfold exl in P3. rewrite Hr0 in P3. cbn in P3. not_decided P3.
  assert (Hsh1 : shl v0 ≤ 1). { destruct (sharer H td v0 Htd) as (_ & _ & ?); [unfold shl; rewrite Hr0; lia|done]. }
  unfold shl in Hsh1. rewrite Hr0 in Hsh1.
  apply (simple_step H td v0 Htd Hs0 _ v true false 1 (Some td)); try done; try lia.
  - by destruct Hr as [[-> _]|[-> _]].
  - unfold shl. rewrite Hr0, Hsh. destruct Hr as [[-> _]|[-> _]]; lia.
  - rewrite decide_True by done. unfold exl. destruct Hr as [[-> ->]|[-> ->]]; cbn; lia.
  - right. split; [by left|by right].
  - left. by split.
  - destruct Hr as [[-> _]|[-> _]]; done.
Qed.

(** The holder clears the owner before it gives up the mutex. *)
Lemma null_step v : v_role v0 = UnlEx → v_role v = UnlNul → v_ex v = v_ex v0 → v_sh v = v_sh v0 → moved m T td (set_owner None m) v.
Proof.
  intros Hr0 Hr Hx Hsh. pose proof H as [G1 G2 G3 G4 [C1 C2 C3 C4 C5 C6] _].
  pose proof (C2 td) as [P1 P2]. rewrite (V_lookup _ _ _ Htd) in P1, P2.
  assert (Hx1 : exl m td v0 = v_ex v0 + 1) by (unfold exl; by rewrite Hr0).
  destruct (holder H td) as (-> & -> & En); [rewrite (V_lookup _ _ _ Htd); lia|]. rewrite (V_lookup _ _ _ Htd) in En.
  apply (simple_step H td v0 Htd Hs0 _ v true s n (Some td)); try done; try lia.
  - by rewrite Hr.
  - unfold shl. rewrite Hr0, Hr, Hsh. lia.
  - rewrite decide_True by done. unfold exl. rewrite Hr. cbn. lia.
  - by left.
  - right. split; [by left|lia].
Qed.

(** One of several locks is given up. *)
Lemma count_step v : v_role v0 = UnlEx ∨ v_role v0 = UnlSh → n ≠ 1 → v_role v = Out → v_ex v = v_ex v0 → v_sh v = v_sh v0 →
  moved m T td (set_lock (word e s w l (n - 1)) m) v ∧ counts (n - 1).
Proof.
  intros Hr0 Hn1 Hr Hx Hsh. pose proof H as [G1 G2 G3 G4 [C1 C2 C3 C4 C5 C6] _].
  pose proof (C2 td) as [P1 P2]. pose proof (C4 td) as P3. rewrite (V_lookup _ _ _ Htd) in P1, P2, P3. rewrite counts_iff in G2.
  destruct Hr0 as [Hr0|Hr0].
  - assert (Hx1 : exl m td v0 = v_ex v0 + 1) by (unfold exl; by rewrite Hr0).
    destruct (holder H td) as (-> & -> & En); [rewrite (V_lookup _ _ _ Htd); lia|]. rewrite (V_lookup _ _ _ Htd) in En.
    split; [|rewrite counts_iff; lia].
    apply (simple_step H td v0 Htd Hs0 _ v true s (n - 1) (Some td)); try done; try lia; try (rewrite counts_iff; lia).
    + by rewrite Hr.
    + unfold shl. rewrite Hr0, Hr, Hsh. lia.
    + rewrite decide_True by done. unfold exl. rewrite Hr. cbn. lia.
    + right. split; by right.
    + left. split; [done|]. by left.
    + by rewrite Hr.
  - assert (Hs1 : shl v0 = v_sh v0 + 1) by (unfold shl; by rewrite Hr0).
    destruct (sharer H td v0 Htd ltac:(lia)) as (-> & -> & Hle). split; [|rewrite counts_iff; lia].
    unfold exl in P3. rewrite Hr0 in P3. cbn in P3. not_decided P3.
    apply (simple_step H td v0 Htd Hs0 _ v false s (n - 1) None); try done; try lia; try (rewrite counts_iff; lia).
    + by rewrite Hr.
    + unfold shl in *. rewrite Hr. lia.
    + unfold exl. rewrite Hr, decide_False by done. cbn. lia.
    + right. split; by left.
    + left. by split.
    + by rewrite Hr.
Qed.

(** The last lock is given up, and nobody waits for an exclusive one. *)
Lemma release_step v e0 s0 l0 : v_role v0 = UnlNul ∧ e0 = true ∨ (v_role v0 = UnlSh ∨ v_role v0 = UnlEx) ∧ e0 = false → mtx_lock m = word e0 s0 false l0 1 →
  v_role v = Out → v_ex v = v_ex v0 → v_sh v = v_sh v0 → moved m T td (set_lock 0 m) v ∧ l0 = false.
Proof.
  intros Hr0 Hlk Hr Hx Hsh. pose proof H as [G1 G2 G3 G4 [C1 C2 C3 C4 C5 C6] _].
  pose proof (C2 td) as [P1 P2]. pose proof (C4 td) as P3. rewrite (V_lookup _ _ _ Htd) in P1, P2, P3.
  rewrite G1 in Hlk. apply word_inj in Hlk as (-> & -> & -> & -> & ->); [|done..].
  assert (l0 = false) as -> by (destruct l0; [discriminate (worked_wanted H eq_refl)|done]). split; [|done].
  destruct Hr0 as [[Hr0 ->]|[Hr0 ->]].
  - assert (Hx1 : exl m td v0 = v_ex v0 + 1) by (unfold exl; by rewrite Hr0).
    destruct (holder H td) as (-> & _ & En); [rewrite (V_lookup _ _ _ Htd); lia|]. rewrite (V_lookup _ _ _ Htd) in En.
    apply (simple_step H td v0 Htd Hs0 _ v false false 0 None); try done; try lia; try (rewrite counts_iff; lia).
    + by rewrite Hr.
    + unfold shl. rewrite Hr0, Hr, Hsh. lia.
    + unfold exl. rewrite Hr, decide_False by done. cbn. lia.
    + right. split; [by right|by left].
    + left. split; [done|]. intros u [= <-]. right. split; [done|]. apply C6. by rewrite (V_lookup _ _ _ Htd).
    + by rewrite Hr.
  - assert (h = None) as -> by (symmetry in C1; apply bool_decide_eq_false in C1; by destruct h; [destruct C1|]).
    not_decided P3. destruct Hr0 as [Hr0|Hr0]; [|exfalso; unfold exl in P3; rewrite Hr0 in P3; cbn in P3; lia].
    assert (Hs1 : shl v0 = v_sh v0 + 1) by (unfold shl; by rewrite Hr0).
    destruct (sharer H td v0 Htd ltac:(lia)) as (_ & _ & Hle). unfold exl in P3. rewrite Hr0 in P3. cbn in P3.
    apply (simple_step H td v0 Htd Hs0 _ v false false 0 None); try done; try lia; try (rewrite counts_iff; lia).
    + by rewrite Hr.
    + unfold shl in *. rewrite Hr. lia.
    + unfold exl. rewrite Hr, decide_False by done. cbn. lia.
    + right. split; by left.
    + left. by split.
    + by rewrite Hr.
Qed.

End transitions.

(** ** Steps with the ring *)

Section ring.
Context {m : mtx} {T : gmap Z view} {e s w l : bool} {n : Z} {h : option Z} {rs : list address}.
Context (H : G m T e s w l n h rs).
Context (td : Z) (v0 : view) (Htd : T !! td = Some v0).

Ltac hyps := pose proof H as [G1 G2 G3 G4 [C1 C2 C3 C4 C5 C6] [R1 R2 R3 R4 R5 R6 R7 R8 R9 R10 R11]];
  pose proof (V_lookup _ _ _ Htd) as EV; pose proof (C2 td) as [P1 P2]; pose proof (C4 td) as P3; rewrite EV in P1, P2, P3.

(** A thread that holds MTX_EXLINK is the only one. *)
Lemma crit_only u : crit (v_role v0) = true → crit (v_role (V T u)) = true → u = td.
Proof. hyps. intros H0 Hu. apply R2; [done|by rewrite EV]. Qed.

Lemma crit_link : crit (v_role v0) = true → l = true.
Proof. hyps. intros H0. apply R1. exists td. by rewrite EV. Qed.

Lemma no_crit u : l = false → crit (v_role (V T u)) = false.
Proof. hyps. intros ->. destruct (crit (v_role (V T u))) eqn:E; [|done]. discriminate (proj2 R1 (ex_intro _ u E)). Qed.

Lemma not_linked : (∀ c, v_role v0 ≠ Lnk c) → Stack td ∉ rs.
Proof. hyps. intros Hr Hin. destruct (R4 _ Hin) as (u & c & [= <-] & Hu & _). rewrite EV in Hu. by apply (Hr c). Qed.

(** The counts when no count, owner or holder changes. *)
Lemma Cnt_same m' v : (∀ u, exl m' u (V (<[td := v]> T) u) = exl m u (V T u)) → mtx_owner m' = mtx_owner m →
  0 ≤ v_ex v → 0 ≤ v_sh v → shl v = shl v0 → v_role v ≠ UnlNul → (∀ a c, v_role v0 = Chain1 a c → v_role v = v_role v0) →
  Cnt m' (<[td := v]> T) e n h.
Proof.
  hyps. intros Hx Ho Hx0 Hs0 Hs Hnul Hch. split; try done.
  - intros u. rewrite V_insert. destruct (decide (u = td)); [done|apply C2].
  - by rewrite (map_sum_update _ _ _ _ _ Htd), Hs, C3, Z.sub_diag, Z.add_0_r.
  - intros u. by rewrite Hx.
  - intros u. rewrite Ho, V_insert. intros Hu. destruct (C5 u Hu) as [?|(a & c & Hc)]; [by left|right]. exists a, c.
    destruct (decide (u = td)) as [->|]; [|done]. rewrite EV in Hc. by rewrite (Hch a c).
  - intros u. rewrite V_insert. destruct (decide (u = td)); [done|]. rewrite Ho. apply C6.
Qed.

Lemma others_not_crit : crit (v_role v0) = true ∨ l = false → ∀ u, u ≠ td → crit (v_role (V T u)) = false.
Proof.
  intros [H0|Hl] u Hu; [|by apply no_crit]. destruct (crit (v_role (V T u))) eqn:E; [|done]. by destruct Hu; apply crit_only.
Qed.

Ltac ring_fields Hr0 Hr := split; intros; rewrite ?Hr0, ?Hr in *; simplify_eq; try done; try (by destruct_or?); try (by apply kept_same).

(** The counts of a step to a role with the same ones. *)
Ltac same_counts Hr0 Hr Hx Hsh :=
  apply Cnt_same; try (by rewrite ?Hr0, ?Hr, ?Hx, ?Hsh); [|try (unfold shl; by rewrite Hr0, Hr, Hsh)..];
  let u := fresh in intros u; rewrite V_insert; destruct (decide (u = td)) as [->|]; [|done]; unfold exl;
  by rewrite (V_lookup _ _ _ Htd), Hr0, Hr, Hx.

Lemma wanting_crit r : wanting r = true → crit r = true.
Proof. by destruct r. Qed.

Lemma exists_split (f : role → bool) v :
  (∃ u, f (v_role (V (<[td := v]> T) u)) = true) ↔ f (v_role v) = true ∨ ∃ u, u ≠ td ∧ f (v_role (V T u)) = true.
Proof.
  split.
  - intros [u Hu]. rewrite V_insert in Hu. destruct (decide (u = td)); [by left|right; by exists u].
  - intros [Hv|(u & Hu & Hf)]; [exists td; by rewrite V_insert, decide_True|exists u; by rewrite V_insert, decide_False].
Qed.

Lemma exists_self (f : role → bool) :
  (∃ u, f (v_role (V T u)) = true) ↔ f (v_role v0) = true ∨ ∃ u, u ≠ td ∧ f (v_role (V T u)) = true.
Proof. pose proof (exists_split f v0) as E. by rewrite insert_id in E. Qed.

(** What a step that stores nothing in the links has to keep to: [A] or [B] of
    the flags for work on the ring and for waiters, and what the thread's new
    role says. *)
Record ring_step (m' : mtx) (v : view) (w' l' : bool) : Prop := {
  rs_first : mtx_first m' = mtx_first m;
  rs_links : ∀ a, link_at m' a = link_at m a;
  rs_owner : owner_kept (m := m) (h := h) td m';
  rs_exlink : crit (v_role v) = crit (v_role v0) ∧ l' = l ∨ (crit (v_role v0) = true ∨ l = false) ∧ l' = crit (v_role v);
  rs_want : wanting (v_role v) = wanting (v_role v0) ∧ w' = w ∨
    (crit (v_role v0) = true ∨ l = false) ∧ w' = (bool_decide (rs ≠ []) || wanting (v_role v));
  rs_linked : Stack td ∈ rs → ∃ c, v_role v = Lnk c;
  rs_waits : ∀ c, v_role v = Lnk c → v_role v0 = Lnk true ∧ c = false;
  rs_got : v_role v = Got → link_owner (link_at m (Stack td)) = Some td ∧
    state (link_at m (Stack td)) = MTX_LINK_ACQUIRED ∧ mtx_owner m' = Some td;
  rs_chain0 : v_role v = Chain0 → w' = true ∧ v_ex v = 0;
  rs_chain : ∀ a c, v_role v = Chain1 a c ∨ v_role v = Chain2 a c → v_role v0 = Chain1 a c ∨ v_role v0 = Chain2 a c;
  rs_hands : ∀ a, hands (v_role v) = Some a → hands (v_role v0) = Some a ∧
    ∃ u', a = Stack u' ∧ mtx_owner m' = Some u';
  rs_target : v_role v0 = Lnk false → ∀ u, hands (v_role (V T u)) ≠ Some (Stack td)
}.

Lemma Rng_ring_step m' v w' l' : ring_step m' v w' l' → Rng m' (<[td := v]> T) w' l' rs.
Proof.
  intros [Hf Hl Hkeep Hex Hwant Hlinked Hwaits Hgot H0 Hch Hto Htar]. hyps.
  assert (Hnone : crit (v_role v0) = true ∨ l = false → ¬ ∃ u, u ≠ td ∧ crit (v_role (V T u)) = true).
  { intros Hc (u & Hu & E). by rewrite (others_not_crit Hc u Hu) in E. }
  assert (Hnw : crit (v_role v0) = true ∨ l = false → ¬ ∃ u, u ≠ td ∧ wanting (v_role (V T u)) = true).
  { intros Hc (u & Hu & E). apply (Hnone Hc). exists u. by split; [|apply wanting_crit]. }
  assert (Hacq : ∀ u a, u ≠ td → hands (v_role (V T u)) = Some a → ∃ u', a = Stack u' ∧ v_role (V (<[td := v]> T) u') = Lnk false ∧
    u' ≠ td ∧ state (link_at m a) = MTX_LINK_ACQUIRED ∧ h = Some u' ∧ ((∃ c, v_role (V T u) = Chain1 a c) ∨ mtx_owner m = Some u')).
  { intros u a Hu Ha. destruct (R10 u a Ha) as (u' & -> & Hu' & Hst & Ho). exists u'.
    assert (u' ≠ td) by (intros ->; rewrite EV in Hu'; by apply (Htar Hu' u)). rewrite V_insert, decide_False by done. split_and!; try done.
    apply (acquired_holder H u'); [by left|done]. }
  split.
  - rewrite exists_split. destruct Hex as [[-> ->]|[Hc ->]]; [by rewrite <- exists_self|]. specialize (Hnone Hc). tauto.
  - intros u u'. rewrite !V_insert. destruct (decide (u = td)) as [->|Hu], (decide (u' = td)) as [->|Hu']; try done; [| |apply R2];
      (intros Hc Hc'; destruct Hex as [[E _]|[Hc0 _]];
       [rewrite E in *; rewrite <- EV in *; by apply R2|exfalso; apply (Hnone Hc0); eauto]).
  - apply (ring_ext m); [done| |done]. intros a _. by rewrite Hl.
  - intros a Ha. destruct (R4 a Ha) as (u & c & -> & Hr & Hst). rewrite Hl. destruct (decide (u = td)) as [->|Hu].
    + destruct (Hlinked Ha) as [c' Hc']. exists td, c'. by rewrite V_insert, decide_True.
    + exists u, c. by rewrite V_insert, decide_False.
  - intros u c. rewrite V_insert, Hl. destruct (decide (u = td)) as [->|Hu]; [|apply R5].
    intros Hc. destruct (Hwaits c Hc) as [E0 ->]. rewrite <- EV in E0. destruct (R5 td true E0) as [? [?|[? _]]]; [|done]. split; [done|by left].
  - intros u. rewrite V_insert, Hl. destruct (decide (u = td)) as [->|Hu]; [done|]. intros Hr. destruct (R6 u Hr) as (? & Hst & Ho).
    split; [done|]. split; [done|]. apply Hkeep; [done| |done]. apply (acquired_holder H u); [by right|done].
  - rewrite exists_split. destruct Hwant as [[-> ->]|[Hc ->]]; [by rewrite <- exists_self|]. specialize (Hnw Hc).
    rewrite orb_true_iff, bool_decide_eq_true. tauto.
  - intros u. rewrite V_insert. destruct (decide (u = td)) as [->|Hu]; [done|]. intros Hr. destruct (R8 u Hr) as [Hw ?]. split; [|done].
    destruct Hwant as [[_ ->]|[Hc _]]; [done|]. exfalso. apply (Hnone Hc). exists u. by rewrite Hr.
  - intros u a c. rewrite V_insert. destruct (decide (u = td)) as [->|Hu]; [|apply R9]. intros Hr. apply (R9 td a c). rewrite EV. by apply Hch.
  - intros u a. rewrite V_insert. destruct (decide (u = td)) as [->|Hu].
    + intros Ha. destruct (Hto a Ha) as [Ha0 (u' & -> & Ho)]. rewrite <- EV in Ha0. destruct (R10 td _ Ha0) as (u'' & [= <-] & Hu' & Hst & _).
      exists u'. rewrite Hl. split; [done|]. split; [|split; [done|by right]]. rewrite V_insert. destruct (decide (u' = td)) as [->|]; [|done].
      exfalso. rewrite EV in Hu'. by apply (Htar Hu' td).
    + intros Ha. destruct (Hacq u a Hu Ha) as (u' & -> & Hr & Hne & Hst & Hh & Ho). exists u'. rewrite Hl. split_and!; try done.
      destruct Ho as [?|Ho]; [by left|right]. by apply Hkeep.
  - intros u u' a. rewrite !V_insert. destruct (decide (u = td)) as [->|Hu], (decide (u' = td)) as [->|Hu']; try done; [| |apply R11];
      intros Ha Ha'.
    + destruct (Hto a Ha) as [Ha0 _]. rewrite <- EV in Ha0. by apply (R11 td u' a).
    + destruct (Hto a Ha') as [Ha0 _]. rewrite <- EV in Ha0. by apply (R11 u td a).
Qed.

Lemma released_ring_step m' v w' l' : ring_step m' v w' l' → ∀ u, u ≠ td → released m T u → released m' (<[td := v]> T) u.
Proof.
  intros [Hf Hl Hkeep Hex Hwant Hlinked Hwaits Hgot H0 Hch Hto Htar] u Hu (Hst & Ho & Hr & Hh). hyps. split; [by rewrite Hl|].
  split; [apply Hkeep; [done|apply (acquired_holder H u); [by left|done]|done]|]. rewrite V_insert, decide_False by done. split; [done|].
  intros u'. rewrite V_insert. destruct (decide (u' = td)) as [->|]; [|apply Hh]. intros Ha. destruct (Hto _ Ha) as [Ha0 _].
  rewrite <- EV in Ha0. by apply (Hh td).
Qed.

Lemma moved_ring_step m' v e' s' w' l' n' h' : ring_step m' v w' l' → mtx_lock m' = word e' s' w' l' n' → counts n' →
  (e' = true ∨ w' = true → 1 ≤ n') → (s' = true → e' = true) → Cnt m' (<[td := v]> T) e' n' h' → moved m T td m' v.
Proof.
  intros Hstep Hw Hn Hp Hs Hc. split; [|split; [by apply (released_ring_step _ _ _ _ Hstep)|]].
  - exists e', s', w', l', n', h', rs. split; try done. by apply Rng_ring_step.
  - intros u _. by rewrite (rs_links _ _ _ _ Hstep).
Qed.

(** MTX_EXLINK and MTX_EXWANTED are set to wait. *)
Lemma enq_step v : v_role v0 = Out → v_role v = Enq → v_ex v = v_ex v0 → v_sh v = v_sh v0 → l = false → mtx_lock m ≠ 0 →
  moved m T td (set_lock (word e s true true n) m) v.
Proof.
  hyps. pose proof not_linked as Hnl. intros Hr0 Hr Hx Hsh Hl Hne. assert (Hn : 1 ≤ n).
  { subst l. rewrite counts_iff in G2. destruct (decide (n = 0)) as [->|]; [|lia]. exfalso. apply Hne. rewrite G1.
    destruct e; [specialize (G3 (or_introl eq_refl)); lia|]. destruct w; [specialize (G3 (or_intror eq_refl)); lia|].
    destruct s; [discriminate (G4 eq_refl)|done]. }
  assert (Hstep : ring_step (set_lock (word e s true true n) m) v true true).
  { ring_fields Hr0 Hr.
    - right. auto.
    - right. split; [by right|by rewrite orb_true_r].
    - exfalso. by apply Hnl. }
  apply (moved_ring_step _ _ e s true true n h Hstep); try done.
  same_counts Hr0 Hr Hx Hsh.
Qed.

(** The link is put into the ring. *)
Lemma link_step v : v_role v0 = Enq → v_role v = Lnk true → v_ex v = v_ex v0 → v_sh v = v_sh v0 →
  moved m T td (link_in (Stack td) td m) v.
Proof.
  hyps. pose proof not_linked as Hnl. intros Hr0 Hr Hx Hsh. assert (Hnin : Stack td ∉ rs) by (apply not_linked; by rewrite Hr0).
  destruct (ring_in m rs (Stack td) td R3 Hnin) as (HR & Ho & Hst & Hoth). destruct (link_in_same m (Stack td) td) as (Elk & _ & Eow).
  assert (Hoth' : ∀ u, u ≠ td → link_owner (link_at (link_in (Stack td) td m) (Stack u)) = link_owner (link_at m (Stack u)) ∧
    state (link_at (link_in (Stack td) td m) (Stack u)) = state (link_at m (Stack u))) by (intros u Hu; apply Hoth; congruence).
  assert (Hc : crit (v_role v0) = true) by by rewrite Hr0. pose proof (crit_link Hc) as El.
  assert (Hw : w = true) by (apply R7; right; exists td; by rewrite EV, Hr0).
  assert (Hno : ∀ u, u ≠ td → crit (v_role (V T u)) = false) by (apply others_not_crit; by left). split; [|split].
  - exists e, s, w, l, n, h, (rs ++ [Stack td]). split; try done; [by rewrite Elk| |].
    + apply Cnt_same; try (by rewrite ?Hr0, ?Hr, ?Hx, ?Hsh); [|unfold shl; by rewrite Hr0, Hr, Hsh].
      intros u. rewrite V_insert. destruct (decide (u = td)) as [->|Hu].
      * unfold exl, in_ex. by rewrite EV, Hr0, Hr, Hx, Hst.
      * unfold exl, in_ex. destruct (Hoth' u Hu) as [_ ->]. done.
    + split; try done.
      * rewrite exists_split, Hr. split; [by left|done].
      * intros u u'. rewrite !V_insert. destruct (decide (u = td)), (decide (u' = td)); subst; rewrite ?Hno by done; done.
      * intros a. rewrite elem_of_app, list_elem_of_singleton. intros [Ha| ->].
        -- destruct (R4 a Ha) as (u & c & -> & Hu & Hs). assert (u ≠ td) by congruence. exists u, c. rewrite V_insert, decide_False by done.
           destruct (Hoth' u) as [_ ->]; done.
        -- exists td, true. by rewrite V_insert, decide_True.
      * intros u c. rewrite V_insert. destruct (decide (u = td)) as [->|Hu].
        -- rewrite Hr. intros [= <-]. split; [done|]. left. apply elem_of_app. right. by apply list_elem_of_singleton.
        -- intros Hc'. destruct (Hoth' u Hu) as [-> ->]. destruct (R5 u c Hc') as [? [?|?]]; (split; [done|]); [left; apply elem_of_app; by left|by right].
      * intros u. rewrite V_insert. destruct (decide (u = td)) as [->|Hu]; [by rewrite Hr|]. destruct (Hoth' u Hu) as [-> ->]. rewrite Eow. apply R6.
      * split; [|done]. intros _. left. by destruct rs.
      * intros u. rewrite V_insert. destruct (decide (u = td)) as [->|Hu]; [by rewrite Hr|apply R8].
      * intros u a c. rewrite V_insert. destruct (decide (u = td)) as [->|Hu]; [rewrite Hr; by intros [|]|]. intros Hc'. exfalso.
        specialize (Hno u Hu). by destruct Hc' as [E|E]; rewrite E in Hno.
      * intros u a. rewrite V_insert. destruct (decide (u = td)) as [->|Hu]; [by rewrite Hr|]. intros Ha.
        destruct (R10 u a Ha) as (u' & -> & Hu' & Hs & Hrest). assert (u' ≠ td) by (intros ->; rewrite EV, Hr0 in Hu'; done).
        exists u'. rewrite V_insert, decide_False by done. destruct (Hoth' u') as [_ ->]; [done|]. by rewrite Eow.
      * intros u u' a. rewrite !V_insert. destruct (decide (u = td)), (decide (u' = td)); subst; rewrite ?Hr; try done. apply R11.
  - intros u Hu (Hs & Ho' & Hru & Hh). destruct (Hoth' u Hu) as [_ E]. split; [by rewrite E|]. split; [by rewrite Eow|].
    rewrite V_insert, decide_False by done. split; [done|]. intros u'. rewrite V_insert. destruct (decide (u' = td)); [by rewrite Hr|apply Hh].
  - intros u Hu. by destruct (Hoth' u Hu) as [_ ->].
Qed.

(** MTX_EXLINK is cleared. *)
Lemma unlink_step v : v_role v0 = Lnk true → v_role v = Lnk false → v_ex v = v_ex v0 → v_sh v = v_sh v0 →
  moved m T td (set_lock (word e s w false n) m) v.
Proof.
  hyps. pose proof not_linked as Hnl. intros Hr0 Hr Hx Hsh. assert (Hstep : ring_step (set_lock (word e s w false n) m) v w false).
  { ring_fields Hr0 Hr.
    - right. auto.
    - by left.
    - by eexists. }
  apply (moved_ring_step _ _ e s w false n h Hstep); try done.
  same_counts Hr0 Hr Hx Hsh.
Qed.

(** The thread is woken with the lock. *)
Lemma got_step v : v_role v0 = Lnk false → v_role v = Got → v_ex v = v_ex v0 → v_sh v = v_sh v0 → released m T td → moved m T td m v.
Proof.
  hyps. pose proof not_linked as Hnl. intros Hr0 Hr Hx Hsh (Hst & Ho & Hrt & Hh).
  destruct (R5 td false Hrt) as [Hlo _]. assert (Hstep : ring_step m v w l).
  { ring_fields Hr0 Hr.
    - by left.
    - by left.
    - exfalso. destruct (R4 _ ltac:(eassumption)) as (u & c & _ & _ & E). by rewrite Hst in E. }
  apply (moved_ring_step _ _ e s w l n h Hstep); try done.
  same_counts Hr0 Hr Hx Hsh.
Qed.

(** The function returns with the lock. *)
Lemma return_step v : v_role v0 = Got → v_role v = Out → v_ex v = v_ex v0 + 1 → v_sh v = v_sh v0 → moved m T td m v.
Proof.
  hyps. pose proof not_linked as Hnl. intros Hr0 Hr Hx Hsh. assert (Hstep : ring_step m v w l).
  { ring_fields Hr0 Hr.
    - by left.
    - by left.
    - exfalso. by apply Hnl. }
  apply (moved_ring_step _ _ e s w l n h Hstep); try done.
  destruct (R6 td) as (_ & Hst & _); [by rewrite EV|].
  apply Cnt_same; try (by rewrite ?Hr0, ?Hr, ?Hx, ?Hsh); try lia; [|unfold shl; by rewrite Hr0, Hr, Hsh].
  intros u. rewrite V_insert. destruct (decide (u = td)) as [->|]; [|done]. unfold exl. rewrite EV, Hr0, Hr, Hx. cbn. rewrite Hst. cbn. lia.
Qed.

(** The lock is going to be handed on. *)
Lemma chain_ex_step v : v_role v0 = UnlEx → v_role v = Chain0 → v_ex v = v_ex v0 → v_sh v = v_sh v0 →
  mtx_lock m = word true s true false 1 → moved m T td (set_lock (word true s true true 1) m) v.
Proof.
  hyps. pose proof not_linked as Hnl. intros Hr0 Hr Hx Hsh Hlk. rewrite G1 in Hlk. apply word_inj in Hlk as (Ee & _ & Ew & El & En); [|done..].
  assert (Hx0 : v_ex v0 = 0).
  { assert (Hx1 : exl m td v0 = v_ex v0 + 1) by (unfold exl; by rewrite Hr0).
    destruct (holder H td) as (_ & _ & E); [rewrite EV; lia|]. rewrite EV in E. lia. }
  assert (Hstep : ring_step (set_lock (word true s true true 1) m) v true true).
  { ring_fields Hr0 Hr.
    - right. auto.
    - by left.
    - exfalso. by apply Hnl.
    - split; [done|]. by rewrite Hx. }
  apply (moved_ring_step _ _ e s true true n h Hstep); try done; [by rewrite Ee, En|intros _; lia|].
  same_counts Hr0 Hr Hx Hsh.
Qed.

Lemma chain_sh_step v : v_role v0 = UnlSh → v_role v = Chain0 → v_ex v = v_ex v0 → v_sh v = v_sh v0 →
  mtx_lock m = word false s true false 1 → moved m T td (set_lock (word true s true true 1) m) v.
Proof.
  hyps. pose proof not_linked as Hnl. intros Hr0 Hr Hx Hsh Hlk. rewrite G1 in Hlk. apply word_inj in Hlk as (Ee & _ & Ew & El & En); [|done..].
  destruct (sharer H td v0 Htd) as (_ & Eh & Hle); [unfold shl; rewrite Hr0; lia|].
  assert (Hx0 : v_ex v0 = 0 ∧ v_sh v0 = 0).
  { rewrite Eh, decide_False in P3 by done. unfold exl, shl in *. rewrite Hr0 in *. cbn in *. lia. }
  destruct Hx0 as [Hx0 Hsh0]. assert (Hstep : ring_step (set_lock (word true s true true 1) m) v true true).
  { ring_fields Hr0 Hr.
    - right. auto.
    - by left.
    - exfalso. by apply Hnl.
    - split; [done|]. by rewrite Hx. }
  apply (moved_ring_step _ _ true s true true 1 (Some td) Hstep); try done.
  apply (Cnt_step H td v0 Htd); try done; try lia.
  - rewrite Ee, En. unfold shl. rewrite Hr0, Hr, Hsh. lia.
  - rewrite decide_True by done. unfold exl. rewrite Hr. cbn. lia.
  - intros u Hu. rewrite C4, Eh, !decide_False by congruence. done.
  - intros u Ho. cbn in Ho. rewrite (no_owner H Eh) in Ho. done.
  - intros u Hu. cbn. rewrite (no_owner H Eh). done.
Qed.

(** The owner the lock is handed to is stored. *)
Lemma chown_step v a c : v_role v0 = Chain1 a c → v_role v = Chain2 a c → v_ex v = v_ex v0 → v_sh v = v_sh v0 →
  moved m T td (set_owner (link_owner (link_at m a)) m) v.
Proof.
  hyps. pose proof not_linked as Hnl. intros Hr0 Hr Hx Hsh. destruct (R10 td a) as (u' & -> & Hu' & Hst & _); [by rewrite EV, Hr0|].
  destruct (R5 u' false Hu') as [Ho _]. rewrite Ho. pose proof (acquired_holder H u' (or_introl Hu') Hst) as Hh.
  assert (u' ≠ td) by (intros ->; rewrite EV, Hr0 in Hu'; done).
  assert (Hstep : ring_step (set_owner (Some u') m) v w l).
  { ring_fields Hr0 Hr.
    - intros u Hu Eh _. cbn. congruence.
    - by left.
    - by left.
    - exfalso. by apply Hnl.
    - destruct_or?; simplify_eq. by left.
    - cbn [hands] in *. simplify_eq. split; [done|]. by exists u'. }
  apply (moved_ring_step _ _ e s w l n h Hstep); try done. apply (Cnt_step H td v0 Htd); try done; try lia.
  - unfold shl. rewrite Hr0, Hr, Hsh. lia.
  - rewrite <- P3. unfold exl. by rewrite Hr0, Hr, Hx.
  - intros u [= <-]. by left.
  - intros u. rewrite V_insert. destruct (decide (u = td)) as [->|]; [by rewrite Hr|]. intros Hn [= ->]. by rewrite Hu' in Hn.
Qed.

(** The bits that [mtx_chain_link] owns are cleared. *)
Lemma chclear_step v a c : v_role v0 = Chain2 a c → v_role v = Wake a → v_ex v = v_ex v0 → v_sh v = v_sh v0 →
  moved m T td (set_lock (Z.ldiff (mtx_lock m) c) m) v.
Proof.
  hyps. pose proof not_linked as Hnl. intros Hr0 Hr Hx Hsh. pose proof (R9 td a c) as Hc. rewrite EV, Hr0 in Hc. specialize (Hc (or_intror eq_refl)).
  destruct (R10 td a) as (u' & -> & Hu' & Hst & Ho); [by rewrite EV, Hr0|].
  destruct Ho as [[? Ho]|Ho]; [rewrite EV, Hr0 in Ho; done|].
  assert (Hw : w = true) by (apply R7; right; exists td; by rewrite EV, Hr0).
  assert (El : Z.ldiff (mtx_lock m) c = word e s (bool_decide (rs ≠ [])) false n).
  { rewrite G1, Hc, Hw. destruct rs; [by rewrite word_clear_both|by rewrite word_clear_link]. }
  rewrite El. assert (Hstep : ring_step (set_lock (word e s (bool_decide (rs ≠ [])) false n) m) v (bool_decide (rs ≠ [])) false).
  { ring_fields Hr0 Hr.
    - right. auto.
    - right. split; [by left|]. by rewrite orb_false_r.
    - exfalso. by apply Hnl.
    - cbn [hands] in *. simplify_eq. split; [done|]. by exists u'. }
  apply (moved_ring_step _ _ e s (bool_decide (rs ≠ [])) false n h Hstep); try done; [|same_counts Hr0 Hr Hx Hsh].
  intros [?|?]; [by apply G3; left|]. apply G3. by right.
Qed.

(** The wakeup is done. *)
Lemma wake_step v a : v_role v0 = Wake a → v_role v = Out → v_ex v = v_ex v0 → v_sh v = v_sh v0 →
  moved m T td m v ∧ ∃ u, a = Stack u ∧ u ≠ td ∧ released m (<[td := v]> T) u.
Proof.
  hyps. pose proof not_linked as Hnl. intros Hr0 Hr Hx Hsh. assert (Hstep : ring_step m v w l).
  { ring_fields Hr0 Hr.
    - by left.
    - by left.
    - exfalso. by apply Hnl. }
  split.
  - apply (moved_ring_step _ _ e s w l n h Hstep); try done.
    same_counts Hr0 Hr Hx Hsh.
  - destruct (R10 td a) as (u' & -> & Hu' & Hst & Ho); [by rewrite EV, Hr0|].
    destruct Ho as [[? Ho]|Ho]; [rewrite EV, Hr0 in Ho; done|]. assert (u' ≠ td) by (intros ->; rewrite EV, Hr0 in Hu'; done).
    exists u'. split; [done|]. split; [done|]. split; [done|]. split; [done|]. rewrite V_insert, decide_False by done. split; [done|].
    intros u2. rewrite V_insert. destruct (decide (u2 = td)) as [->|Hne]; [by rewrite Hr|]. intros Hh2. apply Hne.
    apply (R11 u2 td (Stack u')); [done|]. by rewrite EV, Hr0.
Qed.

(** The first link is taken out of the ring and told. *)
Lemma pop_ready : v_role v0 = Chain0 → ∃ a, mtx_first m = Some a ∧ state (link_at m a) = MTX_LINK_LINKED ∧ ∃ rs', rs = a :: rs'.
Proof.
  hyps. intros Hr0. assert (Hc : crit (v_role v0) = true) by by rewrite Hr0. destruct (R8 td) as [Hw _]; [by rewrite EV|].
  destruct (proj1 R7 Hw) as [Hne|(u & Hu)].
  - destruct rs as [|a rs']; [done|]. exists a. split; [by rewrite (ring_first _ _ R3)|]. split; [|by eexists].
    destruct (R4 a) as (u & c & _ & _ & Hst); [left|done].
  - exfalso. assert (u = td) as -> by (apply crit_only; [done|by apply wanting_crit]). by rewrite EV, Hr0 in Hu.
Qed.

Section pop.
Context (v : view) (u' : Z) (rs' : list address).
Context (Hr0 : v_role v0 = Chain0) (Ers : rs = Stack u' :: rs').
Context (Hr : v_role v = Chain1 (Stack u')
  (if decide (next (link_at m (Stack u')) = Stack u') then Z.lor MTX_EXLINK MTX_EXWANTED else MTX_EXLINK)).
Context (Hx : v_ex v = v_ex v0) (Hsh : v_sh v = v_sh v0).

Definition popped (u : Z) : mtx := set_state (Stack u) MTX_LINK_ACQUIRED (link_out (Stack u) m).

Lemma pop_others u : u ≠ td → crit (v_role (V T u)) = false.
Proof. apply others_not_crit. left. by rewrite Hr0. Qed.

Lemma pop_first : v_role (V T u') = Lnk false ∧ u' ≠ td.
Proof.
  hyps. destruct (R4 (Stack u')) as (u & c & [= <-] & Hu & _); [rewrite Ers; left|].
  assert (u' ≠ td) by (intros ->; by rewrite EV, Hr0 in Hu). split; [|done].
  destruct c; [|done]. pose proof (pop_others u') as E. rewrite Hu in E. by discriminate E.
Qed.

Lemma pop_at x : link_owner (link_at (popped u') x) = link_owner (link_at m x) ∧
  state (link_at (popped u') x) = if decide (x = Stack u') then MTX_LINK_ACQUIRED else state (link_at m x).
Proof.
  hyps. pose proof R3 as R3'. rewrite Ers in R3'. destruct (ring_out m (Stack u') rs' R3') as (_ & _ & Hlk).
  unfold popped, set_state. rewrite set_link_at. destruct (decide (x = Stack u')) as [->|]; [|apply Hlk].
  cbn [link_owner state]. by split; [apply Hlk|].
Qed.

Lemma pop_list : ring (popped u') rs' ∧ Stack u' ∉ rs' ∧ (next (link_at m (Stack u')) = Stack u' ↔ rs' = []).
Proof.
  hyps. pose proof R3 as R3'. rewrite Ers in R3'. destruct (ring_out m (Stack u') rs' R3') as (HR & Hnext & _).
  assert (Hnin : Stack u' ∉ rs') by (pose proof (ring_nodup _ _ R3') as Hnd; by apply NoDup_cons in Hnd as [? _]).
  split; [|done]. apply (ring_ext (link_out (Stack u') m)); [done| |done]. intros x Hxin. unfold popped, set_state. rewrite set_link_at.
  rewrite decide_False; [done|]. by intros ->.
Qed.

Lemma pop_same : mtx_lock (popped u') = mtx_lock m ∧ mtx_owner (popped u') = mtx_owner m.
Proof. by destruct (link_out_same m (Stack u')) as (? & _ & ?). Qed.

Lemma pop_holder : h = Some td ∧ e = true ∧ n = 1 ∧ v_ex v0 = 0.
Proof.
  hyps. assert (Hx1 : exl m td v0 = v_ex v0 + 1) by (unfold exl; by rewrite Hr0).
  destruct (holder H td) as (Eh & Ee & En); [rewrite EV; lia|]. rewrite EV in En.
  destruct (R8 td) as [_ Hx0]; [by rewrite EV|]. rewrite EV in Hx0. split_and!; try done; lia.
Qed.

(** Nobody else is being handed the lock. *)
Lemma pop_no_hand u a : hands (v_role (V T u)) = Some a → False.
Proof.
  hyps. intros Ha. destruct (R10 u a Ha) as (u2 & -> & Hu2 & Hs & _). destruct pop_holder as [Eh _].
  pose proof (acquired_holder H u2 (or_introl Hu2) Hs) as E. assert (u2 = td) as -> by congruence. by rewrite EV, Hr0 in Hu2.
Qed.

Lemma pop_counts : Cnt (popped u') (<[td := v]> T) e n (Some u').
Proof.
  hyps. destruct pop_first as [Hu' Hne]. destruct pop_holder as (Eh & Ee & En & Hx0). destruct pop_same as [_ Eow]. split; try done.
  - intros u. rewrite V_insert. destruct (decide (u = td)); [lia|apply C2].
  - rewrite (map_sum_update _ _ _ _ _ Htd), C3. unfold shl. rewrite Hr0, Hr, Hsh. destruct e; lia.
  - intros u. rewrite V_insert. pose proof (C4 u) as E. rewrite Eh in E. destruct (decide (u = td)) as [->|Hu].
    + rewrite decide_False by congruence. unfold exl. rewrite Hr. cbn. lia.
    + rewrite (decide_False (P := Some td = Some u)) in E by congruence. destruct (pop_at (Stack u)) as [_ Es].
      destruct (decide (u = u')) as [->|Hu2].
      * rewrite decide_True by done. unfold exl, in_ex. rewrite Hu', Es, decide_True by done. cbn.
        pose proof (C2 u') as [? _]. pose proof (in_ex_range (m := m) u' (v_role (V T u'))). unfold exl in E. lia.
      * rewrite decide_False by congruence. rewrite <- E. unfold exl, in_ex. by rewrite Es, (decide_False (P := Stack u = _)) by congruence.
  - intros u. rewrite Eow, V_insert. intros Ho. destruct (C5 u Ho) as [E|(a & c & E)].
    + right. assert (u = td) as -> by congruence. rewrite decide_True by done. by eexists _, _.
    + exfalso. apply (pop_no_hand u a). by rewrite E.
  - intros u. rewrite Eow, V_insert. destruct (decide (u = td)) as [->|Hu]; [by rewrite Hr|apply C6].
Qed.

Lemma pop_ring : Rng (popped u') (<[td := v]> T) w l rs'.
Proof.
  hyps. destruct pop_first as [Hu' Hne]. destruct pop_holder as (Eh & _). destruct pop_list as (HR & Hnin & Hnext).
  assert (Hc : crit (v_role v0) = true) by by rewrite Hr0. destruct (R8 td) as [Hw _]; [by rewrite EV|]. split.
  - rewrite exists_split, Hr. split; [by left|]. intros _. by apply crit_link.
  - intros u u2. rewrite !V_insert. destruct (decide (u = td)) as [->|], (decide (u2 = td)) as [->|]; rewrite ?pop_others by done; done.
  - done.
  - intros x Hx2. destruct (R4 x) as (u & c & -> & Hu & Hs); [rewrite Ers; by right|]. exists u, c.
    assert (u ≠ td) by (intros ->; by rewrite EV, Hr0 in Hu). rewrite V_insert, decide_False by done. split; [done|]. split; [done|].
    destruct (pop_at (Stack u)) as [_ ->]. rewrite decide_False; [done|]. by intros [= ->].
  - intros u c. rewrite V_insert. destruct (decide (u = td)) as [->|Hu]; [by rewrite Hr|]. intros Hc2. destruct (pop_at (Stack u)) as [-> ->].
    destruct (R5 u c Hc2) as [Ho Hor]. split; [done|]. destruct (decide (u = u')) as [->|Hu2].
    + right. rewrite decide_True by done. split; [congruence|done].
    + rewrite decide_False by congruence. destruct Hor as [Hin|?]; [left|by right]. rewrite Ers in Hin. apply elem_of_cons in Hin as [[= ->]|?]; done.
  - intros u. rewrite V_insert. destruct (decide (u = td)) as [->|Hu]; [by rewrite Hr|]. intros Hg. exfalso.
    destruct (R6 u Hg) as (_ & Hs & _). pose proof (acquired_holder H u (or_intror Hg) Hs). congruence.
  - split; [|done]. intros _. right. exists td. by rewrite V_insert, decide_True, Hr.
  - intros u. rewrite V_insert. destruct (decide (u = td)) as [->|Hu]; [by rewrite Hr|apply R8].
  - intros u a c. rewrite V_insert. destruct (decide (u = td)) as [->|Hu].
    + rewrite Hr. intros [[= _ <-]|?]; [|done]. destruct (decide (next (link_at m (Stack u')) = Stack u')) as [E|E].
      * by apply Hnext in E as ->.
      * destruct rs'; [by destruct E; apply Hnext|done].
    + intros Hc2. exfalso. by destruct Hc2 as [E|E]; apply (pop_no_hand u a); rewrite E.
  - intros u a. rewrite V_insert. destruct (decide (u = td)) as [->|Hu].
    + rewrite Hr. intros [= <-]. exists u'. rewrite V_insert, decide_False by done. split; [done|]. split; [done|].
      destruct (pop_at (Stack u')) as [_ ->]. rewrite decide_True by done. split; [done|]. left. by eexists.
    + intros Ha. by destruct (pop_no_hand u a).
  - intros u u2 a. rewrite !V_insert. destruct (decide (u = td)) as [->|Hu], (decide (u2 = td)) as [->|Hu2]; try done; [| |apply R11];
      intros Ha Ha2; exfalso; [by apply (pop_no_hand u2 a)|by apply (pop_no_hand u a)].
Qed.

Lemma pop_step : moved m T td (popped u') v.
Proof.
  hyps. destruct pop_first as [Hu' Hne]. destruct pop_holder as (Eh & _). destruct pop_same as [Elk _]. split; [|split].
  - exists e, s, w, l, n, (Some u'), rs'. split; [by rewrite Elk|done..|apply pop_counts|apply pop_ring].
  - intros u Hu (Hs & _ & Hru & _). exfalso. pose proof (acquired_holder H u (or_introl Hru) Hs). congruence.
  - intros u _ Hs. destruct (pop_at (Stack u)) as [_ ->]. by destruct (decide (Stack u = Stack u')).
Qed.

End pop.

End ring.

End MutexInv.
