(* ===== verification/MutexSafe.v ===== *)
(** Careful threads in any interleaving of their accesses: no assertion of the
    mutex fails, and it is held by one thread or shared. *)

From stdpp Require Import base functions list gmap.
From S2P Require Import Prelude Mutex MutexTheory MutexSystem MutexInv.

Module MutexSafe.
Import Mutex MutexTheory MutexSystem MutexInv.

(** The access at a place that is known. *)
Ltac access :=
  cbn [exec mtx_lock_ex __mtx_lock_ex mtx_delete_link mtx_lock_sh __mtx_lock_sh mtx_spinlock _mtx_spinlock
    mtx_lock_ex_try _mtx_lock_ex_try mtx_lock_sh_try _mtx_lock_sh_try mtx_downgrade _mtx_downgrade
    mtx_upgrade_try _mtx_upgrade_try mtx_unlock _mtx_unlock mtx_chain_link mtx_abort_ex_link].

(** * What a thread knows *)

Definition below (lock : Z) : Prop := Z.land lock MTX_MASK ≠ MTX_MASK.

(** The local variables of a thread in [mtx_unlock] and its variants. *)
Definition unlock_ok (ex0 : Z) (p : pc) : Prop :=
  match p with
  | Fast_read _ | Un_read | Un_wakeup | Chain_pop | Chain_owner _ _ | Chain_read (Some _) _ | Chain_clear (Some _) _ _ | Chain_wakeup _ => True
  | Fast_owner lock => lock = lock_ex ∧ 0 < ex0
  | Fast_clear lock => lock = lock_ex ∧ 0 < ex0 ∨ lock = 1
  | Un_shared lock => ∃ s l, lock = word false s false l 1
  | Un_owner lock | Un_exclusive lock => 0 < ex0 ∧ ∃ s l, lock = word true s false l 1
  | Un_chain lock nlock => ∃ e s, lock = word e s true false 1 ∧ nlock = word true s true true 1
  | Un_count lock => ∃ e s w l n, lock = word e s w l n ∧ counts n ∧ n ≠ 1
  | _ => False
  end.

(** The local variables of a careful thread [td] at each access. *)
Definition pc_ok (td : Z) (o : op) (ex0 ex : Z) (p : pc) : Prop :=
  match o, p with
  | OpLock _, (Ex_fast a | Ex_read a | Ex_free a | Ex_early a | Ex_link a | Ex_interlock a | Ex_unlink a | Ex_tsleep a
      | Ex_asleep a | Ex_woken a _ | Ex_acquired a _ | Ex_mine a) => a = plain td
  | OpLock _, Ex_owner => True
  | OpLock _, Ex_held a lock => a = plain td ∧ lock ≠ 0 ∧ below lock
  | OpLock _, Ex_again a lock => a = plain td ∧ below lock ∧ 1 ≤ ex
  | OpLock _, Ex_want a lock => a = plain td ∧ lock ≠ 0 ∧ has_flag lock MTX_EXLINK = false
  | OpLockSh _ _, (Sh_fast flags to | Sh_read flags to | Sh_tsleep flags to | Sh_asleep flags to | Sh_remove flags to) => flags = 0 ∧ to = 0
  | OpLockSh _ _, Sh_count flags to lock => (flags = 0 ∧ to = 0) ∧ has_flag lock MTX_EXCLUSIVE = false ∧ below lock
  | OpLockSh _ _, (Sh_interlock flags to lock | Sh_want flags to lock) => (flags = 0 ∧ to = 0) ∧ has_flag lock MTX_EXCLUSIVE = true
  | OpSpin, (Spin_fast | Spin_read | Spin_free | Spin_owner | Spin_outer) => True
  | OpSpin, Spin_held lock => below lock
  | OpSpin, Spin_again lock => below lock ∧ 1 ≤ ex
  | OpTry, (Try_fast | Try_read | Try_free | Try_owner) => True
  | OpTry, Try_held lock => below lock
  | OpTry, Try_again lock => below lock ∧ 1 ≤ ex
  | OpTrySh, (TrySh_fast | TrySh_read) => True
  | OpTrySh, TrySh_count lock => has_flag lock MTX_EXCLUSIVE = false ∧ below lock
  | OpUpgrade, (Up_fast | Up_read | Up_owner) => ex0 = 0
  | OpUpgrade, Up_set lock => ex0 = 0 ∧ ∃ w, lock = word false false w false 1
  | (OpUnlock | OpUnlockEx | OpUnlockSh), p => unlock_ok ex0 p
  | _, _ => False
  end.

(** The link on the stack was initialised, and is not in the ring yet. *)
Definition fresh (p : pc) : bool :=
  match p with Ex_read _ | Ex_free _ | Ex_held _ _ | Ex_again _ _ | Ex_want _ _ | Ex_early _ => true | _ => false end.

(** A sleeping thread is on the queue of its link, unless its wakeup is done. *)
Definition thread_ok (m : mtx) (T : gmap Z view) (td : Z) (th : thread) : Prop :=
  match t_status th with
  | Idle => True
  | Running o ex0 p => pc_ok td o ex0 (t_ex th) p ∧
      (fresh p = true → state (link_at m (Stack td)) ≠ MTX_LINK_ABORTED) ∧
      ∀ a, p = Ex_asleep a → t_wchan th = Some (OnLink (Stack td)) ∨ released m T td
  end.

Definition views (s : system) : gmap Z view := view_of <$> threads s.

Definition sys_ok (s : system) : Prop :=
  (∃ e sw w l n h rs, G (mx s) (views s) e sw w l n h rs) ∧
  ∀ td th, threads s !! td = Some th → thread_ok (mx s) (views s) td th.

(** What a step of thread [td] comes to. *)
Definition good (m : mtx) (T : gmap Z view) (td : Z) (th : thread) (o : op) (ex0 : Z) (r : result) : Prop :=
  match r with
  | Ok (pr, m', e) =>
      let th' := proceed th o ex0 pr e in
      moved m T td m' (view_of th') ∧
      match pr with
      | Go p => pc_ok td o ex0 (t_ex th) p ∧ (fresh p = true → state (link_at m' (Stack td)) ≠ MTX_LINK_ABORTED) ∧
          (∀ a, p = Ex_asleep a → e = Interlock (OnLink (Stack td)))
      | Return _ => True
      end ∧
      ∀ id, e = Wakeup id → id = OnMutex ∨ ∃ u, id = OnLink (Stack u) ∧ u ≠ td ∧ released m' (<[td := view_of th']> T) u
  | _ => False
  end.

Section access.
Context {m : mtx} {T : gmap Z view} {e s w l : bool} {n : Z} {h : option Z} {rs : list address}.
Context (H : G m T e s w l n h rs) (Hroom : room m = true).
Context (td : Z) (th : thread) (o : op) (ex0 : Z) (p : pc) (err : Z).
Context (Hfresh : fresh p = true → state (link_at m (Stack td)) ≠ MTX_LINK_ABORTED).

Notation v0 := (View (role_of ex0 p) (t_ex th) (t_sh th)).
Context (Htd : T !! td = Some v0).

Lemma moved_stay : moved m T td m v0.
Proof.
  unfold moved. rewrite insert_id by done. split; [by exists e, s, w, l, n, h, rs|]. by split.
Qed.

(** What is left to show of a step that goes on, or returns, without a wakeup. *)
Lemma good_go q m' : moved m T td m' (View (role_of ex0 q) (t_ex th) (t_sh th)) → pc_ok td o ex0 (t_ex th) q →
  (fresh q = true → state (link_at m' (Stack td)) ≠ MTX_LINK_ABORTED) → (∀ a, q ≠ Ex_asleep a) → good m T td th o ex0 (go q m').
Proof. intros Hm Hq Hf Ha. split; [done|]. split; [|done]. split; [done|]. split; [done|]. intros a E. by destruct (Ha a). Qed.

Lemma good_ret error m' x y : settle o ex0 error (t_ex th) (t_sh th) = (x, y) → moved m T td m' (View Out x y) →
  good m T td th o ex0 (ret error m').
Proof. intros Hs Hm. split; [|by split]. unfold view_of, proceed. by rewrite Hs. Qed.

Lemma good_stay q : role_of ex0 q = role_of ex0 p → pc_ok td o ex0 (t_ex th) q → fresh q = false ∨ fresh p = true →
  (∀ a, q ≠ Ex_asleep a) → good m T td th o ex0 (go q m).
Proof.
  intros Hr Hq Hf Ha. apply good_go; try done; [rewrite Hr; apply moved_stay|]. intros Hfr. apply Hfresh. destruct Hf; congruence.
Qed.

(** The role changes between simple ones that count the same. *)
Lemma good_same q : simple (role_of ex0 p) = true → simple (role_of ex0 q) = true → role_of ex0 q ≠ UnlNul →
  in_ex m td (role_of ex0 q) = in_ex m td (role_of ex0 p) → shl (View (role_of ex0 q) (t_ex th) (t_sh th)) = shl v0 →
  pc_ok td o ex0 (t_ex th) q → fresh q = false → (∀ a, q ≠ Ex_asleep a) → good m T td th o ex0 (go q m).
Proof.
  intros Hs0 Hs Hnul Hx Hsh Hq Hf Ha. apply good_go; try done; [|by rewrite Hf].
  pose proof (c_nonneg _ _ _ _ _ (g_cnt _ _ _ _ _ _ _ _ _ H) td) as [P1 P2]. rewrite (V_lookup _ _ _ Htd) in P1, P2.
  apply (same_step H td v0 Htd Hs0); try done. unfold exl. cbn [v_role v_ex]. by rewrite Hx.
Qed.

Lemma good_cmpset lock nlock yes no : (mtx_lock m = lock → good m T td th o ex0 (yes (set_lock nlock m))) →
  good m T td th o ex0 (no m) → good m T td th o ex0 (cmpset m lock nlock yes no).
Proof. intros Hy Hn. unfold cmpset. destruct (mtx_lock m =? lock) eqn:E; bool_prop; [by apply Hy|done]. Qed.

End access.

Lemma mask_counts n : counts n → n ≠ MTX_MASK → counts (n + 1).
Proof. rewrite !counts_iff. change MTX_MASK with 268435455. lia. Qed.

Section ops.
Context {m : mtx} {T : gmap Z view} {e s w l : bool} {n : Z} {h : option Z} {rs : list address}.
Context (H : G m T e s w l n h rs) (Hroom : room m = true).
Context (td : Z) (th : thread) (ex0 : Z).

Definition here (p : pc) : Prop := T !! td = Some (View (role_of ex0 p) (t_ex th) (t_sh th)).
Definition link_live (p : pc) : Prop := fresh p = true → state (link_at m (Stack td)) ≠ MTX_LINK_ABORTED.

Lemma here_nonneg p : here p → 0 ≤ t_ex th ∧ 0 ≤ t_sh th.
Proof. intros Hp. pose proof (c_nonneg _ _ _ _ _ (g_cnt _ _ _ _ _ _ _ _ _ H) td) as P. by rewrite (V_lookup _ _ _ Hp) in P. Qed.

(** The count fits when it is one more. *)
Lemma room_succ : counts (n + 1).
Proof.
  pose proof H as [G1 G2 _ _ _ _]. apply mask_counts; [done|]. intros ->. unfold room in Hroom.
  by rewrite G1, word_mask, Z.eqb_refl in Hroom.
Qed.

(** A thread outside that is the owner relies on holding the mutex. *)
Lemma owner_self p : here p → role_of ex0 p = Out → bool_decide (mtx_owner m = Some td) = true → 1 ≤ t_ex th.
Proof.
  intros Hp Hr Ho%bool_decide_eq_true. pose proof H as [_ _ G3 _ [C1 _ _ C4 C5 _] _]. specialize (C4 td). rewrite (V_lookup _ _ _ Hp) in C4.
  destruct (C5 td Ho) as [E|(a & c & E)]; [|rewrite (V_lookup _ _ _ Hp), Hr in E; done].
  rewrite decide_True in C4 by done. unfold exl in C4. cbn [v_ex v_role] in C4. rewrite Hr in C4. cbn in C4.
  assert (e = true) by (rewrite C1; by apply bool_decide_eq_true; rewrite E).
  specialize (G3 ltac:(by left)). lia.
Qed.

(** The local variables of a read of the word. *)
Lemma word_parts : mtx_lock m = word e s w l n ∧ counts n ∧ has_flag (mtx_lock m) MTX_EXCLUSIVE = e ∧
  has_flag (mtx_lock m) MTX_EXLINK = l ∧ below (mtx_lock m).
Proof.
  pose proof H as [G1 G2 _ _ _ _]. unfold below, room in *. rewrite G1 in *. rewrite word_ex, word_exlink by done.
  bool_prop. done.
Qed.

(** Setting the link on the stack up, before it is in the ring. *)
Lemma link_init_good a0 : here (Ex_fast (plain td)) → good m T td th (OpLock a0) ex0 (go (Ex_read (plain td)) (mtx_link_init (Stack td) m)).
Proof.
  intros Hp. destruct (here_nonneg _ Hp). unfold mtx_link_init, set_state. apply good_go; try done.
  - apply (same_step H td _ Hp); try done. intros a Ha. rewrite set_link_at. by rewrite decide_False.
  - intros _. rewrite set_link_at, decide_True by done. done.
Qed.

(** A thread that is taken from its sleep has the lock. *)
Lemma woken_good a0 : here (Ex_asleep (plain td)) → released m T td →
  good m T td th (OpLock a0) ex0 (Ok (Go (Ex_woken (plain td) 0), m, Remove)).
Proof. intros Hp Hrel. split; [|done]. by apply (got_step H td _ Hp). Qed.

Lemma wait_good a0 lock : here (Ex_want (plain td) lock) → link_live (Ex_want (plain td) lock) → lock ≠ 0 → has_flag lock MTX_EXLINK = false →
  good m T td th (OpLock a0) ex0 (exec td 0 (Ex_want (plain td) lock) m).
Proof.
  intros Hp Hf Hn Hl. destruct word_parts as (E1 & E2 & _ & E4 & _). access. apply good_cmpset.
  - intros E. apply good_go; [|done|intros _; by apply Hf|done]. rewrite <- E. rewrite <- E in Hn, Hl. rewrite E4 in Hl.
    replace (Z.lor (Z.lor (mtx_lock m) MTX_EXWANTED) MTX_EXLINK) with (word e s true true n) by by rewrite E1, word_set_want, word_set_link.
    by apply (enq_step H td _ Hp).
  - apply (good_stay H td th _ ex0 (Ex_want (plain td) lock) Hf Hp); try done. by right.
Qed.

Lemma good_lock a0 p err : pc_ok td (OpLock a0) ex0 (t_ex th) p → here p → link_live p →
  (∀ a, p = Ex_asleep a → err = 0 ∧ released m T td) → good m T td th (OpLock a0) ex0 (exec td err p m).
Proof.
  intros Hpc Hp Hf Hw. pose proof (here_nonneg p Hp) as [N1 N2]. pose proof word_parts as (E1 & E2 & E3 & E4 & E5).
  pose proof room_succ as Hroom1.
  assert (Hstay : ∀ q, role_of ex0 q = role_of ex0 p → pc_ok td (OpLock a0) ex0 (t_ex th) q → fresh q = false ∨ fresh p = true →
    (∀ a, q ≠ Ex_asleep a) → good m T td th (OpLock a0) ex0 (go q m)) by (intros q; by apply (good_stay H td th _ ex0 p)).
  assert (Hgot : role_of ex0 p = Got → state (link_at m (Stack td)) = MTX_LINK_ACQUIRED).
  { intros Hr. destruct (r_got _ _ _ _ _ (g_rng _ _ _ _ _ _ _ _ _ H) td) as (_ & ? & _); [by rewrite (V_lookup _ _ _ Hp)|done]. }
  destruct p; cbn in Hpc; try done; access.
  - (* Ex_fast *) subst a. apply good_cmpset; [|by apply link_init_good]. intros E. apply good_go; try done.
    by apply (acquire_step H td _ Hp).
  - (* Ex_read *) subst a. repeat case_test; bool_prop; apply Hstay; try done; by right.
  - (* Ex_free *) subst a. apply good_cmpset; [|apply Hstay; try done; by right]. intros E. apply good_go; try done.
    by apply (acquire_step H td _ Hp).
  - (* Ex_owner *) eapply good_ret; [done|]. apply (owner_stored H td _ Hp); cbn; try done; [by left|unfold exl; cbn|]; lia.
  - (* Ex_held *) destruct Hpc as (-> & Hn & Hb). repeat case_test; bool_prop; unfold kkassert; [|apply Hstay; try done; by right..].
    rewrite (proj2 (Z.eqb_neq _ _) Hb). apply Hstay; try done; [|by right]. split; [done|]. split; [done|].
    by apply (owner_self _ Hp).
  - (* Ex_again *) destruct Hpc as (-> & Hb & Hx). apply good_cmpset; [|apply Hstay; try done; by right].
    intros E. eapply good_ret; [done|]. rewrite <- E, E1, word_succ by done. apply (again_step H td _ Hp); try done. by left.
  - (* Ex_want *) destruct Hpc as (-> & ? & ?). by apply wait_good.
  - (* Ex_early *) subst a. rewrite (proj2 (Z.eqb_neq _ _)) by by apply Hf. apply Hstay; try done. by left.
  - (* Ex_link *) subst a. apply good_go; try done. by apply (link_step H td _ Hp).
  - (* Ex_interlock *) subst a. split; [|done]. by apply (moved_stay H td th ex0 (Ex_interlock (plain td))).
  - (* Ex_unlink *) subst a. unfold clear_lock. rewrite E1, word_clear_link by done. apply good_go; try done. by apply (unlink_step H td _ Hp).
  - (* Ex_tsleep *) subst a. split; [|split; [|done]].
    + by apply (moved_stay H td th ex0 (Ex_tsleep (plain td))).
    + split; [done|]. split; [done|]. intros a [= <-]. done.
  - (* Ex_asleep *) subst a. destruct (Hw _ eq_refl) as [-> Hrel]. by apply woken_good.
  - (* Ex_woken *) subst a. cbn [w_link plain]. rewrite Hgot by done. apply Hstay; try done. by left.
  - (* Ex_acquired *) subst a. cbn [w_link plain]. rewrite Hgot by done. apply Hstay; try done. by left.
  - (* Ex_mine *) subst a. cbn [w_link plain]. destruct (r_got _ _ _ _ _ (g_rng _ _ _ _ _ _ _ _ _ H) td) as (-> & _ & ->);
      [by rewrite (V_lookup _ _ _ Hp)|]. unfold kkassert. rewrite bool_decide_eq_true_2 by done. eapply good_ret; [done|].
    by apply (return_step H td _ Hp).
Qed.

(** What is shared by the accesses of the simple functions. *)
Lemma stay o p q : here p → role_of ex0 q = role_of ex0 p → pc_ok td o ex0 (t_ex th) q → fresh q = false → (∀ a, q ≠ Ex_asleep a) →
  good m T td th o ex0 (go q m).
Proof.
  intros Hp Hr Hq Hf Ha. apply good_go; try done; [|by rewrite Hf]. rewrite Hr. by apply (moved_stay H td th ex0 p).
Qed.

Lemma acquire_good o p q : here p → role_of ex0 p = Out → role_of ex0 q = Pend → pc_ok td o ex0 (t_ex th) q → fresh q = false →
  (∀ a, q ≠ Ex_asleep a) → mtx_lock m = 0 → good m T td th o ex0 (go q (set_lock lock_ex m)).
Proof.
  intros Hp Hr0 Hr Hq Hf Ha E. apply good_go; try done; [|by rewrite Hf]. apply (acquire_step H td _ Hp); try done. by rewrite Hr0.
Qed.

(** One more count, when the word is the one that was read. *)
Lemma succ_word lock : mtx_lock m = lock → u32 (lock + 1) = word e s w l (n + 1).
Proof. intros <-. destruct word_parts as (E1 & E2 & _). rewrite E1, word_succ; [done..|]. apply room_succ. Qed.

Lemma share_good o p error lock : here p → role_of ex0 p = Out → settle o ex0 error (t_ex th) (t_sh th) = (t_ex th, t_sh th + 1) →
  mtx_lock m = lock → has_flag lock MTX_EXCLUSIVE = false → good m T td th o ex0 (ret error (set_lock (u32 (lock + 1)) m)).
Proof.
  intros Hp Hr0 Hset E He. eapply good_ret; [done|]. rewrite (succ_word lock E). subst lock.
  destruct word_parts as (_ & _ & E3 & _). rewrite E3 in He. apply (share_step H td _ Hp); cbn; rewrite ?Hr0; try done. apply room_succ.
Qed.

(** The first shared lock. *)
Lemma share_free_good o p : here p → role_of ex0 p = Out → settle o ex0 0 (t_ex th) (t_sh th) = (t_ex th, t_sh th + 1) →
  mtx_lock m = 0 → good m T td th o ex0 (ret 0 (set_lock 1 m)).
Proof. intros Hp Hr0 Hset E. by apply (share_good o p 0 0). Qed.

Lemma good_lock_sh f0 t0 p err : pc_ok td (OpLockSh f0 t0) ex0 (t_ex th) p → here p → (∀ f t, p = Sh_asleep f t → err = 0) →
  good m T td th (OpLockSh f0 t0) ex0 (exec td err p m).
Proof.
  intros Hpc Hp Hw. destruct word_parts as (E1 & E2 & E3 & E4 & E5).
  destruct p; cbn in Hpc; try done; access.
  - (* Sh_fast *) apply good_cmpset; [|by apply (stay _ _ _ Hp)]. by apply (share_free_good _ _ Hp).
  - (* Sh_read *) case_test; bool_prop; [|by apply (stay _ _ _ Hp)]. unfold kkassert. rewrite (proj2 (Z.eqb_neq _ _) E5).
    by apply (stay _ _ _ Hp).
  - (* Sh_count *) destruct Hpc as (? & He & Hb). apply good_cmpset; [|by apply (stay _ _ _ Hp)]. intros E. by apply (share_good _ _ _ _ Hp).
  - (* Sh_interlock *) split; [|done]. by apply (moved_stay H td th ex0 _ Hp).
  - (* Sh_want *) destruct Hpc as (? & He). apply good_cmpset; [|by apply (stay _ _ _ Hp)]. intros E. apply good_go; try done.
    rewrite <- E, E1, word_set_sw by done. apply (shwanted_step H td _ Hp); try done. congruence.
  - (* Sh_tsleep *) destruct Hpc as (-> & ->). split; [|done]. by apply (moved_stay H td th ex0 _ Hp).
  - (* Sh_asleep *) rewrite (Hw _ _ eq_refl). split; [|done]. by apply (moved_stay H td th ex0 _ Hp).
  - (* Sh_remove *) split; [|done]. by apply (moved_stay H td th ex0 _ Hp).
Qed.

Lemma good_spin p err : pc_ok td OpSpin ex0 (t_ex th) p → here p → good m T td th OpSpin ex0 (exec td err p m).
Proof.
  intros Hpc Hp. destruct word_parts as (E1 & E2 & E3 & E4 & E5). pose proof (here_nonneg p Hp) as [N1 N2].
  destruct p; cbn in Hpc; try done; access.
  - (* Spin_fast *) apply good_cmpset; [|by apply (stay _ _ _ Hp)]. by apply (acquire_good _ _ _ Hp).
  - (* Spin_read *) by repeat case_test; apply (stay _ _ _ Hp).
  - (* Spin_free *) apply good_cmpset; [|by apply (stay _ _ _ Hp)]. by apply (acquire_good _ _ _ Hp).
  - (* Spin_owner *) apply good_go; try done. apply (owner_stored H td _ Hp); try done. by right.
  - (* Spin_held *) case_test; [|by apply (stay _ _ _ Hp)]. unfold kkassert. rewrite (proj2 (Z.eqb_neq _ _) Hpc).
    apply (stay _ _ _ Hp); try done. split; [done|]. by apply (owner_self _ Hp).
  - (* Spin_again *) destruct Hpc as [Hb Hx]. apply good_cmpset; [|by apply (stay _ _ _ Hp)]. intros E. apply good_go; try done.
    rewrite (succ_word lock E). apply (again_step H td _ Hp); try done; [apply room_succ|by right].
  - (* Spin_outer *) eapply good_ret; [done|]. apply (owner_stored H td _ Hp); cbn; try done; [by left|unfold exl; cbn|]; lia.
Qed.

Lemma good_try p err : pc_ok td OpTry ex0 (t_ex th) p → here p → good m T td th OpTry ex0 (exec td err p m).
Proof.
  intros Hpc Hp. destruct word_parts as (E1 & E2 & E3 & E4 & E5). pose proof (here_nonneg p Hp) as [N1 N2].
  assert (Hbusy : role_of ex0 p = Out → good m T td th OpTry ex0 (ret EAGAIN m)).
  { intros Hr. eapply good_ret; [done|]. rewrite <- Hr. by apply (moved_stay H td th ex0 _ Hp). }
  destruct p; cbn in Hpc; try done; access.
  - (* Try_fast *) apply good_cmpset; [|by apply (stay _ _ _ Hp)]. by apply (acquire_good _ _ _ Hp).
  - (* Try_read *) repeat case_test; [by apply (stay _ _ _ Hp)..|by apply Hbusy].
  - (* Try_free *) apply good_cmpset; [|by apply (stay _ _ _ Hp)]. by apply (acquire_good _ _ _ Hp).
  - (* Try_owner *) eapply good_ret; [done|]. apply (owner_stored H td _ Hp); cbn; try done; [by left|unfold exl; cbn|]; lia.
  - (* Try_held *) case_test; [|by apply Hbusy]. unfold kkassert. rewrite (proj2 (Z.eqb_neq _ _) Hpc).
    apply (stay _ _ _ Hp); try done. split; [done|]. by apply (owner_self _ Hp).
  - (* Try_again *) destruct Hpc as [Hb Hx]. apply good_cmpset; [|by apply (stay _ _ _ Hp)]. intros E. eapply good_ret; [done|].
    rewrite (succ_word lock E). apply (again_step H td _ Hp); try done; [apply room_succ|by left].
Qed.

Lemma good_try_sh p err : pc_ok td OpTrySh ex0 (t_ex th) p → here p → good m T td th OpTrySh ex0 (exec td err p m).
Proof.
  intros Hpc Hp. destruct word_parts as (E1 & E2 & E3 & E4 & E5). destruct p; cbn in Hpc; try done; access.
  - (* TrySh_fast *) apply good_cmpset; [|by apply (stay _ _ _ Hp)]. by apply (share_free_good _ _ Hp).
  - (* TrySh_read *) case_test; bool_prop.
    + unfold kkassert. rewrite (proj2 (Z.eqb_neq _ _) E5). by apply (stay _ _ _ Hp).
    + eapply good_ret; [done|]. by apply (moved_stay H td th ex0 _ Hp).
  - (* TrySh_count *) destruct Hpc as (He & Hb). apply good_cmpset; [|by apply (stay _ _ _ Hp)]. intros E. by apply (share_good _ _ _ _ Hp).
Qed.

(** A thread that upgrades: nobody holds the mutex exclusively. *)
Lemma upgrader p : here p → role_of ex0 p = Upg → e = false.
Proof.
  intros Hp Hr. destruct (here_nonneg p Hp). destruct (sharer H td _ Hp) as (? & _); [unfold shl; cbn; rewrite Hr; lia|done].
Qed.

Lemma good_upgrade p err : pc_ok td OpUpgrade ex0 (t_ex th) p → here p → good m T td th OpUpgrade ex0 (exec td err p m).
Proof.
  intros Hpc Hp. destruct word_parts as (E1 & E2 & E3 & E4 & E5). pose proof (here_nonneg p Hp) as [N1 N2].
  assert (Hset : ex0 = 0 → ∀ error, settle OpUpgrade ex0 error (t_ex th) (t_sh th) =
    if error =? 0 then (t_ex th + 1, t_sh th) else (t_ex th, t_sh th + 1)) by (cbn; by intros ->).
  destruct p; cbn in Hpc; try done; access.
  - (* Up_fast *) apply good_cmpset; [|by apply (stay _ _ _ Hp)]. intros E. eapply good_ret; [exact (Hset ltac:(tauto) _)|].
    rewrite E1, word_1 in E. apply word_inj in E as (-> & -> & -> & -> & ->); [|done..].
    apply (upgrade_step H td _ Hp); try done. by left.
  - (* Up_read *) pose proof (upgrader _ Hp eq_refl) as He. repeat case_test; bool_prop.
    + apply (stay _ _ _ Hp); try done. split; [done|]. rewrite E1, word_clear_want, word_1 in * by done.
      apply word_inj in E as (-> & -> & _ & -> & ->); [|done..]. by exists w.
    + exfalso. congruence.
    + eapply good_ret; [exact (Hset ltac:(tauto) _)|]. apply (same_step H td _ Hp); try done; cbn; try lia. unfold shl. cbn. lia.
  - (* Up_set *) destruct Hpc as (Hex & w' & ->). apply good_cmpset; [|by apply (stay _ _ _ Hp)]. intros E. apply good_go; try done.
    rewrite word_set_ex by done. rewrite E1 in E. apply word_inj in E as (-> & -> & -> & -> & ->); [|done..].
    apply (upgrade_step H td _ Hp); try done. by right.
  - (* Up_owner *) eapply good_ret; [exact (Hset ltac:(tauto) _)|]. apply (owner_stored H td _ Hp); cbn; try done; [by left|unfold exl; cbn|]; lia.
Qed.

(** ** Unlocking *)

Definition unlocks (o : op) : bool := match o with OpUnlock | OpUnlockEx | OpUnlockSh => true | _ => false end.

Definition unl : role := if 0 <? ex0 then UnlEx else UnlSh.

Lemma unl_cases : simple unl = true ∧ (unl = UnlEx ∨ unl = UnlSh).
Proof. unfold unl. case_test; auto. Qed.

Lemma unlocks_pc_ok o q : unlocks o = true → unlock_ok ex0 q → pc_ok td o ex0 (t_ex th) q.
Proof. by destruct o. Qed.

(** What a thread that unlocks knows of the word. *)
Lemma unl_word p : here p → role_of ex0 p = unl → 1 ≤ n ∧ (e = true ↔ 0 < ex0).
Proof.
  unfold unl. intros Hp Hr. destruct (here_nonneg p Hp). destruct (0 <? ex0) eqn:E; bool_prop.
  - destruct (holder H td) as (_ & Ee & En); rewrite (V_lookup _ _ _ Hp) in *; unfold exl in *; cbn in *; rewrite Hr in *; cbn in *; [lia|].
    split; [lia|done].
  - destruct (sharer H td _ Hp) as (-> & _ & Hn); unfold shl in *; cbn in *; rewrite Hr in *; [lia|]. split; [lia|]. split; [done|lia].
Qed.

Section unlock.
Context (o : op) (p : pc) (Ho : unlocks o = true) (Hp : here p).

Lemma unlock_ret m' : moved m T td m' (View Out (t_ex th) (t_sh th)) → good m T td th o ex0 (ret 0 m').
Proof. apply good_ret. by destruct o. Qed.

Lemma unlock_stay q : role_of ex0 q = role_of ex0 p → unlock_ok ex0 q → good m T td th o ex0 (go q m).
Proof.
  intros Hr Hq. apply (stay _ _ _ Hp); [done|by apply unlocks_pc_ok|by destruct q|]. intros a ->. done.
Qed.

Lemma unlock_go q m' : moved m T td m' (View (role_of ex0 q) (t_ex th) (t_sh th)) → unlock_ok ex0 q → good m T td th o ex0 (go q m').
Proof.
  intros Hm Hq. apply good_go; [done|by apply unlocks_pc_ok|by destruct q|]. intros a ->. done.
Qed.

(** The owner was cleared, but the word changed: back to the start. *)
Lemma unlock_again : 0 < ex0 → role_of ex0 p = UnlNul → good m T td th o ex0 (go Un_read m).
Proof.
  intros Hx Hr. destruct (here_nonneg p Hp). apply unlock_go; [|done]. assert (Hu : role_of ex0 Un_read = UnlEx) by (cbn; by rewrite (proj2 (Z.ltb_lt _ _) Hx)).
  rewrite Hu. apply (same_step H td _ Hp); cbn; try done; rewrite ?Hr; try done; unfold exl, shl; cbn; rewrite Hr; cbn; lia.
Qed.

(** The read of the word in [_mtx_unlock]. *)
Lemma unlock_read_good err : p = Un_read → good m T td th o ex0 (exec td err Un_read m).
Proof.
  intros Ep. assert (Hr : role_of ex0 p = unl) by by rewrite Ep. destruct (unl_word p Hp Hr) as [Hn He].
  destruct word_parts as (E1 & E2 & E3 & E4 & E5). pose proof (word_inj e false w false n) as Hinj. access.
  assert (Hrole : role_of ex0 Un_read = role_of ex0 p) by by rewrite Hr.
  rewrite E1, word_clear_sw_link by done. repeat case_test; bool_prop; try (by apply unlock_stay).
  - apply unlock_stay; [by rewrite Hr|]. rewrite word_1 in E. apply Hinj in E as (-> & _ & -> & _ & ->); [|done..]. by exists s, l.
  - apply unlock_stay; [by rewrite Hr|]. rewrite word_lock_ex in E0. apply Hinj in E0 as (Ee & _ & -> & _ & ->); [|done..].
    split; [by apply He|]. rewrite Ee. by exists s, l.
  - apply unlock_stay; [by rewrite Hr|]. rewrite word_exlink in * by done. rewrite word_want_1 in *.
    apply Hinj in E6 as (-> & _ & -> & _ & ->); [|done..]. rewrite E7. exists false, s. split; [done|]. by destruct s.
  - apply unlock_stay; [by rewrite Hr|]. rewrite word_exlink in * by done. rewrite word_ex_want_1 in *.
    apply Hinj in E7 as (-> & _ & -> & _ & ->); [|done..]. rewrite E8. exists true, s. split; [done|]. by destruct s.
  - assert (Hn1 : n ≠ 1) by (intros ->; destruct e, w; done). rewrite word_pred by (rewrite ?counts_iff in *; lia).
    rewrite word_mask by (rewrite counts_iff in *; lia). unfold kkassert. rewrite (proj2 (Z.eqb_neq _ _)).
    + apply unlock_stay; [by rewrite Hr|]. by exists e, s, w, l, n.
    + rewrite counts_iff in *. change MTX_MASK with 268435455. lia.
Qed.

(** The last lock is given up. *)
Lemma unlock_release e0 s0 l0 : role_of ex0 p = UnlNul ∧ e0 = true ∨ role_of ex0 p = unl ∧ e0 = false →
  mtx_lock m = word e0 s0 false l0 1 → moved m T td (set_lock 0 m) (View Out (t_ex th) (t_sh th)) ∧ l0 = false.
Proof.
  intros Hr E. apply (release_step H td _ Hp) with (e0 := e0) (s0 := s0); try done; cbn [v_role].
  - destruct Hr as [[-> _]|[-> _]]; [done|]. unfold unl. by case_test.
  - destruct Hr as [[-> ->]|[-> ->]]; [by left|right]. unfold unl. case_test; auto.
Qed.

(** The attempt of mutex2.h to do so. *)
Lemma unlock_fast_good err lock : p = Fast_clear lock → lock = lock_ex ∧ 0 < ex0 ∨ lock = 1 →
  good m T td th o ex0 (exec td err (Fast_clear lock) m).
Proof.
  intros Ep Hl. assert (Hr : role_of ex0 p = if lock =? lock_ex then UnlNul else unl) by by rewrite Ep.
  access. destruct Hl as [[-> Hx]| ->]; apply good_cmpset.
  - intros E. apply unlock_ret. apply (unlock_release true false false); [by left|done].
  - by apply unlock_again.
  - intros E. apply unlock_ret. apply (unlock_release false false false); [by right|done].
  - apply unlock_stay; [by rewrite Hr|done].
Qed.

(** That of [_mtx_unlock]. *)
Lemma unlock_last_good e0 s0 l0 (k : mtx → result) : role_of ex0 p = UnlNul ∧ e0 = true ∨ role_of ex0 p = unl ∧ e0 = false →
  (∀ m', moved m T td m' (View Out (t_ex th) (t_sh th)) → good m T td th o ex0 (k m')) →
  0 < ex0 ∨ e0 = false →
  good m T td th o ex0 (cmpset m (word e0 s0 false l0 1) (Z.land (word e0 s0 false l0 1) MTX_EXLINK) k (go Un_read)).
Proof.
  intros Hr Hk Hx. apply good_cmpset.
  - intros E. destruct (unlock_release e0 s0 l0 Hr E) as [Hm ->]. rewrite word_and_link by done. by apply Hk.
  - destruct Hr as [[Hr ->]|[Hr _]]; [apply unlock_again; [by destruct Hx|done]|]. apply unlock_stay; [by rewrite Hr|done].
Qed.

(** The word is set to hand the lock on. *)
Lemma unlock_chain_good e0 s0 : role_of ex0 p = unl → mtx_lock m = word e0 s0 true false 1 →
  good m T td th o ex0 (go Chain_pop (set_lock (word true s0 true true 1) m)).
Proof.
  intros Hr E. destruct (unl_word p Hp Hr) as [_ He]. destruct word_parts as (E1 & E2 & _). apply unlock_go; [|done]. 
  assert (e = e0 ∧ s = s0) as [Ee <-] by (rewrite E1 in E; by apply word_inj in E as (? & ? & _)). destruct e0.
  - apply (chain_ex_step H td _ Hp); try done. cbn. rewrite Hr. unfold unl. rewrite (proj2 (Z.ltb_lt _ _)); [done|by apply He].
  - apply (chain_sh_step H td _ Hp); try done. cbn. rewrite Hr. unfold unl. destruct (0 <? ex0) eqn:Ex; [|done]. bool_prop.
    apply He in Ex. congruence.
Qed.

(** The first waiter is taken from the ring. *)
Lemma unlock_pop_good err : p = Chain_pop → good m T td th o ex0 (exec td err Chain_pop m).
Proof.
  intros Ep. assert (Hr : role_of ex0 p = Chain0) by by rewrite Ep.
  destruct (pop_ready H td _ Hp) as (a & Hf & Hst & rs' & Ers); [done|].
  destruct (r_linked _ _ _ _ _ (g_rng _ _ _ _ _ _ _ _ _ H) a) as (u & _ & -> & _); [rewrite Ers; left|].
  access. rewrite Hf, Hst. unfold kkassert. cbn [Z.eqb MTX_LINK_LINKED Pos.eqb]. apply unlock_go; [|done].
  by apply (pop_step H td _ Hp _ u rs').
Qed.

(** The wakeup of the waiter that was handed the lock. *)
Lemma unlock_wakeup_good err a : p = Chain_wakeup a → good m T td th o ex0 (exec td err (Chain_wakeup a) m).
Proof.
  intros Ep. assert (Hr : role_of ex0 p = Wake a) by by rewrite Ep.
  destruct (wake_step H td _ Hp (View Out (t_ex th) (t_sh th)) a) as [Hm (u & -> & Hu & Hrel)]; try done.
  assert (Hv : view_of (proceed th o ex0 (Return 0) (Wakeup (OnLink (Stack u)))) = View Out (t_ex th) (t_sh th)) by by destruct o.
  access; cbn [good]. rewrite Hv. split; [done|]. split; [done|]. intros id [= <-]. right. by exists u.
Qed.

Lemma unlock_wakeup_sh_good : role_of ex0 p = Out → good m T td th o ex0 (Ok (Return 0, m, Wakeup OnMutex)).
Proof.
  intros Hr. assert (Hv : view_of (proceed th o ex0 (Return 0) (Wakeup OnMutex)) = View Out (t_ex th) (t_sh th)) by by destruct o.
  cbn [good]. rewrite Hv, <- Hr. split; [by apply (moved_stay H td th ex0 p)|]. split; [done|]. intros id [= <-]. by left.
Qed.

End unlock.

Lemma good_unlock o p err : unlocks o = true → pc_ok td o ex0 (t_ex th) p → here p → good m T td th o ex0 (exec td err p m).
Proof.
  intros Ho Hpc Hp. assert (Hok : unlock_ok ex0 p) by by destruct o. clear Hpc.
  destruct word_parts as (E1 & E2 & E3 & E4 & E5). pose proof (unl_word p Hp) as He.
  assert (Hlt : 0 < ex0 → (0 <? ex0) = true) by apply Z.ltb_lt.
  destruct p; cbn in Hok; try done.
  - (* Fast_read *) access. destruct (He eq_refl) as [_ Hx]. repeat case_test; bool_prop; apply (unlock_stay _ _ Ho Hp); try done.
    + split; [done|]. apply Hx. rewrite <- E3, E. done.
    + cbn [role_of]. by rewrite (proj2 (Z.eqb_neq _ _)).
    + by right.
  - (* Fast_owner *) destruct Hok as [-> Hx]. apply (unlock_go _ Ho); [|by left].
    apply (null_step H td _ Hp); try done; cbn; by rewrite Hlt.
  - (* Fast_clear *) by apply (unlock_fast_good _ _ Ho Hp).
  - (* Un_read *) by apply (unlock_read_good _ _ Ho Hp).
  - (* Un_shared *) destruct Hok as (s0 & l0 & ->). access. apply (unlock_last_good _ _ Ho Hp); [by right| |by right].
    intros m'. by apply unlock_ret.
  - (* Un_owner *) destruct Hok as [Hx Hl]. apply (unlock_go _ Ho); [|done]. apply (null_step H td _ Hp); try done; cbn; by rewrite Hlt.
  - (* Un_exclusive *) destruct Hok as (Hx & s0 & l0 & ->). access. apply (unlock_last_good _ _ Ho Hp); [by left| |by left].
    intros m' Hm. case_test; [by apply (unlock_go _ Ho)|by apply unlock_ret].
  - (* Un_wakeup *) by apply (unlock_wakeup_sh_good _ _ Ho Hp).
  - (* Un_chain *) destruct Hok as (e0 & s0 & -> & ->). access. apply good_cmpset; [|by apply (unlock_stay _ _ Ho Hp)].
    intros E. by apply (unlock_chain_good _ _ Ho Hp e0).
  - (* Un_count *) destruct Hok as (e0 & s0 & w0 & l0 & n0 & -> & Hn & Hn1). access. apply good_cmpset; [|by apply (unlock_stay _ _ Ho Hp)].
    rewrite E1. intros E. apply word_inj in E as (<- & <- & <- & <- & <-); [|done..].
    destruct unl_cases as [Hs Hor]. destruct (count_step H td _ Hp Hs (View Out (t_ex th) (t_sh th)) Hor) as [Hm Hn']; try done.
    apply (unlock_ret _ Ho). by rewrite word_pred.
  - (* Chain_pop *) by apply (unlock_pop_good _ _ Ho Hp).
  - (* Chain_owner *) apply (unlock_go _ Ho); [|done]. by apply (chown_step H td _ Hp _ l0 clock).
  - (* Chain_read *) destruct link; [|done]. by apply (unlock_stay _ _ Ho Hp).
  - (* Chain_clear *) destruct link as [a|]; [|done]. access. apply good_cmpset; [|by apply (unlock_stay _ _ Ho Hp)].
    intros <-. apply (unlock_go _ Ho); [|done]. by apply (chclear_step H td _ Hp _ a clock).
  - (* Chain_wakeup *) by apply (unlock_wakeup_good _ _ Ho Hp).
Qed.

Lemma exec_good o p err : pc_ok td o ex0 (t_ex th) p → here p → link_live p → (∀ a, p = Ex_asleep a → err = 0 ∧ released m T td) →
  (∀ f t, p = Sh_asleep f t → err = 0) → good m T td th o ex0 (exec td err p m).
Proof.
  intros Hpc Hp Hf Hw Hsh. destruct o; [by apply good_lock|by apply good_lock_sh|by apply good_spin|by apply good_try|by apply good_try_sh|
    by destruct p|by apply good_upgrade|by apply good_unlock..|by destruct p].
Qed.

(** A thread outside that relies on sharing the mutex does not hold it. *)
Lemma mutex_sharing p : here p → role_of ex0 p = Out → 0 < t_sh th → t_ex th = 0.
Proof.
  intros Hp Hr Hs. destruct (here_nonneg p Hp). destruct (sharer H td _ Hp) as (_ & Hh & _); [unfold shl; cbn; rewrite Hr; lia|].
  pose proof (c_excl _ _ _ _ _ (g_cnt _ _ _ _ _ _ _ _ _ H) td) as E. rewrite (V_lookup _ _ _ Hp), Hh in E. not_decided E.
  unfold exl in E. cbn in E. rewrite Hr in E. cbn in E. lia.
Qed.

End ops.

(** * Systems *)

(** The other threads after a step. *)
Lemma thread_ok_moved m T td m' v u th : moved m T td m' v → u ≠ td → thread_ok m T u th → thread_ok m' (<[td := v]> T) u th.
Proof.
  intros (_ & Hrel & Hst) Hu. unfold thread_ok. destruct (t_status th) as [|o ex0 p]; [done|]. intros (Hpc & Hf & Ha). split; [done|]. split.
  - intros Hfr. apply Hst; auto.
  - intros a Hp. destruct (Ha a Hp); auto.
Qed.

(** A call: the counts stay, as the role has what the caller no longer relies on. *)
Lemma mutex_call_moved {m T e s w l n h rs} (H : G m T e s w l n h rs) td th o ex sh :
  T !! td = Some (View Out (t_ex th) (t_sh th)) → careful td th o → part_with o (t_ex th) (t_sh th) = (ex, sh) →
  moved m T td m (View (role_of (t_ex th) (entry o)) ex sh) ∧ pc_ok td o (t_ex th) ex (entry o).
Proof.
  intros Hv Hc Hg. destruct (here_nonneg H td th 0 Un_wakeup Hv) as [N1 N2].
  pose proof (mutex_sharing H td th 0 Un_wakeup Hv eq_refl) as Hsx.
  assert (Hsame : ∀ r, simple r = true → r ≠ UnlNul → 0 ≤ ex → 0 ≤ sh → ex + in_ex m td r = t_ex th →
    sh + match r with UnlSh | Upg => 1 | _ => 0 end = t_sh th → moved m T td m (View r ex sh)).
  { intros r Hr Hn Hx Hs E1 E2. apply (same_step H td _ Hv); try done; unfold exl, shl; cbn in *; lia. }
  destruct o; cbn in Hc, Hg |- *; try done; try (injection Hg as <- <-; split; [apply Hsame; cbn; (done || lia)|done]).
  - (* OpUpgrade *) rewrite (Hsx Hc) in *. injection Hg as <- <-. split; [|done]. apply Hsame; cbn; (done || lia).
  - (* OpUnlock *) destruct (0 <? t_ex th) eqn:E; injection Hg as <- <-; bool_prop; (split; [|done]); apply Hsame; cbn; (done || lia).
  - (* OpUnlockEx *) rewrite (proj2 (Z.ltb_lt _ _) Hc). injection Hg as <- <-. split; [|done]. apply Hsame; cbn; (done || lia).
  - (* OpUnlockSh *) rewrite (Hsx Hc) in *. injection Hg as <- <-. split; [|by right]. apply (Hsame UnlSh); cbn; (done || lia).
Qed.

Lemma call_views s td th o : sys_ok s → threads s !! td = Some th → t_status th = Idle → careful td th o →
  ∃ ex sh, call td th o s = System (mx s) (<[td := Thread (Running o (t_ex th) (entry o)) (t_wchan th) ex sh]> (threads s)) ∧
    moved (mx s) (views s) td (mx s) (View (role_of (t_ex th) (entry o)) ex sh) ∧ pc_ok td o (t_ex th) ex (entry o).
Proof.
  intros [(e & sw & w & l & n & h & rs & H) _] Htd Hid Hc. unfold call. destruct (part_with o (t_ex th) (t_sh th)) as [ex sh] eqn:Hg.
  exists ex, sh. split; [done|]. apply (mutex_call_moved H td th o ex sh); try done.
  unfold views. rewrite lookup_fmap, Htd. cbn. unfold view_of. by rewrite Hid.
Qed.

Lemma call_ok s td th o : sys_ok s → threads s !! td = Some th → t_status th = Idle → careful td th o → sys_ok (call td th o s).
Proof.
  intros Hok Htd Hid Hc. destruct (call_views s td th o Hok Htd Hid Hc) as (ex & sh & -> & Hm & Hpc).
  unfold sys_ok, views. cbn [mx threads]. rewrite fmap_insert. split.
  - by destruct Hm as [? _].
  - intros u thu. destruct (decide (u = td)) as [->|Hu].
    + rewrite lookup_insert_eq. intros [= <-]. split; [done|]. by destruct o.
    + rewrite lookup_insert_ne by done. intros Hl. apply (thread_ok_moved _ _ _ _ _ _ _ Hm Hu). by apply Hok.
Qed.

Lemma view_of_wake id th : view_of (wake id th) = view_of th.
Proof. unfold wake. by case_decide. Qed.

Lemma views_woken e ths : view_of <$> woken e ths = view_of <$> ths.
Proof.
  unfold woken. destruct e; try done. rewrite <- map_fmap_compose. apply map_fmap_ext. intros i x _. apply view_of_wake.
Qed.

Lemma woken_lookup e (ths : gmap Z thread) u th : woken e ths !! u = Some th → ∃ th0, ths !! u = Some th0 ∧ 
  (th = th0 ∨ ∃ id, e = Wakeup id ∧ t_wchan th0 = Some id ∧ t_status th = t_status th0 ∧ t_ex th = t_ex th0).
Proof.
  unfold woken. destruct e; try (intros E; exists th; by auto). rewrite lookup_fmap. destruct (ths !! u) as [th0|]; [|done].
  cbn. intros [= <-]. exists th0. split; [done|]. unfold wake. case_decide; [right; by exists id|by left].
Qed.

(** A step that is good keeps the system well formed. *)
Lemma good_ok s td th o ex pr m' e : sys_ok s → threads s !! td = Some th → 
  good (mx s) (views s) td th o ex (Ok (pr, m', e)) → sys_ok (System m' (woken e (<[td := proceed th o ex pr e]> (threads s)))).
Proof.
  intros [_ Hths] Htd (Hm & Hpr & Hwk). unfold sys_ok, views. cbn [mx threads]. rewrite views_woken, fmap_insert. split.
  { by destruct Hm as [? _]. }
  intros u th2 Hl. apply woken_lookup in Hl as (th0 & Hl & Hw). destruct (decide (u = td)) as [->|Hu].
  - rewrite lookup_insert_eq in Hl. injection Hl as <-. unfold thread_ok.
    assert (t_status th2 = t_status (proceed th o ex pr e) ∧ t_ex th2 = t_ex (proceed th o ex pr e)) as [-> ->]
      by (destruct Hw as [->|(? & _ & _ & ? & ?)]; done).
    unfold proceed in *. destruct pr as [q|error]; [|by destruct (settle _ _ _ _ _)]. cbn in *. destruct Hpr as (Hpc & Hf & Ha).
    split; [done|]. split; [done|]. intros a Hq. specialize (Ha a Hq) as ->. destruct Hw as [->|(? & ? & _)]; [by left|done].
  - rewrite lookup_insert_ne in Hl by done. pose proof (thread_ok_moved _ _ _ _ _ _ _ Hm Hu (Hths _ _ Hl)) as Hok.
    destruct Hw as [->|(id & -> & Hid & Hst & Hx)]; [done|]. revert Hok. unfold thread_ok. rewrite Hst, Hx.
    destruct (t_status th0) as [|o0 ex0 p0]; [done|]. intros (Hpc & Hf & Ha). split; [done|]. split; [done|]. intros a Hp. right.
    destruct (Ha a Hp) as [E|?]; [|done]. destruct (Hwk id eq_refl) as [->|(u2 & -> & _ & Hr)]; [congruence|].
    by assert (u2 = u) as -> by congruence.
Qed.

(** No assertion of a careful thread fails. *)
Lemma exec_ok s td th o ex p err : sys_ok s → threads s !! td = Some th → t_status th = Running o ex p → 
  enabled p (t_wchan th) err = true → room (mx s) = true → good (mx s) (views s) td th o ex (exec td err p (mx s)).
Proof.
  intros [(e & sw & w & l & n & h & rs & H) Hths] Htd Hst Hen Hroom. pose proof (Hths td th Htd) as Hok. unfold thread_ok in Hok. rewrite Hst in Hok.
  destruct Hok as (Hpc & Hf & Ha). apply (exec_good H Hroom); try done.
  - unfold here, views. rewrite lookup_fmap, Htd. cbn. unfold view_of. by rewrite Hst.
  - intros a ->. destruct o; try done. cbn in Hpc. subst a. cbn in Hen. rewrite andb_false_r, orb_false_r in Hen. bool_prop.
    split; [done|]. destruct (Ha _ eq_refl) as [E|?]; [|done]. rewrite E in H0. done.
  - intros f t ->. destruct o; try done. destruct Hpc as [-> ->]. cbn in Hen. rewrite andb_false_r, orb_false_r in Hen. by bool_prop.
Qed.

Lemma perform_ok s td th o ex p err : sys_ok s → threads s !! td = Some th → t_status th = Running o ex p → 
  enabled p (t_wchan th) err = true → room (mx s) = true → ∃ s', perform td th o ex p err s = Ok s' ∧ sys_ok s'.
Proof.
  intros Hok Htd Hst Hen Hroom. pose proof (exec_ok _ _ _ _ _ _ _ Hok Htd Hst Hen Hroom) as Hg. unfold perform.
  destruct (exec td err p (mx s)) as [[[pr m'] e]| | |]; try done. cbn. eexists. split; [done|]. by apply good_ok.
Qed.

Lemma mutex_step_ok s s' : step careful s s' → sys_ok s → sys_ok s'.
Proof.
  intros [td th o Htd Hid Hc|td th o ex p err s2 Htd Hst Hen Hroom Hp] Hok; [by apply call_ok|].
  destruct (perform_ok _ _ _ _ _ _ _ Hok Htd Hst Hen Hroom) as (s3 & E & ?). congruence.
Qed.

Lemma mutex_initial_ok s : initial s → sys_ok s.
Proof.
  intros [(m & Hm) Hth].
  assert (HT : ∀ u v, views s !! u = Some v → v = View Out 0 0).
  { intros u v. unfold views. rewrite lookup_fmap. destruct (threads s !! u) as [th|] eqn:E; cbn; [|done]. rewrite (Hth u th E). by intros [= <-]. }
  assert (HV : ∀ u, V (views s) u = View Out 0 0).
  { intros u. unfold V. destruct (views s !! u) as [v|] eqn:E; [by apply HT in E|done]. }
  split; [|intros td th E; unfold thread_ok; by rewrite (Hth td th E)].
  exists false, false, false, false, 0, None, []. rewrite Hm. split; try done; [by intros []|split|split]; intros; rewrite ?HV in *; try done.
  - apply map_sum_zero. intros u v E. by rewrite (HT u v E).
  - split; [done|]. intros [u Hu]. by rewrite HV in Hu.
  - split; try done. by apply NoDup_nil.
  - by match goal with Hin : _ ∈ [] |- _ => apply not_elem_of_nil in Hin end.
  - split; [done|]. intros [?|[u Hu]]; [done|]. by rewrite HV in Hu.
  - by destruct_or?.
Qed.

Lemma steps_ok s s' : rtc (step careful) s s' → sys_ok s → sys_ok s'.
Proof. intros Hr. induction Hr; [done|]. eauto using mutex_step_ok. Qed.

Lemma mutex_reachable_ok s0 s : initial s0 → rtc (step careful) s0 s → sys_ok s.
Proof. intros H0 Hr. by apply (steps_ok s0), mutex_initial_ok. Qed.

End MutexSafe.
