(* ===== verification/MutexProps.v ===== *)
(** What the mutex guarantees to careful threads, the wakeup that it loses, and
    what goes wrong for threads that are not careful. *)

From stdpp Require Import base functions list gmap.
From S2P Require Import Prelude Mutex MutexTheory MutexSystem MutexInv MutexSafe.

Module MutexProps.
Import Mutex MutexTheory MutexSystem MutexInv MutexSafe.

(** * Threads that wait for a wakeup that is over *)

(** Thread [u] sleeps on its link, and has the mutex. *)
Definition stuck (u : Z) (s : system) : Prop :=
  released (mx s) (views s) u ∧ ∃ th o ex a, threads s !! u = Some th ∧ t_status th = Running o ex (Ex_asleep a) ∧
    t_wchan th = Some (OnLink (Stack u)).

(** The only wakeup on a link is that of the thread that handed it the lock. *)
Lemma wakes_target td o ex0 ex err p m pr m' a : pc_ok td o ex0 ex p → exec td err p m = Ok (pr, m', Wakeup (OnLink a)) →
  role_of ex0 p = Wake a.
Proof.
  intros Hpc H. destruct p; cbn in H; unfold cmpset, tsleep, kkassert, go, ret in H; repeat (case_match; try discriminate H);
    try discriminate H; [by injection H as _ _ ->|by destruct o].
Qed.

Lemma stuck_moved u td m m' T v : moved m T td m' v → u ≠ td → released m T u → released m' (<[td := v]> T) u.
Proof. intros (_ & Hrel & _). by apply Hrel. Qed.

Lemma stuck_step u s s' : step careful s s' → sys_ok s → stuck u s → stuck u s'.
Proof.
  intros [td th2 o2 Htd Hid Hc|td th2 o2 ex2 p err s2 Htd Hst2 Hen Hroom Hp] Hok [Hrel (th & o & ex & a & Hu & Hst & Hwc)].
  - assert (u ≠ td) by (intros ->; congruence). destruct (call_views s td th2 o2 Hok Htd Hid Hc) as (x & y & -> & Hm & _). split.
    + unfold views. cbn [mx threads]. rewrite fmap_insert. by apply (stuck_moved _ _ (mx s)).
    + exists th, o, ex, a. cbn [threads]. by rewrite lookup_insert_ne.
  - pose proof (proj2 Hok td th2 Htd) as Hth. unfold thread_ok in Hth. rewrite Hst2 in Hth. destruct Hth as (Hpc & _).
    assert (u ≠ td).
    { intros ->. assert (th2 = th) as -> by congruence. assert (p = Ex_asleep a) as -> by congruence. destruct o2; try done.
      cbn in Hpc. subst a. rewrite Hwc in Hen. cbn in Hen. by rewrite andb_false_r in Hen. }
    pose proof (exec_ok _ _ _ _ _ _ _ Hok Htd Hst2 Hen Hroom) as Hg. unfold perform in Hp.
    destruct (exec td err p (mx s)) as [[[pr m'] e]| | |] eqn:Ee; try done. cbn in Hp. injection Hp as <-. destruct Hg as (Hm & _). split.
    + unfold views. cbn [mx threads]. rewrite views_woken, fmap_insert. by apply (stuck_moved _ _ (mx s)).
    + cbn [threads]. exists th, o, ex, a. split; [|done].
      assert (Hl : <[td := proceed th2 o2 ex2 pr e]> (threads s) !! u = Some th) by by rewrite lookup_insert_ne.
      unfold woken. destruct e as [| | |id]; try done. rewrite lookup_fmap, Hl. cbn. unfold wake. case_decide as E; [|done].
      exfalso. rewrite Hwc in E. injection E as <-. apply wakes_target with (ex0 := ex2) (o := o2) (ex := t_ex th2) in Ee; [|done].
      destruct Hrel as (_ & _ & _ & Hno). apply (Hno td). unfold V, views. rewrite lookup_fmap, Htd. cbn. unfold view_of. rewrite Hst2.
      cbn. by rewrite Ee.
Qed.

Lemma stuck_forever u s s' : rtc (step careful) s s' → sys_ok s → stuck u s → stuck u s'.
Proof. intros Hr. induction Hr; [done|]. eauto using stuck_step, mutex_step_ok. Qed.

Lemma stuck_locked u s : sys_ok s → stuck u s → mtx_islocked_ex (mx s) = true.
Proof.
  intros [(e & sw & w & l & n & h & rs & H) _] [(Hs & _ & Hr & _) _]. pose proof (acquired_holder H u (or_introl Hr) Hs) as Hh.
  unfold mtx_islocked_ex. rewrite (g_word _ _ _ _ _ _ _ _ _ H), word_ex by apply H. rewrite (c_h _ _ _ _ _ (g_cnt _ _ _ _ _ _ _ _ _ H)).
  apply bool_decide_eq_true. by rewrite Hh.
Qed.

Lemma stuck_asleep u s : sys_ok s → stuck u s → ∃ th o ex a, threads s !! u = Some th ∧ t_status th = Running o ex (Ex_asleep a) ∧
  ∀ err, enabled (Ex_asleep a) (t_wchan th) err = false.
Proof.
  intros [_ Hths] [_ (th & o & ex & a & Hu & Hst & Hwc)]. exists th, o, ex, a. split; [done|]. split; [done|]. intros err.
  pose proof (Hths u th Hu) as Hth. unfold thread_ok in Hth. rewrite Hst in Hth. destruct Hth as (Hpc & _). destruct o; try done.
  cbn in Hpc. subst a. rewrite Hwc. cbn. by rewrite andb_false_r.
Qed.

(** * The lock of careful threads *)

Section well_formed.
Context (s : system) (Hok : sys_ok s).

Lemma views_lookup td th : threads s !! td = Some th → views s !! td = Some (view_of th).
Proof. intros H. unfold views. by rewrite lookup_fmap, H. Qed.

(** A thread that relies on holding the mutex exclusively excludes all others. *)
Lemma relies_alone td th : threads s !! td = Some th → 0 < t_ex th → mtx_islocked_ex (mx s) = true ∧
  ∀ td' th', threads s !! td' = Some th' → t_sh th' = 0 ∧ (td' ≠ td → t_ex th' = 0).
Proof.
  intros Htd Hx. destruct Hok as [(e & sw & w & l & n & h & rs & H) _]. pose proof (g_cnt _ _ _ _ _ _ _ _ _ H) as [_ Hpos Hsum Hexcl _ _].
  pose proof (V_lookup _ _ _ (views_lookup td th Htd)) as EV.
  destruct (holder H td) as (-> & -> & _). { rewrite EV. unfold exl. cbn. pose proof (in_ex_range (m := mx s) td (v_role (view_of th))). cbn in *. lia. }
  split; [unfold mtx_islocked_ex; by rewrite (g_word _ _ _ _ _ _ _ _ _ H), word_ex by apply H|].
  intros td' th' Htd'. pose proof (views_lookup td' th' Htd') as Hv'. pose proof (V_lookup _ _ _ Hv') as EV'.
  pose proof (Hpos td') as [P1 P2]. rewrite EV' in P1, P2. cbn in P1, P2. split.
  - assert (shl (view_of th') ≤ 0).
    { rewrite <- Hsum. apply (map_sum_member _ _ td'); [|done]. intros i a Hi. rewrite <- (V_lookup _ _ _ Hi). apply (shl_nonneg H). }
    unfold shl in *. change (v_sh (view_of th')) with (t_sh th') in *. destruct (v_role (view_of th')); lia.
  - intros Hne. pose proof (Hexcl td') as E. rewrite EV', decide_False in E by congruence. unfold exl in E. cbn in E.
    pose proof (in_ex_range (m := mx s) td' (v_role (view_of th'))). cbn in *. lia.
Qed.

(** The count in the word, when it is that of one holder or of all sharers. *)
Lemma count_sum e h n : e = bool_decide (is_Some h) → map_sum shl (views s) = (if e then 0 else n) → (e = true → 1 ≤ n) →
  (∀ u th, threads s !! u = Some th → shl (view_of th) = t_sh th ∧ 0 ≤ t_sh th ∧ t_ex th = if decide (h = Some u) then n else 0) →
  (∀ u, h = Some u → is_Some (threads s !! u)) → n = map_sum (λ th, t_ex th + t_sh th) (threads s).
Proof.
  intros He Hsum Hn Hth Hh. unfold views in Hsum. rewrite map_sum_fmap in Hsum. destruct h as [u|].
  - rewrite He in *. cbn in Hsum. destruct (Hh u eq_refl) as [th Hu]. destruct (Hth u th Hu) as (_ & _ & Hx). rewrite decide_True in Hx by done.
    assert (Hz : ∀ i a, threads s !! i = Some a → t_sh a = 0).
    { intros i a Hi. destruct (Hth i a Hi) as (E & ? & _). assert (shl (view_of a) ≤ 0); [|lia]. rewrite <- Hsum.
      apply (map_sum_member (λ a, shl (view_of a)) _ i); [|done]. intros j b Hj. destruct (Hth j b Hj) as (-> & ? & _). lia. }
    rewrite (map_sum_delete _ _ u th Hu), map_sum_zero, (Hz u th Hu); [lia|]. intros i a [Hne Hi]%lookup_delete_Some.
    destruct (Hth i a Hi) as (_ & _ & ->). rewrite (Hz i a Hi), decide_False by congruence. done.
  - rewrite He in Hsum. cbn in Hsum. rewrite <- Hsum. apply map_sum_ext. intros i a Hi. destruct (Hth i a Hi) as (-> & _ & ->).
    by rewrite decide_False.
Qed.

(** What the word of the mutex says when no thread is in a function of it. *)
Lemma idle_word : (∀ td th, threads s !! td = Some th → t_status th = Idle) →
  mtx_lockrefs (mx s) = map_sum (λ th, t_ex th + t_sh th) (threads s) ∧
  has_flag (mtx_lock (mx s)) MTX_EXLINK = false ∧ mtx_first (mx s) = None ∧
  ∀ td th, threads s !! td = Some th → mtx_islocked_ex (mx s) = true → mtx_owner (mx s) = Some td → 0 < t_ex th.
Proof.
  intros Hidle. destruct Hok as [(e & sw & w & l & n & h & rs & H) _].
  assert (HT : ∀ u th, threads s !! u = Some th → view_of th = View Out (t_ex th) (t_sh th)).
  { intros u th Hu. unfold view_of. by rewrite (Hidle u th Hu). }
  assert (HV : ∀ u, v_role (V (views s) u) = Out).
  { intros u. unfold V, views. rewrite lookup_fmap. destruct (threads s !! u) as [th|] eqn:E; [|done]. change (v_role (view_of th) = Out). by rewrite (HT u th E). }
  pose proof H as [G1 G2 G3 _ [C1 C2 C3 C4 C5 _] [R1 _ R3 R4 _ _ _ _ _ _ _]].
  assert (l = false) as ->.
  { destruct l; [|done]. destruct (proj1 R1 eq_refl) as [u Hu]. by rewrite HV in Hu. }
  assert (rs = []) as ->.
  { destruct rs as [|a rs]; [done|]. destruct (R4 a) as (u & c & _ & Hu & _); [left|]. by rewrite HV in Hu. }
  assert (Hx : ∀ u th, threads s !! u = Some th → t_ex th = if decide (h = Some u) then n else 0).
  { intros u th Hu. pose proof (C4 u) as E. rewrite (V_lookup _ _ _ (views_lookup u th Hu)), (HT u th Hu) in E. unfold exl in E. cbn in E. lia. }
  split; [|split; [|split]].
  - unfold mtx_lockrefs. rewrite G1, word_mask by done. apply (count_sum e h); try done; [by intros; apply G3; left| |].
    + intros u th Hu. rewrite (HT u th Hu). unfold shl. cbn. destruct (C2 u) as [_ P]. rewrite (V_lookup _ _ _ (views_lookup u th Hu)) in P.
      split; [lia|]. split; [done|]. by apply Hx.
    + intros u ->. destruct (threads s !! u) as [th|] eqn:E; [done|]. exfalso. pose proof (C4 u) as En. unfold V, views in En.
      rewrite lookup_fmap, E, decide_True in En by done. cbn in En. unfold exl in En. cbn in En. assert (1 ≤ n) by (apply G3; by left). lia.
  - by rewrite G1, word_exlink.
  - by rewrite (ring_first _ _ R3).
  - intros td th Htd He Ho. unfold mtx_islocked_ex in He. rewrite G1, word_ex in He by done. subst e.
    destruct (C5 td Ho) as [Eh|(a & c & E)]; [|by rewrite HV in E]. rewrite (Hx td th Htd), decide_True by done.
    assert (1 ≤ n) by (apply G3; by left). lia.
Qed.

End well_formed.

(** C7: the mutex is safe for careful threads, which call its functions with a
    link of their own, without signals and timeouts, do not abort waits or
    downgrade, and give up or upgrade only what they hold.  In every interleaving
    of their single accesses to the word, the owner and the links, no KKASSERT of
    the functions fails, as long as the count has room; and while one thread
    relies on holding the mutex exclusively, the word says so, and no other
    thread relies on holding it, and none on sharing it.  (For other threads see
    [mutex_stale_owner] and [mutex_downgrade_frees].) *)
Theorem mutex_safe s0 s (H0 : initial s0) (Hr : rtc (step careful) s0 s) :
  (∀ td th o ex p err, threads s !! td = Some th → t_status th = Running o ex p → enabled p (t_wchan th) err = true →
    room (mx s) = true → ∃ s', perform td th o ex p err s = Ok s') ∧
  ∀ td th, threads s !! td = Some th → 0 < t_ex th → mtx_islocked_ex (mx s) = true ∧
    ∀ td' th', threads s !! td' = Some th' → t_sh th' = 0 ∧ (td' ≠ td → t_ex th' = 0).
Proof.
  pose proof (mutex_reachable_ok _ _ H0 Hr) as Hok. split; [|by apply relies_alone]. intros td th o ex p err Htd Hst Hen Hroom.
  destruct (perform_ok _ _ _ _ _ _ _ Hok Htd Hst Hen Hroom) as (s' & ? & _). by exists s'.
Qed.

(** C13: when no careful thread is in a function of the mutex, the count in its
    word is the sum of what the threads rely on, nothing is left of the waiters
    (no work on the ring, no link in it), and whoever the mutex names as the
    owner of an exclusive lock relies on it. *)
Theorem mutex_idle s0 s (H0 : initial s0) (Hr : rtc (step careful) s0 s) (Hidle : ∀ td th, threads s !! td = Some th → t_status th = Idle) :
  mtx_lockrefs (mx s) = map_sum (λ th, t_ex th + t_sh th) (threads s) ∧
  has_flag (mtx_lock (mx s)) MTX_EXLINK = false ∧ mtx_first (mx s) = None ∧
  ∀ td th, threads s !! td = Some th → mtx_owned td (mx s) = true → 0 < t_ex th.
Proof.
  destruct (idle_word s (mutex_reachable_ok _ _ H0 Hr) Hidle) as (? & ? & ? & Ho). split_and!; try done. intros td th Htd. unfold mtx_owned.
  intros [He Hs]%andb_true_iff. apply bool_decide_eq_true in Hs. by apply (Ho td).
Qed.

(** A thread takes the mutex twice, another one waits for it, and it is given
    up: all that happens before the waiting thread calls tsleep(9). *)
Definition lock_alone : list event := Call 1 (OpLock (plain 1)) :: replicate 2 (Access 1 0).
Definition lock_twice : list event := lock_alone ++ Call 1 (OpLock (plain 1)) :: replicate 4 (Access 1 0).
Definition wait_and_lose : list event :=
  lock_alone ++ Call 2 (OpLock (plain 2)) :: replicate 8 (Access 2 0) ++ Call 1 OpUnlock :: replicate 8 (Access 1 0) ++ [Access 2 0].

Definition after (may : Z → thread → op → Prop) `{∀ td th o, Decision (may td th o)} (evs : list event) (tds : list Z) : system :=
  default (newcomers tds) (schedule may evs (newcomers tds)).

Lemma after_steps may `{∀ td th o, Decision (may td th o)} evs tds : rtc (step may) (newcomers tds) (after may evs tds).
Proof. unfold after. destruct (schedule _ _ _) as [s|] eqn:E; cbn; [by apply (schedule_steps may evs)|done]. Qed.

Definition idle (th : thread) : bool := match t_status th with Idle => true | Running _ _ _ => false end.

Lemma mutex_safe_witness : t_ex <$> threads (after careful lock_twice [1; 2]) !! 1 = Some 2 ∧
  ∀ td' th', threads (after careful lock_twice [1; 2]) !! td' = Some th' → t_sh th' = 0 ∧ (td' ≠ 1 → t_ex th' = 0).
Proof.
  split; [vm_compute; reflexivity|].
  refine (proj2 (proj2 (mutex_safe (newcomers [1; 2]) (after careful lock_twice [1; 2]) (newcomers_initial _) (after_steps careful _ _))
    1 (Thread Idle None 2 0) _ _)); [vm_compute; reflexivity|reflexivity].
Defined.

Lemma mutex_idle_witness : mtx_lockrefs (mx (after careful lock_twice [1; 2])) = 2 ∧
  mtx_lockrefs (mx (after careful lock_twice [1; 2])) = map_sum (λ th, t_ex th + t_sh th) (threads (after careful lock_twice [1; 2])).
Proof.
  split; [vm_compute; reflexivity|].
  refine (proj1 (mutex_idle (newcomers [1; 2]) (after careful lock_twice [1; 2]) (newcomers_initial _) (after_steps careful _ _) _)).
  intros td th Htd. assert (Hb : map_Forall (λ _ th, idle th = true) (threads (after careful lock_twice [1; 2]))) by by_decide.
  specialize (Hb td th Htd). unfold idle in Hb. by destruct (t_status th).
Defined.

(** * What goes wrong *)

(** C17: a wakeup is lost.  [__mtx_lock_ex] puts its thread on the sleep queue
    of its link before it clears MTX_EXLINK, but does not tell tsleep(9) so with
    PINTERLOCKED; when the mutex is handed to the thread and it is woken in
    between, tsleep(9) puts it on the queue again, and it sleeps.  From the
    state that this schedule of two careful threads leads to, one of them
    calling nothing but mtx_lock and mtx_unlock, the other one waiting in
    mtx_lock, the mutex is locked in every state that can be reached, and its
    owner sleeps and cannot go on. *)
Theorem mutex_lost_wakeup : ∃ s, rtc (step careful) (newcomers [1; 2]) s ∧ t_status <$> threads s !! 1 = Some Idle ∧
  ∀ s', rtc (step careful) s s' → mtx_islocked_ex (mx s') = true ∧ mtx_owner (mx s') = Some 2 ∧
    ∃ th o ex a, threads s' !! 2 = Some th ∧ t_status th = Running o ex (Ex_asleep a) ∧
      ∀ err, enabled (Ex_asleep a) (t_wchan th) err = false.
Proof.
  exists (after careful wait_and_lose [1; 2]). pose proof (after_steps careful wait_and_lose [1; 2]) as Hr. split; [done|].
  split; [vm_compute; reflexivity|]. pose proof (mutex_reachable_ok _ _ (newcomers_initial _) Hr) as Hok.
  assert (Hstuck : stuck 2 (after careful wait_and_lose [1; 2])).
  { split; [split; [vm_compute; reflexivity|split; [vm_compute; reflexivity|split; [vm_compute; reflexivity|]]]|].
    - assert (Hb : map_Forall (λ _ v, hands (v_role v) ≠ Some (Stack 2)) (views (after careful wait_and_lose [1; 2]))) by by_decide.
      intros u'. unfold V. destruct (views _ !! u') as [v|] eqn:E; [by apply (Hb u' v)|done].
    - eexists _, _, _, _. split; [vm_compute; reflexivity|done]. }
  intros s' Hs'. pose proof (stuck_forever 2 _ _ Hs' Hok Hstuck) as Hst'. pose proof (steps_ok _ _ Hs' Hok) as Hok'.
  split; [by apply (stuck_locked 2)|]. split; [by destruct Hst' as [(_ & ? & _) _]|]. by apply stuck_asleep.
Qed.

(** Threads whose waits for the mutex can be interrupted by signals. *)
Definition interruptible (td : Z) (th : thread) (o : op) : Prop :=
  match o with
  | OpLock a => a = Wait (Stack td) PCATCH 0
  | OpUnlock => 0 < t_ex th
  | _ => False
  end.

#[export] Instance interruptible_dec td th o : Decision (interruptible td th o).
Proof. destruct o; cbn; apply _. Defined.

(** Thread 2 waits for the mutex until a signal interrupts it; thread 1 gives it
    up; thread 3 takes it, but does not yet store the owner; thread 1 asks for it. *)
Definition wait_interrupted : list event :=
  Call 1 (OpLock (Wait (Stack 1) PCATCH 0)) :: replicate 2 (Access 1 0) ++
  Call 2 (OpLock (Wait (Stack 2) PCATCH 0)) :: replicate 9 (Access 2 0) ++ Access 2 4 :: replicate 7 (Access 2 0) ++
  Call 1 OpUnlock :: replicate 6 (Access 1 0) ++
  Call 3 (OpLock (Wait (Stack 3) PCATCH 0)) :: Access 3 0 ::
  Call 1 (OpLock (Wait (Stack 1) PCATCH 0)) :: replicate 4 (Access 1 0) ++ [Access 3 0].

(** With interruptible waits, two threads can hold the mutex exclusively at
    the same time.  An interrupted thread leaves MTX_EXWANTED behind, so that the
    holder unlocks through [mtx_chain_link]; it finds no link, frees the
    mutex, and leaves the old owner's name in [mtx_owner]; between the
    compare-and-set and the store of the next owner, the old one takes its next
    mtx_lock for a recursive one. *)
Theorem mutex_stale_owner : ∃ s, rtc (step interruptible) (newcomers [1; 2; 3]) s ∧
  (λ th, (t_status th, t_ex th)) <$> threads s !! 1 = Some (Idle, 1) ∧ (λ th, (t_status th, t_ex th)) <$> threads s !! 3 = Some (Idle, 1).
Proof.
  exists (after interruptible wait_interrupted [1; 2; 3]). split; [apply after_steps|]. split; vm_compute; reflexivity.
Qed.

(** Careful threads that also downgrade. *)
Definition downgrading (td : Z) (th : thread) (o : op) : Prop :=
  match o with
  | OpDowngrade => 0 < t_ex th
  | _ => careful td th o
  end.

#[export] Instance downgrading_dec td th o : Decision (downgrading td th o).
Proof. destruct o; cbn; apply _. Defined.

(** mtx_downgrade frees a mutex that is held once, rather than to leave it
    shared, so that another thread gets it exclusively while the first one
    relies on sharing it; and when it is held twice, the KKASSERT of
    [_mtx_downgrade] fails, because mtx_downgrade has cleared the owner. *)
Theorem mutex_downgrade_frees :
  (∃ s, rtc (step downgrading) (newcomers [1; 2]) s ∧
    (λ th, (t_status th, t_sh th)) <$> threads s !! 1 = Some (Idle, 1) ∧ (λ th, (t_status th, t_ex th)) <$> threads s !! 2 = Some (Idle, 1)) ∧
  ∃ s th p, rtc (step downgrading) (newcomers [1; 2]) s ∧ threads s !! 1 = Some th ∧ t_status th = Running OpDowngrade 2 p ∧
    perform 1 th OpDowngrade 2 p 0 s = Panic.
Proof.
  split.
  - exists (after downgrading (lock_alone ++ Call 1 OpDowngrade :: replicate 2 (Access 1 0) ++ Call 2 (OpLock (plain 2)) :: replicate 2 (Access 2 0)) [1; 2]).
    split; [apply after_steps|]. split; vm_compute; reflexivity.
  - exists (after downgrading (lock_twice ++ Call 1 OpDowngrade :: replicate 3 (Access 1 0)) [1; 2]). eexists _, _.
    split; [apply after_steps|]. split; [vm_compute; reflexivity|]. split; [reflexivity|]. vm_compute. reflexivity.
Qed.

(** mtx_upgrade_try does not store the owner on its fast path: the thread holds
    the mutex exclusively, and does not own it. *)
Lemma mutex_upgrade_unowned : ∃ s, rtc (step careful) (newcomers [1]) s ∧
  (λ th, (t_status th, t_ex th)) <$> threads s !! 1 = Some (Idle, 1) ∧ mtx_owned 1 (mx s) = false.
Proof.
  exists (after careful [Call 1 (OpLockSh 0 0); Access 1 0; Call 1 OpUpgrade; Access 1 0] [1]). split; [apply after_steps|].
  split; vm_compute; reflexivity.
Qed.

(** What mtx_notlocked_ex answers. *)
Lemma mtx_notlocked_ex_locked m : mtx_notlocked_ex m = mtx_islocked_ex m.
Proof. done. Qed.

End MutexProps.
