(* ===== verification/Token.v ===== *)
(** LWKT tokens: sys/kern/lwkt_token.c, at the granularity of one access to
    shared memory per step.

    A token is a word (a count of shared references, and flags: held
    exclusively, wanted exclusively) and the reference that holds it
    exclusively.  A thread has a stack of references, [td_toks_array] up to
    [td_toks_stop], which only the CPU that runs or schedules the thread touches;
    it gives up the tokens when it switches away and takes them again before it
    runs.  What [lwkt_switch] in sys/kern/lwkt_thread.c does with the tokens of a
    thread is part of the model: it releases them, and the scheduler tries to
    get all of them, in the order of the stack or sorted by address.

    A token is identified by its address, and so is a reference, by its thread
    and its index.  [td_toks_stop] is the length of the stack.  The collision
    counters, the descriptions and the debugging code are left out, and so is
    what interrupts may not do (they may not block). *)

From stdpp Require Import base functions list gmap.
From S2P Require Import Prelude.

Module Token.

(** * Data (thread.h) *)

Definition TOK_EXCLUSIVE : Z := 0x00000001.
Definition TOK_EXCLREQ : Z := 0x00000002.
Definition TOK_INCR : Z := 4.
Definition TOK_COUNTMASK : Z := Z.lnot (Z.lor TOK_EXCLUSIVE TOK_EXCLREQ).
Definition LWKT_MAXTOKENS : nat := 32.
Definition LWKT_NUM_POOL_TOKENS : Z := 4001.

Record lwkt_token := Tok {
  t_count : Z;
  t_ref : option (Z * nat)
}.

Record lwkt_tokref := Ref {
  tr_tok : Z;
  tr_count : Z;
  tr_owner : Z
}.

Definition tokens : Type := Z → lwkt_token.

(** Stores to a token. *)
Definition set_tok (k : Z) (tok : lwkt_token) (toks : tokens) : tokens := λ k', if decide (k' = k) then tok else toks k'.
Definition set_count (k c : Z) (toks : tokens) : tokens := set_tok k (Tok c (t_ref (toks k))) toks.
Definition set_ref (k : Z) (r : option (Z * nat)) (toks : tokens) : tokens := set_tok k (Tok (t_count (toks k)) r) toks.

Definition lwkt_token_init : lwkt_token := Tok 0 None.

(** [atomic_cmpset_long(&tok->t_count, count, ncount)], with what comes after
    success and failure. *)
Definition cmpset {A} (k count ncount : Z) (toks : tokens) (yes no : tokens → A) : A :=
  if t_count (toks k) =? count then yes (set_count k ncount toks) else no toks.

(** [oref >= &td->td_toks_base && oref < td->td_toks_stop]. *)
Definition own (td : Z) (stop : nat) (oref : option (Z * nat)) : bool :=
  match oref with
  | Some (u, i) => (u =? td) && (i <? stop)%nat
  | None => false
  end.

(** * One reference *)

(** Where a thread is in [_lwkt_trytokref], before the access that is named. *)
Inductive trying :=
  | TryCount                  (* count = tok->t_count *)
  | TryRef (count : Z)        (* oref = tok->t_ref *)
  | TryExcl (count : Z)       (* cmpset(count, (count & ~TOK_EXCLREQ) | TOK_EXCLUSIVE) *)
  | TryCheck                  (* KKASSERT(tok->t_ref == NULL) *)
  | TryStore                  (* tok->t_ref = ref *)
  | TryAgain                  (* atomic_add_long(TOK_INCR) *)
  | TryReq                    (* atomic_set_long(TOK_EXCLREQ) *)
  | TryShared (count : Z).    (* cmpset(count, count + TOK_INCR) *)

Inductive tried :=
  | Goes (t : trying)
  | Answer (b : bool).

Definition go (t : trying) (ref : lwkt_tokref) (toks : tokens) : outcome (tried * lwkt_tokref * tokens) := Ok (Goes t, ref, toks).
Definition answer (b : bool) (ref : lwkt_tokref) (toks : tokens) : outcome (tried * lwkt_tokref * tokens) := Ok (Answer b, ref, toks).

(** Reference [i] of thread [td], whose stack ends at [stop]. *)
Definition _lwkt_trytokref (td : Z) (stop i : nat) (mode : Z) (t : trying) (ref : lwkt_tokref) (toks : tokens)
    : outcome (tried * lwkt_tokref * tokens) :=
  let k := tr_tok ref in
  match t with
  | TryCount => go (TryRef (t_count (toks k))) ref toks
  | TryRef count =>
      let oref := t_ref (toks k) in
      if has_flag mode TOK_EXCLUSIVE then
        if Z.ldiff count TOK_EXCLREQ =? 0 then go (TryExcl count) ref toks
        else if has_flag count TOK_EXCLUSIVE && own td stop oref then go TryAgain ref toks
        else if has_flag mode TOK_EXCLREQ && negb (has_flag count TOK_EXCLREQ) then go TryReq ref toks
        else answer false ref toks
      else
        if negb (has_flag count TOK_EXCLUSIVE) then go (TryShared count) ref toks
        else if has_flag count TOK_EXCLUSIVE && own td stop oref then go TryAgain ref toks
        else answer false ref toks
  | TryExcl count =>
      cmpset k count (Z.lor (Z.ldiff count TOK_EXCLREQ) TOK_EXCLUSIVE) toks (go TryCheck ref) (go TryCount ref)
  | TryCheck => kkassert (bool_decide (t_ref (toks k) = None)) (go TryStore ref toks)
  | TryStore => answer true ref (set_ref k (Some (td, i)) toks)
  | TryAgain =>
      answer true
        (if has_flag mode TOK_EXCLUSIVE then Ref k (Z.ldiff (tr_count ref) TOK_EXCLUSIVE) (tr_owner ref) else ref)
        (set_count k (s64 (t_count (toks k) + TOK_INCR)) toks)
  | TryReq => answer false ref (set_count k (Z.lor (t_count (toks k)) TOK_EXCLREQ) toks)
  | TryShared count => cmpset k count (s64 (count + TOK_INCR)) toks (answer true ref) (go TryCount ref)
  end.

(** Where a thread is in [_lwkt_reltokref]. *)
Inductive releasing :=
  | RelCount                  (* count = tok->t_count *)
  | RelRef (count : Z)        (* tok->t_ref == ref *)
  | RelNull (count : Z)       (* tok->t_ref = NULL *)
  | RelClear (count : Z)      (* cmpset(count, count & ~TOK_EXCLUSIVE) *)
  | RelRestore                (* tok->t_ref = ref *)
  | RelDec (count : Z).       (* cmpset(count, count - TOK_INCR) *)

(** The next access, or [None] at the return. *)
Definition _lwkt_reltokref (td : Z) (i : nat) (r : releasing) (ref : lwkt_tokref) (toks : tokens)
    : outcome (option releasing * tokens) :=
  let k := tr_tok ref in
  match r with
  | RelCount => Ok (Some (RelRef (t_count (toks k))), toks)
  | RelRef count =>
      if decide (t_ref (toks k) = Some (td, i))
      then kkassert (has_flag count TOK_EXCLUSIVE) (Ok (Some (RelNull count), toks))
      else kkassert (has_flag count TOK_COUNTMASK) (Ok (Some (RelDec count), toks))
  | RelNull count => Ok (Some (RelClear count), set_ref k None toks)
  | RelClear count =>
      cmpset k count (Z.ldiff count TOK_EXCLUSIVE) toks (λ toks, Ok (None, toks)) (λ toks, Ok (Some RelRestore, toks))
  | RelRestore => Ok (Some RelCount, set_ref k (Some (td, i)) toks)
  | RelDec count =>
      cmpset k count (s64 (count - TOK_INCR)) toks (λ toks, Ok (None, toks)) (λ toks, Ok (Some RelCount, toks))
  end.

(** * Threads *)

(** Why a thread switched away: it blocks, or it could not get the token of its
    last reference. *)
Inductive after :=
  | Blocked
  | Gettoken (excl : bool).

Inductive place :=
  | Outside
  | Get (excl : bool) (spin : Z) (t : trying)   (* lwkt_gettoken, lwkt_gettoken_shared *)
  | Try (t : trying)                            (* lwkt_trytoken *)
  | Rel (r : releasing)                         (* lwkt_reltoken *)
  | RelAll (a : after) (i : nat) (r : releasing)                               (* lwkt_relalltokens *)
  | Switched (a : after)                                                       (* in lwkt_switch *)
  | GetAll (a : after) (order : list nat) (j : nat) (spin : Z) (t : trying)    (* lwkt_getalltokens *)
  | Undo (a : after) (order : list nat) (j : nat) (r : releasing)
  | Resumed (a : after).                                                       (* lwkt_switch returns *)

Record thread := Thread {
  td_toks : list lwkt_tokref;
  td_toks_have : option nat;
  td_place : place
}.

Definition td_toks_stop (th : thread) : nat := length (td_toks th).

Definition lwkt_init_thread : thread := Thread [] None Outside.

Definition set_place (p : place) (th : thread) : thread := Thread (td_toks th) (td_toks_have th) p.

(** The references in the order in which [_lwkt_getalltokens_sorted] takes them:
    each is put before the first one whose token has a larger address. *)
Fixpoint sort_pos (tok : nat → Z) (scan : nat) (sort_array : list nat) : nat :=
  match sort_array with
  | [] => 0
  | r :: rs => if tok scan <? tok r then 0 else S (sort_pos tok scan rs)
  end.

Definition sort_step (tok : nat → Z) (sort_array : list nat) (scan : nat) : list nat :=
  let j := sort_pos tok scan sort_array in take j sort_array ++ scan :: drop j sort_array.

Definition tok_at (toks : list lwkt_tokref) (i : nat) : Z := match toks !! i with Some r => tr_tok r | None => 0 end.

Definition sort_array (toks : list lwkt_tokref) : list nat := foldl (sort_step (tok_at toks)) [] (seq 0 (length toks)).

(** The start of [lwkt_relalltokens], and its loop after reference [i]. *)
Definition relall_from (a : after) (scan : nat) : place :=
  match scan with O => Switched a | S i => RelAll a i RelCount end.

Definition lwkt_relalltokens (a : after) (th : thread) : thread :=
  Thread (td_toks th) None (relall_from a (default (td_toks_stop th) (td_toks_have th))).

Definition undo_from (a : after) (order : list nat) (j : nat) : place :=
  match j with O => Switched a | S j => Undo a order j RelCount end.

(** ** What a thread calls *)

Inductive op :=
  | OpGet (tok : Z)          (* lwkt_gettoken *)
  | OpGetShared (tok : Z)    (* lwkt_gettoken_shared *)
  | OpTry (tok : Z)          (* lwkt_trytoken *)
  | OpRel (tok : Z)          (* lwkt_reltoken *)
  | OpSwap                   (* lwkt_token_swap *)
  | OpBlock.                 (* anything that calls lwkt_switch *)

(** The reference is put on the stack. *)
Definition push (td tok excl : Z) (p : place) (th : thread) : outcome thread :=
  kkassert (td_toks_stop th <? LWKT_MAXTOKENS)%nat (Ok (Thread (td_toks th ++ [Ref tok excl td]) (td_toks_have th) p)).

Definition lwkt_gettoken (lwkt_token_spin td tok : Z) (th : thread) : outcome thread :=
  push td tok (Z.lor TOK_EXCLUSIVE TOK_EXCLREQ) (Get true lwkt_token_spin TryCount) th.

Definition lwkt_gettoken_shared (lwkt_token_spin td tok : Z) (th : thread) : outcome thread :=
  push td tok TOK_EXCLREQ (Get false lwkt_token_spin TryCount) th.

Definition lwkt_trytoken (td tok : Z) (th : thread) : outcome thread :=
  push td tok (Z.lor TOK_EXCLUSIVE TOK_EXCLREQ) (Try TryCount) th.

Definition lwkt_reltoken (tok : Z) (th : thread) : outcome thread :=
  match last (td_toks th) with
  | Some ref => kkassert (tr_tok ref =? tok) (Ok (set_place (Rel RelCount) th))
  | None => Panic
  end.

(** The references that two tokens are held by are exchanged; the thread is in a
    critical section, and other threads see no difference: one step. *)
Definition lwkt_token_swap (td : Z) (th : thread) (toks : tokens) : outcome (thread * tokens) :=
  let i1 := (td_toks_stop th - 1)%nat in
  let i2 := (td_toks_stop th - 2)%nat in
  if (td_toks_stop th <? 2)%nat then Panic
  else match td_toks th !! i1, td_toks th !! i2 with
  | Some ref1, Some ref2 =>
      let tok1 := tr_tok ref1 in
      let tok2 := tr_tok ref2 in
      if tok1 =? tok2 then Ok (th, toks)
      else
        let stack := <[i2 := Ref tok1 (tr_count ref1) (tr_owner ref2)]> (<[i1 := Ref tok2 (tr_count ref2) (tr_owner ref1)]> (td_toks th)) in
        let toks := if decide (t_ref (toks tok1) = Some (td, i1)) then set_ref tok1 (Some (td, i2)) toks else toks in
        let toks := if decide (t_ref (toks tok2) = Some (td, i2)) then set_ref tok2 (Some (td, i1)) toks else toks in
        Ok (Thread stack (td_toks_have th) (td_place th), toks)
  | _, _ => Undef OutOfBounds
  end.

Definition call (lwkt_token_spin td : Z) (o : op) (th : thread) (toks : tokens) : outcome (thread * tokens) :=
  match o with
  | OpGet tok => let* th := lwkt_gettoken lwkt_token_spin td tok th in Ok (th, toks)
  | OpGetShared tok => let* th := lwkt_gettoken_shared lwkt_token_spin td tok th in Ok (th, toks)
  | OpTry tok => let* th := lwkt_trytoken td tok th in Ok (th, toks)
  | OpRel tok => let* th := lwkt_reltoken tok th in Ok (th, toks)
  | OpSwap => lwkt_token_swap td th toks
  | OpBlock => Ok (lwkt_relalltokens Blocked th, toks)
  end.

(** ** One access of a thread *)

(** [_lwkt_trytokref] of reference [i], in the place that [at_] makes of where it
    is, and with what comes after its answer. *)
Definition try_at (td : Z) (i : nat) (mode : Z) (t : trying) (at_ : trying → place) (yes no : thread → thread)
    (th : thread) (toks : tokens) : outcome (thread * tokens) :=
  match td_toks th !! i with
  | Some ref =>
      let* (r, ref, toks) := _lwkt_trytokref td (td_toks_stop th) i mode t ref toks in
      let stack := <[i := ref]> (td_toks th) in
      match r with
      | Goes t => Ok (Thread stack (td_toks_have th) (at_ t), toks)
      | Answer b => Ok ((if b then yes else no) (Thread stack (td_toks_have th) (td_place th)), toks)
      end
  | None => Undef OutOfBounds
  end.

(** [_lwkt_reltokref] of reference [i]. *)
Definition rel_at (td : Z) (i : nat) (r : releasing) (at_ : releasing → place) (done : thread → thread)
    (th : thread) (toks : tokens) : outcome (thread * tokens) :=
  match td_toks th !! i with
  | Some ref =>
      let* (r, toks) := _lwkt_reltokref td i r ref toks in
      Ok (match r with Some r => set_place (at_ r) th | None => done th end, toks)
  | None => Undef OutOfBounds
  end.

(** The rest of lwkt_gettoken when the token is not to be had. *)
Definition gettoken_switch (excl : bool) (th : thread) : thread :=
  lwkt_relalltokens (Gettoken excl) (Thread (td_toks th) (Some (td_toks_stop th - 1)%nat) (td_place th)).

Definition pop (p : place) (th : thread) : thread := Thread (take (td_toks_stop th - 1) (td_toks th)) (td_toks_have th) p.

(** The attempts that [lwkt_getalltokens] makes for reference [i]. *)
Definition spin_for (lwkt_token_spin : Z) (th : thread) (i : nat) : Z :=
  if decide (i = td_toks_stop th - 1)%nat then lwkt_token_spin else 0.

(** [lwkt_getalltokens] at position [j] of its order. *)
Definition getall_from (lwkt_token_spin : Z) (a : after) (order : list nat) (j : nat) (th : thread) : thread :=
  match order !! j with
  | Some i => set_place (GetAll a order j (spin_for lwkt_token_spin th i) TryCount) th
  | None => set_place (Resumed a) th
  end.

Definition lwkt_getalltokens (lwkt_token_spin : Z) (a : after) (spinning : bool) (th : thread) : thread :=
  getall_from lwkt_token_spin a (if spinning then sort_array (td_toks th) else seq 0 (td_toks_stop th)) 0 th.

Definition exec (lwkt_token_spin td : Z) (spinning : bool) (th : thread) (toks : tokens) : outcome (thread * tokens) :=
  let top := (td_toks_stop th - 1)%nat in
  match td_place th with
  | Outside => Ok (th, toks)
  | Get excl spin t =>
      try_at td top (Z.lor (if excl then TOK_EXCLUSIVE else 0) TOK_EXCLREQ) t (Get excl spin) (set_place Outside)
        (λ th, if spin >? 0 then set_place (Get excl (spin - 1) TryCount) th else gettoken_switch excl th) th toks
  | Try t => try_at td top TOK_EXCLUSIVE t Try (set_place Outside) (pop Outside) th toks
  | Rel r => rel_at td top r Rel (pop Outside) th toks
  | RelAll a i r => rel_at td i r (RelAll a i) (set_place (relall_from a i)) th toks
  | Switched a => Ok (lwkt_getalltokens lwkt_token_spin a spinning th, toks)
  | GetAll a order j spin t =>
      match order !! j with
      | Some i =>
          match td_toks th !! i with
          | Some ref =>
              try_at td i (tr_count ref) t (GetAll a order j spin) (getall_from lwkt_token_spin a order (S j))
                (λ th, if spin >? 0 then set_place (GetAll a order j (spin - 1) TryCount) th
                       else set_place (undo_from a order j) th) th toks
          | None => Undef OutOfBounds
          end
      | None => Undef OutOfBounds
      end
  | Undo a order j r =>
      match order !! j with
      | Some i => rel_at td i r (Undo a order j) (set_place (undo_from a order j)) th toks
      | None => Undef OutOfBounds
      end
  | Resumed a =>
      match a with
      | Gettoken true =>
          match td_toks th !! top with
          | Some ref => kkassert (bool_decide (t_ref (toks (tr_tok ref)) = Some (td, top))) (Ok (set_place Outside th, toks))
          | None => Undef OutOfBounds
          end
      | _ => Ok (set_place Outside th, toks)
      end
  end.

(** ** What the kernel asks about tokens *)

Definition _lwkt_token_held_any (td tok : Z) (th : thread) (toks : tokens) : bool :=
  let count := t_count (toks tok) in
  own td (td_toks_stop th) (t_ref (toks tok)) ||
  (negb (has_flag count TOK_EXCLUSIVE) && has_flag count (Z.lnot (Z.lor TOK_EXCLUSIVE TOK_EXCLREQ))).

Definition _lwkt_token_held_excl (td tok : Z) (th : thread) (toks : tokens) : bool :=
  own td (td_toks_stop th) (t_ref (toks tok)).

Definition lwkt_cnttoken (tok : Z) (th : thread) : Z :=
  Z.of_nat (length (filter (λ ref, tr_tok ref = tok) (td_toks th))).

(** ** The pool *)

(** The token of an address, in the array at [pool_tokens], of elements of [sizeof] bytes. *)
Definition _lwkt_token_pool_lookup (pool_tokens sizeof ptr : Z) : Z := pool_tokens + sizeof * (u32 ptr mod LWKT_NUM_POOL_TOKENS).

Definition lwkt_token_pool_init (pool_tokens sizeof : Z) (toks : tokens) : tokens :=
  foldl (λ toks i, set_tok (pool_tokens + sizeof * Z.of_nat i) lwkt_token_init toks) toks (seq 0 (Z.to_nat LWKT_NUM_POOL_TOKENS)).

Definition lwkt_getpooltoken (pool_tokens sizeof lwkt_token_spin td ptr : Z) (th : thread) : outcome (thread * Z) :=
  let tok := _lwkt_token_pool_lookup pool_tokens sizeof ptr in
  let* th := lwkt_gettoken lwkt_token_spin td tok th in Ok (th, tok).

Definition lwkt_relpooltoken (pool_tokens sizeof ptr : Z) (th : thread) : outcome thread :=
  lwkt_reltoken (_lwkt_token_pool_lookup pool_tokens sizeof ptr) th.

End Token.
