(* ===== verification/TokenTheory.v ===== *)
(** One LWKT token and the threads' references to it: the word of the token as
    a count and two flags, what the word and [t_ref] have to do with the
    references, and how each access keeps that. *)

From stdpp Require Import base functions list gmap.
From S2P Require Import Prelude Token.

Module TokenTheory.
Import Token.

(** * The word *)

(** The count of shared references; wanted, held exclusively. *)
Definition word (c : Z) (q e : bool) : Z := c * 2 ^ 2 + (2 * Z.b2z q + Z.b2z e).

Definition flags_ok (q e : bool) : is_u 2 (2 * Z.b2z q + Z.b2z e).
Proof. by destruct q, e. Qed.

Lemma word_eq c q e : word c q e = 4 * c + 2 * Z.b2z q + Z.b2z e.
Proof. unfold word. lia. Qed.

Lemma tok_word_inj c q e c' q' e' : word c q e = word c' q' e' → c = c' ∧ q = q' ∧ e = e'.
Proof. rewrite !word_eq. destruct q, e, q', e'; cbn; intros; (split_and!; lia || done) || lia. Qed.

Lemma word_excl c q e : has_flag (word c q e) TOK_EXCLUSIVE = e.
Proof.
  unfold has_flag, word. change TOK_EXCLUSIVE with (0 * 2 ^ 2 + 1). rewrite land_split by first [apply flags_ok|done].
  rewrite Z.land_0_r. by destruct q, e.
Qed.
Lemma word_req c q e : has_flag (word c q e) TOK_EXCLREQ = q.
Proof.
  unfold has_flag, word. change TOK_EXCLREQ with (0 * 2 ^ 2 + 2). rewrite land_split by first [apply flags_ok|done].
  rewrite Z.land_0_r. by destruct q, e.
Qed.
Lemma tok_word_mask c q e : has_flag (word c q e) TOK_COUNTMASK = negb (c =? 0).
Proof.
  unfold has_flag, word. change TOK_COUNTMASK with ((-1) * 2 ^ 2 + 0). rewrite land_split by first [apply flags_ok|done].
  rewrite Z.land_m1_r, Z.land_0_r. f_equal. apply eq_true_iff_eq. rewrite !Z.eqb_eq. lia.
Qed.
Lemma word_clear_req c q e : Z.ldiff (word c q e) TOK_EXCLREQ = word c false e.
Proof.
  unfold word. change TOK_EXCLREQ with (0 * 2 ^ 2 + 2). rewrite ldiff_split by first [apply flags_ok|done].
  rewrite Z.ldiff_0_r. by destruct q, e.
Qed.
Lemma word_clear_excl c q e : Z.ldiff (word c q e) TOK_EXCLUSIVE = word c q false.
Proof.
  unfold word. change TOK_EXCLUSIVE with (0 * 2 ^ 2 + 1). rewrite ldiff_split by first [apply flags_ok|done].
  rewrite Z.ldiff_0_r. by destruct q, e.
Qed.
Lemma word_set_excl c q e : Z.lor (word c q e) TOK_EXCLUSIVE = word c q true.
Proof.
  unfold word. change TOK_EXCLUSIVE with (0 * 2 ^ 2 + 1). rewrite lor_split by first [apply flags_ok|done].
  rewrite Z.lor_0_r. by destruct q, e.
Qed.
Lemma word_set_req c q e : Z.lor (word c q e) TOK_EXCLREQ = word c true e.
Proof.
  unfold word. change TOK_EXCLREQ with (0 * 2 ^ 2 + 2). rewrite lor_split by first [apply flags_ok|done].
  rewrite Z.lor_0_r. by destruct q, e.
Qed.

(** Counts that a long holds. *)
Definition fits (c : Z) : Prop := 0 ≤ c < 2 ^ 60.

Lemma word_incr c q e : fits c → s64 (word c q e + TOK_INCR) = word (c + 1) q e.
Proof.
  unfold fits. rewrite !word_eq. intros Hc. rewrite signed_of_small; [unfold TOK_INCR; lia|done|]. unfold is_s, TOK_INCR.
  change (2 ^ (64 - 1)) with (8 * 2 ^ 60). destruct q, e; cbn; lia.
Qed.
Lemma word_decr c q e : fits c → 1 ≤ c → s64 (word c q e - TOK_INCR) = word (c - 1) q e.
Proof.
  unfold fits. rewrite !word_eq. intros Hc H1. rewrite signed_of_small; [unfold TOK_INCR; lia|done|]. unfold is_s, TOK_INCR.
  change (2 ^ (64 - 1)) with (8 * 2 ^ 60). destruct q, e; cbn; lia.
Qed.

Lemma word_free c q e : Z.ldiff (word c q e) TOK_EXCLREQ = 0 ↔ c = 0 ∧ e = false.
Proof. rewrite word_clear_req, word_eq. destruct e; cbn; split; [lia|by intros [? [=]]|lia|lia]. Qed.

(** * What threads hold *)

(** What a thread holds by one of its references: nothing, a token shared (or
    one more time), or a token exclusively; [pend]: [t_ref] does not say so. *)
Inductive hold :=
  | No
  | Shared (k : Z)
  | Excl (k : Z) (pend : bool).

#[export] Instance hold_eq_dec : EqDecision hold.
Proof. solve_decision. Defined.

Definition about (k : Z) (x : hold) : Prop := match x with No => False | Shared k' | Excl k' _ => k' = k end.

Definition view : Type := nat → hold.

Definition one (k : Z) (x : hold) : Z := if decide (x = Shared k) then 1 else 0.

Fixpoint shared_n (k : Z) (v : view) (n : nat) : Z :=
  match n with O => 0 | S n => shared_n k v n + one k (v n) end.

Definition shared_in (k : Z) (v : view) : Z := shared_n k v LWKT_MAXTOKENS.

Lemma one_range k x : 0 ≤ one k x ≤ 1.
Proof. unfold one. case_decide; lia. Qed.

Lemma one_other k x : ¬ about k x → one k x = 0.
Proof. unfold one. intros H. case_decide as E; [|done]. subst x. by destruct H. Qed.

Lemma one_same k : one k (Shared k) = 1.
Proof. unfold one. by rewrite decide_True. Qed.

Lemma one_not k x : x ≠ Shared k → one k x = 0.
Proof. unfold one. intros H. by case_decide. Qed.

Lemma shared_n_ext k v v' n : (∀ j, (j < n)%nat → v' j = v j) → shared_n k v' n = shared_n k v n.
Proof. induction n as [|n IH]; cbn; intros H; [done|]. rewrite IH, H; [done|lia|]. intros j Hj. apply H. lia. Qed.

Lemma shared_n_update k v v' n i : (∀ j, j ≠ i → v' j = v j) → (i < n)%nat →
  shared_n k v' n = shared_n k v n + (one k (v' i) - one k (v i)).
Proof.
  intros H Hi. induction n as [|n IH]; [lia|]. cbn. destruct (decide (i = n)) as [->|].
  - rewrite (shared_n_ext k v v' n); [lia|]. intros j Hj. apply H. lia.
  - rewrite IH, (H n) by lia. lia.
Qed.

Lemma shared_n_range k v n : 0 ≤ shared_n k v n ≤ Z.of_nat n.
Proof. induction n; cbn; [lia|]. pose proof (one_range k (v n)). lia. Qed.

Lemma shared_n_zero k v n : (∀ j, v j ≠ Shared k) → shared_n k v n = 0.
Proof. intros H. induction n; cbn; [done|]. unfold one. rewrite decide_False by apply H. lia. Qed.

Lemma shared_n_pos k v n i : v i = Shared k → (i < n)%nat → 1 ≤ shared_n k v n.
Proof.
  intros H Hi. induction n as [|n IH]; [lia|]. cbn. pose proof (shared_n_range k v n). destruct (decide (i = n)) as [->|].
  - unfold one. rewrite decide_True by done. lia.
  - pose proof (one_range k (v n)). specialize (IH ltac:(lia)). lia.
Qed.

(** The same for all references that there can be. *)
Lemma shared_in_update k v v' i : (∀ j, j ≠ i → v' j = v j) → (i < LWKT_MAXTOKENS)%nat →
  shared_in k v' = shared_in k v + (one k (v' i) - one k (v i)).
Proof. apply shared_n_update. Qed.
Lemma shared_in_nonneg k v : 0 ≤ shared_in k v ≤ 32.
Proof. apply shared_n_range. Qed.
Lemma shared_in_pos k v i : v i = Shared k → (i < LWKT_MAXTOKENS)%nat → 1 ≤ shared_in k v.
Proof. apply shared_n_pos. Qed.
Lemma shared_in_zero k v : (∀ j, v j ≠ Shared k) → shared_in k v = 0.
Proof. apply shared_n_zero. Qed.

#[global] Opaque shared_in.

Definition V (T : gmap Z view) (u : Z) : view := match T !! u with Some v => v | None => λ _, No end.

(** The state of token [k]: [c] shared references in the word, exclusive
    reference [h]. *)
Record TokG (k : Z) (tok : lwkt_token) (T : gmap Z view) (c : Z) (q : bool) (h : option (Z * nat)) : Prop := {
  g_word : t_count tok = word c q (bool_decide (is_Some h));
  g_sum : map_sum (shared_in k) T = c;
  g_range : ∀ u i, about k (V T u i) → (i < LWKT_MAXTOKENS)%nat;
  g_excl : ∀ u i p, V T u i = Excl k p → h = Some (u, i);
  g_ref : match h with
          | None => t_ref tok = None
          | Some (u, i) => ∃ p, V T u i = Excl k p ∧ t_ref tok = (if p then None else Some (u, i)) ∧ ∀ u' j, V T u' j = Shared k → u' = u
          end
}.

Lemma tok_V_insert T td v u : V (<[td := v]> T) u = if decide (u = td) then v else V T u.
Proof. unfold V. case_decide; [subst; by rewrite lookup_insert_eq|by rewrite lookup_insert_ne]. Qed.

Lemma tok_V_lookup T td v : T !! td = Some v → V T td = v.
Proof. unfold V. by intros ->. Qed.

Section token.
Context (k : Z) (tok : lwkt_token) (T : gmap Z view) (c : Z) (q : bool) (h : option (Z * nat)).
Context (H : TokG k tok T c q h).

Lemma tok_count_nonneg : 0 ≤ c.
Proof. destruct H as [_ <- _ _ _]. apply map_sum_nonneg. intros u v _. apply shared_in_nonneg. Qed.

(** Somebody has a shared reference. *)
Lemma shared_count u i : V T u i = Shared k → 1 ≤ c.
Proof.
  intros E. pose proof (g_range _ _ _ _ _ _ H u i) as Hr. rewrite E in Hr. specialize (Hr eq_refl). destruct H as [_ <- _ _ _].
  unfold V in E. destruct (T !! u) as [v|] eqn:Eu; [|done].
  assert (shared_in k v ≤ map_sum (shared_in k) T) by (apply (map_sum_member _ _ u); [intros; apply shared_in_nonneg|done]).
  pose proof (shared_in_pos k v i E Hr). lia.
Qed.

(** The exclusive reference. *)
Lemma excl_holder u i p : V T u i = Excl k p → h = Some (u, i) ∧ t_ref tok = (if p then None else Some (u, i)).
Proof.
  intros E. pose proof (g_excl _ _ _ _ _ _ H u i p E) as ->. split; [done|]. destruct (g_ref _ _ _ _ _ _ H) as (p' & E' & Hr & _).
  assert (p' = p) as -> by congruence. done.
Qed.

Lemma ref_holder u i : t_ref tok = Some (u, i) → h = Some (u, i) ∧ V T u i = Excl k false.
Proof.
  intros Er. pose proof (g_ref _ _ _ _ _ _ H) as G4. destruct h as [[u' j]|]; [|congruence]. destruct G4 as (p & Hp & Hr & _).
  destruct p; [congruence|]. rewrite Er in Hr. injection Hr as <- <-. done.
Qed.

End token.

(** A thread that changes what it holds by one reference. *)
Section update.
Context (k : Z) (tok : lwkt_token) (T : gmap Z view) (c : Z) (q : bool) (h : option (Z * nat)).
Context (H : TokG k tok T c q h).
Context (td : Z) (v v' : view) (i : nat) (Htd : T !! td = Some v).
Context (Hv : ∀ j, j ≠ i → v' j = v j) (Hi : (i < LWKT_MAXTOKENS)%nat).

Lemma sum_update : map_sum (shared_in k) (<[td := v']> T) = c + (one k (v' i) - one k (v i)).
Proof. destruct H as [_ <- _ _ _]. rewrite (map_sum_update _ _ _ _ _ Htd). rewrite (shared_in_update k v v' i) by done. lia. Qed.

Lemma V_update u j : V (<[td := v']> T) u j = if decide (u = td ∧ j = i) then v' i else V T u j.
Proof.
  rewrite tok_V_insert. destruct (decide (u = td)) as [->|].
  - rewrite (tok_V_lookup _ _ _ Htd). destruct (decide (td = td ∧ j = i)) as [[_ ->]|E]; [done|]. apply Hv. intros ->. by apply E.
  - by rewrite decide_False by tauto.
Qed.

Lemma range_kept u j : about k (V (<[td := v']> T) u j) → (j < LWKT_MAXTOKENS)%nat.
Proof. rewrite V_update. case_decide as D; [destruct D as [_ ->]; done|]. apply (g_range _ _ _ _ _ _ H). Qed.

(** Other tokens. *)
Lemma tok_frame : ¬ about k (v i) → ¬ about k (v' i) → TokG k tok (<[td := v']> T) c q h.
Proof.
  intros H0 H1. pose proof H as [G1 G2 G0 G3 G4]. split; [done| |apply range_kept| |].
  - rewrite sum_update, !one_other by done. lia.
  - intros u j p. rewrite V_update. case_decide; [|apply G3]. intros E. rewrite E in H1. by destruct H1.
  - destruct h as [[u j]|]; [|done]. destruct G4 as (p & Hp & Hr & Hs). exists p. split_and!; [|done|].
    + rewrite V_update, decide_False; [done|]. intros [-> ->]. rewrite (tok_V_lookup _ _ _ Htd) in Hp. rewrite Hp in H0. by destruct H0.
    + intros u' j'. rewrite V_update. case_decide; [|apply Hs]. intros E. rewrite E in H1. by destruct H1.
Qed.

(** TOK_EXCLREQ is set, or nothing happens. *)
Lemma tok_req q' : v' i = v i → TokG k (Tok (word c q' (bool_decide (is_Some h))) (t_ref tok)) (<[td := v']> T) c q' h.
Proof.
  intros E. pose proof H as [G1 G2 G0 G3 G4].
  assert (HV : ∀ u j, V (<[td := v']> T) u j = V T u j).
  { intros u j. rewrite V_update. case_decide as D; [|done]. destruct D as [-> ->]. by rewrite E, (tok_V_lookup _ _ _ Htd). }
  split; [done| |apply range_kept| |].
  - rewrite sum_update, E. lia.
  - intros u j p. rewrite HV. apply G3.
  - destruct h as [[u j]|]; [|done]. destruct G4 as (p & Hp & Hr & Hs). exists p. rewrite HV. split_and!; try done.
    intros u' j'. rewrite HV. apply Hs.
Qed.

(** The exclusive bit is set. *)
Lemma tok_acquire : c = 0 → h = None → v i = No → v' i = Excl k true →
  TokG k (Tok (word 0 false true) (t_ref tok)) (<[td := v']> T) 0 false (Some (td, i)).
Proof.
  intros Hc Hh E0 E1. pose proof H as [G1 G2 G0 G3 G4]. split; [done| |apply range_kept| |].
  - rewrite sum_update, E0, E1, !one_not by done. lia.
  - intros u j p. rewrite V_update. case_decide as D; [by destruct D as [-> ->]|]. intros E. apply G3 in E. congruence.
  - exists true. rewrite V_update, decide_True by done. rewrite Hh in G4. split_and!; [done|done|]. intros u' j'. rewrite V_update.
    case_decide; [congruence|]. intros Hs. pose proof (shared_count _ _ _ _ _ _ H u' j' Hs). lia.
Qed.

(** The exclusive reference is stored in [t_ref], or cleared from it. *)
Lemma tok_store p p' : v i = Excl k p → v' i = Excl k p' →
  TokG k (Tok (t_count tok) (if p' then None else Some (td, i))) (<[td := v']> T) c q h.
Proof.
  intros E0 E1. pose proof H as [G1 G2 G0 G3 G4]. pose proof (G3 td i p) as Hh. rewrite (tok_V_lookup _ _ _ Htd) in Hh. specialize (Hh E0).
  split; [done| |apply range_kept| |].
  - rewrite sum_update, E0, E1, !one_not by done. lia.
  - intros u j p2. rewrite V_update. case_decide as D; [by destruct D as [-> ->]|apply G3].
  - rewrite Hh in *. destruct G4 as (p2 & _ & _ & Hs). exists p'. rewrite V_update, decide_True by done. split_and!; [done|done|].
    intros u' j'. rewrite V_update. case_decide; [congruence|apply Hs].
Qed.

(** The exclusive bit is cleared. *)
Lemma tok_clear : v i = Excl k true → v' i = No → TokG k (Tok (word c q false) (t_ref tok)) (<[td := v']> T) c q None.
Proof.
  intros E0 E1. pose proof H as [G1 G2 G0 G3 G4]. pose proof (G3 td i true) as Hh. rewrite (tok_V_lookup _ _ _ Htd) in Hh. specialize (Hh E0).
  split; [done| |apply range_kept| |].
  - rewrite sum_update, E0, E1, !one_not by done. lia.
  - intros u j p. rewrite V_update. case_decide as D; [congruence|]. intros E. apply G3 in E. rewrite Hh in E. injection E as <- <-. by destruct D.
  - rewrite Hh in G4. destruct G4 as (p & Hp & Hr & _). rewrite (tok_V_lookup _ _ _ Htd) in Hp. rewrite Hr. by destruct p; [|congruence].
Qed.

(** A shared reference is taken. *)
Lemma tok_share : v i = No → v' i = Shared k → (h = None ∨ ∃ j, h = Some (td, j)) →
  TokG k (Tok (word (c + 1) q (bool_decide (is_Some h))) (t_ref tok)) (<[td := v']> T) (c + 1) q h.
Proof.
  intros E0 E1 Hh. pose proof H as [G1 G2 G0 G3 G4]. split; [done| |apply range_kept| |].
  - rewrite sum_update, E0, E1. rewrite one_same, one_not by done. lia.
  - intros u j p. rewrite V_update. case_decide as D; [congruence|apply G3].
  - destruct Hh as [-> |[j ->]]; [done|]. destruct G4 as (p & Hp & Hr & Hs). exists p. split_and!; [|done|].
    + rewrite V_update, decide_False; [done|]. intros [_ ->]. rewrite (tok_V_lookup _ _ _ Htd) in Hp. congruence.
    + intros u' j'. rewrite V_update. case_decide as D; [by destruct D|apply Hs].
Qed.

(** A shared reference is given up. *)
Lemma tok_drop : v i = Shared k → v' i = No →
  TokG k (Tok (word (c - 1) q (bool_decide (is_Some h))) (t_ref tok)) (<[td := v']> T) (c - 1) q h.
Proof.
  intros E0 E1. pose proof H as [G1 G2 G0 G3 G4]. split; [done| |apply range_kept| |].
  - rewrite sum_update, E0, E1, one_same, one_not by done. lia.
  - intros u j p. rewrite V_update. case_decide as D; [congruence|apply G3].
  - destruct h as [[u j]|]; [|done]. destruct G4 as (p & Hp & Hr & Hs). exists p. split_and!; [|done|].
    + rewrite V_update, decide_False; [done|]. intros [-> ->]. rewrite (tok_V_lookup _ _ _ Htd) in Hp. congruence.
    + intros u' j'. rewrite V_update. case_decide as D; [congruence|apply Hs].
Qed.

End update.

(** A thread that exchanges what it holds by two references. *)
Section exchange.
Context (td : Z) (i1 i2 : nat).

Definition exchanged (i : nat) : nat := if decide (i = i1) then i2 else if decide (i = i2) then i1 else i.
Definition moved (u : Z) (i : nat) : nat := if decide (u = td) then exchanged i else i.
Definition moved_ref (r : option (Z * nat)) : option (Z * nat) := (λ '(u, i), (u, moved u i)) <$> r.

Lemma moved_moved u i : moved u (moved u i) = i.
Proof. unfold moved, exchanged. repeat case_decide; congruence. Qed.

Context (k : Z) (tok : lwkt_token) (T : gmap Z view) (c : Z) (q : bool) (h : option (Z * nat)).
Context (H : TokG k tok T c q h).
Context (v v' : view) (Htd : T !! td = Some v) (Hv : ∀ j, v' j = v (exchanged j)).
Context (Hne : i1 ≠ i2) (H1 : (i1 < LWKT_MAXTOKENS)%nat) (H2 : (i2 < LWKT_MAXTOKENS)%nat).

Lemma sum_exchanged : shared_in k v' = shared_in k v.
Proof.
  set (w := λ j, if decide (j = i1) then v i2 else v j).
  rewrite (shared_in_update k w v' i2), (shared_in_update k v w i1); try done.
  - assert (w i1 = v i2 ∧ w i2 = v i2 ∧ v' i2 = v i1) as (-> & -> & ->) by (rewrite Hv; unfold w, exchanged; repeat case_decide; split_and!; congruence).
    lia.
  - intros j Hj. unfold w. by rewrite decide_False.
  - intros j Hj. rewrite Hv. unfold w, exchanged. repeat case_decide; congruence.
Qed.

Lemma V_exchanged u j : V (<[td := v']> T) u j = V T u (moved u j).
Proof. rewrite tok_V_insert. unfold moved. case_decide as D; [|done]. subst u. by rewrite (tok_V_lookup _ _ _ Htd), Hv. Qed.

Lemma tok_exchange : TokG k (Tok (t_count tok) (moved_ref (t_ref tok))) (<[td := v']> T) c q (moved_ref h).
Proof.
  pose proof H as [G1 G2 G0 G3 G4]. split.
  - rewrite G1. by destruct h as [[]|].
  - rewrite (map_sum_update _ _ _ _ _ Htd), sum_exchanged. lia.
  - intros u j. rewrite V_exchanged. intros Hj%G0. revert Hj. unfold moved, exchanged. repeat case_decide; subst; done.
  - intros u j p. rewrite V_exchanged. intros ->%G3. cbn. by rewrite moved_moved.
  - destruct h as [[u j]|]; cbn; [|by rewrite G4]. destruct G4 as (p & Hp & Hr & Hs). exists p. rewrite V_exchanged, moved_moved.
    split; [done|]. split; [rewrite Hr; by destruct p|]. intros u' j'. rewrite V_exchanged. apply Hs.
Qed.

(** A token that the two references are not about. *)
Lemma ref_unmoved : ¬ about k (v i1) → ¬ about k (v i2) → moved_ref (t_ref tok) = t_ref tok.
Proof.
  intros A1 A2. destruct (t_ref tok) as [[u j]|] eqn:E; [|done]. destruct (ref_holder _ _ _ _ _ _ H u j E) as [_ EV]. cbn. unfold moved.
  case_decide as D; [|done]. subst u. rewrite (tok_V_lookup _ _ _ Htd) in EV. unfold exchanged. repeat case_decide; subst; [rewrite EV in A1|rewrite EV in A2|]; done.
Qed.

(** A token that one of them is about. *)
Lemma ref_moved i j : (i = i1 ∧ j = i2) ∨ (i = i2 ∧ j = i1) → ¬ about k (v j) →
  moved_ref (t_ref tok) = if decide (t_ref tok = Some (td, i)) then Some (td, j) else t_ref tok.
Proof.
  intros Hij A. destruct (t_ref tok) as [[u l]|] eqn:E; [|done]. destruct (ref_holder _ _ _ _ _ _ H u l E) as [_ EV]. cbn. unfold moved.
  case_decide as D; [|by rewrite decide_False by congruence]. subst u. rewrite (tok_V_lookup _ _ _ Htd) in EV.
  unfold exchanged. destruct Hij as [[-> ->]|[-> ->]]; repeat case_decide; try congruence; subst; by rewrite EV in A.
Qed.

End exchange.

End TokenTheory.
