(* ===== verification/TokenSystem.v ===== *)
(** Threads that share LWKT tokens: what they call, and their accesses in any
    interleaving. *)

From stdpp Require Import base functions list gmap.
From S2P Require Import Prelude Token.

Module TokenSystem.
Import Token.

Record system := System {
  toks : tokens;
  threads : gmap Z thread
}.

(** Tokens that were just initialised, and new threads (not more than a count
    could hold). *)
Definition initial (s : system) : Prop :=
  (∀ k, toks s k = lwkt_token_init) ∧ (∀ td th, threads s !! td = Some th → th = lwkt_init_thread) ∧
  Z.of_nat (size (threads s)) < 2 ^ 50.

(** What the functions assert of their callers: room for a reference, release in
    reverse order, two references to exchange. *)
Definition careful (td : Z) (th : thread) (o : op) : Prop :=
  match o with
  | OpGet _ | OpGetShared _ | OpTry _ => (td_toks_stop th < LWKT_MAXTOKENS)%nat
  | OpRel tok => tr_tok <$> last (td_toks th) = Some tok
  | OpSwap => (2 ≤ td_toks_stop th)%nat
  | OpBlock => True
  end.

#[export] Instance careful_dec td th o : Decision (careful td th o).
Proof. destruct o; cbn; apply _. Defined.

Definition outside (p : place) : bool := match p with Outside => true | _ => false end.

Section steps.
Context (lwkt_token_spin : Z).

(** A thread outside makes a call, a thread inside makes its next access; the
    scheduler decides when it takes the tokens in the order of their addresses. *)
Inductive step (s : system) : system → Prop :=
  | step_call td th o th' tk :
      threads s !! td = Some th → outside (td_place th) = true → careful td th o →
      call lwkt_token_spin td o th (toks s) = Ok (th', tk) → step s (System tk (<[td := th']> (threads s)))
  | step_access td th spinning th' tk :
      threads s !! td = Some th → outside (td_place th) = false →
      exec lwkt_token_spin td spinning th (toks s) = Ok (th', tk) → step s (System tk (<[td := th']> (threads s))).

(** ** Schedules that can be evaluated *)

Inductive event :=
  | Call (td : Z) (o : op)
  | Access (td : Z) (spinning : bool).

Definition happen (ev : event) (s : system) : option system :=
  match ev with
  | Call td o =>
      th ← threads s !! td;
      if outside (td_place th) then
        if decide (careful td th o) then
          match call lwkt_token_spin td o th (toks s) with
          | Ok (th', tk) => Some (System tk (<[td := th']> (threads s)))
          | _ => None
          end
        else None
      else None
  | Access td spinning =>
      th ← threads s !! td;
      if outside (td_place th) then None
      else
        match exec lwkt_token_spin td spinning th (toks s) with
        | Ok (th', tk) => Some (System tk (<[td := th']> (threads s)))
        | _ => None
        end
  end.

Fixpoint schedule (evs : list event) (s : system) : option system :=
  match evs with
  | [] => Some s
  | ev :: evs => s' ← happen ev s; schedule evs s'
  end.

Lemma tok_happen_step ev s s' : happen ev s = Some s' → step s s'.
Proof.
  destruct ev as [td o|td b]; cbn; destruct (threads s !! td) as [th|] eqn:Htd; cbn; try done; destruct (outside _) eqn:Ho; try done.
  - case_decide; [|done]. destruct (call _ _ _ _ _) as [[th' tk]| | |] eqn:E; try done. intros [= <-]. by eapply step_call.
  - destruct (exec _ _ _ _ _) as [[th' tk]| | |] eqn:E; try done. intros [= <-]. by eapply step_access.
Qed.

Lemma tok_schedule_steps evs s s' : schedule evs s = Some s' → rtc step s s'.
Proof.
  revert s. induction evs as [|ev evs IH]; cbn; intros s; [by intros [= ->]|].
  destruct (happen ev s) as [s2|] eqn:E; [|done]. cbn. intros Hs. apply rtc_l with s2; [by apply (tok_happen_step ev)|by apply IH].
Qed.

End steps.

(** New threads. *)
Definition newcomers (tds : list Z) : system :=
  System (λ _, lwkt_token_init) (list_to_map ((λ td, (td, lwkt_init_thread)) <$> tds)).

Lemma tok_newcomers_initial tds : Z.of_nat (size (threads (newcomers tds))) < 2 ^ 50 → initial (newcomers tds).
Proof.
  split; [done|]. split; [|done]. intros td th Hth. apply elem_of_list_to_map_2, list_elem_of_fmap in Hth as (x & E & _).
  by injection E as _ ->.
Qed.

(** * What threads hold *)

Definition flagged (ref : lwkt_tokref) : bool := has_flag (tr_count ref) TOK_EXCLUSIVE.

(** The bit is set, but not [t_ref]; the bit is set, but [t_ref] is not any more. *)
Definition taking (t : trying) : bool := match t with TryCheck | TryStore => true | _ => false end.
Definition leaving (r : releasing) : bool := match r with RelClear _ | RelRestore => true | _ => false end.

(** The references by which a thread at a place holds something, of [n] ones. *)
Definition held (n : nat) (p : place) (i : nat) : bool :=
  match p with
  | Outside | Resumed _ | Rel _ => true
  | Get _ _ t | Try t => (i <? n - 1)%nat || taking t
  | RelAll _ i0 _ => (i <=? i0)%nat
  | Switched _ => false
  | GetAll _ order j _ t => bool_decide (i ∈ take j order) || (bool_decide (order !! j = Some i) && taking t)
  | Undo _ order j _ => bool_decide (i ∈ take (S j) order)
  end.

Definition pending (n : nat) (p : place) (i : nat) : bool :=
  match p with
  | Get _ _ t | Try t => (i =? n - 1)%nat && taking t
  | Rel r => (i =? n - 1)%nat && leaving r
  | RelAll _ i0 r => (i =? i0)%nat && leaving r
  | GetAll _ order j _ t => bool_decide (order !! j = Some i) && taking t
  | Undo _ order j r => bool_decide (order !! j = Some i) && leaving r
  | _ => false
  end.

End TokenSystem.
