(* ===== verification/TokenSafe.v ===== *)
(** What threads know of the tokens while they take and release them, in any
    interleaving of their accesses. *)

From stdpp Require Import base functions list gmap.
From S2P Require Import Prelude Token TokenTheory TokenSystem.

Module TokenSafe.
Import Token TokenTheory TokenSystem.

Definition TokS (k : Z) (tok : lwkt_token) (T : gmap Z view) : Prop := ∃ c q h, TokG k tok T c q h.

(** The thread holds the token exclusively by one of its references. *)
Definition mine (v : view) (k : Z) : Prop := ∃ j, v j = Excl k false.

(** What a thread with view [v] knows in [_lwkt_trytokref] of token [k]; [x]: it
    wants it exclusively. *)
Definition try_ok (v : view) (k : Z) (x : bool) (t : trying) : Prop :=
  match t with
  | TryCount => True
  | TryRef count => (∃ c q e, count = word c q e) ∧ (mine v k → has_flag count TOK_EXCLUSIVE = true)
  | TryExcl count => x = true ∧ (∃ q, count = word 0 q false) ∧ ¬ mine v k
  | TryCheck | TryStore => x = true ∧ ¬ mine v k
  | TryAgain => mine v k
  | TryReq => x = true ∧ ¬ mine v k
  | TryShared count => x = false ∧ ∃ c q, count = word c q false
  end.

(** What it knows in [_lwkt_reltokref] of a reference by which it holds [x]. *)
Definition rel_ok (x : hold) (k : Z) (r : releasing) : Prop :=
  match r with
  | RelCount => x = Excl k false ∨ x = Shared k
  | RelRef count => x = Excl k false ∧ (∃ c q, count = word c q true) ∨ x = Shared k ∧ ∃ c q e, count = word c q e ∧ c ≠ 0
  | RelNull count => x = Excl k false ∧ ∃ c q, count = word c q true
  | RelClear count => x = Excl k true ∧ ∃ c q, count = word c q true
  | RelRestore => x = Excl k true
  | RelDec count => x = Shared k ∧ ∃ c q e, count = word c q e
  end.

(** What is held by the reference that is tried, after an answer. *)
Definition after_try (k : Z) (r : tried) (ref : lwkt_tokref) : hold :=
  match r with
  | Goes t => if taking t then Excl k true else No
  | Answer true => if flagged ref then Excl k false else Shared k
  | Answer false => No
  end.

(** What is held by the reference that is released, after an access. *)
Definition after_rel (x : hold) (r : option releasing) : hold :=
  match r, x with
  | None, _ => No
  | Some r, Excl k _ => Excl k (leaving r)
  | Some _, _ => x
  end.

(** The reference of a recursive lock counts as shared. *)
Lemma unflag mode ref x : has_flag mode TOK_EXCLUSIVE = flagged ref →
  flagged (if has_flag mode TOK_EXCLUSIVE then Ref x (Z.ldiff (tr_count ref) TOK_EXCLUSIVE) (tr_owner ref) else ref) = false.
Proof.
  intros Hm. destruct (has_flag mode TOK_EXCLUSIVE) eqn:E; [|done]. unfold flagged. cbn [tr_count]. rewrite has_flag_ldiff. by rewrite Z.ldiff_diag, has_flag_0_r.
Qed.

Section access.
Context (tk : tokens) (T : gmap Z view) (td : Z) (v : view) (i : nat) (k : Z).
Context (HT : ∀ k, TokS k (tk k) T) (Htd : T !! td = Some v) (Hi : (i < LWKT_MAXTOKENS)%nat).
Context (Hfit : ∀ c q h, TokG k (tk k) T c q h → fits (c + 1)).

(** What other tokens say is not affected. *)
Lemma toks_step tok' v' : (∀ j, j ≠ i → v' j = v j) → (∀ k', k' ≠ k → ¬ about k' (v i)) → (∀ k', k' ≠ k → ¬ about k' (v' i)) →
  TokS k tok' (<[td := v']> T) → ∀ k', TokS k' (set_tok k tok' tk k') (<[td := v']> T).
Proof.
  intros Hv H0 H1 Hk k'. destruct (decide (k' = k)) as [->|Hne].
  - unfold set_tok. by rewrite decide_True.
  - unfold set_tok. rewrite decide_False by done. destruct (HT k') as (c & q & h & Hg). exists c, q, h.
    apply (tok_frame _ _ _ _ _ _ Hg td v v' i); auto.
Qed.

(** Nothing changes. *)
Lemma toks_same v' : (∀ j, v' j = v j) → ∀ k', TokS k' (tk k') (<[td := v']> T).
Proof.
  intros Hv k'. destruct (HT k') as (c & q & h & Hg). exists c, q, h. pose proof (tok_req _ _ _ _ _ _ Hg td v v' i Htd (λ j _, Hv j) Hi q (Hv i)) as H.
  rewrite <- (g_word _ _ _ _ _ _ Hg) in H. by destruct (tk k').
Qed.

Lemma mine_holder c q h : TokG k (tk k) T c q h → mine v k → ∃ j, h = Some (td, j) ∧ t_ref (tk k) = Some (td, j) ∧ v j = Excl k false.
Proof.
  intros Hg [j Hj]. exists j. destruct (excl_holder _ _ _ _ _ _ Hg td j false) as [Hh Hr]; [by rewrite (tok_V_lookup _ _ _ Htd)|]. done.
Qed.

(** Reading [t_ref] tells whether the thread is the holder. *)
Lemma own_mine stop : (∀ j p, v j = Excl k p → (j < stop)%nat) → own td stop (t_ref (tk k)) = true ↔ mine v k.
Proof.
  intros Hstop. destruct (HT k) as (c & q & h & Hg). split.
  - unfold own. destruct (t_ref (tk k)) as [[u j]|] eqn:Er; [|done]. intros [Hu _]%andb_true_iff. bool_prop. subst u.
    destruct (ref_holder _ _ _ _ _ _ Hg td j Er) as [_ E]. rewrite (tok_V_lookup _ _ _ Htd) in E. by exists j.
  - intros Hm. destruct (mine_holder c q h Hg Hm) as (j & _ & -> & Hj). cbn. rewrite Z.eqb_refl. cbn. apply Nat.ltb_lt. by apply (Hstop j false).
Qed.

Lemma hold_about x b : x = (if b : bool then Excl k true else No) → ∀ k', k' ≠ k → ¬ about k' x.
Proof. intros -> k' Hk. destruct b; cbn; congruence. Qed.

(** The holder sees the bit. *)
Lemma mine_excl c q h : TokG k (tk k) T c q h → mine v k → t_count (tk k) = word c q true.
Proof. intros Hg Hm. destruct (mine_holder c q h Hg Hm) as (j & -> & _). by apply (g_word _ _ _ _ _ _ Hg). Qed.

(** What [_lwkt_trytokref] comes to, one access at a time. *)
Definition try_good (t : trying) (ref : lwkt_tokref) (o : outcome (tried * lwkt_tokref * tokens)) : Prop :=
  ∃ r ref' tk', o = Ok (r, ref', tk') ∧
    (∀ v', (∀ j, j ≠ i → v' j = v j) → v' i = after_try k r ref' → ∀ k', TokS k' (tk' k') (<[td := v']> T)) ∧
    tr_tok ref' = k ∧
    match r with
    | Goes t' => ref' = ref ∧ try_ok v k (flagged ref) t'
    | Answer true => ref' = ref ∨ mine v k ∧ flagged ref' = false
    | Answer false => ref' = ref ∧ ¬ mine v k
    end.

(** An access that stores nothing. *)
Lemma try_read t t' ref : tr_tok ref = k → v i = (if taking t then Excl k true else No) → taking t' = taking t →
  try_ok v k (flagged ref) t' → try_good t ref (go t' ref tk).
Proof.
  intros Hk Hv Ht Hok. exists (Goes t'), ref, tk. split; [done|]. split; [|by split]. intros v' Hv' Hi'. apply toks_same. intros j.
  destruct (decide (j = i)) as [->|]; [|by apply Hv']. rewrite Hi', Hv. cbn. by rewrite Ht.
Qed.

Lemma try_fail t ref : tr_tok ref = k → v i = No → ¬ mine v k → try_good t ref (answer false ref tk).
Proof.
  intros Hk Hv Hm. exists (Answer false), ref, tk. split; [done|]. split; [|by split]. intros v' Hv' Hi'. apply toks_same. intros j.
  destruct (decide (j = i)) as [->|]; [|by apply Hv']. by rewrite Hi', Hv.
Qed.

(** A store to the word of token [k]. *)
Lemma try_store t ref ref' r tok' : tr_tok ref' = k → v i = (if taking t then Excl k true else No) →
  (∀ v', (∀ j, j ≠ i → v' j = v j) → v' i = after_try k r ref' → TokS k tok' (<[td := v']> T)) →
  match r with
  | Goes t' => ref' = ref ∧ try_ok v k (flagged ref) t'
  | Answer true => ref' = ref ∨ mine v k ∧ flagged ref' = false
  | Answer false => ref' = ref ∧ ¬ mine v k
  end → try_good t ref (Ok (r, ref', set_tok k tok' tk)).
Proof.
  intros Hk Hv HS Hr. exists r, ref', (set_tok k tok' tk). split; [done|]. split; [|by split]. intros v' Hv' Hi'.
  apply toks_step; [done|by apply (hold_about _ (taking t))| |by apply HS]. intros k' Hk'. rewrite Hi'. unfold after_try.
  destruct r as [t'|[]]; [destruct (taking t')|destruct (flagged ref')|]; cbn; congruence.
Qed.

(** The read of [t_ref], and what follows from it. *)
Lemma try_ref_good stop mode count ref : tr_tok ref = k → has_flag mode TOK_EXCLUSIVE = flagged ref →
  (∀ j p, v j = Excl k p → (j < stop)%nat) → v i = No → try_ok v k (flagged ref) (TryRef count) →
  try_good (TryRef count) ref (_lwkt_trytokref td stop i mode (TryRef count) ref tk).
Proof.
  intros Hk Hm Hstop Hv [(c0 & q0 & e0 & ->) Hmine]. pose proof (own_mine stop Hstop) as Hown.
  cbn. rewrite Hk, Hm. rewrite word_excl, word_req in *.
  assert (Hno : own td stop (t_ref (tk k)) = false → ¬ mine v k) by (intros E M; apply Hown in M; congruence).
  assert (Hne : e0 = false → ¬ mine v k) by (intros E M; specialize (Hmine M); congruence).
  destruct (flagged ref) eqn:Ef.
  - destruct (Z.ldiff (word c0 q0 e0) TOK_EXCLREQ =? 0) eqn:E0; bool_prop.
    + apply word_free in E0 as [-> ->]. apply try_read; try done. rewrite Ef. split_and!; [done|by eexists|auto].
    + destruct (e0 && own td stop (t_ref (tk k))) eqn:E1; [apply andb_true_iff in E1 as [-> E1]; apply try_read; try done; by apply Hown|].
      apply andb_false_iff in E1. assert (¬ mine v k) by (destruct E1; auto).
      destruct (has_flag mode TOK_EXCLREQ && negb q0); [|by apply try_fail]. apply try_read; rewrite ?Ef; done.
  - destruct e0; cbn.
    + destruct (own td stop (t_ref (tk k))) eqn:E1; [apply try_read; try done; by apply Hown|]. apply try_fail; auto.
    + apply try_read; try done. rewrite Ef. split; [done|]. by exists c0, q0.
Qed.

Lemma try_access_good stop mode t ref : tr_tok ref = k → has_flag mode TOK_EXCLUSIVE = flagged ref →
  (∀ j p, v j = Excl k p → (j < stop)%nat) → v i = (if taking t then Excl k true else No) → try_ok v k (flagged ref) t →
  try_good t ref (_lwkt_trytokref td stop i mode t ref tk).
Proof.
  intros Hk Hm Hstop Hv Hok. destruct (HT k) as (c & q & h & Hg). pose proof (Hfit c q h Hg) as Hfits.
  pose proof (g_word _ _ _ _ _ _ Hg) as Hw. assert (Hfits' : fits c) by (pose proof (tok_count_nonneg _ _ _ _ _ _ Hg); unfold fits in *; lia).
  destruct t as [|count|count| | | | |count]; cbn in Hv; [|by apply try_ref_good|..]; cbn; rewrite ?Hk.
  - (* TryCount *) apply try_read; try done. split; [by eexists _, _, _|]. intros M. by rewrite (mine_excl c q h Hg M), word_excl.
  - (* TryExcl *) destruct Hok as (Ef & (q0 & ->) & Hmine). unfold cmpset. destruct (_ =? _) eqn:E; bool_prop; [|by apply try_read].
    rewrite word_clear_req, word_set_excl. rewrite Hw in E. apply tok_word_inj in E as (Ec & Eq & Eh).
    assert (Hh : h = None) by (apply bool_decide_eq_false in Eh; destruct h; [by destruct Eh|done]).
    apply (try_store _ _ _ (Goes TryCheck)); try done. intros v' Hv' Hi'. exists 0, false, (Some (td, i)).
    by apply (tok_acquire _ _ _ _ _ _ Hg td v v' i).
  - (* TryCheck *) destruct (excl_holder _ _ _ _ _ _ Hg td i true) as [_ ->]; [by rewrite (tok_V_lookup _ _ _ Htd)|].
    unfold kkassert. rewrite bool_decide_eq_true_2 by done. by apply try_read.
  - (* TryStore *) destruct Hok as [Ef Hmine]. apply (try_store _ _ _ (Answer true)); try done; [|by left]. intros v' Hv' Hi'. exists c, q, h.
    cbn in Hi'. rewrite Ef in Hi'. by apply (tok_store _ _ _ _ _ _ Hg td v v' i Htd Hv' Hi true false).
  - (* TryAgain *) destruct (mine_holder c q h Hg Hok) as (j & -> & _ & _). rewrite Hw, word_incr by done.
    apply (try_store _ _ _ (Answer true)); try done.
    + by destruct (has_flag mode _).
    + intros v' Hv' Hi'. exists (c + 1), q, (Some (td, j)). apply (tok_share _ _ _ _ _ _ Hg td v v' i); try done; [|right; by exists j].
      rewrite Hi'. cbn. by rewrite unflag.
    + right. by rewrite unflag.
  - (* TryReq *) destruct Hok as [Ef Hmine]. rewrite Hw, word_set_req. apply (try_store _ _ _ (Answer false)); try done.
    intros v' Hv' Hi'. exists c, true, h. apply (tok_req _ _ _ _ _ _ Hg td v v' i); try done. by rewrite Hi', Hv.
  - (* TryShared *) destruct Hok as (Ef & c0 & q0 & ->). unfold cmpset. destruct (_ =? _) eqn:E; bool_prop; [|by apply try_read].
    rewrite Hw in E. apply tok_word_inj in E as (<- & <- & Eh). rewrite word_incr by done. apply (try_store _ _ _ (Answer true)); try done.
    + assert (Hh : h = None) by (apply bool_decide_eq_false in Eh; destruct h; [by destruct Eh|done]). rewrite Hh in Hg.
      intros v' Hv' Hi'. exists (c + 1), q, None. apply (tok_share _ _ _ _ _ _ Hg td v v' i); try done; [|by left]. rewrite Hi'. cbn. by rewrite Ef.
    + by left.
Qed.

(** What [_lwkt_reltokref] comes to, one access at a time. *)
Definition rel_good (o : outcome (option releasing * tokens)) : Prop :=
  ∃ r tk', o = Ok (r, tk') ∧
    (∀ v', (∀ j, j ≠ i → v' j = v j) → v' i = after_rel (v i) r → ∀ k', TokS k' (tk' k') (<[td := v']> T)) ∧
    match r with Some r => rel_ok (after_rel (v i) (Some r)) k r | None => True end.

Lemma rel_read r : after_rel (v i) (Some r) = v i → rel_ok (v i) k r → rel_good (Ok (Some r, tk)).
Proof.
  intros Hv Hok. exists (Some r), tk. split; [done|]. rewrite Hv. split; [|done]. intros v' Hv' Hi'. apply toks_same. intros j.
  destruct (decide (j = i)) as [->|]; [done|by apply Hv'].
Qed.

Lemma rel_store r tok' : (v i = Shared k ∨ ∃ p, v i = Excl k p) →
  (∀ v', (∀ j, j ≠ i → v' j = v j) → v' i = after_rel (v i) r → TokS k tok' (<[td := v']> T)) →
  match r with Some r => rel_ok (after_rel (v i) (Some r)) k r | None => True end → rel_good (Ok (r, set_tok k tok' tk)).
Proof.
  intros Hv HS Hr. exists r, (set_tok k tok' tk). split; [done|]. split; [|done]. intros v' Hv' Hi'.
  apply toks_step; [done| | |by apply HS]; intros k' Hk'; rewrite ?Hi'; destruct Hv as [E|[p E]]; rewrite E;
    try destruct r; cbn; congruence.
Qed.

Lemma rel_access_good r ref : tr_tok ref = k → rel_ok (v i) k r → rel_good (_lwkt_reltokref td i r ref tk).
Proof.
  intros Hk Hok. destruct (HT k) as (c & q & h & Hg). pose proof (Hfit c q h Hg) as Hfits. pose proof (g_word _ _ _ _ _ _ Hg) as Hw.
  assert (Hfits' : fits c) by (pose proof (tok_count_nonneg _ _ _ _ _ _ Hg); unfold fits in *; lia).
  assert (Hex : ∀ p, v i = Excl k p → h = Some (td, i) ∧ t_ref (tk k) = if p then None else Some (td, i)).
  { intros p E. apply (excl_holder _ _ _ _ _ _ Hg). by rewrite (tok_V_lookup _ _ _ Htd). }
  assert (Hsh : v i = Shared k → 1 ≤ c).
  { intros E. apply (shared_count _ _ _ _ _ _ Hg td i). by rewrite (tok_V_lookup _ _ _ Htd). }
  destruct r as [|count|count|count| |count]; cbn in Hok |- *; rewrite ?Hk.
  - (* RelCount *) apply rel_read; [by destruct Hok as [->| ->]|]. rewrite Hw. destruct Hok as [E|E].
    + left. split; [done|]. destruct (Hex _ E) as [-> _]. by exists c, q.
    + right. split; [done|]. eexists c, q, _. split; [done|]. specialize (Hsh E). lia.
  - (* RelRef *) destruct Hok as [[E (c0 & q0 & ->)]|[E (c0 & q0 & e0 & -> & Hc)]].
    + destruct (Hex _ E) as [_ ->]. rewrite decide_True, word_excl by done. apply rel_read; [by rewrite E|]. split; [done|]. by exists c0, q0.
    + rewrite decide_False, tok_word_mask.
      * rewrite (proj2 (Z.eqb_neq _ _) Hc). apply rel_read; [by rewrite E|]. split; [done|]. by exists c0, q0, e0.
      * intros Er. destruct (ref_holder _ _ _ _ _ _ Hg td i Er) as [_ E']. rewrite (tok_V_lookup _ _ _ Htd) in E'. congruence.
  - (* RelNull *) destruct Hok as [E Hc]. apply rel_store; [right; by exists false| |by rewrite E]. rewrite E. intros v' Hv' Hi'. exists c, q, h.
    by apply (tok_store _ _ _ _ _ _ Hg td v v' i Htd Hv' Hi false true).
  - (* RelClear *) destruct Hok as [E (c0 & q0 & ->)]. unfold cmpset. destruct (_ =? _) eqn:Ew; bool_prop.
    + rewrite Hw in Ew. apply tok_word_inj in Ew as (<- & <- & _). rewrite word_clear_excl. apply rel_store; [right; by exists true| |done].
      rewrite E. intros v' Hv' Hi'. exists c, q, None. by apply (tok_clear _ _ _ _ _ _ Hg td v v' i).
    + apply rel_read; by rewrite E.
  - (* RelRestore *) apply rel_store; [right; by exists true| |rewrite Hok; by left]. rewrite Hok. intros v' Hv' Hi'. exists c, q, h.
    by apply (tok_store _ _ _ _ _ _ Hg td v v' i Htd Hv' Hi true false).
  - (* RelDec *) destruct Hok as [E (c0 & q0 & e0 & ->)]. specialize (Hsh E). unfold cmpset. destruct (_ =? _) eqn:Ew; bool_prop.
    + rewrite Hw in Ew. apply tok_word_inj in Ew as (<- & <- & <-). rewrite word_decr by done. apply rel_store; [by left| |done].
      rewrite E. intros v' Hv' Hi'. exists (c - 1), q, h. by apply (tok_drop _ _ _ _ _ _ Hg td v v' i).
    + apply rel_read; rewrite E; [done|]. by right.
Qed.

End access.

End TokenSafe.
