(* ===== verification/TokenThreads.v ===== *)
(** A thread at each of its places: what it holds, what it knows, and that its
    next access keeps the tokens right. *)

From stdpp Require Import base functions list gmap.
From S2P Require Import Prelude Token TokenTheory TokenSystem TokenSafe.

Module TokenThreads.
Import Token TokenTheory TokenSystem TokenSafe.

(** * What a thread holds, and knows *)

Definition held_by (th : thread) (i : nat) : bool := held (td_toks_stop th) (td_place th) i.
Definition pending_by (th : thread) (i : nat) : bool := pending (td_toks_stop th) (td_place th) i.

Definition view_of (th : thread) : view := λ i,
  match td_toks th !! i with
  | None => No
  | Some ref =>
      if held_by th i then if flagged ref then Excl (tr_tok ref) (pending_by th i) else Shared (tr_tok ref) else No
  end.

(** At most one reference of a stack wants a token exclusively. *)
Definition dup_free (th : thread) : Prop := ∀ i j r r', td_toks th !! i = Some r → td_toks th !! j = Some r' →
  tr_tok r = tr_tok r' → flagged r = true → flagged r' = true → i = j.

Definition trying_at (th : thread) (i : nat) (x : bool) (t : trying) : Prop :=
  ∃ ref, td_toks th !! i = Some ref ∧ flagged ref = x ∧ try_ok (view_of th) (tr_tok ref) x t.

Definition releasing_at (th : thread) (i : nat) (r : releasing) : Prop :=
  ∃ ref, td_toks th !! i = Some ref ∧ rel_ok (view_of th i) (tr_tok ref) r.

(** The token that a thread waits for in lwkt_gettoken is that of its last reference. *)
Definition after_ok (th : thread) (a : after) : Prop :=
  a = Gettoken true → ∃ ref, td_toks th !! (td_toks_stop th - 1)%nat = Some ref ∧ flagged ref = true.

Definition in_order (th : thread) (order : list nat) : Prop := order ≡ₚ seq 0 (td_toks_stop th).

Definition place_ok (th : thread) : Prop :=
  match td_place th with
  | Outside => True
  | Get excl _ t => trying_at th (td_toks_stop th - 1) excl t
  | Try t => trying_at th (td_toks_stop th - 1) true t
  | Rel r => releasing_at th (td_toks_stop th - 1) r
  | RelAll a i r => dup_free th ∧ after_ok th a ∧ releasing_at th i r
  | Switched a => dup_free th ∧ after_ok th a
  | GetAll a order j _ t => dup_free th ∧ after_ok th a ∧ in_order th order ∧ ∃ i x, order !! j = Some i ∧ trying_at th i x t
  | Undo a order j r => dup_free th ∧ after_ok th a ∧ in_order th order ∧ ∃ i, order !! j = Some i ∧ releasing_at th i r
  | Resumed a => after_ok th a
  end.

Definition thread_ok (th : thread) : Prop :=
  td_toks_have th = None ∧ (td_toks_stop th ≤ LWKT_MAXTOKENS)%nat ∧ place_ok th.

Lemma view_same th th' j : td_toks th' !! j = td_toks th !! j →
  (∀ ref, td_toks th !! j = Some ref → held_by th' j = held_by th j ∧ (held_by th j = true → pending_by th' j = pending_by th j)) →
  view_of th' j = view_of th j.
Proof.
  unfold view_of. intros -> H. destruct (td_toks th !! j) as [ref|] eqn:E; [|done]. destruct (H ref eq_refl) as [-> Hp].
  destruct (held_by th j); [|done]. by rewrite Hp.
Qed.

Lemma view_held th j ref : td_toks th !! j = Some ref → held_by th j = true →
  view_of th j = if flagged ref then Excl (tr_tok ref) (pending_by th j) else Shared (tr_tok ref).
Proof. unfold view_of. by intros -> ->. Qed.

Lemma view_not_held th j : held_by th j = false → view_of th j = No.
Proof. unfold view_of. intros ->. by destruct (td_toks th !! j). Qed.

Lemma view_excl th j k p : view_of th j = Excl k p →
  ∃ ref, td_toks th !! j = Some ref ∧ tr_tok ref = k ∧ flagged ref = true ∧ held_by th j = true.
Proof.
  unfold view_of. destruct (td_toks th !! j) as [ref|]; [|done]. destruct (held_by th j); [|done]. destruct (flagged ref) eqn:E; [|done].
  intros [= <- _]. by exists ref.
Qed.

Lemma view_pending th j k p : view_of th j = Excl k p → pending_by th j = p.
Proof.
  unfold view_of. destruct (td_toks th !! j) as [ref|]; [|done]. destruct (held_by th j); [|done]. destruct (flagged ref); [|done].
  by intros [= _ ->].
Qed.

Lemma lookup_stop th i ref : td_toks th !! i = Some ref → (i < td_toks_stop th)%nat.
Proof. apply lookup_lt_Some. Qed.

Lemma stop_place p th : td_toks_stop (set_place p th) = td_toks_stop th.
Proof. done. Qed.

(** At place [p] a thread holds what it does, but for reference [i]. *)
Definition agree (th : thread) (p : place) (i : nat) : Prop := ∀ j, j ≠ i → (j < td_toks_stop th)%nat →
  held (td_toks_stop th) p j = held_by th j ∧ (held_by th j = true → pending (td_toks_stop th) p j = pending_by th j).

Lemma view_place th p i : agree th p i → ∀ j, j ≠ i → view_of (set_place p th) j = view_of th j.
Proof. intros H j Hj. apply view_same; [done|]. intros ref Hr. apply H; [done|]. by apply lookup_stop in Hr. Qed.

(** Reference [i] is released, or taken. *)
Lemma view_left th p i : agree th p i → held (td_toks_stop th) p i = false →
  (∀ j, j ≠ i → view_of (set_place p th) j = view_of th j) ∧ view_of (set_place p th) i = No.
Proof. intros Ha Hh. split; [by apply view_place|by apply view_not_held]. Qed.

Lemma view_taken th p i ref ref' : td_toks th !! i = Some ref → tr_tok ref' = tr_tok ref → agree th p i →
  held (td_toks_stop th) p i = true → pending (td_toks_stop th) p i = false →
  let th' := Thread (<[i := ref']> (td_toks th)) (td_toks_have th) p in
  (∀ j, j ≠ i → view_of th' j = view_of th j) ∧ view_of th' i = (if flagged ref' then Excl (tr_tok ref) false else Shared (tr_tok ref)).
Proof.
  intros Hi Hk Ha Hh Hp th'. assert (Hn : td_toks_stop th' = td_toks_stop th) by apply length_insert. split.
  - intros j Hj. apply view_same; [by apply list_lookup_insert_ne|]. intros r Hr. unfold held_by at 1, pending_by at 1. rewrite Hn.
    apply Ha; [done|]. by apply lookup_stop in Hr.
  - rewrite (view_held th' i ref'); [|apply list_lookup_insert_eq; by eapply lookup_lt_Some|unfold held_by; by rewrite Hn].
    unfold pending_by. rewrite Hn. cbn [td_place th']. by rewrite Hk, Hp.
Qed.

Lemma try_ok_ext v v' k x t : (mine v' k ↔ mine v k) → try_ok v k x t → try_ok v' k x t.
Proof. intros H. destruct t; cbn; tauto. Qed.

Section access.
Context (tk : tokens) (T : gmap Z view) (td : Z) (th : thread).
Context (HT : ∀ k, TokS k (tk k) T) (Htd : T !! td = Some (view_of th)) (Hok : thread_ok th) (Hsize : Z.of_nat (size T) < 2 ^ 50).

Definition step_good (o : outcome (thread * tokens)) : Prop :=
  ∃ th' tk', o = Ok (th', tk') ∧ thread_ok th' ∧ ∀ k, TokS k (tk' k) (<[td := view_of th']> T).

Lemma fits_all k c q h : TokG k (tk k) T c q h → fits (c + 1).
Proof.
  intros H. pose proof (tok_count_nonneg _ _ _ _ _ _ H). destruct H as [_ <- _ _ _]. unfold fits.
  pose proof (map_sum_le (shared_in k) T 32 ltac:(intros; apply shared_in_nonneg)). change (2 ^ 60) with (2 ^ 10 * 2 ^ 50). lia.
Qed.

Lemma index_ok i ref : td_toks th !! i = Some ref → (i < LWKT_MAXTOKENS)%nat.
Proof. intros E%lookup_stop. destruct Hok as (_ & ? & _). lia. Qed.

(** No token is held exclusively by two references. *)
Lemma held_once i j r r' : td_toks th !! i = Some r → td_toks th !! j = Some r' → tr_tok r = tr_tok r' →
  flagged r = true → flagged r' = true → held_by th i = true → held_by th j = true → i = j.
Proof.
  intros Hi Hj Hk Hr Hr' Hhi Hhj. destruct (HT (tr_tok r)) as (c & q & h & Hg).
  pose proof (view_held th i r Hi Hhi) as Ei. pose proof (view_held th j r' Hj Hhj) as Ej. rewrite Hr in Ei. rewrite Hr', <- Hk in Ej.
  pose proof (g_excl _ _ _ _ _ _ Hg td i (pending_by th i)) as Gi. pose proof (g_excl _ _ _ _ _ _ Hg td j (pending_by th j)) as Gj.
  rewrite (tok_V_lookup _ _ _ Htd) in Gi, Gj. specialize (Gi Ei). specialize (Gj Ej). congruence.
Qed.

(** An access in [_lwkt_trytokref] of reference [i]. *)
Lemma try_at_good i mode t at_ yes no ref :
  td_toks th !! i = Some ref → has_flag mode TOK_EXCLUSIVE = flagged ref → try_ok (view_of th) (tr_tok ref) (flagged ref) t →
  td_place th = at_ t →
  (∀ t', held (td_toks_stop th) (at_ t') i = taking t' ∧ pending (td_toks_stop th) (at_ t') i = taking t' ∧
    agree th (at_ t') i) →
  (∀ t', trying_at (set_place (at_ t') th) i (flagged ref) t' → thread_ok (set_place (at_ t') th)) →
  (∀ ref', tr_tok ref' = tr_tok ref → ref' = ref ∨ mine (view_of th) (tr_tok ref) ∧ flagged ref' = false →
    let th' := yes (Thread (<[i := ref']> (td_toks th)) (td_toks_have th) (td_place th)) in
    (∀ j, j ≠ i → view_of th' j = view_of th j) ∧ view_of th' i = (if flagged ref' then Excl (tr_tok ref) false else Shared (tr_tok ref)) ∧
    thread_ok th') →
  (¬ mine (view_of th) (tr_tok ref) →
    (∀ j, j ≠ i → view_of (no th) j = view_of th j) ∧ view_of (no th) i = No ∧ thread_ok (no th)) →
  step_good (try_at td i mode t at_ yes no th tk).
Proof.
  intros Hi Hm Htry Hp Hat Hgo Hyes Hno. pose proof (index_ok i ref Hi) as Hlt. set (k := tr_tok ref) in *.
  assert (Hsame : Thread (<[i := ref]> (td_toks th)) (td_toks_have th) (td_place th) = th) by (rewrite list_insert_id by done; by destruct th).
  assert (Hvi : ∀ t', view_of (set_place (at_ t') th) i = if taking t' && flagged ref then Excl k true else if taking t' then Shared k else No).
  { intros t'. destruct (Hat t') as (H1 & H2 & _). unfold view_of, held_by, pending_by. cbn [td_toks td_place set_place].
    change (td_toks_stop (set_place (at_ t') th)) with (td_toks_stop th). rewrite Hi, H1, H2. by destruct (taking t'), (flagged ref). }
  assert (Hv : view_of th i = if taking t then Excl k true else No).
  { rewrite <- (Hsame), Hp. specialize (Hvi t). rewrite list_insert_id by done. unfold set_place in Hvi. rewrite Hvi.
    destruct t; try done; cbn in Htry |- *; by destruct Htry as [-> _]. }
  assert (Hstop : ∀ j p, view_of th j = Excl k p → (j < td_toks_stop th)%nat).
  { intros j p E. apply view_excl in E as (r & Hr & _). by apply lookup_stop in Hr. }
  destruct (try_access_good tk T td (view_of th) i k HT Htd Hlt (fits_all k) (td_toks_stop th) mode t ref eq_refl Hm Hstop Hv Htry)
    as (r & ref' & tk' & E & HS & Hk & Hr).
  unfold try_at. rewrite Hi, E. cbn. destruct r as [t'|[]].
  - destruct Hr as [-> Hok']. rewrite list_insert_id by done. eexists _, _. split; [done|]. fold (set_place (at_ t') th). 
    destruct (Hat t') as (_ & _ & Hoth). pose proof (view_place th (at_ t') i Hoth) as Hvo.
    assert (Hvi' : view_of (set_place (at_ t') th) i = after_try k (Goes t') ref).
    { rewrite Hvi. cbn. destruct t'; try done; cbn in Hok'; by destruct Hok' as [-> _]. }
    split; [|by apply HS]. apply Hgo. exists ref. split; [done|]. split; [done|]. apply (try_ok_ext (view_of th)); [|done].
    unfold mine. f_equiv. intros j. destruct (decide (j = i)) as [->|]; [|by rewrite Hvo]. rewrite Hvi', Hv. cbn. by destruct (taking t), (taking t').
  - destruct (Hyes ref' Hk Hr) as (Hvo & Hvi' & Hth). eexists _, _. split; [done|].
    split; [done|]. by apply HS.
  - destruct Hr as [-> Hmine]. rewrite Hsame. destruct (Hno Hmine) as (Hvo & Hvi' & Hth). eexists _, _. split; [done|]. split; [done|]. by apply HS.
Qed.

(** An access in [_lwkt_reltokref] of reference [i]. *)
Lemma rel_at_good i r at_ done ref :
  td_toks th !! i = Some ref → rel_ok (view_of th i) (tr_tok ref) r → td_place th = at_ r →
  (∀ r', held (td_toks_stop th) (at_ r') i = true ∧ pending (td_toks_stop th) (at_ r') i = leaving r' ∧
    agree th (at_ r') i) →
  (∀ r', releasing_at (set_place (at_ r') th) i r' → thread_ok (set_place (at_ r') th)) →
  ((∀ j, j ≠ i → view_of (done th) j = view_of th j) ∧ view_of (done th) i = No ∧ thread_ok (done th)) →
  step_good (rel_at td i r at_ done th tk).
Proof.
  intros Hi Hrel Hp Hat Hgo Hdone. pose proof (index_ok i ref Hi) as Hlt. set (k := tr_tok ref) in *.
  assert (Hvi : ∀ r', view_of (set_place (at_ r') th) i = if flagged ref then Excl k (leaving r') else Shared k).
  { intros r'. destruct (Hat r') as (H1 & H2 & _). rewrite <- H2. by apply view_held. }
  assert (Hv : view_of th i = if flagged ref then Excl k (leaving r) else Shared k).
  { rewrite <- Hvi, <- Hp. by destruct th. }
  destruct (rel_access_good tk T td (view_of th) i k HT Htd Hlt (fits_all k) r ref eq_refl Hrel) as (o & tk' & E & HS & Ho).
  unfold rel_at. rewrite Hi, E. cbn. eexists _, _. split; [reflexivity|]. destruct o as [r'|].
  - destruct (Hat r') as (_ & _ & Hoth). pose proof (view_place th (at_ r') i Hoth) as Hvo.
    assert (Hvi' : view_of (set_place (at_ r') th) i = after_rel (view_of th i) (Some r')).
    { rewrite Hvi, Hv. by destruct (flagged ref). }
    split; [|by apply HS]. apply Hgo. exists ref. split; [reflexivity || exact Hi|]. by rewrite Hvi'.
  - destruct Hdone as (Hvo & Hvi' & Hth). split; [exact Hth|]. by apply HS.
Qed.

(** A thread that stores to no token, and holds the same after it. *)
Lemma same_good th' : (∀ j, view_of th' j = view_of th j) → thread_ok th' → step_good (Ok (th', tk)).
Proof.
  intros Hv Hth. exists th', tk. split; [done|]. split; [done|]. apply (toks_same tk T td (view_of th) 0 HT Htd); [|done].
  unfold LWKT_MAXTOKENS. lia.
Qed.

End access.

End TokenThreads.
