(* ===== verification/TokenSteps.v ===== *)
(** Every access and every call of a thread keeps the tokens right. *)

From stdpp Require Import base functions list gmap.
From S2P Require Import Prelude Token TokenTheory TokenSystem TokenSafe TokenThreads.

Module TokenSteps.
Import Token TokenTheory TokenSystem TokenSafe TokenThreads.

(** The last reference, and the others. *)
Lemma top_held n b : ((n - 1 <? n - 1)%nat || b) = b ∧ ((n - 1 =? n - 1)%nat && b) = b.
Proof. by rewrite Nat.ltb_irrefl, Nat.eqb_refl. Qed.
Lemma below_held n j b : j ≠ (n - 1)%nat → (j < n)%nat → ((j <? n - 1)%nat || b) = true ∧ ((j =? n - 1)%nat && b) = false.
Proof. intros H1 H2. rewrite (proj2 (Nat.ltb_lt _ _)), (proj2 (Nat.eqb_neq _ _)) by lia. done. Qed.

(** What lwkt_relalltokens starts with. *)
Lemma relall_held n a i j : held n (relall_from a i) j = (j <? i)%nat ∧ pending n (relall_from a i) j = false.
Proof.
  destruct i as [|i]; [done|]. cbn [relall_from held pending leaving]. rewrite andb_false_r. split; [|done].
  apply eq_true_iff_eq. rewrite Nat.leb_le, Nat.ltb_lt. lia.
Qed.

(** What a thread holds at a place that only its last reference is about. *)
Ltac at_top Hp :=
  let j := fresh in let Hj := fresh in let Hn := fresh in
  intros j Hj Hn; unfold held_by, pending_by; rewrite Hp; cbn [held pending];
  repeat match goal with
  | |- context [(j <? ?n - 1)%nat || ?b] => rewrite (proj1 (below_held n j b Hj Hn))
  | |- context [(j =? ?n - 1)%nat && ?b] => rewrite (proj2 (below_held n j b Hj Hn))
  end; done.

Section steps.
Context (tk : tokens) (T : gmap Z view) (td : Z) (th : thread).
Context (HT : ∀ k, TokS k (tk k) T) (Htd : T !! td = Some (view_of th)) (Hok : thread_ok th) (Hsize : Z.of_nat (size T) < 2 ^ 50).
Context (lwkt_token_spin : Z) (spinning : bool).

Lemma place_good p : place_ok (set_place p th) → thread_ok (set_place p th).
Proof. destruct Hok as (H1 & H2 & _). by intros H3. Qed.

Lemma outside_good stack : (length stack ≤ td_toks_stop th)%nat → thread_ok (Thread stack (td_toks_have th) Outside).
Proof. destruct Hok as (H1 & H2 & _). intros H3. split; [done|]. split; [|done]. unfold td_toks_stop in *. cbn. lia. Qed.

(** A reference that is held can be released. *)
Lemma held_releasing th' i ref : td_toks th' !! i = Some ref → held_by th' i = true → pending_by th' i = false →
  releasing_at th' i RelCount.
Proof. intros Hi Hh Hp. exists ref. split; [done|]. rewrite (view_held th' i ref Hi Hh), Hp. destruct (flagged ref); [by left|by right]. Qed.

(** ** lwkt_gettoken, lwkt_trytoken, lwkt_reltoken *)

Lemma relall_start a i : (i ≤ td_toks_stop th)%nat → dup_free th → after_ok th a → thread_ok (set_place (relall_from a i) th).
Proof.
  intros Hi Hd Ha. apply place_good. destruct i as [|i]; [done|]. split; [done|]. split; [done|].
  destruct (lookup_lt_is_Some_2 (td_toks th) i) as [ref Hr]; [unfold td_toks_stop in Hi; lia|].
  apply (held_releasing (set_place _ th) i ref Hr); unfold held_by, pending_by; cbn; [apply Nat.leb_refl|by rewrite andb_false_r].
Qed.

(** The references that are held, and one that wants another token. *)
Lemma dup_top ref : td_toks th !! (td_toks_stop th - 1)%nat = Some ref →
  (flagged ref = true → ¬ mine (view_of th) (tr_tok ref)) →
  (∀ j, j ≠ (td_toks_stop th - 1)%nat → (j < td_toks_stop th)%nat → held_by th j = true ∧ pending_by th j = false) → dup_free th.
Proof.
  intros Href Hmine Hheld.
  assert (Htop : ∀ j r, td_toks th !! j = Some r → j ≠ (td_toks_stop th - 1)%nat → tr_tok r = tr_tok ref → flagged r = true → flagged ref = true → False).
  { intros j r Hj Hne Hk Hf Hf'. apply (Hmine Hf'). exists j. destruct (Hheld j Hne (lookup_stop th j r Hj)) as [Hh Hp].
    by rewrite (view_held th j r Hj Hh), Hf, Hp, Hk. }
  intros i j r r' Hi Hj Hk Hf Hf'. destruct (decide (i = (td_toks_stop th - 1)%nat)) as [->|Hi']; destruct (decide (j = (td_toks_stop th - 1)%nat)) as [->|Hj']; try done.
  - exfalso. assert (r = ref) as -> by congruence. by apply (Htop j r').
  - exfalso. assert (r' = ref) as -> by congruence. by apply (Htop i r).
  - apply (held_once tk T td th HT Htd i j r r'); try done; apply Hheld; try done; by eapply lookup_stop.
Qed.

Lemma get_good excl spin t : td_place th = Get excl spin t → step_good T td (exec lwkt_token_spin td spinning th tk).
Proof.
  intros Hp. pose proof Hok as (Hhave & Hstop & Hpl). unfold place_ok in Hpl. rewrite Hp in Hpl. destruct Hpl as (ref & Href & Hf & Htry).
  unfold exec. rewrite Hp. set (n := td_toks_stop th) in *.
  apply (try_at_good tk T td th HT Htd Hok Hsize _ _ _ _ _ _ ref); try done.
  - rewrite Hf. by destruct excl.
  - by rewrite Hf.
  - intros t'. cbn [held pending]. fold n. destruct (top_held n (taking t')) as [-> ->]. split_and!; [done..|at_top Hp].
  - rewrite Hf. intros t' Ht. by apply place_good.
  - intros ref' Hk _ th'. destruct (view_taken th Outside _ ref ref' Href Hk) as [H1 H2]; [at_top Hp|done..|].
    split; [apply H1|]. split; [apply H2|]. apply outside_good. cbn [td_toks]. by rewrite length_insert.
  - intros Hmine. destruct (spin >? 0).
    + destruct (view_left th (Get excl (spin - 1) TryCount) (n - 1)) as [H1 H2]; [at_top Hp|cbn [held]; by destruct (top_held n false)|].
      split; [done|]. split; [done|]. apply place_good. exists ref. split_and!; try done.
    + assert (Hsw : gettoken_switch excl th = set_place (relall_from (Gettoken excl) (n - 1)) th) by (unfold set_place; by rewrite Hhave). rewrite Hsw.
      destruct (view_left th (relall_from (Gettoken excl) (n - 1)) (n - 1)) as [H1 H2]; [|by rewrite (proj1 (relall_held _ _ _ _)), Nat.ltb_irrefl|].
      { intros j Hj Hn. destruct (relall_held (td_toks_stop th) (Gettoken excl) (n - 1) j) as [-> ->]. unfold held_by, pending_by. rewrite Hp.
        cbn [held pending]. rewrite (proj1 (below_held _ _ _ Hj Hn)), (proj2 (below_held _ _ _ Hj Hn)). split; [|done]. apply Nat.ltb_lt. fold n in Hn. lia. }
      split; [done|]. split; [done|].
      apply relall_start; [lia| |].
      * apply (dup_top ref Href); [done|]. intros j Hj Hn. unfold held_by, pending_by. rewrite Hp. cbn [held pending]. apply (below_held _ _ _ Hj Hn).
      * intros [= ->]. by exists ref.
Qed.

Lemma popped : agree th Outside (td_toks_stop th - 1) →
  (∀ j, j ≠ (td_toks_stop th - 1)%nat → view_of (pop Outside th) j = view_of th j) ∧ view_of (pop Outside th) (td_toks_stop th - 1)%nat = No ∧
  thread_ok (pop Outside th).
Proof.
  intros Ha. split_and!.
  - intros j Hj. destruct (decide (j < td_toks_stop th)%nat) as [Hn|Hn].
    + apply view_same; [apply lookup_take_lt; lia|]. intros ref _. by destruct (Ha j Hj Hn) as [E1 E2].
    + unfold view_of, pop. cbn [td_toks]. rewrite lookup_take_ge by lia. rewrite (lookup_ge_None_2 (td_toks th)); [done|unfold td_toks_stop in *; lia].
  - unfold view_of, pop. cbn [td_toks]. by rewrite lookup_take_ge.
  - apply (outside_good (take _ _)). rewrite length_take. unfold td_toks_stop. lia.
Qed.

Lemma try_good_place t : td_place th = Try t → step_good T td (exec lwkt_token_spin td spinning th tk).
Proof.
  intros Hp. pose proof Hok as (Hhave & Hstop & Hpl). unfold place_ok in Hpl. rewrite Hp in Hpl. destruct Hpl as (ref & Href & Hf & Htry).
  unfold exec. rewrite Hp. set (n := td_toks_stop th) in *.
  apply (try_at_good tk T td th HT Htd Hok Hsize _ _ _ _ _ _ ref); rewrite ?Hf; try done.
  - intros t'. cbn [held pending]. fold n. destruct (top_held n (taking t')) as [-> ->]. split_and!; [done..|at_top Hp].
  - intros ref' Hk _ th'. destruct (view_taken th Outside _ ref ref' Href Hk) as [H1 H2]; [at_top Hp|done..|].
    split; [apply H1|]. split; [apply H2|]. apply outside_good. cbn [td_toks]. by rewrite length_insert.
  - intros _. apply popped. at_top Hp.
Qed.

Lemma rel_good_place r : td_place th = Rel r → step_good T td (exec lwkt_token_spin td spinning th tk).
Proof.
  intros Hp. pose proof Hok as (Hhave & Hstop & Hpl). unfold place_ok in Hpl. rewrite Hp in Hpl. destruct Hpl as (ref & Href & Hrel).
  unfold exec. rewrite Hp. apply (rel_at_good tk T td th HT Htd Hok Hsize _ _ _ _ ref); try done.
  - intros r'. cbn [held pending]. rewrite Nat.eqb_refl. split_and!; [done..|at_top Hp].
  - apply popped. at_top Hp.
Qed.

(** ** lwkt_relalltokens *)

Lemma relall_good a i r : td_place th = RelAll a i r → step_good T td (exec lwkt_token_spin td spinning th tk).
Proof.
  intros Hp. pose proof Hok as (Hhave & Hstop & Hpl). unfold place_ok in Hpl. rewrite Hp in Hpl. destruct Hpl as (Hd & Ha & ref & Href & Hrel).
  unfold exec. rewrite Hp. apply (rel_at_good tk T td th HT Htd Hok Hsize _ _ _ _ ref); try done.
  - intros r'. cbn [held pending]. rewrite Nat.eqb_refl, Nat.leb_refl. split_and!; [done..|]. intros j Hj _. unfold held_by, pending_by.
    rewrite Hp. cbn [held pending]. by rewrite (proj2 (Nat.eqb_neq _ _) Hj).
  - pose proof (lookup_stop _ _ _ Href). destruct (view_left th (relall_from a i) i) as [H1 H2].
    + intros j Hj _. destruct (relall_held (td_toks_stop th) a i j) as [-> ->]. unfold held_by, pending_by. rewrite Hp. cbn [held pending].
      rewrite (proj2 (Nat.eqb_neq _ _) Hj). split; [|done]. apply eq_true_iff_eq. rewrite Nat.leb_le, Nat.ltb_lt. lia.
    + by rewrite (proj1 (relall_held _ _ _ _)), Nat.ltb_irrefl.
    + split; [done|]. split; [done|]. apply relall_start; [lia|done|done].
Qed.

Lemma resumed_good a : td_place th = Resumed a → step_good T td (exec lwkt_token_spin td spinning th tk).
Proof.
  intros Hp. pose proof Hok as (Hhave & Hstop & Ha). unfold place_ok in Ha. rewrite Hp in Ha. unfold exec. rewrite Hp.
  assert (Hgo : step_good T td (Ok (set_place Outside th, tk))).
  { apply (same_good tk T td th HT Htd); [|by apply place_good]. intros j. apply view_same; [done|]. intros ref Hr.
    unfold held_by, pending_by. by rewrite Hp. }
  destruct a as [|[]]; try done. destruct (Ha eq_refl) as (ref & Href & Hf). rewrite Href. unfold kkassert. rewrite bool_decide_eq_true_2; [done|].
  destruct (HT (tr_tok ref)) as (c & q & h & Hg). apply (excl_holder _ _ _ _ _ _ Hg td _ false). rewrite (tok_V_lookup _ _ _ Htd).
  rewrite (view_held th _ ref Href); unfold held_by, pending_by; rewrite Hp; [by rewrite Hf|done].
Qed.

(** ** Calls *)

Lemma push_good tok excl p : td_place th = Outside → (td_toks_stop th < LWKT_MAXTOKENS)%nat →
  (∀ n i, held n p i = (i <? n - 1)%nat || false) → (∀ n i, pending n p i = (i =? n - 1)%nat && false) →
  place_ok (Thread (td_toks th ++ [Ref tok excl td]) (td_toks_have th) p) →
  step_good T td (let* th' := push td tok excl p th in Ok (th', tk)).
Proof.
  intros Hp Hn Hh Hpe Hpl. destruct Hok as (Hhave & Hstop & _). unfold push, kkassert. rewrite (proj2 (Nat.ltb_lt _ _) Hn).
  apply (same_good tk T td th HT Htd).
  - intros j. unfold view_of, held_by, pending_by. rewrite Hh, Hpe, Hp, orb_false_r, andb_false_r. cbn [td_toks td_place held pending].
    unfold td_toks_stop. cbn [td_toks]. rewrite length_app. cbn [length].
    replace (length (td_toks th) + 1 - 1)%nat with (length (td_toks th)) by lia.
    destruct (td_toks th !! j) as [ref|] eqn:E.
    + pose proof (lookup_lt_Some _ _ _ E). by rewrite lookup_app_l, E, (proj2 (Nat.ltb_lt _ _)) by done.
    + apply lookup_ge_None_1 in E. rewrite (proj2 (Nat.ltb_ge _ _)) by done. by destruct (_ !! j).
  - split; [done|]. split; [|done]. unfold td_toks_stop in *. cbn [td_toks]. rewrite length_app. cbn. lia.
Qed.

Lemma pushed tok excl p : td_toks (Thread (td_toks th ++ [Ref tok excl td]) (td_toks_have th) p) !!
  (td_toks_stop (Thread (td_toks th ++ [Ref tok excl td]) (td_toks_have th) p) - 1)%nat = Some (Ref tok excl td).
Proof. unfold td_toks_stop. cbn [td_toks]. rewrite length_app, lookup_app_r; cbn [length]; [|lia]. by replace (length (td_toks th) + 1 - 1 - length (td_toks th))%nat with 0%nat by lia. Qed.

(** The view of a thread outside. *)
Lemma view_outside th' j ref : td_place th' = Outside → td_toks th' !! j = Some ref →
  view_of th' j = if flagged ref then Excl (tr_tok ref) false else Shared (tr_tok ref).
Proof. intros Hp Hj. unfold view_of, held_by, pending_by. by rewrite Hj, Hp. Qed.

Lemma about_outside th' j ref k : td_place th' = Outside → td_toks th' !! j = Some ref → tr_tok ref ≠ k → ¬ about k (view_of th' j).
Proof. intros Hp Hj Hk. rewrite (view_outside th' j ref Hp Hj). by destruct (flagged ref). Qed.

Lemma view_moved th1 th2 i j r1 r2 : td_place th1 = Outside → td_place th2 = Outside → td_toks th1 !! i = Some r1 → td_toks th2 !! j = Some r2 →
  tr_tok r2 = tr_tok r1 → tr_count r2 = tr_count r1 → view_of th2 j = view_of th1 i.
Proof. intros P1 P2 L1 L2 Ht Hc. rewrite (view_outside _ _ _ P1 L1), (view_outside _ _ _ P2 L2). unfold flagged. by rewrite Ht, Hc. Qed.

(** What lwkt_token_swap stores. *)
Lemma swap_toks i1 i2 ref1 ref2 k : td_place th = Outside → td_toks th !! i1 = Some ref1 → td_toks th !! i2 = Some ref2 →
  let tok1 := tr_tok ref1 in let tok2 := tr_tok ref2 in tok1 ≠ tok2 →
  let tk1 := if decide (t_ref (tk tok1) = Some (td, i1)) then set_ref tok1 (Some (td, i2)) tk else tk in
  let tk2 := if decide (t_ref (tk1 tok2) = Some (td, i2)) then set_ref tok2 (Some (td, i1)) tk1 else tk1 in
  tk2 k = Tok (t_count (tk k)) (moved_ref td i1 i2 (t_ref (tk k))).
Proof.
  intros Hp H1 H2 tok1 tok2 Hne tk1 tk2. destruct (HT k) as (c & q & h & Hg).
  assert (E1 : tk1 tok2 = tk tok2).
  { unfold tk1, set_ref, set_tok. case_decide; [|done]. by rewrite decide_False. }
  assert (Hk : Tok (t_count (tk k)) (t_ref (tk k)) = tk k) by (by destruct (tk k)).
  assert (Hset : ∀ k' r (tk' : tokens), set_ref k' r tk' k = if decide (k = k') then Tok (t_count (tk' k)) r else tk' k).
  { intros k' r tk'. unfold set_ref, set_tok. case_decide; [by subst|done]. }
  assert (E2 : tk2 k = if decide (k = tok2) then (if decide (t_ref (tk k) = Some (td, i2)) then Tok (t_count (tk k)) (Some (td, i1)) else tk k)
    else if decide (k = tok1) then (if decide (t_ref (tk k) = Some (td, i1)) then Tok (t_count (tk k)) (Some (td, i2)) else tk k) else tk k).
  { unfold tk2. rewrite E1. destruct (decide (k = tok2)) as [->|].
    - case_decide; [|done]. rewrite Hset, decide_True by done. by rewrite E1.
    - transitivity (tk1 k); [case_decide; [by rewrite Hset, decide_False|done]|]. unfold tk1. destruct (decide (k = tok1)) as [->|].
      + case_decide; [by rewrite Hset, decide_True|done].
      + case_decide; [by rewrite Hset, decide_False|done]. }
  rewrite E2. destruct (decide (k = tok2)) as [->|Hk2]; [|destruct (decide (k = tok1)) as [->|Hk1]].
  - rewrite (ref_moved td i1 i2 _ _ _ _ _ _ Hg (view_of th) Htd i2 i1); [|by right|by apply (about_outside _ _ _ _ Hp H1)].
    by case_decide.
  - rewrite (ref_moved td i1 i2 _ _ _ _ _ _ Hg (view_of th) Htd i1 i2); [|by left|apply (about_outside _ _ _ _ Hp H2); by apply not_eq_sym].
    by case_decide.
  - rewrite (ref_unmoved td i1 i2 _ _ _ _ _ _ Hg (view_of th) Htd); [done|apply (about_outside _ _ _ _ Hp H1)|apply (about_outside _ _ _ _ Hp H2)]; by apply not_eq_sym.
Qed.

Lemma swap_good : td_place th = Outside → (2 ≤ td_toks_stop th)%nat → step_good T td (lwkt_token_swap td th tk).
Proof.
  intros Hp Hn. pose proof Hok as (Hhave & Hstop & _). unfold lwkt_token_swap. rewrite (proj2 (Nat.ltb_ge _ _) Hn).
  set (i1 := (td_toks_stop th - 1)%nat). set (i2 := (td_toks_stop th - 2)%nat).
  destruct (lookup_lt_is_Some_2 (td_toks th) i1) as [ref1 H1]; [unfold i1, td_toks_stop in *; lia|].
  destruct (lookup_lt_is_Some_2 (td_toks th) i2) as [ref2 H2]; [unfold i2, td_toks_stop in *; lia|].
  rewrite H1, H2. destruct (Z.eqb_spec (tr_tok ref1) (tr_tok ref2)) as [_|Hne].
  - apply (same_good tk T td th HT Htd); done.
  - eexists _, _. split; [reflexivity|]. split.
    + split; [done|]. split; [unfold td_toks_stop in *; cbn [td_toks]; by rewrite !length_insert|]. unfold place_ok. cbn [td_place]. by rewrite Hp.
    + intros k. rewrite (swap_toks i1 i2 ref1 ref2 k Hp H1 H2 Hne). destruct (HT k) as (c & q & h & Hg). exists c, q, (moved_ref td i1 i2 h).
      assert (Hi : i1 ≠ i2) by (unfold i1, i2; lia).
      apply (tok_exchange td i1 i2 _ _ _ _ _ _ Hg (view_of th)); [done| |done|unfold i1; lia|unfold i2; lia].
      intros j. unfold exchanged. set (th' := Thread _ _ _). assert (Hp' : td_place th' = Outside) by done.
      assert (Hl1 : (i1 < length (td_toks th))%nat) by (by eapply lookup_lt_Some). assert (Hl2 : (i2 < length (td_toks th))%nat) by (by eapply lookup_lt_Some).
      case_decide as D1; [|case_decide as D2]; subst.
      * eapply (view_moved th th'); [done|done|exact H2|cbn [td_toks th']; rewrite list_lookup_insert_ne by done; by apply list_lookup_insert_eq|done..].
      * eapply (view_moved th th'); [done|done|exact H1|cbn [td_toks th']; apply list_lookup_insert_eq; by rewrite length_insert|done..].
      * apply view_same; [cbn [td_toks th']; by rewrite !list_lookup_insert_ne|]. intros ref _. unfold held_by, pending_by. by rewrite Hp, Hp'.
Qed.

Lemma call_good o : td_place th = Outside → careful td th o → step_good T td (call lwkt_token_spin td o th tk).
Proof.
  intros Hp Hc. destruct o as [tok|tok|tok|tok| |]; cbn [careful] in Hc; unfold call.
  1-3: apply push_good; try done; eexists; (split; [apply pushed|by split]).
  - unfold lwkt_reltoken. destruct (last (td_toks th)) as [ref|] eqn:El; [|done]. injection Hc as Hc. unfold kkassert. rewrite Hc, Z.eqb_refl.
    rewrite last_lookup in El. apply (same_good tk T td th HT Htd).
    + intros j. apply view_same; [done|]. intros r _. unfold held_by, pending_by. rewrite Hp. cbn. by rewrite andb_false_r.
    + apply place_good. apply (held_releasing (set_place _ th) _ ref); [|done|unfold pending_by; cbn; by rewrite andb_false_r].
      cbn [td_toks set_place]. unfold td_toks_stop. cbn [td_toks set_place]. by replace (length (td_toks th) - 1)%nat with (pred (length (td_toks th))) by lia.
  - by apply swap_good.
  - pose proof Hok as (Hhave & Hstop & _). unfold lwkt_relalltokens. rewrite Hhave. cbn [default].
    assert (E : Thread (td_toks th) None (relall_from Blocked (td_toks_stop th)) = set_place (relall_from Blocked (td_toks_stop th)) th) by (unfold set_place; by rewrite Hhave).
    rewrite E. apply (same_good tk T td th HT Htd).
    + intros j. apply view_same; [done|]. intros r Hr%lookup_stop. unfold held_by, pending_by. rewrite Hp, stop_place.
      cbn [td_place set_place].
      destruct (relall_held (td_toks_stop th) Blocked (td_toks_stop th) j) as [-> ->]. by rewrite (proj2 (Nat.ltb_lt _ _) Hr).
    + apply relall_start; [done| |done]. intros i j r r' Hi Hj Hk Hf Hf'. apply (held_once tk T td th HT Htd i j r r'); try done; unfold held_by; by rewrite Hp.
Qed.

End steps.

End TokenSteps.
