(* ===== verification/TokenOrder.v ===== *)
(** The order in which [_lwkt_getalltokens_sorted] takes the tokens, and
    lwkt_getalltokens in any order of the references. *)

From stdpp Require Import base functions list gmap sorting.
From S2P Require Import Prelude Token TokenTheory TokenSystem TokenSafe TokenThreads TokenSteps.

Module TokenOrder.
Import Token TokenTheory TokenSystem TokenSafe TokenThreads TokenSteps.

(** * The sorted array *)

(** By address; references to the same token in the order of the stack. *)
Definition before (tok : nat → Z) (i j : nat) : Prop := tok i < tok j ∨ tok i = tok j ∧ (i < j)%nat.

Section sort.
Context (tok : nat → Z).

Lemma sort_step_perm sa scan : sort_step tok sa scan ≡ₚ scan :: sa.
Proof. unfold sort_step. cbv zeta. generalize (sort_pos tok scan sa). intros n. by rewrite <- Permutation_middle, take_drop. Qed.

Lemma sort_step_cons r rs scan :
  sort_step tok (r :: rs) scan = if tok scan <? tok r then scan :: r :: rs else r :: sort_step tok rs scan.
Proof. unfold sort_step. cbn. by destruct (_ <? _). Qed.

Lemma sort_step_sorted sa scan : (∀ r, r ∈ sa → (r < scan)%nat) → StronglySorted (before tok) sa → StronglySorted (before tok) (sort_step tok sa scan).
Proof.
  induction sa as [|r rs IH]; intros Hlt Hs; [repeat constructor|]. apply StronglySorted_inv in Hs as [Hs Hr]. rewrite sort_step_cons.
  destruct (Z.ltb_spec (tok scan) (tok r)) as [Hb|Hb].
  - constructor; [by constructor|]. constructor; [by left|]. apply (Forall_impl _ _ _ Hr). intros x [?|[? _]]; left; lia.
  - constructor; [apply IH; [|done]; intros x Hx; apply Hlt; by right|]. rewrite sort_step_perm. constructor; [|done].
    unfold before. assert (r < scan)%nat by (apply Hlt; by left). destruct (decide (tok r = tok scan)); [by right|left; lia].
Qed.

Lemma sort_fold m n sa : sa ≡ₚ seq 0 m → StronglySorted (before tok) sa →
  let sa' := foldl (sort_step tok) sa (seq m n) in sa' ≡ₚ seq 0 (m + n) ∧ StronglySorted (before tok) sa'.
Proof.
  revert m sa. induction n as [|n IH]; intros m sa Hp Hs; cbn; [by rewrite Nat.add_0_r|].
  destruct (IH (S m) (sort_step tok sa m)) as [H1 H2].
  - rewrite sort_step_perm, seq_S, Hp. cbn. apply Permutation_cons_append.
  - apply sort_step_sorted; [|done]. intros r. rewrite Hp, elem_of_seq. lia.
  - split; [|done]. by rewrite Nat.add_succ_r.
Qed.

End sort.

Lemma sort_array_perm toks : sort_array toks ≡ₚ seq 0 (length toks).
Proof. by apply (sort_fold (tok_at toks) 0 (length toks) []); [|constructor]. Qed.

Lemma sort_array_in_order toks : StronglySorted (before (tok_at toks)) (sort_array toks).
Proof. by apply (sort_fold (tok_at toks) 0 (length toks) []); [|constructor]. Qed.

Lemma sort_array_before toks i j a b : sort_array toks !! i = Some a → sort_array toks !! j = Some b → (i < j)%nat → before (tok_at toks) a b.
Proof.
  intros Hi Hj Hij. pose proof (sort_array_in_order toks) as Hs. revert i j Hi Hj Hij. induction Hs as [|x l Hl IH Hx]; intros i j Hi Hj Hij; [done|].
  destruct j as [|j]; [lia|]. destruct i as [|i]; cbn in Hi, Hj; [|apply (IH i j); [done|done|lia]].
  injection Hi as ->. rewrite Forall_forall in Hx. apply Hx. by eapply list_elem_of_lookup_2.
Qed.

(** * References taken in some order *)

Lemma order_lt th order i : in_order th order → i ∈ order ↔ (i < td_toks_stop th)%nat.
Proof. intros H. rewrite H, elem_of_seq. lia. Qed.

Lemma order_at th order j i : in_order th order → order !! j = Some i →
  (i < td_toks_stop th)%nat ∧ bool_decide (i ∈ take j order) = false ∧ bool_decide (order !! j = Some i) = true ∧
  bool_decide (i ∈ take (S j) order) = true ∧
  ∀ x, x ≠ i → bool_decide (order !! j = Some x) = false ∧ bool_decide (x ∈ take (S j) order) = bool_decide (x ∈ take j order).
Proof.
  intros Ho Hj. assert (Hnd : NoDup order) by (rewrite Ho; apply NoDup_seq). split_and!.
  - apply (order_lt th order); [done|]. by eapply list_elem_of_lookup_2.
  - apply bool_decide_eq_false. intros (j' & Hj' & Hlt)%elem_of_take. pose proof (NoDup_lookup _ _ _ _ Hnd Hj Hj'). lia.
  - by apply bool_decide_eq_true.
  - apply bool_decide_eq_true. rewrite (take_S_r _ _ _ Hj). apply elem_of_app. right. by left.
  - intros x Hx. split; [apply bool_decide_eq_false; congruence|]. apply bool_decide_ext.
    rewrite (take_S_r _ _ _ Hj), elem_of_app, list_elem_of_singleton. tauto.
Qed.

Lemma order_done th order j x : in_order th order → order !! j = None → (x < td_toks_stop th)%nat → bool_decide (x ∈ take j order) = true.
Proof. intros Ho Hj Hx. apply bool_decide_eq_true. rewrite take_ge by (by apply lookup_ge_None_1). by apply (order_lt th). Qed.

(** The start of the release of what was taken. *)
Lemma undo_held n a order j x : held n (undo_from a order j) x = bool_decide (x ∈ take j order) ∧ pending n (undo_from a order j) x = false.
Proof.
  destruct j as [|j]; cbn [undo_from held pending leaving]; [|by rewrite andb_false_r]. split; [|done]. symmetry. apply bool_decide_eq_false.
  rewrite take_0. apply not_elem_of_nil.
Qed.

(** The next reference, or the return. *)
Definition next_place (lwkt_token_spin : Z) (a : after) (order : list nat) (j : nat) (th : thread) : place :=
  match order !! j with
  | Some i => GetAll a order j (spin_for lwkt_token_spin th i) TryCount
  | None => Resumed a
  end.

Lemma getall_from_next spin a order j th : getall_from spin a order j th = set_place (next_place spin a order j th) th.
Proof. unfold getall_from, next_place. by destruct (order !! j). Qed.

Lemma next_held spin a order j th n x : in_order th order → n = td_toks_stop th → (x < n)%nat →
  held n (next_place spin a order j th) x = bool_decide (x ∈ take j order) ∧ pending n (next_place spin a order j th) x = false.
Proof.
  intros Ho -> Hx. unfold next_place. destruct (order !! j) as [i|] eqn:Hj; cbn [held pending taking].
  - by rewrite !andb_false_r, orb_false_r.
  - by rewrite (order_done th order j x).
Qed.

Section getall.
Context (tk : tokens) (T : gmap Z view) (td : Z) (th : thread).
Context (HT : ∀ k, TokS k (tk k) T) (Htd : T !! td = Some (view_of th)) (Hok : thread_ok th) (Hsize : Z.of_nat (size T) < 2 ^ 50).
Context (lwkt_token_spin : Z) (spinning : bool).

Lemma next_good a order j th' : td_toks_have th' = None → (td_toks_stop th' ≤ LWKT_MAXTOKENS)%nat → dup_free th' → after_ok th' a →
  in_order th' order → thread_ok (getall_from lwkt_token_spin a order j th').
Proof.
  intros Hh Hs Hd Ha Ho. rewrite getall_from_next. split; [done|]. split; [done|]. unfold place_ok, next_place. cbn [td_place set_place].
  destruct (order !! j) as [i|] eqn:Hj; [|done]. split_and!; try done. destruct (order_at th' order j i Ho Hj) as (Hi & _).
  destruct (lookup_lt_is_Some_2 (td_toks th') i) as [ref Hr]; [done|]. exists i, (flagged ref). split; [done|]. by exists ref.
Qed.

Lemma undo_start a order j : dup_free th → after_ok th a → in_order th order → (j ≤ length order)%nat →
  thread_ok (set_place (undo_from a order j) th).
Proof.
  intros Hd Ha Ho Hj. apply (place_good th Hok). destruct j as [|j]; [done|]. cbn [undo_from]. split_and!; try done.
  destruct (lookup_lt_is_Some_2 order j) as [i Hi]; [lia|]. destruct (order_at th order j i Ho Hi) as (Hlt & _ & _ & Hin & _).
  destruct (lookup_lt_is_Some_2 (td_toks th) i) as [ref Hr]; [done|]. exists i. split; [done|].
  apply (held_releasing (set_place _ th) i ref Hr); [done|]. unfold pending_by. cbn. by rewrite andb_false_r.
Qed.

Lemma switched_good a : td_place th = Switched a → step_good T td (exec lwkt_token_spin td spinning th tk).
Proof.
  intros Hp. pose proof Hok as (Hhave & Hstop & Hpl). unfold place_ok in Hpl. rewrite Hp in Hpl. destruct Hpl as (Hd & Ha).
  unfold exec. rewrite Hp. unfold lwkt_getalltokens. set (order := if spinning then _ else _).
  assert (Ho : in_order th order) by (unfold order; destruct spinning; [apply sort_array_perm|unfold in_order; done]).
  apply (same_good tk T td th HT Htd); [|by apply next_good]. intros j. rewrite getall_from_next. apply view_same; [done|].
  intros ref Hr%lookup_stop. unfold held_by, pending_by. rewrite Hp, stop_place. cbn [td_place set_place].
  rewrite (proj1 (next_held lwkt_token_spin a order 0 th _ j Ho eq_refl Hr)). split; [|done]. apply bool_decide_eq_false. rewrite take_0. apply not_elem_of_nil.
Qed.

Lemma getall_good a order j spin t : td_place th = GetAll a order j spin t → step_good T td (exec lwkt_token_spin td spinning th tk).
Proof.
  intros Hp. pose proof Hok as (Hhave & Hstop & Hpl). unfold place_ok in Hpl. rewrite Hp in Hpl.
  destruct Hpl as (Hd & Ha & Ho & i & x & Hj & ref & Href & Hf & Htry). subst x.
  destruct (order_at th order j i Ho Hj) as (Hi & Hnin & Hat & Hin & Hoth).
  unfold exec. rewrite Hp, Hj, Href.
  assert (Hvi : flagged ref = true → view_of th i = if taking t then Excl (tr_tok ref) true else No).
  { intros E. unfold view_of, held_by, pending_by. rewrite Href, Hp. cbn [held pending]. rewrite Hnin, Hat, E. by destruct (taking t). }
  assert (Hmine : flagged ref = true → ¬ mine (view_of th) (tr_tok ref)).
  { intros E [l Hl]. destruct (view_excl th l _ _ Hl) as (r & Hr & Hk & Hfr & _). assert (l = i) as -> by (by apply (Hd l i r ref)).
    rewrite (Hvi E) in Hl. by destruct (taking t). }
  apply (try_at_good tk T td th HT Htd Hok Hsize _ _ _ _ _ _ ref); try done.
  - intros t'. cbn [held pending]. rewrite Hnin, Hat. split_and!; [done..|]. intros x Hx _. unfold held_by, pending_by. rewrite Hp.
    cbn [held pending]. by rewrite !(proj1 (Hoth x Hx)).
  - intros t' Ht. apply (place_good th Hok). split_and!; try done. exists i, (flagged ref). by split.
  - intros ref' Hk Hr th'.
    assert (Hfl : flagged ref' = flagged ref) by (destruct Hr as [->|[M ->]]; [done|]; destruct (flagged ref); [by destruct Hmine|done]).
    unfold th'. set (th0 := Thread _ _ _). assert (Hn0 : td_toks_stop th0 = td_toks_stop th) by apply length_insert.
    assert (Ho0 : in_order th0 order) by (unfold in_order; by rewrite Hn0).
    assert (Hl0 : ∀ l r, td_toks th0 !! l = Some r → ∃ r0, td_toks th !! l = Some r0 ∧ tr_tok r = tr_tok r0 ∧ flagged r = flagged r0).
    { intros l r Hr0. apply list_lookup_insert_Some in Hr0 as [(<- & <- & _)|[_ Hr0]]; [by exists ref|by exists r]. }
    destruct (view_taken th (next_place lwkt_token_spin a order (S j) th0) i ref ref' Href Hk) as [H1 H2].
    + intros x Hx Hlt. rewrite <- Hn0. destruct (next_held lwkt_token_spin a order (S j) th0 _ x Ho0 eq_refl) as [-> ->]; [by rewrite Hn0|].
      unfold held_by, pending_by. rewrite Hp. cbn [held pending]. rewrite !(proj1 (Hoth x Hx)). cbn. rewrite orb_false_r. by rewrite (proj2 (Hoth x Hx)).
    + rewrite <- Hn0. destruct (next_held lwkt_token_spin a order (S j) th0 _ i Ho0 eq_refl) as [-> _]; [by rewrite Hn0|done].
    + rewrite <- Hn0. by destruct (next_held lwkt_token_spin a order (S j) th0 _ i Ho0 eq_refl) as [_ ->]; [rewrite Hn0|].
    + rewrite getall_from_next. split; [exact H1|]. split; [exact H2|]. rewrite <- getall_from_next. apply next_good; try done; [by rewrite Hn0| |].
      * intros l m r r' Hl Hm E F F'. destruct (Hl0 l r Hl) as (r0 & L1 & E1 & F1). destruct (Hl0 m r' Hm) as (r0' & L2 & E2 & F2).
        apply (Hd l m r0 r0'); congruence.
      * intros E. destruct (Ha E) as (r0 & L & F). rewrite Hn0. destruct (decide (i = td_toks_stop th - 1)%nat) as [Ei|Ei].
        -- exists ref'. rewrite <- Ei. split; [apply list_lookup_insert_eq; by eapply lookup_lt_Some|]. rewrite Hfl. congruence.
        -- exists r0. split; [|done]. cbn [td_toks th0]. by rewrite list_lookup_insert_ne.
  - intros _. destruct (spin >? 0).
    + destruct (view_left th (GetAll a order j (spin - 1) TryCount) i) as [H1 H2].
      * intros x Hx _. unfold held_by, pending_by. rewrite Hp. cbn [held pending]. by rewrite !(proj1 (Hoth x Hx)).
      * cbn [held taking]. by rewrite Hnin, andb_false_r.
      * split; [done|]. split; [done|]. apply (place_good th Hok). split_and!; try done. exists i, (flagged ref). split; [done|]. by exists ref.
    + destruct (view_left th (undo_from a order j) i) as [H1 H2].
      * intros x Hx _. destruct (undo_held (td_toks_stop th) a order j x) as [-> ->]. unfold held_by, pending_by. rewrite Hp. cbn [held pending].
        by rewrite !(proj1 (Hoth x Hx)), orb_false_r.
      * by rewrite (proj1 (undo_held _ _ _ _ _)).
      * split; [done|]. split; [done|]. apply undo_start; try done. apply lookup_lt_Some in Hj. lia.
Qed.

Lemma undo_good a order j r : td_place th = Undo a order j r → step_good T td (exec lwkt_token_spin td spinning th tk).
Proof.
  intros Hp. pose proof Hok as (Hhave & Hstop & Hpl). unfold place_ok in Hpl. rewrite Hp in Hpl.
  destruct Hpl as (Hd & Ha & Ho & i & Hj & ref & Href & Hrel). destruct (order_at th order j i Ho Hj) as (Hi & Hnin & Hat & Hin & Hoth).
  unfold exec. rewrite Hp, Hj. apply (rel_at_good tk T td th HT Htd Hok Hsize _ _ _ _ ref); try done.
  - intros r'. cbn [held pending]. rewrite Hin, Hat. split_and!; [done..|]. intros x Hx _. unfold held_by, pending_by. rewrite Hp.
    cbn [held pending]. by rewrite !(proj1 (Hoth x Hx)).
  - intros r' Hr. apply (place_good th Hok). split_and!; try done. by exists i.
  - destruct (view_left th (undo_from a order j) i) as [H1 H2].
    + intros x Hx _. destruct (undo_held (td_toks_stop th) a order j x) as [-> ->]. unfold held_by, pending_by. rewrite Hp. cbn [held pending].
      by rewrite !(proj1 (Hoth x Hx)), (proj2 (Hoth x Hx)).
    + by rewrite (proj1 (undo_held _ _ _ _ _)).
    + split; [done|]. split; [done|]. apply undo_start; try done. apply lookup_lt_Some in Hj. lia.
Qed.

(** ** Every access *)

Lemma tok_exec_good : step_good T td (exec lwkt_token_spin td spinning th tk).
Proof.
  destruct (td_place th) eqn:Hp.
  - unfold exec. rewrite Hp. by apply (same_good tk T td th HT Htd).
  - by eapply get_good.
  - by eapply try_good_place.
  - by eapply rel_good_place.
  - by eapply relall_good.
  - by eapply switched_good.
  - by eapply getall_good.
  - by eapply undo_good.
  - by eapply resumed_good.
Qed.

End getall.

End TokenOrder.
