(* ===== verification/TokenInv.v ===== *)
(** The invariant of the threads that share tokens, and what it says. *)

From stdpp Require Import base functions list gmap.
From S2P Require Import Prelude Token TokenTheory TokenSystem TokenSafe TokenThreads TokenSteps TokenOrder.

Module TokenInv.
Import Token TokenTheory TokenSystem TokenSafe TokenThreads TokenSteps TokenOrder.

(** * The invariant *)

Definition views (s : system) : gmap Z view := view_of <$> threads s.

Record sys_ok (s : system) : Prop := {
  ok_toks : ∀ k, TokS k (toks s k) (views s);
  ok_threads : ∀ td th, threads s !! td = Some th → thread_ok th;
  ok_size : Z.of_nat (size (threads s)) < 2 ^ 50
}.

Lemma tok_views_lookup s td th : threads s !! td = Some th → views s !! td = Some (view_of th).
Proof. intros H. unfold views. by rewrite lookup_fmap, H. Qed.

Lemma views_size s : size (views s) = size (threads s).
Proof. apply map_size_fmap. Qed.

Lemma V_views s td th : threads s !! td = Some th → V (views s) td = view_of th.
Proof. intros H. by apply tok_V_lookup, tok_views_lookup. Qed.

Section system.
Context (lwkt_token_spin : Z).

Lemma tok_initial_ok s : initial s → sys_ok s.
Proof.
  intros (Hk & Ht & Hs). assert (Hv : ∀ u i, V (views s) u i = No).
  { intros u i. unfold V, views. rewrite lookup_fmap. destruct (threads s !! u) as [th|] eqn:E; [|done]. cbn. by rewrite (Ht u th E). }
  split; [|intros td th H; rewrite (Ht td th H); split; [done|]; split; [unfold td_toks_stop; cbn; unfold LWKT_MAXTOKENS; lia|done]|done].
  intros k. exists 0, false, None. rewrite Hk. split; [done| |intros u i; by rewrite Hv|intros u i p; by rewrite Hv|done].
  apply map_sum_zero. intros u v Hu. apply shared_in_zero. intros j E. specialize (Hv u j). rewrite (tok_V_lookup _ _ _ Hu) in Hv. congruence.
Qed.

(** A thread of the system runs. *)
Lemma tok_exec_ok s td th spinning : sys_ok s → threads s !! td = Some th →
  step_good (views s) td (exec lwkt_token_spin td spinning th (toks s)).
Proof.
  intros [H1 H2 H3] Htd. apply tok_exec_good; [done|by apply tok_views_lookup|by apply (H2 td)|by rewrite views_size].
Qed.

Lemma tok_call_ok s td th o : sys_ok s → threads s !! td = Some th → outside (td_place th) = true → careful td th o →
  step_good (views s) td (call lwkt_token_spin td o th (toks s)).
Proof.
  intros [H1 H2 H3] Htd Hp Hc. apply call_good; [done|by apply tok_views_lookup|by apply (H2 td)| |done]. by destruct (td_place th).
Qed.

Lemma tok_good_ok s td th o : sys_ok s → threads s !! td = Some th → step_good (views s) td o →
  ∀ th' tk', o = Ok (th', tk') → sys_ok (System tk' (<[td := th']> (threads s))).
Proof.
  intros [H1 H2 H3] Htd (th2 & tk2 & -> & Hok & HT) th' tk' [= <- <-]. split; cbn [toks threads].
  - intros k. unfold views. cbn [threads]. rewrite fmap_insert. apply HT.
  - intros u thu. destruct (decide (u = td)) as [->|]; [rewrite lookup_insert_eq; by intros [= <-]|rewrite lookup_insert_ne by done; apply H2].
  - rewrite map_size_insert_Some; [done|by exists th].
Qed.

Lemma tok_step_ok s s' : sys_ok s → step lwkt_token_spin s s' → sys_ok s'.
Proof.
  intros Hok Hs. destruct Hs as [td th o th' tk Htd Hp Hc E|td th sp th' tk Htd Hp E].
  - eapply tok_good_ok; [done|exact Htd| |exact E]. by apply (tok_call_ok s td th o).
  - eapply tok_good_ok; [done|exact Htd| |exact E]. by apply tok_exec_ok.
Qed.

Lemma tok_reachable_ok s0 s : initial s0 → rtc (step lwkt_token_spin) s0 s → sys_ok s.
Proof. intros H0%tok_initial_ok Hs. induction Hs; [done|]. apply IHHs. by eapply tok_step_ok. Qed.

End system.

(** ** What the invariant says *)

(** One reference of a system. *)
Definition holds (s : system) (u : Z) (i : nat) (ref : lwkt_tokref) : Prop :=
  ∃ th, threads s !! u = Some th ∧ td_toks th !! i = Some ref ∧ held_by th i = true.

Lemma holds_view s u i ref : holds s u i ref → ∃ p, V (views s) u i = if flagged ref then Excl (tr_tok ref) p else Shared (tr_tok ref).
Proof.
  intros (th & Hu & Hi & Hh). exists (pending_by th i). rewrite (V_views s u th Hu). by apply view_held.
Qed.

Lemma view_holds s u j k x : V (views s) u j = x → about k x →
  ∃ ref, holds s u j ref ∧ tr_tok ref = k ∧ flagged ref = match x with Excl _ _ => true | _ => false end.
Proof.
  intros E Hx. unfold V, views in E. rewrite lookup_fmap in E. destruct (threads s !! u) as [th|] eqn:Hu; cbn in E; [|by subst x].
  unfold view_of in E. destruct (td_toks th !! j) as [ref|] eqn:Hj; [|by subst x]. destruct (held_by th j) eqn:Hh; [|by subst x].
  exists ref. split; [by exists th|]. by destruct (flagged ref); subst x.
Qed.

Lemma tok_steps_ok spin s s' : sys_ok s → rtc (step spin) s s' → sys_ok s'.
Proof. intros H Hs. induction Hs; [done|]. apply IHHs. by eapply tok_step_ok. Qed.

Lemma ok_exclusive s u i ref u' j ref' : sys_ok s → holds s u i ref → holds s u' j ref' → tr_tok ref = tr_tok ref' → flagged ref = true →
  u' = u ∧ (flagged ref' = true → j = i).
Proof.
  intros Hok H1 H2 Hk Hf. destruct (ok_toks s Hok (tr_tok ref)) as (c & q & h & Hg).
  destruct (holds_view s u i ref H1) as [p E1]. destruct (holds_view s u' j ref' H2) as [p' E2]. rewrite Hf in E1. rewrite <- Hk in E2.
  destruct (excl_holder _ _ _ _ _ _ Hg u i p E1) as [-> _]. destruct (flagged ref') eqn:Ef.
  - destruct (excl_holder _ _ _ _ _ _ Hg u' j p' E2) as [E _]. by injection E as <- <-.
  - pose proof (g_ref _ _ _ _ _ _ Hg) as (p2 & _ & _ & Hs). split; [by eapply Hs|done].
Qed.

(** The references of a thread outside. *)
Lemma outside_holds s td th i ref : threads s !! td = Some th → td_place th = Outside → td_toks th !! i = Some ref → holds s td i ref.
Proof. intros Htd Hp Hi. exists th. split_and!; [done..|]. unfold held_by. by rewrite Hp. Qed.

End TokenInv.
