(* ===== verification/TokenLive.v ===== *)
(** A thread that takes its tokens again while no other thread has them. *)

From stdpp Require Import base functions list gmap sorting.
From S2P Require Import Prelude Token TokenTheory TokenSystem TokenSafe TokenThreads TokenSteps TokenOrder TokenInv.

Module TokenLive.
Import Token TokenTheory TokenSystem TokenSafe TokenThreads TokenSteps TokenOrder TokenInv.

(** The exclusive reference to a token is the deepest one to it. *)
Definition deepest (th : thread) : Prop := ∀ i j r r', td_toks th !! i = Some r → td_toks th !! j = Some r' →
  tr_tok r = tr_tok r' → flagged r' = true → (j ≤ i)%nat.

(** References to the same token are taken in the order of the stack. *)
Definition stack_order (th : thread) (order : list nat) : Prop := ∀ x y l i r r', order !! x = Some l → order !! y = Some i → (x < y)%nat →
  td_toks th !! l = Some r → td_toks th !! i = Some r' → tr_tok r = tr_tok r' → (l < i)%nat.

Lemma seq_stack_order th n : stack_order th (seq 0 n).
Proof. intros x y l i r r' [-> _]%lookup_seq [-> _]%lookup_seq ? _ _ _. lia. Qed.

Lemma sorted_stack_order th : stack_order th (sort_array (td_toks th)).
Proof.
  intros x y l i r r' Hx Hy Hxy Hl Hi Hk. destruct (sort_array_before (td_toks th) x y l i Hx Hy Hxy) as [Hb|[_ Hb]]; [|done].
  unfold tok_at in Hb. rewrite Hl, Hi, Hk in Hb. lia.
Qed.

Section alone.
Context (lwkt_token_spin td : Z) (spinning : bool) (T : gmap Z thread).

(** Accesses of the thread, with nothing in between. *)
Definition accesses (m : nat) : list event := replicate m (Access td spinning).

Definition state (th : thread) (tk : tokens) : system := System tk (<[td := th]> T).

Lemma access_one m th tk th' tk' : outside (td_place th) = false → exec lwkt_token_spin td spinning th tk = Ok (th', tk') →
  schedule lwkt_token_spin (accesses (S m)) (state th tk) = schedule lwkt_token_spin (accesses m) (state th' tk').
Proof.
  intros Hp E. unfold accesses, state. cbn [replicate schedule happen threads toks]. rewrite lookup_insert_eq. cbn [mbind option_bind].
  rewrite Hp, E. by rewrite insert_insert_eq.
Qed.

Context (a : after) (order : list nat).

Section reference.
Context (th : thread) (j i : nat) (ref : lwkt_tokref) (Hj : order !! j = Some i) (Href : td_toks th !! i = Some ref) (spin : Z).

Definition trying_place (t : trying) : thread := set_place (GetAll a order j spin t) th.

Lemma getall_go m t t' tk tk' : _lwkt_trytokref td (td_toks_stop th) i (tr_count ref) t ref tk = Ok (Goes t', ref, tk') →
  schedule lwkt_token_spin (accesses (S m)) (state (trying_place t) tk) = schedule lwkt_token_spin (accesses m) (state (trying_place t') tk').
Proof.
  intros E. apply access_one; [done|]. unfold exec. change (td_toks (trying_place t)) with (td_toks th).
  change (td_place (trying_place t)) with (GetAll a order j spin t). cbv iota. rewrite Hj, Href. unfold try_at.
  change (td_toks (trying_place t)) with (td_toks th). change (td_toks_stop (trying_place t)) with (td_toks_stop th). rewrite Href, E. cbn. by rewrite list_insert_id.
Qed.

Lemma getall_yes m t tk tk' : _lwkt_trytokref td (td_toks_stop th) i (tr_count ref) t ref tk = Ok (Answer true, ref, tk') →
  schedule lwkt_token_spin (accesses (S m)) (state (trying_place t) tk) =
  schedule lwkt_token_spin (accesses m) (state (set_place (next_place lwkt_token_spin a order (S j) th) th) tk').
Proof.
  intros E. apply access_one; [done|]. unfold exec. change (td_toks (trying_place t)) with (td_toks th).
  change (td_place (trying_place t)) with (GetAll a order j spin t). cbv iota. rewrite Hj, Href. unfold try_at.
  change (td_toks (trying_place t)) with (td_toks th). change (td_toks_stop (trying_place t)) with (td_toks_stop th). rewrite Href, E. cbn. rewrite list_insert_id by done. by rewrite getall_from_next.
Qed.

End reference.

Lemma set_count_ref k c tk : t_ref (set_count k c tk k) = t_ref (tk k).
Proof. unfold set_count, set_tok. by rewrite decide_True. Qed.

(** What the thread has while it tries reference [i], and what others have. *)
Section attempt.
Context (th : thread) (j i : nat) (ref : lwkt_tokref) (Hj : order !! j = Some i) (Href : td_toks th !! i = Some ref) (spin : Z) (tk : tokens).
Context (Ho : in_order th order) (Hd : dup_free th) (Hdeep : deepest th) (Hstack : stack_order th order).

Definition trying_state : system := state (trying_place th j spin TryCount) tk.

Context (Hok : sys_ok trying_state) (Hfree : ∀ u l r, u ≠ td → holds trying_state u l r → tr_tok r ≠ tr_tok ref).

Lemma own_before u l x : V (views trying_state) u l = x → about (tr_tok ref) x →
  u = td ∧ pending_by (trying_place th j spin TryCount) l = false ∧ ∃ r y, td_toks th !! l = Some r ∧ tr_tok r = tr_tok ref ∧
    flagged r = match x with Excl _ _ => true | _ => false end ∧ order !! y = Some l ∧ (y < j)%nat.
Proof.
  intros E Hx. destruct (view_holds _ u l _ x E Hx) as (r & Hh & Hk & Hf). destruct (decide (u = td)) as [->|Hne]; [|by destruct (Hfree u l r Hne Hh)].
  split; [done|]. destruct Hh as (th' & Hu & Hl & Hh). unfold trying_state, state in Hu. cbn [threads] in Hu. rewrite lookup_insert_eq in Hu.
  injection Hu as <-. unfold held_by in Hh. cbn [td_place trying_place set_place held taking] in Hh. rewrite andb_false_r, orb_false_r in Hh.
  apply bool_decide_eq_true, elem_of_take in Hh as (y & Hy & Hlt). split; [|by exists r, y]. unfold pending_by. cbn [td_place trying_place set_place pending taking].
  apply andb_false_r.
Qed.

Lemma attempt_excl : flagged ref = true → ∃ tk', ∀ m,
  schedule lwkt_token_spin (accesses (5 + m)) trying_state =
  schedule lwkt_token_spin (accesses m) (state (set_place (next_place lwkt_token_spin a order (S j) th) th) tk').
Proof.
  intros Hf. set (k := tr_tok ref) in *. destruct (ok_toks _ Hok k) as (c & q & h & Hg).
  assert (h = None) as ->.
  { destruct h as [[u l]|]; [|done]. destruct (g_ref _ _ _ _ _ _ Hg) as (p & Hp & _). destruct (own_before u l _ Hp eq_refl) as (-> & _ & r & y & Hl & Hk & Hfr & Hy & Hlt).
    assert (l = i) as -> by (by apply (Hd l i r ref)). pose proof (NoDup_lookup order y j i ltac:(rewrite Ho; apply NoDup_seq) Hy Hj). lia. }
  assert (c = 0) as ->.
  { rewrite <- (g_sum _ _ _ _ _ _ Hg). apply map_sum_zero. intros u v Hu. apply shared_in_zero. intros l E.
    destruct (own_before u l (Shared k)) as (-> & _ & r & y & Hl & Hk & _ & Hy & Hlt); [by rewrite (tok_V_lookup _ _ _ Hu)|done|].
    pose proof (Hstack y j l i r ref Hy Hj Hlt Hl Href Hk). pose proof (Hdeep l i r ref Hl Href Hk Hf). lia. }
  pose proof (g_word _ _ _ _ _ _ Hg) as Hw. pose proof (g_ref _ _ _ _ _ _ Hg) as Hr. cbn in Hw, Hr.
  eexists. intros m. unfold trying_state. cbn [plus].
  rewrite (getall_go th j i ref Hj Href spin _ TryCount (TryRef (word 0 q false)) tk tk) by (cbn; fold k; by rewrite Hw).
  rewrite (getall_go th j i ref Hj Href spin _ _ (TryExcl (word 0 q false)) tk tk).
  2:{ cbn. unfold flagged in Hf. rewrite Hf. rewrite (proj2 (Z.eqb_eq _ _)); [done|by apply word_free]. }
  rewrite (getall_go th j i ref Hj Href spin _ _ TryCheck tk (set_count k (Z.lor (Z.ldiff (word 0 q false) TOK_EXCLREQ) TOK_EXCLUSIVE) tk)).
  2:{ cbn. unfold cmpset. fold k. rewrite Hw. by rewrite Z.eqb_refl. }
  rewrite (getall_go th j i ref Hj Href spin _ _ TryStore _ (set_count k (Z.lor (Z.ldiff (word 0 q false) TOK_EXCLREQ) TOK_EXCLUSIVE) tk)).
  2:{ cbv beta iota zeta delta [_lwkt_trytokref]. fold k. by rewrite set_count_ref, Hr. }
  by rewrite (getall_yes th j i ref Hj Href spin _ TryStore _ _ eq_refl).
Qed.

Lemma attempt_shared : flagged ref = false → ∃ tk', ∀ m,
  schedule lwkt_token_spin (accesses (3 + m)) trying_state =
  schedule lwkt_token_spin (accesses m) (state (set_place (next_place lwkt_token_spin a order (S j) th) th) tk').
Proof.
  intros Hf. set (k := tr_tok ref) in *. destruct (ok_toks _ Hok k) as (c & q & h & Hg).
  pose proof (g_word _ _ _ _ _ _ Hg) as Hw. pose proof (g_ref _ _ _ _ _ _ Hg) as Hr. destruct h as [[u l]|]; cbn in Hw.
  - destruct Hr as (p & Hp & Hr & _). destruct (own_before u l _ Hp eq_refl) as (-> & Hpe & r & y & Hl & Hk & Hfr & Hy & Hlt).
    assert (p = false) as ->.
    { rewrite (V_views _ td (trying_place th j spin TryCount)) in Hp by (unfold trying_state, state; cbn [threads]; apply lookup_insert_eq).
      by rewrite <- (view_pending _ _ _ _ Hp). }
    change (t_ref (tk k) = Some (td, l)) in Hr. eexists. intros m. unfold trying_state. cbn [plus].
    rewrite (getall_go th j i ref Hj Href spin _ TryCount (TryRef (word c q true)) tk tk) by (cbn; fold k; by rewrite Hw).
    rewrite (getall_go th j i ref Hj Href spin _ _ TryAgain tk tk).
    2:{ cbn. unfold flagged in Hf. rewrite Hf, word_excl. cbn. fold k. rewrite Hr. unfold own. by rewrite Z.eqb_refl, (proj2 (Nat.ltb_lt _ _) (lookup_stop th l r Hl)). }
    rewrite (getall_yes th j i ref Hj Href spin _ TryAgain _ (set_count k (s64 (t_count (tk k) + TOK_INCR)) tk)); [done|].
    cbn. unfold flagged in Hf. by rewrite Hf.
  - eexists. intros m. unfold trying_state. cbn [plus].
    rewrite (getall_go th j i ref Hj Href spin _ TryCount (TryRef (word c q false)) tk tk) by (cbn; fold k; by rewrite Hw).
    rewrite (getall_go th j i ref Hj Href spin _ _ (TryShared (word c q false)) tk tk).
    2:{ cbn. unfold flagged in Hf. by rewrite Hf, word_excl. }
    rewrite (getall_yes th j i ref Hj Href spin _ _ _ (set_count k (s64 (word c q false + TOK_INCR)) tk)); [done|].
    cbn. unfold cmpset. fold k. by rewrite Hw, Z.eqb_refl.
Qed.

Lemma attempt : ∃ m' tk', (m' ≤ 5)%nat ∧ ∀ m,
  schedule lwkt_token_spin (accesses (m' + m)) trying_state =
  schedule lwkt_token_spin (accesses m) (state (set_place (next_place lwkt_token_spin a order (S j) th) th) tk').
Proof.
  destruct (flagged ref) eqn:Hf.
  - destruct (attempt_excl Hf) as [tk' E]. exists 5%nat, tk'. split; [done|]. apply E.
  - destruct (attempt_shared Hf) as [tk' E]. exists 3%nat, tk'. split; [lia|]. apply E.
Qed.

End attempt.

(** All references, one after the other. *)
Section all.
Context (th : thread) (Ho : in_order th order) (Hd : dup_free th) (Hdeep : deepest th) (Hstack : stack_order th order).
Context (Hfree : ∀ u thu l r i ref, u ≠ td → T !! u = Some thu → td_toks thu !! l = Some r → held_by thu l = true →
  td_toks th !! i = Some ref → tr_tok r ≠ tr_tok ref).

Definition next_state (j : nat) (tk : tokens) : system := state (set_place (next_place lwkt_token_spin a order j th) th) tk.

Lemma schedule_ok m s s' : sys_ok s → schedule lwkt_token_spin (accesses m) s = Some s' → sys_ok s'.
Proof. intros Hok Hs. by apply (tok_steps_ok lwkt_token_spin s s' Hok), (tok_schedule_steps lwkt_token_spin (accesses m)). Qed.

Lemma reacquire n j tk : (length order = j + n)%nat → sys_ok (next_state j tk) → ∃ m' tk', (m' ≤ 5 * n)%nat ∧ sys_ok (next_state (j + n) tk') ∧
  ∀ m, schedule lwkt_token_spin (accesses (m' + m)) (next_state j tk) = schedule lwkt_token_spin (accesses m) (next_state (j + n) tk').
Proof.
  revert j tk. induction n as [|n IH]; intros j tk Hn Hok.
  - exists 0%nat, tk. rewrite Nat.add_0_r. by split_and!.
  - destruct (lookup_lt_is_Some_2 order j) as [i Hj]; [lia|]. destruct (order_at th order j i Ho Hj) as (Hi & _).
    destruct (lookup_lt_is_Some_2 (td_toks th) i) as [ref Href]; [done|].
    assert (E : next_state j tk = trying_state th j (spin_for lwkt_token_spin th i) tk) by (unfold next_state, next_place; by rewrite Hj).
    destruct (attempt th j i ref Hj Href (spin_for lwkt_token_spin th i) tk Ho Hd Hdeep Hstack) as (m1 & tk1 & Hm1 & E1).
    + by rewrite <- E.
    + intros u l r Hne (thu & Hu & Hl & Hh). cbn [threads trying_state state] in Hu. rewrite lookup_insert_ne in Hu by done.
      by apply (Hfree u thu l r i ref).
    + rewrite <- E in E1. assert (Hok1 : sys_ok (next_state (S j) tk1)).
      { apply (schedule_ok m1 (next_state j tk)); [done|]. by rewrite <- (Nat.add_0_r m1), E1. }
      destruct (IH (S j) tk1) as (m2 & tk2 & Hm2 & Hok2 & E2); [lia|done|].
      replace (j + S n)%nat with (S j + n)%nat by lia. exists (m1 + m2)%nat, tk2. split; [lia|]. split; [done|].
      intros m. rewrite <- Nat.add_assoc, E1. apply E2.
Qed.

(** The thread returns from lwkt_switch. *)
Lemma resumed_access tk : sys_ok (state (set_place (Resumed a) th) tk) →
  ∀ m, schedule lwkt_token_spin (accesses (S m)) (state (set_place (Resumed a) th) tk) = schedule lwkt_token_spin (accesses m) (state (set_place Outside th) tk).
Proof.
  intros Hok m. apply access_one; [done|].
  destruct (tok_exec_ok lwkt_token_spin _ td (set_place (Resumed a) th) spinning Hok) as (th' & tk' & E & _); [apply lookup_insert_eq|].
  change (toks (state (set_place (Resumed a) th) tk)) with tk in E. rewrite E. revert E. unfold exec. cbn [td_place set_place].
  destruct a as [|[]]; [by intros [= <- <-]| |by intros [= <- <-]]. destruct (td_toks _ !! _); [|done]. unfold kkassert.
  destruct (bool_decide _); [by intros [= <- <-]|done].
Qed.

End all.

End alone.

(** A thread that was switched out. *)
Lemma switched_alone spin td sp s th a : sys_ok s → threads s !! td = Some th → td_place th = Switched a → deepest th →
  (∀ u i ref l r, u ≠ td → holds s u i ref → td_toks th !! l = Some r → tr_tok ref ≠ tr_tok r) →
  ∃ m tk', (m ≤ 2 + 5 * length (td_toks th))%nat ∧
    schedule spin (replicate m (Access td sp)) s = Some (System tk' (<[td := set_place Outside th]> (threads s))).
Proof.
  intros Hok Htd Hp Hdeep Hfree. set (T := threads s). set (order := if sp then sort_array (td_toks th) else seq 0 (td_toks_stop th)).
  pose proof (ok_threads s Hok td th Htd) as (_ & _ & Hpl). unfold place_ok in Hpl. rewrite Hp in Hpl. destruct Hpl as [Hd Ha].
  assert (Ho : in_order th order) by (unfold order; destruct sp; [apply sort_array_perm|unfold in_order; done]).
  assert (Hs : stack_order th order) by (unfold order; destruct sp; [apply sorted_stack_order|apply seq_stack_order]).
  assert (Es : s = state td T th (toks s)) by (unfold state, T; rewrite insert_id by done; by destruct s).
  assert (E1 : ∀ m, schedule spin (accesses td sp (S m)) s = schedule spin (accesses td sp m) (next_state spin td T a order th 0 (toks s))).
  { intros m. rewrite Es at 1. unfold next_state. rewrite <- getall_from_next. apply access_one; [by rewrite Hp|]. unfold exec. by rewrite Hp. }
  assert (Hn : length order = td_toks_stop th) by (rewrite Ho; apply length_seq).
  destruct (reacquire spin td sp T a order th Ho Hd Hdeep Hs) with (n := length order) (j := 0%nat) (tk := toks s) as (m & tk & Hm & Hok2 & E2).
  - intros u thu l r i ref Hne Hu Hl Hh Hi. apply (Hfree u l r i ref Hne); [|done]. by exists thu.
  - done.
  - apply (schedule_ok spin td sp 1 s); [done|]. by rewrite E1.
  - cbn [plus] in Hok2, E2. assert (E3 : next_state spin td T a order th (length order) tk = state td T (set_place (Resumed a) th) tk).
    { unfold next_state, next_place. by rewrite lookup_ge_None_2. }
    rewrite E3 in Hok2. exists (S (m + 1)), tk. split; [unfold td_toks_stop in Hn; lia|]. fold (accesses td sp (S (m + 1))).
    rewrite E1, E2, E3. by rewrite (resumed_access spin td sp T a th tk Hok2).
Qed.

End TokenLive.
