(* ===== verification/TokenProps.v ===== *)
(** LWKT tokens in any interleaving: nothing the code asserts fails, a token
    that is held exclusively is held by one thread, the word counts the shared
    references; what the kernel's questions about tokens answer; the order in
    which the scheduler takes tokens; sharers keep a thread from a token. *)

From stdpp Require Import base functions list gmap sorting.
From S2P Require Import Prelude Token TokenTheory TokenSystem TokenSafe TokenThreads TokenSteps TokenOrder TokenInv TokenLive.

Module TokenProps.
Import Token TokenTheory TokenSystem TokenSafe TokenThreads TokenSteps TokenOrder TokenInv TokenLive.

(** * Properties *)

(** ** Safety *)

(** C8: whatever threads call (within what the functions ask of their callers), however their accesses to
    the tokens interleave and whenever the scheduler sorts: no KKASSERT fails, no index is outside of
    [td_toks_array], every access has a result; and if a thread holds a token by an exclusive reference, every
    reference by which the token is held is of that thread, and the others of them are not exclusive. *)
Theorem token_safe spin s0 s td th : initial s0 → rtc (step spin) s0 s → threads s !! td = Some th →
  (∀ spinning, ∃ r, exec spin td spinning th (toks s) = Ok r) ∧
  (∀ o, outside (td_place th) = true → careful td th o → ∃ r, call spin td o th (toks s) = Ok r) ∧
  (∀ i ref u j ref', holds s td i ref → flagged ref = true → holds s u j ref' → tr_tok ref = tr_tok ref' →
    u = td ∧ (flagged ref' = true → j = i)).
Proof.
  intros H0 Hs Htd. pose proof (tok_reachable_ok spin s0 s H0 Hs) as Hok. split_and!.
  - intros sp. destruct (tok_exec_ok spin s td th sp Hok Htd) as (th' & tk' & E & _). by exists (th', tk').
  - intros o Hp Hc. destruct (tok_call_ok spin s td th o Hok Htd Hp Hc) as (th' & tk' & E & _). by exists (th', tk').
  - intros i ref u j ref' H1 Hf H2 Hk. by apply (ok_exclusive s td i ref u j ref').
Qed.

(** Thread 1 has token 7 exclusively, thread 2 waits for it; thread 1 has it a second time. *)
Definition contention : list event :=
  [Call 1 (OpGet 7); Access 1 false; Access 1 false; Access 1 false; Call 2 (OpGet 7); Access 1 false; Access 1 false;
   Access 2 false; Access 2 false; Access 2 false; Access 2 true; Access 2 true; Access 2 true; Call 1 (OpGetShared 7);
   Access 1 false; Access 1 false; Access 1 false].

Definition contended : system := default (newcomers []) (schedule 0 contention (newcomers [1; 2])).

Lemma contended_reachable : rtc (step 0) (newcomers [1; 2]) contended.
Proof. apply (tok_schedule_steps 0 contention). vm_compute. reflexivity. Qed.

Lemma contended_initial : initial (newcomers [1; 2]).
Proof. by apply tok_newcomers_initial. Qed.

Definition thread_of (s : system) (td : Z) : thread := default lwkt_init_thread (threads s !! td).

Lemma token_safe_witness : (∃ r, exec 0 2 true (thread_of contended 2) (toks contended) = Ok r) ∧ (1 = 1 ∧ (false = true → 1%nat = 0%nat)).
Proof.
  split.
  - refine (proj1 (token_safe 0 (newcomers [1; 2]) contended 2 (thread_of contended 2) contended_initial contended_reachable _) true).
    vm_compute. reflexivity.
  - refine (proj2 (proj2 (token_safe 0 (newcomers [1; 2]) contended 1 (thread_of contended 1) contended_initial contended_reachable _))
      0%nat (Ref 7 3 1) 1 1%nat (Ref 7 2 1) _ eq_refl _ eq_refl); [vm_compute; reflexivity|eexists; vm_compute; done..].
Defined.

(** ** The word *)

(** C14: the word of a token counts the shared references by which threads hold it, its exclusive bit is set
    exactly while a thread holds it exclusively, and [t_ref] of a token that is not held is NULL. *)
Theorem token_word spin s0 s k : initial s0 → rtc (step spin) s0 s →
  t_count (toks s k) / TOK_INCR = map_sum (shared_in k) (views s) ∧
  (has_flag (t_count (toks s k)) TOK_EXCLUSIVE = true ↔ ∃ u i ref, holds s u i ref ∧ tr_tok ref = k ∧ flagged ref = true) ∧
  ((∀ u i ref, holds s u i ref → tr_tok ref ≠ k) → Z.ldiff (t_count (toks s k)) TOK_EXCLREQ = 0 ∧ t_ref (toks s k) = None).
Proof.
  intros H0 Hs. pose proof (tok_reachable_ok spin s0 s H0 Hs) as Hok. destruct (ok_toks s Hok k) as (c & q & h & Hg).
  pose proof (g_word _ _ _ _ _ _ Hg) as Hw. pose proof (g_sum _ _ _ _ _ _ Hg) as Hc. pose proof (g_ref _ _ _ _ _ _ Hg) as Hr.
  assert (He : is_Some h → ∃ u i ref, holds s u i ref ∧ tr_tok ref = k ∧ flagged ref = true).
  { intros [[u i] ->]. destruct Hr as (p & Hp & _). destruct (view_holds s u i k _ Hp eq_refl) as (ref & ?). by exists u, i, ref. }
  split_and!.
  - rewrite Hc, Hw, word_eq. unfold TOK_INCR. destruct q, (bool_decide _); cbn; Z.to_euclidean_division_equations; lia.
  - rewrite Hw, word_excl, bool_decide_eq_true. split; [done|]. intros (u & i & ref & Hh & <- & Hf). destruct (holds_view s u i ref Hh) as [p E].
    rewrite Hf in E. destruct (excl_holder _ _ _ _ _ _ Hg u i p E) as [-> _]. done.
  - intros Hno. destruct h as [x|]; [destruct He as (u & i & ref & Hh & Hk & _); [done|]; by destruct (Hno u i ref Hh)|]. split; [|done].
    rewrite Hw. apply word_free. split; [|done]. rewrite <- Hc. apply map_sum_zero. intros u v Hu. apply shared_in_zero. intros j E.
    destruct (view_holds s u j k (Shared k)) as (ref & Hh & Hk & _); [by rewrite (tok_V_lookup _ _ _ Hu)|done|]. by destruct (Hno u j ref Hh).
Qed.

Lemma token_word_witness : t_count (toks contended 7) / TOK_INCR = 1.
Proof.
  transitivity (map_sum (shared_in 7) (views contended)); [|vm_compute; reflexivity].
  exact (proj1 (token_word 0 (newcomers [1; 2]) contended 7 contended_initial contended_reachable)).
Defined.

(** ** A thread gets its tokens again *)

(** C15: a thread that was switched out, with n references on its stack, returns from lwkt_switch with all of them held
    after at most 2 + 5n accesses of its own, in a run in which no other thread makes an access, if no other thread has
    a token of its and the first of its references to a token is the exclusive one (if one is), in either order that the
    scheduler takes them. *)
Theorem token_reacquired spin s0 s td th a sp : initial s0 → rtc (step spin) s0 s → threads s !! td = Some th →
  td_place th = Switched a → deepest th →
  (∀ u i ref l r, u ≠ td → holds s u i ref → td_toks th !! l = Some r → tr_tok ref ≠ tr_tok r) →
  ∃ m s', (m ≤ 2 + 5 * length (td_toks th))%nat ∧ schedule spin (replicate m (Access td sp)) s = Some s' ∧
    threads s' = <[td := set_place Outside th]> (threads s).
Proof.
  intros H0 Hs Htd Hp Hdeep Hfree. destruct (switched_alone spin td sp s th a) as (m & tk & Hm & E); try done; [by eapply tok_reachable_ok|].
  by exists m, (System tk (<[td := set_place Outside th]> (threads s))).
Qed.

(** Thread 1 releases the token that thread 2 waits for. *)
Definition release : list event :=
  [Call 1 (OpRel 7); Access 1 false; Access 1 false; Access 1 false; Call 1 (OpRel 7); Access 1 false; Access 1 false; Access 1 false; Access 1 false].

Definition released : system := default (newcomers []) (schedule 0 (contention ++ release) (newcomers [1; 2])).

Lemma released_reachable : rtc (step 0) (newcomers [1; 2]) released.
Proof. apply (tok_schedule_steps 0 (contention ++ release)). vm_compute. reflexivity. Qed.

Definition waiter : thread := Thread [Ref 7 3 2] None (Switched (Gettoken true)).

Lemma released_threads : threads released = {[1 := lwkt_init_thread; 2 := waiter]}.
Proof. vm_compute. reflexivity. Qed.

Lemma waiter_deepest : deepest waiter.
Proof. intros i j r r' Hi Hj _ _. apply list_lookup_singleton_Some in Hi as [-> _], Hj as [-> _]. done. Qed.

Lemma released_free u i ref l r : u ≠ 2 → holds released u i ref → td_toks waiter !! l = Some r → tr_tok ref ≠ tr_tok r.
Proof.
  intros Hu (th & Hth & Hi & _) _. rewrite released_threads in Hth. apply lookup_insert_Some in Hth as [[_ <-]|[_ Hth]]; [done|].
  by apply lookup_singleton_Some in Hth as [<- _].
Qed.

Lemma token_reacquired_witness : ∃ m s', (m ≤ 7)%nat ∧ schedule 0 (replicate m (Access 2 true)) released = Some s' ∧
  threads s' = <[2 := set_place Outside waiter]> (threads released).
Proof.
  refine (token_reacquired 0 (newcomers [1; 2]) released 2 waiter (Gettoken true) true contended_initial released_reachable _ eq_refl waiter_deepest released_free).
  by rewrite released_threads.
Defined.

(** ** What the kernel asks *)

(** In a thread that is in none of the functions, [_lwkt_token_held_excl] is true exactly if an exclusive
    reference of the thread is to the token, and [_lwkt_token_held_any] is true if any reference of it is. *)
Theorem token_held spin s0 s td th k : initial s0 → rtc (step spin) s0 s → threads s !! td = Some th → td_place th = Outside →
  (_lwkt_token_held_excl td k th (toks s) = true ↔ ∃ i ref, td_toks th !! i = Some ref ∧ tr_tok ref = k ∧ flagged ref = true) ∧
  (0 < lwkt_cnttoken k th → _lwkt_token_held_any td k th (toks s) = true).
Proof.
  intros H0 Hs Htd Hp. pose proof (tok_reachable_ok spin s0 s H0 Hs) as Hok. destruct (ok_toks s Hok k) as (c & q & h & Hg).
  pose proof (V_views s td th Htd) as HV.
  assert (Hex : ∀ i ref, td_toks th !! i = Some ref → tr_tok ref = k → flagged ref = true → h = Some (td, i) ∧ t_ref (toks s k) = Some (td, i)).
  { intros i ref Hi Hk Hf. apply (excl_holder _ _ _ _ _ _ Hg td i false). by rewrite HV, (view_outside th i ref Hp Hi), Hf, Hk. }
  assert (Hown : ∀ i, t_ref (toks s k) = Some (td, i) → (i < td_toks_stop th)%nat → own td (td_toks_stop th) (t_ref (toks s k)) = true).
  { intros i -> Hi. unfold own. by rewrite Z.eqb_refl, (proj2 (Nat.ltb_lt _ _) Hi). }
  split.
  - unfold _lwkt_token_held_excl. split.
    + unfold own. destruct (t_ref (toks s k)) as [[u i]|] eqn:Er; [|done]. intros [Hu _]%andb_true_iff. bool_prop. subst u.
      destruct (ref_holder _ _ _ _ _ _ Hg td i Er) as [_ E]. rewrite HV in E. destruct (view_excl th i k false E) as (ref & ? & ? & ? & _).
      by exists i, ref.
    + intros (i & ref & Hi & Hk & Hf). destruct (Hex i ref Hi Hk Hf) as [_ Er]. apply (Hown i Er). by apply lookup_stop in Hi.
  - intros Hc. assert (∃ i ref, td_toks th !! i = Some ref ∧ tr_tok ref = k) as (i & ref & Hi & Hk).
    { unfold lwkt_cnttoken in Hc. destruct (filter _ (td_toks th)) as [|ref l] eqn:E; [done|].
      assert (Hin : ref ∈ filter (λ ref, tr_tok ref = k) (td_toks th)) by (rewrite E; by left).
      apply list_elem_of_filter in Hin as [Hk [i Hi]%list_elem_of_lookup_1]. by exists i, ref. }
    unfold _lwkt_token_held_any. apply orb_true_iff. rewrite (g_word _ _ _ _ _ _ Hg), word_excl. destruct (flagged ref) eqn:Hf.
    + left. destruct (Hex i ref Hi Hk Hf) as [_ Er]. apply (Hown i Er). by apply lookup_stop in Hi.
    + assert (Es : V (views s) td i = Shared k) by (by rewrite HV, (view_outside th i ref Hp Hi), Hf, Hk).
      destruct h as [[u j]|].
      * left. pose proof (g_ref _ _ _ _ _ _ Hg) as (p & Ep & Er & Hsh). assert (td = u) as <- by (by eapply Hsh). rewrite HV in Ep.
        destruct (view_excl th j k p Ep) as (r & Hj & Hkj & Hfj & _). destruct (Hex j r Hj Hkj Hfj) as [_ Er'].
        apply (Hown j Er'). by apply lookup_stop in Hj.
      * right. rewrite bool_decide_eq_false_2 by (by intros []). change (Z.lnot (Z.lor TOK_EXCLUSIVE TOK_EXCLREQ)) with TOK_COUNTMASK. rewrite tok_word_mask.
        pose proof (shared_count _ _ _ _ _ _ Hg td i Es). rewrite (proj2 (Z.eqb_neq _ _)) by lia. done.
Qed.

Lemma token_held_witness : _lwkt_token_held_any 1 7 (thread_of contended 1) (toks contended) = true.
Proof.
  refine (proj2 (token_held 0 (newcomers [1; 2]) contended 1 (thread_of contended 1) 7 contended_initial contended_reachable _ _) _);
    vm_compute; reflexivity.
Defined.

(** ** The order of the scheduler *)

(** The sorted array has every reference of the stack once, by the address of its token, and
    references to the same token in the order of the stack. *)
Theorem token_sorted toks :
  sort_array toks ≡ₚ seq 0 (length toks) ∧
  ∀ i j a b, sort_array toks !! i = Some a → sort_array toks !! j = Some b → (i < j)%nat → before (tok_at toks) a b.
Proof.
  split; [apply sort_array_perm|]. apply sort_array_before.
Qed.

Lemma token_sorted_witness : before (tok_at [Ref 9 3 1; Ref 4 3 1; Ref 9 2 1]) 0 2.
Proof. refine (proj2 (token_sorted [Ref 9 3 1; Ref 4 3 1; Ref 9 2 1]) 1%nat 2%nat 0%nat 2%nat _ _ _); [reflexivity|reflexivity|lia]. Defined.

(** ** Sharers and an exclusive request *)

(** Thread 1 has token 7 shared, thread 3 wants it exclusively, and has set TOK_EXCLREQ. *)
Definition request : list event :=
  [Call 1 (OpGetShared 7); Access 1 false; Access 1 false; Access 1 false; Call 3 (OpGet 7); Access 3 false; Access 3 false; Access 3 false].

(** Another thread takes the token shared, and the one that had it releases it;
    then thread 3 tries. *)
Definition handover (sharer other : Z) : list event :=
  [Call sharer (OpGetShared 7); Access sharer false; Access sharer false; Access sharer false;
   Call other (OpRel 7); Access other false; Access other false; Access other false;
   Access 3 true; Access 3 true; Access 3 true].

Definition rounds (n : nat) : list event := concat (replicate n (handover 2 1 ++ handover 1 2)).

Definition requested : gmap Z thread :=
  list_to_map [(1, Thread [Ref 7 2 1] None Outside); (2, lwkt_init_thread); (3, Thread [Ref 7 3 3] None (Switched (Gettoken true)))].

Lemma schedule_app spin a b s : schedule spin (a ++ b) s = (s' ← schedule spin a s; schedule spin b s').
Proof. revert s. induction a as [|ev a IH]; intros s; cbn; [done|]. destruct (happen spin ev s); cbn; [apply IH|done]. Qed.

Lemma round_again tk : ∃ tk', schedule 0 (handover 2 1 ++ handover 1 2) (System (set_tok 7 (Tok 6 None) tk) requested) =
  Some (System (set_tok 7 (Tok 6 None) tk') requested).
Proof. eexists. vm_compute. reflexivity. Qed.

Lemma rounds_again n tk : ∃ tk', schedule 0 (rounds n) (System (set_tok 7 (Tok 6 None) tk) requested) =
  Some (System (set_tok 7 (Tok 6 None) tk') requested).
Proof.
  revert tk. induction n as [|n IH]; intros tk; [by exists tk|]. unfold rounds. cbn [replicate concat]. rewrite schedule_app.
  destruct (round_again tk) as [tk' ->]. apply IH.
Qed.

(** TOK_EXCLREQ does not keep sharers out: two threads that hand a token to each other, shared, keep a
    thread from it that has asked for it exclusively, for as many of its attempts as one likes. *)
Theorem token_starvation n : ∃ s, schedule 0 (request ++ rounds n) (newcomers [1; 2; 3]) = Some s ∧
  has_flag (t_count (toks s 7)) TOK_EXCLREQ = true ∧ td_place <$> threads s !! 3 = Some (Switched (Gettoken true)).
Proof.
  rewrite schedule_app. assert (∃ tk, schedule 0 request (newcomers [1; 2; 3]) = Some (System (set_tok 7 (Tok 6 None) tk) requested)) as [tk ->]
    by (eexists; vm_compute; reflexivity).
  cbn [mbind option_bind]. destruct (rounds_again n tk) as [tk' ->]. eexists. split; [reflexivity|]. by split.
Qed.

End TokenProps.
