(* ===== verification/Blist.v ===== *)
(** * The swap block allocator (sys/kern/subr_blist.c, sys/sys/blist.h)

    A radix tree over block numbers: a leaf is a bitmap of 32 blocks, a meta
    node has 16 children and counts the free blocks below it.  The nodes of the
    tree lie in one array in preorder; a child that would be wholly beyond the
    managed range is replaced by a terminator (a node with hint -1).  A node
    that is wholly free or wholly allocated does not keep its children up to
    date.  The model keeps the array, its offsets and the laziness; a recursive
    call gets the offset of its node.

    Block numbers and counts are C ints whose signed arithmetic does not
    overflow for a list of up to BLIST_MAXBLKS blocks; values stored in a node
    are converted to the type of the field. *)

From Stdlib Require Import ZArith Lia Bool.
From stdpp Require Import base list gmap.
From S2P Require Import Prelude.

Module Blist.

(** ** Data (sys/blist.h) *)

Definition BLIST_META_RADIX : Z := 16.
Definition BLIST_BMAP_RADIX : Z := 32.
Definition BLIST_MAXBLKS : Z := 0x20000000.
Definition SWAPBLK_NONE : Z := -2147483648.

(** The union [u] is its 32 bits; [bmu_avail] reads them as a signed int. *)
Record blmeta := { bmu : Z; bm_bighint : Z }.

Definition bmu_bitmap (n : blmeta) : Z := bmu n.
Definition bmu_avail (n : blmeta) : Z := s32 (bmu n).
Definition set_bitmap (x : Z) (n : blmeta) : blmeta := {| bmu := u32 x; bm_bighint := bm_bighint n |}.
Definition set_avail (x : Z) (n : blmeta) : blmeta := {| bmu := u32 x; bm_bighint := bm_bighint n |}.
Definition set_bighint (x : Z) (n : blmeta) : blmeta := {| bmu := bmu n; bm_bighint := s32 x |}.

(** The array of nodes. *)
Abbreviation mem := (gmap Z blmeta).

Definition rd (m : mem) (i : Z) : outcome blmeta :=
  match m !! i with Some n => Ok n | None => Undef OutOfBounds end.

Record blist := {
  bl_blocks : Z;
  bl_radix : Z;
  bl_skip : Z;
  bl_free : Z;
  bl_root : mem;
  bl_rootblks : Z
}.

Definition set_root (m : mem) (free : Z) (bl : blist) : blist :=
  {| bl_blocks := bl_blocks bl; bl_radix := bl_radix bl; bl_skip := bl_skip bl;
     bl_free := free; bl_root := m; bl_rootblks := bl_rootblks bl |}.

Definition ones32 : Z := 0xffffffff.

(** Shifts of a 32-bit unsigned value. *)
Definition shr32 (x n : Z) : outcome Z :=
  if (0 <=? n) && (n <? 32) then Ok (Z.shiftr x n) else Undef BadShift.
Definition shl32 (x n : Z) : outcome Z :=
  if (0 <=? n) && (n <? 32) then Ok (u32 (Z.shiftl x n)) else Undef BadShift.

(** A meta node has at most 16 children, so that its loops turn at most 16
    times; a tree of at most 2^31 blocks has at most 8 levels. *)
Definition loop_fuel : nat := 17.
Definition depth_fuel : nat := 8.

(** ** Leaves *)

(** The search for the lowest bit: [while (j) ...]. *)
Fixpoint lowest_bit (fuel : nat) (orig mask j r : Z) : outcome Z :=
  match fuel with
  | O => NoFuel
  | S fuel =>
      if j =? 0 then Ok r
      else
        let z := Z.land orig mask =? 0 in
        let r := if z then r + j else r in
        let orig := if z then Z.shiftr orig j else orig in
        let j := Z.shiftr j 1 in
        lowest_bit fuel orig (Z.shiftr mask j) j r
  end.

(** The search for a run: [for (j = 0; j <= n; ++j)]. *)
Fixpoint find_run (fuel : nat) (orig mask j n : Z) : outcome (option (Z * Z)) :=
  match fuel with
  | O => NoFuel
  | S fuel =>
      if j <=? n then
        if Z.land orig mask =? mask then Ok (Some (j, mask))
        else find_run fuel orig (u32 (Z.shiftl mask 1)) (j + 1) n
      else Ok None
  end.

Definition blst_leaf_alloc (m : mem) (scan blk count : Z) : outcome (mem * Z) :=
  let* n := rd m scan in
  let orig := bmu_bitmap n in
  if orig =? 0 then Ok (<[scan := set_bighint 0 n]> m, SWAPBLK_NONE)
  else if count =? 1 then
    let* mask := shr32 ones32 (BLIST_BMAP_RADIX / 2) in
    let* r := lowest_bit 6 orig mask (BLIST_BMAP_RADIX / 2) 0 in
    Ok (<[scan := set_bitmap (Z.ldiff orig (Z.shiftl 1 r)) n]> m, blk + r)
  else
    let* f :=
      if count <=? BLIST_BMAP_RADIX then
        let w := BLIST_BMAP_RADIX - count in
        let* mask := shr32 ones32 w in
        find_run 33 orig mask 0 w
      else Ok None in
    match f with
    | Some (j, mask) => Ok (<[scan := set_bitmap (Z.ldiff orig mask) n]> m, blk + j)
    | None => Ok (<[scan := set_bighint (count - 1) n]> m, SWAPBLK_NONE)
    end.

(** The bits of the blocks of a range in the bitmap of their leaf. *)
Definition range_mask (blk count : Z) : outcome Z :=
  let n := Z.land blk (BLIST_BMAP_RADIX - 1) in
  let* a := shl32 ones32 n in
  let* b := shr32 ones32 (BLIST_BMAP_RADIX - count - n) in
  Ok (Z.land a b).

Definition blst_leaf_free (m : mem) (scan blk count : Z) : outcome mem :=
  let* mask := range_mask blk count in
  let* n := rd m scan in
  if negb (Z.land (bmu_bitmap n) mask =? 0) then Panic
  else
    Ok (<[scan := set_bighint BLIST_BMAP_RADIX
                    (set_bitmap (Z.lor (bmu_bitmap n) mask) n)]> m).

(** [for (nblks = 0; bitmap != 0; nblks++) bitmap &= bitmap - 1;] *)
Fixpoint count_bits (fuel : nat) (bitmap nblks : Z) : outcome Z :=
  match fuel with
  | O => NoFuel
  | S fuel =>
      if bitmap =? 0 then Ok nblks
      else count_bits fuel (Z.land bitmap (bitmap - 1)) (nblks + 1)
  end.

Definition blst_leaf_fill (m : mem) (scan blk count : Z) : outcome (mem * Z) :=
  let* mask := range_mask blk count in
  let* n := rd m scan in
  let* nblks := count_bits 33 (Z.land (bmu_bitmap n) mask) 0 in
  Ok (<[scan := set_bitmap (Z.ldiff (bmu_bitmap n) mask) n]> m, nblks).

(** ** Allocation in a meta node *)

(** The loop that makes every child wholly free. *)
Fixpoint init_free (fuel : nat) (m : mem) (scan i skip next_skip radix : Z) : outcome mem :=
  match fuel with
  | O => NoFuel
  | S fuel =>
      if i <=? skip then
        let* c := rd m (scan + i) in
        if bm_bighint c =? -1 then Ok m
        else
          let c := if next_skip =? 1
                   then set_bighint BLIST_BMAP_RADIX (set_bitmap ones32 c)
                   else set_avail radix (set_bighint radix c) in
          init_free fuel (<[scan + i := c]> m) scan (i + next_skip) skip next_skip radix
      else Ok m
  end.

(** The scan of the children; [self] allocates in one of them. *)
Fixpoint alloc_loop (self : mem → Z → Z → outcome (mem * Z)) (fuel : nat) (m : mem)
    (scan i blk count skip next_skip radix : Z) : outcome (mem * option Z) :=
  match fuel with
  | O => NoFuel
  | S fuel =>
      if i <=? skip then
        let* c := rd m (scan + i) in
        if count <=? bm_bighint c then
          let* r := self m (scan + i) blk in
          if negb (snd r =? SWAPBLK_NONE) then Ok (fst r, Some (snd r))
          else alloc_loop self fuel (fst r) scan (i + next_skip) (blk + radix) count skip next_skip radix
        else if bm_bighint c =? -1 then Ok (m, None)
        else if count >? radix then Panic
        else alloc_loop self fuel m scan (i + next_skip) (blk + radix) count skip next_skip radix
      else Ok (m, None)
  end.

Fixpoint blst_meta_alloc (fuel : nat) (m : mem) (scan blk count radix skip : Z) : outcome (mem * Z) :=
  match fuel with
  | O => NoFuel
  | S fuel =>
      let next_skip := skip / BLIST_META_RADIX in
      let* n := rd m scan in
      if bmu_avail n =? 0 then Ok (<[scan := set_bighint 0 n]> m, SWAPBLK_NONE)
      else
        let sub := radix / BLIST_META_RADIX in
        let* m :=
          if bmu_avail n =? radix
          then init_free loop_fuel (<[scan := set_bighint radix n]> m) scan 1 skip next_skip sub
          else Ok m in
        let* r := alloc_loop
          (λ m scan blk, if next_skip =? 1 then blst_leaf_alloc m scan blk count
                         else blst_meta_alloc fuel m scan blk count sub (next_skip - 1))
          loop_fuel m scan 1 blk count skip next_skip sub in
        let* n := rd (fst r) scan in
        match snd r with
        | Some b =>
            let n := set_avail (bmu_avail n - count) n in
            let n := if bm_bighint n >? bmu_avail n then set_bighint (bmu_avail n) n else n in
            Ok (<[scan := n]> (fst r), b)
        | None =>
            let n := if bm_bighint n >=? count then set_bighint (count - 1) n else n in
            Ok (<[scan := n]> (fst r), SWAPBLK_NONE)
        end
  end.

(** ** Release in a meta node *)

(** The loop that makes every child wholly allocated. *)
Fixpoint init_alloc (fuel : nat) (m : mem) (scan i skip next_skip : Z) : outcome mem :=
  match fuel with
  | O => NoFuel
  | S fuel =>
      if i <=? skip then
        let* c := rd m (scan + i) in
        if bm_bighint c =? -1 then Ok m
        else
          let c := set_bighint 0 c in
          let c := if next_skip =? 1 then set_bitmap 0 c else set_avail 0 c in
          init_alloc fuel (<[scan + i := c]> m) scan (i + next_skip) skip next_skip
      else Ok m
  end.

(** The children the range meets; [self] frees a range in one of them. *)
Fixpoint free_loop (self : mem → Z → Z → Z → Z → outcome mem) (fuel : nat) (m : mem)
    (scan i freeBlk count blk skip next_skip radix : Z) : outcome mem :=
  match fuel with
  | O => NoFuel
  | S fuel =>
      if (i <=? skip) && (blk <? freeBlk + count) then
        let v := blk + radix - freeBlk in
        let v := if v >? count then count else v in
        let* n := rd m scan in
        if bm_bighint n =? -1 then Panic
        else
          let* m := self m (scan + i) freeBlk v blk in
          let* n := rd m scan in
          let* c := rd m (scan + i) in
          let m := if bm_bighint n <? bm_bighint c
                   then <[scan := set_bighint (bm_bighint c) n]> m else m in
          free_loop self fuel m scan (i + next_skip) (freeBlk + v) (count - v) (blk + radix)
            skip next_skip radix
      else Ok m
  end.

Fixpoint blst_meta_free (fuel : nat) (m : mem) (scan freeBlk count radix skip blk : Z) : outcome mem :=
  match fuel with
  | O => NoFuel
  | S fuel =>
      let next_skip := skip / BLIST_META_RADIX in
      let* n := rd m scan in
      let* m :=
        if bmu_avail n =? 0 then
          let m := <[scan := set_bighint count (set_avail count n)]> m in
          if negb (count =? radix) then init_alloc loop_fuel m scan 1 skip next_skip else Ok m
        else Ok (<[scan := set_avail (bmu_avail n + count) n]> m) in
      let* n := rd m scan in
      if bmu_avail n =? radix then Ok (<[scan := set_bighint radix n]> m)
      else if bmu_avail n >? radix then Panic
      else
        let sub := radix / BLIST_META_RADIX in
        let i := (freeBlk - blk) / sub in
        free_loop
          (λ m scan freeBlk v blk, if next_skip =? 1 then blst_leaf_free m scan freeBlk v
                                   else blst_meta_free fuel m scan freeBlk v sub (next_skip - 1) blk)
          loop_fuel m scan (i * next_skip + 1) freeBlk count (blk + i * sub) skip next_skip sub
  end.

(** ** Filling in a meta node *)

Fixpoint fill_loop (self : mem → Z → Z → Z → Z → outcome (mem * Z)) (fuel : nat) (m : mem)
    (scan i fillBlk count blk skip next_skip radix nblks : Z) : outcome (mem * Z) :=
  match fuel with
  | O => NoFuel
  | S fuel =>
      if (i <=? skip) && (blk <? fillBlk + count) then
        let v := blk + radix - fillBlk in
        let v := if v >? count then count else v in
        let* n := rd m scan in
        if bm_bighint n =? -1 then Panic
        else
          let* r := self m (scan + i) fillBlk v blk in
          fill_loop self fuel (fst r) scan (i + next_skip) (fillBlk + v) (count - v) (blk + radix)
            skip next_skip radix (nblks + snd r)
      else Ok (m, nblks)
  end.

Fixpoint blst_meta_fill (fuel : nat) (m : mem) (scan fillBlk count radix skip blk : Z) :
    outcome (mem * Z) :=
  match fuel with
  | O => NoFuel
  | S fuel =>
      let next_skip := skip / BLIST_META_RADIX in
      let* n := rd m scan in
      if (count =? radix) || (bmu_avail n =? 0) then
        Ok (<[scan := set_bighint count (set_avail 0 n)]> m, bmu_avail n)
      else
        let sub := radix / BLIST_META_RADIX in
        let* m := if bmu_avail n =? radix
                  then init_free loop_fuel m scan 1 skip next_skip sub else Ok m in
        if count >? sub then Panic
        else
          let i := (fillBlk - blk) / sub in
          let* r := fill_loop
            (λ m scan fillBlk v blk, if next_skip =? 1 then blst_leaf_fill m scan fillBlk v
                                     else blst_meta_fill fuel m scan fillBlk v sub (next_skip - 1) blk)
            loop_fuel m scan (i * next_skip + 1) fillBlk count (blk + i * sub) skip next_skip sub 0 in
          let* n := rd (fst r) scan in
          Ok (<[scan := set_avail (bmu_avail n - snd r) n]> (fst r), snd r)
  end.

(** ** The tree's initial state *)

(** [scan] is NULL ([None]) when only the size is wanted. *)
Definition wr (om : option mem) (i : Z) (f : blmeta → blmeta) : outcome (option mem) :=
  match om with
  | None => Ok None
  | Some m => let* n := rd m i in Ok (Some (<[i := f n]> m))
  end.

Fixpoint init_loop (self : option mem → Z → Z → outcome (option mem * Z)) (fuel : nat)
    (om : option mem) (scan i count skip next_skip radix memindex : Z) : outcome (option mem * Z) :=
  match fuel with
  | O => NoFuel
  | S fuel =>
      if i <=? skip then
        if count >=? radix then
          let* r := self om (scan + i) radix in
          init_loop self fuel (fst r) scan (i + next_skip) (count - radix) skip next_skip radix (i + snd r)
        else if count >? 0 then
          let* r := self om (scan + i) count in
          init_loop self fuel (fst r) scan (i + next_skip) 0 skip next_skip radix (i + snd r)
        else
          let* om := wr om (scan + i) (set_bighint (-1)) in
          Ok (om, if memindex <? i then i else memindex)
      else Ok (om, if memindex <? i then i else memindex)
  end.

Fixpoint blst_radix_init (fuel : nat) (om : option mem) (scan radix skip count : Z) :
    outcome (option mem * Z) :=
  match fuel with
  | O => NoFuel
  | S fuel =>
      if radix =? BLIST_BMAP_RADIX then
        let* om := wr om scan (λ n, set_bitmap 0 (set_bighint 0 n)) in Ok (om, 0)
      else
        let* om := wr om scan (λ n, set_avail 0 (set_bighint 0 n)) in
        let radix := radix / BLIST_META_RADIX in
        let next_skip := skip / BLIST_META_RADIX in
        init_loop (λ om scan count, blst_radix_init fuel om scan radix (next_skip - 1) count)
          loop_fuel om scan 1 count skip next_skip radix 0
  end.

(** ** The interface *)

(** [while (radix < blocks)] *)
Fixpoint radix_loop (fuel : nat) (blocks radix skip : Z) : outcome (Z * Z) :=
  match fuel with
  | O => NoFuel
  | S fuel =>
      if radix <? blocks then
        let skip := (skip + 1) * BLIST_META_RADIX in
        kkassert (skip >? 0) (radix_loop fuel blocks (radix * BLIST_META_RADIX) skip)
      else Ok (radix, skip)
  end.

(** [kmalloc] returns an array of [n] nodes with contents [junk]. *)
Definition kmalloc_nodes (n : Z) (junk : Z → blmeta) : mem :=
  list_to_map ((λ i, (i, junk i)) <$> seqZ 0 n).

Definition blist_create (junk : Z → blmeta) (blocks : Z) : outcome blist :=
  let* rs := radix_loop depth_fuel blocks BLIST_BMAP_RADIX 0 in
  let* r := blst_radix_init depth_fuel None 0 (fst rs) (snd rs) blocks in
  let rootblks := 1 + snd r in
  let* r := blst_radix_init depth_fuel (Some (kmalloc_nodes rootblks junk)) 0 (fst rs) (snd rs) blocks in
  match fst r with
  | Some m => Ok {| bl_blocks := blocks; bl_radix := fst rs; bl_skip := snd rs; bl_free := 0;
                    bl_root := m; bl_rootblks := rootblks |}
  | None => Undef NullDeref
  end.

(** A null list has no space. *)
Definition blist_alloc (bl : option blist) (count : Z) : outcome (option blist * Z) :=
  match bl with
  | None => Ok (None, SWAPBLK_NONE)
  | Some bl =>
      let* r := if bl_radix bl =? BLIST_BMAP_RADIX then blst_leaf_alloc (bl_root bl) 0 0 count
                else blst_meta_alloc depth_fuel (bl_root bl) 0 0 count (bl_radix bl) (bl_skip bl) in
      let free := if negb (snd r =? SWAPBLK_NONE) then bl_free bl - count else bl_free bl in
      Ok (Some (set_root (fst r) free bl), snd r)
  end.

Definition blist_free (bl : option blist) (blkno count : Z) : outcome (option blist) :=
  match bl with
  | None => Ok None
  | Some bl =>
      let* m := if bl_radix bl =? BLIST_BMAP_RADIX then blst_leaf_free (bl_root bl) 0 blkno count
                else blst_meta_free depth_fuel (bl_root bl) 0 blkno count (bl_radix bl) (bl_skip bl) 0 in
      Ok (Some (set_root m (bl_free bl + count) bl))
  end.

Definition blist_fill (bl : option blist) (blkno count : Z) : outcome (option blist * Z) :=
  match bl with
  | None => Ok (None, 0)
  | Some bl =>
      let* r := if bl_radix bl =? BLIST_BMAP_RADIX then blst_leaf_fill (bl_root bl) 0 blkno count
                else blst_meta_fill depth_fuel (bl_root bl) 0 blkno count (bl_radix bl) (bl_skip bl) 0 in
      Ok (Some (set_root (fst r) (bl_free bl - snd r) bl), snd r)
  end.

(** ** Resizing *)

(** The bits of a leaf, one by one: [for (i = 0; i < BLIST_BMAP_RADIX && i < count; ++i)]. *)
Fixpoint copy_bits (fuel : nat) (dest : option blist) (v blk i count : Z) : outcome (option blist) :=
  match fuel with
  | O => NoFuel
  | S fuel =>
      if (i <? BLIST_BMAP_RADIX) && (i <? count) then
        let* dest := if negb (Z.land v (Z.shiftl 1 i) =? 0)
                     then blist_free dest (blk + i) 1 else Ok dest in
        copy_bits fuel dest v blk (i + 1) count
      else Ok dest
  end.

Fixpoint copy_loop (self : option blist → Z → Z → Z → outcome (option blist)) (fuel : nat)
    (m : mem) (dest : option blist) (scan i blk count skip next_skip radix : Z) : outcome (option blist) :=
  match fuel with
  | O => NoFuel
  | S fuel =>
      if negb (count =? 0) && (i <=? skip) then
        let* c := rd m (scan + i) in
        if bm_bighint c =? -1 then Ok dest
        else if count >=? radix then
          let* dest := self dest (scan + i) blk radix in
          copy_loop self fuel m dest scan (i + next_skip) (blk + radix) (count - radix) skip next_skip radix
        else
          let* dest := self dest (scan + i) blk count in
          copy_loop self fuel m dest scan (i + next_skip) (blk + radix) 0 skip next_skip radix
      else Ok dest
  end.

Fixpoint blst_copy (fuel : nat) (m : mem) (scan blk radix skip : Z) (dest : option blist) (count : Z) :
    outcome (option blist) :=
  match fuel with
  | O => NoFuel
  | S fuel =>
      let* n := rd m scan in
      if radix =? BLIST_BMAP_RADIX then
        let v := bmu_bitmap n in
        if v =? ones32 then blist_free dest blk count
        else if negb (v =? 0) then copy_bits 33 dest v blk 0 count
        else Ok dest
      else if bmu_avail n =? 0 then Ok dest
      else if bmu_avail n =? radix then
        if count <? radix then blist_free dest blk count else blist_free dest blk radix
      else
        let radix := radix / BLIST_META_RADIX in
        let next_skip := skip / BLIST_META_RADIX in
        copy_loop (λ dest scan blk count, blst_copy fuel m scan blk radix (next_skip - 1) dest count)
          loop_fuel m dest scan 1 blk count skip next_skip radix
  end.

Definition blist_resize (junk : Z → blmeta) (save : blist) (count : Z) (freenew : bool) : outcome blist :=
  let* newbl := blist_create junk count in
  let count := if count >? bl_blocks save then bl_blocks save else count in
  let* d := blst_copy depth_fuel (bl_root save) 0 0 (bl_radix save) (bl_skip save) (Some newbl) count in
  let* d := if freenew && (count <? bl_blocks newbl)
            then blist_free d count (bl_blocks newbl - count) else Ok d in
  match d with Some bl => Ok bl | None => Undef NullDeref end.

End Blist.
