(* ===== verification/BlistTheory.v ===== *)
(** * Correctness of the swap block allocator

    The abstract state of a list is the set of its free blocks, a predicate
    [F] on block numbers.  [good h m s blk F] says that the node at offset [s]
    of the array [m], of height [h] and for the blocks from [blk] on,
    represents [F]: a leaf's bits are the free blocks, a meta node counts them,
    and unless it is wholly free or wholly allocated its children represent
    them in turn; a hint is at least the longest free run inside a leaf, which
    is what makes the allocator find every run it can use.  Each operation is
    shown to take a good tree to a good tree for the new set. *)

From Stdlib Require Import ZArith Lia Bool.
From stdpp Require Import base list gmap.
From S2P Require Import Prelude Blist.
Import Blist.

Module BlistTheory.

(** ** Free sets *)

Definition in_range (b n x : Z) : bool := (b <=? x) && (x <? b + n).
Definition minus (F : Z → bool) (b n : Z) : Z → bool := λ x, F x && negb (in_range b n x).
Definition plus (F : Z → bool) (b n : Z) : Z → bool := λ x, F x || in_range b n x.
Definition run (F : Z → bool) (b n : Z) : Prop := ∀ x, b ≤ x < b + n → F x = true.
Definition empty (F : Z → bool) (b n : Z) : Prop := ∀ x, b ≤ x < b + n → F x = false.
(** The range does not cross a boundary between leaves. *)
Definition in_leaf (b n : Z) : Prop := b mod 32 + n ≤ 32.
Definition within (b n blk r : Z) : Prop := blk ≤ b ∧ b + n ≤ blk + r.
(** Every free run inside a leaf of the node is at most [hint] long. *)
Definition hint_ok (hint blk r : Z) (F : Z → bool) : Prop :=
  0 ≤ hint < 2147483648 ∧
  ∀ b n, 1 ≤ n → in_leaf b n → within b n blk r → run F b n → n ≤ hint.

Lemma in_range_true b n x : in_range b n x = true ↔ b ≤ x < b + n.
Proof. unfold in_range. rewrite andb_true_iff, Z.leb_le, Z.ltb_lt. done. Qed.

Lemma in_range_false b n x : in_range b n x = false ↔ x < b ∨ b + n ≤ x.
Proof. unfold in_range. rewrite andb_false_iff, Z.leb_gt, Z.ltb_ge. done. Qed.

Lemma count_run F b n : 0 ≤ n → run F b n → count F b (b + n) = n.
Proof.
  intros Hn Hr. rewrite (count_ext _ (λ _, true)) by (intros; by apply Hr).
  unfold count. replace (Z.to_nat (b + n - b)) with (Z.to_nat n) by lia.
  assert (H : ∀ k a, count_n (λ _, true) a k = Z.of_nat k).
  { induction k; intros a; cbn [count_n]; [done|]. rewrite IHk. lia. }
  rewrite H. lia.
Qed.

Lemma count_none F b n : empty F b n → count F b (b + n) = 0.
Proof.
  intros Hr. rewrite (count_ext _ (λ _, false)) by (intros; by apply Hr).
  unfold count. generalize (Z.to_nat (b + n - b)) as k.
  induction k; cbn [count_n]; lia.
Qed.

(** A change inside a range changes the count by the change inside it. *)
Lemma count_change F G a c b n :
  a ≤ b → 0 ≤ n → b + n ≤ c → (∀ x, a ≤ x < c → in_range b n x = false → F x = G x) →
  count G a c = count F a c + count G b (b + n) - count F b (b + n).
Proof.
  intros Hab Hn Hbc H.
  rewrite (count_app F a b c), (count_app F b (b + n) c) by lia.
  rewrite (count_app G a b c), (count_app G b (b + n) c) by lia.
  rewrite (count_ext F G a b), (count_ext F G (b + n) c); [lia| |];
    intros x Hx; apply H; try lia; apply in_range_false; lia.
Qed.

Lemma minus_out F b n x : in_range b n x = false → minus F b n x = F x.
Proof. unfold minus. intros ->. by destruct (F x). Qed.
Lemma plus_out F b n x : in_range b n x = false → plus F b n x = F x.
Proof. unfold plus. intros ->. by destruct (F x). Qed.
Lemma minus_in F b n : empty (minus F b n) b n.
Proof. intros x Hx. unfold minus. apply in_range_true in Hx as ->. by destruct (F x). Qed.
Lemma plus_in F b n : run (plus F b n) b n.
Proof. intros x Hx. unfold plus. apply in_range_true in Hx as ->. by destruct (F x). Qed.

Lemma count_minus F a c b n :
  a ≤ b → 0 ≤ n → b + n ≤ c → run F b n → count (minus F b n) a c = count F a c - n.
Proof.
  intros Hab Hn Hbc Hr. rewrite (count_change F (minus F b n) a c b n); [|done..|].
  - rewrite (count_run F b n), (count_none _ b n); [lia|apply minus_in|done|done].
  - intros x _ Hx. by rewrite minus_out.
Qed.

Lemma count_plus F a c b n :
  a ≤ b → 0 ≤ n → b + n ≤ c → empty F b n → count (plus F b n) a c = count F a c + n.
Proof.
  intros Hab Hn Hbc Hr. rewrite (count_change F (plus F b n) a c b n); [|done..|].
  - rewrite (count_run _ b n), (count_none F b n); [lia|done|done|apply plus_in].
  - intros x _ Hx. by rewrite plus_out.
Qed.

Lemma minus_sub F b n x : minus F b n x = true → F x = true.
Proof. unfold minus. by destruct (F x). Qed.
Lemma plus_sub F b n x : F x = true → plus F b n x = true.
Proof. unfold plus. by intros ->. Qed.

Lemma hint_ok_sub hint blk r F G :
  (∀ x, blk ≤ x < blk + r → G x = true → F x = true) → hint_ok hint blk r F → hint_ok hint blk r G.
Proof.
  intros H [H1 H2]. split; [done|]. intros b n Hn Hl Hw Hr. apply (H2 b n); try done.
  intros x Hx. apply H; [|by apply Hr]. unfold within in Hw. lia.
Qed.

Lemma hint_ok_le hint hint' blk r F :
  hint ≤ hint' < 2147483648 → hint_ok hint blk r F → hint_ok hint' blk r F.
Proof. intros H [H1 H2]. split; [lia|]. intros b n H3 H4 H5 H6. specialize (H2 b n H3 H4 H5 H6). lia. Qed.

Lemma hint_ok_count hint blk r F :
  0 ≤ r → count F blk (blk + r) ≤ hint < 2147483648 → hint_ok hint blk r F.
Proof.
  intros Hr Hh. pose proof (count_nonneg F blk (blk + r)). split; [lia|].
  intros b n Hn Hl [Hw1 Hw2] Hrun.
  rewrite (count_app F blk b), (count_app F b (b + n)), (count_run F b n) in Hh by (done || lia).
  pose proof (count_nonneg F blk b). pose proof (count_nonneg F (b + n) (blk + r)). lia.
Qed.

(** ** The shape of the tree *)

Fixpoint R (h : nat) : Z := match h with O => 32 | S h => 16 * R h end.
Fixpoint skp (h : nat) : Z := match h with O => 0 | S h => (skp h + 1) * 16 end.
(** The nodes a child takes in the array. *)
Definition W (h : nat) : Z := skp h + 1.

Lemma R_pos h : 32 ≤ R h.
Proof. induction h; cbn [R]; lia. Qed.
Lemma skp_nonneg h : 0 ≤ skp h.
Proof. induction h; cbn [skp]; lia. Qed.
Lemma W_pos h : 1 ≤ W h.
Proof. pose proof (skp_nonneg h). unfold W. lia. Qed.
Lemma skp_S h : skp (S h) = 16 * W h.
Proof. unfold W. cbn [skp]. lia. Qed.
Lemma R_32 h : ∃ q, R h = 32 * q.
Proof. induction h as [|h [q IH]]; cbn [R]; [by exists 1|]. exists (16 * q). lia. Qed.
Lemma R_bound h : (h ≤ 6)%nat → R h ≤ 536870912.
Proof. intros. do 7 (destruct h; [cbn; lia|]). lia. Qed.
Lemma R_div h : R (S h) / BLIST_META_RADIX = R h.
Proof. unfold BLIST_META_RADIX. cbn [R]. rewrite Z.mul_comm. by apply Z.div_mul. Qed.
Lemma skp_div h : skp (S h) / BLIST_META_RADIX = W h.
Proof. rewrite skp_S. unfold BLIST_META_RADIX. rewrite Z.mul_comm. by apply Z.div_mul. Qed.
Lemma W_leaf h : (W h =? 1) = match h with O => true | S _ => false end.
Proof. destruct h; [done|]. unfold W. cbn [skp]. apply Z.eqb_neq. pose proof (skp_nonneg h). lia. Qed.

(** The [k]-th child: its offset and its first block. *)
Definition koff (s : Z) (h : nat) (k : Z) : Z := s + (1 + k * W h).
Definition kblk (blk : Z) (h : nat) (k : Z) : Z := blk + k * R h.

Lemma kid_index h k : 0 ≤ k → (1 + k * W h <=? skp (S h)) = (k <? 16).
Proof.
  intros Hk. rewrite skp_S. pose proof (W_pos h).
  destruct (k <? 16) eqn:E; bool_prop; [apply Z.leb_le|apply Z.leb_gt]; nia.
Qed.

Section Tree.

(** The number of blocks under management. *)
Context (B : Z).

Fixpoint shape (h : nat) (m : mem) (s blk : Z) : Prop :=
  (∃ n, m !! s = Some n ∧ bm_bighint n ≠ -1) ∧
  match h with
  | O => True
  | S h => ∀ k, 0 ≤ k < 16 →
      (kblk blk h k < B → shape h m (koff s h k) (kblk blk h k)) ∧
      (B ≤ kblk blk h k → kblk blk h k - R h < B →
       ∃ n, m !! koff s h k = Some n ∧ bm_bighint n = -1)
  end.

Fixpoint sem (h : nat) (m : mem) (s blk : Z) (F : Z → bool) : Prop :=
  ∃ n, m !! s = Some n ∧ hint_ok (bm_bighint n) blk (R h) F ∧
  match h with
  | O => is_u 32 (bmu n) ∧ ∀ i, 0 ≤ i < 32 → Z.testbit (bmu n) i = F (blk + i)
  | S h' => bmu n = count F blk (blk + R h) ∧
      (bmu n ≠ 0 → bmu n ≠ R h → ∀ k, 0 ≤ k < 16 → kblk blk h' k < B →
       sem h' m (koff s h' k) (kblk blk h' k) F)
  end.

Definition good (h : nat) (m : mem) (s blk : Z) (F : Z → bool) : Prop :=
  shape h m s blk ∧ sem h m s blk F.

Lemma kid_span s h k : 0 ≤ k < 16 → s < koff s h k ∧ koff s h k + W h ≤ s + W (S h).
Proof. intros Hk. unfold koff. pose proof (W_pos h). change (W (S h)) with (skp (S h) + 1). rewrite skp_S. nia. Qed.

Lemma kid_blocks blk h k : 0 ≤ k < 16 → blk ≤ kblk blk h k ∧ kblk blk h k + R h ≤ blk + R (S h).
Proof. intros Hk. unfold kblk. pose proof (R_pos h). cbn [R]. nia. Qed.

(** Only the node's own part of the array matters. *)
Lemma shape_ext h : ∀ m m' s blk,
  (∀ i, s ≤ i < s + W h → m' !! i = m !! i) → shape h m s blk → shape h m' s blk.
Proof.
  induction h as [|h IH]; intros m m' s blk Hm [(n & Hn & Hh) Hk]; cbn [shape].
  - split; [|done]. exists n. by rewrite Hm by (unfold W; cbn; lia).
  - split.
    + exists n. pose proof (W_pos (S h)). by rewrite Hm by lia.
    + intros k Hk16. destruct (Hk k Hk16) as [H1 H2]. pose proof (kid_span s h k Hk16) as Hs.
      split.
      * intros Hb. apply (IH m); [|by apply H1]. intros i Hi. apply Hm. lia.
      * intros Hb1 Hb2. destruct (H2 Hb1 Hb2) as (t & Ht & ?). exists t.
        pose proof (W_pos h). by rewrite Hm by lia.
Qed.

Lemma sem_ext h : ∀ m m' s blk F F',
  (∀ i, s ≤ i < s + W h → m' !! i = m !! i) → (∀ x, blk ≤ x < blk + R h → F' x = F x) →
  sem h m s blk F → sem h m' s blk F'.
Proof.
  induction h as [|h IH]; intros m m' s blk F F' Hm HF (n & Hn & Hh & H); cbn [sem].
  - exists n. split; [by rewrite Hm by (unfold W; cbn; lia)|]. split.
    + apply (hint_ok_sub _ _ _ F); [|done]. intros x Hx. by rewrite HF.
    + destruct H as [H1 H2]. split; [done|]. intros i Hi. rewrite HF by (cbn [R]; lia). by apply H2.
  - exists n. pose proof (W_pos (S h)). split; [by rewrite Hm by lia|]. split.
    + apply (hint_ok_sub _ _ _ F); [|done]. intros x Hx. by rewrite HF.
    + destruct H as [H1 H2]. split; [by rewrite (count_ext F' F)|].
      intros Hn0 HnR k Hk Hb. pose proof (kid_span s h k Hk). pose proof (kid_blocks blk h k Hk).
      apply (IH m _ _ _ F); [| |by apply H2].
      * intros i Hi. apply Hm. lia.
      * intros x Hx. apply HF. lia.
Qed.

Lemma good_ext h m m' s blk F F' :
  (∀ i, s ≤ i < s + W h → m' !! i = m !! i) → (∀ x, blk ≤ x < blk + R h → F' x = F x) →
  good h m s blk F → good h m' s blk F'.
Proof. intros Hm HF [H1 H2]. split; [by apply (shape_ext _ m)|by apply (sem_ext _ m _ _ _ F)]. Qed.

(** [m'] is [m] outside the [w] nodes from [s]. *)
Definition same_out (s w : Z) (m m' : mem) : Prop :=
  ∀ i, i < s ∨ s + w ≤ i → m' !! i = m !! i.

Lemma same_out_refl s w m : same_out s w m m.
Proof. done. Qed.

Lemma same_out_trans s w m m' m'' : same_out s w m m' → same_out s w m' m'' → same_out s w m m''.
Proof. intros H1 H2 i Hi. by rewrite H2, H1. Qed.

Lemma same_out_widen s w s' w' m m' :
  s' ≤ s → s + w ≤ s' + w' → same_out s w m m' → same_out s' w' m m'.
Proof. intros H1 H2 H i Hi. apply H. lia. Qed.

Lemma same_out_insert s w i n m : s ≤ i < s + w → same_out s w m (<[i := n]> m).
Proof. intros Hi j Hj. apply lookup_insert_ne. lia. Qed.

(** All the children that exist represent [F]; where they end there is a
    terminator. *)
Definition kids_good (h : nat) (m : mem) (s blk : Z) (F : Z → bool) : Prop :=
  ∀ k, 0 ≤ k < 16 → kblk blk h k < B → good h m (koff s h k) (kblk blk h k) F.
Definition kids_term (h : nat) (m : mem) (s blk : Z) : Prop :=
  ∀ k, 0 ≤ k < 16 → B ≤ kblk blk h k → kblk blk h k - R h < B →
  ∃ n, m !! koff s h k = Some n ∧ bm_bighint n = -1.

Lemma kids_disjoint s h k j :
  0 ≤ k → 0 ≤ j → k ≠ j → koff s h k + W h ≤ koff s h j ∨ koff s h j + W h ≤ koff s h k.
Proof. intros. unfold koff. pose proof (W_pos h). destruct (Z.lt_ge_cases k j); [left|right]; nia. Qed.

Lemma kblks_disjoint blk h k j :
  k ≠ j → kblk blk h k + R h ≤ kblk blk h j ∨ kblk blk h j + R h ≤ kblk blk h k.
Proof. intros. unfold kblk. pose proof (R_pos h). destruct (Z.lt_ge_cases k j); [left|right]; nia. Qed.

(** One child changes. *)
Lemma kids_update h m m' s blk F F' j :
  0 ≤ j < 16 → kids_good h m s blk F → same_out (koff s h j) (W h) m m' →
  (∀ x, (x < kblk blk h j ∨ kblk blk h j + R h ≤ x) → F' x = F x) →
  (kblk blk h j < B → good h m' (koff s h j) (kblk blk h j) F') → kids_good h m' s blk F'.
Proof.
  intros Hj Hg Hm HF Hj' k Hk Hb. destruct (decide (k = j)) as [->|Hne]; [by apply Hj'|].
  apply (good_ext _ m _ _ _ F); [| |by apply Hg].
  - intros i Hi. apply Hm. destruct (kids_disjoint s h k j); lia.
  - intros x Hx. apply HF. destruct (kblks_disjoint blk h k j); lia.
Qed.

Lemma kids_term_update h m m' s blk j :
  0 ≤ j < 16 → kids_term h m s blk → same_out (koff s h j) (W h) m m' → kblk blk h j < B →
  kids_term h m' s blk.
Proof.
  intros Hj Ht Hm Hb k Hk Hb1 Hb2. destruct (Ht k Hk Hb1 Hb2) as (n & Hn & ?). exists n.
  rewrite Hm; [done|]. assert (k ≠ j) by (intros ->; lia). pose proof (W_pos h).
  destruct (kids_disjoint s h k j); lia.
Qed.

Lemma shape_kids h m s blk :
  shape (S h) m s blk ↔ (∃ n, m !! s = Some n ∧ bm_bighint n ≠ -1) ∧
    (∀ k, 0 ≤ k < 16 → kblk blk h k < B → shape h m (koff s h k) (kblk blk h k)) ∧
    kids_term h m s blk.
Proof.
  cbn [shape]. split.
  - intros [H1 H2]. split_and!; [done| |]; intros k Hk; by apply H2.
  - intros (H1 & H2 & H3). split; [done|]. intros k Hk. split; [by apply H2|by apply H3].
Qed.

(** A node from its children. *)
Lemma good_node h m s blk F n :
  m !! s = Some n → hint_ok (bm_bighint n) blk (R (S h)) F → bmu n = count F blk (blk + R (S h)) →
  kids_good h m s blk F → kids_term h m s blk → good (S h) m s blk F.
Proof.
  intros Hn Hh Hc Hk Ht. split.
  - apply shape_kids. split_and!; [|intros k ??; by apply Hk|done].
    exists n. split; [done|]. destruct Hh. lia.
  - cbn [sem]. exists n. split_and!; try done. intros _ _ k ??. by apply Hk.
Qed.

(** A change of the node itself leaves its children alone. *)
Lemma kids_good_root h m s blk F n : kids_good h m s blk F → kids_good h (<[s := n]> m) s blk F.
Proof.
  intros H k Hk Hb. apply (good_ext _ m _ _ _ F); [|done|by apply H].
  intros i Hi. pose proof (kid_span s h k Hk). apply lookup_insert_ne. lia.
Qed.

Lemma kids_term_root h m s blk n : kids_term h m s blk → kids_term h (<[s := n]> m) s blk.
Proof.
  intros H k Hk Hb1 Hb2. destruct (H k Hk Hb1 Hb2) as (t & Ht & ?). exists t.
  pose proof (kid_span s h k Hk). by rewrite lookup_insert_ne by lia.
Qed.

End Tree.

(** ** Bitmaps *)

(** The bits of a mask are those of a range. *)
Definition mask_of (mask j c : Z) : Prop :=
  is_u 32 mask ∧ ∀ i, 0 ≤ i → Z.testbit mask i = in_range j c i.

Lemma ones32_eq : ones32 = Z.ones 32.
Proof. done. Qed.

Lemma testbit_ones32 i : 0 ≤ i → Z.testbit ones32 i = (i <? 32).
Proof. intros Hi. rewrite ones32_eq, Z.testbit_ones_nonneg by lia. done. Qed.

Lemma u32_testbit x i : 0 ≤ i → Z.testbit (u32 x) i = (i <? 32) && Z.testbit x i.
Proof.
  intros Hi. unfold unsigned_of. destruct (i <? 32) eqn:E; bool_prop.
  - by rewrite Z.mod_pow2_bits_low.
  - by rewrite Z.mod_pow2_bits_high by lia.
Qed.

Lemma in_range_shift j c b x : in_range (b + j) c (b + x) = in_range j c x.
Proof.
  destruct (in_range j c x) eqn:E.
  - apply in_range_true in E. apply in_range_true. lia.
  - apply in_range_false in E. apply in_range_false. lia.
Qed.

Lemma land_mask x mask j c :
  mask_of mask j c → 0 ≤ j → (Z.land x mask = mask ↔ ∀ i, j ≤ i < j + c → Z.testbit x i = true).
Proof.
  intros [_ Hm] Hj. split.
  - intros E i Hi. assert (H : Z.testbit (Z.land x mask) i = Z.testbit mask i) by by rewrite E.
    rewrite Z.land_spec, Hm in H by lia.
    replace (in_range j c i) with true in H by (symmetry; by apply in_range_true).
    by destruct (Z.testbit x i).
  - intros H. apply Z.bits_inj'. intros i Hi. rewrite Z.land_spec, Hm by done.
    destruct (in_range j c i) eqn:E; [|apply andb_false_r]. apply in_range_true in E.
    by rewrite H.
Qed.

Lemma land_mask_0 x mask j c :
  mask_of mask j c → 0 ≤ j → (∀ i, j ≤ i < j + c → Z.testbit x i = false) → Z.land x mask = 0.
Proof.
  intros [_ Hm] Hj H. apply Z.bits_inj'. intros i Hi. rewrite Z.land_spec, Hm, Z.bits_0 by done.
  destruct (in_range j c i) eqn:E; [|apply andb_false_r]. apply in_range_true in E.
  by rewrite H.
Qed.

(** [while (j) { if ((orig & mask) == 0) { r += j; orig >>= j; } ... }]: the
    binary search keeps a window of [2^a] bits that has a bit set. *)
Lemma lowest_bit_spec a : ∀ orig mask r,
  0 ≤ orig → orig mod 2 ^ (2 ^ Z.of_nat a) ≠ 0 →
  (a = O ∨ mask = Z.ones (2 ^ Z.of_nat a / 2)) →
  ∃ i, lowest_bit (S a) orig mask (2 ^ Z.of_nat a / 2) r = Ok (r + i) ∧ 0 ≤ i < 2 ^ Z.of_nat a ∧
    Z.testbit orig i = true ∧ ∀ k, 0 ≤ k < i → Z.testbit orig k = false.
Proof.
  induction a as [|a IH]; intros orig mask r Ho Hmod Hmask.
  { exists 0. cbn [lowest_bit]. split_and!; [by rewrite Z.add_0_r|lia|lia| |intros; lia].
    change (2 ^ (2 ^ Z.of_nat 0)) with 2 in Hmod. rewrite Z.bit0_odd.
    rewrite Zmod_odd in Hmod. by destruct (Z.odd orig). }
  destruct Hmask as [|Hmask]; [done|]. set (j := 2 ^ Z.of_nat a).
  assert (Hj : 0 < j) by (apply Z.pow_pos_nonneg; lia).
  assert (E2 : 2 ^ Z.of_nat (S a) = 2 * j).
  { rewrite Nat2Z.inj_succ. apply Z.pow_succ_r. lia. }
  rewrite E2 in *. replace (2 * j / 2) with j in * by (rewrite Z.mul_comm; by rewrite Z.div_mul).
  remember (S a) as fuel. cbn [lowest_bit].
  replace (j =? 0) with false by (symmetry; apply Z.eqb_neq; lia).
  rewrite Hmask, Z.land_ones, (Z.shiftr_div_pow2 orig j) by lia.
  set (z := orig mod 2 ^ j =? 0). set (r' := if z then r + j else r).
  set (orig' := if z then orig / 2 ^ j else orig).
  assert (Hpow : 2 ^ (2 * j) = 2 ^ j * 2 ^ j).
  { rewrite <- Z.pow_add_r by lia. f_equal. lia. }
  assert (Hpj : 0 < 2 ^ j) by (apply Z.pow_pos_nonneg; lia).
  assert (Hz : (z = true ∧ orig = 2 ^ j * (orig / 2 ^ j) ∧ (orig / 2 ^ j) mod 2 ^ j ≠ 0) ∨
    (z = false ∧ orig mod 2 ^ j ≠ 0)).
  { unfold z. destruct (orig mod 2 ^ j =? 0) eqn:E; bool_prop; [left|by right].
    pose proof (Z.div_mod orig (2 ^ j)). split_and!; [done|lia|]. intros E'. apply Hmod.
    rewrite Hpow, Z.rem_mul_r, E, E' by lia. lia. }
  assert (Ho' : 0 ≤ orig').
  { unfold orig'. destruct z; [apply Z.div_pos; lia|done]. }
  replace (Z.shiftr j 1) with (2 ^ Z.of_nat a / 2)
    by (rewrite Z.shiftr_div_pow2 by lia; done).
  destruct (IH orig' (Z.shiftr (Z.ones j) (2 ^ Z.of_nat a / 2)) r') as (i & E & Hi & Hb & Hl).
  - done.
  - fold j. unfold orig'. by destruct Hz as [(-> & _ & ?)|[-> ?]].
  - destruct a as [|a]; [by left|right]. fold j.
    assert (Ej : j = 2 * (j / 2)).
    { unfold j. rewrite Nat2Z.inj_succ, Z.pow_succ_r by lia.
      rewrite (Z.mul_comm 2 (2 ^ _)) at 2. rewrite Z.div_mul by lia. lia. }
    apply Z.bits_inj'. intros i Hi. rewrite Z.shiftr_spec, !Z.testbit_ones_nonneg by lia.
    destruct (i + j / 2 <? j) eqn:E1, (i <? j / 2) eqn:E3; bool_prop; try done; lia.
  - fold j in E, Hi |- *. rewrite E. unfold r', orig' in *.
    destruct Hz as [(Ez & Eo & _)|[Ez _]]; rewrite Ez in *.
    + assert (Hsh : ∀ k, 0 ≤ k → Z.testbit orig (j + k) = Z.testbit (orig / 2 ^ j) k).
      { intros k Hk. rewrite Z.add_comm. symmetry. apply Z.div_pow2_bits; lia. }
      exists (j + i). split_and!; [f_equal; lia|lia|lia|by rewrite Hsh by lia|].
      intros k Hk. destruct (Z.lt_ge_cases k j).
      * rewrite Eo, Z.mul_comm, <- Z.shiftl_mul_pow2, Z.shiftl_spec_low by lia. done.
      * replace k with (j + (k - j)) by lia. rewrite Hsh by lia. apply Hl. lia.
    + exists i. split_and!; [done|lia|lia|done|done].
Qed.

(** [for (j = 0; j <= n; ++j)]: the first place where [c] bits are set. *)
Lemma find_run_spec fuel : ∀ orig mask j c,
  1 ≤ c ≤ 32 → 0 ≤ j → Z.max 0 (33 - c - j) < Z.of_nat fuel → (j ≤ 32 - c → mask = Z.shiftl (Z.ones c) j) →
  ∃ o, find_run fuel orig mask j (32 - c) = Ok o ∧
    match o with
    | Some (i, mk) => j ≤ i ≤ 32 - c ∧ mask_of mk i c ∧ ∀ k, i ≤ k < i + c → Z.testbit orig k = true
    | None => ∀ i, j ≤ i ≤ 32 - c → ∃ k, i ≤ k < i + c ∧ Z.testbit orig k = false
    end.
Proof.
  induction fuel as [|fuel IH]; intros orig mask j c Hc Hj Hf Hm; cbn [find_run].
  { lia. }
  destruct (j <=? 32 - c) eqn:E; bool_prop; [|exists None; split; [done|intros; lia]].
  assert (Hmask : mask_of mask j c).
  { assert (Hb : ∀ i, 0 ≤ i → Z.testbit mask i = in_range j c i).
    { intros i Hi. rewrite Hm by done. unfold in_range. destruct (j <=? i) eqn:E1; bool_prop.
      - rewrite Z.shiftl_spec_high, Z.testbit_ones_nonneg by lia.
        destruct (i - j <? c) eqn:E2, (i <? j + c) eqn:E3; bool_prop; try done; lia.
      - by rewrite Z.shiftl_spec_low. }
    split; [|done]. apply is_u_bits; [|intros i Hi; rewrite Hb by lia|lia].
    - rewrite Hm by done. apply Z.shiftl_nonneg. rewrite Z.ones_equiv.
      pose proof (Z.pow_pos_nonneg 2 c). lia.
    - apply in_range_false. lia. }
  destruct (Z.land orig mask =? mask) eqn:El; bool_prop.
  { exists (Some (j, mask)). split_and!; [done|lia|lia|done..|]. by apply (land_mask _ mask). }
  destruct (IH orig (u32 (Z.shiftl mask 1)) (j + 1) c) as (o & -> & Ho); [lia..| |].
  { intros Hle. rewrite Hm, Z.shiftl_shiftl by lia. apply unsigned_of_small.
    rewrite <- (Z.shiftl_shiftl _ j 1), <- Hm by lia. destruct Hmask as [[Hm1 _] Hb].
    apply is_u_bits; [by apply Z.shiftl_nonneg| |lia]. intros i Hi.
    rewrite Z.shiftl_spec_high, Hb by lia. apply in_range_false. lia. }
  exists o. split; [done|]. destruct o as [[i mk]|].
  - destruct Ho as (H1 & H2 & H3). split_and!; [lia|lia|done..].
  - intros i Hi. destruct (decide (i = j)) as [->|]; [|apply Ho; lia].
    destruct (decide (Exists (λ k, Z.testbit orig k = false) (seqZ j c))) as [He|He].
    + apply Exists_exists in He as (k & Hk%elem_of_seqZ & ?). by exists k.
    + exfalso. apply El, (land_mask _ _ j c); [done|lia|]. intros k Hk.
      destruct (Z.testbit orig k) eqn:Ek; [done|]. exfalso. apply He, Exists_exists.
      exists k. split; [by apply elem_of_seqZ|done].
Qed.

Lemma range_mask_spec b c :
  1 ≤ c → b mod 32 + c ≤ 32 →
  ∃ mask, range_mask b c = Ok mask ∧ mask_of mask (b mod 32) c.
Proof.
  intros Hc Hb. pose proof (Z.mod_pos_bound b 32). unfold range_mask, BLIST_BMAP_RADIX.
  change (32 - 1) with (Z.ones 5). rewrite Z.land_ones by lia. change (2 ^ 5) with 32.
  set (n := b mod 32) in *. unfold shl32, shr32.
  replace ((0 <=? n) && (n <? 32)) with true
    by (symmetry; apply andb_true_iff; rewrite Z.leb_le, Z.ltb_lt; lia). cbn [obind].
  replace ((0 <=? 32 - c - n) && (32 - c - n <? 32)) with true
    by (symmetry; apply andb_true_iff; rewrite Z.leb_le, Z.ltb_lt; lia). cbn [obind].
  eexists. split; [done|]. split.
  - apply land_is_u; [lia|by apply unsigned_of_range|]. by apply Z.shiftr_nonneg.
  - intros i Hi. rewrite Z.land_spec, u32_testbit, Z.shiftr_spec, testbit_ones32 by lia.
    unfold in_range. destruct (n <=? i) eqn:E1; bool_prop.
    + rewrite Z.shiftl_spec_high, testbit_ones32 by lia.
      destruct (i <? 32) eqn:E2, (i - n <? 32) eqn:E3, (i + (32 - c - n) <? 32) eqn:E4,
        (i <? n + c) eqn:E5; bool_prop; cbn; try done; lia.
    + rewrite Z.shiftl_spec_low by lia. by rewrite andb_false_r.
Qed.

(** Kernighan's loop counts the bits. *)
Lemma count_bits_step x :
  0 < x → is_u 32 x →
  count (Z.testbit (Z.land x (x - 1))) 0 32 = count (Z.testbit x) 0 32 - 1 ∧
  is_u 32 (Z.land x (x - 1)).
Proof.
  intros Hx Hu. split; [|apply land_is_u; [lia|done|lia]].
  destruct (odd_part x Hx) as (k & q & Hk & Hq & E).
  assert (Hp : 0 < 2 ^ k) by (apply Z.pow_pos_nonneg; lia).
  assert (Hlow : is_u k (2 ^ k - 1)) by (unfold is_u; lia).
  assert (H0 : is_u k 0) by (unfold is_u; lia).
  assert (Hl : Z.land x (x - 1) = (2 * q) * 2 ^ k + 0).
  { replace (x - 1) with ((2 * q) * 2 ^ k + (2 ^ k - 1)) by lia.
    rewrite E at 1. replace ((2 * q + 1) * 2 ^ k) with ((2 * q + 1) * 2 ^ k + 0) by lia.
    destruct (odd_even q) as (_ & Ho & _).
    by rewrite land_split, Z.land_0_l, Z.land_comm, Ho by done. }
  assert (Hk32 : k < 32).
  { destruct (Z.lt_ge_cases k 32) as [|H]; [done|]. unfold is_u in Hu.
    pose proof (Z.pow_le_mono_r 2 32 k). nia. }
  rewrite (count_update (Z.testbit x) _ 0 32 k); [|lia|].
  - rewrite Hl. rewrite E. replace ((2 * q + 1) * 2 ^ k) with ((2 * q + 1) * 2 ^ k + 0) by lia.
    rewrite !testbit_split, Z.ltb_irrefl, Z.sub_diag, Z.testbit_even_0, Z.testbit_odd_0 by done.
    lia.
  - intros i Hi Hne. rewrite Hl, E.
    replace ((2 * q + 1) * 2 ^ k) with ((2 * q + 1) * 2 ^ k + 0) by lia.
    rewrite !testbit_split by (done || lia). destruct (i <? k) eqn:Ei; [done|]. bool_prop.
    replace (i - k) with (Z.succ (i - k - 1)) by lia.
    rewrite Z.testbit_even_succ, Z.testbit_odd_succ by lia. done.
Qed.

Lemma count_bits_spec fuel : ∀ x n,
  is_u 32 x → count (Z.testbit x) 0 32 < Z.of_nat fuel →
  count_bits fuel x n = Ok (n + count (Z.testbit x) 0 32).
Proof.
  induction fuel as [|fuel IH]; intros x n Hx Hf.
  { pose proof (count_nonneg (Z.testbit x) 0 32). lia. }
  cbn [count_bits]. destruct (x =? 0) eqn:E; bool_prop.
  - subst. rewrite (count_none _ 0 32); [f_equal; lia|]. intros i Hi. apply Z.bits_0.
  - assert (0 < x) by (unfold is_u in Hx; lia).
    destruct (count_bits_step x) as [Hc Hu]; [done..|]. rewrite IH; [f_equal; lia|done|lia].
Qed.

(** ** Leaves *)

Lemma no_run_hint F c blk r :
  1 ≤ c ≤ 2147483648 → (∀ b, in_leaf b c → within b c blk r → ¬ run F b c) →
  hint_ok (c - 1) blk r F.
Proof.
  intros Hc H. split; [lia|]. intros b n Hn Hl Hw Hr. destruct (Z.lt_ge_cases n c); [lia|].
  exfalso. apply (H b); unfold in_leaf, within, run in *; [lia|lia|]. intros x Hx. apply Hr. lia.
Qed.

Lemma s32_hint x : 0 ≤ x < 2147483648 → s32 x = x.
Proof. intros. apply signed_of_small; [done|]. unfold is_s. lia. Qed.

Lemma bmu_avail_small n : 0 ≤ bmu n < 2147483648 → bmu_avail n = bmu n.
Proof. apply s32_hint. Qed.

Section Ops.
Context (B : Z).

(** What an allocation at a node of height [h] does. *)
Definition alloc_post (h : nat) (m : mem) (s blk c : Z) (F : Z → bool) (m' : mem) (r : Z) : Prop :=
  same_out s (W h) m m' ∧
  ((r = SWAPBLK_NONE ∧ good B h m' s blk F ∧
    ∀ b, in_leaf b c → within b c blk (R h) → ¬ run F b c) ∨
   (within r c blk (R h) ∧ in_leaf r c ∧ run F r c ∧ good B h m' s blk (minus F r c))).

Lemma good_leaf m s blk F :
  good B 0 m s blk F ↔ ∃ n, m !! s = Some n ∧ hint_ok (bm_bighint n) blk 32 F ∧
    is_u 32 (bmu n) ∧ ∀ i, 0 ≤ i < 32 → Z.testbit (bmu n) i = F (blk + i).
Proof.
  split.
  - intros [_ (n & H)]. by exists n.
  - intros (n & Hn & Hh & H). split; [|by exists n]. split; [|done].
    exists n. split; [done|]. destruct Hh. lia.
Qed.

Lemma leaf_clear m s blk F n mask j c :
  good B 0 m s blk F → m !! s = Some n → mask_of mask j c → 0 ≤ j →
  good B 0 (<[s := set_bitmap (Z.ldiff (bmu n) mask) n]> m) s blk (minus F (blk + j) c).
Proof.
  intros (n' & Hn & Hh & Hu & Hb)%good_leaf Hn' [_ Hm] Hj. rewrite Hn in Hn'. injection Hn' as ->.
  apply good_leaf. eexists. split; [apply lookup_insert_eq|]. cbn [bm_bighint set_bitmap bmu].
  assert (is_u 32 (Z.ldiff (bmu n) mask)) by (by apply ldiff_is_u).
  rewrite unsigned_of_small by done. split_and!; [|done|].
  - apply (hint_ok_sub _ _ _ F); [|done]. intros x _. apply minus_sub.
  - intros i Hi. rewrite Z.ldiff_spec, Hb, Hm by lia. unfold minus. by rewrite in_range_shift.
Qed.

Lemma leaf_set m s blk F n mask j c :
  good B 0 m s blk F → m !! s = Some n → mask_of mask j c → 0 ≤ j →
  good B 0 (<[s := set_bighint BLIST_BMAP_RADIX (set_bitmap (Z.lor (bmu n) mask) n)]> m) s blk
    (plus F (blk + j) c).
Proof.
  intros (n' & Hn & Hh & Hu & Hb)%good_leaf Hn' [Hmu Hm] Hj. rewrite Hn in Hn'. injection Hn' as ->.
  apply good_leaf. eexists. split; [apply lookup_insert_eq|].
  cbn [bm_bighint set_bitmap bmu set_bighint].
  assert (is_u 32 (Z.lor (bmu n) mask)) by (by apply lor_is_u).
  rewrite unsigned_of_small by done. split_and!; [|done|].
  - apply hint_ok_count; [lia|]. change (s32 BLIST_BMAP_RADIX) with 32.
    match goal with |- count ?f _ _ ≤ _ < _ => pose proof (count_range f blk (blk + 32)) end. lia.
  - intros i Hi. rewrite Z.lor_spec, Hb, Hm by lia. unfold plus. by rewrite in_range_shift.
Qed.

Lemma leaf_count m s blk F n :
  good B 0 m s blk F → m !! s = Some n → count (Z.testbit (bmu n)) 0 32 = count F blk (blk + 32).
Proof.
  intros (n' & Hn & _ & _ & Hb)%good_leaf Hn'. rewrite Hn in Hn'. injection Hn' as ->.
  unfold count. replace (Z.to_nat (32 - 0)) with 32%nat by lia.
  replace (Z.to_nat (blk + 32 - blk)) with 32%nat by lia.
  assert (H : ∀ k, (k ≤ 32)%nat → count_n (Z.testbit (bmu n)) 0 k = count_n F blk k).
  { induction k as [|k IH]; intros Hk; [done|]. cbn [count_n]. rewrite IH, Hb by lia. done. }
  by apply H.
Qed.

Lemma leaf_index blk b c :
  blk mod 32 = 0 → within b c blk 32 → 1 ≤ c → b mod 32 = b - blk ∧ b mod 32 + c ≤ 32.
Proof.
  intros Hblk [H1 H2] Hc. assert (E : b mod 32 = b - blk).
  { symmetry. apply Z.mod_unique with (blk / 32); [lia|].
    pose proof (Z.div_mod blk 32). lia. }
  split; lia.
Qed.

Lemma shr_ones c : 1 ≤ c ≤ 32 → shr32 ones32 (32 - c) = Ok (Z.ones c).
Proof.
  intros Hc. unfold shr32.
  replace ((0 <=? 32 - c) && (32 - c <? 32)) with true
    by (symmetry; apply andb_true_iff; rewrite Z.leb_le, Z.ltb_lt; lia).
  f_equal. apply Z.bits_inj'. intros i Hi.
  rewrite Z.shiftr_spec, testbit_ones32, Z.testbit_ones_nonneg by lia.
  destruct (i + (32 - c) <? 32) eqn:E1, (i <? c) eqn:E2; bool_prop; try done; lia.
Qed.

Lemma one_bit_mask r : 0 ≤ r < 32 → mask_of (Z.shiftl 1 r) r 1.
Proof.
  intros Hr. split.
  - rewrite Z.shiftl_1_l. unfold is_u. pose proof (Z.pow_pos_nonneg 2 r).
    pose proof (Z.pow_lt_mono_r 2 r 32). lia.
  - intros i Hi. rewrite Z.shiftl_1_l, Z.pow2_bits_eqb by lia. unfold in_range.
    destruct (r =? i) eqn:E, (r <=? i) eqn:E1, (i <? r + 1) eqn:E2; bool_prop; try done; lia.
Qed.

Lemma leaf_alloc_spec m s blk c F :
  good B 0 m s blk F → blk mod 32 = 0 → 1 ≤ c ≤ 32 →
  ∃ m' r, blst_leaf_alloc m s blk c = Ok (m', r) ∧ alloc_post 0 m s blk c F m' r.
Proof.
  intros Hg Hblk Hc. pose proof Hg as (n & Hn & Hh & Hu & Hb)%good_leaf.
  assert (Hout : ∀ x, same_out s (W 0) m (<[s := x]> m)) by (intros x; apply same_out_insert; change (W 0) with 1; lia).
  assert (Hkeep : ∀ hint, hint_ok hint blk 32 F → good B 0 (<[s := set_bighint hint n]> m) s blk F).
  { intros hint H. apply good_leaf. eexists. split; [apply lookup_insert_eq|].
    cbn [bm_bighint set_bighint bmu]. rewrite s32_hint by apply H. done. }
  assert (Hgot : ∀ j mask, mask_of mask j c → 0 ≤ j ≤ 32 - c →
     (∀ k, j ≤ k < j + c → Z.testbit (bmu n) k = true) →
     alloc_post 0 m s blk c F (<[s := set_bitmap (Z.ldiff (bmu n) mask) n]> m) (blk + j)).
  { intros j mask Hm Hj Hr. split; [done|]. right.
    assert (Hw : within (blk + j) c blk (R 0)) by (unfold within; change (R 0) with 32; lia).
    split_and!; [done|apply (leaf_index blk (blk + j) c Hblk Hw ltac:(lia))| |apply leaf_clear; [done..|lia]].
    intros x Hx. replace x with (blk + (x - blk)) by lia. rewrite <- Hb by lia. apply Hr. lia. }
  unfold blst_leaf_alloc, rd. rewrite Hn. cbn [obind]. unfold bmu_bitmap.
  destruct (bmu n =? 0) eqn:E0; bool_prop.
  { assert (He : empty F blk 32).
    { intros x Hx. replace x with (blk + (x - blk)) by lia. rewrite <- Hb, E0 by lia.
      apply Z.bits_0. }
    eexists _, _. split; [done|]. split; [done|]. left. split_and!; [done| |].
    - apply Hkeep, hint_ok_count; [lia|]. rewrite (count_none F blk 32) by done. lia.
    - intros b _ [Hw1 Hw2] Hr. cbn [R] in *. specialize (He b). rewrite Hr in He by lia.
      discriminate He. lia. }
  destruct (c =? 1) eqn:E1; bool_prop.
  { subst c. change (shr32 ones32 (BLIST_BMAP_RADIX / 2)) with (Ok (Z.ones (2 ^ Z.of_nat 5 / 2))).
    cbn [obind].
    destruct (lowest_bit_spec 5 (bmu n) (Z.ones (2 ^ Z.of_nat 5 / 2)) 0) as (r & E & Hr & Hbit & _).
    - apply Hu.
    - change (2 ^ (2 ^ Z.of_nat 5)) with (2 ^ 32). by rewrite Z.mod_small.
    - by right.
    - change (BLIST_BMAP_RADIX / 2) with (2 ^ Z.of_nat 5 / 2). rewrite E. cbn [obind].
      change (2 ^ Z.of_nat 5) with 32 in Hr. eexists _, _. split; [done|].
      apply Hgot; [by apply one_bit_mask|lia|]. intros k Hk. by replace k with r by lia. }
  unfold BLIST_BMAP_RADIX. replace (c <=? 32) with true by (symmetry; apply Z.leb_le; lia).
  rewrite shr_ones by done. cbn [obind].
  destruct (find_run_spec 33 (bmu n) (Z.ones c) 0 c) as (o & -> & Ho); [done|lia|lia| |].
  { intros _. by rewrite Z.shiftl_0_r. }
  cbn [obind]. destruct o as [[j mask]|].
  - destruct Ho as (H1 & H2 & H3). eexists _, _. split; [done|]. by apply Hgot.
  - assert (Hnone : ∀ b, in_leaf b c → within b c blk 32 → ¬ run F b c).
    { intros b _ [Hw1 Hw2] Hr. destruct (Ho (b - blk)) as (k & Hk & Hf); [lia|].
      rewrite Hb, Hr in Hf by lia. done. }
    eexists _, _. split; [done|]. split; [done|]. left. split_and!; [done| |done].
    apply Hkeep. by apply no_run_hint; [lia|].
Qed.

(** What a release of a range at a node does; likewise a fill. *)
Definition free_post (h : nat) (m : mem) (s blk b c : Z) (F : Z → bool) (m' : mem) : Prop :=
  same_out s (W h) m m' ∧ good B h m' s blk (plus F b c).

Definition fill_post (h : nat) (m : mem) (s blk b c : Z) (F : Z → bool) (m' : mem) (k : Z) : Prop :=
  same_out s (W h) m m' ∧ good B h m' s blk (minus F b c) ∧ k = count F b (b + c).

Lemma leaf_free_spec m s blk b c F :
  good B 0 m s blk F → blk mod 32 = 0 → 1 ≤ c → within b c blk 32 → empty F b c →
  ∃ m', blst_leaf_free m s b c = Ok m' ∧ free_post 0 m s blk b c F m'.
Proof.
  intros Hg Hblk Hc Hw He. pose proof Hg as (n & Hn & Hh & Hu & Hb)%good_leaf.
  destruct (leaf_index blk b c Hblk Hw Hc) as [Ei Hi].
  destruct (range_mask_spec b c Hc Hi) as (mask & E & Hm). rewrite Ei in Hm.
  destruct Hw as [Hw1 Hw2]. unfold blst_leaf_free. rewrite E. cbn [obind].
  unfold rd, bmu_bitmap. rewrite Hn. cbn [obind].
  rewrite (land_mask_0 _ mask (b - blk) c); [|done|lia|].
  - cbn [Z.eqb negb]. eexists. split; [done|]. split; [apply same_out_insert; change (W 0) with 1; lia|].
    replace (plus F b c) with (plus F (blk + (b - blk)) c) by (f_equal; lia).
    by apply leaf_set; [..|lia].
  - intros i Hi'. rewrite Hb by lia. apply He. lia.
Qed.

Lemma leaf_fill_spec m s blk b c F :
  good B 0 m s blk F → blk mod 32 = 0 → 1 ≤ c → within b c blk 32 →
  ∃ m' k, blst_leaf_fill m s b c = Ok (m', k) ∧ fill_post 0 m s blk b c F m' k.
Proof.
  intros Hg Hblk Hc Hw. pose proof Hg as (n & Hn & Hh & Hu & Hb)%good_leaf.
  destruct (leaf_index blk b c Hblk Hw Hc) as [Ei Hi].
  destruct (range_mask_spec b c Hc Hi) as (mask & E & Hm). rewrite Ei in Hm.
  destruct Hw as [Hw1 Hw2]. unfold blst_leaf_fill. rewrite E. cbn [obind].
  unfold rd, bmu_bitmap. rewrite Hn. cbn [obind].
  rewrite count_bits_spec.
  - cbn [obind]. eexists _, _. split; [done|]. split; [apply same_out_insert; change (W 0) with 1; lia|]. split.
    + replace (minus F b c) with (minus F (blk + (b - blk)) c) by (f_equal; lia).
      by apply leaf_clear; [..|lia].
    + set (G := Z.testbit (Z.land (bmu n) mask)).
      assert (HG : ∀ i, 0 ≤ i → G i = Z.testbit (bmu n) i && in_range (b - blk) c i).
      { intros i Hi'. unfold G. rewrite Z.land_spec. destruct Hm as [_ ->]; done. }
      rewrite (count_app G 0 (b - blk)), (count_app G (b - blk) (b - blk + c)) by lia.
      rewrite (count_ext G (λ _, false) 0), (count_ext G (λ _, false) (b - blk + c)).
      2,3: intros i Hi'; rewrite HG by lia;
        replace (in_range (b - blk) c i) with false by (symmetry; apply in_range_false; lia);
        apply andb_false_r.
      assert (H0 : ∀ x y, count (λ _, false) x y = 0).
      { intros x y. unfold count. generalize (Z.to_nat (y - x)) as k.
        induction k; cbn [count_n]; lia. }
      rewrite !H0. unfold count.
      replace (Z.to_nat (b - blk + c - (b - blk))) with (Z.to_nat c) by lia.
      replace (Z.to_nat (b + c - b)) with (Z.to_nat c) by lia.
      assert (H : ∀ k, (k ≤ Z.to_nat c)%nat → count_n G (b - blk) k = count_n F b k).
      { induction k as [|k IH]; intros Hk; [done|]. cbn [count_n]. rewrite IH, HG, Hb by lia.
        replace (in_range (b - blk) c (b - blk + Z.of_nat k)) with true
          by (symmetry; apply in_range_true; lia).
        replace (blk + (b - blk + Z.of_nat k)) with (b + Z.of_nat k) by lia.
        by rewrite andb_true_r. }
      rewrite H by done. lia.
  - apply land_is_u; [lia|done|]. apply Hm.
  - match goal with |- count ?f _ _ < _ => pose proof (count_range f 0 32) end. lia.
Qed.

(** ** Nodes that are wholly free or wholly allocated *)

(** Free blocks are under management. *)
Definition managed (F : Z → bool) : Prop := ∀ x, F x = true → 0 ≤ x < B.

Lemma managed_minus F b c : managed F → managed (minus F b c).
Proof. intros H x Hx. apply H. by apply minus_sub in Hx. Qed.

Lemma managed_plus F b c : managed F → 0 ≤ b → b + c ≤ B → managed (plus F b c).
Proof.
  intros H Hb Hc x. unfold plus. destruct (F x) eqn:E; [by intros; apply H|].
  cbn. rewrite in_range_true. lia.
Qed.

Lemma shape_node h m s blk : shape B h m s blk → ∃ n, m !! s = Some n ∧ bm_bighint n ≠ -1.
Proof. by destruct h; intros [H _]. Qed.

Lemma shape_root h m s blk n : shape B h m s blk → bm_bighint n ≠ -1 → shape B h (<[s := n]> m) s blk.
Proof.
  destruct h as [|h]; intros H Hn.
  - split; [|done]. exists n. by rewrite lookup_insert_eq.
  - apply shape_kids in H as (_ & H2 & H3). apply shape_kids. split_and!.
    + exists n. by rewrite lookup_insert_eq.
    + intros k Hk Hb. apply (shape_ext B _ m); [|by apply H2]. intros i Hi.
      pose proof (kid_span s h k Hk). apply lookup_insert_ne. lia.
    + by apply kids_term_root.
Qed.

(** A new hint, or a new count that is right, for a node that is wholly free or
    wholly allocated. *)
Lemma good_full h m s blk F n :
  shape B h m s blk → run F blk (R h) → (h ≤ 6)%nat → 32 ≤ bm_bighint n < 2147483648 →
  R h ≤ bm_bighint n →
  bmu n = (match h with O => ones32 | S _ => R h end) → good B h (<[s := n]> m) s blk F.
Proof.
  intros Hs Hr Hh Hn HnR Hb. pose proof (R_pos h). split; [apply shape_root; [done|lia]|].
  assert (Hhint : hint_ok (bm_bighint n) blk (R h) F).
  { apply hint_ok_count; [lia|]. rewrite count_run by (done || lia). lia. }
  destruct h as [|h].
  - exists n. split_and!; [by rewrite lookup_insert_eq|done| |]; rewrite Hb; [by_decide|].
    intros i Hi. rewrite testbit_ones32, Hr by (cbn [R]; lia). apply Z.ltb_lt. lia.
  - exists n. rewrite lookup_insert_eq, Hb. split_and!; [done|done| |done].
    pose proof (R_pos (S h)). by rewrite count_run by (done || lia).
Qed.

Lemma good_empty h m s blk F n :
  shape B h m s blk → empty F blk (R h) → 0 ≤ bm_bighint n < 2147483648 → bmu n = 0 →
  good B h (<[s := n]> m) s blk F.
Proof.
  intros Hs He Hn Hb. pose proof (R_pos h). split; [apply shape_root; [done|lia]|].
  assert (Hhint : hint_ok (bm_bighint n) blk (R h) F).
  { apply hint_ok_count; [lia|]. rewrite count_none by done. lia. }
  destruct h as [|h].
  - exists n. split_and!; [by rewrite lookup_insert_eq|done| |]; rewrite Hb; [by_decide|].
    intros i Hi. rewrite Z.bits_0, He by (cbn [R]; lia). done.
  - exists n. rewrite lookup_insert_eq, Hb. split_and!; [done|done| |done].
    by rewrite count_none.
Qed.

Lemma kid_start k : 0 ≤ k → ∀ s h, s + (1 + k * W h) = koff s h k.
Proof. done. Qed.

Lemma kid_next h k : 1 + k * W h + W h = 1 + (k + 1) * W h.
Proof. lia. Qed.

Lemma kblk_next blk h k : kblk blk h k + R h = kblk blk h (k + 1).
Proof. unfold kblk. lia. Qed.

Lemma same_kid s h k m m' : 0 ≤ k < 16 → same_out (koff s h k) (W h) m m' → same_out (s + 1) (16 * W h) m m'.
Proof. intros Hk. apply same_out_widen; unfold koff; pose proof (W_pos h); nia. Qed.

Lemma same_kid_root s h k m n : 0 ≤ k < 16 → same_out (koff s h k) (W h) m (<[koff s h k := n]> m).
Proof. intros Hk. apply same_out_insert. pose proof (W_pos h). lia. Qed.

Lemma init_free_spec h s blk F fuel : ∀ k m,
  (h ≤ 6)%nat → blk + R (S h) ≤ B → run F blk (R (S h)) → 0 ≤ k ≤ 16 → 16 - k < Z.of_nat fuel →
  (∀ j, 0 ≤ j < 16 → shape B h m (koff s h j) (kblk blk h j)) →
  (∀ j, 0 ≤ j < k → good B h m (koff s h j) (kblk blk h j) F) →
  ∃ m', init_free fuel m s (1 + k * W h) (skp (S h)) (W h) (R h) = Ok m' ∧
    same_out (s + 1) (16 * W h) m m' ∧ kids_good B h m' s blk F.
Proof.
  induction fuel as [|fuel IH]; intros k m Hh HB Hr Hk Hf Hs Hg; [lia|].
  cbn [init_free]. rewrite kid_index by lia. destruct (k <? 16) eqn:E; bool_prop.
  2:{ exists m. split_and!; [done|done|]. intros j Hj _. apply Hg. lia. }
  rewrite kid_start by lia.
  destruct (shape_node _ _ _ _ (Hs k ltac:(lia))) as (n & Hn & Hh1). unfold rd. rewrite Hn. cbn [obind].
  replace (bm_bighint n =? -1) with false by (symmetry; by apply Z.eqb_neq).
  set (c := if W h =? 1 then _ else _). rewrite kid_next.
  pose proof (R_bound h Hh) as HRb. pose proof (R_pos h) as HRp.
  assert (Hc : good B h (<[koff s h k := c]> m) (koff s h k) (kblk blk h k) F).
  { pose proof (kid_blocks blk h k). unfold c. rewrite W_leaf.
    apply good_full; try done; destruct h as [|h];
      cbn [set_bighint set_bitmap set_avail bmu bm_bighint].
    - apply Hs. lia.
    - apply Hs. lia.
    - intros x Hx. apply Hr. lia.
    - intros x Hx. apply Hr. lia.
    - done.
    - rewrite s32_hint by lia. lia.
    - done.
    - rewrite s32_hint by lia. lia.
    - done.
    - apply unsigned_of_small. unfold is_u. lia. }
  pose proof (same_kid_root s h k m c) as Hsame.
  destruct (IH (k + 1) (<[koff s h k := c]> m)) as (m' & -> & Hm' & Hg'); try done; try lia.
  - intros j Hj. destruct (decide (j = k)) as [->|Hne]; [apply Hc|].
    apply (shape_ext B _ m); [|by apply Hs]. intros i Hi. apply Hsame; [lia|].
    destruct (kids_disjoint s h j k); lia.
  - intros j Hj. destruct (decide (j = k)) as [->|Hne]; [apply Hc|].
    apply (good_ext B _ m _ _ _ F); [|done|apply Hg; lia]. intros i Hi. apply Hsame; [lia|].
    destruct (kids_disjoint s h j k); lia.
  - exists m'. split_and!; [done| |done]. apply (same_out_trans _ _ _ (<[koff s h k:=c]> m)); [|done].
    apply (same_kid _ _ k); [lia|]. apply Hsame. lia.
Qed.

Lemma init_alloc_spec h s blk F fuel : ∀ k m,
  empty F blk (R (S h)) → 0 ≤ k ≤ 16 → 16 - k < Z.of_nat fuel → kblk blk h k - R h < B →
  (∀ j, 0 ≤ j < 16 → kblk blk h j < B → shape B h m (koff s h j) (kblk blk h j)) →
  kids_term B h m s blk →
  (∀ j, 0 ≤ j < k → good B h m (koff s h j) (kblk blk h j) F) →
  ∃ m', init_alloc fuel m s (1 + k * W h) (skp (S h)) (W h) = Ok m' ∧
    same_out (s + 1) (16 * W h) m m' ∧ kids_good B h m' s blk F ∧ kids_term B h m' s blk.
Proof.
  induction fuel as [|fuel IH]; intros k m He Hk Hf HB Hs Ht Hg; [lia|].
  cbn [init_alloc]. rewrite kid_index by lia. destruct (k <? 16) eqn:E; bool_prop.
  2:{ exists m. split_and!; [done|done| |done]. intros j Hj _. apply Hg. lia. }
  rewrite kid_start by lia. destruct (Z.lt_ge_cases (kblk blk h k) B) as [HkB|HkB].
  2:{ destruct (Ht k) as (n & Hn & En); [lia|done|done|]. unfold rd. rewrite Hn. cbn [obind].
      rewrite En. cbn [Z.eqb]. exists m. split_and!; [done|done| |done].
      intros j Hj Hjb. apply Hg. pose proof (R_pos h). unfold kblk in *.
      destruct (Z.lt_ge_cases j k); [lia|nia]. }
  destruct (shape_node _ _ _ _ (Hs k ltac:(lia) HkB)) as (n & Hn & Hh1). unfold rd. rewrite Hn. cbn [obind].
  replace (bm_bighint n =? -1) with false by (symmetry; by apply Z.eqb_neq).
  set (c := if W h =? 1 then _ else _). rewrite kid_next.
  assert (Hc : good B h (<[koff s h k := c]> m) (koff s h k) (kblk blk h k) F).
  { pose proof (kid_blocks blk h k). apply good_empty.
    - apply Hs; lia.
    - intros x Hx. apply He. lia.
    - unfold c. by destruct (W h =? 1).
    - unfold c. by destruct (W h =? 1). }
  pose proof (same_kid_root s h k m c) as Hsame.
  destruct (IH (k + 1) (<[koff s h k := c]> m)) as (m' & -> & Hm' & Hg' & Ht'); try done; try lia.
  - rewrite <- kblk_next. lia.
  - intros j Hj HjB. destruct (decide (j = k)) as [->|Hne]; [apply Hc|].
    apply (shape_ext B _ m); [|by apply Hs]. intros i Hi. apply Hsame; [lia|].
    destruct (kids_disjoint s h j k); lia.
  - apply (kids_term_update B h m _ s blk k); [lia|done| |done]. apply Hsame. lia.
  - intros j Hj. destruct (decide (j = k)) as [->|Hne]; [apply Hc|].
    apply (good_ext B _ m _ _ _ F); [|done|apply Hg; lia]. intros i Hi. apply Hsame; [lia|].
    destruct (kids_disjoint s h j k); lia.
  - exists m'. split_and!; [done| |done|done].
    apply (same_out_trans _ _ _ (<[koff s h k:=c]> m)); [|done].
    apply (same_kid _ _ k); [lia|]. apply Hsame. lia.
Qed.

(** ** Allocation *)

(** A range inside a leaf does not straddle a multiple of 32. *)
Lemma in_leaf_side b c x : 1 ≤ c → in_leaf b c → x mod 32 = 0 → b + c ≤ x ∨ x ≤ b.
Proof.
  unfold in_leaf. intros Hc Hl Hx. pose proof (Z.div_mod b 32). pose proof (Z.div_mod x 32).
  pose proof (Z.mod_pos_bound b 32). destruct (Z.lt_ge_cases b x); [left|by right]. lia.
Qed.

Lemma kblk_aligned blk h k : blk mod 32 = 0 → kblk blk h k mod 32 = 0.
Proof.
  intros Hb. unfold kblk. destruct (R_32 h) as [q ->].
  replace (blk + k * (32 * q)) with (blk + (k * q) * 32) by lia. by rewrite Z.mod_add.
Qed.

Definition no_run (F : Z → bool) (c blk r : Z) : Prop :=
  ∀ b, in_leaf b c → within b c blk r → ¬ run F b c.

Lemma no_run_next F c blk h k :
  1 ≤ c → blk mod 32 = 0 → no_run F c blk (k * R h) → no_run F c (kblk blk h k) (R h) →
  no_run F c blk ((k + 1) * R h).
Proof.
  intros Hc Hb H1 H2 b Hl [Hw1 Hw2].
  destruct (in_leaf_side b c (kblk blk h k)) as [|]; [done|done|by apply kblk_aligned| |].
  - apply H1; [done|]. unfold within, kblk in *. lia.
  - apply H2; [done|]. unfold within, kblk in *. lia.
Qed.

Lemma no_run_beyond F c blk h k :
  1 ≤ c → blk mod 32 = 0 → managed F → B ≤ kblk blk h k → no_run F c blk (k * R h) →
  no_run F c blk (16 * R h).
Proof.
  intros Hc Hb HF HB H1 b Hl [Hw1 Hw2].
  destruct (in_leaf_side b c (kblk blk h k)) as [|]; [done|done|by apply kblk_aligned| |].
  - apply H1; [done|]. unfold within, kblk in *. lia.
  - intros Hr. specialize (HF b (Hr b ltac:(lia))). lia.
Qed.

Lemma good_hint h m s blk F n :
  good B h m s blk F → m !! s = Some n → hint_ok (bm_bighint n) blk (R h) F.
Proof. intros [_ Hs] Hn. destruct h; destruct Hs as (n' & Hn' & Hh & _); congruence. Qed.

Lemma within_widen b c blk r blk' r' :
  within b c blk r → blk' ≤ blk → blk + r ≤ blk' + r' → within b c blk' r'.
Proof. unfold within. lia. Qed.

Lemma alloc_loop_spec h s blk c F self fuel : ∀ k m,
  blk mod 32 = 0 → 0 ≤ blk → 1 ≤ c ≤ 32 → managed F → 0 ≤ k ≤ 16 → 16 - k < Z.of_nat fuel →
  (∀ m k, 0 ≤ k < 16 → kblk blk h k < B → good B h m (koff s h k) (kblk blk h k) F →
     ∃ m' r, self m (koff s h k) (kblk blk h k) = Ok (m', r) ∧
       alloc_post h m (koff s h k) (kblk blk h k) c F m' r) →
  kids_good B h m s blk F → kids_term B h m s blk → kblk blk h k - R h < B →
  no_run F c blk (k * R h) →
  ∃ m' o, alloc_loop self fuel m s (1 + k * W h) (kblk blk h k) c (skp (S h)) (W h) (R h) = Ok (m', o) ∧
    same_out (s + 1) (16 * W h) m m' ∧ kids_term B h m' s blk ∧
    match o with
    | Some r => r ≠ SWAPBLK_NONE ∧ within r c blk (R (S h)) ∧ in_leaf r c ∧ run F r c ∧
                kids_good B h m' s blk (minus F r c)
    | None => kids_good B h m' s blk F ∧ no_run F c blk (R (S h))
    end.
Proof.
  induction fuel as [|fuel IH]; intros k m Hblk Hpos Hc HF Hk Hf Hself Hg Ht HB Hno; [lia|].
  cbn [alloc_loop]. rewrite kid_index by lia. destruct (k <? 16) eqn:E; bool_prop.
  2:{ exists m, None. replace k with 16 in Hno by lia. done. }
  rewrite kid_start, kid_next, kblk_next by lia. destruct (Z.lt_ge_cases (kblk blk h k) B) as [HkB|HkB].
  2:{ destruct (Ht k) as (n & Hn & En); [lia|done|done|]. unfold rd. rewrite Hn. cbn [obind].
      rewrite En. replace (c <=? -1) with false by (symmetry; apply Z.leb_gt; lia). cbn [Z.eqb].
      exists m, None. split_and!; [done|done|done|done|]. apply (no_run_beyond F c blk h k); [lia|done..]. }
  pose proof (Hg k ltac:(lia) HkB) as Hgk.
  destruct (shape_node _ _ _ _ (proj1 Hgk)) as (n & Hn & Hn1). unfold rd. rewrite Hn. cbn [obind].
  pose proof (good_hint _ _ _ _ _ _ Hgk Hn) as Hhint.
  assert (Hnext : ∀ m1, same_out (koff s h k) (W h) m m1 → kids_good B h m1 s blk F →
    no_run F c (kblk blk h k) (R h) →
    ∃ m' o, alloc_loop self fuel m1 s (1 + (k + 1) * W h) (kblk blk h (k + 1)) c (skp (S h)) (W h) (R h)
        = Ok (m', o) ∧
    same_out (s + 1) (16 * W h) m m' ∧ kids_term B h m' s blk ∧
    match o with
    | Some r => r ≠ SWAPBLK_NONE ∧ within r c blk (R (S h)) ∧ in_leaf r c ∧ run F r c ∧
                kids_good B h m' s blk (minus F r c)
    | None => kids_good B h m' s blk F ∧ no_run F c blk (R (S h))
    end).
  { intros m1 Hm1 Hg1 Hno1.
    destruct (IH (k + 1) m1) as (m' & o & E1 & E2 & E3); try done; try lia.
    - apply (kids_term_update B h m _ s blk k); [lia|done..].
    - rewrite <- kblk_next. lia.
    - by apply no_run_next; [lia|..].
    - exists m', o. split_and!; [done| |apply E3..].
      apply (same_out_trans _ _ _ m1); [|done]. by apply (same_kid _ _ k); [lia|]. }
  destruct (c <=? bm_bighint n) eqn:Ec; bool_prop.
  - destruct (Hself m k) as (m1 & r & -> & Hm1 & Hpost); [lia|done|done|]. cbn [obind fst snd].
    destruct Hpost as [(-> & Hg1 & Hno1)|(Hw & Hl & Hr & Hg1)].
    + rewrite Z.eqb_refl. cbn [negb]. apply Hnext; [done| |done].
      apply (kids_update B h m _ s blk F F k); [lia|done|done|done|]. done.
    + pose proof (kid_blocks blk h k) as Hkb.
      replace (r =? SWAPBLK_NONE) with false.
      2:{ symmetry. apply Z.eqb_neq. unfold within, SWAPBLK_NONE in *. lia. }
      cbn [negb]. exists m1, (Some r). split_and!; [done| | | | |done|done|].
      * by apply (same_kid _ _ k); [lia|].
      * by apply (kids_term_update B h m _ s blk k); [lia|..].
      * unfold within, SWAPBLK_NONE in *. lia.
      * apply (within_widen _ _ _ _ _ _ Hw); lia.
      * apply (kids_update B h m _ s blk F _ k); [lia|done|done| |done].
        intros x Hx. apply minus_out, in_range_false. unfold within in *. lia.
  - replace (bm_bighint n =? -1) with false by (symmetry; by apply Z.eqb_neq).
    replace (c >? R h) with false.
    2:{ symmetry. rewrite Z.gtb_ltb. apply Z.ltb_ge. pose proof (R_pos h). lia. }
    apply Hnext; [done|done|]. intros b Hl Hw Hr. destruct Hhint as [_ Hhint].
    specialize (Hhint b c ltac:(lia) Hl Hw Hr). lia.
Qed.

Lemma good_inner h m s blk F n :
  good B (S h) m s blk F → m !! s = Some n → (S h ≤ 6)%nat → managed F → 0 ≤ blk →
  bmu n = count F blk (blk + R (S h)) ∧ bmu_avail n = bmu n ∧ 0 ≤ bmu n ≤ R (S h) ∧
  hint_ok (bm_bighint n) blk (R (S h)) F ∧ kids_term B h m s blk ∧
  (∀ j, 0 ≤ j < 16 → kblk blk h j < B → shape B h m (koff s h j) (kblk blk h j)) ∧
  (bmu n = 0 → empty F blk (R (S h))) ∧
  (bmu n = R (S h) → run F blk (R (S h)) ∧ blk + R (S h) ≤ B) ∧
  (bmu n ≠ 0 → bmu n ≠ R (S h) → kids_good B h m s blk F).
Proof.
  intros Hg Hn Hh HF Hpos. pose proof (R_bound (S h) Hh). pose proof (R_pos (S h)).
  pose proof (good_hint _ _ _ _ _ _ Hg Hn) as Hhint. destruct Hg as [Hs Hg].
  apply shape_kids in Hs as (_ & Hs & Ht). destruct Hg as (n' & Hn' & _ & Hc & Hk).
  rewrite Hn in Hn'. injection Hn' as <-.
  pose proof (count_range F blk (blk + R (S h)) ltac:(lia)) as Hcr.
  split_and!; try done; try lia.
  - apply bmu_avail_small. lia.
  - intros Hz x Hx. apply (count_zero F blk (blk + R (S h))); [lia|done].
  - intros HR. assert (Hrun : run F blk (R (S h))).
    { intros x Hx. apply (count_full F blk (blk + R (S h))); [lia|done]. }
    split; [done|]. specialize (HF _ (Hrun (blk + R (S h) - 1) ltac:(lia))). lia.
  - intros Hz HR k Hk16 HkB. split; [by apply Hs|by apply Hk].
Qed.

(** A meta node whose counter or hint changes over unchanged children. *)
Lemma good_rehint h m s blk F n n' :
  good B (S h) m s blk F → m !! s = Some n → bmu n' = bmu n →
  hint_ok (bm_bighint n') blk (R (S h)) F → good B (S h) (<[s := n']> m) s blk F.
Proof.
  intros [Hs Hg] Hn Hb Hh. split; [apply shape_root; [done|destruct Hh; lia]|].
  destruct Hg as (n0 & Hn0 & _ & Hc & Hk). rewrite Hn in Hn0. injection Hn0 as <-.
  cbn [sem]. exists n'. rewrite lookup_insert_eq. split_and!; [done|done|congruence|].
  rewrite Hb. intros H0 HR k Hk16 HkB. apply (sem_ext B h m _ _ _ F); [|done|by apply Hk].
  intros i Hi. pose proof (kid_span s h k Hk16). apply lookup_insert_ne. lia.
Qed.

(** The array part of a meta node and that of its children. *)
Lemma same_out_node h s m m' : same_out (s + 1) (16 * W h) m m' → same_out s (W (S h)) m m'.
Proof. apply same_out_widen; [lia|]. change (W (S h)) with (skp (S h) + 1). rewrite skp_S. lia. Qed.

Lemma same_out_root h s m n : same_out s (W h) m (<[s := n]> m).
Proof. apply same_out_insert. pose proof (W_pos h). lia. Qed.

(** Once the children are up to date: the first part of [blst_meta_alloc]. *)
Lemma alloc_prepare h m s blk F n :
  good B (S h) m s blk F → m !! s = Some n → (S h ≤ 6)%nat → managed F → 0 ≤ blk →
  bmu n ≠ 0 →
  ∃ m1 n1, (if bmu_avail n =? R (S h)
     then init_free loop_fuel (<[s := set_bighint (R (S h)) n]> m) s 1 (skp (S h)) (W h) (R h)
     else Ok m) = Ok m1 ∧ same_out s (W (S h)) m m1 ∧ m1 !! s = Some n1 ∧ bmu n1 = bmu n ∧
    hint_ok (bm_bighint n1) blk (R (S h)) F ∧ kids_good B h m1 s blk F ∧ kids_term B h m1 s blk.
Proof.
  intros Hg Hn Hh HF Hpos Hn0. pose proof (R_bound (S h) Hh) as Hb. pose proof (R_pos (S h)).
  destruct (good_inner h m s blk F n Hg Hn Hh HF Hpos) as
    (Hc & Ha & Hr & Hhint & Ht & Hs & _ & Hfull & Hkids).
  rewrite Ha. destruct (bmu n =? R (S h)) eqn:E; bool_prop.
  - destruct (Hfull E) as [Hrun HB].
    set (n1 := set_bighint (R (S h)) n). set (m0 := <[s := n1]> m).
    destruct (init_free_spec h s blk F loop_fuel 0 m0) as (m1 & E1 & Hm1 & Hg1); try done; try lia.
    + intros j Hj. pose proof (kid_blocks blk h j Hj). pose proof (R_pos h).
      apply (shape_ext B _ m); [|apply Hs; lia]. intros i Hi. pose proof (kid_span s h j Hj).
      unfold m0. apply lookup_insert_ne. lia.
    + rewrite Z.mul_0_l, Z.add_0_r in E1. rewrite E1.
      assert (Hs1 : m1 !! s = Some n1).
      { rewrite Hm1 by lia. apply lookup_insert_eq. }
      exists m1, n1. split_and!; try done.
      * apply (same_out_trans _ _ _ m0); [by apply same_out_root|by apply same_out_node].
      * cbn [bm_bighint set_bighint n1]. rewrite s32_hint by lia. apply hint_ok_count; [lia|].
        rewrite count_run by (done || lia). lia.
      * intros k Hk HkB. exfalso. pose proof (kid_blocks blk h k Hk). pose proof (R_pos h). lia.
  - exists m, n. split_and!; try done. by apply Hkids.
Qed.

Lemma meta_alloc_step h fuel m s blk c F :
  (S h ≤ 6)%nat → managed F → 0 ≤ blk < B → blk mod 32 = 0 → 1 ≤ c ≤ 32 →
  (∀ m s blk, 0 ≤ blk < B → blk mod 32 = 0 → good B h m s blk F →
    ∃ m' r, (if W h =? 1 then blst_leaf_alloc m s blk c
             else blst_meta_alloc fuel m s blk c (R h) (W h - 1)) = Ok (m', r) ∧
      alloc_post h m s blk c F m' r) →
  good B (S h) m s blk F →
  ∃ m' r, blst_meta_alloc (S fuel) m s blk c (R (S h)) (skp (S h)) = Ok (m', r) ∧
    alloc_post (S h) m s blk c F m' r.
Proof.
  intros Hh HF Hpos Hal Hc Hself Hg. pose proof (R_bound (S h) Hh). pose proof (R_pos (S h)).
  destruct (shape_node _ _ _ _ (proj1 Hg)) as (n & Hn & _).
  destruct (good_inner h m s blk F n Hg Hn Hh HF) as (Hcnt & Ha & Hr & _ & _ & _ & Hemp & _); [lia|].
  cbn [blst_meta_alloc]. rewrite skp_div, R_div. unfold rd at 1. rewrite Hn. cbn [obind].
  rewrite Ha. destruct (bmu n =? 0) eqn:E0; bool_prop.
  { exists (<[s := set_bighint 0 n]> m), SWAPBLK_NONE. split; [done|].
    split; [by apply same_out_root|]. left. specialize (Hemp E0). split_and!; [done| |].
    - apply (good_rehint h m s blk F n); [done..|]. apply hint_ok_count; [lia|].
      rewrite count_none by done. change (bm_bighint (set_bighint 0 n)) with 0. lia.
    - intros b _ [Hw1 Hw2] Hrun. specialize (Hemp b ltac:(lia)).
      rewrite Hrun in Hemp by lia. done. }
  rewrite <- Ha.
  destruct (alloc_prepare h m s blk F n) as (m1 & n1 & -> & Hm1 & Hn1 & Hb1 & Hh1 & Hg1 & Ht1);
    [done..|lia|done|]. cbn [obind].
  destruct (alloc_loop_spec h s blk c F (λ m s blk, if W h =? 1 then blst_leaf_alloc m s blk c
             else blst_meta_alloc fuel m s blk c (R h) (W h - 1)) loop_fuel 0 m1)
    as (m2 & o & E2 & Hm2 & Ht2 & Ho); try done; try lia.
  - intros m' k Hk HkB Hgk. apply Hself; [|by apply kblk_aligned|done].
    pose proof (kid_blocks blk h k Hk). lia.
  - unfold kblk. pose proof (R_pos h). lia.
  - intros b _ [Hw1 Hw2]. lia.
  - rewrite Z.mul_0_l, Z.add_0_r in E2. unfold kblk in E2. rewrite Z.mul_0_l, Z.add_0_r in E2.
    rewrite E2. cbn [obind fst snd].
    assert (Hn2 : m2 !! s = Some n1) by (rewrite Hm2 by lia; done).
    unfold rd. rewrite Hn2. cbn [obind].
    assert (Hm02 : ∀ x, same_out s (W (S h)) m (<[s := x]> m2)).
    { intros x. apply (same_out_trans _ _ _ m1); [done|]. apply (same_out_trans _ _ _ m2);
        [by apply same_out_node|apply same_out_root]. }
    destruct o as [r|].
    + destruct Ho as (Hr0 & Hw & Hl & Hrun & Hg2).
      set (n2 := set_avail (bmu_avail n1 - c) n1).
      assert (Hcnt2 : count (minus F r c) blk (blk + R (S h)) = bmu n - c).
      { destruct Hw. rewrite count_minus by (done || lia). lia. }
      pose proof (count_nonneg (minus F r c) blk (blk + R (S h))) as Hge.
      assert (Hb2 : bmu n2 = bmu n - c).
      { cbn. rewrite bmu_avail_small, Hb1 by lia. apply unsigned_of_small. unfold is_u. lia. }
      assert (Ha2 : bmu_avail n2 = bmu n - c) by (rewrite bmu_avail_small; lia).
      rewrite Ha2. eexists _, _. split; [done|]. split; [done|]. right. split_and!; [done..|].
      eapply good_node; [apply lookup_insert_eq| | |by apply kids_good_root|by apply kids_term_root].
      * destruct (bm_bighint n2 >? bmu n - c) eqn:E; bool_prop.
        -- cbn [set_bighint bm_bighint]. rewrite s32_hint by lia. apply hint_ok_count; lia.
        -- apply (hint_ok_sub _ _ _ F); [|done]. intros x _. apply minus_sub.
      * rewrite Hcnt2. by destruct (bm_bighint n2 >? bmu n - c).
    + destruct Ho as [Hg2 Hno]. eexists _, _. split; [done|]. split; [done|]. left.
      split_and!; [done| |done].
      eapply good_node; [apply lookup_insert_eq| | |by apply kids_good_root|by apply kids_term_root].
      * destruct (bm_bighint n1 >=? c) eqn:E; bool_prop; [|done].
        cbn [set_bighint bm_bighint]. rewrite s32_hint by lia. by apply no_run_hint; [lia|].
      * rewrite <- Hcnt, <- Hb1. by destruct (bm_bighint n1 >=? c).
Qed.

Lemma meta_alloc_spec c F : ∀ h fuel m s blk,
  (S h ≤ 6)%nat → (h < fuel)%nat → managed F → 0 ≤ blk < B → blk mod 32 = 0 → 1 ≤ c ≤ 32 →
  good B (S h) m s blk F →
  ∃ m' r, blst_meta_alloc fuel m s blk c (R (S h)) (skp (S h)) = Ok (m', r) ∧
    alloc_post (S h) m s blk c F m' r.
Proof.
  induction h as [|h IH]; intros fuel m s blk Hh Hfuel HF Hpos Hal Hc Hg;
    (destruct fuel as [|fuel]; [lia|]); apply meta_alloc_step; try done.
  - intros m0 s0 blk0 _ Hal0 Hg0. by apply leaf_alloc_spec.
  - intros m0 s0 blk0 Hp0 Hal0 Hg0. rewrite W_leaf. unfold W. rewrite Z.add_simpl_r.
    apply IH; try done; lia.
Qed.

(** ** Release *)

Lemma kids_good_ext h m s blk F G :
  (∀ x, F x = G x) → kids_good B h m s blk F → kids_good B h m s blk G.
Proof.
  intros H Hg k Hk HkB. apply (good_ext B h m _ _ _ F); [done| |by apply Hg].
  intros x _. by rewrite H.
Qed.

Lemma hint_ok_ext hint blk r F G : (∀ x, F x = G x) → hint_ok hint blk r F → hint_ok hint blk r G.
Proof. intros H. apply hint_ok_sub. intros x _. by rewrite H. Qed.

Lemma good_ext_set h m s blk F G : (∀ x, F x = G x) → good B h m s blk F → good B h m s blk G.
Proof. intros H. apply good_ext; [done|]. intros x _. by rewrite H. Qed.

Lemma in_range_split b v c x : 0 ≤ v ≤ c → in_range b v x || in_range (b + v) (c - v) x = in_range b c x.
Proof.
  intros Hv. destruct (in_range b c x) eqn:E.
  - apply in_range_true in E. apply orb_true_iff. rewrite !in_range_true. lia.
  - apply in_range_false in E. apply orb_false_iff. rewrite !in_range_false. lia.
Qed.

Lemma plus_split F b v c x : 0 ≤ v ≤ c → plus (plus F b v) (b + v) (c - v) x = plus F b c x.
Proof. intros Hv. unfold plus. by rewrite <- orb_assoc, in_range_split. Qed.

Lemma minus_split F b v c x : 0 ≤ v ≤ c → minus (minus F b v) (b + v) (c - v) x = minus F b c x.
Proof.
  intros Hv. unfold minus. rewrite <- andb_assoc, <- negb_orb. by rewrite in_range_split.
Qed.

(** The runs of a node whose child [k] has changed are those of the child or
    runs as before. *)
Lemma hint_ok_kid h blk k hint hk F G :
  blk mod 32 = 0 → hint_ok hint blk (R (S h)) F → hint_ok hk (kblk blk h k) (R h) G →
  (∀ x, (x < kblk blk h k ∨ kblk blk h k + R h ≤ x) → G x = F x) →
  hint_ok (Z.max hint hk) blk (R (S h)) G.
Proof.
  intros Hblk [H1 H2] [H3 H4] HG. split; [lia|]. intros b n Hn Hl Hw Hr.
  assert (Ha : kblk blk h k mod 32 = 0) by (by apply kblk_aligned).
  assert (Ha2 : (kblk blk h k + R h) mod 32 = 0).
  { rewrite kblk_next. by apply kblk_aligned. }
  destruct (in_leaf_side b n _ Hn Hl Ha) as [Hs|Hs];
    [|destruct (in_leaf_side b n _ Hn Hl Ha2) as [Hs2|Hs2]].
  - specialize (H2 b n Hn Hl Hw). enough (run F b n) by (specialize (H2 H); lia).
    intros x Hx. rewrite <- HG by lia. by apply Hr.
  - specialize (H4 b n Hn Hl). enough (within b n (kblk blk h k) (R h)) by (specialize (H4 H Hr); lia).
    unfold within. lia.
  - specialize (H2 b n Hn Hl Hw). enough (run F b n) by (specialize (H2 H); lia).
    intros x Hx. rewrite <- HG by lia. by apply Hr.
Qed.

(** A walk over the children that a range meets: at child [k] either the rest
    of the range begins in it, or the range is used up. *)
Definition walk_at (blk : Z) (h : nat) (k fb c : Z) : Prop :=
  (kblk blk h k ≤ fb < kblk blk h k + R h ∧ 1 ≤ c) ∨ (c = 0 ∧ fb ≤ kblk blk h k).

Lemma walk_index blk h k fb c :
  walk_at blk h k fb c → fb + c ≤ blk + R (S h) → 0 ≤ k →
  ((1 + k * W h <=? skp (S h)) && (kblk blk h k <? fb + c) = true ∧ k < 16 ∧
     kblk blk h k ≤ fb < kblk blk h k + R h ∧ 1 ≤ c) ∨
  ((1 + k * W h <=? skp (S h)) && (kblk blk h k <? fb + c) = false ∧ c = 0).
Proof.
  intros [[H1 H2]|[-> H1]] He Hk; [left|right].
  - assert (Hk16 : k < 16).
    { unfold kblk in H1. change (R (S h)) with (16 * R h) in He. pose proof (R_pos h). nia. }
    rewrite kid_index by lia. split_and!; try done; try lia.
  - split; [|done]. apply andb_false_iff. right. apply Z.ltb_ge. lia.
Qed.

Lemma walk_step blk h k fb c :
  kblk blk h k ≤ fb < kblk blk h k + R h → 1 ≤ c →
  let v := kblk blk h k + R h - fb in
  let v := if v >? c then c else v in
  1 ≤ v ≤ c ∧ within fb v (kblk blk h k) (R h) ∧ walk_at blk h (k + 1) (fb + v) (c - v).
Proof.
  intros H1 H2 v v'. unfold walk_at, within. rewrite <- kblk_next. pose proof (R_pos h).
  subst v'. destruct (v >? c) eqn:E; bool_prop; unfold v in *; split_and!; try lia.
Qed.

Lemma walk_first blk h b c :
  blk ≤ b → 1 ≤ c → let k := (b - blk) / R h in 0 ≤ k ∧ walk_at blk h k b c ∧ blk + k * R h = kblk blk h k.
Proof.
  intros Hb Hc k. pose proof (R_pos h). assert (0 ≤ k) by (apply Z.div_pos; lia).
  split_and!; [done| |done]. left. unfold kblk, k.
  pose proof (Z.div_mod (b - blk) (R h)). pose proof (Z.mod_pos_bound (b - blk) (R h)). lia.
Qed.

Lemma free_loop_spec h s blk self fuel : ∀ k m fb c G n,
  blk mod 32 = 0 → 0 ≤ blk → 0 ≤ k → Z.max 0 (16 - k) < Z.of_nat fuel → managed G →
  fb + c ≤ B → fb + c ≤ blk + R (S h) → walk_at blk h k fb c → empty G fb c →
  (∀ m k fb v G, 0 ≤ k < 16 → kblk blk h k < B → good B h m (koff s h k) (kblk blk h k) G →
     managed G → 1 ≤ v → within fb v (kblk blk h k) (R h) → fb + v ≤ B → empty G fb v →
     ∃ m', self m (koff s h k) fb v (kblk blk h k) = Ok m' ∧
       free_post h m (koff s h k) (kblk blk h k) fb v G m') →
  kids_good B h m s blk G → kids_term B h m s blk → m !! s = Some n →
  hint_ok (bm_bighint n) blk (R (S h)) G →
  ∃ m' n', free_loop self fuel m s (1 + k * W h) fb c (kblk blk h k) (skp (S h)) (W h) (R h) = Ok m' ∧
    same_out s (W (S h)) m m' ∧ m' !! s = Some n' ∧ bmu n' = bmu n ∧
    hint_ok (bm_bighint n') blk (R (S h)) (plus G fb c) ∧
    kids_good B h m' s blk (plus G fb c) ∧ kids_term B h m' s blk.
Proof.
  induction fuel as [|fuel IH]; intros k m fb c G n Hblk Hpos Hk Hf HG HeB Heb Hwk He Hself Hg Ht Hn Hh;
    [lia|].
  cbn [free_loop].
  destruct (walk_index blk h k fb c) as [(-> & Hk16 & Hfb & Hc)|(-> & ->)]; [done..| |].
  2:{ assert (Hsame : ∀ x, G x = plus G fb 0 x).
      { intros x. rewrite plus_out; [done|]. apply in_range_false. lia. }
      exists m, n. split_and!; [done|done|done|done| | |done].
      - by apply (hint_ok_ext _ _ _ G).
      - by apply (kids_good_ext _ _ _ _ G). }
  destruct (walk_step blk h k fb c) as (Hv & Hw & Hnext); [done..|]. cbn zeta in Hv, Hw, Hnext.
  set (v := if _ >? c then c else _) in *.
  unfold rd. rewrite Hn. cbn [obind].
  replace (bm_bighint n =? -1) with false by (symmetry; apply Z.eqb_neq; destruct Hh; lia).
  rewrite kid_start, kid_next, kblk_next by lia.
  destruct (Hself m k fb v G) as (m1 & -> & Hm1 & Hg1); [lia|lia|apply Hg; lia|done|lia|done|lia| |].
  { intros x Hx. apply He. lia. }
  cbn [obind]. pose proof (kid_span s h k ltac:(lia)) as Hsp.
  assert (Hn1 : m1 !! s = Some n) by (rewrite Hm1 by lia; done). rewrite Hn1. cbn [obind].
  destruct (shape_node _ _ _ _ (proj1 Hg1)) as (ch & Hch & _). rewrite Hch. cbn [obind].
  pose proof (good_hint _ _ _ _ _ _ Hg1 Hch) as Hhk.
  assert (Hout : ∀ x, (x < kblk blk h k ∨ kblk blk h k + R h ≤ x) → plus G fb v x = G x).
  { intros x Hx. apply plus_out, in_range_false. destruct Hw. lia. }
  assert (Hhm : hint_ok (Z.max (bm_bighint n) (bm_bighint ch)) blk (R (S h)) (plus G fb v))
    by (by apply (hint_ok_kid h blk k _ _ G)).
  assert (Hg2 : kids_good B h m1 s blk (plus G fb v)).
  { apply (kids_update B h m _ s blk G _ k); [lia|done..]. }
  assert (Ht2 : kids_term B h m1 s blk).
  { apply (kids_term_update B h m _ s blk k); [lia|done|done|lia]. }
  assert (Hrest : ∀ m2 n2, same_out s (W (S h)) m1 m2 → m2 !! s = Some n2 → bmu n2 = bmu n →
     hint_ok (bm_bighint n2) blk (R (S h)) (plus G fb v) → kids_good B h m2 s blk (plus G fb v) →
     kids_term B h m2 s blk →
     ∃ m' n', free_loop self fuel m2 s (1 + (k + 1) * W h) (fb + v) (c - v) (kblk blk h (k + 1))
        (skp (S h)) (W h) (R h) = Ok m' ∧
    same_out s (W (S h)) m m' ∧ m' !! s = Some n' ∧ bmu n' = bmu n ∧
    hint_ok (bm_bighint n') blk (R (S h)) (plus G fb c) ∧
    kids_good B h m' s blk (plus G fb c) ∧ kids_term B h m' s blk).
  { intros m2 n2 Hm2 Hn2 Hb2 Hh2 Hg3 Ht3.
    destruct (IH (k + 1) m2 (fb + v) (c - v) (plus G fb v) n2) as
      (m' & n' & E1 & E2 & E3 & E4 & E5 & E6 & E7); try done; try lia.
    - apply managed_plus; [done| |lia]. destruct Hw. pose proof (kid_blocks blk h k). lia.
    - intros x Hx. rewrite plus_out; [apply He; lia|]. apply in_range_false. lia.
    - exists m', n'. split_and!; [done| |done|congruence| | |done].
      + apply (same_out_trans _ _ _ m2); [|done]. apply (same_out_trans _ _ _ m1); [|done].
        apply same_out_node. by apply (same_kid _ _ k); [lia|].
      + eapply hint_ok_ext; [|exact E5]. intros x. apply plus_split. lia.
      + eapply kids_good_ext; [|exact E6]. intros x. apply plus_split. lia. }
  destruct (bm_bighint n <? bm_bighint ch) eqn:E; bool_prop.
  - apply (Hrest _ (set_bighint (bm_bighint ch) n)).
    + apply same_out_root.
    + apply lookup_insert_eq.
    + done.
    + cbn [bm_bighint set_bighint]. rewrite s32_hint by (destruct Hhk; lia).
      by rewrite Z.max_r in Hhm by lia.
    + by apply kids_good_root.
    + by apply kids_term_root.
  - apply (Hrest m1 n); try done. by rewrite Z.max_l in Hhm by lia.
Qed.

(** The counter of a node takes up the range: wholly free again, or children
    that are up to date. *)
Lemma free_prepare h m s blk b c F n :
  good B (S h) m s blk F → m !! s = Some n → (S h ≤ 6)%nat → managed F → 0 ≤ blk < B →
  1 ≤ c → within b c blk (R (S h)) → empty F b c →
  ∃ m1 n1,
    (if bmu_avail n =? 0
     then let m := <[s := set_bighint c (set_avail c n)]> m in
          if negb (c =? R (S h)) then init_alloc loop_fuel m s 1 (skp (S h)) (W h) else Ok m
     else Ok (<[s := set_avail (bmu_avail n + c) n]> m)) = Ok m1 ∧
    same_out s (W (S h)) m m1 ∧ m1 !! s = Some n1 ∧
    bmu n1 = count (plus F b c) blk (blk + R (S h)) ∧ shape B (S h) m1 s blk ∧
    hint_ok (bm_bighint n1) blk (R (S h)) F ∧
    (bmu n1 ≠ R (S h) → kids_good B h m1 s blk F ∧ kids_term B h m1 s blk).
Proof.
  intros Hg Hn Hh HF Hpos Hc Hw He. pose proof (R_bound (S h) Hh) as HRb. pose proof (R_pos (S h)).
  pose proof Hw as [Hw1 Hw2].
  destruct (good_inner h m s blk F n Hg Hn Hh HF) as
    (Hcnt & Ha & Hr & Hhint & Ht & Hs & Hemp & _ & Hkids); [lia|].
  assert (Hcnt' : count (plus F b c) blk (blk + R (S h)) = bmu n + c).
  { rewrite count_plus by (done || lia). lia. }
  pose proof (count_range (plus F b c) blk (blk + R (S h)) ltac:(lia)) as Hcr.
  rewrite Ha. destruct (bmu n =? 0) eqn:E0; bool_prop.
  - set (n1 := set_bighint c (set_avail c n)). cbn zeta. set (m0 := <[s := n1]> m).
    assert (Hb1 : bmu n1 = c) by (apply unsigned_of_small; unfold is_u; lia).
    assert (Hh1 : bm_bighint n1 = c) by (apply s32_hint; lia).
    assert (Hs0 : shape B (S h) m0 s blk) by (apply shape_root; [apply Hg|lia]).
    assert (Hhok : hint_ok (bm_bighint n1) blk (R (S h)) F).
    { apply hint_ok_count; lia. }
    destruct (c =? R (S h)) eqn:Ec; bool_prop; cbn [negb].
    + exists m0, n1. split_and!; try done; [apply same_out_root|apply lookup_insert_eq|lia|].
      intros Hne. lia.
    + apply shape_kids in Hs0 as (_ & Hs0 & Ht0).
      destruct (init_alloc_spec h s blk F loop_fuel 0 m0) as (m1 & E1 & Hm1 & Hg1 & Ht1);
        try done; try lia; [by apply Hemp|unfold kblk; pose proof (R_pos h); lia|].
      rewrite Z.mul_0_l, Z.add_0_r in E1. rewrite E1.
      assert (Hn1 : m1 !! s = Some n1) by (rewrite Hm1 by lia; apply lookup_insert_eq).
      exists m1, n1. split_and!; try done.
      * apply (same_out_trans _ _ _ m0); [apply same_out_root|by apply same_out_node].
      * lia.
      * apply shape_kids. split_and!; [|intros k ??; by apply Hg1|done].
        exists n1. split; [done|lia].
  - set (n1 := set_avail (bmu n + c) n).
    assert (Hb1 : bmu n1 = bmu n + c) by (apply unsigned_of_small; unfold is_u; lia).
    exists (<[s := n1]> m), n1. split_and!; try done.
    + apply same_out_root.
    + apply lookup_insert_eq.
    + lia.
    + apply shape_root; [apply Hg|]. destruct Hhint. cbn. lia.
    + intros Hne. split; [apply kids_good_root, Hkids; lia|by apply kids_term_root].
Qed.

Lemma meta_free_step h fuel m s blk b c F :
  (S h ≤ 6)%nat → managed F → 0 ≤ blk < B → blk mod 32 = 0 → 1 ≤ c →
  within b c blk (R (S h)) → b + c ≤ B → empty F b c →
  (∀ m s blk b c F, 0 ≤ blk < B → blk mod 32 = 0 → good B h m s blk F → managed F → 1 ≤ c →
     within b c blk (R h) → b + c ≤ B → empty F b c →
    ∃ m', (if W h =? 1 then blst_leaf_free m s b c
           else blst_meta_free fuel m s b c (R h) (W h - 1) blk) = Ok m' ∧
      free_post h m s blk b c F m') →
  good B (S h) m s blk F →
  ∃ m', blst_meta_free (S fuel) m s b c (R (S h)) (skp (S h)) blk = Ok m' ∧
    free_post (S h) m s blk b c F m'.
Proof.
  intros Hh HF Hpos Hal Hc Hw HbB He Hself Hg. pose proof (R_bound (S h) Hh). pose proof (R_pos (S h)).
  destruct (shape_node _ _ _ _ (proj1 Hg)) as (n & Hn & _).
  destruct (free_prepare h m s blk b c F n) as (m1 & n1 & E1 & Hm1 & Hn1 & Hb1 & Hs1 & Hh1 & Hk1);
    [done..|].
  pose proof Hw as [Hw1 Hw2].
  pose proof (count_range (plus F b c) blk (blk + R (S h)) ltac:(lia)) as Hcr.
  cbn [blst_meta_free]. rewrite skp_div, R_div. unfold rd at 1. rewrite Hn. cbn [obind].
  cbn zeta in E1. rewrite E1. cbn [obind]. unfold rd at 1. rewrite Hn1. cbn [obind].
  rewrite (bmu_avail_small n1) by lia.
  destruct (bmu n1 =? R (S h)) eqn:Ef; bool_prop.
  { eexists. split; [done|].
    split; [apply (same_out_trans _ _ _ m1); [done|apply same_out_root]|].
    apply good_full; [done| |done| | |done]; cbn [set_bighint bm_bighint].
    - intros x Hx. apply (count_full _ blk (blk + R (S h))); [lia|done].
    - rewrite s32_hint by lia. lia.
    - rewrite s32_hint by lia. lia. }
  replace (bmu n1 >? R (S h)) with false by (symmetry; rewrite Z.gtb_ltb; apply Z.ltb_ge; lia).
  destruct (Hk1 Ef) as [Hg1 Ht1].
  destruct (walk_first blk h b c Hw1 Hc) as (Hk & Hwk & ->). set (k := (b - blk) / R h) in *.
  replace (k * W h + 1) with (1 + k * W h) by lia.
  destruct (free_loop_spec h s blk (λ m scan freeBlk v blk,
      if W h =? 1 then blst_leaf_free m scan freeBlk v
      else blst_meta_free fuel m scan freeBlk v (R h) (W h - 1) blk) loop_fuel k m1 b c F n1)
    as (m2 & n2 & E2 & Hm2 & Hn2 & Hb2 & Hh2 & Hg2 & Ht2); try done; try lia.
  - unfold loop_fuel. lia.
  - intros m' k' fb v G Hk' HkB Hgk HG Hv Hwv HvB Hev.
    apply Hself; try done; [|by apply kblk_aligned].
    pose proof (kid_blocks blk h k' Hk'). lia.
  - exists m2. split; [exact E2|]. split; [by apply (same_out_trans _ _ _ m1)|].
    apply (good_node B h m2 s blk _ n2); try done. lia.
Qed.

Lemma meta_free_spec : ∀ h fuel m s blk b c F,
  (S h ≤ 6)%nat → (h < fuel)%nat → 0 ≤ blk < B → blk mod 32 = 0 →
  good B (S h) m s blk F → managed F → 1 ≤ c →
  within b c blk (R (S h)) → b + c ≤ B → empty F b c →
  ∃ m', blst_meta_free fuel m s b c (R (S h)) (skp (S h)) blk = Ok m' ∧
    free_post (S h) m s blk b c F m'.
Proof.
  induction h as [|h IH]; intros fuel m s blk b c F Hh Hfuel Hpos Hal Hg HF Hc Hw HbB He;
    (destruct fuel as [|fuel]; [lia|]); apply meta_free_step; try done.
  - intros m0 s0 blk0 b0 c0 F0 _ Hal0 Hg0 _ Hc0 Hw0 _ He0. by apply leaf_free_spec.
  - intros m0 s0 blk0 b0 c0 F0 Hp0 Hal0 Hg0 HF0 Hc0 Hw0 Hb0 He0. rewrite W_leaf. unfold W.
    rewrite Z.add_simpl_r. apply IH; try done; lia.
Qed.

(** ** Filling *)

Lemma count_split F b v c : 0 ≤ v ≤ c →
  count F b (b + c) = count F b (b + v) + count (minus F b v) (b + v) (b + v + (c - v)).
Proof.
  intros Hv. rewrite (count_app F b (b + v)) by lia. f_equal.
  replace (b + v + (c - v)) with (b + c) by lia. apply count_ext. intros x Hx.
  symmetry. apply minus_out, in_range_false. lia.
Qed.

Lemma fill_loop_spec h s blk self fuel : ∀ k m fb c G n acc,
  blk mod 32 = 0 → 0 ≤ blk → 0 ≤ k → Z.max 0 (16 - k) < Z.of_nat fuel →
  fb + c ≤ B → fb + c ≤ blk + R (S h) → walk_at blk h k fb c → c ≤ 32 → managed G →
  (∀ m k fb v G, 0 ≤ k < 16 → kblk blk h k < B → good B h m (koff s h k) (kblk blk h k) G →
     managed G → 1 ≤ v ≤ 32 → within fb v (kblk blk h k) (R h) → fb + v ≤ B →
     ∃ m' q, self m (koff s h k) fb v (kblk blk h k) = Ok (m', q) ∧
       fill_post h m (koff s h k) (kblk blk h k) fb v G m' q) →
  kids_good B h m s blk G → kids_term B h m s blk → m !! s = Some n → bm_bighint n ≠ -1 →
  ∃ m', fill_loop self fuel m s (1 + k * W h) fb c (kblk blk h k) (skp (S h)) (W h) (R h) acc
      = Ok (m', acc + count G fb (fb + c)) ∧
    same_out (s + 1) (16 * W h) m m' ∧
    kids_good B h m' s blk (minus G fb c) ∧ kids_term B h m' s blk.
Proof.
  induction fuel as [|fuel IH];
    intros k m fb c G n acc Hblk Hpos Hk Hf HeB Heb Hwk Hc32 HG Hself Hg Ht Hn Hh; [lia|].
  cbn [fill_loop].
  destruct (walk_index blk h k fb c) as [(-> & Hk16 & Hfb & Hc)|(-> & ->)]; [done..| |].
  2:{ exists m. rewrite count_empty, Z.add_0_r by lia. split_and!; [done|done| |done].
      apply (kids_good_ext _ _ _ _ G); [|done]. intros x. rewrite minus_out; [done|].
      apply in_range_false. lia. }
  destruct (walk_step blk h k fb c) as (Hv & Hw & Hnext); [done..|]. cbn zeta in Hv, Hw, Hnext.
  set (v := if _ >? c then c else _) in *.
  unfold rd. rewrite Hn. cbn [obind].
  replace (bm_bighint n =? -1) with false by (symmetry; by apply Z.eqb_neq).
  rewrite kid_start, kid_next, kblk_next by lia.
  destruct (Hself m k fb v G) as (m1 & q & -> & Hm1 & Hg1 & ->); [lia|lia|apply Hg; lia|done|lia|done|lia|].
  cbn [obind fst snd]. pose proof (kid_span s h k ltac:(lia)) as Hsp.
  assert (Hout : ∀ x, (x < kblk blk h k ∨ kblk blk h k + R h ≤ x) → minus G fb v x = G x).
  { intros x Hx. apply minus_out, in_range_false. destruct Hw. lia. }
  destruct (IH (k + 1) m1 (fb + v) (c - v) (minus G fb v) n (acc + count G fb (fb + v))) as
    (m' & -> & E2 & E3 & E4); try done; try lia.
  - by apply managed_minus.
  - apply (kids_update B h m _ s blk G _ k); [lia|done..].
  - apply (kids_term_update B h m _ s blk k); [lia|done|done|lia].
  - rewrite Hm1 by lia. done.
  - exists m'. split_and!; [| | |done].
    + do 2 f_equal. rewrite (count_split G fb v c) by lia. lia.
    + apply (same_out_trans _ _ _ m1); [|done]. by apply (same_kid _ _ k); [lia|].
    + eapply kids_good_ext; [|exact E3]. intros x. apply minus_split. lia.
Qed.

Lemma fill_prepare h m s blk F n :
  good B (S h) m s blk F → m !! s = Some n → (S h ≤ 6)%nat → managed F → 0 ≤ blk →
  bmu n ≠ 0 →
  ∃ m1, (if bmu_avail n =? R (S h)
     then init_free loop_fuel m s 1 (skp (S h)) (W h) (R h) else Ok m) = Ok m1 ∧
    same_out (s + 1) (16 * W h) m m1 ∧ kids_good B h m1 s blk F ∧ kids_term B h m1 s blk.
Proof.
  intros Hg Hn Hh HF Hpos Hn0. pose proof (R_pos (S h)).
  destruct (good_inner h m s blk F n Hg Hn Hh HF Hpos) as
    (Hc & Ha & Hr & Hhint & Ht & Hs & _ & Hfull & Hkids).
  rewrite Ha. destruct (bmu n =? R (S h)) eqn:E; bool_prop.
  - destruct (Hfull E) as [Hrun HB].
    destruct (init_free_spec h s blk F loop_fuel 0 m) as (m1 & E1 & Hm1 & Hg1); try done; try lia.
    + intros j Hj. pose proof (kid_blocks blk h j Hj). pose proof (R_pos h). apply Hs; lia.
    + rewrite Z.mul_0_l, Z.add_0_r in E1. rewrite E1. exists m1. split_and!; try done.
      intros k Hk HkB. exfalso. pose proof (kid_blocks blk h k Hk). pose proof (R_pos h). lia.
  - exists m. split_and!; try done. by apply Hkids.
Qed.

Lemma meta_fill_step h fuel m s blk b c F :
  (S h ≤ 6)%nat → managed F → 0 ≤ blk < B → blk mod 32 = 0 → 1 ≤ c ≤ 32 →
  within b c blk (R (S h)) → b + c ≤ B →
  (∀ m s blk b c F, 0 ≤ blk < B → blk mod 32 = 0 → good B h m s blk F → managed F → 1 ≤ c ≤ 32 →
     within b c blk (R h) → b + c ≤ B →
    ∃ m' q, (if W h =? 1 then blst_leaf_fill m s b c
             else blst_meta_fill fuel m s b c (R h) (W h - 1) blk) = Ok (m', q) ∧
      fill_post h m s blk b c F m' q) →
  good B (S h) m s blk F →
  ∃ m' q, blst_meta_fill (S fuel) m s b c (R (S h)) (skp (S h)) blk = Ok (m', q) ∧
    fill_post (S h) m s blk b c F m' q.
Proof.
  intros Hh HF Hpos Hal Hc Hw HbB Hself Hg. pose proof (R_bound (S h) Hh). pose proof (R_pos h).
  destruct (shape_node _ _ _ _ (proj1 Hg)) as (n & Hn & Hn1). pose proof Hw as [Hw1 Hw2].
  destruct (good_inner h m s blk F n Hg Hn Hh HF) as (Hcnt & Ha & Hr & Hhint & _ & _ & Hemp & _); [lia|].
  cbn [blst_meta_fill]. rewrite skp_div, R_div. unfold rd at 1. rewrite Hn. cbn [obind]. rewrite Ha.
  replace (c =? R (S h)) with false.
  2:{ symmetry. apply Z.eqb_neq. change (R (S h)) with (16 * R h). lia. }
  cbn [orb]. destruct (bmu n =? 0) eqn:E0; bool_prop.
  { specialize (Hemp E0). eexists _, _. split; [done|]. split; [apply same_out_root|]. split.
    - apply (good_ext_set (S h) _ _ _ F).
      { intros x. unfold minus. destruct (in_range b c x) eqn:E; [|by destruct (F x)].
        apply in_range_true in E. rewrite Hemp by lia. done. }
      apply (good_rehint h m s blk F n); [done|done| |].
      + cbn. by rewrite E0.
      + cbn [bm_bighint set_bighint]. rewrite s32_hint by lia.
        apply hint_ok_count; [lia|]. rewrite count_none by done. lia.
    - rewrite count_none; [done|]. intros x Hx. apply Hemp. lia. }
  rewrite <- Ha.
  destruct (fill_prepare h m s blk F n) as (m1 & -> & Hm1 & Hg1 & Ht1); [done..|lia|done|].
  cbn [obind]. replace (c >? R h) with false by (symmetry; rewrite Z.gtb_ltb; apply Z.ltb_ge; lia).
  destruct (walk_first blk h b c Hw1) as (Hk & Hwk & ->); [lia|]. set (k := (b - blk) / R h) in *.
  replace (k * W h + 1) with (1 + k * W h) by lia.
  assert (Hns : m1 !! s = Some n) by (rewrite Hm1 by lia; done).
  destruct (fill_loop_spec h s blk (λ m scan fillBlk v blk,
      if W h =? 1 then blst_leaf_fill m scan fillBlk v
      else blst_meta_fill fuel m scan fillBlk v (R h) (W h - 1) blk) loop_fuel k m1 b c F n 0)
    as (m2 & E2 & Hm2 & Hg2 & Ht2); try done; try lia.
  - unfold loop_fuel. lia.
  - intros m' k' fb v G Hk' HkB Hgk HG Hv Hwv HvB.
    apply Hself; try done; [|by apply kblk_aligned].
    pose proof (kid_blocks blk h k' Hk'). lia.
  - rewrite E2. cbn [obind fst snd].
    assert (Hn2 : m2 !! s = Some n) by (rewrite Hm2 by lia; done).
    unfold rd. rewrite Hn2. cbn [obind].
    assert (Hcm : count (minus F b c) blk (blk + R (S h)) = bmu n - count F b (b + c)).
    { rewrite (count_change F (minus F b c) blk (blk + R (S h)) b c); try lia.
      - rewrite (count_none (minus F b c)) by apply minus_in. lia.
      - intros x _ Hx. by rewrite minus_out. }
    pose proof (count_nonneg (minus F b c) blk (blk + R (S h))).
    pose proof (count_nonneg F b (b + c)).
    eexists _, _. split; [done|]. split.
    + apply (same_out_trans _ _ _ m1); [by apply same_out_node|].
      apply (same_out_trans _ _ _ m2); [by apply same_out_node|apply same_out_root].
    + split; [|lia]. eapply good_node;
        [apply lookup_insert_eq| | |by apply kids_good_root|by apply kids_term_root].
      * apply (hint_ok_sub _ _ _ F); [|done]. intros x _. apply minus_sub.
      * cbn [bmu set_avail]. rewrite bmu_avail_small by lia. rewrite unsigned_of_small; [lia|].
        unfold is_u. lia.
Qed.

Lemma meta_fill_spec : ∀ h fuel m s blk b c F,
  (S h ≤ 6)%nat → (h < fuel)%nat → 0 ≤ blk < B → blk mod 32 = 0 →
  good B (S h) m s blk F → managed F → 1 ≤ c ≤ 32 → within b c blk (R (S h)) → b + c ≤ B →
  ∃ m' q, blst_meta_fill fuel m s b c (R (S h)) (skp (S h)) blk = Ok (m', q) ∧
    fill_post (S h) m s blk b c F m' q.
Proof.
  induction h as [|h IH]; intros fuel m s blk b c F Hh Hfuel Hpos Hal Hg HF Hc Hw HbB;
    (destruct fuel as [|fuel]; [lia|]); apply meta_fill_step; try done.
  - intros m0 s0 blk0 b0 c0 F0 _ Hal0 Hg0 _ Hc0 Hw0 _. by apply leaf_fill_spec; [..|lia|].
  - intros m0 s0 blk0 b0 c0 F0 Hp0 Hal0 Hg0 HF0 Hc0 Hw0 Hb0. rewrite W_leaf. unfold W.
    rewrite Z.add_simpl_r. apply IH; try done; lia.
Qed.

(** ** The initial tree *)

Definition none : Z → bool := λ _, false.

Lemma none_empty b c : empty none b c.
Proof. done. Qed.

Definition keeps_dom (m m' : mem) : Prop := ∀ i, is_Some (m !! i) → is_Some (m' !! i).

Lemma keeps_dom_refl m : keeps_dom m m.
Proof. by intros i Hi. Qed.

Lemma keeps_dom_insert m i n : keeps_dom m (<[i := n]> m).
Proof. intros j Hj. rewrite lookup_insert. by case_decide; [eexists|]. Qed.

Lemma wr_Some m i f : is_Some (m !! i) → ∃ n, m !! i = Some n ∧ wr (Some m) i f = Ok (Some (<[i := f n]> m)).
Proof. intros [n Hn]. exists n. split; [done|]. unfold wr, rd. by rewrite Hn. Qed.

(** What the initialisation of a node answers, for the size alone and for the
    array. *)
Definition init_post (h : nat) (f : option mem → Z → outcome (option mem * Z)) (blk mi : Z) : Prop :=
  0 ≤ mi ≤ W h ∧ ∀ s, f None s = Ok (None, mi) ∧
  ∀ m, (∀ i, s ≤ i ≤ s + mi → is_Some (m !! i)) →
  ∃ m', f (Some m) s = Ok (Some m', mi) ∧ same_out s (W h) m m' ∧ keeps_dom m m' ∧
    good B h m' s blk none.

Definition init_loop_post (h : nat) (f : option mem → Z → outcome (option mem * Z)) (blk k mi : Z) : Prop :=
  1 + k * W h ≤ mi ≤ W (S h) ∧ ∀ s, f None s = Ok (None, mi) ∧
  ∀ m, (∀ i, s ≤ i ≤ s + mi → is_Some (m !! i)) →
  (∀ j, 0 ≤ j < k → good B h m (koff s h j) (kblk blk h j) none) →
  ∃ m', f (Some m) s = Ok (Some m', mi) ∧ same_out (s + 1) (16 * W h) m m' ∧ keeps_dom m m' ∧
    kids_good B h m' s blk none ∧ kids_term B h m' s blk.

(** The blocks of a child that are under management. *)
Definition part (h : nat) (blk : Z) : Z := Z.min (R h) (B - blk).

Lemma init_loop_spec h blk self fuel : ∀ k mi0 cnt,
  blk < B → 0 ≤ k ≤ 16 → 16 - k < Z.of_nat fuel → kblk blk h k - R h < B → mi0 ≤ W (S h) →
  cnt = Z.max 0 (Z.min (R (S h)) (B - blk) - k * R h) →
  (∀ k, 0 ≤ k < 16 → kblk blk h k < B → ∃ mi,
     init_post h (λ om s, self om s (part h (kblk blk h k))) (kblk blk h k) mi) →
  ∃ mi, init_loop_post h (λ om s, init_loop self fuel om s (1 + k * W h) cnt (skp (S h)) (W h) (R h) mi0)
    blk k mi.
Proof.
  induction fuel as [|fuel IH]; intros k mi0 cnt HB Hk Hf HkB Hmi0 Hcnt Hself; [lia|].
  pose proof (W_pos h) as HW. pose proof (R_pos h) as HR.
  change (R (S h)) with (16 * R h) in Hcnt.
  assert (HWS : W (S h) = 16 * W h + 1) by (change (W (S h)) with (skp (S h) + 1); rewrite skp_S; lia).
  set (mi1 := if mi0 <? 1 + k * W h then 1 + k * W h else mi0).
  assert (Hmi1 : 1 + k * W h ≤ mi1 ≤ W (S h)).
  { unfold mi1. destruct (mi0 <? 1 + k * W h) eqn:E; bool_prop; nia. }
  unfold init_loop_post. cbn [init_loop]. rewrite kid_index by lia.
  destruct (k <? 16) eqn:Ek; bool_prop.
  2:{ exists mi1. split; [done|]. intros s. split; [done|]. intros m Hm Hg. exists m.
      split_and!; [done|done|apply keeps_dom_refl| |].
      - intros j Hj _. apply Hg. lia.
      - intros j Hj Hj1 Hj2. exfalso. unfold kblk in *. nia. }
  assert (Hcont : ∀ c cnt', c = part h (kblk blk h k) → kblk blk h k < B →
    cnt' = Z.max 0 (Z.min (16 * R h) (B - blk) - (k + 1) * R h) →
    ∃ mi, 1 + k * W h ≤ mi ≤ W (S h) ∧ ∀ s,
      (let* r := self None (s + (1 + k * W h)) c in
       init_loop self fuel (fst r) s (1 + k * W h + W h) cnt' (skp (S h)) (W h) (R h)
         (1 + k * W h + snd r)) = Ok (None, mi) ∧
      ∀ m, (∀ i, s ≤ i ≤ s + mi → is_Some (m !! i)) →
      (∀ j, 0 ≤ j < k → good B h m (koff s h j) (kblk blk h j) none) →
      ∃ m', (let* r := self (Some m) (s + (1 + k * W h)) c in
       init_loop self fuel (fst r) s (1 + k * W h + W h) cnt' (skp (S h)) (W h) (R h)
         (1 + k * W h + snd r)) = Ok (Some m', mi) ∧
        same_out (s + 1) (16 * W h) m m' ∧ keeps_dom m m' ∧
        kids_good B h m' s blk none ∧ kids_term B h m' s blk).
  { intros c cnt' -> HkB' ->. destruct (Hself k ltac:(lia) HkB') as (q & Hq & Hinit).
    rewrite kid_next.
    destruct (IH (k + 1) (1 + k * W h + q) (Z.max 0 (Z.min (16 * R h) (B - blk) - (k + 1) * R h)))
      as (mi & Hmi & Hloop); try done; try lia; [rewrite <- kblk_next; lia|nia|].
    exists mi. split; [lia|]. intros s. destruct (Hinit (s + (1 + k * W h))) as [-> Hsome].
    cbn [obind fst snd]. destruct (Hloop s) as [El Hls]. split; [exact El|]. intros m Hm Hg.
    destruct (Hsome m) as (m1 & -> & Hm1 & Hd1 & Hg1); [intros i Hi; apply Hm; lia|].
    cbn [obind fst snd]. fold (koff s h k) in Hm1, Hg1.
    destruct (Hls m1) as (m' & -> & Hm' & Hd' & Hg' & Ht').
    - intros i Hi. by apply Hd1, Hm.
    - intros j Hj. destruct (decide (j = k)) as [->|]; [done|].
      apply (good_ext B _ m _ _ _ none); [|done|apply Hg; lia].
      intros i Hi. apply Hm1. destruct (kids_disjoint s h j k); lia.
    - exists m'. split_and!; [done| | |done|done].
      + apply (same_out_trans _ _ _ m1); [|done]. by apply (same_kid _ _ k); [lia|].
      + intros i Hi. by apply Hd', Hd1. }
  assert (Hk1 : (k + 1) * R h ≤ 16 * R h) by nia.
  destruct (cnt >=? R h) eqn:E1; bool_prop.
  { apply Hcont; unfold part, kblk in *; lia. }
  destruct (cnt >? 0) eqn:E2; bool_prop.
  { apply Hcont; unfold part, kblk in *; lia. }
  exists mi1. split; [done|]. intros s. split; [done|]. intros m Hm Hg.
  destruct (wr_Some m (s + (1 + k * W h)) (set_bighint (-1))) as (n & Hn & ->); [apply Hm; lia|].
  cbn [obind]. fold (koff s h k). eexists. split_and!; [done| | | |].
  - apply (same_kid s h k); [lia|]. apply same_kid_root. lia.
  - apply keeps_dom_insert.
  - intros j Hj HjB. assert (j < k) by (unfold kblk in *; nia).
    apply (good_ext B _ m _ _ _ none); [|done|apply Hg; lia].
    intros i Hi. apply lookup_insert_ne. destruct (kids_disjoint s h j k); lia.
  - intros j Hj Hj1 Hj2. assert (j = k) as -> by (unfold kblk in *; nia).
    eexists. by rewrite lookup_insert_eq.
Qed.

Lemma radix_init_spec : ∀ h fuel blk,
  (h < fuel)%nat → blk < B →
  ∃ mi, init_post h (λ om s, blst_radix_init fuel om s (R h) (skp h) (part h blk)) blk mi.
Proof.
  induction h as [|h IH]; intros fuel blk Hfuel HB; (destruct fuel as [|fuel]; [lia|]);
    unfold init_post; cbn [blst_radix_init].
  - exists 0. split; [by vm_compute|]. intros s. split; [done|]. intros m Hm.
    change (R 0 =? BLIST_BMAP_RADIX) with true. cbv iota.
    destruct (wr_Some m s (λ n, set_bitmap 0 (set_bighint 0 n))) as (n & Hn & ->); [apply Hm; lia|].
    cbn [obind]. eexists. split_and!; [done|apply same_out_root|apply keeps_dom_insert|].
    apply good_leaf. eexists. split; [apply lookup_insert_eq|]. split_and!; [|by by_decide|].
    + apply hint_ok_count; [lia|]. by rewrite count_none.
    + intros i Hi. apply Z.bits_0.
  - replace (R (S h) =? BLIST_BMAP_RADIX) with false.
    2:{ symmetry. apply Z.eqb_neq. pose proof (R_pos h). change (R (S h)) with (16 * R h).
        unfold BLIST_BMAP_RADIX. lia. }
    rewrite R_div, skp_div.
    destruct (init_loop_spec h blk
      (λ om scan count, blst_radix_init fuel om scan (R h) (W h - 1) count) loop_fuel 0 0
      (part (S h) blk)) as (mi & Hmi & Hloop); try done; try lia.
    { unfold kblk. pose proof (R_pos h). lia. }
    { pose proof (W_pos (S h)). lia. }
    { unfold part. pose proof (R_pos (S h)). lia. }
    { intros k Hk HkB. unfold W. rewrite Z.add_simpl_r. apply IH; [lia|done]. }
    exists mi. split; [lia|]. intros s. destruct (Hloop s) as [E1 E2].
    rewrite Z.mul_0_l, Z.add_0_r in E1. split; [exact E1|]. intros m Hm.
    destruct (wr_Some m s (λ n, set_avail 0 (set_bighint 0 n))) as (n & Hn & ->); [apply Hm; lia|].
    cbn [obind]. set (n1 := set_avail 0 (set_bighint 0 n)). set (m0 := <[s := n1]> m).
    destruct (E2 m0) as (m' & E3 & Hm' & Hd' & Hg' & Ht').
    + intros i Hi. apply keeps_dom_insert. by apply Hm.
    + intros j Hj. lia.
    + rewrite Z.mul_0_l, Z.add_0_r in E3. exists m'. split_and!; [exact E3| | |].
      * apply (same_out_trans _ _ _ m0); [apply same_out_root|by apply same_out_node].
      * intros i Hi. by apply Hd', keeps_dom_insert.
      * assert (Hn1 : m' !! s = Some n1) by (rewrite Hm' by lia; apply lookup_insert_eq).
        apply (good_node B h m' s blk none n1); try done.
        -- apply hint_ok_count; [pose proof (R_pos (S h)); lia|]. by rewrite count_none.
        -- by rewrite count_none.
Qed.

End Ops.

(** ** The interface *)

(** A well-formed list whose free blocks are [F]. *)
Definition bl_ok (bl : blist) (F : Z → bool) : Prop :=
  ∃ h, (h ≤ 6)%nat ∧ bl_radix bl = R h ∧ bl_skip bl = skp h ∧ 1 ≤ bl_blocks bl ≤ R h ∧
    good (bl_blocks bl) h (bl_root bl) 0 0 F ∧ managed (bl_blocks bl) F ∧
    bl_free bl = count F 0 (bl_blocks bl).

Lemma radix_loop_spec fuel : ∀ h blocks,
  (h ≤ 6)%nat → (6 - h < fuel)%nat → blocks ≤ BLIST_MAXBLKS →
  ∃ h', (h' ≤ 6)%nat ∧ radix_loop fuel blocks (R h) (skp h) = Ok (R h', skp h') ∧ blocks ≤ R h'.
Proof.
  induction fuel as [|fuel IH]; intros h blocks Hh Hf Hb; [lia|]. cbn [radix_loop].
  destruct (R h <? blocks) eqn:E; bool_prop; [|by exists h].
  assert (h < 6)%nat.
  { destruct (decide (h = 6%nat)) as [->|]; [|lia]. exfalso. change (R 6) with BLIST_MAXBLKS in E. lia. }
  change (skp h + 1) with (W h). unfold BLIST_META_RADIX.
  replace (W h * 16) with (skp (S h)) by (rewrite skp_S; lia).
  replace (R h * 16) with (R (S h)) by (change (R (S h)) with (16 * R h); lia).
  assert (Hpos : skp (S h) >? 0 = true) by (rewrite Z.gtb_ltb, skp_S; apply Z.ltb_lt; pose proof (W_pos h); lia).
  rewrite Hpos. cbn [kkassert]. apply IH; lia.
Qed.

Lemma kmalloc_dom n junk i : 0 ≤ i < n → is_Some (kmalloc_nodes n junk !! i).
Proof.
  intros Hi. unfold kmalloc_nodes.
  destruct (list_to_map ((λ i, (i, junk i)) <$> seqZ 0 n) !! i) eqn:E; [by eexists|].
  apply not_elem_of_list_to_map_2 in E. exfalso. apply E.
  rewrite <- list_fmap_compose. apply list_elem_of_fmap. exists i. split; [done|]. by apply elem_of_seqZ.
Qed.

Lemma blist_create_spec junk blocks :
  1 ≤ blocks ≤ BLIST_MAXBLKS →
  ∃ bl, blist_create junk blocks = Ok bl ∧ bl_ok bl none ∧ bl_blocks bl = blocks.
Proof.
  intros Hb. unfold blist_create.
  destruct (radix_loop_spec depth_fuel 0 blocks) as (h & Hh & E & HR); [lia|unfold depth_fuel; lia|lia|].
  change (R 0) with BLIST_BMAP_RADIX in E. change (skp 0) with 0 in E. rewrite E.
  cbn [obind fst snd].
  destruct (radix_init_spec blocks h depth_fuel 0) as (mi & Hmi & Hinit); [unfold depth_fuel; lia|lia|].
  replace (part blocks h 0) with blocks in Hinit by (unfold part; lia).
  destruct (Hinit 0) as [E1 E2]. cbn beta in E1. rewrite E1. cbn [obind fst snd].
  destruct (E2 (kmalloc_nodes (1 + mi) junk)) as (m & E3 & _ & _ & Hg);
    [intros i Hi; apply kmalloc_dom; lia|].
  cbn beta in E3. rewrite E3. cbn [obind fst snd]. eexists. split; [done|]. split; [|done].
  exists h. split_and!; try done; cbn [bl_blocks bl_free]; try lia.
  by rewrite count_none with (n := blocks).
Qed.

(** Each operation on a leaf-only list and on a taller tree alike. *)
Lemma radix_test h : (R h =? BLIST_BMAP_RADIX) = match h with O => true | S _ => false end.
Proof.
  destruct h; [done|]. apply Z.eqb_neq. pose proof (R_pos h). change (R (S h)) with (16 * R h).
  unfold BLIST_BMAP_RADIX. lia.
Qed.

Lemma blist_alloc_spec bl F c :
  bl_ok bl F → 1 ≤ c ≤ 32 →
  ∃ bl' r, blist_alloc (Some bl) c = Ok (Some bl', r) ∧ bl_blocks bl' = bl_blocks bl ∧
    ((r = SWAPBLK_NONE ∧ bl_ok bl' F ∧ ∀ b, 0 ≤ b → in_leaf b c → ¬ run F b c) ∨
     (0 ≤ r ∧ r + c ≤ bl_blocks bl ∧ run F r c ∧ bl_ok bl' (minus F r c))).
Proof.
  intros (h & Hh & Er & Es & Hb & Hg & HF & Hfree) Hc. unfold blist_alloc.
  rewrite Er, Es, radix_test.
  assert (H : ∃ m' r, (match h with O => blst_leaf_alloc (bl_root bl) 0 0 c
      | S _ => blst_meta_alloc depth_fuel (bl_root bl) 0 0 c (R h) (skp h) end) = Ok (m', r) ∧
    alloc_post (bl_blocks bl) h (bl_root bl) 0 0 c F m' r).
  { destruct h as [|h].
    - by apply leaf_alloc_spec.
    - apply meta_alloc_spec; try done; unfold depth_fuel; lia. }
  assert (E : ∀ A (x y : A), (if match h with O => true | S _ => false end then x else y) =
    match h with O => x | S _ => y end) by (by intros; destruct h).
  rewrite E. destruct H as (m' & r & -> & _ & Hpost). cbn [obind fst snd].
  eexists _, _. split; [done|]. split; [done|].
  destruct Hpost as [(-> & Hg' & Hno)|(Hw & Hl & Hr & Hg')].
  - left. split_and!; [done| |].
    + rewrite Z.eqb_refl. exists h. split_and!; try done; apply Hb.
    + intros b H0 Hl Hr. apply (Hno b Hl); [|done]. split; [lia|].
      pose proof (HF _ (Hr (b + c - 1) ltac:(lia))). lia.
  - right. destruct Hw as [Hw1 Hw2].
    pose proof (HF _ (Hr (r + c - 1) ltac:(lia))).
    split_and!; [lia|lia|done|].
    replace (r =? SWAPBLK_NONE) with false by (symmetry; apply Z.eqb_neq; unfold SWAPBLK_NONE; lia).
    exists h. split_and!; try done; [apply Hb..|by apply managed_minus|].
    cbn [bl_free set_root negb bl_blocks]. rewrite count_minus by (done || lia). lia.
Qed.

Lemma blist_free_spec bl F b c :
  bl_ok bl F → 1 ≤ c → 0 ≤ b → b + c ≤ bl_blocks bl → empty F b c →
  ∃ bl', blist_free (Some bl) b c = Ok (Some bl') ∧ bl_blocks bl' = bl_blocks bl ∧
    bl_ok bl' (plus F b c).
Proof.
  intros (h & Hh & Er & Es & Hb & Hg & HF & Hfree) Hc H0 HB He. unfold blist_free.
  rewrite Er, Es, radix_test.
  assert (H : ∃ m', (if match h with O => true | S _ => false end then blst_leaf_free (bl_root bl) 0 b c
      else blst_meta_free depth_fuel (bl_root bl) 0 b c (R h) (skp h) 0) = Ok m' ∧
    free_post (bl_blocks bl) h (bl_root bl) 0 0 b c F m').
  { destruct h as [|h].
    - apply leaf_free_spec; try done. unfold within. change (R 0) with 32 in Hb. lia.
    - apply meta_free_spec; try done; [unfold depth_fuel; lia|lia|]. unfold within. lia. }
  destruct H as (m' & -> & _ & Hg'). cbn [obind]. eexists. split; [done|]. split; [done|].
  exists h. split_and!; try done; [apply Hb..|by apply managed_plus|].
  cbn [bl_free set_root bl_blocks]. rewrite count_plus by (done || lia). lia.
Qed.

Lemma blist_fill_spec bl F b c :
  bl_ok bl F → 1 ≤ c ≤ 32 → 0 ≤ b → b + c ≤ bl_blocks bl →
  ∃ bl', blist_fill (Some bl) b c = Ok (Some bl', count F b (b + c)) ∧
    bl_blocks bl' = bl_blocks bl ∧ bl_ok bl' (minus F b c).
Proof.
  intros (h & Hh & Er & Es & Hb & Hg & HF & Hfree) Hc H0 HB. unfold blist_fill.
  rewrite Er, Es, radix_test.
  assert (H : ∃ m' q, (if match h with O => true | S _ => false end then blst_leaf_fill (bl_root bl) 0 b c
      else blst_meta_fill depth_fuel (bl_root bl) 0 b c (R h) (skp h) 0) = Ok (m', q) ∧
    fill_post (bl_blocks bl) h (bl_root bl) 0 0 b c F m' q).
  { destruct h as [|h].
    - apply leaf_fill_spec; try done; [lia|]. unfold within. change (R 0) with 32 in Hb. lia.
    - apply meta_fill_spec; try done; [unfold depth_fuel; lia|lia|]. unfold within. lia. }
  destruct H as (m' & q & -> & _ & Hg' & ->). cbn [obind fst snd]. eexists. split; [done|].
  split; [done|]. exists h. split_and!; try done; [apply Hb..|by apply managed_minus|].
  cbn [bl_free set_root bl_blocks].
  rewrite (count_change F (minus F b c) 0 (bl_blocks bl) b c); try lia.
  - rewrite (count_none (minus F b c)) by apply minus_in. lia.
  - intros x _ Hx. by rewrite minus_out.
Qed.

(** ** Copying *)

(** [Fs]'s free blocks of a range added to [Fd]. *)
Definition graft (Fd Fs : Z → bool) (b c : Z) : Z → bool := λ x, Fd x || (in_range b c x && Fs x).

Lemma bl_ok_ext bl F G : (∀ x, F x = G x) → bl_ok bl F → bl_ok bl G.
Proof.
  intros H (h & H1 & H2 & H3 & H4 & H5 & H6 & H7). exists h. split_and!; try done; try apply H4.
  - by apply (good_ext_set _ h _ _ _ F).
  - intros x Hx. apply H6. by rewrite H.
  - by rewrite H7; apply count_ext.
Qed.

(** What copying a range of the source to a list does. *)
Definition copy_post (Fs Fd : Z → bool) (b c : Z) (d : blist) (o : outcome (option blist)) : Prop :=
  ∃ d', o = Ok (Some d') ∧ bl_blocks d' = bl_blocks d ∧ bl_ok d' (graft Fd Fs b c).

Lemma copy_nothing Fs Fd b c d : bl_ok d Fd → empty Fs b c → copy_post Fs Fd b c d (Ok (Some d)).
Proof.
  intros Hd He. exists d. split_and!; [done|done|]. apply (bl_ok_ext _ Fd); [|done].
  intros x. unfold graft. destruct (in_range b c x) eqn:E; [|by rewrite orb_false_r].
  apply in_range_true in E. rewrite He by done. by rewrite orb_false_r.
Qed.

Lemma copy_free Fs Fd b c d :
  bl_ok d Fd → run Fs b c → 1 ≤ c → 0 ≤ b → b + c ≤ bl_blocks d → empty Fd b c →
  copy_post Fs Fd b c d (blist_free (Some d) b c).
Proof.
  intros Hd Hr Hc Hb HB He. destruct (blist_free_spec d Fd b c) as (d' & -> & ? & Hd'); [done..|].
  exists d'. split_and!; [done|done|]. eapply bl_ok_ext; [|exact Hd'].
  intros x. unfold graft, plus. destruct (in_range b c x) eqn:E; [|done].
  apply in_range_true in E. by rewrite Hr.
Qed.

(** Copies of adjacent ranges compose. *)
Lemma copy_seq Fs Fd b v c d d' o :
  0 ≤ v ≤ c → bl_blocks d' = bl_blocks d →
  copy_post Fs (graft Fd Fs b v) (b + v) (c - v) d' o → copy_post Fs Fd b c d o.
Proof.
  intros Hv Hb (d'' & -> & Hb' & Hd''). exists d''. split_and!; [done|congruence|].
  eapply bl_ok_ext; [|exact Hd'']. intros x. unfold graft.
  rewrite <- (in_range_split b v c x) by done.
  destruct (Fd x), (Fs x), (in_range b v x), (in_range (b + v) (c - v) x); done.
Qed.

Lemma graft_empty Fd Fs b v c : 0 ≤ v ≤ c → empty Fd b c → empty (graft Fd Fs b v) (b + v) (c - v).
Proof.
  intros Hv He x Hx. unfold graft. rewrite He by lia.
  replace (in_range b v x) with false by (symmetry; apply in_range_false; lia). done.
Qed.

Lemma empty_tail Fd b v c : 0 ≤ v ≤ c → empty Fd b c → empty Fd b v.
Proof. intros Hv He x Hx. apply He. lia. Qed.

Lemma copy_bits_spec Fs v blk cnt fuel : ∀ i d Fd,
  0 ≤ i → Z.max 0 (32 - i) < Z.of_nat fuel → 0 ≤ blk → cnt ≤ 32 → i ≤ cnt →
  blk + cnt ≤ bl_blocks d → (∀ j, 0 ≤ j < 32 → Z.testbit v j = Fs (blk + j)) →
  bl_ok d Fd → empty Fd (blk + i) (cnt - i) →
  copy_post Fs Fd (blk + i) (cnt - i) d (copy_bits fuel (Some d) v blk i cnt).
Proof.
  induction fuel as [|fuel IH]; intros i d Fd Hi Hf Hblk Hc Hic HB Hv Hd He; [lia|].
  cbn [copy_bits]. unfold BLIST_BMAP_RADIX.
  destruct ((i <? 32) && (i <? cnt)) eqn:E.
  2:{ apply copy_nothing; [done|]. intros x Hx. exfalso. apply andb_false_iff in E as [E|E]; bool_prop; lia. }
  bool_prop. replace (negb (Z.land v (Z.shiftl 1 i) =? 0)) with (Fs (blk + i)).
  2:{ rewrite <- Hv by lia. destruct (one_bit_mask i) as [Hu Hm]; [lia|].
      destruct (Z.testbit v i) eqn:Eb.
      - symmetry. apply negb_true_iff, Z.eqb_neq. intros E0.
        assert (Z.testbit (Z.land v (Z.shiftl 1 i)) i = true).
        { rewrite Z.land_spec, Eb, Hm by lia. apply in_range_true. lia. }
        rewrite E0, Z.bits_0 in *. done.
      - symmetry. apply negb_false_iff, Z.eqb_eq. apply (land_mask_0 _ _ i 1); [by apply one_bit_mask|lia|].
        intros k Hk. by replace k with i by lia. }
  assert (H1 : ∀ o, (∃ d1, o = Ok (Some d1) ∧ bl_blocks d1 = bl_blocks d ∧
      bl_ok d1 (graft Fd Fs (blk + i) 1)) →
    copy_post Fs Fd (blk + i) (cnt - i) d (let* dest := o in copy_bits fuel dest v blk (i + 1) cnt)).
  { intros o (d1 & -> & Hb1 & Hd1). cbn [obind].
    apply (copy_seq Fs Fd (blk + i) 1 (cnt - i) d d1); [lia|done|].
    replace (blk + i + 1) with (blk + (i + 1)) by lia.
    replace (cnt - i - 1) with (cnt - (i + 1)) by lia.
    apply IH; try done; try lia.
    replace (blk + (i + 1)) with (blk + i + 1) by lia.
    replace (cnt - (i + 1)) with (cnt - i - 1) by lia. apply graft_empty; [lia|done]. }
  apply H1. destruct (Fs (blk + i)) eqn:Ef.
  - apply copy_free; try done; try lia; [|apply (empty_tail _ _ _ (cnt - i)); [lia|done]].
    intros x Hx. by replace x with (blk + i) by lia.
  - apply copy_nothing; [done|]. intros x Hx. by replace x with (blk + i) by lia.
Qed.

Lemma copy_loop_spec Bs h m s blk Fs self fuel : ∀ k c d Fd,
  0 ≤ blk → 0 ≤ k → Z.max 0 (16 - k) < Z.of_nat fuel → 0 ≤ c → c ≤ R (S h) - k * R h →
  (1 ≤ c → kblk blk h k + c ≤ Bs ∧ kblk blk h k + c ≤ bl_blocks d) →
  kids_good Bs h m s blk Fs → bl_ok d Fd → empty Fd (kblk blk h k) c →
  (∀ k c d Fd, 0 ≤ k < 16 → kblk blk h k < Bs → good Bs h m (koff s h k) (kblk blk h k) Fs →
     1 ≤ c ≤ R h → kblk blk h k + c ≤ Bs → kblk blk h k + c ≤ bl_blocks d → bl_ok d Fd →
     empty Fd (kblk blk h k) c →
     copy_post Fs Fd (kblk blk h k) c d (self (Some d) (koff s h k) (kblk blk h k) c)) →
  copy_post Fs Fd (kblk blk h k) c d
    (copy_loop self fuel m (Some d) s (1 + k * W h) (kblk blk h k) c (skp (S h)) (W h) (R h)).
Proof.
  induction fuel as [|fuel IH]; intros k c d Fd Hblk Hk Hf Hc Hck HBB Hg Hd He Hself; [lia|].
  cbn [copy_loop]. pose proof (R_pos h). rewrite kid_index by lia.
  destruct (negb (c =? 0) && (k <? 16)) eqn:E.
  2:{ apply copy_nothing; [done|]. intros x Hx. exfalso. change (R (S h)) with (16 * R h) in Hck.
      apply andb_false_iff in E as [E|E]; bool_prop; nia. }
  bool_prop. destruct HBB as [HBs HBd]; [lia|]. assert (HkB : kblk blk h k < Bs) by lia.
  pose proof (Hg k ltac:(lia) HkB) as Hgk.
  destruct (shape_node _ _ _ _ _ (proj1 Hgk)) as (n & Hn & Hn1).
  rewrite kid_start, kid_next, kblk_next by lia. unfold rd. rewrite Hn. cbn [obind].
  replace (bm_bighint n =? -1) with false by (symmetry; by apply Z.eqb_neq).
  assert (Hstep : ∀ v c', 1 ≤ v ≤ R h → v ≤ c → c' = c - v → (c' = 0 ∨ v = R h) →
    copy_post Fs Fd (kblk blk h k) c d
      (let* dest := self (Some d) (koff s h k) (kblk blk h k) v in
       copy_loop self fuel m dest s (1 + (k + 1) * W h) (kblk blk h (k + 1)) c' (skp (S h)) (W h) (R h))).
  { intros v c' Hv Hvc -> Hlast.
    destruct (Hself k v d Fd) as (d1 & -> & Hb1 & Hd1); try done; try lia.
    { apply (empty_tail _ _ _ c); [lia|done]. }
    cbn [obind]. apply (copy_seq Fs Fd _ v c d d1); [lia|done|].
    assert (Hrest : copy_post Fs (graft Fd Fs (kblk blk h k) v) (kblk blk h (k + 1)) (c - v) d1
      (copy_loop self fuel m (Some d1) s (1 + (k + 1) * W h) (kblk blk h (k + 1)) (c - v)
         (skp (S h)) (W h) (R h))).
    { apply IH; try done; try lia.
      - change (R (S h)) with (16 * R h) in *. destruct Hlast; nia.
      - intros ?. rewrite <- kblk_next. destruct Hlast; lia.
      - destruct Hlast as [->|Hv']; [intros x Hx; lia|].
        rewrite <- kblk_next, <- Hv'. apply graft_empty; [lia|done]. }
    destruct Hlast as [E0|Hv'];
      [|by replace (kblk blk h k + v) with (kblk blk h (k + 1)) by (rewrite <- kblk_next; lia)].
    rewrite E0 in *. destruct Hrest as (d2 & -> & Hb2 & Hd2). exists d2. split_and!; [done|done|].
    eapply bl_ok_ext; [|exact Hd2]. intros x. unfold graft.
    replace (in_range (kblk blk h (k + 1)) 0 x) with false by (symmetry; apply in_range_false; lia).
    by replace (in_range (kblk blk h k + v) 0 x) with false by (symmetry; apply in_range_false; lia). }
  destruct (c >=? R h) eqn:Ec; bool_prop; apply Hstep; lia.
Qed.

Lemma blst_copy_spec Bs Fs m : ∀ h fuel s blk c d Fd,
  (h ≤ 6)%nat → (h < fuel)%nat → managed Bs Fs → 0 ≤ blk → good Bs h m s blk Fs →
  1 ≤ c ≤ R h → blk + c ≤ Bs → blk + c ≤ bl_blocks d → bl_ok d Fd → empty Fd blk c →
  copy_post Fs Fd blk c d (blst_copy fuel m s blk (R h) (skp h) (Some d) c).
Proof.
  induction h as [|h IH]; intros fuel s blk c d Fd Hh Hfuel HF Hpos Hg Hc HBs HBd Hd He;
    (destruct fuel as [|fuel]; [lia|]); cbn [blst_copy]; rewrite radix_test.
  - pose proof Hg as (n & Hn & _ & Hu & Hb)%good_leaf. unfold rd. rewrite Hn. cbn [obind].
    unfold bmu_bitmap. change (R 0) with 32 in Hc.
    destruct (bmu n =? ones32) eqn:E1; bool_prop.
    { apply copy_free; try done; try lia. intros x Hx. replace x with (blk + (x - blk)) by lia.
      rewrite <- Hb, E1, testbit_ones32 by lia. apply Z.ltb_lt. lia. }
    destruct (bmu n =? 0) eqn:E2; bool_prop; cbn [negb].
    { apply copy_nothing; [done|]. intros x Hx. replace x with (blk + (x - blk)) by lia.
      rewrite <- Hb, E2 by lia. apply Z.bits_0. }
    pose proof (copy_bits_spec Fs (bmu n) blk c 33 0 d Fd) as H.
    rewrite Z.add_0_r, !Z.sub_0_r in H. apply H; try done; lia.
  - destruct (shape_node _ _ _ _ _ (proj1 Hg)) as (n & Hn & _).
    destruct (good_inner Bs h m s blk Fs n Hg Hn Hh HF Hpos) as
      (Hcnt & Ha & Hr & _ & _ & _ & Hemp & Hfull & Hkids).
    unfold rd. rewrite Hn. cbn [obind]. rewrite Ha, R_div, skp_div.
    destruct (bmu n =? 0) eqn:E1; bool_prop.
    { apply copy_nothing; [done|]. intros x Hx. apply (Hemp E1). lia. }
    destruct (bmu n =? R (S h)) eqn:E2; bool_prop.
    { destruct (Hfull E2) as [Hrun HB]. replace (if c <? R (S h) then _ else _)
        with (blist_free (Some d) blk c).
      - apply copy_free; try done; try lia. intros x Hx. apply Hrun. lia.
      - destruct (c <? R (S h)) eqn:E3; bool_prop; [done|]. f_equal. lia. }
    assert (E0 : kblk blk h 0 = blk) by (unfold kblk; lia).
    pose proof (copy_loop_spec Bs h m s blk Fs (λ dest scan blk count,
      blst_copy fuel m scan blk (R h) (W h - 1) dest count) loop_fuel 0 c d Fd) as H.
    rewrite E0, Z.mul_0_l, Z.add_0_r in H. apply H; try done; try lia.
    { by apply Hkids. }
    intros k c' d' Fd' Hk HkB Hgk Hc' HBs' HBd' Hd' He'. unfold W. rewrite Z.add_simpl_r.
    apply IH; try done; try lia. pose proof (kid_blocks blk h k Hk). lia.
Qed.

(** The free set after a resize to [n] blocks. *)
Definition resized (F : Z → bool) (old n : Z) (freenew : bool) : Z → bool :=
  λ x, (in_range 0 (Z.min old n) x && F x) || (freenew && in_range old (n - old) x).

Lemma blist_resize_spec junk bl F n freenew :
  bl_ok bl F → 1 ≤ n ≤ BLIST_MAXBLKS →
  ∃ bl', blist_resize junk bl n freenew = Ok bl' ∧ bl_blocks bl' = n ∧
    bl_ok bl' (resized F (bl_blocks bl) n freenew).
Proof.
  intros Hbl Hn. pose proof Hbl as (h & Hh & Er & Es & Hb & Hg & HF & _). unfold blist_resize.
  destruct (blist_create_spec junk n Hn) as (nb & -> & Hnb & En). cbn [obind].
  set (c := if n >? bl_blocks bl then bl_blocks bl else n).
  assert (Hc : c = Z.min (bl_blocks bl) n).
  { unfold c. destruct (n >? bl_blocks bl) eqn:E; bool_prop; lia. }
  rewrite Er, Es.
  destruct (blst_copy_spec (bl_blocks bl) F (bl_root bl) h depth_fuel 0 0 c nb none)
    as (d & -> & Eb & Hd); try done; try lia; [unfold depth_fuel; lia|]. cbn [obind].
  rewrite En. destruct (freenew && (c <? n)) eqn:E.
  - apply andb_true_iff in E as [-> E]. bool_prop.
    destruct (blist_free_spec d (graft none F 0 c) c (n - c) Hd) as (d' & -> & Eb' & Hd');
      [lia|lia|lia| |].
    { intros x Hx. unfold graft. cbn. apply andb_false_iff. left. apply in_range_false. lia. }
    cbn [obind]. exists d'. split_and!; [done|congruence|].
    eapply bl_ok_ext; [|exact Hd']. intros x. unfold plus, graft, resized. cbn [none orb andb].
    rewrite <- Hc. by replace (bl_blocks bl) with c by lia.
  - cbn [obind]. exists d. split_and!; [done|congruence|].
    eapply bl_ok_ext; [|exact Hd]. intros x. unfold graft, resized. cbn [none orb].
    rewrite <- Hc. destruct freenew; [|by rewrite orb_false_r].
    cbn [andb] in E |- *. bool_prop.
    replace (in_range (bl_blocks bl) (n - bl_blocks bl) x) with false by (symmetry; apply in_range_false; lia).
    by rewrite orb_false_r.
Qed.

(** ** The properties *)

(** C25: [blist_alloc] on a well-formed list, for any count up to BLIST_MAX_ALLOC:
    it never reads or writes outside its array, panics or runs on.  It returns
    a range of managed blocks that were all free, and exactly that range is
    allocated afterwards; or it returns SWAPBLK_NONE with the free blocks as
    they were, and then there was no free run of that length inside any leaf. *)
Theorem blist_alloc_correct (bl : blist) (F : Z → bool) (c : Z)
    (Hbl : bl_ok bl F) (Hc : 1 ≤ c ≤ 32) :
  ∃ bl' r, blist_alloc (Some bl) c = Ok (Some bl', r) ∧ bl_blocks bl' = bl_blocks bl ∧
    ((r = SWAPBLK_NONE ∧ bl_ok bl' F ∧ ∀ b, 0 ≤ b → in_leaf b c → ¬ run F b c) ∨
     (0 ≤ r ∧ r + c ≤ bl_blocks bl ∧ run F r c ∧ bl_ok bl' (minus F r c))).
Proof. by apply blist_alloc_spec. Qed.

(** C26: [blist_free] of an allocated range of any length frees exactly that
    range, without a panic or an access outside the array, and counts it. *)
Theorem blist_free_correct (bl : blist) (F : Z → bool) (b c : Z)
    (Hbl : bl_ok bl F) (Hc : 1 ≤ c) (Hb : 0 ≤ b) (HB : b + c ≤ bl_blocks bl) (He : empty F b c) :
  ∃ bl', blist_free (Some bl) b c = Ok (Some bl') ∧ bl_blocks bl' = bl_blocks bl ∧
    bl_ok bl' (plus F b c).
Proof. by apply blist_free_spec. Qed.

(** [blist_fill] of up to 32 blocks allocates exactly the range, whatever was
    allocated in it, and returns how many of its blocks were free. *)
Theorem blist_fill_correct (bl : blist) (F : Z → bool) (b c : Z)
    (Hbl : bl_ok bl F) (Hc : 1 ≤ c ≤ 32) (Hb : 0 ≤ b) (HB : b + c ≤ bl_blocks bl) :
  ∃ bl', blist_fill (Some bl) b c = Ok (Some bl', count F b (b + c)) ∧
    bl_blocks bl' = bl_blocks bl ∧ bl_ok bl' (minus F b c).
Proof. by apply blist_fill_spec. Qed.

(** [blist_create] sizes the array so that the tree of any legal number of
    blocks fits it, whatever the memory held, and starts with every block
    allocated. *)
Theorem blist_create_correct (junk : Z → blmeta) (blocks : Z) (Hb : 1 ≤ blocks ≤ BLIST_MAXBLKS) :
  ∃ bl, blist_create junk blocks = Ok bl ∧ bl_ok bl none ∧ bl_blocks bl = blocks.
Proof. by apply blist_create_spec. Qed.

(** [blist_resize] keeps the free and allocated blocks of the common range
    and frees, or leaves allocated, the blocks that are new. *)
Theorem blist_resize_correct (junk : Z → blmeta) (bl : blist) (F : Z → bool) (n : Z) (freenew : bool)
    (Hbl : bl_ok bl F) (Hn : 1 ≤ n ≤ BLIST_MAXBLKS) :
  ∃ bl', blist_resize junk bl n freenew = Ok bl' ∧ bl_blocks bl' = n ∧
    bl_ok bl' (resized F (bl_blocks bl) n freenew).
Proof. by apply blist_resize_spec. Qed.

Definition junk_nodes (i : Z) : blmeta := {| bmu := 12345; bm_bighint := 7 |}.

(** A list of 512 blocks, all free. *)
Definition list512 : outcome (option blist) :=
  let* bl := blist_create junk_nodes 512 in blist_free (Some bl) 0 512.

(** [blist_fill] panics on a range of 33 blocks of a wholly free list of 512,
    though the range is inside the list and could be filled in two leaves. *)
Lemma blist_fill_panics :
  ∃ bl, list512 = Ok (Some bl) ∧ bl_free bl = 512 ∧ blist_fill (Some bl) 0 33 = Panic.
Proof.
  assert (H : ∃ bl, list512 = Ok (Some bl)) by (eexists; vm_compute; reflexivity).
  destruct H as [bl E]. exists bl. split; [done|].
  assert (H : match list512 with Ok (Some bl) => bl_free bl = 512 ∧ blist_fill (Some bl) 0 33 = Panic
              | _ => False end) by (vm_compute; split; reflexivity).
  by rewrite E in H.
Qed.

(** ** Witnesses *)

(** A list of 100 blocks with blocks 10 to 89 free. *)
Definition list100 : blist :=
  match (let* bl := blist_create junk_nodes 100 in blist_free (Some bl) 10 80) with
  | Ok (Some bl) => bl
  | _ => {| bl_blocks := 0; bl_radix := 0; bl_skip := 0; bl_free := 0; bl_root := ∅; bl_rootblks := 0 |}
  end.

Lemma list100_ok : bl_ok list100 (plus none 10 80) ∧ bl_blocks list100 = 100.
Proof.
  unfold list100.
  destruct (blist_create_spec junk_nodes 100) as (b0 & -> & H0 & E0); [by vm_compute|]. cbn [obind].
  destruct (blist_free_spec b0 none 10 80) as (b1 & -> & E1 & H1); [done|lia|lia|lia|done|].
  split; [done|congruence].
Qed.

Lemma blist_alloc_correct_witness :
  match blist_alloc (Some list100) 20 with Ok (_, r) => r = 10 | _ => False end ∧
  ∃ bl' r, blist_alloc (Some list100) 20 = Ok (Some bl', r) ∧ bl_blocks bl' = bl_blocks list100 ∧
    ((r = SWAPBLK_NONE ∧ bl_ok bl' (plus none 10 80) ∧
      ∀ b, 0 ≤ b → in_leaf b 20 → ¬ run (plus none 10 80) b 20) ∨
     (0 ≤ r ∧ r + 20 ≤ bl_blocks list100 ∧ run (plus none 10 80) r 20 ∧
      bl_ok bl' (minus (plus none 10 80) r 20))).
Proof.
  split; [vm_compute; reflexivity|].
  apply (blist_alloc_correct list100 (plus none 10 80) 20); [exact (proj1 list100_ok)|lia].
Defined.

Lemma blist_free_correct_witness :
  ∃ bl', blist_free (Some list100) 90 10 = Ok (Some bl') ∧ bl_blocks bl' = bl_blocks list100 ∧
    bl_ok bl' (plus (plus none 10 80) 90 10).
Proof.
  apply (blist_free_correct list100 (plus none 10 80) 90 10); [exact (proj1 list100_ok)|lia|lia| |].
  - rewrite (proj2 list100_ok). lia.
  - intros x Hx. unfold plus. apply in_range_false. lia.
Defined.

Lemma blist_fill_correct_witness :
  ∃ bl', blist_fill (Some list100) 0 20 = Ok (Some bl', count (plus none 10 80) 0 (0 + 20)) ∧
    bl_blocks bl' = bl_blocks list100 ∧ bl_ok bl' (minus (plus none 10 80) 0 20).
Proof.
  apply (blist_fill_correct list100 (plus none 10 80) 0 20); [exact (proj1 list100_ok)|lia|lia|].
  rewrite (proj2 list100_ok). lia.
Defined.

Lemma blist_create_correct_witness :
  ∃ bl, blist_create junk_nodes 1000 = Ok bl ∧ bl_ok bl none ∧ bl_blocks bl = 1000.
Proof. apply (blist_create_correct junk_nodes 1000). unfold BLIST_MAXBLKS. lia. Defined.

Lemma blist_resize_correct_witness :
  ∃ bl', blist_resize junk_nodes list100 700 true = Ok bl' ∧ bl_blocks bl' = 700 ∧
    bl_ok bl' (resized (plus none 10 80) (bl_blocks list100) 700 true).
Proof.
  apply (blist_resize_correct junk_nodes list100 (plus none 10 80) 700 true);
    [exact (proj1 list100_ok)|]. unfold BLIST_MAXBLKS. lia.
Defined.

End BlistTheory.
