(* ===== verification/HammerKey.v ===== *)
(** The keys of the HAMMER B-tree: [struct hammer_base_elm] of
    sys/vfs/hammer/hammer_btree.h and the functions of hammer_btree.c that
    only look at keys: the comparison every search relies on, the as-of
    visibility test and the construction of the separator of two leaves. *)

From stdpp Require Import base list.
From S2P Require Import Prelude.

Module HammerKey.

Create HintDb hammer.

(** * Data *)

(** [struct hammer_base_elm].  [obj_id] and [key] are int64_t, the transaction
    ids u_int64_t, [rec_type] is u_int16_t, [obj_type] and [btype] are
    u_int8_t, [localization] is u_int32_t. *)
Record base_elm := BaseElm {
  obj_id : Z;
  key : Z;
  create_tid : Z;
  delete_tid : Z;
  rec_type : Z;
  obj_type : Z;
  btype : Z;
  localization : Z
}.

#[export] Instance base_elm_eq_dec : EqDecision base_elm.
Proof. solve_decision. Defined.

Definition set_btype (b : Z) (e : base_elm) : base_elm :=
  BaseElm (obj_id e) (key e) (create_tid e) (delete_tid e)
          (rec_type e) (obj_type e) b (localization e).

Definition set_create_tid (t : Z) (e : base_elm) : base_elm :=
  BaseElm (obj_id e) (key e) t (delete_tid e)
          (rec_type e) (obj_type e) (btype e) (localization e).

(** A key whose fields are values of their C types. *)
Definition base_ok (e : base_elm) : Prop :=
  is_s 64 (obj_id e) ∧ is_s 64 (key e) ∧ is_u 64 (create_tid e) ∧
  is_u 64 (delete_tid e) ∧ is_u 16 (rec_type e) ∧ is_u 8 (obj_type e) ∧
  is_u 8 (btype e) ∧ is_u 32 (localization e).

#[export] Instance base_ok_dec e : Decision (base_ok e).
Proof. unfold base_ok. apply _. Defined.

(** The bounds of the whole tree, set up by hammer_vfs_mount(). *)
Definition root_btree_beg : base_elm :=
  BaseElm (-0x8000000000000000) (-0x8000000000000000) 1 1 0 0 0 0.

Definition root_btree_end : base_elm :=
  BaseElm 0x7FFFFFFFFFFFFFFF 0x7FFFFFFFFFFFFFFF 0xFFFFFFFFFFFFFFFF 0 0xFFFF 0 0 0xFFFFFFFF.

(** * Operations *)

Definition hammer_btree_cmp (key1 key2 : base_elm) : Z :=
  if localization key1 <? localization key2 then -5
  else if localization key1 >? localization key2 then 5
  else if obj_id key1 <? obj_id key2 then -4
  else if obj_id key1 >? obj_id key2 then 4
  else if rec_type key1 <? rec_type key2 then -3
  else if rec_type key1 >? rec_type key2 then 3
  else if key key1 <? key key2 then -2
  else if key key1 >? key key2 then 2
  else if create_tid key1 =? 0 then
    if create_tid key2 =? 0 then 0 else 1
  else if create_tid key2 =? 0 then -1
  else if create_tid key1 <? create_tid key2 then -1
  else if create_tid key1 >? create_tid key2 then 1
  else 0.

Definition hammer_btree_chkts (asof : Z) (base : base_elm) : Z :=
  if asof =? 0 then
    if negb (delete_tid base =? 0) then 1 else 0
  else if asof <? create_tid base then -1
  else if negb (delete_tid base =? 0) && (asof >=? delete_tid base) then 1
  else 0.

(** [MAKE_SEPARATOR] for a field of a given C type: [arith] is the conversion
    to the type the subtraction is done in, [store] to the type of the field. *)
Definition MAKE_SEPARATOR (arith store : Z → Z) (f1 f2 : Z) : Z :=
  store (arith (f1 + Z.shiftr (arith (arith (f2 - f1) + 1)) 1)).

(** The destination is cleared first, then filled field by field; the
    [delete_tid], [obj_type] and [btype] stay zero. *)
Definition hammer_make_separator (key1 key2 : base_elm) : base_elm :=
  let loc := MAKE_SEPARATOR u32 u32 (localization key1) (localization key2) in
  let '(oid, rt, k) :=
    if localization key1 =? localization key2 then
      let oid := MAKE_SEPARATOR s64 s64 (obj_id key1) (obj_id key2) in
      if obj_id key1 =? obj_id key2 then
        let rt := MAKE_SEPARATOR s32 u16 (rec_type key1) (rec_type key2) in
        if rec_type key1 =? rec_type key2 then
          (oid, rt, MAKE_SEPARATOR s64 s64 (key key1) (key key2))
        else (oid, rt, key key2)
      else (oid, rec_type key2, key key2)
    else (obj_id key2, rec_type key2, key key2) in
  BaseElm oid k (create_tid key2) 0 rt 0 0 loc.

(** * The order of the keys *)

(** Transaction ids, zero being infinity. *)
Definition tid_lt (c1 c2 : Z) : Prop := c1 ≠ 0 ∧ (c2 = 0 ∨ c1 < c2).

Definition key_lt (a b : base_elm) : Prop :=
  localization a < localization b ∨
  localization a = localization b ∧
    (obj_id a < obj_id b ∨
     obj_id a = obj_id b ∧
       (rec_type a < rec_type b ∨
        rec_type a = rec_type b ∧
          (key a < key b ∨
           key a = key b ∧ tid_lt (create_tid a) (create_tid b)))).

(** Two keys of the same record, whatever their transactions. *)
Definition same_record (a b : base_elm) : Prop :=
  localization a = localization b ∧ obj_id a = obj_id b ∧
  rec_type a = rec_type b ∧ key a = key b.

#[export] Instance same_record_dec a b : Decision (same_record a b).
Proof. unfold same_record. apply _. Defined.

(** Splits a goal along the branches of [hammer_btree_cmp]. *)
Ltac cmp_cases :=
  unfold hammer_btree_cmp; repeat case_test; bool_prop.

Lemma cmp_lt a b : hammer_btree_cmp a b < 0 ↔ key_lt a b.
Proof. unfold key_lt, tid_lt. cmp_cases; lia. Qed.

Lemma cmp_eq a b :
  hammer_btree_cmp a b = 0 ↔ same_record a b ∧ create_tid a = create_tid b.
Proof. unfold same_record. cmp_cases; lia. Qed.

(** One field of the comparison, read from the other side. *)
Lemma cmp_field_opp x y n r r' :
  r' = - r →
  (if y <? x then - n else if y >? x then n else r') =
  - (if x <? y then - n else if x >? y then n else r).
Proof. intros ->. repeat case_test; bool_prop; lia. Qed.

Lemma cmp_opp a b : hammer_btree_cmp b a = - hammer_btree_cmp a b.
Proof.
  unfold hammer_btree_cmp.
  apply (cmp_field_opp _ _ 5), (cmp_field_opp _ _ 4), (cmp_field_opp _ _ 3),
    (cmp_field_opp _ _ 2).
  destruct (create_tid a =? 0) eqn:?, (create_tid b =? 0) eqn:?; try done.
  repeat case_test; bool_prop; lia.
Qed.

Lemma cmp_same a b :
  -1 ≤ hammer_btree_cmp a b ≤ 1 ↔ same_record a b.
Proof. unfold same_record. cmp_cases; lia. Qed.

Lemma cmp_refl a : hammer_btree_cmp a a = 0.
Proof. apply cmp_eq. done. Qed.

Lemma key_lt_trans a b c : key_lt a b → key_lt b c → key_lt a c.
Proof. unfold key_lt, tid_lt. lia. Qed.

Lemma cmp_gt a b : 0 < hammer_btree_cmp a b ↔ key_lt b a.
Proof. rewrite <- cmp_lt, (cmp_opp a b). lia. Qed.

Lemma key_lt_irrefl a : ¬ key_lt a a.
Proof. unfold key_lt, tid_lt. lia. Qed.

Lemma key_lt_total a b : key_lt a b ∨ hammer_btree_cmp a b = 0 ∨ key_lt b a.
Proof. rewrite <- (cmp_lt a b), <- (cmp_gt a b). lia. Qed.

(** [a <= b] in the order of the keys. *)
Definition key_le (a b : base_elm) : Prop := ¬ key_lt b a.

Lemma cmp_le a b : hammer_btree_cmp a b ≤ 0 ↔ key_le a b.
Proof. unfold key_le. rewrite <- cmp_gt. lia. Qed.

Lemma cmp_ge a b : 0 ≤ hammer_btree_cmp a b ↔ key_le b a.
Proof. unfold key_le. rewrite <- cmp_lt. lia. Qed.

Lemma key_le_lt_trans a b c : key_le a b → key_lt b c → key_lt a c.
Proof. unfold key_le, key_lt, tid_lt. lia. Qed.
Lemma key_lt_le_trans a b c : key_lt a b → key_le b c → key_lt a c.
Proof. unfold key_le, key_lt, tid_lt. lia. Qed.
Lemma key_le_trans a b c : key_le a b → key_le b c → key_le a c.
Proof. unfold key_le, key_lt, tid_lt. lia. Qed.
Lemma key_le_refl a : key_le a a.
Proof. apply key_lt_irrefl. Qed.
Lemma key_lt_le a b : key_lt a b → key_le a b.
Proof. unfold key_le, key_lt, tid_lt. lia. Qed.

#[export] Hint Resolve key_le_refl key_lt_le : hammer.

#[export] Instance key_le_preorder : PreOrder key_le.
Proof. split; [exact key_le_refl|exact key_le_trans]. Qed.

(** Nothing distinct from [a] in the order lies on both sides of it. *)
Lemma cmp_eq_lt_l a b c : hammer_btree_cmp a b = 0 → key_lt b c → key_lt a c.
Proof. intros E. apply key_le_lt_trans. apply cmp_le. lia. Qed.

(** ** Visibility *)

(** A record lives from its creation up to its deletion, if any; time zero is
    the present. *)
Definition visible (asof : Z) (e : base_elm) : Prop :=
  if decide (asof = 0) then delete_tid e = 0
  else create_tid e ≤ asof ∧ (delete_tid e = 0 ∨ asof < delete_tid e).

Lemma chkts_visible asof e : hammer_btree_chkts asof e = 0 ↔ visible asof e.
Proof.
  unfold hammer_btree_chkts, visible.
  destruct (asof =? 0) eqn:E1; bool_prop; case_decide; try lia;
    repeat case_test; bool_prop; lia.
Qed.

(** ** The separator *)

(** The gap of a field is one the type the subtraction is done in holds. *)
Definition no_overflow (a b : base_elm) : Prop :=
  localization b - localization a + 1 < 2 ^ 32 ∧
  obj_id b - obj_id a + 1 < 2 ^ 63 ∧
  key b - key a + 1 < 2 ^ 63.

#[export] Instance no_overflow_dec a b : Decision (no_overflow a b).
Proof. unfold no_overflow. apply _. Defined.

(** Two distinct values have a separator above the lower one and not above
    the higher one; equal values are their own. *)
Lemma make_separator_field arith store f1 f2 :
  (∀ x, f1 ≤ x ≤ f2 → store x = x) →
  (∀ x, f1 ≤ x ≤ f2 ∨ 0 ≤ x ≤ f2 - f1 + 1 → arith x = x) →
  f1 ≤ f2 →
  f1 ≤ MAKE_SEPARATOR arith store f1 f2 ≤ f2 ∧
  (f1 < f2 → f1 < MAKE_SEPARATOR arith store f1 f2) ∧
  (f1 = f2 → MAKE_SEPARATOR arith store f1 f2 = f1).
Proof.
  intros Hs Ha Hle. unfold MAKE_SEPARATOR.
  rewrite (Ha (f2 - f1)), (Ha (f2 - f1 + 1)) by lia.
  rewrite Z.shiftr_div_pow2 by lia. change (2 ^ 1) with 2.
  pose proof (Z.div_mod (f2 - f1 + 1) 2 ltac:(lia)).
  pose proof (Z.mod_pos_bound (f2 - f1 + 1) 2 ltac:(lia)).
  rewrite Ha, Hs by lia. lia.
Qed.

Lemma separator_s64 f1 f2 :
  is_s 64 f1 → is_s 64 f2 → f2 - f1 + 1 < 2 ^ 63 → f1 ≤ f2 →
  f1 ≤ MAKE_SEPARATOR s64 s64 f1 f2 ≤ f2 ∧
  (f1 < f2 → f1 < MAKE_SEPARATOR s64 s64 f1 f2) ∧
  (f1 = f2 → MAKE_SEPARATOR s64 s64 f1 f2 = f1).
Proof.
  unfold is_s. change (2 ^ (64 - 1)) with (2 ^ 63).
  intros H1 H2 Hd Hle. apply make_separator_field; [..|done];
    intros x Hx; apply signed_of_small; try done; unfold is_s;
    change (2 ^ (64 - 1)) with (2 ^ 63); lia.
Qed.

Lemma separator_u32 f1 f2 :
  is_u 32 f1 → is_u 32 f2 → f2 - f1 + 1 < 2 ^ 32 → f1 ≤ f2 →
  f1 ≤ MAKE_SEPARATOR u32 u32 f1 f2 ≤ f2 ∧
  (f1 < f2 → f1 < MAKE_SEPARATOR u32 u32 f1 f2) ∧
  (f1 = f2 → MAKE_SEPARATOR u32 u32 f1 f2 = f1).
Proof.
  unfold is_u. intros H1 H2 Hd Hle. apply make_separator_field; [..|done];
    intros x Hx; apply unsigned_of_small; unfold is_u; lia.
Qed.

Lemma separator_u16 f1 f2 :
  is_u 16 f1 → is_u 16 f2 → f1 ≤ f2 →
  f1 ≤ MAKE_SEPARATOR s32 u16 f1 f2 ≤ f2 ∧
  (f1 < f2 → f1 < MAKE_SEPARATOR s32 u16 f1 f2) ∧
  (f1 = f2 → MAKE_SEPARATOR s32 u16 f1 f2 = f1).
Proof.
  rewrite !is_u16_iff. intros H1 H2 Hle. apply make_separator_field; [..|done];
    intros x Hx; [apply unsigned_of_small|apply signed_of_small; [done|]]; width.
Qed.

Lemma make_separator_spec k1 k2 :
  base_ok k1 → base_ok k2 → key_lt k1 k2 → no_overflow k1 k2 →
  key_lt k1 (hammer_make_separator k1 k2) ∧ key_le (hammer_make_separator k1 k2) k2.
Proof.
  intros (Ho1 & Hk1 & _ & _ & Hr1 & _ & _ & Hl1) (Ho2 & Hk2 & _ & _ & Hr2 & _ & _ & Hl2)
    Hlt (Hl & Ho & Hk).
  pose proof (separator_u32 _ _ Hl1 Hl2 Hl) as Sl.
  pose proof (separator_s64 _ _ Ho1 Ho2 Ho) as So.
  pose proof (separator_u16 _ _ Hr1 Hr2) as Sr.
  pose proof (separator_s64 _ _ Hk1 Hk2 Hk) as Sk.
  unfold hammer_make_separator, key_le, key_lt, tid_lt in *.
  repeat case_test; bool_prop; cbn; lia.
Qed.

(** * Properties *)

(** [hammer_btree_cmp] orders the keys totally and its value says how:
    swapping the arguments negates it, "not greater" is transitive (strictly
    when one step is strict), zero means equal key fields, and a value between
    -1 and 1 means the same record up to the creation transaction. *)
Theorem cmp_total_order (a b c : base_elm)
    (Hab : hammer_btree_cmp a b ≤ 0) (Hbc : hammer_btree_cmp b c ≤ 0) :
  hammer_btree_cmp b a = - hammer_btree_cmp a b ∧
  hammer_btree_cmp a c ≤ 0 ∧
  (hammer_btree_cmp a b < 0 ∨ hammer_btree_cmp b c < 0 → hammer_btree_cmp a c < 0) ∧
  (hammer_btree_cmp a b = 0 ↔ same_record a b ∧ create_tid a = create_tid b) ∧
  (-1 ≤ hammer_btree_cmp a b ≤ 1 ↔ same_record a b).
Proof.
  split_and!; [apply cmp_opp| | |apply cmp_eq|apply cmp_same].
  - rewrite cmp_le in *. by transitivity b.
  - rewrite !cmp_lt, cmp_le in *. intros [H|H];
      eauto using key_le_lt_trans, key_lt_le_trans.
Qed.

(** when no field's gap overflows, the separator of two keys in order is
    above the left one and not above the right one. *)
Theorem make_separator_between (k1 k2 : base_elm)
    (Hok1 : base_ok k1) (Hok2 : base_ok k2)
    (Hlt : hammer_btree_cmp k1 k2 < 0) (Hov : no_overflow k1 k2) :
  hammer_btree_cmp k1 (hammer_make_separator k1 k2) < 0 ∧
  hammer_btree_cmp (hammer_make_separator k1 k2) k2 ≤ 0.
Proof.
  rewrite cmp_lt, cmp_le. apply cmp_lt in Hlt. by apply make_separator_spec.
Qed.

(** When the gap of the 64-bit record keys does overflow, the separator
    falls on the wrong side: it is below the left key, so a search for the left
    key would go right. *)
Lemma make_separator_overflow :
  ∃ k1 k2, base_ok k1 ∧ base_ok k2 ∧ hammer_btree_cmp k1 k2 < 0 ∧
    hammer_btree_cmp (hammer_make_separator k1 k2) k1 < 0.
Proof.
  exists (BaseElm 1 (-0x7000000000000000) 5 0 1 0 82 1),
    (BaseElm 1 0x7000000000000000 6 0 1 0 82 1).
  split_and!; by_decide.
Qed.

(** * Witnesses *)

Definition key_a : base_elm := BaseElm 1 0 5 0 1 0 82 1.
Definition key_b : base_elm := BaseElm 1 0 9 0 1 0 82 1.
Definition key_c : base_elm := BaseElm 7 3 9 0 1 0 82 1.

Lemma cmp_total_order_witness :
  hammer_btree_cmp key_a key_c ≤ 0 ∧ hammer_btree_cmp key_c key_a = 4.
Proof.
  split; [|reflexivity].
  apply (cmp_total_order key_a key_b key_c); by_decide.
Defined.

Lemma make_separator_between_witness :
  hammer_btree_cmp key_b (hammer_make_separator key_b key_c) < 0 ∧
  hammer_btree_cmp (hammer_make_separator key_b key_c) key_c ≤ 0.
Proof. apply (make_separator_between key_b key_c); by_decide. Defined.

End HammerKey.
