(* ===== verification/HammerTree.v ===== *)
(** The HAMMER B-tree of sys/vfs/hammer: the nodes of hammer_btree.h, the
    cursor of hammer_cursor.h with the functions of hammer_cursor.c that move
    it, and of hammer_btree.c the search in all its modes with the splits it
    makes when inserting, the lookup, the iterations in both directions, the
    insertion of an element and its removal from a leaf.

    One thread works on the tree: locks, the adjustment of other threads'
    cursors, undo records and statistics are left out, so no operation fails
    with EDEADLK.  The nodes are the map [nodes] from their offsets (the node
    cache and the buffers under it); the allocator of nodes is the list of the
    offsets it will hand out. *)

From stdpp Require Import base list gmap.
From S2P Require Import Prelude HammerKey.

Module HammerTree.
Import HammerKey.

(** * Data *)

Definition HAMMER_BTREE_LEAF_ELMS : Z := 63.
Definition HAMMER_BTREE_INT_ELMS : Z := HAMMER_BTREE_LEAF_ELMS - 1.

Definition HAMMER_BTREE_TYPE_INTERNAL : Z := 73.  (* 'I' *)
Definition HAMMER_BTREE_TYPE_LEAF : Z := 76.      (* 'L' *)
Definition HAMMER_BTREE_TYPE_RECORD : Z := 82.    (* 'R' *)

Definition ENOENT : Z := 2.
Definition EIO : Z := 5.
Definition EINVAL : Z := 22.
Definition ENOSPC : Z := 28.

(** [union hammer_btree_elm]: the key and the 24 bytes behind it, which are
    four words in both members of the union: a [mirror_tid] or the two
    timestamps, a [subtree_offset] or a [data_offset], and two 32-bit words. *)
Record btree_elm := Elm {
  base : base_elm;
  word40 : Z;
  word48 : Z;
  word56 : Z;
  word60 : Z
}.

Definition mirror_tid (e : btree_elm) : Z := word40 e.
Definition subtree_offset (e : btree_elm) : Z := word48 e.
Definition data_offset (e : btree_elm) : Z := word48 e.
Definition data_len (e : btree_elm) : Z := word56 e.

#[export] Instance btree_elm_eq_dec : EqDecision btree_elm.
Proof. solve_decision. Defined.

Definition set_base (b : base_elm) (e : btree_elm) : btree_elm :=
  Elm b (word40 e) (word48 e) (word56 e) (word60 e).
Definition set_mirror_tid (t : Z) (e : btree_elm) : btree_elm :=
  Elm (base e) t (word48 e) (word56 e) (word60 e).
Definition set_subtree_offset (o : Z) (e : btree_elm) : btree_elm :=
  Elm (base e) (word40 e) o (word56 e) (word60 e).

(** A node: the fields of [struct hammer_node_ondisk] the code uses, and the
    HAMMER_NODE_NONLINEAR flag of the node in memory. *)
Record node := Node {
  n_parent : Z;
  n_count : Z;
  n_type : Z;
  n_mirror_tid : Z;
  n_elms : list btree_elm;
  n_nonlinear : bool
}.

Definition set_parent (p : Z) (n : node) : node :=
  Node p (n_count n) (n_type n) (n_mirror_tid n) (n_elms n) (n_nonlinear n).
Definition set_count (c : Z) (n : node) : node :=
  Node (n_parent n) c (n_type n) (n_mirror_tid n) (n_elms n) (n_nonlinear n).
Definition set_node_mirror_tid (t : Z) (n : node) : node :=
  Node (n_parent n) (n_count n) (n_type n) t (n_elms n) (n_nonlinear n).
Definition set_elms (es : list btree_elm) (n : node) : node :=
  Node (n_parent n) (n_count n) (n_type n) (n_mirror_tid n) es (n_nonlinear n).
Definition set_nonlinear (n : node) : node :=
  Node (n_parent n) (n_count n) (n_type n) (n_mirror_tid n) (n_elms n) true.

(** The mount: the nodes by offset, the root, and the offsets the allocator
    has left to give. *)
Record hmp := Hmp {
  nodes : gmap Z node;
  vol0_btree_root : Z;
  free_nodes : list Z
}.

(** Where the bounds of a cursor point to: the bounds of the whole tree, or an
    element of a node. *)
Inductive bound :=
  | RootBeg
  | RootEnd
  | ElmPtr (off idx : Z).

#[export] Instance bound_eq_dec : EqDecision bound.
Proof. solve_decision. Defined.

(** [struct hammer_cmirror]. *)
Record cmirror := CMirror {
  cm_mirror_tid : Z;
  skip_beg : base_elm;
  skip_end : base_elm
}.

(** The flags of a cursor that the code below tests. *)
Record cflags := CFlags {
  GET_DATA : bool;
  BACKEND : bool;
  INSERT : bool;
  END_INCLUSIVE : bool;
  ATEDISK : bool;
  MIRROR_FILTERED : bool;
  ASOF : bool;
  CREATE_CHECK : bool;
  PRUNING : bool;
  REBLOCKING : bool;
  ITERATE_CHECK : bool
}.

Definition set_ATEDISK (b : bool) (f : cflags) : cflags :=
  CFlags (GET_DATA f) (BACKEND f) (INSERT f) (END_INCLUSIVE f) b (MIRROR_FILTERED f)
    (ASOF f) (CREATE_CHECK f) (PRUNING f) (REBLOCKING f) (ITERATE_CHECK f).
Definition set_CREATE_CHECK (b : bool) (f : cflags) : cflags :=
  CFlags (GET_DATA f) (BACKEND f) (INSERT f) (END_INCLUSIVE f) (ATEDISK f)
    (MIRROR_FILTERED f) (ASOF f) b (PRUNING f) (REBLOCKING f) (ITERATE_CHECK f).
Definition set_ITERATE_CHECK (b : bool) (f : cflags) : cflags :=
  CFlags (GET_DATA f) (BACKEND f) (INSERT f) (END_INCLUSIVE f) (ATEDISK f)
    (MIRROR_FILTERED f) (ASOF f) (CREATE_CHECK f) (PRUNING f) (REBLOCKING f) b.

(** [struct hammer_cursor].  [leaf] is the position of the element extracted
    last. *)
Record cursor := Cursor {
  c_parent : option Z;
  parent_index : Z;
  c_node : option Z;
  index : Z;
  create_check : Z;
  left_bound : bound;
  right_bound : bound;
  key_beg : base_elm;
  key_end : base_elm;
  asof : Z;
  mirror : cmirror;
  leaf : option (Z * Z);
  flags : cflags
}.

Definition set_node (n : option Z) (i : Z) (c : cursor) : cursor :=
  Cursor (c_parent c) (parent_index c) n i (create_check c) (left_bound c)
    (right_bound c) (key_beg c) (key_end c) (asof c) (mirror c) (leaf c) (flags c).
Definition set_index (i : Z) (c : cursor) : cursor := set_node (c_node c) i c.
Definition set_cparent (p : option Z) (i : Z) (c : cursor) : cursor :=
  Cursor p i (c_node c) (index c) (create_check c) (left_bound c)
    (right_bound c) (key_beg c) (key_end c) (asof c) (mirror c) (leaf c) (flags c).
Definition set_bounds (l r : bound) (c : cursor) : cursor :=
  Cursor (c_parent c) (parent_index c) (c_node c) (index c) (create_check c) l
    r (key_beg c) (key_end c) (asof c) (mirror c) (leaf c) (flags c).
Definition set_create_check (t : Z) (c : cursor) : cursor :=
  Cursor (c_parent c) (parent_index c) (c_node c) (index c) t (left_bound c)
    (right_bound c) (key_beg c) (key_end c) (asof c) (mirror c) (leaf c) (flags c).
Definition set_key_beg (k : base_elm) (c : cursor) : cursor :=
  Cursor (c_parent c) (parent_index c) (c_node c) (index c) (create_check c) (left_bound c)
    (right_bound c) k (key_end c) (asof c) (mirror c) (leaf c) (flags c).
Definition set_mirror (m : cmirror) (c : cursor) : cursor :=
  Cursor (c_parent c) (parent_index c) (c_node c) (index c) (create_check c) (left_bound c)
    (right_bound c) (key_beg c) (key_end c) (asof c) m (leaf c) (flags c).
Definition set_leaf (l : option (Z * Z)) (c : cursor) : cursor :=
  Cursor (c_parent c) (parent_index c) (c_node c) (index c) (create_check c) (left_bound c)
    (right_bound c) (key_beg c) (key_end c) (asof c) (mirror c) l (flags c).
Definition set_flags (f : cflags) (c : cursor) : cursor :=
  Cursor (c_parent c) (parent_index c) (c_node c) (index c) (create_check c) (left_bound c)
    (right_bound c) (key_beg c) (key_end c) (asof c) (mirror c) (leaf c) f.

(** * Nodes *)

(** The node a cursor holds; hammer_get_node() finds a node by its offset, a
    missing one being a read that fails. *)
Definition ondisk (m : hmp) (off : Z) : outcome node :=
  match nodes m !! off with Some n => Ok n | None => Undef NullDeref end.

Definition hammer_get_node (m : hmp) (off : Z) : Z + node :=
  match nodes m !! off with Some n => inr n | None => inl EIO end.

Definition put (off : Z) (n : node) (m : hmp) : hmp :=
  Hmp (<[off := n]> (nodes m)) (vol0_btree_root m) (free_nodes m).

Definition held {A} (o : option A) : outcome A :=
  match o with Some a => Ok a | None => Undef NullDeref end.

Definition deref (m : hmp) (b : bound) : outcome base_elm :=
  match b with
  | RootBeg => Ok root_btree_beg
  | RootEnd => Ok root_btree_end
  | ElmPtr off i =>
      let* n := ondisk m off in
      let* e := aget (n_elms n) i in Ok (base e)
  end.

Definition zero_elm : btree_elm := Elm (BaseElm 0 0 0 0 0 0 0 0) 0 0 0 0.

Definition zero_node : node :=
  Node 0 0 0 0 (repeat zero_elm (Z.to_nat HAMMER_BTREE_LEAF_ELMS)) false.

(** hammer_alloc_btree() returns a cleared node, or NULL with ENOSPC. *)
Definition hammer_alloc_btree (m : hmp) : option (Z * hmp) :=
  match free_nodes m with
  | [] => None
  | off :: rest => Some (off, Hmp (<[off := zero_node]> (nodes m)) (vol0_btree_root m) rest)
  end.

Definition hammer_delete_node (off : Z) (m : hmp) : hmp :=
  Hmp (delete off (nodes m)) (vol0_btree_root m) (free_nodes m).

(** bcopy() of [n] elements, which may overlap. *)
Definition bcopy (src : list btree_elm) (si : Z) (dst : list btree_elm) (di n : Z)
    : outcome (list btree_elm) :=
  if (n <? 0) || (si <? 0) || (di <? 0) || (si + n >? Z.of_nat (length src))
     || (di + n >? Z.of_nat (length dst))
  then Undef OutOfBounds
  else Ok (take (Z.to_nat di) dst ++ take (Z.to_nat n) (drop (Z.to_nat si) src)
           ++ drop (Z.to_nat (di + n)) dst).

Definition btree_node_is_full (n : node) : outcome bool :=
  if n_type n =? HAMMER_BTREE_TYPE_INTERNAL then
    Ok (n_count n =? HAMMER_BTREE_INT_ELMS)
  else if n_type n =? HAMMER_BTREE_TYPE_LEAF then
    Ok (n_count n =? HAMMER_BTREE_LEAF_ELMS)
  else Panic.

(** The binary search between [b] and [s], down to four elements. *)
Fixpoint search_node_loop (fuel : nat) (elm : base_elm) (n : node) (b s : Z)
    : outcome Z :=
  match fuel with
  | O => NoFuel
  | S fuel =>
      if s - b >? 4 then
        let i := b + Z.quot (s - b) 2 in
        let* e := aget (n_elms n) i in
        if hammer_btree_cmp elm (base e) <=? 1
        then search_node_loop fuel elm n b i
        else search_node_loop fuel elm n i s
      else Ok b
  end.

Definition hammer_btree_search_node (elm : base_elm) (n : node) : outcome Z :=
  search_node_loop 64 elm n 0 (n_count n).

(** * The cursor *)

(** The scan of the parent for the element that points to the child. *)
Fixpoint find_child (fuel : nat) (p : node) (child i : Z) : outcome Z :=
  match fuel with
  | O => NoFuel
  | S fuel =>
      if i <? n_count p then
        let* e := aget (n_elms p) i in
        if subtree_offset e =? child then Ok i else find_child fuel p child (i + 1)
      else Ok i
  end.

Definition hammer_btree_get_parent (m : hmp) (off : Z) (n : node) : outcome (Z * Z) :=
  match hammer_get_node m (n_parent n) with
  | inl error => Ok (error, 0)
  | inr parent =>
      let* i :=
        if negb (n_count n =? 0) then
          let* e := aget (n_elms n) 0 in hammer_btree_search_node (base e) parent
        else Ok 0 in
      let* i := find_child 64 parent off i in
      if i =? n_count parent then Panic else Ok (0, i)
  end.

Definition hammer_load_cursor_parent (m : hmp) (c : cursor) : outcome (Z * cursor) :=
  let* off := held (c_node c) in
  let* n := ondisk m off in
  if negb (n_parent n =? 0) then
    let* (error, i) := hammer_btree_get_parent m off n in
    if error =? 0 then
      let p := n_parent n in
      Ok (0, set_bounds (ElmPtr p i) (ElmPtr p (i + 1)) (set_cparent (Some p) i c))
    else Ok (error, c)
  else Ok (0, set_bounds RootBeg RootEnd (set_cparent None 0 c)).

Definition hammer_cursor_up (m : hmp) (c : cursor) : outcome (Z * cursor) :=
  match c_parent c with
  | None => Ok (ENOENT, c)
  | Some p =>
      hammer_load_cursor_parent m
        (set_cparent None 0 (set_node (Some p) (parent_index c) c))
  end.

Definition hammer_cursor_down (m : hmp) (c : cursor) : outcome (Z * cursor) :=
  let* off := held (c_node c) in
  let* n := ondisk m off in
  kkassert ((index c >=? 0) && (index c <? n_count n)) (
  let pi := index c in
  let c := set_node None 0 (set_cparent (Some off) pi c) in
  let* elm := aget (n_elms n) pi in
  if (btype (base elm) =? HAMMER_BTREE_TYPE_INTERNAL)
     || (btype (base elm) =? HAMMER_BTREE_TYPE_LEAF) then
    kkassert (n_type n =? HAMMER_BTREE_TYPE_INTERNAL) (
    kkassert (negb (subtree_offset elm =? 0)) (
    let c := set_bounds (ElmPtr off pi) (ElmPtr off (pi + 1)) c in
    match hammer_get_node m (subtree_offset elm) with
    | inl error => Ok (error, c)
    | inr child =>
        kkassert (btype (base elm) =? n_type child) (
        if negb (n_parent child =? off) then Panic
        else Ok (0, set_node (Some (subtree_offset elm)) 0 c))
    end))
  else Panic).

(** * Splits *)

(** The parent a split puts its separator in: the cursor's, or a new root above
    the node, with one element.  No offset left: ENOSPC. *)
Definition split_parent (m : hmp) (c : cursor) (off : Z) (n : node)
    : outcome (option (Z * Z * hmp)) :=
  if n_parent n =? 0 then
    match hammer_alloc_btree m with
    | None => Ok None
    | Some (p, m) =>
        let* es := aset (n_elms zero_node) 0
          (set_subtree_offset off (set_base (set_btype (n_type n) root_btree_beg) zero_elm)) in
        let* es := aset es 1 (set_base root_btree_end zero_elm) in
        Ok (Some (p, 0, put p (Node 0 1 HAMMER_BTREE_TYPE_INTERNAL (n_mirror_tid n) es false) m))
    end
  else
    let* p := held (c_parent c) in Ok (Some (p, parent_index c, m)).

(** Room for an element at [pi + 1] of the parent, which is then filled with
    the separator and the reference to the new node. *)
Definition insert_separator (p : node) (pi : Z) (sep : base_elm) (new : Z) (newn : node)
    : outcome node :=
  kkassert (negb (n_count p =? HAMMER_BTREE_INT_ELMS)) (
  let* es := bcopy (n_elms p) (pi + 1) (n_elms p) (pi + 2) (n_count p - pi) in
  let* e := aget es (pi + 1) in
  let* es := aset es (pi + 1)
    (set_mirror_tid (n_mirror_tid newn)
      (set_subtree_offset new (set_base (set_btype (n_type newn) sep) e))) in
  Ok (set_count (n_count p + 1) (set_elms es p))).

(** A new root is recorded in the volume header, in the node and in the
    cursor. *)
Definition install_root (made_root : bool) (off parent : Z) (m : hmp) (c : cursor)
    : outcome (hmp * cursor) :=
  if made_root then
    let* n := ondisk m off in
    Ok (Hmp (<[off := set_parent parent n]> (nodes m)) parent (free_nodes m),
        set_cparent (Some parent) (parent_index c) c)
  else Ok (m, c).

(** The cursor after a split: on the new node or still on the old one, with
    the bounds of its element in the parent. *)
Definition split_cursor (right : bool) (parent pi new split : Z) (c : cursor) : cursor :=
  let c := if right
    then set_node (Some new) (index c - split) (set_cparent (c_parent c) (pi + 1) c)
    else set_cparent (c_parent c) pi c in
  set_bounds (ElmPtr parent (parent_index c)) (ElmPtr parent (parent_index c + 1)) c.

Definition btree_set_parent (m : hmp) (off : Z) (elm : btree_elm) : Z * hmp :=
  if (btype (base elm) =? HAMMER_BTREE_TYPE_INTERNAL)
     || (btype (base elm) =? HAMMER_BTREE_TYPE_LEAF) then
    match hammer_get_node m (subtree_offset elm) with
    | inl error => (error, m)
    | inr child => (0, put (subtree_offset elm) (set_parent off child) m)
    end
  else (0, m).

Fixpoint set_parents (m : hmp) (off : Z) (es : list btree_elm) : outcome hmp :=
  match es with
  | [] => Ok m
  | e :: es =>
      let '(error, m) := btree_set_parent m off e in
      if negb (error =? 0) then Panic else set_parents m off es
  end.

Definition btree_split_internal (m : hmp) (c : cursor) : outcome (Z * hmp * cursor) :=
  let* off := held (c_node c) in
  let* n := ondisk m off in
  kkassert (n_count n >? 4) (
  let '(split, n) :=
    if (index c =? n_count n) && negb (n_nonlinear n)
    then (Z.quot ((n_count n + 1) * 3) 4, set_nonlinear n)
    else let split := Z.quot (n_count n + 1) 2 in
         (if index c <=? split then split - 1 else split, n) in
  let m := put off n m in
  let made_root := n_parent n =? 0 in
  let* r := split_parent m c off n in
  match r with
  | None => Ok (ENOSPC, m, c)
  | Some (parent, pi, m) =>
  match hammer_alloc_btree m with
  | None => Ok (ENOSPC, if made_root then hammer_delete_node parent m else m, c)
  | Some (new, m) =>
      let* elm := aget (n_elms n) split in
      let* es := bcopy (n_elms n) split (n_elms zero_node) 0 (n_count n - split + 1) in
      let newn := Node parent (n_count n - split) HAMMER_BTREE_TYPE_INTERNAL
                       (n_mirror_tid n) es false in
      kkassert (n_type n =? n_type newn) (
      let m := put new newn m in
      let* es := aset (n_elms n) split (set_subtree_offset 0 elm) in
      let m := put off (set_count split (set_elms es n)) m in
      let* p := ondisk m parent in
      let* p := insert_separator p pi (base elm) new newn in
      let m := put parent p m in
      let* m := set_parents m new (take (Z.to_nat (n_count newn)) (n_elms newn)) in
      let* (m, c) := install_root made_root off parent m c in
      let c := split_cursor (index c >=? split) parent pi new split c in
      let* off := held (c_node c) in
      let* n := ondisk m off in
      let* lb := deref m (left_bound c) in
      let* rb := deref m (right_bound c) in
      let* first := aget (n_elms n) 0 in
      let* last := aget (n_elms n) (n_count n) in
      kkassert (hammer_btree_cmp lb (base first) <=? 0) (
      kkassert (hammer_btree_cmp rb (base last) >=? 0) (
      Ok (0, m, c))))
  end
  end).

(** The bounds the code asserts of a leaf around a split. *)
Definition assert_leaf_bounds {A} (m : hmp) (c : cursor) (n : node) (k : outcome A) : outcome A :=
  let* lb := deref m (left_bound c) in
  let* rb := deref m (right_bound c) in
  let* first := aget (n_elms n) 0 in
  let* last := aget (n_elms n) (n_count n - 1) in
  kkassert (hammer_btree_cmp lb (base first) <=? 0) (
  kkassert (hammer_btree_cmp rb (base last) >? 0) k).

Definition btree_split_leaf (m : hmp) (c : cursor) : outcome (Z * hmp * cursor) :=
  let* off := held (c_node c) in
  let* n := ondisk m off in
  assert_leaf_bounds m c n (
  kkassert (n_count n >? 4) (
  let '(split, n) :=
    if (index c =? n_count n) && negb (n_nonlinear n)
    then (Z.quot ((n_count n + 1) * 3) 4, set_nonlinear n)
    else (Z.quot (n_count n + 1) 2, n) in
  let m := put off n m in
  kkassert ((split >? 0) && (split <? n_count n)) (
  let* lb := deref m (left_bound c) in
  let* rb := deref m (right_bound c) in
  let* prev := aget (n_elms n) (split - 1) in
  let* elm := aget (n_elms n) split in
  let* next := aget (n_elms n) (split + 1) in
  kkassert (hammer_btree_cmp lb (base prev) <=? 0) (
  kkassert (hammer_btree_cmp lb (base elm) <=? 0) (
  kkassert (hammer_btree_cmp rb (base elm) >? 0) (
  kkassert (hammer_btree_cmp rb (base next) >? 0) (
  let made_root := n_parent n =? 0 in
  let* r := split_parent m c off n in
  match r with
  | None => Ok (ENOSPC, m, c)
  | Some (parent, pi, m) =>
  match hammer_alloc_btree m with
  | None => Ok (ENOSPC, if made_root then hammer_delete_node parent m else m, c)
  | Some (new, m) =>
      let* es := bcopy (n_elms n) split (n_elms zero_node) 0 (n_count n - split) in
      let newn := Node parent (n_count n - split) HAMMER_BTREE_TYPE_LEAF
                       (n_mirror_tid n) es false in
      kkassert (n_type n =? n_type newn) (
      let m := put off (set_count split n) (put new newn m) in
      let* p := ondisk m parent in
      let sep := hammer_make_separator (base prev) (base elm) in
      let* p := insert_separator p pi sep new newn in
      let m := put parent p m in
      let* (m, c) := install_root made_root off parent m c in
      let right := (index c >? split) ||
        ((index c =? split) && (hammer_btree_cmp (key_beg c) sep >=? 0)) in
      let c := split_cursor right parent pi new split c in
      let* off := held (c_node c) in
      let* n := ondisk m off in
      assert_leaf_bounds m c n (
      let* lb := deref m (left_bound c) in
      let* rb := deref m (right_bound c) in
      kkassert (hammer_btree_cmp lb (key_beg c) <=? 0) (
      kkassert (hammer_btree_cmp rb (key_beg c) >? 0) (
      Ok (0, m, c)))))
  end
  end))))))).

(** * The search *)

(** The as-of hint: the search passed a boundary that differs from the key by
    its creation transaction only. *)
Definition note_create_check (b : base_elm) (c : cursor) : outcome cursor :=
  kkassert (negb (create_tid b =? 1)) (
  Ok (set_flags (set_CREATE_CHECK true (flags c)) (set_create_check (u64 (create_tid b - 1)) c))).

(** Up the tree until the bounds of the node cover the key.  The last
    comparison with the left bound is kept. *)
Fixpoint search_up (fuel : nat) (m : hmp) (c : cursor) : outcome (Z * Z * cursor) :=
  match fuel with
  | O => NoFuel
  | S fuel =>
      let* lb := deref m (left_bound c) in
      let* rb := deref m (right_bound c) in
      let r := hammer_btree_cmp (key_beg c) lb in
      let s := hammer_btree_cmp (key_beg c) rb in
      if (r >=? 0) && (s <? 0) then Ok (0, r, c)
      else
        kkassert (match c_parent c with Some _ => true | None => false end) (
        let* (error, c) := hammer_cursor_up m c in
        if negb (error =? 0) then Ok (error, r, c) else search_up fuel m c)
  end.

(** When inserting, further up until the node can be split. *)
Fixpoint search_up_full (fuel : nat) (m : hmp) (c : cursor) (ins : bool) : outcome (Z * cursor) :=
  match fuel with
  | O => NoFuel
  | S fuel =>
      if ins then
        let* off := held (c_node c) in
        let* n := ondisk m off in
        let* full := btree_node_is_full n in
        if negb full then Ok (0, c)
        else if n_parent n =? 0 then Ok (0, c)
        else
          let* p := held (c_parent c) in
          let* pn := ondisk m p in
          if negb (n_count pn =? HAMMER_BTREE_INT_ELMS) then Ok (0, c)
          else
            let* (error, c) := hammer_cursor_up m c in
            if negb (error =? 0) then Ok (error, c) else search_up_full fuel m c ins
      else Ok (0, c)
  end.

(** The linear scan of an internal node, boundaries included. *)
Fixpoint scan_internal (fuel : nat) (n : node) (i : Z) (c : cursor) : outcome (Z * cursor) :=
  match fuel with
  | O => NoFuel
  | S fuel =>
      if i <=? n_count n then
        let* elm := aget (n_elms n) i in
        let r := hammer_btree_cmp (key_beg c) (base elm) in
        if r <? 0 then Ok (i, c)
        else
          let* c := if r =? 1 then note_create_check (base elm) c else Ok c in
          scan_internal fuel n (i + 1) c
      else Ok (i, c)
  end.

(** The element to push into, the boundaries of the node being widened to those
    of its parent when inserting or pruning; [None]: the search ends there. *)
Definition search_edge (m : hmp) (c : cursor) (off : Z) (n : node) (i : Z)
    : outcome (option Z * hmp * cursor) :=
  let modify := INSERT (flags c) || PRUNING (flags c) in
  if i =? 0 then
    if negb modify then Ok (None, m, set_index 0 c)
    else
      kkassert (BACKEND (flags c)) (
      let* lb := deref m (left_bound c) in
      let* e := aget (n_elms n) 0 in
      let* es := aset (n_elms n) 0 (set_base (set_btype (btype (base e)) lb) e) in
      Ok (Some i, put off (set_elms es n) m, c))
  else if i =? n_count n + 1 then
    let i := i - 1 in
    if negb modify then Ok (None, m, set_index i c)
    else
      let* e := aget (n_elms n) i in
      kkassert (BACKEND (flags c)) (
      let* rb := deref m (right_bound c) in
      let* es := aset (n_elms n) i (set_base rb e) in
      Ok (Some (i - 1), put off (set_elms es n) m, c))
  else Ok (Some (i - 1), m, c).

(** Push down through the internal nodes.  [Some error]: the search ends there;
    the boolean is the code's [enospc]. *)
Fixpoint search_down (fuel : nat) (m : hmp) (c : cursor) (enospc : bool)
    : outcome (option Z * hmp * cursor * bool) :=
  match fuel with
  | O => NoFuel
  | S fuel =>
      let* off := held (c_node c) in
      let* n := ondisk m off in
      if n_type n =? HAMMER_BTREE_TYPE_INTERNAL then
        let* i := hammer_btree_search_node (key_beg c) n in
        let* (i, c) := scan_internal 64 n i c in
        let* (push, m, c) := search_edge m c off n i in
        match push with
        | None => Ok (Some ENOENT, m, c, enospc)
        | Some i =>
            let c := set_index i c in
            let* n := ondisk m off in
            let* elm := aget (n_elms n) i in
            kkassert (negb (subtree_offset elm =? 0)) (
            let* full := btree_node_is_full n in
            let* (error, m, c) :=
              if INSERT (flags c) && negb enospc && full
              then btree_split_internal m c else Ok (0, m, c) in
            if negb (error =? 0) && negb (error =? ENOSPC) then Ok (Some error, m, c, enospc)
            else
              let enospc := enospc || (error =? ENOSPC) in
              let* (error, c) := hammer_cursor_down m c in
              if negb (error =? 0) then Ok (Some error, m, c, enospc)
              else search_down fuel m c enospc)
        end
      else Ok (None, m, c, enospc)
  end.

(** The linear scan of a leaf: the index of the element found, or the insertion
    point. *)
Fixpoint scan_leaf (fuel : nat) (n : node) (c : cursor) (i : Z) : outcome (bool * Z) :=
  match fuel with
  | O => NoFuel
  | S fuel =>
      if i <? n_count n then
        let* elm := aget (n_elms n) i in
        let r := hammer_btree_cmp (key_beg c) (base elm) in
        kkassert (btype (base elm) =? HAMMER_BTREE_TYPE_RECORD) (
        if r <? 0 then Ok (false, i)
        else if r >? 1 then scan_leaf fuel n c (i + 1)
        else if ASOF (flags c) then
          if negb (hammer_btree_chkts (asof c) (base elm) =? 0)
          then scan_leaf fuel n c (i + 1) else Ok (true, i)
        else if r >? 0 then scan_leaf fuel n c (i + 1)
        else Ok (true, i))
      else Ok (false, i)
  end.

Definition search_leaf (m : hmp) (c : cursor) (enospc : bool) : outcome (Z * hmp * cursor) :=
  let* off := held (c_node c) in
  let* n := ondisk m off in
  kkassert (n_type n =? HAMMER_BTREE_TYPE_LEAF) (
  kkassert (n_count n <=? HAMMER_BTREE_LEAF_ELMS) (
  let* i := hammer_btree_search_node (key_beg c) n in
  let* (found, i) := scan_leaf 64 n c i in
  let c := set_index i c in
  if (found : bool) then Ok (0, m, c)
  else
    let* full := btree_node_is_full n in
    let* (error, m, c) :=
      if INSERT (flags c) && negb enospc && full
      then btree_split_leaf m c else Ok (0, m, c) in
    if negb (error =? 0) && negb (error =? ENOSPC) then Ok (error, m, c)
    else Ok (if enospc || (error =? ENOSPC) then ENOSPC else ENOENT, m, c))).

(** [btree_search(cursor, 0)], as both its callers call it. *)
Definition btree_search (fuel : nat) (m : hmp) (c : cursor) : outcome (Z * hmp * cursor) :=
  let* (error, r, c) := search_up fuel m c in
  if negb (error =? 0) then Ok (error, m, c)
  else
    let* c :=
      if r =? 1 then let* lb := deref m (left_bound c) in note_create_check lb c
      else Ok c in
    let* _ := held (c_node c) in
    let* (error, c) := search_up_full fuel m c (INSERT (flags c)) in
    if negb (error =? 0) then Ok (error, m, c)
    else
      let* (stop, m, c, enospc) := search_down fuel m c false in
      match stop with
      | Some error => Ok (error, m, c)
      | None => search_leaf m c enospc
      end.

(** * Lookup *)

Section Lookup.

(** The error of reading the data an element refers to and testing its
    checksum (hammer_bread_ext, hammer_crc_test_leaf), which belong to the
    buffer layer. *)
Variable read_data : btree_elm → Z.

Definition HAMMER_XBUFSIZE : Z := 65536.

Definition hammer_btree_extract (m : hmp) (c : cursor) : outcome (Z * cursor) :=
  let* off := held (c_node c) in
  let* n := ondisk m off in
  let* elm := aget (n_elms n) (index c) in
  if n_type n =? HAMMER_BTREE_TYPE_INTERNAL then Ok (EINVAL, c)
  else
    kkassert (n_type n =? HAMMER_BTREE_TYPE_LEAF) (
    let c := set_leaf (Some (off, index c)) c in
    if negb (GET_DATA (flags c)) then Ok (0, c)
    else if negb (btype (base elm) =? HAMMER_BTREE_TYPE_RECORD) then Ok (0, c)
    else if data_offset elm =? 0 then Ok (0, c)
    else
      kkassert ((data_len elm >=? 0) && (data_len elm <=? HAMMER_XBUFSIZE)) (
      Ok (read_data elm, c))).

(** The as-of search: as long as nothing is found and a boundary was passed
    that only differed by its transaction, again left of that boundary. *)
Fixpoint lookup_asof (rounds fuel : nat) (m : hmp) (c : cursor) : outcome (Z * hmp * cursor) :=
  match rounds with
  | O => NoFuel
  | S rounds =>
      let c := set_flags (set_CREATE_CHECK false (flags c)) c in
      let* (error, m, c) := btree_search fuel m c in
      if negb (error =? ENOENT) || negb (CREATE_CHECK (flags c)) then Ok (error, m, c)
      else lookup_asof rounds fuel m
             (set_key_beg (set_create_tid (create_check c) (key_beg c)) c)
  end.

Definition hammer_btree_lookup (rounds fuel : nat) (m : hmp) (c : cursor)
    : outcome (Z * hmp * cursor) :=
  let c := set_flags (set_ITERATE_CHECK false (flags c)) c in
  let* (error, m, c) :=
    if ASOF (flags c) then
      kkassert (negb (INSERT (flags c))) (
      lookup_asof rounds fuel m (set_key_beg (set_create_tid (asof c) (key_beg c)) c))
    else btree_search fuel m c in
  if error =? 0 then
    let* (error, c) := hammer_btree_extract m c in Ok (error, m, c)
  else Ok (error, m, c).

End Lookup.

(** * Iteration *)

(** The part of the node the mirroring scan skips: from the cursor up to the
    first element changed since [cm_mirror_tid]. *)
Fixpoint filter_loop (fuel : nat) (n : node) (tid i : Z) : outcome Z :=
  match fuel with
  | O => NoFuel
  | S fuel =>
      if i <? n_count n then
        let* e := aget (n_elms n) i in
        if mirror_tid e >=? tid then Ok i else filter_loop fuel n tid (i + 1)
      else Ok i
  end.

Definition hammer_cursor_mirror_filter (m : hmp) (c : cursor) : outcome cursor :=
  let* off := held (c_node c) in
  let* n := ondisk m off in
  let cm := mirror c in
  let* beg :=
    if index c =? 0 then deref m (left_bound c)
    else let* e := aget (n_elms n) (index c) in Ok (base e) in
  let* i := filter_loop 64 n (cm_mirror_tid cm) (index c) in
  let* fin :=
    if i =? n_count n then deref m (right_bound c)
    else let* e := aget (n_elms n) i in Ok (base e) in
  let beg := if hammer_btree_cmp beg (key_beg c) <? 0 then key_beg c else beg in
  let fin := if hammer_btree_cmp fin (key_end c) >? 0 then key_end c else fin in
  Ok (set_mirror (CMirror (cm_mirror_tid cm) beg fin) (set_index i c)).

(** What one turn of the iteration decides: return, or go on with a cursor. *)
Inductive turn :=
  | Return (error : Z) (c : cursor)
  | Continue (c : cursor).

(** A turn at an internal element. *)
Definition iterate_internal (m : hmp) (c : cursor) (n : node) : outcome turn :=
  let* e0 := aget (n_elms n) (index c) in
  let* e1 := aget (n_elms n) (index c + 1) in
  let r := hammer_btree_cmp (key_end c) (base e0) in
  let s := hammer_btree_cmp (key_beg c) (base e1) in
  if r <? 0 then Ok (Return ENOENT c)
  else if (r =? 0) && negb (END_INCLUSIVE (flags c)) then Ok (Return ENOENT c)
  else
    kkassert (negb (subtree_offset e0 =? 0)) (
    if (s <=? 0) && MIRROR_FILTERED (flags c) && (mirror_tid e0 <? cm_mirror_tid (mirror c))
    then let* c := hammer_cursor_mirror_filter m c in Ok (Return 0 c)
    else
      kkassert ((s <=? 0) || ITERATE_CHECK (flags c)) (
      let* (error, c) := hammer_cursor_down m c in
      if negb (error =? 0) then Ok (Return error c)
      else kkassert (index c =? 0) (Ok (Continue c)))).

(** A turn at a leaf element. *)
Definition iterate_leaf (c : cursor) (n : node) : outcome turn :=
  let* e := aget (n_elms n) (index c) in
  let r := hammer_btree_cmp (key_end c) (base e) in
  if r <? 0 then Ok (Return ENOENT c)
  else if (r =? 0) && negb (END_INCLUSIVE (flags c)) then Ok (Return ENOENT c)
  else if ITERATE_CHECK (flags c) && (hammer_btree_cmp (key_beg c) (base e) >? 0)
  then Ok (Continue (set_index (index c + 1) c))
  else
    let c := set_flags (set_ITERATE_CHECK false (flags c)) c in
    if btype (base e) =? HAMMER_BTREE_TYPE_RECORD then
      if ASOF (flags c) && negb (hammer_btree_chkts (asof c) (base e) =? 0)
      then Ok (Continue (set_index (index c + 1) c))
      else Ok (Return 0 c)
    else Ok (Return EINVAL c).

Definition iterate_turn (m : hmp) (c : cursor) : outcome turn :=
  let* off := held (c_node c) in
  let* n := ondisk m off in
  if index c =? n_count n then
    let* linked :=
      match c_parent c with
      | None => Ok true
      | Some p =>
          let* pn := ondisk m p in
          let* e := aget (n_elms pn) (parent_index c) in
          Ok (subtree_offset e =? off)
      end in
    kkassert linked (
    let* (error, c) := hammer_cursor_up m c in
    if negb (error =? 0) then Ok (Return error c)
    else
      let* off := held (c_node c) in
      let* n := ondisk m off in
      kkassert (negb (index c =? n_count n)) (
      if REBLOCKING (flags c)
      then Ok (Return 0 (set_flags (set_ATEDISK true (flags c)) c))
      else Ok (Continue (set_index (index c + 1) c))))
  else if n_type n =? HAMMER_BTREE_TYPE_INTERNAL then iterate_internal m c n
  else iterate_leaf c n.

Fixpoint iterate_loop (turn_of : hmp → cursor → outcome turn) (fuel : nat) (m : hmp) (c : cursor)
    : outcome (Z * cursor) :=
  match fuel with
  | O => NoFuel
  | S fuel =>
      let* t := turn_of m c in
      match t with
      | Return error c => Ok (error, c)
      | Continue c => iterate_loop turn_of fuel m c
      end
  end.

Definition hammer_btree_iterate (fuel : nat) (m : hmp) (c : cursor) : outcome (Z * cursor) :=
  let* off := held (c_node c) in
  let* n := ondisk m off in
  let c := if (index c <? n_count n) && ATEDISK (flags c)
           then set_index (index c + 1) c else c in
  iterate_loop iterate_turn fuel m c.

Definition iterate_reverse_turn (m : hmp) (c : cursor) : outcome turn :=
  if index c =? -1 then
    let* (error, c) := hammer_cursor_up m c in
    if negb (error =? 0) then Ok (Return error (set_index 0 c))
    else
      let* off := held (c_node c) in
      let* n := ondisk m off in
      kkassert (negb (index c =? n_count n)) (
      Ok (Continue (set_index (index c - 1) c)))
  else
    let* off := held (c_node c) in
    let* n := ondisk m off in
    kkassert (negb (index c =? n_count n)) (
    if n_type n =? HAMMER_BTREE_TYPE_INTERNAL then
      let* e0 := aget (n_elms n) (index c) in
      let* e1 := aget (n_elms n) (index c + 1) in
      let r := hammer_btree_cmp (key_end c) (base e0) in
      let s := hammer_btree_cmp (key_beg c) (base e1) in
      if s >=? 0 then Ok (Return ENOENT c)
      else
        kkassert (r >=? 0) (
        kkassert (negb (subtree_offset e0 =? 0)) (
        let* (error, c) := hammer_cursor_down m c in
        if negb (error =? 0) then Ok (Return error c)
        else
          kkassert (index c =? 0) (
          let* off := held (c_node c) in
          let* n := ondisk m off in
          Ok (Continue (set_index (n_count n - 1) c)))))
    else
      let* e := aget (n_elms n) (index c) in
      let s := hammer_btree_cmp (key_beg c) (base e) in
      if s >? 0 then Ok (Return ENOENT c)
      else
        let c := set_flags (set_ITERATE_CHECK false (flags c)) c in
        if btype (base e) =? HAMMER_BTREE_TYPE_RECORD then
          if ASOF (flags c) && negb (hammer_btree_chkts (asof c) (base e) =? 0)
          then Ok (Continue (set_index (index c - 1) c))
          else Ok (Return 0 c)
        else Ok (Return EINVAL c)).

Definition hammer_btree_iterate_reverse (fuel : nat) (m : hmp) (c : cursor)
    : outcome (Z * cursor) :=
  kkassert (negb (MIRROR_FILTERED (flags c))) (
  let* off := held (c_node c) in
  let* n := ondisk m off in
  let c := if negb (index c =? -1) && ATEDISK (flags c) then set_index (index c - 1) c else c in
  let c := if index c =? n_count n then set_index (index c - 1) c else c in
  iterate_loop iterate_reverse_turn fuel m c).

Section Scan.

Variable read_data : btree_elm → Z.

Definition hammer_btree_first (rounds fuel turns : nat) (m : hmp) (c : cursor)
    : outcome (Z * hmp * cursor) :=
  let* (error, m, c) := hammer_btree_lookup read_data rounds fuel m c in
  let* (error, c) :=
    if error =? ENOENT then
      hammer_btree_iterate turns m (set_flags (set_ATEDISK false (flags c)) c)
    else Ok (error, c) in
  Ok (error, m, set_flags (set_ATEDISK true (flags c)) c).

Definition hammer_btree_last (rounds fuel turns : nat) (m : hmp) (c : cursor)
    : outcome (Z * hmp * cursor) :=
  let save := key_beg c in
  let* (error, m, c) := hammer_btree_lookup read_data rounds fuel m (set_key_beg (key_end c) c) in
  let c := set_key_beg save c in
  let* (error, c) :=
    if (error =? ENOENT) || negb (END_INCLUSIVE (flags c)) then
      hammer_btree_iterate_reverse turns m (set_flags (set_ATEDISK true (flags c)) c)
    else Ok (error, c) in
  Ok (error, m, set_flags (set_ATEDISK true (flags c)) c).

End Scan.

(** * Insertion and removal of an element *)

(** The update of the node's aggregate [mirror_tid]; the boolean is
    [*doprop]. *)
Definition raise_mirror_tid (b : base_elm) (n : node) : node * bool :=
  let '(n, doprop) :=
    if n_mirror_tid n <? delete_tid b
    then (set_node_mirror_tid (delete_tid b) n, true) else (n, false) in
  if n_mirror_tid n <? create_tid b
  then (set_node_mirror_tid (create_tid b) n, true) else (n, doprop).

(** [elm] is a leaf element.  The result is the error, [*doprop] and the
    mount. *)
Definition hammer_btree_insert (m : hmp) (c : cursor) (elm : btree_elm)
    : outcome (Z * bool * hmp) :=
  let* off := held (c_node c) in
  let* n := ondisk m off in
  let i := index c in
  kkassert (negb (btype (base elm) =? 0)) (
  kkassert (n_type n =? HAMMER_BTREE_TYPE_LEAF) (
  kkassert (n_count n <? HAMMER_BTREE_LEAF_ELMS) (
  let* es :=
    if negb (i =? n_count n)
    then bcopy (n_elms n) i (n_elms n) (i + 1) (n_count n - i) else Ok (n_elms n) in
  let* es := aset es i elm in
  let n := set_count (n_count n + 1) (set_elms es n) in
  let '(n, doprop) := raise_mirror_tid (base elm) n in
  let m := put off n m in
  let* lb := deref m (left_bound c) in
  let* rb := deref m (right_bound c) in
  kkassert (hammer_btree_cmp lb (base elm) <=? 0) (
  kkassert (hammer_btree_cmp rb (base elm) >? 0) (
  let* above :=
    if negb (i =? 0) then
      let* e := aget (n_elms n) (i - 1) in Ok (hammer_btree_cmp (base e) (base elm) <? 0)
    else Ok true in
  kkassert above (
  let* below :=
    if negb (i =? n_count n - 1) then
      let* e := aget (n_elms n) (i + 1) in Ok (hammer_btree_cmp (base e) (base elm) >? 0)
    else Ok true in
  kkassert below (
  Ok (0, doprop, m)))))))).

(** The part of hammer_btree_delete() that takes the element at the cursor out
    of its leaf. *)
Definition delete_element (m : hmp) (c : cursor) : outcome hmp :=
  let* off := held (c_node c) in
  let* n := ondisk m off in
  let i := index c in
  kkassert (n_type n =? HAMMER_BTREE_TYPE_LEAF) (
  kkassert ((i >=? 0) && (i <? n_count n)) (
  let* es :=
    if negb (i + 1 =? n_count n)
    then bcopy (n_elms n) (i + 1) (n_elms n) i (n_count n - i - 1) else Ok (n_elms n) in
  Ok (put off (set_count (n_count n - 1) (set_elms es n)) m))).

End HammerTree.
