(* ===== verification/HammerTheory.v ===== *)
(** Correctness of the HAMMER B-tree of HammerTree: what a well-formed tree is
    and the records it holds in order, that the search finds the element with
    its key exactly when the tree holds one, that the as-of lookup finds a
    record alive at its time, that the iterations visit the elements in
    order, and that inserting into and deleting from a leaf keep it sorted. *)

From stdpp Require Import base list gmap.
From S2P Require Import Prelude HammerKey HammerTree.

Module HammerTheory.
Import HammerKey HammerTree.

(** * Lists *)

Lemma aget_nat {A} (l : list A) (i : nat) a :
  aget l (Z.of_nat i) = Ok a ↔ l !! i = Some a.
Proof. rewrite aget_Ok, Nat2Z.id. split; [by intros [_ ?]|]. intros; split; [lia|done]. Qed.

Lemma aget_at {A} (l : list A) i a :
  0 ≤ i → l !! Z.to_nat i = Some a → aget l i = Ok a.
Proof. intros. by apply aget_Ok. Qed.

(** Rewriting with a true assertion, rather than computing it. *)
Lemma kkassert_true {A} b (k : outcome A) : b = true → kkassert b k = k.
Proof. by intros ->. Qed.

Lemma bcopy_ok src si dst di n :
  0 ≤ n → 0 ≤ si → 0 ≤ di → si + n ≤ Z.of_nat (length src) → di + n ≤ Z.of_nat (length dst) →
  bcopy src si dst di n =
  Ok (take (Z.to_nat di) dst ++ take (Z.to_nat n) (drop (Z.to_nat si) src)
      ++ drop (Z.to_nat (di + n)) dst).
Proof.
  intros. unfold bcopy. destruct (_ || _) eqn:E; [|done].
  repeat (apply orb_true_iff in E as [E|E]); bool_prop; try lia.
Qed.

(** * Well-formed nodes *)

Definition elm_lt (a b : btree_elm) : Prop := key_lt (base a) (base b).

(** The first [k] elements of a node are in strictly increasing order. *)
Definition sorted_upto (es : list btree_elm) (k : nat) : Prop :=
  ∀ i j e e', (i < j)%nat → (j < k)%nat → es !! i = Some e → es !! j = Some e' → elm_lt e e'.

Record leaf_ok (n : node) (lo hi : base_elm) (L : list btree_elm) : Prop := {
  lf_type : n_type n = HAMMER_BTREE_TYPE_LEAF;
  lf_len : length (n_elms n) = 63%nat;
  lf_count : n_count n = Z.of_nat (length L);
  lf_elms : take (length L) (n_elms n) = L;
  lf_sorted : sorted_upto (n_elms n) (length L);
  lf_bounds : Forall (λ e, key_le lo (base e) ∧ key_lt (base e) hi) L;
  lf_record : Forall (λ e, btype (base e) = HAMMER_BTREE_TYPE_RECORD) L
}.

(** * Searching a node *)

(** Below an element that the key exceeds by more than its transaction, the key
    exceeds every element by more than that. *)
Lemma cmp_above k a b :
  1 < hammer_btree_cmp k b → key_le a b → 1 < hammer_btree_cmp k a.
Proof.
  intros Hb Hab.
  assert (Hk : key_lt b k) by (apply cmp_gt; lia).
  assert (Ha : key_lt a k) by (by apply key_le_lt_trans with b).
  destruct (decide (same_record k a)) as [Hs|Hs].
  - exfalso. assert (Hn : ¬ same_record k b) by (rewrite <- cmp_same; lia).
    apply Hn. unfold same_record, key_le, key_lt, tid_lt in *. lia.
  - rewrite <- cmp_same in Hs. apply cmp_gt in Ha. lia.
Qed.

(** The key is above the first [i] elements. *)
Definition above (k : base_elm) (es : list btree_elm) (i : nat) : Prop :=
  ∀ j e, (j < i)%nat → es !! j = Some e → key_le (base e) k.

Definition far_above (k : base_elm) (es : list btree_elm) (i : nat) : Prop :=
  ∀ j e, (j < i)%nat → es !! j = Some e → 1 < hammer_btree_cmp k (base e).

Lemma far_above_above k es i : far_above k es i → above k es i.
Proof. intros H j e Hj He. apply cmp_ge. specialize (H j e Hj He). lia. Qed.

Lemma far_above_le k es i j : far_above k es i → (j ≤ i)%nat → far_above k es j.
Proof. intros H Hij x e Hx. apply H. lia. Qed.

Lemma sorted_far_above k es n i e :
  sorted_upto es n → (i < n)%nat → es !! i = Some e → 1 < hammer_btree_cmp k (base e) →
  far_above k es (S i).
Proof.
  intros Hs Hi He Hc j e' Hj He'. apply cmp_above with (base e); [done|].
  destruct (decide (j = i)) as [->|]; [simplify_eq; apply key_le_refl|].
  apply key_lt_le. apply (Hs j i e' e); [lia|done..].
Qed.

Lemma search_node_loop_spec fuel k n cnt b s :
  n_count n = Z.of_nat cnt → (cnt ≤ length (n_elms n))%nat → sorted_upto (n_elms n) cnt →
  (b ≤ s ≤ cnt)%nat → b = 0%nat ∨ far_above k (n_elms n) (S b) →
  (s = cnt ∨ ∃ e, n_elms n !! s = Some e ∧ hammer_btree_cmp k (base e) ≤ 1) →
  (s - b < fuel)%nat →
  ∃ b' s', search_node_loop fuel k n (Z.of_nat b) (Z.of_nat s) = Ok (Z.of_nat b') ∧
    (b' ≤ s' ≤ cnt)%nat ∧ (s' ≤ b' + 4)%nat ∧
    (b' = 0%nat ∨ far_above k (n_elms n) (S b')) ∧
    (s' = cnt ∨ ∃ e, n_elms n !! s' = Some e ∧ hammer_btree_cmp k (base e) ≤ 1).
Proof.
  intros Hc Hl Hs. revert b s. induction fuel as [|fuel IH]; intros b s Hbs Hb He Hf; [lia|].
  cbn [search_node_loop]. destruct (_ >? 4) eqn:E; bool_prop.
  - assert (Hq : 2 * Z.quot (Z.of_nat s - Z.of_nat b) 2 ≤ Z.of_nat s - Z.of_nat b
                 < 2 * Z.quot (Z.of_nat s - Z.of_nat b) 2 + 2).
    { pose proof (Z.quot_rem' (Z.of_nat s - Z.of_nat b) 2).
      pose proof (Z.rem_bound_pos (Z.of_nat s - Z.of_nat b) 2). lia. }
    set (i := (b + Z.to_nat (Z.quot (Z.of_nat s - Z.of_nat b) 2))%nat).
    replace (Z.of_nat b + Z.quot (Z.of_nat s - Z.of_nat b) 2) with (Z.of_nat i) by lia.
    assert (Hi : (b + 2 ≤ i ∧ i + 2 ≤ s)%nat) by lia.
    destruct (lookup_lt_is_Some_2 (n_elms n) i) as [e Hei]; [lia|].
    rewrite (proj2 (aget_nat _ _ _) Hei). cbn [obind].
    destruct (_ <=? 1) eqn:Er; bool_prop.
    + apply IH; [lia|done|right; eauto|lia].
    + apply IH; [lia| |done|lia].
      right. eapply sorted_far_above; [done| |done|lia]. lia.
  - exists b, s. split_and!; try done; lia.
Qed.

Lemma search_node_spec k n cnt :
  n_count n = Z.of_nat cnt → (cnt ≤ length (n_elms n))%nat → (cnt ≤ 63)%nat →
  sorted_upto (n_elms n) cnt →
  ∃ b s, hammer_btree_search_node k n = Ok (Z.of_nat b) ∧
    (b ≤ s ≤ cnt)%nat ∧ (s ≤ b + 4)%nat ∧
    (b = 0%nat ∨ far_above k (n_elms n) (S b)) ∧
    (s = cnt ∨ ∃ e, n_elms n !! s = Some e ∧ hammer_btree_cmp k (base e) ≤ 1).
Proof.
  intros Hc Hl H63 Hs. unfold hammer_btree_search_node. rewrite Hc. change 0 with (Z.of_nat 0).
  apply search_node_loop_spec; try done; lia.
Qed.

Lemma far_above_start k es b : b = 0%nat ∨ far_above k es (S b) → far_above k es b.
Proof. intros [->|H]; [intros j e Hj; lia|apply (far_above_le _ _ _ _ H); lia]. Qed.

Section Tree.

(** What is known of every boundary of the internal nodes. *)
Variable sep_ok : base_elm → Prop.

(** An internal node with [k] children; its boundaries may be narrower than
    those its parent gives it. *)
Record internal_ok (n : node) (lo hi : base_elm) (k : nat) : Prop := {
  in_type : n_type n = HAMMER_BTREE_TYPE_INTERNAL;
  in_len : length (n_elms n) = 63%nat;
  in_count : n_count n = Z.of_nat k;
  in_range : (1 ≤ k ≤ 62)%nat;
  in_sorted : sorted_upto (n_elms n) (S k);
  in_lo : ∀ e, n_elms n !! 0%nat = Some e → key_le lo (base e);
  in_hi : ∀ e, n_elms n !! k = Some e → key_le (base e) hi;
  in_links : ∀ i e, (i < k)%nat → n_elms n !! i = Some e →
    subtree_offset e ≠ 0 ∧
    (btype (base e) = HAMMER_BTREE_TYPE_INTERNAL ∨ btype (base e) = HAMMER_BTREE_TYPE_LEAF);
  in_distinct : ∀ i j e e', (i < k)%nat → (j < k)%nat →
    n_elms n !! i = Some e → n_elms n !! j = Some e' →
    subtree_offset e = subtree_offset e' → i = j;
  in_seps : ∀ i e, (i ≤ k)%nat → n_elms n !! i = Some e → sep_ok (base e)
}.

Variable m : hmp.

(** [subtree h p off lo hi L]: the node at [off], whose parent is at [p], is
    the root of a tree of height at most [h] that covers the keys from [lo] up
    to [hi] and holds the elements [L], in order. *)
Inductive subtree : nat → Z → Z → base_elm → base_elm → list btree_elm → Prop :=
  | subtree_leaf h p off lo hi n L :
      off ≠ 0 → nodes m !! off = Some n → n_parent n = p →
      leaf_ok n lo hi L → subtree h p off lo hi L
  | subtree_internal h p off lo hi n cs :
      off ≠ 0 → nodes m !! off = Some n → n_parent n = p →
      internal_ok n lo hi (length cs) →
      (∀ i e L, n_elms n !! i = Some e → cs !! i = Some L →
         ∃ nc, nodes m !! subtree_offset e = Some nc ∧ n_type nc = btype (base e)) →
      (∀ i e e' L, n_elms n !! i = Some e → n_elms n !! S i = Some e' → cs !! i = Some L →
         subtree h off (subtree_offset e) (base e) (base e') L) →
      subtree (S h) p off lo hi (concat cs).

(** The children of an internal node. *)
Definition children_ok (h : nat) (off : Z) (n : node) (cs : list (list btree_elm)) : Prop :=
  (∀ i e L, n_elms n !! i = Some e → cs !! i = Some L →
     ∃ nc, nodes m !! subtree_offset e = Some nc ∧ n_type nc = btype (base e)) ∧
  (∀ i e e' L, n_elms n !! i = Some e → n_elms n !! S i = Some e' → cs !! i = Some L →
     subtree h off (subtree_offset e) (base e) (base e') L).

Variables (root : Z) (height : nat) (contents : list btree_elm).

(** [located h off par pi lb rb lo hi L bef aft]: a node of the tree, its
    position in its parent, where its bounds are stored and what they are, its
    elements and those before and after it. *)
Inductive located : nat → Z → option Z → Z → bound → bound → base_elm → base_elm →
    list btree_elm → list btree_elm → list btree_elm → Prop :=
  | located_root :
      subtree height 0 root root_btree_beg root_btree_end contents →
      located height root None 0 RootBeg RootEnd root_btree_beg root_btree_end contents [] []
  | located_child h off par pi lb rb lo hi n cs bef aft i e e' L :
      located (S h) off par pi lb rb lo hi (concat cs) bef aft →
      nodes m !! off = Some n →
      internal_ok n lo hi (length cs) →
      n_elms n !! i = Some e → n_elms n !! S i = Some e' → cs !! i = Some L →
      children_ok h off n cs →
      located h (subtree_offset e) (Some off) (Z.of_nat i)
        (ElmPtr off (Z.of_nat i)) (ElmPtr off (Z.of_nat i + 1)) (base e) (base e') L
        (bef ++ concat (take i cs)) (concat (drop (S i) cs) ++ aft).

(** A cursor on a node of the tree. *)
Definition cursor_at (c : cursor) (off : Z) (par : option Z) (pi : Z) (lb rb : bound) : Prop :=
  c_node c = Some off ∧ c_parent c = par ∧ parent_index c = pi ∧
  left_bound c = lb ∧ right_bound c = rb.

(** ** Facts about nodes *)

Lemma internal_elm n lo hi k i :
  internal_ok n lo hi k → (i ≤ k)%nat → ∃ e, n_elms n !! i = Some e.
Proof.
  intros H Hi. apply lookup_lt_is_Some_2. pose proof (in_len _ _ _ _ H).
  pose proof (in_range _ _ _ _ H). lia.
Qed.

Lemma internal_elm_ge n lo hi k i e :
  internal_ok n lo hi k → (i ≤ k)%nat → n_elms n !! i = Some e → key_le lo (base e).
Proof.
  intros H Hi He. destruct (internal_elm n lo hi k 0%nat H) as [e0 H0]; [lia|].
  pose proof (in_lo _ _ _ _ H _ H0) as Hlo. destruct (decide (i = 0%nat)) as [->|]; [by simplify_eq|].
  etransitivity; [done|]. apply key_lt_le.
  apply (in_sorted _ _ _ _ H 0%nat i e0 e); [lia|lia|done..].
Qed.

Lemma internal_elm_le n lo hi k i e :
  internal_ok n lo hi k → (i ≤ k)%nat → n_elms n !! i = Some e → key_le (base e) hi.
Proof.
  intros H Hi He. destruct (internal_elm n lo hi k k H) as [e0 H0]; [lia|].
  pose proof (in_hi _ _ _ _ H _ H0) as Hhi. destruct (decide (i = k)) as [->|]; [by simplify_eq|].
  etransitivity; [|done]. apply key_lt_le.
  apply (in_sorted _ _ _ _ H i k e e0); [lia|lia|done..].
Qed.

Lemma leaf_lookup n lo hi L i e :
  leaf_ok n lo hi L → (i < length L)%nat → n_elms n !! i = Some e ↔ L !! i = Some e.
Proof.
  intros H Hi. rewrite <- (lf_elms _ _ _ _ H) at 1. by rewrite lookup_take_lt by done.
Qed.

Lemma leaf_len n lo hi L : leaf_ok n lo hi L → (length L ≤ 63)%nat.
Proof.
  intros H. rewrite <- (lf_elms _ _ _ _ H). rewrite length_take.
  pose proof (lf_len _ _ _ _ H). lia.
Qed.

(** Every element of a subtree is within its bounds. *)
Lemma subtree_bounds h p off lo hi L :
  subtree h p off lo hi L → Forall (λ e, key_le lo (base e) ∧ key_lt (base e) hi) L.
Proof.
  induction 1 as [|h p off lo hi n cs Hoff Hn Hp Hok Hlink Hsub IH]; [by eapply lf_bounds|].
  apply Forall_concat, Forall_lookup_2. intros i L HL.
  pose proof (lookup_lt_Some _ _ _ HL) as Hi.
  destruct (internal_elm _ _ _ _ i Hok) as [e He]; [lia|].
  destruct (internal_elm _ _ _ _ (S i) Hok) as [e' He']; [lia|].
  eapply Forall_impl; [by apply (IH i e e' L)|]. cbn. intros x [H1 H2]. split.
  - etransitivity; [|exact H1]. eapply internal_elm_ge; [done| |done]. lia.
  - eapply key_lt_le_trans; [exact H2|]. eapply internal_elm_le; [done| |done]. lia.
Qed.

Lemma subtree_node h p off lo hi L :
  subtree h p off lo hi L → off ≠ 0 ∧ ∃ n, nodes m !! off = Some n ∧ n_parent n = p.
Proof. inversion 1; eauto. Qed.

Lemma located_subtree h off par pi lb rb lo hi L bef aft :
  located h off par pi lb rb lo hi L bef aft →
  subtree h (default 0 par) off lo hi L.
Proof.
  inversion 1 as [|h' off' par' pi' lb' rb' lo' hi' n cs bef' aft' i e e' L' Hup Hn Hok He He' HL [_ Hsub]];
    simplify_eq; [done|]. by apply (Hsub i e e').
Qed.

(** ** Moving the cursor *)

(** The fields of a cursor that moving it leaves alone. *)
Definition rest (c : cursor) :=
  (create_check c, key_beg c, key_end c, asof c, mirror c, leaf c, flags c).

Lemma located_bounds h off par pi lb rb lo hi L bef aft :
  located h off par pi lb rb lo hi L bef aft →
  deref m lb = Ok lo ∧ deref m rb = Ok hi.
Proof.
  inversion 1; simplify_eq; [done|]. cbn [deref]. unfold ondisk.
  match goal with H : nodes m !! _ = Some _ |- _ => rewrite H end. cbn [obind].
  replace (Z.of_nat i + 1) with (Z.of_nat (S i)) by lia.
  match goal with H : n_elms _ !! i = Some _, H' : n_elms _ !! S i = Some _ |- _ =>
    by rewrite (proj2 (aget_nat _ _ _) H), (proj2 (aget_nat _ _ _) H') end.
Qed.

(** The first element of a node is below its upper bound. *)
Lemma subtree_first h p off lo hi L n :
  subtree h p off lo hi L → nodes m !! off = Some n → n_count n ≠ 0 →
  ∃ e, n_elms n !! 0%nat = Some e ∧ key_lt (base e) hi.
Proof.
  intros Hs Hn Hc. inversion Hs as [h' ? ? ? ? n' L' Hoff Hn' Hp Hok|h' ? ? ? ? n' cs Hoff Hn' Hp Hok];
    simplify_eq.
  - rewrite (lf_count _ _ _ _ Hok) in Hc. destruct L as [|e L]; [done|].
    exists e. split.
    + apply (leaf_lookup _ _ _ _ _ _ Hok); [cbn; lia|done].
    + pose proof (lf_bounds _ _ _ _ Hok) as HF. apply Forall_cons_1 in HF. tauto.
  - pose proof (in_range _ _ _ _ Hok). destruct (internal_elm _ _ _ _ 0 Hok) as [e0 He0]; [lia|].
    destruct (internal_elm _ _ _ _ (length cs) Hok) as [ek Hk]; [lia|].
    exists e0. split; [done|]. eapply key_lt_le_trans; [|eapply internal_elm_le; [exact Hok| |exact Hk]; lia].
    apply (in_sorted _ _ _ _ Hok 0%nat (length cs)); [lia|lia|done..].
Qed.

Lemma find_child_spec fuel n lo hi k i0 e i :
  internal_ok n lo hi k → (i ≤ i0)%nat → (i0 < k)%nat → n_elms n !! i0 = Some e →
  (i0 - i < fuel)%nat →
  find_child fuel n (subtree_offset e) (Z.of_nat i) = Ok (Z.of_nat i0).
Proof.
  intros H Hi Hi0 He. revert i Hi. induction fuel as [|fuel IH]; intros i Hi Hf; [lia|].
  cbn [find_child]. rewrite (in_count _ _ _ _ H).
  destruct (_ <? _) eqn:E; bool_prop; [|lia].
  destruct (internal_elm _ _ _ _ i H) as [ei Hei]; [lia|].
  rewrite (proj2 (aget_nat _ _ _) Hei). cbn [obind].
  destruct (_ =? _) eqn:Eo; bool_prop.
  - by rewrite (in_distinct _ _ _ _ H i i0 ei e) by (done || lia).
  - assert (i ≠ i0) by (intros ->; simplify_eq).
    replace (Z.of_nat i + 1) with (Z.of_nat (S i)) by lia. apply IH; lia.
Qed.

(** A node is found again from its parent. *)
Lemma get_parent_spec h off p pi lb rb lo hi L bef aft n :
  located h off (Some p) pi lb rb lo hi L bef aft → nodes m !! off = Some n →
  p ≠ 0 ∧ n_parent n = p ∧ hammer_btree_get_parent m off n = Ok (0, pi).
Proof.
  intros Hl Hn. inversion Hl as [|h' p' par' pi' lb' rb' lo' hi' np cs bef' aft' i e e' L' Hup Hnp Hok He He' HL [_ Hsub]];
    simplify_eq. specialize (Hsub i e e' L He He' HL).
  assert (Hp : p ≠ 0) by (apply located_subtree, subtree_node in Hup; tauto).
  assert (n_parent n = p).
  { apply subtree_node in Hsub as (_ & n' & Hn' & ?). by simplify_eq. }
  split_and!; [done..|]. unfold hammer_btree_get_parent, hammer_get_node. subst p.
  rewrite Hnp. pose proof (lookup_lt_Some _ _ _ HL) as Hi.
  pose proof (in_range _ _ _ _ Hok). pose proof (in_len _ _ _ _ Hok).
  assert (Hst : ∃ j, (j ≤ i)%nat ∧
    (if negb (n_count n =? 0)
     then let* e0 := aget (n_elms n) 0 in hammer_btree_search_node (base e0) np
     else Ok 0) = Ok (Z.of_nat j)).
  { destruct (n_count n =? 0) eqn:E; bool_prop; cbn [negb]; [exists 0%nat; split; [lia|done]|].
    destruct (subtree_first _ _ _ _ _ _ _ Hsub Hn E) as (e0 & He0 & Hlt).
    change 0 with (Z.of_nat 0). rewrite (proj2 (aget_nat _ _ _) He0). cbn [obind].
    destruct (search_node_spec (base e0) np (length cs)) as (b & s & Hb & ? & _ & Hfar & _).
    - apply (in_count _ _ _ _ Hok).
    - lia.
    - lia.
    - intros x y ex ey Hxy Hy. apply (in_sorted _ _ _ _ Hok); lia.
    - exists b. split; [|done]. destruct Hfar as [->|Hfar]; [lia|].
      destruct (decide (b ≤ i)%nat) as [|Hbi]; [done|exfalso].
      specialize (Hfar (S i) e' ltac:(lia) He'). apply cmp_lt in Hlt. lia. }
  destruct Hst as (j & Hj & ->). cbn [obind].
  rewrite (find_child_spec 64 np lo' hi' (length cs) i e j) by (done || lia). cbn [obind].
  rewrite (in_count _ _ _ _ Hok). destruct (_ =? _) eqn:E; bool_prop; [lia|done].
Qed.

Lemma load_parent_spec h off par pi lb rb lo hi L bef aft c :
  located h off par pi lb rb lo hi L bef aft →
  c_node c = Some off → c_parent c = None → parent_index c = 0 →
  ∃ c', hammer_load_cursor_parent m c = Ok (0, c') ∧
    cursor_at c' off par pi lb rb ∧ index c' = index c ∧ rest c' = rest c.
Proof.
  intros Hl Hc Hpar Hpi. unfold hammer_load_cursor_parent. rewrite Hc. cbn [held obind].
  destruct (subtree_node _ _ _ _ _ _ (located_subtree _ _ _ _ _ _ _ _ _ _ _ Hl))
    as (Hoff & n & Hn & Hp).
  unfold ondisk. rewrite Hn. cbn [obind].
  destruct par as [p|].
  - destruct (get_parent_spec _ _ _ _ _ _ _ _ _ _ _ _ Hl Hn) as (Hp0 & _ & ->).
    rewrite Hp. change (default 0 (Some p)) with p.
    destruct (p =? 0) eqn:E; bool_prop; [done|]. cbn [negb obind].
    change (0 =? 0) with true. cbn [negb].
    eexists. split; [done|]. unfold cursor_at. cbn.
    inversion Hl; simplify_eq; split_and!; try done.
  - rewrite Hp. change (default 0 None =? 0) with true. cbn [negb].
    eexists. split; [done|]. unfold cursor_at. cbn.
    inversion Hl; simplify_eq; split_and!; done.
Qed.

Lemma cursor_up_spec h off p pi lb rb lo hi L bef aft c :
  located h off (Some p) pi lb rb lo hi L bef aft → cursor_at c off (Some p) pi lb rb →
  ∃ par' pi' lb' rb' lo' hi' L' bef' aft' c',
    located (S h) p par' pi' lb' rb' lo' hi' L' bef' aft' ∧
    hammer_cursor_up m c = Ok (0, c') ∧ cursor_at c' p par' pi' lb' rb' ∧
    index c' = pi ∧ rest c' = rest c.
Proof.
  intros Hl (Hc & Hpar & Hpi & _). unfold hammer_cursor_up. rewrite Hpar.
  inversion Hl as [|h' p' par' pi' lb' rb' lo' hi' np cs bef' aft' i e e' L' Hup]; simplify_eq.
  edestruct (load_parent_spec _ _ _ _ _ _ _ _ _ _ _
    (set_cparent None 0 (set_node (Some p) (parent_index c) c)) Hup) as (c' & Hld & Hat & Hidx & Hr);
    [done..|].
  do 10 eexists. split_and!; try done. rewrite Hidx. done.
Qed.

Lemma cursor_down_spec h off par pi lb rb lo hi n cs bef aft i e e' L c :
  located (S h) off par pi lb rb lo hi (concat cs) bef aft →
  nodes m !! off = Some n → internal_ok n lo hi (length cs) →
  n_elms n !! i = Some e → n_elms n !! S i = Some e' → cs !! i = Some L →
  children_ok h off n cs →
  cursor_at c off par pi lb rb → index c = Z.of_nat i →
  ∃ c', hammer_cursor_down m c = Ok (0, c') ∧
    located h (subtree_offset e) (Some off) (Z.of_nat i)
        (ElmPtr off (Z.of_nat i)) (ElmPtr off (Z.of_nat i + 1)) (base e) (base e') L
        (bef ++ concat (take i cs)) (concat (drop (S i) cs) ++ aft) ∧
    cursor_at c' (subtree_offset e) (Some off) (Z.of_nat i)
        (ElmPtr off (Z.of_nat i)) (ElmPtr off (Z.of_nat i + 1)) ∧
    index c' = 0 ∧ rest c' = rest c.
Proof.
  intros Hl Hn Hok He He' HL Hch (Hc & _) Hi.
  destruct (proj1 Hch i e L He HL) as (nc & Hnc & Hty).
  pose proof (proj2 Hch i e e' L He He' HL) as Hsub.
  pose proof (lookup_lt_Some _ _ _ HL) as Hlt.
  unfold hammer_cursor_down, ondisk. rewrite Hc. cbn [held obind]. rewrite Hn. cbn [obind].
  rewrite Hi, (in_count _ _ _ _ Hok).
  replace ((Z.of_nat i >=? 0) && (Z.of_nat i <? Z.of_nat (length cs))) with true
    by (symmetry; apply andb_true_iff; split; [apply Z.geb_le|apply Z.ltb_lt]; lia).
  cbn [kkassert]. rewrite (proj2 (aget_nat _ _ _) He). cbn [obind].
  destruct (in_links _ _ _ _ Hok i e Hlt He) as [Ho Hb].
  replace ((btype (base e) =? HAMMER_BTREE_TYPE_INTERNAL) || (btype (base e) =? HAMMER_BTREE_TYPE_LEAF))
    with true by (symmetry; apply orb_true_iff; destruct Hb; [left|right]; by apply Z.eqb_eq).
  rewrite (in_type _ _ _ _ Hok), Z.eqb_refl. cbn [kkassert].
  destruct (_ =? 0) eqn:E; bool_prop; [done|]. cbn [negb kkassert].
  unfold hammer_get_node. rewrite Hnc, Hty, Z.eqb_refl. cbn [kkassert].
  destruct (subtree_node _ _ _ _ _ _ Hsub) as (_ & nc' & Hnc' & Hp). simplify_eq.
  rewrite Z.eqb_refl. cbn [negb].
  eexists. split; [done|]. split; [by eapply located_child|]. done.
Qed.

(** The children to the left of a boundary are below it, those to the right are
    not. *)
Lemma children_order h off n lo hi cs j e :
  internal_ok n lo hi (length cs) → children_ok h off n cs →
  n_elms n !! j = Some e → (j ≤ length cs)%nat →
  Forall (λ x, key_lt (base x) (base e)) (concat (take j cs)) ∧
  Forall (λ x, key_le (base e) (base x)) (concat (drop j cs)).
Proof.
  intros Hok [_ Hsub] He Hj.
  assert (Hc : ∀ i L, cs !! i = Some L → ∃ ei ei', n_elms n !! i = Some ei ∧
    n_elms n !! S i = Some ei' ∧ Forall (λ e, key_le (base ei) (base e) ∧ key_lt (base e) (base ei')) L).
  { intros i L HL. pose proof (lookup_lt_Some _ _ _ HL).
    destruct (internal_elm _ _ _ _ i Hok) as [ei Hei]; [lia|].
    destruct (internal_elm _ _ _ _ (S i) Hok) as [ei' Hei']; [lia|].
    exists ei, ei'. split_and!; [done..|]. by eapply subtree_bounds, Hsub. }
  assert (Hlt : ∀ i k ei ek, (i < k ≤ length cs)%nat → n_elms n !! i = Some ei →
    n_elms n !! k = Some ek → key_lt (base ei) (base ek)).
  { intros i k ei ek Hik. apply (in_sorted _ _ _ _ Hok); lia. }
  split; apply Forall_concat, Forall_lookup_2; intros i L HL.
  - apply lookup_take_Some in HL as [HL Hi]. destruct (Hc i L HL) as (ei & ei' & Hei & Hei' & HF).
    eapply Forall_impl; [exact HF|]. intros x [_ Hx]. cbn.
    destruct (decide (S i = j)) as [Hj'|]; [subst j; by simplify_eq|].
    eapply key_lt_le_trans; [exact Hx|]. apply key_lt_le, (Hlt (S i) j); [lia|done..].
  - rewrite lookup_drop in HL. destruct (Hc _ _ HL) as (ei & ei' & Hei & Hei' & HF).
    eapply Forall_impl; [exact HF|]. intros x [Hx _]. cbn.
    destruct (decide (i = 0%nat)) as [->|].
    + rewrite Nat.add_0_r in Hei. by simplify_eq.
    + etransitivity; [|exact Hx]. apply key_lt_le, (Hlt j (j + i)%nat); [|done..].
      apply lookup_lt_Some in HL. lia.
Qed.

(** The elements before a node are below it, those after it are not. *)
Lemma located_order h off par pi lb rb lo hi L bef aft :
  located h off par pi lb rb lo hi L bef aft →
  Forall (λ e, key_lt (base e) lo) bef ∧ Forall (λ e, key_le hi (base e)) aft.
Proof.
  induction 1 as [|h off par pi lb rb lo hi n cs bef aft i e e' L Hup [IHb IHa] Hn Hok He He' HL Hch];
    [done|].
  pose proof (lookup_lt_Some _ _ _ HL) as Hi. split; apply Forall_app; split.
  - eapply Forall_impl; [exact IHb|]. cbn. intros x Hx. eapply key_lt_le_trans; [exact Hx|].
    eapply internal_elm_ge; [exact Hok| |exact He]. lia.
  - eapply children_order; [done..|]. lia.
  - eapply children_order; [done..|]. lia.
  - eapply Forall_impl; [exact IHa|]. cbn. intros x Hx. etransitivity; [|exact Hx].
    eapply internal_elm_le; [exact Hok| |exact He']. lia.
Qed.

Lemma located_contents h off par pi lb rb lo hi L bef aft :
  located h off par pi lb rb lo hi L bef aft → bef ++ L ++ aft = contents.
Proof.
  induction 1 as [|h off par pi lb rb lo hi n cs bef aft i e e' L Hup IH Hn Hok He He' HL Hch].
  - by rewrite app_nil_r.
  - rewrite <- IH.
    assert (E : concat cs = concat (take i cs) ++ L ++ concat (drop (S i) cs)).
    { rewrite <- concat_cons, <- concat_app. f_equal. symmetry. by apply take_drop_middle. }
    by rewrite E, <- !app_assoc.
Qed.

Lemma located_height h off par pi lb rb lo hi L bef aft :
  located h off par pi lb rb lo hi L bef aft → (h ≤ height)%nat.
Proof. induction 1; lia. Qed.

(** ** The search of a tree that is not modified *)

Definition place (c : cursor) :=
  (c_node c, c_parent c, parent_index c, left_bound c, right_bound c).

(** What a search looks for: the fields it leaves alone. *)
Definition query (c : cursor) :=
  (key_beg c, key_end c, asof c, mirror c, leaf c, set_CREATE_CHECK false (flags c)).

Lemma rest_query c c' : rest c' = rest c → query c' = query c.
Proof. unfold rest, query. by intros [= _ -> -> -> -> -> ->]. Qed.

Lemma query_fields c c' :
  query c' = query c →
  key_beg c' = key_beg c ∧ asof c' = asof c ∧ INSERT (flags c') = INSERT (flags c) ∧
  PRUNING (flags c') = PRUNING (flags c) ∧ ASOF (flags c') = ASOF (flags c) ∧
  GET_DATA (flags c') = GET_DATA (flags c).
Proof. unfold query, set_CREATE_CHECK. intros [=]. split_and!; done. Qed.

Lemma place_at c c' off par pi lb rb :
  place c' = place c → cursor_at c off par pi lb rb → cursor_at c' off par pi lb rb.
Proof. unfold place, cursor_at. intros [= -> -> -> -> ->]. done. Qed.

(** What the search knows when every boundary passed so far is at most [s], the
    last: the hint it left, [b0] being the flag it started with. *)
Definition check_inv (b0 : bool) (c : cursor) (s : base_elm) : Prop :=
  (hammer_btree_cmp (key_beg c) s = 1 →
     CREATE_CHECK (flags c) = true ∧ create_check c = u64 (create_tid s - 1)) ∧
  (1 < hammer_btree_cmp (key_beg c) s → CREATE_CHECK (flags c) = b0).

(** The lower bound in front of element [i] of a node. *)
Definition prev_sep (n : node) (lo : base_elm) (i : nat) (s : base_elm) : Prop :=
  match i with
  | O => s = lo
  | S j => ∃ e, n_elms n !! j = Some e ∧ s = base e
  end.

Lemma prev_sep_le n lo hi k i s e :
  internal_ok n lo hi k → (i ≤ k)%nat → prev_sep n lo i s → n_elms n !! i = Some e →
  key_le s (base e).
Proof.
  intros Hok Hi Hp He. destruct i as [|j]; cbn in Hp.
  - subst s. by eapply in_lo.
  - destruct Hp as (e0 & He0 & ->). apply key_lt_le.
    apply (in_sorted _ _ _ _ Hok j (S j)); [lia|lia|done..].
Qed.

Lemma note_create_check_spec b0 c s :
  hammer_btree_cmp (key_beg c) s = 1 → create_tid s ≠ 1 →
  ∃ c', note_create_check s c = Ok c' ∧ check_inv b0 c' s ∧ place c' = place c ∧
    query c' = query c ∧ index c' = index c.
Proof.
  intros Hr Ht. unfold note_create_check.
  destruct (_ =? 1) eqn:E; bool_prop; [done|]. cbn [negb kkassert].
  eexists. split; [done|]. split; [|done]. split; cbn; [done|lia].
Qed.

Lemma scan_internal_spec b0 fuel n lo hi k i c s :
  internal_ok n lo hi k → (i ≤ S k)%nat → (S k - i < fuel)%nat →
  above (key_beg c) (n_elms n) i → prev_sep n lo i s → check_inv b0 c s →
  (∀ s, sep_ok s → hammer_btree_cmp (key_beg c) s = 1 → create_tid s ≠ 1) →
  ∃ i' s' c', scan_internal fuel n (Z.of_nat i) c = Ok (Z.of_nat i', c') ∧
    (i' ≤ S k)%nat ∧ above (key_beg c) (n_elms n) i' ∧
    (∀ e, (i' ≤ k)%nat → n_elms n !! i' = Some e → key_lt (key_beg c) (base e)) ∧
    prev_sep n lo i' s' ∧ check_inv b0 c' s' ∧
    place c' = place c ∧ query c' = query c.
Proof.
  intros Hok. revert i c s. induction fuel as [|fuel IH]; intros i c s Hi Hf Hab Hp Hck Hsep; [lia|].
  cbn [scan_internal]. rewrite (in_count _ _ _ _ Hok). destruct (_ <=? _) eqn:E; bool_prop.
  - destruct (internal_elm _ _ _ _ i Hok) as [e He]; [lia|].
    rewrite (proj2 (aget_nat _ _ _) He). cbn [obind].
    destruct (_ <? 0) eqn:Er; bool_prop.
    + exists i, s, c. split_and!; try done. intros e' _ He'. simplify_eq. by apply cmp_lt.
    + assert (Hle : key_le s (base e)) by (eapply prev_sep_le; [done| |done..]; lia).
      assert (Hab' : above (key_beg c) (n_elms n) (S i)).
      { intros j e' Hj He'. destruct (decide (j = i)) as [->|]; [|apply (Hab j); [lia|done]].
        simplify_eq. by apply cmp_ge. }
      assert (Hstep : ∃ c', (if hammer_btree_cmp (key_beg c) (base e) =? 1
          then note_create_check (base e) c else Ok c) = Ok c' ∧
          check_inv b0 c' (base e) ∧ place c' = place c ∧ query c' = query c).
      { destruct (_ =? 1) eqn:E1; bool_prop.
        - destruct (note_create_check_spec b0 c (base e)) as (c' & ? & ? & ? & ? & _);
            [done|apply Hsep; [by eapply in_seps; [done| |done]; lia|done]|by exists c'].
        - exists c. split; [done|]. split; [|done]. split; [done|].
          intros Hr. apply Hck. by eapply cmp_above. }
      destruct Hstep as (c' & -> & Hck' & Hpl & Hq). cbn [obind].
      destruct (query_fields _ _ Hq) as (Hk & _).
      replace (Z.of_nat i + 1) with (Z.of_nat (S i)) by lia.
      destruct (IH (S i) c' (base e)) as (i' & s' & c'' & Hrun & Hi' & Hab'' & Hnx & Hps & Hck'' & Hpl' & Hq');
        rewrite ?Hk; try done; try lia; [by exists e|].
      rewrite Hk in *. exists i', s', c''. split_and!; try done; congruence.
  - exists i, s, c. split_and!; try done. lia.
Qed.

Lemma located_lo h off par pi lb rb lo hi L bef aft :
  located h off par pi lb rb lo hi L bef aft → lo = root_btree_beg ∨ sep_ok lo.
Proof.
  inversion 1 as [|h' p' par' pi' lb' rb' lo' hi' np cs bef' aft' i e e' L' Hup Hnp Hok He He' HL Hch];
    [by left|right]. pose proof (lookup_lt_Some _ _ _ HL).
  eapply in_seps; [exact Hok| |exact He]. lia.
Qed.

(** A cursor somewhere on the tree. *)
Definition on_tree (c : cursor) : Prop :=
  ∃ h off par pi lb rb lo hi L bef aft,
    located h off par pi lb rb lo hi L bef aft ∧ cursor_at c off par pi lb rb.

(** A cursor in the tree with the elements [B] before it and [S] after it; no
    boundary right of it is before the key. *)
Definition at_position (c : cursor) (B S : list btree_elm) : Prop :=
  ∃ h off par pi lb rb lo hi L bef aft n,
    located h off par pi lb rb lo hi L bef aft ∧ cursor_at c off par pi lb rb ∧
    nodes m !! off = Some n ∧ key_le (key_beg c) hi ∧
    ((leaf_ok n lo hi L ∧ ∃ i, index c = Z.of_nat i ∧ (i ≤ length L)%nat ∧
        B = bef ++ take i L ∧ S = drop i L ++ aft) ∨
     (∃ h' cs i, h = Datatypes.S h' ∧ L = concat cs ∧ internal_ok n lo hi (length cs) ∧
        children_ok h' off n cs ∧ index c = Z.of_nat i ∧ (i ≤ length cs)%nat ∧
        (∀ e, (i < length cs)%nat → n_elms n !! i = Some e → key_le (key_beg c) (base e)) ∧
        B = bef ++ concat (take i cs) ∧ S = concat (drop i cs) ++ aft)).

(** The place of the key: the elements before the cursor are not above it,
    those after the cursor are. *)
Definition insertion_point (c : cursor) : Prop :=
  ∃ B S, at_position c B S ∧ contents = B ++ S ∧
    Forall (λ e, key_le (base e) (key_beg c)) B ∧ Forall (λ e, key_lt (key_beg c) (base e)) S.

Lemma insertion_on_tree c : insertion_point c → on_tree c.
Proof.
  intros (B & S & (h & off & par & pi & lb & rb & lo & hi & L & bef & aft & n & Hl & Hat & _) & _).
  by do 11 eexists.
Qed.

Lemma insertion_point_gap c h off par pi lb rb lo hi n cs bef aft i :
  located (S h) off par pi lb rb lo hi (concat cs) bef aft → cursor_at c off par pi lb rb →
  nodes m !! off = Some n → internal_ok n lo hi (length cs) → children_ok h off n cs →
  (i = 0%nat ∨ i = length cs) → index c = Z.of_nat i →
  (∀ e, n_elms n !! i = Some e →
     if decide (i = 0%nat) then key_lt (key_beg c) (base e) else key_le (base e) (key_beg c)) →
  key_le lo (key_beg c) → key_lt (key_beg c) hi → insertion_point c.
Proof.
  intros Hl Hat Hn Hok Hch Hi Hidx He Hlo Hhi.
  pose proof (in_range _ _ _ _ Hok) as Hr.
  destruct (internal_elm _ _ _ _ i Hok) as [e Hei]; [lia|]. specialize (He e Hei).
  destruct (located_order _ _ _ _ _ _ _ _ _ _ _ Hl) as [HB HA].
  destruct (children_order _ _ _ _ _ _ i e Hok Hch Hei) as [HBc HAc]; [lia|].
  exists (bef ++ concat (take i cs)), (concat (drop i cs) ++ aft). split_and!.
  - exists (S h), off, par, pi, lb, rb, lo, hi, (concat cs), bef, aft, n. split_and!; try done.
    { by apply key_lt_le. }
    right. exists h, cs, i. split_and!; try done; [lia|]. intros e' Hlt He'. simplify_eq.
    destruct Hi as [->| ->]; [rewrite decide_True in He by done; by apply key_lt_le|lia].
  - rewrite <- (located_contents _ _ _ _ _ _ _ _ _ _ _ Hl), <- !app_assoc. f_equal.
    by rewrite app_assoc, <- concat_app, take_drop.
  - apply Forall_app. split.
    + eapply Forall_impl; [exact HB|]. cbn. intros x Hx. apply key_lt_le.
      by eapply key_lt_le_trans.
    + destruct Hi as [->| ->]; [rewrite take_0; constructor|].
      destruct (decide _); [lia|]. eapply Forall_impl; [exact HBc|]. cbn. intros x Hx.
      apply key_lt_le. by eapply key_lt_le_trans.
  - apply Forall_app. split.
    + destruct Hi as [->| ->]; [|rewrite drop_ge by lia; constructor].
      rewrite decide_True in He by done. eapply Forall_impl; [exact HAc|]. cbn. intros x Hx. exact (key_lt_le_trans _ _ _ He Hx).
    + eapply Forall_impl; [exact HA|]. cbn. intros x Hx. exact (key_lt_le_trans _ _ _ Hhi Hx).
Qed.

Lemma insertion_point_leaf c h off par pi lb rb lo hi n L bef aft i :
  located h off par pi lb rb lo hi L bef aft → cursor_at c off par pi lb rb →
  nodes m !! off = Some n → leaf_ok n lo hi L → index c = Z.of_nat i → (i ≤ length L)%nat →
  above (key_beg c) L i → (∀ e, L !! i = Some e → key_lt (key_beg c) (base e)) →
  key_le lo (key_beg c) → key_lt (key_beg c) hi → insertion_point c.
Proof.
  intros Hl Hat Hn Hok Hidx Hi Hab Hnx Hlo Hhi.
  destruct (located_order _ _ _ _ _ _ _ _ _ _ _ Hl) as [HB HA].
  exists (bef ++ take i L), (drop i L ++ aft). split_and!.
  - exists h, off, par, pi, lb, rb, lo, hi, L, bef, aft, n. split_and!; try done.
    { by apply key_lt_le. }
    left. split; [done|]. by exists i.
  - rewrite <- (located_contents _ _ _ _ _ _ _ _ _ _ _ Hl), <- !app_assoc. f_equal.
    by rewrite app_assoc, take_drop.
  - apply Forall_app. split.
    + eapply Forall_impl; [exact HB|]. cbn. intros x Hx. apply key_lt_le.
      by eapply key_lt_le_trans.
    + apply Forall_lookup_2. intros j x Hx. apply lookup_take_Some in Hx as [Hx Hj]. by apply (Hab j).
  - apply Forall_app. split.
    + apply Forall_lookup_2. intros j x Hx. rewrite lookup_drop in Hx.
      pose proof (lookup_lt_Some _ _ _ Hx). destruct j as [|j].
      { rewrite Nat.add_0_r in Hx. by apply Hnx. }
      destruct (lookup_lt_is_Some_2 L i) as [e He]; [lia|].
      eapply key_lt_trans; [by apply Hnx|].
      apply (lf_sorted _ _ _ _ Hok i (i + S j)%nat e x); [lia|lia|..];
        by apply (leaf_lookup _ _ _ _ _ _ Hok); [lia|].
    + eapply Forall_impl; [exact HA|]. cbn. intros x Hx. exact (key_lt_le_trans _ _ _ Hhi Hx).
Qed.

(** Where a search ends: the elements left of it are below [s], a boundary (or
    the bound of the node) not above the key, those right of it are above the
    key; [mid] are the elements of the leaf, if a leaf was reached. *)
Definition search_end (b0 : bool) (c : cursor) (mid : list btree_elm) : Prop :=
  ∃ s B A, contents = B ++ mid ++ A ∧
    Forall (λ e, key_lt (base e) s) B ∧ Forall (λ e, key_lt (key_beg c) (base e)) A ∧
    key_le s (key_beg c) ∧ check_inv b0 c s ∧ (s = root_btree_beg ∨ sep_ok s).

Lemma search_end_gap b0 c h off par pi lb rb lo hi n cs bef aft i s :
  located h off par pi lb rb lo hi (concat cs) bef aft →
  internal_ok n lo hi (length cs) → children_ok (pred h) off n cs →
  (i = 0%nat ∨ i = S (length cs)) →
  above (key_beg c) (n_elms n) i →
  (∀ e, (i ≤ length cs)%nat → n_elms n !! i = Some e → key_lt (key_beg c) (base e)) →
  prev_sep n lo i s → key_le lo (key_beg c) → key_lt (key_beg c) hi → check_inv b0 c s →
  search_end b0 c [].
Proof.
  intros Hl Hok Hch Hi Hab Hnx Hp Hlo Hhi Hck.
  pose proof (located_contents _ _ _ _ _ _ _ _ _ _ _ Hl) as HC.
  destruct (located_order _ _ _ _ _ _ _ _ _ _ _ Hl) as [HB HA].
  assert (HA' : Forall (λ e, key_lt (key_beg c) (base e)) aft).
  { eapply Forall_impl; [exact HA|]. intros e. by apply key_lt_le_trans. }
  destruct Hi as [Hi|Hi]; subst i; cbn in Hp.
  - subst s. exists lo, bef, (concat cs ++ aft).
    apply located_lo in Hl as Hlo'. split_and!; [done|done| |done..].
    apply Forall_app. split; [|done].
    destruct (internal_elm _ _ _ _ 0 Hok) as [e He]; [lia|].
    destruct (children_order _ _ _ _ _ _ 0 e Hok Hch He) as [_ HF]; [lia|].
    eapply Forall_impl; [exact HF|]. cbn. intros x Hx. eapply key_lt_le_trans; [|exact Hx].
    apply Hnx; [lia|done].
  - destruct Hp as (e & He & ->). exists (base e), (bef ++ concat cs), aft.
    split; [by rewrite <- HC, <- app_assoc|].
    split; [|split; [done|split; [|split; [done|right; by eapply in_seps]]]].
    + apply Forall_app. split.
      * eapply Forall_impl; [exact HB|]. cbn. intros x Hx. eapply key_lt_le_trans; [exact Hx|].
        eapply internal_elm_ge; [done| |done]. lia.
      * destruct (children_order _ _ _ _ _ _ (length cs) e Hok Hch He) as [HF _]; [lia|].
        by rewrite firstn_all in HF.
    + apply (Hab (length cs)); [lia|done].
Qed.

Lemma search_down_spec b0 fuel : ∀ h off par pi lb rb lo hi L bef aft c,
  located h off par pi lb rb lo hi L bef aft → cursor_at c off par pi lb rb →
  key_le lo (key_beg c) → key_lt (key_beg c) hi → check_inv b0 c lo →
  INSERT (flags c) = false → PRUNING (flags c) = false →
  (∀ s, sep_ok s → hammer_btree_cmp (key_beg c) s = 1 → create_tid s ≠ 1) →
  (h < fuel)%nat →
  ∃ stop c', search_down fuel m c false = Ok (stop, m, c', false) ∧ query c' = query c ∧
    ((stop = Some ENOENT ∧ insertion_point c' ∧ search_end b0 c' []) ∨
     (stop = None ∧ ∃ h' off' par' pi' lb' rb' lo' hi' L' bef' aft' n,
        located h' off' par' pi' lb' rb' lo' hi' L' bef' aft' ∧ cursor_at c' off' par' pi' lb' rb' ∧
        nodes m !! off' = Some n ∧ leaf_ok n lo' hi' L' ∧
        key_le lo' (key_beg c') ∧ key_lt (key_beg c') hi' ∧ search_end b0 c' L')).
Proof.
  induction fuel as [|fuel IH]; intros h off par pi lb rb lo hi L bef aft c Hl Hat Hlo Hhi Hck
    Hins Hpr Hsep Hf; [lia|].
  cbn [search_down]. rewrite (proj1 Hat). cbn [held obind].
  pose proof (located_subtree _ _ _ _ _ _ _ _ _ _ _ Hl) as Hsub.
  inversion Hsub as [h' p' off' lo' hi' n L' Hoff Hn Hp Hok|h' p' off' lo' hi' n cs Hoff Hn Hp Hok Hlink Hch];
    subst; unfold ondisk; rewrite Hn; cbn [obind].
  - rewrite (lf_type _ _ _ _ Hok).
    change (HAMMER_BTREE_TYPE_LEAF =? HAMMER_BTREE_TYPE_INTERNAL) with false. cbn [obind].
    exists None, c. split_and!; try done. right. split; [done|].
    exists h, off, par, pi, lb, rb, lo, hi, L, bef, aft, n. split_and!; try done.
    destruct (located_order _ _ _ _ _ _ _ _ _ _ _ Hl) as [HB HA].
    apply located_lo in Hl as Hlo'. exists lo, bef, aft.
    split_and!; try done; [by rewrite (located_contents _ _ _ _ _ _ _ _ _ _ _ Hl)| |apply Hck..].
    eapply Forall_impl; [exact HA|]. intros e. by apply key_lt_le_trans.
  - rewrite (in_type _ _ _ _ Hok), Z.eqb_refl.
    pose proof (in_range _ _ _ _ Hok). pose proof (in_len _ _ _ _ Hok).
    destruct (search_node_spec (key_beg c) n (length cs)) as (b & s0 & Hb & ? & _ & Hfar & _);
      [apply (in_count _ _ _ _ Hok)|lia|lia| |].
    { intros x y ex ey Hxy Hy. apply (in_sorted _ _ _ _ Hok); lia. }
    rewrite Hb. cbn [obind].
    assert (Hps : ∃ s, prev_sep n lo b s ∧ check_inv b0 c s).
    { apply (far_above_start _ _ _) in Hfar as Hfar'. destruct b as [|j]; [by exists lo|].
      destruct (internal_elm _ _ _ _ j Hok) as [e He]; [lia|].
      assert (Hc : 1 < hammer_btree_cmp (key_beg c) (base e)) by (apply (Hfar' j); [lia|done]).
      exists (base e). split; [by exists e|]. split; [lia|]. intros _. apply Hck.
      eapply cmp_above; [exact Hc|]. eapply internal_elm_ge; [done| |done]. lia. }
    destruct Hps as (s & Hps & Hck').
    destruct (scan_internal_spec b0 64 n lo hi (length cs) b c s) as
      (i & s' & c1 & Hrun & Hi & Hab & Hnx & Hps' & Hck1 & Hpl & Hq);
      [done|lia|lia|by apply far_above_above, far_above_start|done..|].
    rewrite Hrun. cbn [obind].
    destruct (query_fields _ _ Hq) as (Hk & _ & Hins1 & Hpr1 & _).
    rewrite Hins in Hins1. rewrite Hpr in Hpr1.
    unfold search_edge. rewrite Hins1, Hpr1, (in_count _ _ _ _ Hok). cbn [orb negb].
    destruct (Z.of_nat i =? 0) eqn:E0; [|destruct (Z.of_nat i =? Z.of_nat (length cs) + 1) eqn:E1];
      bool_prop; cbn [obind].
    + exists (Some ENOENT), (set_index 0 c1). split_and!; [done|exact Hq|]. left. split; [done|].
      assert (Hat1 : cursor_at (set_index 0 c1) off par pi lb rb).
      { apply (place_at c1); [done|]. by apply (place_at c). }
      split.
      { apply (insertion_point_gap _ _ _ _ _ _ _ _ _ _ _ _ _ 0%nat Hl Hat1 Hn Hok (conj Hlink Hch));
          try done; [by left| |by rewrite <- Hk in Hlo|by rewrite <- Hk in Hhi].
        intros e He. rewrite decide_True by done. cbn. rewrite Hk. apply Hnx; [lia|]. by replace i with 0%nat by lia. }
      change (search_end b0 c1 []).
      eapply search_end_gap; rewrite ?Hk; try done. left. lia.
    + exists (Some ENOENT), (set_index (Z.of_nat i - 1) c1).
      split_and!; [done|exact Hq|]. left. split; [done|].
      assert (Hat1 : cursor_at (set_index (Z.of_nat i - 1) c1) off par pi lb rb).
      { apply (place_at c1); [done|]. by apply (place_at c). }
      split.
      { apply (insertion_point_gap _ _ _ _ _ _ _ _ _ _ _ _ _ (length cs) Hl Hat1 Hn Hok (conj Hlink Hch));
          try done; [by right|cbn; lia| |by rewrite <- Hk in Hlo|by rewrite <- Hk in Hhi].
        intros e He. destruct (decide _); [lia|]. cbn. rewrite Hk. apply (Hab (length cs)); [lia|done]. }
      change (search_end b0 c1 []).
      eapply search_end_gap; rewrite ?Hk; try done. right. lia.
    + destruct i as [|j]; [lia|]. destruct Hps' as (e & He & ->).
      destruct (internal_elm _ _ _ _ (S j) Hok) as [e' He']; [lia|].
      destruct (lookup_lt_is_Some_2 cs j) as [Lj HLj]; [lia|].
      replace (Z.of_nat (S j) - 1) with (Z.of_nat j) by lia.
      rewrite Hn. cbn [obind]. rewrite (proj2 (aget_nat _ _ _) He). cbn [obind].
      destruct (in_links _ _ _ _ Hok j e) as [Hsub0 _]; [lia|done|].
      destruct (subtree_offset e =? 0) eqn:Es; bool_prop; [done|]. cbn [negb kkassert].
      unfold btree_node_is_full. rewrite (in_type _ _ _ _ Hok), Z.eqb_refl. cbn [obind].
      rewrite (eq_refl : INSERT (flags (set_index (Z.of_nat j) c1)) = INSERT (flags c1)), Hins1.
      cbn [andb obind]. change (0 =? 0) with true. cbn [negb andb orb].
      assert (Hat1 : cursor_at (set_index (Z.of_nat j) c1) off par pi lb rb).
      { apply (place_at c1); [done|]. by apply (place_at c). }
      destruct (cursor_down_spec _ _ _ _ _ _ _ _ _ _ _ _ j e e' Lj (set_index (Z.of_nat j) c1)
        Hl Hn Hok He He' HLj (conj Hlink Hch) Hat1 eq_refl)
        as (c2 & Hdown & Hl2 & Hat2 & Hidx2 & Hrest2).
      rewrite Hdown. cbn [obind]. change (0 =? 0) with true. change (0 =? ENOSPC) with false. cbn [negb].
      apply rest_query in Hrest2 as Hq2. change (query (set_index (Z.of_nat j) c1)) with (query c1) in Hq2.
      destruct (query_fields _ _ Hq2) as (Hk2 & _ & Hins2 & Hpr2 & _).
      destruct (IH _ _ _ _ _ _ _ _ _ _ _ c2 Hl2 Hat2) as (stop & c3 & Hrun3 & Hq3 & Hend);
        rewrite ?Hk2, ?Hk, ?Hins2, ?Hpr2; try done; try lia.
      * apply (Hab j); [lia|done].
      * apply Hnx; [lia|done].
      * unfold rest in Hrest2. unfold check_inv. rewrite Hk2, Hk.
        injection Hrest2 as -> _ _ _ _ _ ->. cbn. by rewrite <- Hk.
      * exists stop, c3. split; [done|]. split; [congruence|done].
Qed.

Lemma search_up_spec fuel : ∀ h off par pi lb rb lo hi L bef aft c,
  located h off par pi lb rb lo hi L bef aft → cursor_at c off par pi lb rb →
  key_le root_btree_beg (key_beg c) → key_lt (key_beg c) root_btree_end →
  (height - h < fuel)%nat →
  ∃ h' off' par' pi' lb' rb' lo' hi' L' bef' aft' c',
    search_up fuel m c = Ok (0, hammer_btree_cmp (key_beg c) lo', c') ∧
    located h' off' par' pi' lb' rb' lo' hi' L' bef' aft' ∧ cursor_at c' off' par' pi' lb' rb' ∧
    key_le lo' (key_beg c) ∧ key_lt (key_beg c) hi' ∧ rest c' = rest c.
Proof.
  induction fuel as [|fuel IH]; intros h off par pi lb rb lo hi L bef aft c Hl Hat Hbeg Hend Hf; [lia|].
  cbn [search_up]. destruct (located_bounds _ _ _ _ _ _ _ _ _ _ _ Hl) as [Hlb Hrb].
  destruct Hat as (Hc & Hpar & Hpi & Hlbc & Hrbc) eqn:Eat. rewrite Hlbc, Hrbc, Hlb, Hrb. cbn [obind].
  destruct (_ && _) eqn:E; bool_prop.
  - do 12 eexists. split_and!; [done|exact Hl|done|by apply cmp_ge|by apply cmp_lt|done].
  - destruct par as [p|].
    + rewrite Hpar. cbn [kkassert].
      destruct (cursor_up_spec _ _ _ _ _ _ _ _ _ _ _ _ Hl Hat)
        as (par' & pi' & lb' & rb' & lo' & hi' & L' & bef' & aft' & c' & Hl' & Hup & Hat' & _ & Hr).
      rewrite Hup. cbn [obind]. change (0 =? 0) with true. cbn [negb].
      assert (Hk : key_beg c' = key_beg c) by (unfold rest in Hr; by injection Hr).
      apply located_height in Hl' as Hh.
      destruct (IH _ _ _ _ _ _ _ _ _ _ _ c' Hl' Hat')
        as (h2 & off2 & par2 & pi2 & lb2 & rb2 & lo2 & hi2 & L2 & bef2 & aft2 & c2 & Hrun & H2);
        rewrite ?Hk; try done; try lia.
      rewrite Hk in *. do 12 eexists. split; [exact Hrun|]. destruct H2 as (? & ? & ? & ? & ?).
      split_and!; try done. congruence.
    + exfalso. inversion Hl; simplify_eq. apply cmp_ge in Hbeg. apply cmp_lt in Hend.
      apply andb_false_iff in E as [E|E]; bool_prop; lia.
Qed.

(** The linear scan of a leaf.  An element is a hit when it carries the key or,
    as of a time, is the same record, created by then and visible. *)
Definition hit (c : cursor) (e : btree_elm) : Prop :=
  if ASOF (flags c)
  then 0 ≤ hammer_btree_cmp (key_beg c) (base e) ≤ 1 ∧ hammer_btree_chkts (asof c) (base e) = 0
  else hammer_btree_cmp (key_beg c) (base e) = 0.

Lemma hit_asof c e :
  ASOF (flags c) = true →
  hit c e ↔ 0 ≤ hammer_btree_cmp (key_beg c) (base e) ≤ 1 ∧
            hammer_btree_chkts (asof c) (base e) = 0.
Proof. unfold hit. by intros ->. Qed.

Lemma hit_exact c e :
  ASOF (flags c) = false → hit c e ↔ hammer_btree_cmp (key_beg c) (base e) = 0.
Proof. unfold hit. by intros ->. Qed.

Lemma far_not_hit c e : 1 < hammer_btree_cmp (key_beg c) (base e) → ¬ hit c e.
Proof. unfold hit. destruct (ASOF _); lia. Qed.

Lemma below_not_hit c e : key_lt (key_beg c) (base e) → ¬ hit c e.
Proof. rewrite <- cmp_lt. unfold hit. destruct (ASOF _); lia. Qed.

Lemma scan_leaf_spec fuel n lo hi L c i :
  leaf_ok n lo hi L → (i ≤ length L)%nat → (length L - i < fuel)%nat →
  above (key_beg c) L i → (∀ j e, (j < i)%nat → L !! j = Some e → ¬ hit c e) →
  ∃ found i', scan_leaf fuel n c (Z.of_nat i) = Ok (found, Z.of_nat i') ∧
    (∀ j e, (j < i')%nat → L !! j = Some e → ¬ hit c e) ∧
    above (key_beg c) L i' ∧ (i' ≤ length L)%nat ∧
    if (found : bool) then ∃ e, L !! i' = Some e ∧ hit c e
    else ∀ e, L !! i' = Some e → key_lt (key_beg c) (base e).
Proof.
  intros Hok. revert i. induction fuel as [|fuel IH]; intros i Hi Hf Hab Hno; [lia|].
  cbn [scan_leaf]. rewrite (lf_count _ _ _ _ Hok). destruct (_ <? _) eqn:E; bool_prop.
  - destruct (lookup_lt_is_Some_2 L i) as [e He]; [lia|].
    apply (leaf_lookup _ _ _ _ i e Hok ltac:(lia)) in He as He'.
    rewrite (proj2 (aget_nat _ _ _) He'). cbn [obind].
    assert (Hrec : btype (base e) = HAMMER_BTREE_TYPE_RECORD).
    { pose proof (lf_record _ _ _ _ Hok) as HF. by apply (Forall_lookup_1 _ _ _ _ HF He). }
    rewrite Hrec, Z.eqb_refl. cbn [kkassert].
    destruct (hammer_btree_cmp (key_beg c) (base e) <? 0) eqn:Er; bool_prop.
    { exists false, i. split_and!; try done. intros e0 He0. simplify_eq. by apply cmp_lt. }
    assert (Hnext : ¬ hit c e → ∃ found i',
      scan_leaf fuel n c (Z.of_nat i + 1) = Ok (found, Z.of_nat i') ∧
      (∀ j e, (j < i')%nat → L !! j = Some e → ¬ hit c e) ∧
      above (key_beg c) L i' ∧ (i' ≤ length L)%nat ∧
      if (found : bool) then ∃ e, L !! i' = Some e ∧ hit c e
      else ∀ e, L !! i' = Some e → key_lt (key_beg c) (base e)).
    { intros Hn. replace (Z.of_nat i + 1) with (Z.of_nat (S i)) by lia.
      apply IH; [lia|lia|..]; intros j e0 Hj He0; (destruct (decide (j = i)) as [->|Hji]; [simplify_eq|]).
      - by apply cmp_ge.
      - apply (Hab j); [lia|done].
      - done.
      - apply (Hno j); [lia|done]. }
    destruct (hammer_btree_cmp (key_beg c) (base e) >? 1) eqn:Er1; bool_prop.
    { apply Hnext. apply far_not_hit. lia. }
    destruct (ASOF (flags c)) eqn:Ea.
    + pose proof (hit_asof c e Ea) as Hh. destruct (_ =? 0) eqn:Ec; bool_prop; cbn [negb].
      * exists true, i. split_and!; try done. exists e. split; [done|]. apply Hh. lia.
      * apply Hnext. rewrite Hh. lia.
    + pose proof (hit_exact c e Ea) as Hh. destruct (_ >? 0) eqn:E0; bool_prop.
      * apply Hnext. rewrite Hh. lia.
      * exists true, i. split_and!; try done. exists e. split; [done|]. apply Hh. lia.
  - exists false, i. split_and!; try done. intros e He. apply lookup_lt_Some in He. lia.
Qed.

(** A cursor on an element of a leaf, [i] elements into it. *)
Definition leaf_position (c : cursor) (bef L aft : list btree_elm) (i : nat) : Prop :=
  ∃ h off par pi lb rb lo hi n,
    located h off par pi lb rb lo hi L bef aft ∧ cursor_at c off par pi lb rb ∧
    nodes m !! off = Some n ∧ leaf_ok n lo hi L ∧ index c = Z.of_nat i.

Lemma search_leaf_spec b0 h off par pi lb rb lo hi L bef aft n c :
  located h off par pi lb rb lo hi L bef aft → cursor_at c off par pi lb rb →
  nodes m !! off = Some n → leaf_ok n lo hi L → INSERT (flags c) = false →
  key_le lo (key_beg c) → key_lt (key_beg c) hi → search_end b0 c L →
  ∃ error c', search_leaf m c false = Ok (error, m, c') ∧ query c' = query c ∧
    ((error = 0 ∧ ∃ i e, leaf_position c' bef L aft i ∧ L !! i = Some e ∧ hit c e) ∨
     (error = ENOENT ∧ insertion_point c' ∧ search_end b0 c' L ∧ (∀ e, e ∈ L → ¬ hit c e))).
Proof.
  intros Hl Hat Hn Hok Hins Hlo Hhi Hend. unfold search_leaf. rewrite (proj1 Hat). cbn [held obind].
  unfold ondisk. rewrite Hn. cbn [obind].
  pose proof (leaf_len _ _ _ _ Hok) as Hlen. pose proof (lf_len _ _ _ _ Hok) as H63.
  rewrite (lf_type _ _ _ _ Hok), kkassert_true by apply Z.eqb_refl.
  rewrite (lf_count _ _ _ _ Hok), kkassert_true
    by (unfold HAMMER_BTREE_LEAF_ELMS; apply Z.leb_le; lia).
  destruct (search_node_spec (key_beg c) n (length L)) as (b & s0 & Hb & ? & _ & Hfar & _);
    [apply (lf_count _ _ _ _ Hok)|lia|lia|apply (lf_sorted _ _ _ _ Hok)|].
  rewrite Hb. cbn [obind]. apply far_above_start in Hfar.
  assert (HfarL : far_above (key_beg c) L b).
  { intros j e Hj He. apply (Hfar j); [done|]. apply (leaf_lookup _ _ _ _ j e Hok); [lia|done]. }
  destruct (scan_leaf_spec 64 n lo hi L c b) as (found & i & Hrun & Hno & Hab & Hi & Hres);
    [done|lia|lia|by apply far_above_above| |].
  { intros j e Hj He. apply far_not_hit. by apply (HfarL j). }
  rewrite Hrun. cbn [obind]. destruct found.
  - exists 0, (set_index (Z.of_nat i) c). split_and!; [done|done|]. left. split; [done|].
    destruct Hres as (e & He & Hhit). exists i, e. split_and!; [|done..].
    exists h, off, par, pi, lb, rb, lo, hi, n. split_and!; try done.
  - unfold btree_node_is_full. rewrite (lf_type _ _ _ _ Hok).
    change (HAMMER_BTREE_TYPE_LEAF =? HAMMER_BTREE_TYPE_INTERNAL) with false.
    rewrite Z.eqb_refl. cbn [obind].
    rewrite (eq_refl : INSERT (flags (set_index (Z.of_nat i) c)) = INSERT (flags c)), Hins.
    cbn [andb obind]. change (0 =? 0) with true. change (0 =? ENOSPC) with false. cbn [negb andb orb].
    exists ENOENT, (set_index (Z.of_nat i) c). split_and!; [done|done|]. right.
    split; [done|]. split.
    { eapply (insertion_point_leaf (set_index (Z.of_nat i) c)); done. }
    split; [exact Hend|]. intros e He. apply list_elem_of_lookup in He as [j Hj].
    destruct (decide (j < i)%nat) as [Hji|Hji]; [by eapply Hno|].
    apply below_not_hit. destruct (decide (j = i)) as [->|Hne]; [by apply Hres|].
    pose proof (lookup_lt_Some _ _ _ Hj).
    destruct (lookup_lt_is_Some_2 L i) as [ei Hei]; [lia|].
    pose proof (Hres _ Hei) as Hlt. eapply key_lt_trans; [exact Hlt|].
    apply (lf_sorted _ _ _ _ Hok i j ei e); [lia|lia|..]; by apply (leaf_lookup _ _ _ _ _ _ Hok); [lia|].
Qed.

Lemma btree_search_spec fuel h off par pi lb rb lo hi L bef aft c :
  located h off par pi lb rb lo hi L bef aft → cursor_at c off par pi lb rb →
  key_le root_btree_beg (key_beg c) → key_lt (key_beg c) root_btree_end →
  ¬ same_record (key_beg c) root_btree_beg →
  (∀ s, sep_ok s → hammer_btree_cmp (key_beg c) s = 1 → create_tid s ≠ 1) →
  INSERT (flags c) = false → PRUNING (flags c) = false → (height + 1 < fuel)%nat →
  ∃ error c', btree_search fuel m c = Ok (error, m, c') ∧ query c' = query c ∧
    ((error = 0 ∧ ∃ bef' L' aft' i e, leaf_position c' bef' L' aft' i ∧ L' !! i = Some e ∧
        bef' ++ L' ++ aft' = contents ∧ hit c e) ∨
     (error = ENOENT ∧ insertion_point c' ∧ ∃ mid, search_end (CREATE_CHECK (flags c)) c' mid ∧
        (∀ e, e ∈ mid → ¬ hit c e))).
Proof.
  intros Hl Hat Hbeg Hend Hroot Hsep Hins Hpr Hf. unfold btree_search.
  destruct (search_up_spec fuel _ _ _ _ _ _ _ _ _ _ _ _ Hl Hat Hbeg Hend)
    as (h1 & off1 & par1 & pi1 & lb1 & rb1 & lo1 & hi1 & L1 & bef1 & aft1 & c1 & Hup & Hl1 & Hat1 &
        Hlo1 & Hhi1 & Hr1); [lia|].
  rewrite Hup. cbn [obind]. change (0 =? 0) with true. cbn [negb].
  assert (Hq1 : query c1 = query c) by by apply rest_query.
  destruct (query_fields _ _ Hq1) as (Hk1 & _).
  assert (Hcc1 : CREATE_CHECK (flags c1) = CREATE_CHECK (flags c)).
  { unfold rest in Hr1. by injection Hr1 as _ _ _ _ _ _ ->. }
  assert (Hstart : ∃ c2, (if hammer_btree_cmp (key_beg c) lo1 =? 1
      then let* lb := deref m (left_bound c1) in note_create_check lb c1 else Ok c1) = Ok c2 ∧
      check_inv (CREATE_CHECK (flags c)) c2 lo1 ∧ place c2 = place c1 ∧ query c2 = query c1).
  { destruct (_ =? 1) eqn:E1; bool_prop.
    - destruct (located_bounds _ _ _ _ _ _ _ _ _ _ _ Hl1) as [Hlb _].
      destruct Hat1 as (_ & _ & _ & -> & _). rewrite Hlb. cbn [obind].
      destruct (note_create_check_spec (CREATE_CHECK (flags c)) c1 lo1) as (c2 & ? & ? & ? & ? & _);
        [by rewrite Hk1| |by exists c2].
      destruct (located_lo _ _ _ _ _ _ _ _ _ _ _ Hl1) as [->|Hs]; [|by apply Hsep].
      exfalso. apply Hroot, cmp_same. lia.
    - exists c1. split; [done|]. split; [|done]. split; rewrite Hk1; [done|]. by rewrite Hcc1. }
  destruct Hstart as (c2 & Hnote & Hck2 & Hpl2 & Hq2). rewrite Hnote. cbn [obind].
  assert (Hat2 : cursor_at c2 off1 par1 pi1 lb1 rb1) by by apply (place_at c1).
  rewrite (proj1 Hat2). cbn [held obind].
  destruct (query_fields _ _ Hq2) as (Hk2 & Has2 & Hins2 & Hpr2 & Haf2 & _).
  destruct (query_fields _ _ Hq1) as (_ & Has1 & Hins1 & Hpr1 & Haf1 & _).
  rewrite Hins1, Hins in Hins2. rewrite Hpr1, Hpr in Hpr2. rewrite Hk1 in Hk2.
  rewrite Hins2. destruct fuel as [|fuel']; [lia|]. 
  change (search_up_full (S fuel') m c2 false) with (@Ok (Z * cursor) (0, c2)). cbn [obind].
  change (0 =? 0) with true. cbn [negb].
  apply located_height in Hl1 as Hh1.
  destruct (search_down_spec (CREATE_CHECK (flags c)) (S fuel') _ _ _ _ _ _ _ _ _ _ _ c2 Hl1 Hat2)
    as (stop & c3 & Hrun & Hq3 & Hres); rewrite ?Hk2; try done; [lia|].
  rewrite Hrun. cbn [obind]. destruct (query_fields _ _ Hq3) as (Hk3 & Has3 & Hins3 & _ & Haf3 & _).
  assert (Hhit : ∀ e, hit c3 e ↔ hit c e).
  { intros e. unfold hit. rewrite Haf3, Haf2, Haf1, Hk3, Hk2, Has3, Has2, Has1. done. }
  destruct Hres as [(-> & Hon & Hres)|(-> & h3 & off3 & par3 & pi3 & lb3 & rb3 & lo3 & hi3 & L3 & bef3 & aft3 & n3 &
    Hl3 & Hat3 & Hn3 & Hok3 & Hlo3 & Hhi3 & Hend3)].
  - exists ENOENT, c3. split_and!; [done|congruence|]. right. split; [done|].
    split; [done|]. exists []. split; [done|]. intros e He. by apply elem_of_nil in He.
  - destruct (search_leaf_spec (CREATE_CHECK (flags c)) _ _ _ _ _ _ _ _ _ _ _ n3 c3 Hl3 Hat3)
      as (error & c4 & Hleaf & Hq4 & Hres); [done|done|congruence|done..|].
    exists error, c4. split_and!; [done|congruence|].
    destruct Hres as [(-> & i & e & Hpos & He & Hh)|(-> & Hon & Hres & Hno)]; [left|right]; (split; [done|]).
    + exists bef3, L3, aft3, i, e. split_and!; [done|done| |by apply Hhit].
      by eapply located_contents.
    + split; [done|]. exists L3. split; [done|]. intros e He. rewrite <- Hhit. by apply Hno.
Qed.

(** An exact search that ends without a hit misses nothing. *)
Lemma search_end_no_hit b0 c mid :
  search_end b0 c mid → (∀ e, e ∈ mid → hammer_btree_cmp (key_beg c) (base e) ≠ 0) →
  ∀ e, e ∈ contents → hammer_btree_cmp (key_beg c) (base e) ≠ 0.
Proof.
  intros (s & B & A & HC & HB & HA & Hs & _) Hno e He Hc. rewrite HC in He.
  rewrite !elem_of_app in He. rewrite Forall_forall in HB, HA. destruct He as [He|[He|He]].
  - specialize (HB e He). pose proof (key_lt_le_trans _ _ _ HB Hs) as Hlt. apply cmp_gt in Hlt. lia.
  - by apply (Hno e He).
  - specialize (HA e He). apply cmp_lt in HA. lia.
Qed.

(** Without data to read, extracting the element a cursor is on succeeds. *)
Lemma extract_spec read_data c bef L aft i e :
  leaf_position c bef L aft i → L !! i = Some e → GET_DATA (flags c) = false →
  ∃ l, hammer_btree_extract read_data m c = Ok (0, set_leaf l c) ∧
    leaf_position (set_leaf l c) bef L aft i.
Proof.
  intros (h & off & par & pi & lb & rb & lo & hi & n & Hl & Hat & Hn & Hok & Hidx) He Hgd.
  exists (Some (off, index c)). split.
  - unfold hammer_btree_extract. rewrite (proj1 Hat). cbn [held obind]. unfold ondisk.
    rewrite Hn. cbn [obind]. rewrite Hidx.
    rewrite (proj2 (aget_nat _ i e)) by
      (apply (leaf_lookup _ _ _ _ _ _ Hok); [by eapply lookup_lt_Some|done]).
    cbn [obind]. rewrite (lf_type _ _ _ _ Hok), (kkassert_true _ _ (Z.eqb_refl _)).
    change (HAMMER_BTREE_TYPE_LEAF =? HAMMER_BTREE_TYPE_INTERNAL) with false. cbv iota.
    change (GET_DATA (flags (set_leaf (Some (off, Z.of_nat i)) c))) with (GET_DATA (flags c)).
    rewrite Hgd. done.
  - by exists h, off, par, pi, lb, rb, lo, hi, n.
Qed.

Lemma elem_split {A} (B M C : list A) x : x ∈ B ++ M ++ C ↔ x ∈ B ∨ x ∈ M ∨ x ∈ C.
Proof. by rewrite !elem_of_app. Qed.

(** ** The as-of lookup *)

(** A key strictly inside the tree's bounds by more than its transaction. *)
Definition inside (k : base_elm) : Prop :=
  key_lt root_btree_beg k ∧ ¬ same_record k root_btree_beg ∧
  key_lt k root_btree_end ∧ ¬ same_record k root_btree_end.

Lemma inside_tid t k : inside k → inside (set_create_tid t k).
Proof.
  unfold inside, same_record, key_lt, tid_lt. cbn. lia.
Qed.

(** The record with key [k], alive at [t]: the elements the lookup looks for.
    An undeletable element (creation transaction zero) is infinitely late. *)
Definition alive (k : base_elm) (t : Z) (e : btree_elm) : Prop :=
  same_record k (base e) ∧ visible t (base e) ∧ (t ≠ 0 → create_tid (base e) ≠ 0).

(** The transactions of the boundaries next to the record: none is the first one
    or the time asked for, and no two are adjacent. *)
Definition tids_apart (k : base_elm) (t : Z) : Prop :=
  ∀ s, sep_ok s → same_record k s →
    1 < create_tid s < 2 ^ 64 ∧ create_tid s ≠ t ∧
    ∀ s', sep_ok s' → same_record k s' → create_tid s ≠ create_tid s' - 1.

(** The creation transactions the lookup may search with. *)
Definition tried (k : base_elm) (t T : Z) : Prop :=
  T = t ∨ ∃ s, sep_ok s ∧ same_record k s ∧ T = create_tid s - 1.

Lemma tried_no_tie k t T s :
  tids_apart k t → tried k t T → sep_ok s →
  hammer_btree_cmp (set_create_tid T k) s ≠ 0.
Proof.
  intros Hap Ht Hs Hc. apply cmp_eq in Hc as [Hr Hc]. cbn in Hc.
  assert (Hr' : same_record k s) by exact Hr.
  destruct (Hap s Hs Hr') as (H1 & H2 & H3).
  destruct Ht as [->|(s' & Hs' & Hr'' & ->)]; [done|]. by apply (H3 s').
Qed.

(** How late a creation transaction is. *)
Definition lateness (T : Z) : nat := Z.to_nat (if T =? 0 then 2 ^ 64 else T).

Lemma cmp_same_le k e :
  same_record k e → key_le e k → 0 ≤ hammer_btree_cmp k e ≤ 1.
Proof. intros Hr Hle. apply cmp_same in Hr. apply cmp_ge in Hle. lia. Qed.

(** One round: the search either finds a record that is alive, or there is none
    left, or it has left a hint that excludes nothing. *)
Lemma asof_round fuel k t T c :
  on_tree c → key_beg c = set_create_tid T k → asof c = t → ASOF (flags c) = true →
  INSERT (flags c) = false → PRUNING (flags c) = false → CREATE_CHECK (flags c) = false →
  inside k → tids_apart k t → tried k t T → (height + 1 < fuel)%nat →
  (∀ e, e ∈ contents → alive k t e → key_le (base e) (set_create_tid T k)) →
  ∃ error c', btree_search fuel m c = Ok (error, m, c') ∧ query c' = query c ∧
    ((error = 0 ∧ ∃ bef L aft i e, leaf_position c' bef L aft i ∧ L !! i = Some e ∧
        bef ++ L ++ aft = contents ∧ same_record k (base e) ∧ visible t (base e)) ∨
     (error = ENOENT ∧ on_tree c' ∧
      if CREATE_CHECK (flags c') then
        tried k t (create_check c') ∧ (lateness (create_check c') < lateness T)%nat ∧
        ∀ e, e ∈ contents → alive k t e → key_le (base e) (set_create_tid (create_check c') k)
      else ∀ e, e ∈ contents → ¬ alive k t e)).
Proof.
  intros (h & off & par & pi & lb & rb & lo & hi & L & bef & aft & Hl & Hat) Hk Ht Has Hins Hpr Hcc
    Hin Hap Htr Hf Hinv.
  destruct (inside_tid T k Hin) as (Hb1 & Hb2 & He1 & He2).
  assert (Hsep : ∀ s, sep_ok s → hammer_btree_cmp (key_beg c) s = 1 → create_tid s ≠ 1).
  { intros s Hs Hc. assert (Hr : same_record k s).
    { rewrite Hk in Hc. assert (Hr : same_record (set_create_tid T k) s) by (apply cmp_same; lia).
      exact Hr. }
    destruct (Hap s Hs Hr). lia. }
  destruct (btree_search_spec fuel _ _ _ _ _ _ _ _ _ _ _ c Hl Hat) as (error & c' & Hrun & Hq & Hres);
    rewrite ?Hk; try done; [by apply key_lt_le|by rewrite <- Hk|].
  destruct (query_fields _ _ Hq) as (Hk' & _). rewrite Hk in Hk'.
  exists error, c'. split; [done|]. split; [done|]. rewrite Hcc in Hres.
  destruct Hres as [(-> & bef' & L' & aft' & i & e & Hpos & He & HC & Hhit)|
    (-> & Hon & mid & (s & B & A & HC & HB & HA & Hs & [Hc1 Hc2] & Hso) & Hno)].
  - left. split; [done|]. exists bef', L', aft', i, e. split_and!; try done.
    + apply (hit_asof c e Has) in Hhit as [Hc _]. rewrite Hk in Hc.
      assert (Hr : same_record (set_create_tid T k) (base e)) by (apply cmp_same; lia). exact Hr.
    + apply (hit_asof c e Has) in Hhit as [_ Hv]. rewrite Ht in Hv. by apply chkts_visible.
  - right. split; [done|]. split; [by apply insertion_on_tree|]. rewrite Hk' in HA, Hs, Hc1, Hc2.
    assert (Hcand : ∀ e, e ∈ contents → alive k t e → e ∈ B).
    { intros e He Hal. pose proof (Hinv e He Hal) as Hle. rewrite HC in He.
      apply elem_split in He as [He|[He|He]]; [done|exfalso..].
      - apply (Hno e He), (hit_asof c e Has). rewrite Hk, Ht. split; [|apply chkts_visible, Hal].
        apply cmp_same_le; [exact (proj1 Hal)|done].
      - rewrite Forall_forall in HA. by apply (Hle), HA. }
    assert (Htie : hammer_btree_cmp (set_create_tid T k) s ≠ 0).
    { destruct Hso as [->|Hso]; [|by apply (tried_no_tie k t)].
      intros Hc. apply Hb2. apply cmp_eq in Hc. tauto. }
    apply cmp_ge in Hs as Hs0. rewrite Forall_forall in HB.
    destruct (decide (hammer_btree_cmp (set_create_tid T k) s = 1)) as [H1|H1].
    + destruct (Hc1 H1) as [-> ->].
      assert (Hr : same_record k s) by exact (proj1 (cmp_same (set_create_tid T k) s) ltac:(lia)).
      assert (Hso' : sep_ok s).
      { destruct Hso as [->|Hso]; [|done]. destruct Hb2. exact Hr. }
      destruct (Hap s Hso' Hr) as (Htid & _).
      assert (Hu : u64 (create_tid s - 1) = create_tid s - 1).
      { apply unsigned_of_small. unfold is_u. lia. }
      rewrite Hu. split; [right; by exists s|]. split.
      * assert (Hlt : key_lt s (set_create_tid T k)) by (apply cmp_gt; lia).
        unfold same_record in Hr. unfold key_lt, tid_lt in Hlt. cbn in Hlt. unfold lateness.
        destruct (create_tid s - 1 =? 0) eqn:E1, (T =? 0) eqn:E2; bool_prop; lia.
      * intros e He Hal. specialize (HB e (Hcand e He Hal)). destruct Hal as (Hre & _).
        unfold same_record in Hre, Hr. unfold key_le, key_lt, tid_lt in *. cbn. lia.
    + rewrite Hc2 by lia. intros e He Hal. specialize (HB e (Hcand e He Hal)).
      assert (Hfar : 1 < hammer_btree_cmp (set_create_tid T k) (base e)).
      { apply cmp_above with s; [lia|]. by apply key_lt_le. }
      assert (Hre : same_record (set_create_tid T k) (base e)) by exact (proj1 Hal).
      apply cmp_same in Hre. lia.
Qed.

(** The rounds end, since each searches strictly earlier. *)
Lemma lookup_asof_spec fuel k t : ∀ (n : nat) T c,
  (lateness T < n)%nat →
  on_tree c → key_beg c = set_create_tid T k → asof c = t → ASOF (flags c) = true →
  INSERT (flags c) = false → PRUNING (flags c) = false → GET_DATA (flags c) = false →
  inside k → tids_apart k t → tried k t T → (height + 1 < fuel)%nat →
  (∀ e, e ∈ contents → alive k t e → key_le (base e) (set_create_tid T k)) →
  ∃ error c', lookup_asof n fuel m c = Ok (error, m, c') ∧ GET_DATA (flags c') = false ∧
    ((error = 0 ∧ ∃ bef L aft i e, leaf_position c' bef L aft i ∧ L !! i = Some e ∧
        bef ++ L ++ aft = contents ∧ same_record k (base e) ∧ visible t (base e)) ∨
     (error = ENOENT ∧ ∀ e, e ∈ contents → ¬ alive k t e)).
Proof.
  induction n as [|n IH]; intros T c Hn Hon Hk Ht Has Hins Hpr Hgd Hin Hap Htr Hf Hinv; [lia|].
  cbn [lookup_asof].
  destruct (asof_round fuel k t T (set_flags (set_CREATE_CHECK false (flags c)) c))
    as (error & c' & Hrun & Hq & Hres); try done.
  rewrite Hrun. cbn [obind].
  destruct (query_fields _ _ Hq) as (Hk' & Has' & Hins' & Hpr' & Haf' & Hgd').
  destruct Hres as [(-> & Hfound)|(-> & Hon' & Hres)].
  - change (0 =? ENOENT) with false. cbn [negb orb]. exists 0, c'. split_and!; [done|by rewrite Hgd'|by left].
  - change (ENOENT =? ENOENT) with true. cbn [negb orb].
    destruct (CREATE_CHECK (flags c')) eqn:Ecc; cbn [negb].
    + destruct Hres as (Htr' & Hlate & Hinv').
      apply (IH (create_check c')); try done; [lia| | | | | |].
      * cbn [key_beg set_key_beg]. rewrite Hk'. cbn [key_beg set_flags]. by rewrite Hk.
      * by etransitivity; [exact Has'|].
      * by etransitivity; [exact Haf'|].
      * by etransitivity; [exact Hins'|].
      * by etransitivity; [exact Hpr'|].
      * by etransitivity; [exact Hgd'|].
    + exists ENOENT, c'. split_and!; [done|by rewrite Hgd'|by right].
Qed.

End Tree.

(** * Properties *)

Section Properties.
Context (sep_ok : base_elm → Prop) (m : hmp) (root : Z) (height : nat)
  (contents : list btree_elm).

(** C21: started at any node of a well-formed tree, [btree_search] for a key
    inside the bounds of the tree, with a cursor that is neither for insertion
    nor for pruning nor as of a time, ends on the element that has the key, in
    its leaf, or reports ENOENT and no element has it.  No assertion fails (the
    record having no boundary with create_tid 1, as the code asserts), nothing
    outside a node is read, and the height of the tree bounds its loops.  The
    search of an insertion, which splits full nodes on its way, is not covered. *)
Theorem btree_search_correct fuel (c : cursor)
    (Hon : on_tree sep_ok m root height contents c)
    (Hin : inside (key_beg c))
    (Hsep : ∀ s, sep_ok s → same_record (key_beg c) s → create_tid s ≠ 1)
    (Hmode : INSERT (flags c) = false ∧ PRUNING (flags c) = false ∧ ASOF (flags c) = false)
    (Hfuel : (height + 1 < fuel)%nat) :
  ∃ error c', btree_search fuel m c = Ok (error, m, c') ∧
    ((error = 0 ∧ ∃ bef L aft i e,
        leaf_position sep_ok m root height contents c' bef L aft i ∧ L !! i = Some e ∧
        bef ++ L ++ aft = contents ∧ hammer_btree_cmp (key_beg c) (base e) = 0) ∨
     (error = ENOENT ∧ insertion_point sep_ok m root height contents c' ∧
      ∀ e, e ∈ contents → hammer_btree_cmp (key_beg c) (base e) ≠ 0)).
Proof.
  destruct Hon as (h & off & par & pi & lb & rb & lo & hi & L & bef & aft & Hl & Hat).
  destruct Hin as (Hb1 & Hb2 & He1 & He2). destruct Hmode as (Hins & Hpr & Has).
  destruct (btree_search_spec sep_ok m root height contents fuel _ _ _ _ _ _ _ _ _ _ _ c Hl Hat)
    as (error & c' & Hrun & Hq & Hres); try done; [by apply key_lt_le| |].
  { intros s Hs Hc. apply (Hsep s Hs), cmp_same. lia. }
  exists error, c'. split; [done|]. destruct (query_fields _ _ Hq) as (Hk' & _).
  destruct Hres as [(-> & bef' & L' & aft' & i & e & Hpos & He & HC & Hhit)|
    (-> & Hon & mid & Hse & Hno)]; [left|right]; (split; [done|]).
  - exists bef', L', aft', i, e. split_and!; try done. by apply hit_exact.
  - split; [done|]. rewrite <- Hk'. eapply search_end_no_hit; [exact Hse|].
    intros e He. rewrite Hk', <- (hit_exact c e Has). by apply Hno.
Qed.

(** C24: the as-of lookup of a record inside the bounds of the tree at a time,
    with a cursor that does not fetch the data, terminates and ends on a version
    of the record visible at that time, or reports ENOENT and the tree holds no
    version alive then; if every boundary of the record has a create_tid above
    1 that is not that very time, and no two of them have adjacent ones.  (See
    [lookup_asof_on_boundary] below.) *)
Theorem hammer_btree_lookup_asof_correct read_data fuel (c : cursor)
    (Hon : on_tree sep_ok m root height contents c)
    (Hin : inside (key_beg c))
    (Hap : tids_apart sep_ok (key_beg c) (asof c))
    (Hmode : INSERT (flags c) = false ∧ PRUNING (flags c) = false ∧ ASOF (flags c) = true ∧
             GET_DATA (flags c) = false)
    (Hfuel : (height + 1 < fuel)%nat) :
  ∃ error c', hammer_btree_lookup read_data (S (lateness (asof c))) fuel m c = Ok (error, m, c') ∧
    ((error = 0 ∧ ∃ bef L aft i e,
        leaf_position sep_ok m root height contents c' bef L aft i ∧ L !! i = Some e ∧
        bef ++ L ++ aft = contents ∧ same_record (key_beg c) (base e) ∧ visible (asof c) (base e)) ∨
     (error = ENOENT ∧ ∀ e, e ∈ contents → ¬ alive (key_beg c) (asof c) e)).
Proof.
  destruct Hmode as (Hins & Hpr & Has & Hgd). unfold hammer_btree_lookup.
  set (c0 := set_flags _ c). rewrite (eq_refl : ASOF (flags c0) = ASOF (flags c)), Has.
  rewrite (eq_refl : INSERT (flags c0) = INSERT (flags c)), Hins, kkassert_true by done.
  destruct (lookup_asof_spec sep_ok m root height contents fuel (key_beg c) (asof c)
    (S (lateness (asof c))) (asof c) (set_key_beg (set_create_tid (asof c0) (key_beg c0)) c0))
    as (error & c' & Hrun & Hgd' & Hres); try done; [lia|by left| |].
  { intros e He (Hr & Hv & Hc). unfold visible in Hv. unfold same_record in Hr.
    unfold key_le, key_lt, tid_lt. cbn. case_decide; lia. }
  rewrite Hrun. cbn [obind].
  destruct Hres as [(-> & bef & L & aft & i & e & Hpos & He & HC & Hr & Hv)|(-> & Hno)].
  - change (0 =? 0) with true. cbv iota.
    destruct (extract_spec sep_ok m root height contents read_data c' bef L aft i e Hpos He Hgd')
      as (l & -> & Hpos'). cbn [obind].
    eexists _, _. split; [done|]. left. split; [done|]. by exists bef, L, aft, i, e.
  - change (ENOENT =? 0) with false. cbv iota. exists ENOENT, c'. split; [done|]. by right.
Qed.

End Properties.
(** * Building trees *)

(** Adjacent elements in order. *)
Fixpoint sorted_check (L : list btree_elm) : bool :=
  match L with
  | a :: ((b :: _) as r) => (hammer_btree_cmp (base a) (base b) <? 0) && sorted_check r
  | _ => true
  end.

Lemma sorted_check_head a L b :
  sorted_check (a :: L) = true → b ∈ L → elm_lt a b.
Proof.
  revert a. induction L as [|x L IH]; intros a H Hb; [by apply elem_of_nil in Hb|].
  cbn [sorted_check] in H. apply andb_true_iff in H as [H1 H2]. apply Z.ltb_lt, cmp_lt in H1.
  apply elem_of_cons in Hb as [->|Hb]; [done|].
  unfold elm_lt. eapply key_lt_trans; [exact H1|]. by apply IH.
Qed.

Lemma sorted_check_upto L r : sorted_check L = true → sorted_upto (L ++ r) (length L).
Proof.
  induction L as [|a L IH]; intros H i j e e' Hij Hj Hi He'; [cbn in Hj; lia|].
  destruct j as [|j]; [lia|]. cbn [length] in Hj.
  change ((L ++ r) !! j = Some e') in He'. rewrite lookup_app_l in He' by lia.
  destruct i as [|i].
  - cbn in Hi. simplify_eq. eapply sorted_check_head; [exact H|].
    by eapply list_elem_of_lookup_2.
  - apply (IH ltac:(destruct L; [done|by apply andb_true_iff in H as [_ H]]) i j); try lia.
    + exact Hi.
    + by rewrite lookup_app_l by lia.
Qed.

Definition padding (n : nat) : list btree_elm := repeat zero_elm (63 - n).

(** A leaf with the elements [L], and an internal node with the boundaries and
    links [es], the last one being the right boundary. *)
Definition mk_leaf (p : Z) (L : list btree_elm) : node :=
  Node p (Z.of_nat (length L)) HAMMER_BTREE_TYPE_LEAF 0 (L ++ padding (length L)) false.
Definition mk_internal (p : Z) (es : list btree_elm) : node :=
  Node p (Z.of_nat (length es) - 1) HAMMER_BTREE_TYPE_INTERNAL 0 (es ++ padding (length es)) false.

Lemma mk_leaf_ok p L lo hi :
  (length L ≤ 63)%nat → sorted_check L = true →
  Forall (λ e, hammer_btree_cmp lo (base e) ≤ 0 ∧ hammer_btree_cmp (base e) hi < 0) L →
  Forall (λ e, btype (base e) = HAMMER_BTREE_TYPE_RECORD) L →
  leaf_ok (mk_leaf p L) lo hi L.
Proof.
  intros Hlen Hs Hb Hr. constructor; cbn; try done.
  - unfold padding. rewrite length_app, repeat_length. lia.
  - by rewrite take_app_length.
  - by apply sorted_check_upto.
  - eapply Forall_impl; [exact Hb|]. cbn. intros e [H1 H2].
    split; [by apply cmp_le|by apply cmp_lt].
Qed.

Lemma mk_internal_ok sep_ok p es k lo hi :
  length es = S k → (1 ≤ k ≤ 62)%nat → sorted_check es = true →
  (∀ e, es !! 0%nat = Some e → hammer_btree_cmp lo (base e) ≤ 0) →
  (∀ e, es !! k = Some e → hammer_btree_cmp (base e) hi ≤ 0) →
  Forall (λ e, subtree_offset e ≠ 0 ∧ (btype (base e) = HAMMER_BTREE_TYPE_INTERNAL ∨
    btype (base e) = HAMMER_BTREE_TYPE_LEAF)) (take k es) →
  NoDup (subtree_offset <$> take k es) → Forall (λ e, sep_ok (base e)) es →
  internal_ok sep_ok (mk_internal p es) lo hi k.
Proof.
  intros Hlen Hk Hs Hlo Hhi Hlinks Hnd Hseps.
  assert (Hin : ∀ i e, (i ≤ k)%nat → (es ++ padding (length es)) !! i = Some e → es !! i = Some e).
  { intros i e Hi He. by rewrite lookup_app_l in He by lia. }
  constructor; cbn; try done.
  - unfold padding. rewrite length_app, repeat_length. lia.
  - lia.
  - rewrite <- Hlen. by apply sorted_check_upto.
  - intros e He. apply cmp_le, Hlo, (Hin 0%nat); [lia|done].
  - intros e He. apply cmp_le, Hhi, (Hin k); [lia|done].
  - intros i e Hi He. apply (Forall_lookup_1 _ _ i e Hlinks). rewrite lookup_take_lt by done.
    apply Hin; [lia|done].
  - intros i j e e' Hi Hj He He' Heq.
    apply (NoDup_lookup _ i j (subtree_offset e)  Hnd).
    + rewrite list_lookup_fmap, lookup_take_lt, (Hin i e) by (done || lia). done.
    + rewrite list_lookup_fmap, lookup_take_lt, (Hin j e') by (done || lia). cbn. by rewrite Heq.
  - intros i e Hi He. apply (Forall_lookup_1 _ _ i e Hseps). by apply Hin.
Qed.

(** * Witnesses

    Two versions of a record, one dead, in two leaves under a root.  The
    boundary between them is left from a version that is gone. *)

Definition ex_key (create delete : Z) : base_elm := BaseElm 5 0 create delete 1 0 82 1.
Definition ex_old : btree_elm := Elm (ex_key 32 48) 0 0 0 0.
Definition ex_new : btree_elm := Elm (ex_key 48 0) 0 0 0 0.
Definition ex_seps : list btree_elm :=
  [Elm (set_btype 76 root_btree_beg) 0 200 0 0; Elm (set_btype 76 (ex_key 40 0)) 0 300 0 0;
   Elm root_btree_end 0 0 0 0].
Definition ex_tree : hmp :=
  Hmp {[100 := mk_internal 0 ex_seps; 200 := mk_leaf 100 [ex_old]; 300 := mk_leaf 100 [ex_new]]} 100 [].
Definition ex_ok (s : base_elm) : Prop :=
  create_tid s = 1 ∧ obj_id s < 0 ∨ create_tid s = 40 ∨ create_tid s = 2 ^ 64 - 1 ∧ 5 < obj_id s.

Lemma ex_internal : internal_ok ex_ok (mk_internal 0 ex_seps) root_btree_beg root_btree_end 2.
Proof.
  apply mk_internal_ok; try by_decide; intros e [= <-]; by_decide.
Qed.

Lemma ex_children :
  children_ok ex_ok ex_tree 0 100 (mk_internal 0 ex_seps) [[ex_old]; [ex_new]].
Proof.
  split.
  - intros i e L He HL. destruct i as [|[|i]]; [..|done]; cbn in He, HL; simplify_eq.
    + exists (mk_leaf 100 [ex_old]). split; reflexivity.
    + exists (mk_leaf 100 [ex_new]). split; reflexivity.
  - intros i e e' L He He' HL. destruct i as [|[|i]]; [..|done]; cbn in He, He', HL; simplify_eq.
    + apply (subtree_leaf _ _ 0 100 200 _ _ (mk_leaf 100 [ex_old])); [done|reflexivity|done|].
      apply mk_leaf_ok; by_decide.
    + apply (subtree_leaf _ _ 0 100 300 _ _ (mk_leaf 100 [ex_new])); [done|reflexivity|done|].
      apply mk_leaf_ok; by_decide.
Qed.

Lemma ex_subtree :
  subtree ex_ok ex_tree 1 0 100 root_btree_beg root_btree_end [ex_old; ex_new].
Proof.
  change [ex_old; ex_new] with (concat [[ex_old]; [ex_new]]).
  apply (subtree_internal _ _ 0 0 100 _ _ (mk_internal 0 ex_seps));
    [done|reflexivity|done|exact ex_internal|apply ex_children..].
Qed.

(** A cursor at the root that looks for the version created at [create], or as
    of [t]. *)
Definition ex_flags (as_of : bool) : cflags :=
  CFlags false false false false false false as_of false false false false.
Definition ex_cursor (create t : Z) (as_of : bool) : cursor :=
  Cursor None 0 (Some 100) 0 0 RootBeg RootEnd (ex_key create 0) (ex_key create 0) t
    (CMirror 0 root_btree_beg root_btree_end) None (ex_flags as_of).

Lemma ex_on_tree create t as_of :
  on_tree ex_ok ex_tree 100 1 [ex_old; ex_new] (ex_cursor create t as_of).
Proof. do 11 eexists. split; [apply located_root, ex_subtree|done]. Qed.

(** A cursor on the old version, in its leaf. *)
Definition ex_scan_flags (atedisk : bool) : cflags :=
  CFlags false false false true atedisk false false false false false false.
Definition ex_scan_leaf (i : Z) : cursor :=
  Cursor (Some 100) 0 (Some 200) i 0 (ElmPtr 100 0) (ElmPtr 100 1) (ex_key 1 0) root_btree_end 0
    (CMirror 0 root_btree_beg root_btree_end) None (ex_scan_flags true).

Lemma ex_leaf_position i :
  leaf_position ex_ok ex_tree 100 1 [ex_old; ex_new] (ex_scan_leaf (Z.of_nat i)) [] [ex_old] [ex_new] i.
Proof.
  exists 0%nat, 200, (Some 100), 0, (ElmPtr 100 0), (ElmPtr 100 1),
    (set_btype 76 root_btree_beg), (set_btype 76 (ex_key 40 0)), (mk_leaf 100 [ex_old]).
  split_and!; [|done..|reflexivity|apply mk_leaf_ok; by_decide|done].
  refine (located_child ex_ok ex_tree 100 1 _ 0 100 None 0 RootBeg RootEnd root_btree_beg root_btree_end
    (mk_internal 0 ex_seps) [[ex_old]; [ex_new]] [] [] 0
    (Elm (set_btype 76 root_btree_beg) 0 200 0 0) (Elm (set_btype 76 (ex_key 40 0)) 0 300 0 0) [ex_old]
    _ eq_refl ex_internal eq_refl eq_refl eq_refl ex_children).
  apply located_root, ex_subtree.
Qed.

Lemma btree_search_correct_witness :
  ∃ c', btree_search 3 ex_tree (ex_cursor 48 0 false) = Ok (0, ex_tree, c') ∧ index c' = 0 ∧
    c_node c' = Some 300.
Proof.
  destruct (btree_search_correct ex_ok ex_tree 100 1 [ex_old; ex_new] 3 (ex_cursor 48 0 false)
    (ex_on_tree _ _ _)) as (error & c' & Hrun & _).
  - unfold inside, same_record, key_lt, tid_lt. cbn. lia.
  - unfold ex_ok, same_record. cbn. lia.
  - done.
  - lia.
  - eexists. split; [vm_compute; reflexivity|done].
Defined.

Lemma hammer_btree_lookup_asof_correct_witness :
  ∃ c', hammer_btree_lookup (λ _, 0) (S (lateness 44)) 3 ex_tree (ex_cursor 0 44 true) =
    Ok (0, ex_tree, c') ∧ c_node c' = Some 200.
Proof.
  destruct (hammer_btree_lookup_asof_correct ex_ok ex_tree 100 1 [ex_old; ex_new] (λ _, 0) 3
    (ex_cursor 0 44 true) (ex_on_tree _ _ _)) as (error & c' & Hrun & _).
  - unfold inside, same_record, key_lt, tid_lt. cbn. lia.
  - intros s Hs (_ & Hr & _). unfold ex_ok in *. cbn in Hr.
    split; [lia|]. split; [cbn; lia|]. intros s' Hs' (_ & Hr' & _). cbn in Hr'. lia.
  - done.
  - lia.
  - eexists. split; [vm_compute; reflexivity|done].
Defined.

(** At the create_tid of a boundary the search goes down on its right, without
    the hint to look on its left ([r == 0] is not [r == 1]): as of 40 the old
    version, of the transactions 32 to 48, is alive, and is not found. *)
Lemma lookup_asof_on_boundary :
  alive (ex_key 0 0) 40 ex_old ∧
  ∃ c', hammer_btree_lookup (λ _, 0) (S (lateness 40)) 3 ex_tree (ex_cursor 0 40 true) = Ok (ENOENT, ex_tree, c').
Proof.
  split; [|eexists; vm_compute; reflexivity].
  split; [done|]. split; [by apply chkts_visible|done].
Qed.

End HammerTheory.
