(* ===== verification/HammerIter.v ===== *)
(** Forward iteration of the HAMMER B-tree: [hammer_btree_iterate] visits the
    elements after the cursor in order, skips those the as-of time does not
    see and stops at the end of the key range; composed with the search,
    [hammer_btree_first] finds the first element of a range. *)

From stdpp Require Import base list gmap.
From S2P Require Import Prelude HammerKey HammerTree HammerTheory.

Module HammerIter.
Import HammerKey HammerTree HammerTheory.

Section Iter.
Context (sep_ok : base_elm → Prop) (m : hmp) (root : Z) (height : nat)
  (contents : list btree_elm).

Notation subtree := (subtree sep_ok m).
Notation internal_ok := (internal_ok sep_ok).
Notation children_ok := (children_ok sep_ok m).
Notation located := (located sep_ok m root height contents).
Notation leaf_position := (leaf_position sep_ok m root height contents).
Notation at_position := (at_position sep_ok m root height contents).

(** What the iteration depends on, and what it looks for. *)
Definition in_range (c : cursor) (e : btree_elm) : Prop :=
  0 < hammer_btree_cmp (key_end c) (base e) ∨
  hammer_btree_cmp (key_end c) (base e) = 0 ∧ END_INCLUSIVE (flags c) = true.

Definition seen (c : cursor) (e : btree_elm) : Prop :=
  ASOF (flags c) = true → hammer_btree_chkts (asof c) (base e) = 0.

#[local] Instance seen_dec c e : Decision (seen c e).
Proof. unfold seen. apply _. Defined.

(** An iteration by itself: whole records, no reblocking and no mirroring
    filter, and a cursor that was not moved by others. *)
Definition plain (c : cursor) : Prop :=
  REBLOCKING (flags c) = false ∧ MIRROR_FILTERED (flags c) = false ∧
  ITERATE_CHECK (flags c) = false.

Lemma rest_same c c' : rest c' = rest c →
  key_beg c' = key_beg c ∧ key_end c' = key_end c ∧ asof c' = asof c ∧ flags c' = flags c.
Proof. unfold rest. intros [= _ ? ? ? _ _ ?]. done. Qed.

Lemma rest_in_range c c' e : rest c' = rest c → in_range c' e ↔ in_range c e.
Proof. intros H. apply rest_same in H as (_ & H1 & _ & H2). unfold in_range. by rewrite H1, H2. Qed.
Lemma rest_seen c c' e : rest c' = rest c → seen c' e ↔ seen c e.
Proof. intros H. apply rest_same in H as (_ & _ & H1 & H2). unfold seen. by rewrite H1, H2. Qed.
Lemma rest_plain c c' : rest c' = rest c → plain c → plain c'.
Proof. intros H. apply rest_same in H as (_ & _ & _ & H2). unfold plain. by rewrite H2. Qed.

(** Nothing at or after a key past the end of the range is in the range. *)
Lemma past_end c k x :
  hammer_btree_cmp (key_end c) k < 0 ∨
    hammer_btree_cmp (key_end c) k = 0 ∧ END_INCLUSIVE (flags c) = false →
  key_le k (base x) → ¬ in_range c x.
Proof.
  intros Hk Hx Hr. unfold in_range in Hr.
  assert (Hle : key_le (key_end c) k) by (apply cmp_le; lia).
  assert (Hex : key_le (key_end c) (base x)) by by transitivity k.
  apply cmp_le in Hex. destruct Hr as [Hr|[Hr Hi]]; [lia|].
  destruct Hk as [Hk|[Hk Hi']]; [|congruence].
  apply cmp_lt in Hk. pose proof (key_lt_le_trans _ _ _ Hk Hx) as Hlt. apply cmp_lt in Hlt. lia.
Qed.

(** [steps c c']: the loop comes from [c] to [c'] in some number of turns;
    [ends c r]: it ends with the result [r]. *)
Definition steps (c c' : cursor) : Prop :=
  ∃ f, ∀ F, iterate_loop iterate_turn (f + F) m c = iterate_loop iterate_turn F m c'.
Definition ends (c : cursor) (r : outcome (Z * cursor)) : Prop :=
  ∃ f, ∀ F, iterate_loop iterate_turn (f + F) m c = r.

Lemma steps_refl c : steps c c.
Proof. by exists 0%nat. Qed.
Lemma steps_turn c c1 c2 : iterate_turn m c = Ok (Continue c1) → steps c1 c2 → steps c c2.
Proof.
  intros Ht [f Hf]. exists (S f). intros F. cbn [iterate_loop Nat.add]. rewrite Ht. apply Hf.
Qed.
Lemma steps_trans c c1 c2 : steps c c1 → steps c1 c2 → steps c c2.
Proof.
  intros [f Hf] [g Hg]. exists (f + g)%nat. intros F. by rewrite <- Nat.add_assoc, Hf, Hg.
Qed.
Lemma ends_turn c error c1 : iterate_turn m c = Ok (Return error c1) → ends c (Ok (error, c1)).
Proof. intros Ht. exists 1%nat. intros F. cbn [iterate_loop Nat.add]. by rewrite Ht. Qed.
Lemma steps_ends c c1 r : steps c c1 → ends c1 r → ends c r.
Proof.
  intros [f Hf] [g Hg]. exists (f + g)%nat. intros F. by rewrite <- Nat.add_assoc, Hf, Hg.
Qed.

(** The result of an iteration over the elements [S] that follow the cursor:
    the first one seen, as long as the range lasts. *)
Definition iter_result (c0 : cursor) (B S : list btree_elm) (r : outcome (Z * cursor)) : Prop :=
  ∃ error c', r = Ok (error, c') ∧ rest c' = rest c0 ∧
    ((error = 0 ∧ ∃ skipped e tail bef L aft i,
        S = skipped ++ e :: tail ∧ Forall (λ x, ¬ seen c0 x) skipped ∧
        seen c0 e ∧ in_range c0 e ∧
        leaf_position c' bef L aft i ∧ L !! i = Some e ∧
        B ++ skipped = bef ++ take i L ∧ tail = drop (Datatypes.S i) L ++ aft) ∨
     (error = ENOENT ∧ ∀ x, x ∈ S → in_range c0 x → ¬ seen c0 x)).

Lemma iter_result_skip c0 c1 B S skipped r :
  rest c1 = rest c0 → Forall (λ x, ¬ seen c0 x) skipped →
  iter_result c1 (B ++ skipped) S r → iter_result c0 B (skipped ++ S) r.
Proof.
  intros Hr Hsk (error & c' & -> & Hr' & Hres). exists error, c'.
  split; [done|]. split; [congruence|].
  destruct Hres as [(-> & sk & e & tail & bef & L & aft & i & -> & Hs & He & Hin & Hpos & Hi & HB & Ht)|
    (-> & Hno)]; [left|right]; (split; [done|]).
  - exists (skipped ++ sk), e, tail, bef, L, aft, i. rewrite <- app_assoc in HB.
    split_and!; try done.
    + by rewrite <- app_assoc.
    + apply Forall_app. split; [done|]. eapply Forall_impl; [exact Hs|]. cbn. intros x.
      by rewrite rest_seen.
    + by apply (rest_seen c0 c1).
    + by apply (rest_in_range c0 c1).
  - intros x Hx Hin. apply elem_of_app in Hx as [Hx|Hx].
    + rewrite Forall_forall in Hsk. by apply Hsk.
    + rewrite <- (rest_seen c0 c1) by done. apply Hno; [done|]. by apply (rest_in_range c0 c1).
Qed.

(** A cursor with the elements [B] before it, [S] after it in its node and [A]
    after the node: the iteration ends, or it comes to the end of the node. *)
Definition run_ok (c : cursor) (B S A : list btree_elm) (off : Z) (par : option Z) (pi : Z)
    (lb rb : bound) (cnt : Z) : Prop :=
  (∃ r, ends c r ∧ iter_result c B (S ++ A) r) ∨
  (∃ c', steps c c' ∧ rest c' = rest c ∧ cursor_at c' off par pi lb rb ∧
     index c' = cnt ∧ Forall (λ x, ¬ seen c x) S).

Lemma run_ok_steps c c1 B S A off par pi lb rb cnt :
  steps c c1 → rest c1 = rest c → run_ok c1 B S A off par pi lb rb cnt →
  run_ok c B S A off par pi lb rb cnt.
Proof.
  intros Hst Hr [(r & Hends & Hres)|(c' & Hst' & Hr' & Hat & Hidx & Hsk)]; [left|right].
  - exists r. split; [by eapply steps_ends|].
    apply (iter_result_skip c c1 B _ []); [done|constructor|by rewrite app_nil_r].
  - exists c'. split_and!; try done; [by eapply steps_trans|congruence|].
    eapply Forall_impl; [exact Hsk|]. cbn. intros x. by rewrite (rest_seen c c1).
Qed.

(** ** A leaf *)

(** Through a leaf from its element [i]: the iteration ends in it, or it comes
    to its end having skipped all the elements. *)
Lemma leaf_run h off par pi lb rb lo hi L bef aft n : ∀ d i c,
  located h off par pi lb rb lo hi L bef aft → nodes m !! off = Some n → leaf_ok n lo hi L →
  cursor_at c off par pi lb rb → plain c → index c = Z.of_nat i → (i + d = length L)%nat →
  run_ok c (bef ++ take i L) (drop i L) aft off par pi lb rb (n_count n).
Proof.
  induction d as [|d IH]; intros i c Hl Hn Hok Hat Hpl Hi Hd.
  - right. exists c. split_and!; [apply steps_refl|done|done| |].
    + rewrite Hi, (lf_count _ _ _ _ Hok). lia.
    + rewrite drop_ge by lia. constructor.
  - destruct (lookup_lt_is_Some_2 L i) as [e He]; [lia|].
    assert (Hen : n_elms n !! i = Some e) by (apply (leaf_lookup _ _ _ _ i e Hok); [lia|done]).
    destruct Hpl as (Hreb & Hmir & Hit) eqn:Epl.
    assert (Hturn : iterate_turn m c = iterate_leaf c n).
    { unfold iterate_turn. rewrite (proj1 Hat). cbn [held obind]. unfold ondisk. rewrite Hn. cbn [obind].
      rewrite Hi, (lf_count _ _ _ _ Hok), (lf_type _ _ _ _ Hok).
      change (HAMMER_BTREE_TYPE_LEAF =? HAMMER_BTREE_TYPE_INTERNAL) with false.
      destruct (_ =? _) eqn:E; bool_prop; [lia|done]. }
    assert (Hafter : ∀ x, x ∈ drop i L ++ aft → key_le (base e) (base x)).
    { intros x Hx. apply elem_of_app in Hx as [Hx|Hx].
      - apply list_elem_of_lookup in Hx as [j Hj]. rewrite lookup_drop in Hj.
        destruct j as [|j]; [rewrite Nat.add_0_r in Hj; simplify_eq; apply key_le_refl|].
        apply key_lt_le. pose proof (lookup_lt_Some _ _ _ Hj).
        apply (lf_sorted _ _ _ _ Hok i (i + S j)%nat e x); [lia|lia|done|].
        apply (leaf_lookup _ _ _ _ _ _ Hok); [lia|done].
      - apply located_order in Hl as [_ Ha]. rewrite Forall_forall in Ha.
        pose proof (lf_bounds _ _ _ _ Hok) as Hb. apply (Forall_lookup_1 _ _ i e) in Hb; [|done].
        apply key_lt_le. eapply key_lt_le_trans; [exact (proj2 Hb)|]. by apply Ha. }
    assert (Hlast : iterate_turn m c = Ok (Return ENOENT c) →
      (∀ x, key_le (base e) (base x) → ¬ in_range c x) →
      ∃ r, ends c r ∧ iter_result c (bef ++ take i L) (drop i L ++ aft) r).
    { intros Ht Hout. exists (Ok (ENOENT, c)). split; [by apply ends_turn|].
      exists ENOENT, c. split_and!; [done|done|right]. split; [done|].
      intros x Hx Hin. exfalso. apply (Hout x); [by apply Hafter|done]. }
    assert (Hitc : set_flags (set_ITERATE_CHECK false (flags c)) c = c).
    { destruct c as [? ? ? ? ? ? ? ? ? ? ? ? fl]; destruct fl. cbn in Hit. by subst. }
    unfold iterate_leaf in Hturn.
    rewrite Hi, (proj2 (aget_nat _ _ _) Hen) in Hturn. cbn [obind] in Hturn.
    destruct (hammer_btree_cmp (key_end c) (base e) <? 0) eqn:E1; bool_prop.
    { left. apply Hlast; [exact Hturn|]. intros x. apply past_end. lia. }
    destruct ((hammer_btree_cmp (key_end c) (base e) =? 0) && negb (END_INCLUSIVE (flags c))) eqn:E2;
      bool_prop.
    { left. apply Hlast; [exact Hturn|]. intros x. apply past_end. right. split; [done|].
      by destruct (END_INCLUSIVE (flags c)). }
    clear Hlast. rewrite Hit in Hturn. cbn [andb] in Hturn. rewrite Hitc in Hturn.
    assert (Hrec : btype (base e) = HAMMER_BTREE_TYPE_RECORD).
    { pose proof (lf_record _ _ _ _ Hok) as HF. by apply (Forall_lookup_1 _ _ _ _ HF He). }
    rewrite Hrec, Z.eqb_refl in Hturn.
    rewrite (drop_S _ _ _ He).
    destruct (ASOF (flags c) && negb (hammer_btree_chkts (asof c) (base e) =? 0)) eqn:E3.
    + apply andb_true_iff in E3 as [Ea Ec]. apply negb_true_iff, Z.eqb_neq in Ec.
      rewrite Hi in Hturn.
      assert (Hns : ¬ seen c e) by (unfold seen; intros H; by apply Ec, H).
      destruct (IH (S i) (set_index (Z.of_nat i + 1) c)) as [(r & Hends & Hres)|(c' & Hst & Hr & Hat' & Hidx & Hsk)];
        try done; [cbn; lia|lia|left|right].
      * exists r. split.
        { eapply steps_ends; [|exact Hends]. eapply steps_turn; [exact Hturn|apply steps_refl]. }
        apply (iter_result_skip c (set_index (Z.of_nat i + 1) c) _ _ [e]); [done|by repeat constructor|].
        by rewrite <- app_assoc, <- (take_S_r _ _ _ He).
      * exists c'. split_and!; [by eapply steps_turn|done|done|done|]. by constructor.
    + left. exists (Ok (0, c)). split; [by apply ends_turn|].
      exists 0, c. split_and!; [done|done|left]. split; [done|].
      exists [], e, (drop (S i) L ++ aft), bef, L, aft, i. split_and!; try done.
      * unfold seen. intros Ha. rewrite Ha in E3. cbn in E3. apply negb_false_iff in E3. by bool_prop.
      * apply andb_false_iff in E2. unfold in_range. destruct E2 as [E2|E2]; bool_prop; [left; lia|].
        destruct (decide (hammer_btree_cmp (key_end c) (base e) = 0)); [by right|left; lia].
      * exists h, off, par, pi, lb, rb, lo, hi, n. done.
      * by rewrite app_nil_r.
Qed.

(** ** An internal node *)

(** Up from the end of a child. *)
Lemma up_turn h p par pi lb rb lo hi Lp bef aft pn k i e n lb' rb' c :
  located (S h) p par pi lb rb lo hi Lp bef aft → nodes m !! p = Some pn →
  internal_ok pn lo hi k → (i < k)%nat → n_elms pn !! i = Some e →
  nodes m !! subtree_offset e = Some n → index c = n_count n → plain c →
  cursor_at c (subtree_offset e) (Some p) (Z.of_nat i) lb' rb' →
  ∃ c', iterate_turn m c = Ok (Continue c') ∧ rest c' = rest c ∧
    cursor_at c' p par pi lb rb ∧ index c' = Z.of_nat (S i).
Proof.
  intros Hl Hpn Hok Hi He Hn Hidx (Hreb & _) (Hc & Hpar & Hpi & _).
  unfold iterate_turn. rewrite Hc. cbn [held obind]. unfold ondisk at 1. rewrite Hn. cbn [obind].
  rewrite Hidx, Z.eqb_refl, Hpar. unfold ondisk at 1. rewrite Hpn. cbn [obind].
  rewrite Hpi, (proj2 (aget_nat _ _ _) He). cbn [obind]. rewrite kkassert_true by apply Z.eqb_refl.
  unfold hammer_cursor_up. rewrite Hpar.
  destruct (load_parent_spec _ _ _ _ _ _ _ _ _ _ _ _ _ _ _ _
    (set_cparent None 0 (set_node (Some p) (parent_index c) c)) Hl) as (c' & Hld & Hat & Hi' & Hr);
    [done..|].
  rewrite Hld. cbn [obind]. change (0 =? 0) with true. cbn [negb].
  rewrite (proj1 Hat). cbn [held obind]. unfold ondisk. rewrite Hpn. cbn [obind].
  assert (Hidx' : index c' = Z.of_nat i) by by rewrite Hi', <- Hpi.
  rewrite Hidx', (in_count _ _ _ _ _ Hok), kkassert_true by (apply negb_true_iff, Z.eqb_neq; lia).
  assert (Hr' : rest c' = rest c) by exact Hr.
  apply rest_same in Hr' as (_ & _ & _ & Hfl). rewrite Hfl, Hreb.
  exists (set_index (Z.of_nat i + 1) c'). split; [done|]. split; [exact Hr|].
  split; [done|]. cbn. lia.
Qed.

(** At an element of an internal node: past the range, or down to the child. *)
Lemma down_turn h off par pi lb rb lo hi n cs bef aft i e e' L c :
  located (S h) off par pi lb rb lo hi (concat cs) bef aft → nodes m !! off = Some n →
  internal_ok n lo hi (length cs) → children_ok h off n cs →
  n_elms n !! i = Some e → n_elms n !! S i = Some e' → cs !! i = Some L →
  cursor_at c off par pi lb rb → plain c → index c = Z.of_nat i →
  key_le (key_beg c) (base e') →
  (iterate_turn m c = Ok (Return ENOENT c) ∧ ∀ x, key_le (base e) (base x) → ¬ in_range c x) ∨
  (∃ c', iterate_turn m c = Ok (Continue c') ∧ rest c' = rest c ∧ index c' = 0 ∧
     cursor_at c' (subtree_offset e) (Some off) (Z.of_nat i)
       (ElmPtr off (Z.of_nat i)) (ElmPtr off (Z.of_nat i + 1)) ∧
     located h (subtree_offset e) (Some off) (Z.of_nat i)
       (ElmPtr off (Z.of_nat i)) (ElmPtr off (Z.of_nat i + 1)) (base e) (base e') L
       (bef ++ concat (take i cs)) (concat (drop (S i) cs) ++ aft)).
Proof.
  intros Hl Hn Hok Hch He He' HL Hat (_ & Hmir & _) Hi Hbeg.
  pose proof (lookup_lt_Some _ _ _ HL) as Hlt.
  assert (Hturn : iterate_turn m c = iterate_internal m c n).
  { unfold iterate_turn. rewrite (proj1 Hat). cbn [held obind]. unfold ondisk.
    rewrite Hn. cbn [obind]. rewrite Hi, (in_count _ _ _ _ _ Hok), (in_type _ _ _ _ _ Hok), Z.eqb_refl.
    destruct (_ =? _) eqn:E; bool_prop; [lia|done]. }
  rewrite Hturn. clear Hturn. unfold iterate_internal. rewrite Hi.
  assert (Ee' : aget (n_elms n) (Z.of_nat i + 1) = Ok e').
  { replace (Z.of_nat i + 1) with (Z.of_nat (S i)) by lia. by apply aget_nat. }
  rewrite !(proj2 (aget_nat _ _ _) He), !Ee'. cbn [obind].
  destruct (hammer_btree_cmp (key_end c) (base e) <? 0) eqn:E1; bool_prop.
  { left. split; [done|]. intros x. apply past_end. lia. }
  destruct ((hammer_btree_cmp (key_end c) (base e) =? 0) && negb (END_INCLUSIVE (flags c))) eqn:E2;
    bool_prop.
  { left. split; [done|]. intros x. apply past_end. right. split; [done|].
    by destruct (END_INCLUSIVE (flags c)). }
  right. destruct (in_links _ _ _ _ _ Hok i e Hlt He) as [Hso _].
  destruct (cursor_down_spec _ _ _ _ _ _ _ _ _ _ _ _ _ _ _ _ _ i e e' L c Hl Hn Hok He He' HL Hch Hat Hi)
    as (c' & Hdown & Hl' & Hat' & Hidx & Hr).
  exists c'. split; [|done]. rewrite kkassert_true by by apply negb_true_iff, Z.eqb_neq.
  rewrite Hmir, andb_false_r. cbn [andb].
  apply cmp_le in Hbeg. rewrite kkassert_true by (apply orb_true_iff; left; by apply Z.leb_le).
  rewrite Hdown. cbn [obind]. change (0 =? 0) with true. cbn [negb].
  by rewrite kkassert_true by by apply Z.eqb_eq.
Qed.

(** The run of the children from the [i]-th on, given that of each child. *)
Lemma children_run h off par pi lb rb lo hi n cs bef aft : ∀ d i c,
  (∀ off par pi lb rb lo hi L bef aft c n,
     located h off par pi lb rb lo hi L bef aft → nodes m !! off = Some n →
     cursor_at c off par pi lb rb → plain c → index c = 0 → key_le (key_beg c) lo →
     run_ok c bef L aft off par pi lb rb (n_count n)) →
  located (S h) off par pi lb rb lo hi (concat cs) bef aft → nodes m !! off = Some n →
  internal_ok n lo hi (length cs) → children_ok h off n cs →
  cursor_at c off par pi lb rb → plain c → index c = Z.of_nat i → (i + d = length cs)%nat →
  (∀ e, (i < length cs)%nat → n_elms n !! i = Some e → key_le (key_beg c) (base e)) →
  run_ok c (bef ++ concat (take i cs)) (concat (drop i cs)) aft off par pi lb rb (n_count n).
Proof.
  induction d as [|d IH]; intros i c Hrun Hl Hn Hok Hch Hat Hpl Hi Hd Hbeg.
  - right. exists c. split_and!; [apply steps_refl|done|done| |].
    + rewrite Hi, (in_count _ _ _ _ _ Hok). lia.
    + rewrite drop_ge by lia. constructor.
  - destruct (lookup_lt_is_Some_2 cs i) as [L HL]; [lia|].
    destruct (internal_elm _ _ _ _ _ i Hok) as [e He]; [lia|].
    destruct (internal_elm _ _ _ _ _ (S i) Hok) as [e' He']; [lia|].
    assert (Hbe : key_le (key_beg c) (base e)) by (apply Hbeg; [lia|done]).
    assert (Hee' : key_le (base e) (base e')).
    { apply key_lt_le, (in_sorted _ _ _ _ _ Hok i (S i)); [lia|lia|done..]. }
    assert (Hbe' : key_le (key_beg c) (base e')) by by transitivity (base e).
    destruct (proj1 Hch i e L He HL) as (nc & Hnc & _).
    rewrite (drop_S _ _ _ HL), concat_cons.
    destruct (down_turn _ _ _ _ _ _ _ _ _ _ _ _ i e e' L c Hl Hn Hok Hch He He' HL Hat Hpl Hi Hbe')
      as [(Ht & Hout)|(c1 & Ht & Hr1 & Hidx1 & Hat1 & Hl1)].
    + left. exists (Ok (ENOENT, c)). split; [by apply ends_turn|].
      exists ENOENT, c. split_and!; [done|done|right]. split; [done|]. intros x Hx Hin. exfalso.
      apply (Hout x); [|done].
      destruct (children_order _ _ _ _ _ _ _ _ i e Hok Hch He) as [_ Hafter]; [lia|].
      rewrite (drop_S _ _ _ HL), concat_cons, Forall_forall in Hafter.
      apply elem_of_app in Hx as [Hx|Hx]; [by apply Hafter|].
      apply located_order in Hl as [_ Ha]. rewrite Forall_forall in Ha.
      transitivity hi; [|by apply Ha]. eapply internal_elm_le; [exact Hok| |exact He]. lia.
    + assert (Hpl1 : plain c1) by by eapply rest_plain.
      destruct (rest_same _ _ Hr1) as (Hk1 & _).
      assert (Hst1 : steps c c1) by (eapply steps_turn; [exact Ht|apply steps_refl]).
      destruct (Hrun _ _ _ _ _ _ _ _ _ _ c1 nc Hl1 Hnc Hat1 Hpl1 Hidx1) as
        [(r & Hends & Hres)|(c2 & Hst2 & Hr2 & Hat2 & Hidx2 & Hsk)]; [by rewrite Hk1|left|].
      * exists r. split; [by eapply steps_ends|]. rewrite <- app_assoc.
        apply (iter_result_skip c c1 _ _ []); [done|constructor|by rewrite app_nil_r].
      * assert (Hpl2 : plain c2) by by eapply rest_plain.
        destruct (up_turn _ _ _ _ _ _ _ _ _ _ _ _ _ i e nc _ _ c2 Hl Hn Hok ltac:(lia) He Hnc Hidx2
          Hpl2 Hat2) as (c3 & Ht3 & Hr3 & Hat3 & Hidx3).
        assert (Hr : rest c3 = rest c) by congruence.
        destruct (rest_same _ _ Hr) as (Hk3 & _).
        assert (Hst : steps c c3).
        { eapply steps_trans; [exact Hst1|]. eapply steps_trans; [exact Hst2|].
          eapply steps_turn; [exact Ht3|apply steps_refl]. }
        assert (Hsk' : Forall (λ x, ¬ seen c x) L).
        { eapply Forall_impl; [exact Hsk|]. cbn. intros x. by rewrite (rest_seen c c1). }
        destruct (IH (S i) c3 Hrun Hl Hn Hok Hch Hat3) as
          [(r & Hends & Hres)|(c4 & Hst4 & Hr4 & Hat4 & Hidx4 & Hsk4)]; [..|left|right].
        -- by eapply rest_plain.
        -- done.
        -- lia.
        -- intros x _ Hx. simplify_eq. by rewrite Hk3.
        -- exists r. split; [by eapply steps_ends|]. rewrite <- app_assoc.
           apply (iter_result_skip c c3); [done|done|].
           rewrite (take_S_r _ _ _ HL), concat_app in Hres. cbn in Hres.
           by rewrite app_nil_r, app_assoc in Hres.
        -- exists c4. split_and!; [by eapply steps_trans|congruence|done|done|].
           apply Forall_app. split; [done|].
           eapply Forall_impl; [exact Hsk4|]. cbn. intros x. by rewrite (rest_seen c c3).
Qed.

(** The run of a whole subtree from its beginning. *)
Lemma subtree_run h : ∀ off par pi lb rb lo hi L bef aft c n,
  located h off par pi lb rb lo hi L bef aft → nodes m !! off = Some n →
  cursor_at c off par pi lb rb → plain c → index c = 0 → key_le (key_beg c) lo →
  run_ok c bef L aft off par pi lb rb (n_count n).
Proof.
  assert (Hleaf : ∀ off par pi lb rb lo hi L bef aft c n h,
    located h off par pi lb rb lo hi L bef aft → nodes m !! off = Some n → leaf_ok n lo hi L →
    cursor_at c off par pi lb rb → plain c → index c = 0 →
    run_ok c bef L aft off par pi lb rb (n_count n)).
  { intros off par pi lb rb lo hi L bef aft c n h' Hl Hn Hok Hat Hpl Hi.
    pose proof (leaf_run h' off par pi lb rb lo hi L bef aft n (length L) 0%nat c Hl Hn Hok Hat Hpl Hi eq_refl) as Hr.
    by rewrite take_0, drop_0, app_nil_r in Hr. }
  induction h as [|h IH]; intros off par pi lb rb lo hi L bef aft c n Hl Hn Hat Hpl Hi Hbeg;
    pose proof (located_subtree _ _ _ _ _ _ _ _ _ _ _ _ _ _ _ _ Hl) as Hsub;
    inversion Hsub as [h' p' off' lo' hi' n' L' Hoff Hn' Hp Hok|h' p' off' lo' hi' n' cs Hoff Hn' Hp Hok Hlink Hch];
    simplify_eq.
  - by eapply Hleaf.
  - by eapply Hleaf.
  - pose proof (children_run h off par pi lb rb lo hi n cs bef aft (length cs) 0%nat c) as Hr.
    rewrite take_0, drop_0, app_nil_r in Hr. apply Hr; try done.
    intros e _ He. transitivity lo; [done|]. by eapply in_lo.
Qed.

(** Up from the end of a node to the end of the tree. *)
Lemma climb h off par pi lb rb lo hi L bef aft :
  located h off par pi lb rb lo hi L bef aft → ∀ n c,
  nodes m !! off = Some n → cursor_at c off par pi lb rb → plain c → index c = n_count n →
  key_le (key_beg c) hi →
  ∃ r, ends c r ∧ iter_result c (bef ++ L) aft r.
Proof.
  induction 1 as [Hsub|h off par pi lb rb lo hi pn cs bef aft i e e' L Hup IH Hpn Hok He He' HL Hch];
    intros n c Hn Hat Hpl Hi Hbeg.
  - exists (Ok (ENOENT, c)). split.
    + apply ends_turn. unfold iterate_turn. rewrite (proj1 Hat). cbn [held obind].
      unfold ondisk. rewrite Hn. cbn [obind]. rewrite Hi, Z.eqb_refl.
      destruct Hat as (_ & Hpar & _). rewrite Hpar. cbn [obind kkassert].
      unfold hammer_cursor_up. rewrite Hpar. done.
    + exists ENOENT, c. split_and!; [done|done|right]. split; [done|].
      intros x Hx. by apply elem_of_nil in Hx.
  - pose proof (lookup_lt_Some _ _ _ HL) as Hlt.
    destruct (up_turn _ _ _ _ _ _ _ _ _ _ _ _ _ i e n _ _ c Hup Hpn Hok Hlt He Hn Hi Hpl Hat)
      as (c1 & Ht & Hr1 & Hat1 & Hidx1).
    assert (Hst : steps c c1) by (eapply steps_turn; [exact Ht|apply steps_refl]).
    assert (Hpl1 : plain c1) by by eapply rest_plain.
    destruct (rest_same _ _ Hr1) as (Hk1 & _).
    assert (Hconc : concat cs = concat (take (S i) cs) ++ concat (drop (S i) cs)).
    { by rewrite <- concat_app, take_drop. }
    assert (Htake : bef ++ concat (take (S i) cs) = (bef ++ concat (take i cs)) ++ L).
    { rewrite (take_S_r _ _ _ HL), concat_app. cbn. by rewrite app_nil_r, app_assoc. }
    assert (Hbeg' : key_le (key_beg c) hi).
    { transitivity (base e'); [done|]. eapply internal_elm_le; [exact Hok| |exact He']. lia. }
    destruct (children_run h off par pi lb rb lo hi pn cs bef aft (length cs - S i) (S i) c1)
      as [(r & Hends & Hres)|(c2 & Hst2 & Hr2 & Hat2 & Hidx2 & Hsk)]; try done; try lia.
    + apply subtree_run.
    + intros x _ Hx. simplify_eq. by rewrite Hk1.
    + exists r. split; [by eapply steps_ends|].
      rewrite <- Htake. apply (iter_result_skip c c1 _ _ []); [done|constructor|by rewrite app_nil_r].
    + assert (Hr : rest c2 = rest c) by congruence.
      destruct (IH pn c2) as (r & Hends & Hres); try done;
        [by eapply rest_plain|by rewrite (proj1 (rest_same _ _ Hr))|].
      exists r. split; [eapply steps_ends; [|exact Hends]; by eapply steps_trans|].
      apply (iter_result_skip c c2); [done| |].
      * eapply Forall_impl; [exact Hsk|]. cbn. intros x. by rewrite (rest_seen c c1).
      * by rewrite <- Htake, <- app_assoc, <- Hconc.
Qed.

(** ** From any position *)

Lemma position_run c B S :
  at_position c B S → plain c → ∃ r, ends c r ∧ iter_result c B S r.
Proof.
  intros (h & off & par & pi & lb & rb & lo & hi & L & bef & aft & n & Hl & Hat & Hn & Hbeg & Hcase) Hpl.
  assert (Hgo : ∀ B1 S1, run_ok c B1 S1 aft off par pi lb rb (n_count n) → B1 ++ S1 = bef ++ L →
    ∃ r, ends c r ∧ iter_result c B1 (S1 ++ aft) r).
  { intros B1 S1 [(r & Hends & Hres)|(c1 & Hst & Hr & Hat1 & Hidx & Hsk)] HB; [by exists r|].
    destruct (climb _ _ _ _ _ _ _ _ _ _ _ Hl n c1) as (r & Hends & Hres); try done;
      [by eapply rest_plain|by rewrite (proj1 (rest_same _ _ Hr))|].
    exists r. split; [by eapply steps_ends|]. apply (iter_result_skip c c1); [done|done|].
    by rewrite HB. }
  destruct Hcase as [(Hok & i & Hi & Hlen & -> & ->)|
    (h' & cs & i & -> & -> & Hok & Hch & Hi & Hlen & Hb & -> & ->)].
  - apply Hgo; [|by rewrite <- app_assoc, take_drop].
    apply (leaf_run h off par pi lb rb lo hi L bef aft n (length L - i)); try done. lia.
  - apply Hgo; [|by rewrite <- app_assoc, <- concat_app, take_drop].
    apply (children_run h' off par pi lb rb lo hi n cs bef aft (length cs - i)); try done; [|lia].
    apply subtree_run.
Qed.

Lemma query_range c c' :
  query c' = query c →
  key_end c' = key_end c ∧ END_INCLUSIVE (flags c') = END_INCLUSIVE (flags c) ∧
  REBLOCKING (flags c') = REBLOCKING (flags c) ∧
  MIRROR_FILTERED (flags c') = MIRROR_FILTERED (flags c) ∧
  ITERATE_CHECK (flags c') = ITERATE_CHECK (flags c).
Proof. unfold query, set_CREATE_CHECK. intros [=]. split_and!; done. Qed.

Lemma iterate_spec c B S :
  at_position c B S → plain c → ATEDISK (flags c) = false →
  ∃ F0, ∀ F, (F0 ≤ F)%nat → ∃ r, hammer_btree_iterate F m c = r ∧ iter_result c B S r.
Proof.
  intros Hat Hpl Hate. destruct (position_run c B S Hat Hpl) as (r & [f Hf] & Hres).
  exists f. intros F HF. exists r. split; [|done].
  destruct Hat as (h & off & par & pi & lb & rb & lo & hi & L & bef & aft & n & Hl & Hc & Hn & _).
  unfold hammer_btree_iterate. rewrite (proj1 Hc). cbn [held obind]. unfold ondisk. rewrite Hn.
  cbn [obind]. rewrite Hate, andb_false_r.
  replace F with (f + (F - f))%nat by lia. apply Hf.
Qed.

(** The neighbours of an element. *)
Lemma leaf_neighbours c bef L aft i e :
  leaf_position c bef L aft i → L !! i = Some e →
  Forall (λ x, key_lt (base x) (base e)) (bef ++ take i L) ∧
  Forall (λ x, key_lt (base e) (base x)) (drop (S i) L ++ aft).
Proof.
  intros (h & off & par & pi & lb & rb & lo & hi & n & Hl & _ & _ & Hok & _) He.
  pose proof (lookup_lt_Some _ _ _ He) as Hi.
  destruct (located_order _ _ _ _ _ _ _ _ _ _ _ _ _ _ _ _ Hl) as [HB HA].
  pose proof (lf_bounds _ _ _ _ Hok) as Hb. apply (Forall_lookup_1 _ _ i e) in Hb as [Hlo Hhi]; [|done].
  assert (Hs : ∀ j k x y, (j < k)%nat → L !! j = Some x → L !! k = Some y → key_lt (base x) (base y)).
  { intros j k x y Hjk Hx Hy. pose proof (lookup_lt_Some _ _ _ Hy).
    apply (lf_sorted _ _ _ _ Hok j k x y); [lia|lia|..];
      by apply (leaf_lookup _ _ _ _ _ _ Hok); [lia|]. }
  split; apply Forall_app; split.
  - eapply Forall_impl; [exact HB|]. cbn. intros x Hx. by apply key_lt_le_trans with lo.
  - apply Forall_lookup_2. intros j x Hx. apply lookup_take_Some in Hx as [Hx Hj].
    by apply (Hs j i).
  - apply Forall_lookup_2. intros j x Hx. rewrite lookup_drop in Hx.
    apply (Hs i (S i + j)%nat); [lia|done..].
  - eapply Forall_impl; [exact HA|]. cbn. intros x Hx. by apply key_lt_le_trans with hi.
Qed.

(** * Properties *)

(** C37: [hammer_btree_iterate] with a plain cursor (no reblocking, no mirror
    filter, no ITERATE_CHECK) on an element of a leaf that is not before the
    beginning of its range terminates and returns the first element after it
    (or from it, if the cursor is not to skip it) that the as-of time sees,
    provided it comes before the end of the key range; else ENOENT, and no
    element of the range that is seen is left.  The cursor is left on the
    element, with the rest of the tree in order after it. *)
Theorem hammer_btree_iterate_correct (c : cursor) bef L aft i e
    (Hpos : leaf_position c bef L aft i) (He : L !! i = Some e)
    (Hplain : plain c) (Hbeg : hammer_btree_cmp (key_beg c) (base e) ≤ 0) :
  let next := if ATEDISK (flags c) then S i else i in
  ∃ F0, ∀ F, (F0 ≤ F)%nat → ∃ r, hammer_btree_iterate F m c = r ∧
    iter_result c (bef ++ take next L) (drop next L ++ aft) r.
Proof.
  cbv zeta. pose proof (lookup_lt_Some _ _ _ He) as Hi.
  destruct Hpos as (h & off & par & pi & lb & rb & lo & hi & n & Hl & Hat & Hn & Hok & Hidx).
  pose proof (lf_bounds _ _ _ _ Hok) as Hb. apply (Forall_lookup_1 _ _ i e) in Hb as [_ Hhi]; [|done].
  assert (Hpos : ∀ j c1, place c1 = place c → key_beg c1 = key_beg c → index c1 = Z.of_nat j →
    (j ≤ length L)%nat → at_position c1 (bef ++ take j L) (drop j L ++ aft)).
  { intros j c1 Hp Hk Hj Hlen. exists h, off, par, pi, lb, rb, lo, hi, L, bef, aft, n.
    split_and!; try done; [by apply (place_at c)| |left; split; [done|by exists j]].
    rewrite Hk. apply key_lt_le. eapply key_le_lt_trans; [|exact Hhi]. by apply cmp_le. }
  destruct (ATEDISK (flags c)) eqn:Ea.
  - destruct (position_run (set_index (Z.of_nat (S i)) c) (bef ++ take (S i) L) (drop (S i) L ++ aft))
      as (r & [f Hf] & Hres); [by apply Hpos; [..|lia]|done|].
    exists f. intros F HF. exists r. split; [|exact Hres].
    unfold hammer_btree_iterate. rewrite (proj1 Hat). cbn [held obind]. unfold ondisk. rewrite Hn.
    cbn [obind]. rewrite Ea, Hidx, (lf_count _ _ _ _ Hok).
    destruct (_ <? _) eqn:El; bool_prop; [|lia]. cbn [andb].
    replace (Z.of_nat i + 1) with (Z.of_nat (S i)) by lia.
    replace F with (f + (F - f))%nat by lia. apply Hf.
  - apply iterate_spec; [|done..]. apply Hpos; [done..|lia].
Qed.

(** C23: [hammer_btree_first] with a cursor that is not as of a time, fetches no
    data, does not insert, prune or reblock and has no mirror filter, for a
    range that begins inside the bounds of the tree at a record without a
    boundary of create_tid 1, terminates.  It ends on the least element that is
    not below the beginning of the range, which either has the key of that
    beginning (then the end of the range is not looked at) or lies in the
    range; or it reports ENOENT, and no element from the beginning of the range
    on lies in it. *)
Theorem hammer_btree_first_correct read_data rounds fuel (c : cursor)
    (Hon : on_tree sep_ok m root height contents c)
    (Hin : inside (key_beg c))
    (Hsep : ∀ s, sep_ok s → same_record (key_beg c) s → create_tid s ≠ 1)
    (Hplain : REBLOCKING (flags c) = false ∧ MIRROR_FILTERED (flags c) = false)
    (Hmode : INSERT (flags c) = false ∧ PRUNING (flags c) = false ∧ ASOF (flags c) = false ∧
             GET_DATA (flags c) = false)
    (Hfuel : (height + 1 < fuel)%nat) :
  ∃ F0, ∀ F, (F0 ≤ F)%nat → ∃ error c',
    hammer_btree_first read_data rounds fuel F m c = Ok (error, m, c') ∧
    ((error = 0 ∧ ∃ bef L aft i e, leaf_position c' bef L aft i ∧ L !! i = Some e ∧
        e ∈ contents ∧ (hammer_btree_cmp (key_beg c) (base e) = 0 ∨
          hammer_btree_cmp (key_beg c) (base e) < 0 ∧ in_range c e) ∧
        ∀ x, x ∈ contents → hammer_btree_cmp (key_beg c) (base x) ≤ 0 → 
             hammer_btree_cmp (base e) (base x) ≤ 0) ∨
     (error = ENOENT ∧
        ∀ x, x ∈ contents → hammer_btree_cmp (key_beg c) (base x) ≤ 0 → ¬ in_range c x)).
Proof.
  destruct Hplain as [Hreb Hmir]. destruct Hmode as (Hins & Hpr & Has & Hgd).
  destruct Hin as (Hb1 & Hb2 & He1 & He2).
  destruct Hon as (h & off & par & pi & lb & rb & lo & hi & L & bef & aft & Hl & Hat).
  set (c0 := set_flags (set_ITERATE_CHECK false (flags c)) c).
  destruct (btree_search_spec sep_ok m root height contents fuel _ _ _ _ _ _ _ _ _ _ _ c0 Hl Hat)
    as (error & c1 & Hrun & Hq & Hres); try done; [by apply key_lt_le| |].
  { intros s Hs Hc. apply (Hsep s Hs), cmp_same. cbn in Hc. lia. }
  assert (Hhit : ∀ e, hit c0 e ↔ hammer_btree_cmp (key_beg c) (base e) = 0) by (intros e; by apply (hit_exact c0)).
  unfold hammer_btree_first, hammer_btree_lookup. fold c0.
  rewrite (eq_refl : ASOF (flags c0) = ASOF (flags c)), Has, Hrun. cbn [obind].
  destruct (query_fields _ _ Hq) as (Hk & _ & _ & _ & Ha1 & Hgd1).
  rewrite (eq_refl : key_beg c0 = key_beg c) in Hk.
  rewrite (eq_refl : ASOF (flags c0) = ASOF (flags c)), Has in Ha1.
  destruct Hres as [(-> & bef' & L' & aft' & i & e & Hpos & He & HC & Hhit')|(-> & Hip & mid & Hse & Hno)].
  - exists 0%nat. intros F _. change (0 =? 0) with true. cbv iota.
    destruct (extract_spec sep_ok m root height contents read_data c1 bef' L' aft' i e Hpos He)
      as (l & Hex & Hpos'); [by rewrite Hgd1|].
    rewrite Hex. cbn [obind]. change (0 =? ENOENT) with false. cbn [obind].
    eexists _, _. split; [done|]. left. split; [done|]. exists bef', L', aft', i, e.
    apply Hhit in Hhit'. split_and!; [done|done| |by left|].
    + rewrite <- HC. apply elem_split. right. left. by eapply list_elem_of_lookup_2.
    + intros x _ Hx. rewrite cmp_le in *. transitivity (key_beg c); [|done].
      apply cmp_ge. lia.
  - destruct Hip as (B & S & Hpt & HCBS & HB & HS). rewrite Hk in HB, HS.
    assert (HB' : ∀ x, x ∈ B → ¬ hammer_btree_cmp (key_beg c) (base x) ≤ 0).
    { intros x Hx Hle. rewrite Forall_forall in HB. specialize (HB x Hx). apply cmp_ge in HB.
      apply (search_end_no_hit _ _ _ _ _ Hse) with x; rewrite ?Hk.
      - intros y Hy. rewrite <- Hhit. by apply Hno.
      - rewrite HCBS. apply elem_of_app. by left.
      - lia. }
    destruct (query_range _ _ Hq) as (Hke & Hei & Hre1 & Hmi1 & Hit1).
    set (c2 := set_flags (set_ATEDISK false (flags c1)) c1).
    destruct (iterate_spec c2 B S) as [F0 HF0]; [exact Hpt|by split_and!; etransitivity; [exact Hre1| |exact Hmi1| |exact Hit1|]|done|].
    exists F0. intros F HF. destruct (HF0 F HF) as (r & Hit & error & c3 & -> & Hr3 & Hres).
    change (ENOENT =? 0) with false. cbv iota. cbn [obind].
    change (ENOENT =? ENOENT) with true. cbv iota. fold c2. rewrite Hit. cbn [obind].
    assert (Hir : ∀ x, in_range c2 x ↔ in_range c x).
    { intros x. unfold in_range. rewrite (eq_refl : key_end c2 = key_end c1), Hke.
      rewrite (eq_refl : END_INCLUSIVE (flags c2) = END_INCLUSIVE (flags c1)), Hei. done. }
    assert (Hseen : ∀ x, seen c2 x).
    { intros x Hx. unfold seen. rewrite (eq_refl : ASOF (flags c2) = ASOF (flags c1)) in Hx. congruence. }
    eexists _, _. split; [done|].
    destruct Hres as [(-> & sk & e & tail & bef' & L' & aft' & i & -> & Hsk & _ & Hin & Hpos & Hi & HBsk & ->)|
      (-> & Hnone)]; [left|right]; (split; [done|]).
    + destruct sk as [|y sk]; [|by apply Forall_cons_1 in Hsk as [Hy _]; destruct Hy].
      exists bef', L', aft', i, e. destruct (leaf_neighbours _ _ _ _ _ _ Hpos Hi) as [_ Hafter].
      split_and!; [done|done| | |].
      * rewrite HCBS. apply elem_of_app. right. apply elem_of_cons. by left.
      * right. split; [|by apply Hir]. apply Forall_cons_1 in HS as [HS _]. by apply cmp_lt.
      * intros x Hx Hle. rewrite HCBS in Hx. apply elem_of_app in Hx as [Hx|Hx]; [by apply HB' in Hx|].
        apply elem_of_cons in Hx as [->|Hx]; [rewrite cmp_refl; lia|].
        rewrite Forall_forall in Hafter. apply cmp_le, key_lt_le. by apply Hafter.
    + intros x Hx Hle. rewrite HCBS in Hx. apply elem_of_app in Hx as [Hx|Hx]; [by apply HB' in Hx|].
      intros Hin. apply (Hnone x Hx); [by apply Hir|apply Hseen].
Qed.

End Iter.
(** * Witnesses *)

(** A scan of the example tree from the version created at [create] on. *)
Definition ex_scan (create : Z) : cursor :=
  Cursor None 0 (Some 100) 0 0 RootBeg RootEnd (ex_key create 0) root_btree_end 0
    (CMirror 0 root_btree_beg root_btree_end) None (ex_scan_flags false).
Lemma hammer_btree_iterate_correct_witness :
  ∃ c', hammer_btree_iterate 5 ex_tree (ex_scan_leaf 0) = Ok (0, c') ∧ c_node c' = Some 300 ∧
    ∃ F0, ∀ F, (F0 ≤ F)%nat → ∃ r, hammer_btree_iterate F ex_tree (ex_scan_leaf 0) = r ∧
      iter_result ex_ok ex_tree 100 1 [ex_old; ex_new] (ex_scan_leaf 0) [ex_old] [ex_new] r.
Proof.
  eexists. split; [vm_compute; reflexivity|]. split; [done|].
  apply (hammer_btree_iterate_correct ex_ok ex_tree 100 1 [ex_old; ex_new] (ex_scan_leaf 0) []
    [ex_old] [ex_new] 0 ex_old (ex_leaf_position 0)); [done|done|by_decide].
Defined.

Lemma hammer_btree_first_correct_witness :
  ∃ c', hammer_btree_first (λ _, 0) 1 3 9 ex_tree (ex_scan 33) = Ok (0, ex_tree, c') ∧
    c_node c' = Some 300 ∧ index c' = 0.
Proof.
  destruct (hammer_btree_first_correct ex_ok ex_tree 100 1 [ex_old; ex_new] (λ _, 0) 1 3 (ex_scan 33))
    as [F0 HF0].
  - do 11 eexists. split; [apply located_root, ex_subtree|done].
  - unfold inside, same_record, key_lt, tid_lt. cbn. lia.
  - unfold ex_ok, same_record. cbn. lia.
  - done.
  - done.
  - lia.
  - eexists. split; [vm_compute; reflexivity|done].
Defined.

End HammerIter.
