(* ===== verification/HammerUpdate.v ===== *)
(** Updates of the HAMMER B-tree: replacing the contents of a leaf keeps the
    whole tree well formed, so inserting an element at its place and deleting
    the element at the cursor do what they say to the sequence of all the
    elements of the tree. *)

From stdpp Require Import base list gmap.
From S2P Require Import Prelude HammerKey HammerTree HammerTheory.

Module HammerUpdate.
Import HammerKey HammerTree HammerTheory.

(** * Ancestors *)

(** The node [k] parent links above [off]; the root has none above it. *)
Fixpoint anc (m : hmp) (k : nat) (off : Z) : option Z :=
  match k with
  | O => Some off
  | S k =>
      match nodes m !! off with
      | Some n => if n_parent n =? 0 then None else anc m k (n_parent n)
      | None => None
      end
  end.

Lemma anc_add m j k off :
  anc m (j + k) off = match anc m j off with Some o => anc m k o | None => None end.
Proof.
  revert off. induction j as [|j IH]; intros off; [done|]. cbn [anc Nat.add].
  destruct (nodes m !! off) as [n|]; [|done]. by destruct (n_parent n =? 0).
Qed.

(** * The elements of a leaf *)

Lemma sorted_upto_prefix es k : (k ≤ length es)%nat → sorted_upto (take k es) k → sorted_upto es k.
Proof.
  intros Hk H i j e e' Hij Hj He He'. apply (H i j); try done; by rewrite lookup_take_lt by lia.
Qed.

Lemma leaf_ok_intro n lo hi L :
  n_type n = HAMMER_BTREE_TYPE_LEAF → length (n_elms n) = 63%nat →
  n_count n = Z.of_nat (length L) → take (length L) (n_elms n) = L →
  sorted_upto L (length L) →
  Forall (λ e, key_le lo (base e) ∧ key_lt (base e) hi) L →
  Forall (λ e, btype (base e) = HAMMER_BTREE_TYPE_RECORD) L → leaf_ok n lo hi L.
Proof.
  intros Ht Hl Hc He Hs Hb Hr. constructor; try done. apply sorted_upto_prefix; [|by rewrite He].
  rewrite <- He, length_take. lia.
Qed.

Lemma leaf_sorted n lo hi L : leaf_ok n lo hi L → sorted_upto L (length L).
Proof.
  intros Hok i j e e' Hij Hj He He'.
  apply (lf_sorted _ _ _ _ Hok i j); [lia|lia|..]; by apply (leaf_lookup _ _ _ _ _ _ Hok); [lia|].
Qed.

(** Two sorted runs, the first below the second. *)
Lemma sorted_upto_app L1 L2 :
  sorted_upto L1 (length L1) → sorted_upto L2 (length L2) →
  (∀ a b, a ∈ L1 → b ∈ L2 → elm_lt a b) → sorted_upto (L1 ++ L2) (length (L1 ++ L2)).
Proof.
  intros H1 H2 H12 i j a b Hij Hj Ha Hb. rewrite length_app in Hj.
  destruct (decide (j < length L1)%nat) as [Hj1|Hj1].
  - rewrite lookup_app_l in Ha, Hb by lia. by apply (H1 i j).
  - rewrite lookup_app_r in Hb by lia. destruct (decide (i < length L1)%nat) as [Hi1|Hi1].
    + rewrite lookup_app_l in Ha by lia. apply H12; by eapply list_elem_of_lookup_2.
    + rewrite lookup_app_r in Ha by lia. apply (H2 (i - length L1)%nat (j - length L1)%nat); try done; lia.
Qed.

Lemma sorted_upto_take L i : sorted_upto L (length L) → sorted_upto (take i L) (length (take i L)).
Proof.
  intros H x y a b Hxy Hy Ha Hb. rewrite length_take in Hy.
  apply lookup_take_Some in Ha as [Ha _], Hb as [Hb _]. apply (H x y); try done. lia.
Qed.

Lemma sorted_upto_drop L i : sorted_upto L (length L) → sorted_upto (drop i L) (length (drop i L)).
Proof.
  intros H x y a b Hxy Hy Ha Hb. rewrite length_drop in Hy. rewrite lookup_drop in Ha, Hb.
  apply (H (i + x)%nat (i + y)%nat); try done; lia.
Qed.

Ltac list_len :=
  rewrite ?length_app, ?length_take, ?length_drop, ?length_insert, ?length_cons, ?length_app,
    ?length_take, ?length_drop; try lia.

(** Making room at [i] and storing an element there. *)
Lemma insert_elms es L i elm :
  length es = 63%nat → take (length L) es = L → (length L < 63)%nat → (i ≤ length L)%nat →
  ∃ es', (let* es1 := if negb (Z.of_nat i =? Z.of_nat (length L))
                      then bcopy es (Z.of_nat i) es (Z.of_nat i + 1) (Z.of_nat (length L) - Z.of_nat i)
                      else Ok es in aset es1 (Z.of_nat i) elm) = Ok es' ∧
    length es' = 63%nat ∧ take (S (length L)) es' = take i L ++ elm :: drop i L.
Proof.
  intros Hlen Htake HL Hi. set (k := length L) in *.
  assert (Hes : ∃ tl, es = L ++ tl ∧ (k + length tl = 63)%nat).
  { exists (drop k es). rewrite <- Htake at 1. rewrite take_drop, length_drop. split; [done|lia]. }
  destruct Hes as (tl & -> & Htl).
  destruct tl as [|t tl]; [cbn in Htl; lia|]. cbn [length] in Htl.
  destruct (Z.of_nat i =? Z.of_nat k) eqn:E; bool_prop; cbn [negb obind].
  - assert (i = k) by lia. subst i.
    rewrite aset_in_bounds by (rewrite length_app; cbn [length]; lia). rewrite Nat2Z.id.
    eexists. split; [done|]. rewrite length_insert. split; [done|].
    rewrite insert_app_r_alt by done. replace (k - length L)%nat with 0%nat by lia.
    cbn [insert list_insert]. rewrite take_app_ge by (unfold k; lia). 
    replace (S k - length L)%nat with 1%nat by (unfold k; lia). cbn.
    by rewrite take_0, (take_ge L k), (drop_ge L k) by (unfold k; lia).
  - rewrite bcopy_ok by (rewrite ?length_app; cbn [length]; lia). cbn [obind].
    replace (Z.to_nat (Z.of_nat i + 1)) with (S i) by lia. rewrite Nat2Z.id.
    replace (Z.to_nat (Z.of_nat k - Z.of_nat i)) with (k - i)%nat by lia.
    replace (Z.to_nat (Z.of_nat i + 1 + (Z.of_nat k - Z.of_nat i))) with (S k) by lia.
    destruct (lookup_lt_is_Some_2 L i) as [x Hx]; [unfold k in *; lia|].
    rewrite take_app_le by (unfold k in *; lia). rewrite (take_S_r _ _ _ Hx).
    rewrite drop_app_le by done. rewrite take_app_le by (rewrite length_drop; unfold k; lia).
    rewrite (take_ge (drop i L)) by (rewrite length_drop; unfold k; lia).
    rewrite drop_app_ge by (unfold k; lia).
    replace (S k - length L)%nat with 1%nat by (unfold k; lia). cbn [drop].
    rewrite <- app_assoc. cbn [app].
    rewrite aset_in_bounds by (rewrite !length_app, length_take; cbn [length];
      rewrite length_app, length_drop; unfold k in *; lia).
    rewrite Nat2Z.id. eexists. split; [done|].
    rewrite insert_app_r_alt by (rewrite length_take; lia).
    replace (i - length (take i L))%nat with 0%nat by (rewrite length_take; lia).
    cbn [insert list_insert]. split.
    + unfold k in *. list_len.
    + rewrite app_comm_cons, app_assoc. unfold k in *. rewrite take_app_le by list_len.
      apply take_ge. list_len.
Qed.

(** Closing the gap at [i]. *)
Lemma delete_elms es L i :
  length es = 63%nat → take (length L) es = L → (i < length L)%nat →
  ∃ es', (if negb (Z.of_nat i + 1 =? Z.of_nat (length L))
          then bcopy es (Z.of_nat i + 1) es (Z.of_nat i) (Z.of_nat (length L) - Z.of_nat i - 1)
          else Ok es) = Ok es' ∧
    length es' = 63%nat ∧ take (length L - 1) es' = take i L ++ drop (S i) L.
Proof.
  intros Hlen Htake Hi. set (k := length L) in *.
  assert (Hes : es = L ++ drop k es) by (rewrite <- Htake at 1; by rewrite take_drop).
  assert (Hk : (k ≤ 63)%nat) by (unfold k; rewrite <- Htake, length_take; lia).
  destruct (Z.of_nat i + 1 =? Z.of_nat k) eqn:E; bool_prop; cbn [negb].
  - exists es. split; [done|]. split; [done|]. rewrite Hes, take_app_le by (unfold k; lia).
    rewrite (drop_ge L) by (unfold k in *; lia). rewrite app_nil_r. f_equal. lia.
  - rewrite bcopy_ok by lia.
    replace (Z.to_nat (Z.of_nat k - Z.of_nat i - 1)) with (k - S i)%nat by lia.
    replace (Z.to_nat (Z.of_nat i + 1)) with (S i) by lia. rewrite Nat2Z.id.
    eexists. split; [done|].
    assert (Et : take i es = take i L) by (rewrite Hes; apply take_app_le; unfold k in *; lia).
    assert (Ed : take (k - S i) (drop (S i) es) = drop (S i) L).
    { rewrite Hes, drop_app_le by (unfold k in *; lia).
      rewrite take_app_le by (rewrite length_drop; unfold k; lia).
      apply take_ge. rewrite length_drop. unfold k. lia. }
    rewrite Et, Ed. split.
    + rewrite !length_app, length_take, !length_drop. unfold k in *. lia.
    + rewrite app_assoc, take_app_le by (rewrite length_app, length_take, length_drop; unfold k; lia).
      apply take_ge. rewrite length_app, length_take, length_drop. unfold k in *. lia.
Qed.

Section Tree.
Context (sep_ok : base_elm → Prop) (m : hmp) (root : Z) (height : nat)
  (contents : list btree_elm).

Notation subtree := (subtree sep_ok).
Notation internal_ok := (internal_ok sep_ok).
Notation children_ok := (children_ok sep_ok).
Notation located := (located sep_ok m root height contents).

(** The link from a node of the tree to its parent. *)
Lemma subtree_anc h p off lo hi L :
  subtree m h p off lo hi L → anc m 1 off = if p =? 0 then None else Some p.
Proof.
  intros Hs. apply subtree_node in Hs as (_ & n & Hn & Hp). cbn. rewrite Hn, Hp. done.
Qed.

(** Going up from a node of the tree ends. *)
Lemma located_anc h off par pi lb rb lo hi L bef aft :
  located h off par pi lb rb lo hi L bef aft → ∃ d, anc m d off = None.
Proof.
  induction 1 as [Hs|h off par pi lb rb lo hi n cs bef aft i e e' L Hup [d IH] Hn Hok He He' HL Hch].
  - exists 1%nat. by rewrite (subtree_anc _ _ _ _ _ _ Hs).
  - exists (S d). rewrite <- (Nat.add_1_l d), anc_add.
    pose proof (proj2 Hch i e e' L He He' HL) as Hs. rewrite (subtree_anc _ _ _ _ _ _ Hs).
    by destruct (off =? 0).
Qed.

(** No node of the tree is its own ancestor. *)
Lemma anc_acyclic d k off : anc m d off = None → anc m (S k) off ≠ Some off.
Proof.
  intros Hd Hc.
  assert (Hall : ∀ t, anc m (t * S k) off = Some off).
  { induction t as [|t IH]; [done|]. cbn [Nat.mul]. by rewrite anc_add, Hc. }
  specialize (Hall d). replace (d * S k)%nat with (d + d * k)%nat in Hall by lia.
  by rewrite anc_add, Hd in Hall.
Qed.

(** A subtree that is not above [x] does not see [x] change. *)
Lemma subtree_frame x nx h p off lo hi L :
  subtree m h p off lo hi L → (∀ k, anc m k x ≠ Some off) →
  subtree (put x nx m) h p off lo hi L.
Proof.
  induction 1 as [h p off lo hi n L Hoff Hn Hp Hok|h p off lo hi n cs Hoff Hn Hp Hok Hlink Hsub IH];
    intros Hx.
  - apply (subtree_leaf _ _ _ _ _ _ _ n); try done. cbn. rewrite lookup_insert_ne; [done|].
    intros ->. by apply (Hx 0%nat).
  - assert (Hne : x ≠ off) by (intros ->; by apply (Hx 0%nat)).
    assert (Hch : ∀ i e e' L, n_elms n !! i = Some e → n_elms n !! S i = Some e' → cs !! i = Some L →
      ∀ k, anc m k x ≠ Some (subtree_offset e)).
    { intros i e e' L He He' HL k Hk. apply (Hx (k + 1)%nat). rewrite anc_add, Hk.
      rewrite (subtree_anc _ _ _ _ _ _ (Hsub i e e' L He He' HL)).
      by destruct (off =? 0) eqn:E; bool_prop. }
    apply (subtree_internal _ _ _ _ _ _ _ n); try done.
    + cbn. by rewrite lookup_insert_ne.
    + intros i e L He HL. destruct (Hlink i e L He HL) as (nc & Hnc & Ht).
      exists nc. split; [|done]. cbn. rewrite lookup_insert_ne; [done|].
      intros ->. pose proof (lookup_lt_Some _ _ _ HL).
      destruct (internal_elm _ _ _ _ _ (S i) Hok) as [e' He']; [lia|].
      by apply (Hch i e e' L He He' HL 0%nat).
    + intros i e e' L He He' HL. apply (IH i e e' L He He' HL). by eapply Hch.
Qed.

(** Replacing a node by one that covers the same keys, wherever it is. *)
Lemma replace_node x nx : ∀ h off par pi lb rb lo hi L bef aft L',
  located h off par pi lb rb lo hi L bef aft →
  (∃ d, anc m d x = Some off) →
  (∃ n n', nodes m !! off = Some n ∧ nodes (put x nx m) !! off = Some n' ∧ n_type n' = n_type n) →
  subtree (put x nx m) h (default 0 par) off lo hi L' →
  subtree (put x nx m) height 0 root root_btree_beg root_btree_end (bef ++ L' ++ aft).
Proof.
  intros h off par pi lb rb lo hi L bef aft L' Hl. revert L'.
  induction Hl as [Hs|h off par pi lb rb lo hi n cs bef aft i e e' L Hup IH Hn Hok He He' HL Hch];
    intros L' [d Hd] (nc & nc' & Hnc & Hnc' & Hty) Hsub; [by rewrite app_nil_r|].
  cbn [default] in Hsub. pose proof (lookup_lt_Some _ _ _ HL) as Hlt.
  destruct (located_anc _ _ _ _ _ _ _ _ _ _ _ Hup) as [D HD].
  assert (Hoff : off ≠ 0).
  { apply located_subtree, subtree_node in Hup. tauto. }
  assert (Hupx : anc m (d + 1) x = Some off).
  { rewrite anc_add, Hd, (subtree_anc _ _ _ _ _ _ (proj2 Hch i e e' L He He' HL)).
    by destruct (off =? 0) eqn:E; bool_prop. }
  assert (Hxoff : x ≠ off).
  { intros ->. by apply (anc_acyclic D d off HD); rewrite <- Nat.add_1_r. }
  assert (Hconc : concat (<[i := L']> cs) = concat (take i cs) ++ L' ++ concat (drop (S i) cs)).
  { rewrite (insert_take_drop _ _ _ Hlt), concat_app, concat_cons. done. }
  replace ((bef ++ concat (take i cs)) ++ L' ++ concat (drop (S i) cs) ++ aft)
    with (bef ++ concat (<[i := L']> cs) ++ aft) by (by rewrite Hconc, <- !app_assoc).
  apply IH; [by exists (d + 1)%nat| |].
  { exists n, n. split; [done|]. split; [cbn; by rewrite lookup_insert_ne|done]. }
  (* the siblings are not above [x] *)
  assert (Hsib : ∀ j ej ej' Lj, j ≠ i → n_elms n !! j = Some ej → n_elms n !! S j = Some ej' →
    cs !! j = Some Lj → ∀ k, anc m k x ≠ Some (subtree_offset ej)).
  { intros j ej ej' Lj Hji Hj Hj' HLj k Hk.
    assert (Hupk : anc m (k + 1) x = Some off).
    { rewrite anc_add, Hk, (subtree_anc _ _ _ _ _ _ (proj2 Hch j ej ej' Lj Hj Hj' HLj)).
      by destruct (off =? 0) eqn:E; bool_prop. }
    assert (k = d).
    { destruct (Nat.lt_trichotomy k d) as [Hlt'|[->|Hlt']]; [exfalso|done|exfalso].
      - apply (anc_acyclic D (d - k - 1) off HD).
        replace (d + 1)%nat with (k + 1 + (S (d - k - 1)))%nat in Hupx by lia.
        by rewrite anc_add, Hupk in Hupx.
      - apply (anc_acyclic D (k - d - 1) off HD).
        replace (k + 1)%nat with (d + 1 + (S (k - d - 1)))%nat in Hupk by lia.
        by rewrite anc_add, Hupx in Hupk. }
    subst k. rewrite Hd in Hk. injection Hk as Hk. apply Hji. symmetry.
    pose proof (lookup_lt_Some _ _ _ HLj).
    by apply (in_distinct _ _ _ _ _ Hok i j e ej). }
  apply (subtree_internal _ _ _ _ _ _ _ n); try done.
  - cbn. by rewrite lookup_insert_ne.
  - apply located_subtree, subtree_node in Hup as (_ & n0 & Hn0 & Hp). by simplify_eq.
  - by rewrite length_insert.
  - intros j ej Lj Hj HLj. destruct (decide (j = i)) as [->|Hji].
    + simplify_eq. destruct (proj1 Hch i e L He HL) as (nc0 & Hnc0 & Ht).
      simplify_eq. exists nc'. split; [done|]. congruence.
    + rewrite list_lookup_insert_ne in HLj by done.
      destruct (proj1 Hch j ej Lj Hj HLj) as (ncj & Hncj & Htj). exists ncj. split; [|done].
      cbn. rewrite lookup_insert_ne; [done|]. intros ->.
      pose proof (lookup_lt_Some _ _ _ HLj).
      destruct (internal_elm _ _ _ _ _ (S j) Hok) as [ej' Hj']; [lia|].
      by apply (Hsib j ej ej' Lj Hji Hj Hj' HLj 0%nat).
  - intros j ej ej' Lj Hj Hj' HLj. destruct (decide (j = i)) as [->|Hji].
    + simplify_eq. rewrite list_lookup_insert_eq in HLj by done. by simplify_eq.
    + rewrite list_lookup_insert_ne in HLj by done.
      apply subtree_frame; [by apply (proj2 Hch j ej ej' Lj)|]. by apply (Hsib j ej ej' Lj).
Qed.

(** Replacing a leaf. *)
Lemma replace_leaf c bef L aft i n' L' off :
  leaf_position sep_ok m root height contents c bef L aft i → c_node c = Some off →
  (∀ n lo hi, nodes m !! off = Some n → leaf_ok n lo hi L →
     deref m (left_bound c) = Ok lo → deref m (right_bound c) = Ok hi →
     n_parent n' = n_parent n ∧ leaf_ok n' lo hi L') →
  subtree (put off n' m) height 0 root root_btree_beg root_btree_end (bef ++ L' ++ aft).
Proof.
  intros (h & off' & par & pi & lb & rb & lo & hi & n & Hl & Hat & Hn & Hok & _) Hc Hn'.
  destruct Hat as (Hc' & _ & _ & Hlb & Hrb). rewrite Hc in Hc'. injection Hc' as <-.
  destruct (located_bounds _ _ _ _ _ _ _ _ _ _ _ _ _ _ _ _ Hl) as [Hlo Hhi].
  destruct (Hn' n lo hi Hn Hok) as [Hp Hok']; [by rewrite Hlb|by rewrite Hrb|].
  apply (replace_node off n' h off par pi lb rb lo hi L bef aft L' Hl).
  - by exists 0%nat.
  - exists n, n'. cbn. rewrite lookup_insert_eq.
    by rewrite (lf_type _ _ _ _ Hok), (lf_type _ _ _ _ Hok').
  - destruct (subtree_node _ _ _ _ _ _ _ _ (located_subtree _ _ _ _ _ _ _ _ _ _ _ _ _ _ _ _ Hl))
      as (Hoff & n0 & Hn0 & Hp0). simplify_eq.
    apply (subtree_leaf _ _ _ _ _ _ _ n'); try done; [cbn; by rewrite lookup_insert_eq|congruence].
Qed.

(** The bounds of a leaf are not in the leaf. *)
Lemma bounds_elsewhere h off par pi lb rb lo hi L bef aft n nx :
  located h off par pi lb rb lo hi L bef aft → nodes m !! off = Some n → leaf_ok n lo hi L →
  deref (put off nx m) lb = Ok lo ∧ deref (put off nx m) rb = Ok hi.
Proof.
  intros Hl Hn Hok. destruct (located_bounds _ _ _ _ _ _ _ _ _ _ _ _ _ _ _ _ Hl) as [Hlb Hrb].
  inversion Hl as [|h' p par' pi' lb' rb' lo' hi' pn cs bef' aft' i e e' L' Hup Hpn Hok' He He' HL Hch];
    simplify_eq; [done|].
  assert (Hne : subtree_offset e ≠ p).
  { intros Heq. rewrite Heq, Hpn in Hn. injection Hn as ->. 
    pose proof (in_type _ _ _ _ _ Hok') as H1. rewrite (lf_type _ _ _ _ Hok) in H1. done. }
  cbn [deref] in *. unfold ondisk in *. cbn [nodes put]. by rewrite lookup_insert_ne.
Qed.

Lemma raise_mirror_tid_spec b n :
  raise_mirror_tid b n =
  (set_node_mirror_tid (Z.max (n_mirror_tid n) (Z.max (delete_tid b) (create_tid b))) n,
   bool_decide (n_mirror_tid n < Z.max (n_mirror_tid n) (Z.max (delete_tid b) (create_tid b)))).
Proof.
  destruct n as [p c t mt es nl]. unfold raise_mirror_tid. cbn [n_mirror_tid].
  destruct (mt <? delete_tid b) eqn:E1; cbn [n_mirror_tid set_node_mirror_tid];
    case_test; bool_prop; rewrite ?bool_decide_true, ?bool_decide_false by lia;
    unfold set_node_mirror_tid; cbn; do 3 f_equal; lia.
Qed.

(** * Properties *)

(** C22: [hammer_btree_insert] of an element at its place (above everything
    before the cursor, below everything after it, within the bounds of the
    leaf) in a leaf with room: all its assertions hold, and the tree stays well
    formed with the element added to its sequence.  The leaf's [mirror_tid] is
    raised to the transactions of the element, and reported if it was. *)
Theorem hammer_btree_insert_correct (c : cursor) bef L aft i elm off n lb rb
    (Hpos : leaf_position sep_ok m root height contents c bef L aft i)
    (Hnode : c_node c = Some off) (Hn : nodes m !! off = Some n)
    (Hroom : (length L < 63)%nat) (Hi : (i ≤ length L)%nat)
    (Hrec : btype (base elm) = HAMMER_BTREE_TYPE_RECORD)
    (Hlb : deref m (left_bound c) = Ok lb) (Hrb : deref m (right_bound c) = Ok rb)
    (Hin : hammer_btree_cmp lb (base elm) ≤ 0 ∧ hammer_btree_cmp (base elm) rb < 0)
    (Hbelow : Forall (λ e, hammer_btree_cmp (base e) (base elm) < 0) (take i L))
    (Habove : Forall (λ e, hammer_btree_cmp (base elm) (base e) < 0) (drop i L)) :
  ∃ doprop n', hammer_btree_insert m c elm = Ok (0, doprop, put off n' m) ∧
    subtree (put off n' m) height 0 root root_btree_beg root_btree_end
      (bef ++ (take i L ++ elm :: drop i L) ++ aft) ∧
    n_mirror_tid n' = Z.max (n_mirror_tid n) (Z.max (delete_tid (base elm)) (create_tid (base elm))) ∧
    doprop = bool_decide (n_mirror_tid n < n_mirror_tid n').
Proof.
  pose proof Hpos as (h & off' & par & pi & lbp & rbp & lo & hi & n0 & Hl & Hat & Hn0 & Hok & Hidx).
  destruct Hat as (Hc' & Hpar & Hpi & Hlbp & Hrbp). rewrite Hnode in Hc'. injection Hc' as <-.
  simplify_eq.
  destruct (located_bounds _ _ _ _ _ _ _ _ _ _ _ _ _ _ _ _ Hl) as [Hlb' Hrb'].
  rewrite Hlb' in Hlb. rewrite Hrb' in Hrb. simplify_eq.
  unfold hammer_btree_insert. rewrite Hnode. cbn [held obind]. unfold ondisk at 1. rewrite Hn.
  cbn [obind]. rewrite Hrec, (kkassert_true _ _ (eq_refl : negb (HAMMER_BTREE_TYPE_RECORD =? 0) = true)).
  rewrite (lf_type _ _ _ _ Hok), (kkassert_true _ _ (Z.eqb_refl _)), (lf_count _ _ _ _ Hok), Hidx.
  rewrite kkassert_true by (apply Z.ltb_lt; unfold HAMMER_BTREE_LEAF_ELMS; lia).
  destruct (insert_elms (n_elms n) L i elm) as (es' & Hes & Hlen' & Htake');
    [apply (lf_len _ _ _ _ Hok)|apply (lf_elms _ _ _ _ Hok)|done|done|].
  apply obind_Ok in Hes as (es1 & -> & Hes). cbn [obind]. rewrite Hes. cbn [obind].
  set (n1 := set_count (Z.of_nat (length L) + 1) (set_elms es' n)).
  rewrite raise_mirror_tid_spec.
  set (n2 := set_node_mirror_tid _ n1).
  destruct (bounds_elsewhere _ _ _ _ _ _ _ _ _ _ _ n n2 Hl Hn Hok) as [-> ->]. cbn [obind].
  rewrite kkassert_true by (apply Z.leb_le; lia).
  rewrite kkassert_true by (rewrite cmp_opp; apply Z.gtb_lt; lia).
  (* the neighbours *)
  assert (Hnew : ∀ j x, (take i L ++ elm :: drop i L) !! j = Some x → n_elms n2 !! j = Some x).
  { intros j x Hx. rewrite <- Htake' in Hx. apply lookup_take_Some in Hx as [Hx _]. exact Hx. }
  assert (Hli : length (take i L) = i) by (rewrite length_take; lia).
  assert (Hab : (if negb (Z.of_nat i =? 0)
    then let* e := aget (n_elms n2) (Z.of_nat i - 1) in Ok (hammer_btree_cmp (base e) (base elm) <? 0)
    else Ok true) = Ok true).
  { destruct (Z.of_nat i =? 0) eqn:E; bool_prop; [done|]. cbn [negb].
    destruct (lookup_lt_is_Some_2 (take i L) (i - 1)) as [x Hx]; [lia|].
    assert (Hx' : n_elms n2 !! (i - 1)%nat = Some x) by (apply Hnew; by apply lookup_app_l_Some).
    replace (Z.of_nat i - 1) with (Z.of_nat (i - 1)) by lia. rewrite (proj2 (aget_nat _ _ _) Hx').
    cbn [obind]. f_equal. apply Z.ltb_lt. by apply (Forall_lookup_1 _ _ _ _ Hbelow Hx). }
  rewrite Hab. cbn [obind]. rewrite (kkassert_true true) by done. clear Hab.
  assert (Hbe : (if negb (Z.of_nat i =? n_count n2 - 1)
    then let* e := aget (n_elms n2) (Z.of_nat i + 1) in Ok (hammer_btree_cmp (base e) (base elm) >? 0)
    else Ok true) = Ok true).
  { rewrite (eq_refl : n_count n2 = Z.of_nat (length L) + 1).
    destruct (_ =? _) eqn:E; bool_prop; [done|]. cbn [negb].
    destruct (lookup_lt_is_Some_2 (drop i L) 0) as [x Hx]; [rewrite length_drop; lia|].
    assert (Hx' : n_elms n2 !! S i = Some x).
    { apply Hnew. rewrite lookup_app_r by lia.
      by replace (S i - length (take i L))%nat with 1%nat by lia. }
    replace (Z.of_nat i + 1) with (Z.of_nat (S i)) by lia. rewrite (proj2 (aget_nat _ _ _) Hx').
    cbn [obind]. f_equal. rewrite cmp_opp. apply Z.gtb_lt.
    pose proof (Forall_lookup_1 _ _ _ _ Habove Hx) as Hc. cbv beta in Hc. lia. }
  rewrite Hbe. cbn [obind]. rewrite (kkassert_true true) by done.
  eexists _, n2. split; [done|]. split; [|done].
  apply (replace_leaf c bef L aft i n2 _ off Hpos Hnode).
  intros n' lo' hi' Hn' Hok' Hlo Hhi. rewrite Hlb' in Hlo. rewrite Hrb' in Hhi.
  simplify_eq. split; [done|].
  rewrite !Forall_forall in *. apply leaf_ok_intro; cbn.
  - apply (lf_type _ _ _ _ Hok).
  - done.
  - list_len.
  - rewrite <- Htake'. f_equal. list_len.
  - change (take i L ++ elm :: drop i L) with (take i L ++ [elm] ++ drop i L).
    pose proof (leaf_sorted _ _ _ _ Hok) as Hs.
    apply sorted_upto_app; [by apply sorted_upto_take| |].
    + apply sorted_upto_app; [|by apply sorted_upto_drop|].
      * intros x y a b Hxy Hy. cbn in Hy. lia.
      * intros a b Ha Hb. apply list_elem_of_singleton in Ha as ->. by apply cmp_lt, Habove.
    + intros a b Ha Hb. apply elem_of_app in Hb as [Hb|Hb].
      * apply list_elem_of_singleton in Hb as ->. by apply cmp_lt, Hbelow.
      * apply key_lt_trans with (base elm); apply cmp_lt; [by apply Hbelow|by apply Habove].
  - pose proof (lf_bounds _ _ _ _ Hok') as Hb. rewrite <- (take_drop i L) in Hb.
    apply Forall_app in Hb as [Hb1 Hb2]. apply Forall_app. split; [done|]. constructor; [|done].
    destruct Hin as [H1 H2]. split; [by apply cmp_le|by apply cmp_lt].
  - pose proof (lf_record _ _ _ _ Hok) as Hb. rewrite <- (take_drop i L) in Hb.
    apply Forall_app in Hb as [Hb1 Hb2]. apply Forall_app. split; [done|]. by constructor.
Qed.

(** C38: taking the element at the cursor out of its leaf leaves a well-formed
    tree with exactly that element gone from its sequence, even when the leaf
    becomes empty. *)
Theorem delete_element_correct (c : cursor) bef L aft i off
    (Hpos : leaf_position sep_ok m root height contents c bef L aft i)
    (Hnode : c_node c = Some off) (Hi : (i < length L)%nat) :
  ∃ n', delete_element m c = Ok (put off n' m) ∧
    subtree (put off n' m) height 0 root root_btree_beg root_btree_end
      (bef ++ (take i L ++ drop (S i) L) ++ aft).
Proof.
  pose proof Hpos as (h & off' & par & pi & lbp & rbp & lo & hi & n & Hl & Hat & Hn & Hok & Hidx).
  destruct Hat as (Hc' & Hpar & Hpi & Hlbp & Hrbp). rewrite Hnode in Hc'. injection Hc' as <-.
  unfold delete_element. rewrite Hnode. cbn [held obind]. unfold ondisk at 1. rewrite Hn. cbn [obind].
  rewrite (lf_type _ _ _ _ Hok), (kkassert_true _ _ (Z.eqb_refl _)), (lf_count _ _ _ _ Hok), Hidx.
  rewrite kkassert_true by (apply andb_true_iff; split; [apply Z.geb_le|apply Z.ltb_lt]; lia).
  destruct (delete_elms (n_elms n) L i) as (es' & Hes & Hlen' & Htake');
    [apply (lf_len _ _ _ _ Hok)|apply (lf_elms _ _ _ _ Hok)|done|].
  rewrite Hes. cbn [obind]. eexists. split; [done|].
  apply (replace_leaf c bef L aft i _ _ off Hpos Hnode).
  intros n' lo' hi' Hn' Hok' Hlo Hhi. simplify_eq. split; [done|].
  assert (Hlen2 : length (take i L ++ drop (S i) L) = (length L - 1)%nat) by list_len.
  apply leaf_ok_intro; cbn.
  - apply (lf_type _ _ _ _ Hok).
  - done.
  - lia.
  - rewrite Hlen2. exact Htake'.
  - pose proof (leaf_sorted _ _ _ _ Hok) as Hs.
    apply sorted_upto_app; [by apply sorted_upto_take|by apply sorted_upto_drop|].
    intros a b Ha Hb. apply list_elem_of_lookup in Ha as [x Hx], Hb as [y Hy].
    apply lookup_take_Some in Hx as [Hx ?]. rewrite lookup_drop in Hy.
    apply (Hs x (S i + y)%nat); [lia|by eapply lookup_lt_Some|done..].
  - pose proof (lf_bounds _ _ _ _ Hok') as Hb. apply Forall_app.
    split; [by apply Forall_take|by apply Forall_drop].
  - pose proof (lf_record _ _ _ _ Hok) as Hb. apply Forall_app.
    split; [by apply Forall_take|by apply Forall_drop].
Qed.

End Tree.
(** * Witnesses *)

(** A version between the two of the example tree. *)
Definition ex_mid : btree_elm := Elm (ex_key 36 38) 0 0 0 0.

Lemma hammer_btree_insert_correct_witness :
  ∃ n', hammer_btree_insert ex_tree (ex_scan_leaf 1) ex_mid = Ok (0, true, put 200 n' ex_tree) ∧
    subtree ex_ok (put 200 n' ex_tree) 1 0 100 root_btree_beg root_btree_end [ex_old; ex_mid; ex_new].
Proof.
  destruct (hammer_btree_insert_correct ex_ok ex_tree 100 1 [ex_old; ex_new] (ex_scan_leaf 1)
    [] [ex_old] [ex_new] 1 ex_mid 200 (mk_leaf 100 [ex_old]) (set_btype 76 root_btree_beg)
    (set_btype 76 (ex_key 40 0)) (ex_leaf_position 1))
    as (doprop & n' & Hrun & Hsub & Hm & ->);
    [done|reflexivity|cbn; lia|cbn; lia|done|reflexivity|reflexivity|by_decide|by_decide|by_decide|].
  exists n'. split; [|exact Hsub]. by rewrite Hrun, Hm.
Defined.

Lemma delete_element_correct_witness :
  ∃ n', delete_element ex_tree (ex_scan_leaf 0) = Ok (put 200 n' ex_tree) ∧
    subtree ex_ok (put 200 n' ex_tree) 1 0 100 root_btree_beg root_btree_end [ex_new].
Proof.
  apply (delete_element_correct ex_ok ex_tree 100 1 [ex_old; ex_new] (ex_scan_leaf 0)
    [] [ex_old] [ex_new] 0 200 (ex_leaf_position 0)); [done|cbn; lia].
Defined.

End HammerUpdate.
