(* ===== verification/Quad.v ===== *)
(** Quad arithmetic (sys/libkern): the 64-bit operations that compilers call
    on machines with 32-bit longs (pc32), built from operations on longs and on
    16-bit digits: addition, comparison, shifts, multiplication, division.

    A long is 32 bits wide and a quad 64; a quad_t is a signed value, u_quad_t
    an unsigned one.  The negation of the smallest quad wraps to itself, by the
    assumption on the machine's arithmetic that quad.h states. *)

From stdpp Require Import base list.
From S2P Require Import Prelude.

Module Quad.

(** * quad.h *)

Definition LONG_BITS : Z := 32.
Definition QUAD_BITS : Z := 64.
Definition HALF_BITS : Z := 16.

(** union uu, as its two longs. *)
Record uu := UU {
  ulH : Z;
  ulL : Z
}.

(** An assignment to [q] or [uq], and their values. *)
Definition of_q (a : Z) : uu := UU (u32 (Z.shiftr a LONG_BITS)) (u32 a).
Definition uq (x : uu) : Z := ulH x * 2 ^ LONG_BITS + ulL x.
Definition sq (x : uu) : Z := s64 (uq x).
Definition slH (x : uu) : Z := s32 (ulH x).

Definition HHALF (x : Z) : Z := Z.shiftr x HALF_BITS.
Definition LHALF (x : Z) : Z := Z.land x (Z.shiftl 1 HALF_BITS - 1).
Definition LHUP (x : Z) : Z := u32 (Z.shiftl x HALF_BITS).

(** The value of a C comparison. *)
Definition of_bool (b : bool) : Z := if b then 1 else 0.

(** * Addition, comparison, shifts *)

Definition __adddi3 (a b : Z) : Z :=
  let aa := of_q a in
  let bb := of_q b in
  let l := u32 (ulL aa + ulL bb) in
  let h := u32 (ulH aa + ulH bb + of_bool (l <? ulL bb)) in
  sq (UU h l).

Definition __subdi3 (a b : Z) : Z :=
  let aa := of_q a in
  let bb := of_q b in
  let l := u32 (ulL aa - ulL bb) in
  let h := u32 (ulH aa - ulH bb - of_bool (l >? ulL aa)) in
  sq (UU h l).

Definition __negdi2 (a : Z) : Z :=
  let aa := of_q a in
  let l := u32 (- ulL aa) in
  let h := u32 (u32 (- ulH aa) - of_bool (l >? 0)) in
  sq (UU h l).

Definition __cmpdi2 (a b : Z) : Z :=
  let aa := of_q a in
  let bb := of_q b in
  if slH aa <? slH bb then 0 else if slH aa >? slH bb then 2
  else if ulL aa <? ulL bb then 0 else if ulL aa >? ulL bb then 2 else 1.

Definition __ucmpdi2 (a b : Z) : Z :=
  let aa := of_q a in
  let bb := of_q b in
  if ulH aa <? ulH bb then 0 else if ulH aa >? ulH bb then 2
  else if ulL aa <? ulL bb then 0 else if ulL aa >? ulL bb then 2 else 1.

(** The shift counts are unsigned; in C a count of the width or more is
    undefined, and none of the shifts below has one. *)
Definition __ashldi3 (a shift : Z) : Z :=
  let aa := of_q a in
  let aa :=
    if shift >=? LONG_BITS then
      UU (if shift >=? QUAD_BITS then 0 else u32 (Z.shiftl (ulL aa) (shift - LONG_BITS))) 0
    else if shift >? 0 then
      UU (Z.lor (u32 (Z.shiftl (ulH aa) shift)) (Z.shiftr (ulL aa) (LONG_BITS - shift)))
        (u32 (Z.shiftl (ulL aa) shift))
    else aa in
  sq aa.

Definition __lshldi3 (a shift : Z) : Z :=
  let aa := of_q a in
  let aa :=
    if shift >=? LONG_BITS then
      UU (if shift >=? QUAD_BITS then 0 else u32 (Z.shiftl (ulL aa) (shift - LONG_BITS))) 0
    else if shift >? 0 then
      UU (Z.lor (u32 (Z.shiftl (ulH aa) shift)) (Z.shiftr (ulL aa) (LONG_BITS - shift)))
        (u32 (Z.shiftl (ulL aa) shift))
    else aa in
  sq aa.

Definition __ashrdi3 (a shift : Z) : Z :=
  let aa := of_q a in
  let aa :=
    if shift >=? LONG_BITS then
      let s := Z.shiftr (Z.shiftr (slH aa) (LONG_BITS - 1)) 1 in
      UU (u32 s) (u32 (if shift >=? QUAD_BITS then s else Z.shiftr (slH aa) (shift - LONG_BITS)))
    else if shift >? 0 then
      UU (u32 (Z.shiftr (slH aa) shift))
        (Z.lor (Z.shiftr (ulL aa) shift) (u32 (Z.shiftl (ulH aa) (LONG_BITS - shift))))
    else aa in
  sq aa.

Definition __lshrdi3 (a shift : Z) : Z :=
  let aa := of_q a in
  let aa :=
    if shift >=? LONG_BITS then
      UU 0 (if shift >=? QUAD_BITS then 0 else Z.shiftr (ulH aa) (shift - LONG_BITS))
    else if shift >? 0 then
      UU (Z.shiftr (ulH aa) shift)
        (Z.lor (Z.shiftr (ulL aa) shift) (u32 (Z.shiftl (ulH aa) (LONG_BITS - shift))))
    else aa in
  sq aa.

(** * Multiplication *)

(** The difference of two unsigned longs: its absolute value, and whether it
    is negative. *)
Definition absdiff (x y : Z) : Z * bool := if x >=? y then (x - y, false) else (y - x, true).

Definition __lmulq (u v : Z) : uu :=
  let u1 := HHALF u in
  let u0 := LHALF u in
  let v1 := HHALF v in
  let v0 := LHALF v in
  let low := u32 (u0 * v0) in
  if (u1 =? 0) && (v1 =? 0) then UU 0 low
  else
    let (udiff, nu) := absdiff u1 u0 in
    let (vdiff, nv) := absdiff v0 v1 in
    let neg := xorb nu nv in
    let mid := u32 (udiff * vdiff) in
    let high := u32 (u1 * v1) in
    let prodh := u32 (high + HHALF high) in
    let prodl := LHUP high in
    let (prodh, prodl) :=
      if neg then
        let was := prodl in
        let prodl := u32 (prodl - LHUP mid) in
        (u32 (prodh - (HHALF mid + of_bool (prodl >? was))), prodl)
      else
        let was := prodl in
        let prodl := u32 (prodl + LHUP mid) in
        (u32 (prodh + (HHALF mid + of_bool (prodl <? was))), prodl) in
    let was := prodl in
    let prodl := u32 (prodl + LHUP low) in
    let prodh := u32 (prodh + (HHALF low + of_bool (prodl <? was))) in
    let prodl := u32 (prodl + low) in
    let prodh := if prodl <? low then u32 (prodh + 1) else prodh in
    UU prodh prodl.

Definition __muldi3 (a b : Z) : Z :=
  let (u, nega) := if a >=? 0 then (of_q a, false) else (of_q (s64 (- a)), true) in
  let (v, negb_) := if b >=? 0 then (of_q b, false) else (of_q (s64 (- b)), true) in
  let negall := xorb nega negb_ in
  let prod :=
    if (ulH u =? 0) && (ulH v =? 0) then __lmulq (ulL u) (ulL v)
    else
      let low := __lmulq (ulL u) (ulL v) in
      let (udiff, nu) := absdiff (ulH u) (ulL u) in
      let (vdiff, nv) := absdiff (ulL v) (ulH v) in
      let negmid := xorb nu nv in
      let mid := u32 (udiff * vdiff) in
      let high := u32 (ulH u * ulH v) in
      UU (u32 (high + (if negmid then u32 (- mid) else mid) + ulL low + ulH low)) (ulL low) in
  if negall then s64 (- sq prod) else sq prod.

End Quad.
