(* ===== verification/QuadTheory.v ===== *)
(** Quad arithmetic, except division: every operation computes the 64-bit
    value its name stands for, whatever its arguments. *)

From stdpp Require Import base list.
From S2P Require Import Prelude Quad.

Module QuadTheory.
Import Quad.

#[local] Opaque Z.pow.

Lemma pow16 : 2 ^ 16 = 65536. Proof. reflexivity. Qed.
Lemma pow32 : 2 ^ 32 = 4294967296. Proof. reflexivity. Qed.
Lemma pow64 : 2 ^ 64 = 18446744073709551616. Proof. reflexivity. Qed.

(** ** Wraps as multiples *)

Lemma unsigned_of_ex w x : 0 ≤ w → ∃ k, unsigned_of w x = x + k * 2 ^ w ∧ is_u w (unsigned_of w x).
Proof.
  intros Hw. exists (- (x / 2 ^ w)). split; [|by apply unsigned_of_range].
  unfold unsigned_of. rewrite Z.mod_eq by (apply Z.pow_nonzero; lia). lia.
Qed.

Lemma u32_ex x : ∃ k, u32 x = x + k * 4294967296 ∧ 0 ≤ u32 x < 4294967296.
Proof. destruct (unsigned_of_ex 32 x) as (k & H1 & H2); [lia|]. rewrite pow32 in H1. exists k. by rewrite is_u32_iff in H2. Qed.

(** Values that differ by a multiple of the width have the same wrap. *)
Lemma s64_ex x y k : x = y + k * 2 ^ 64 → s64 x = s64 y.
Proof. intros ->. unfold signed_of. rewrite Z.mod_add by (apply Z.pow_nonzero; lia). done. Qed.

Lemma s64_small x : is_s 64 x → s64 x = x.
Proof. intros. by apply signed_of_small. Qed.

Lemma is_s64_iff x : is_s 64 x ↔ -9223372036854775808 ≤ x < 9223372036854775808.
Proof. done. Qed.

(** ** Halves *)

Record uu_ok (x : uu) : Prop := {
  uu_h : 0 ≤ ulH x < 4294967296;
  uu_l : 0 ≤ ulL x < 4294967296
}.

Lemma of_q_spec a : uu_ok (of_q a) ∧ ∃ k, uq (of_q a) = a + k * 2 ^ 64.
Proof.
  destruct (u32_ex (Z.shiftr a 32)) as (k1 & E1 & R1). destruct (u32_ex a) as (k2 & E2 & R2).
  split; [by split|]. unfold uq, of_q. cbn [ulH ulL]. unfold LONG_BITS. exists k1.
  rewrite E1. unfold unsigned_of. rewrite Z.shiftr_div_pow2 by lia. rewrite pow32, pow64.
  pose proof (Z.div_mod a 4294967296). lia.
Qed.

Lemma of_q_unsigned a : 0 ≤ a < 2 ^ 64 → uq (of_q a) = a.
Proof.
  intros H. destruct (of_q_spec a) as ([] & k & E). unfold uq in *. rewrite pow64 in *.
  unfold LONG_BITS in *. rewrite pow32 in *. lia.
Qed.

Lemma of_q_signed a : is_s 64 a → slH (of_q a) = a / 2 ^ 32 ∧ ulL (of_q a) = a mod 2 ^ 32.
Proof.
  intros H. unfold slH, of_q, LONG_BITS. cbn [ulH ulL]. split; [|done].
  rewrite signed_of_unsigned_of; [by rewrite Z.shiftr_div_pow2|lia|].
  rewrite Z.shiftr_div_pow2 by lia. unfold is_s. rewrite is_s64_iff in H. rewrite pow32.
  change (2 ^ (32 - 1)) with 2147483648.
  pose proof (Z.div_mod a 4294967296). pose proof (Z.mod_pos_bound a 4294967296). lia.
Qed.

Lemma uq_range x : uu_ok x → 0 ≤ uq x < 2 ^ 64.
Proof. intros []. unfold uq, LONG_BITS. rewrite pow32, pow64. lia. Qed.

Lemma sq_of_q a : is_s 64 a → sq (of_q a) = a.
Proof.
  intros H. destruct (of_q_spec a) as (_ & k & E). unfold sq. rewrite E, (s64_ex _ a k); [|done].
  by apply s64_small.
Qed.

(** ** Carries and borrows *)

(** [b] was added to the low long. *)
Lemma carry l b : 0 ≤ l < 2 ^ 32 → 0 ≤ b < 2 ^ 32 →
  u32 (l + b) + of_bool (u32 (l + b) <? l) * 2 ^ 32 = l + b.
Proof.
  intros Hl Hb. destruct (u32_ex (l + b)) as (k & E & R). rewrite pow32 in *. unfold of_bool.
  destruct (u32 (l + b) <? l) eqn:C; bool_prop; lia.
Qed.

Lemma borrow l b : 0 ≤ l < 2 ^ 32 → 0 ≤ b < 2 ^ 32 →
  u32 (l - b) - of_bool (u32 (l - b) >? l) * 2 ^ 32 = l - b.
Proof.
  intros Hl Hb. destruct (u32_ex (l - b)) as (k & E & R). rewrite pow32 in *. unfold of_bool.
  destruct (u32 (l - b) >? l) eqn:C; bool_prop; lia.
Qed.

Lemma __adddi3_spec a b : __adddi3 a b = s64 (a + b).
Proof.
  unfold __adddi3. destruct (of_q_spec a) as ([Ha1 Ha2] & ka & Ea). destruct (of_q_spec b) as ([Hb1 Hb2] & kb & Eb).
  pose proof (carry (ulL (of_q b)) (ulL (of_q a)) ltac:(by rewrite pow32) ltac:(by rewrite pow32)) as Hc.
  rewrite (Z.add_comm (ulL (of_q b))) in Hc.
  destruct (u32_ex (ulH (of_q a) + ulH (of_q b) + of_bool (u32 (ulL (of_q a) + ulL (of_q b)) <? ulL (of_q b)))) as (k & E & R).
  unfold sq, uq in *. cbn [ulH ulL]. unfold LONG_BITS in *. rewrite E.
  apply (s64_ex _ _ (k + ka + kb)). rewrite pow32, pow64 in *. lia.
Qed.

Lemma __subdi3_spec a b : __subdi3 a b = s64 (a - b).
Proof.
  unfold __subdi3. destruct (of_q_spec a) as ([Ha1 Ha2] & ka & Ea). destruct (of_q_spec b) as ([Hb1 Hb2] & kb & Eb).
  pose proof (borrow (ulL (of_q a)) (ulL (of_q b)) ltac:(by rewrite pow32) ltac:(by rewrite pow32)) as Hc.
  destruct (u32_ex (ulH (of_q a) - ulH (of_q b) - of_bool (u32 (ulL (of_q a) - ulL (of_q b)) >? ulL (of_q a)))) as (k & E & R).
  unfold sq, uq in *. cbn [ulH ulL]. unfold LONG_BITS in *. rewrite E.
  apply (s64_ex _ _ (k + ka - kb)). rewrite pow32, pow64 in *. lia.
Qed.

Lemma __negdi2_spec a : __negdi2 a = s64 (- a).
Proof.
  unfold __negdi2. destruct (of_q_spec a) as ([Ha1 Ha2] & ka & Ea).
  pose proof (borrow 0 (ulL (of_q a)) ltac:(by rewrite pow32) ltac:(by rewrite pow32)) as Hc.
  rewrite Z.sub_0_l in Hc.
  destruct (u32_ex (- ulH (of_q a))) as (k1 & E1 & R1).
  destruct (u32_ex (u32 (- ulH (of_q a)) - of_bool (u32 (- ulL (of_q a)) >? 0))) as (k & E & R).
  unfold sq, uq in *. cbn [ulH ulL]. unfold LONG_BITS in *. rewrite E, E1.
  apply (s64_ex _ _ (k + k1 - ka)). rewrite pow32, pow64 in *. lia.
Qed.


(** ** Multiplication *)

Lemma halves x : 0 ≤ x < 2 ^ 32 →
  x = HHALF x * 65536 + LHALF x ∧ 0 ≤ HHALF x < 65536 ∧ 0 ≤ LHALF x < 65536 ∧
  LHUP x = LHALF x * 65536.
Proof.
  intros Hx. rewrite pow32 in Hx. unfold HHALF, LHALF, LHUP, HALF_BITS.
  change (Z.shiftl 1 16 - 1) with (Z.ones 16). rewrite Z.land_ones by lia.
  rewrite Z.shiftr_div_pow2, Z.shiftl_mul_pow2 by lia. rewrite !pow16.
  pose proof (Z.div_mod x 65536). pose proof (Z.mod_pos_bound x 65536).
  destruct (u32_ex (x * 65536)) as (k & E & R). split_and!; try lia.
Qed.

Lemma absdiff_spec x y d n : absdiff x y = (d, n) → x - y = (if n then - d else d) ∧ 0 ≤ d.
Proof. unfold absdiff. case_test; bool_prop; intros [= <- <-]; lia. Qed.

(** The sign of the product of two differences. *)
Lemma absdiff_mul x1 y1 d1 n1 x2 y2 d2 n2 :
  absdiff x1 y1 = (d1, n1) → absdiff x2 y2 = (d2, n2) →
  (x1 - y1) * (x2 - y2) = if xorb n1 n2 then - (d1 * d2) else d1 * d2.
Proof.
  intros H1%absdiff_spec H2%absdiff_spec. destruct H1 as [-> _], H2 as [-> _]. destruct n1, n2; cbn [xorb]; lia.
Qed.

(** The product of the halves, from three products. *)
Lemma karatsuba u1 u0 v1 v0 B :
  (u1 * B + u0) * (v1 * B + v0) =
  u1 * v1 * (B * B) + (u1 * v1 + (u1 - u0) * (v0 - v1) + u0 * v0) * B + u0 * v0.
Proof. lia. Qed.

Lemma mul_small a b n : 0 ≤ a < n → 0 ≤ b < n → 0 ≤ a * b < n * n.
Proof. nia. Qed.

(** Adds or subtracts [m << 16], with the carry or the borrow. *)
Lemma add_up h l m : 0 ≤ l < 2 ^ 32 → 0 ≤ m < 2 ^ 32 →
  let l' := u32 (l + LHUP m) in
  let h' := u32 (h + (HHALF m + of_bool (l' <? l))) in
  uu_ok (UU h' l') ∧ ∃ k, h' * 2 ^ 32 + l' = h * 2 ^ 32 + l + m * 65536 + k * 2 ^ 64.
Proof.
  intros Hl Hm l' h'. destruct (halves m Hm) as (E1 & R1 & R2 & E2).
  pose proof (carry l (LHUP m) Hl ltac:(rewrite E2, pow32; lia)) as Hc. fold l' in Hc.
  destruct (u32_ex (l + LHUP m)) as (k1 & F1 & G1). fold l' in F1, G1.
  destruct (u32_ex (h + (HHALF m + of_bool (l' <? l)))) as (k2 & F2 & G2). fold h' in F2, G2.
  split; [by split|]. exists k2. rewrite pow32, pow64 in *. lia.
Qed.

Lemma sub_up h l m : 0 ≤ l < 2 ^ 32 → 0 ≤ m < 2 ^ 32 →
  let l' := u32 (l - LHUP m) in
  let h' := u32 (h - (HHALF m + of_bool (l' >? l))) in
  uu_ok (UU h' l') ∧ ∃ k, h' * 2 ^ 32 + l' = h * 2 ^ 32 + l - m * 65536 + k * 2 ^ 64.
Proof.
  intros Hl Hm l' h'. destruct (halves m Hm) as (E1 & R1 & R2 & E2).
  pose proof (borrow l (LHUP m) Hl ltac:(rewrite E2, pow32; lia)) as Hc. fold l' in Hc.
  destruct (u32_ex (l - LHUP m)) as (k1 & F1 & G1). fold l' in F1, G1.
  destruct (u32_ex (h - (HHALF m + of_bool (l' >? l)))) as (k2 & F2 & G2). fold h' in F2, G2.
  split; [by split|]. exists k2. rewrite pow32, pow64 in *. lia.
Qed.

(** The last addition, of a long. *)
Lemma add_long h l b : 0 ≤ h < 2 ^ 32 → 0 ≤ l < 2 ^ 32 → 0 ≤ b < 2 ^ 32 →
  let l' := u32 (l + b) in
  let h' := if l' <? b then u32 (h + 1) else h in
  uu_ok (UU h' l') ∧ ∃ k, h' * 2 ^ 32 + l' = h * 2 ^ 32 + l + b + k * 2 ^ 64.
Proof.
  intros Hh Hl Hb l' h'. pose proof (carry b l Hb Hl) as Hc. rewrite (Z.add_comm b) in Hc. fold l' in Hc.
  destruct (u32_ex (l + b)) as (k1 & F1 & G1). fold l' in F1, G1.
  destruct (u32_ex (h + 1)) as (k2 & F2 & G2). unfold h', of_bool in *. rewrite pow32, pow64 in *.
  destruct (l' <? b); (split; [split; cbn; lia|]); [exists k2|exists 0]; lia.
Qed.

(** [(high << 32) + (high << 16)]. *)
Lemma high_part m : 0 ≤ m < 2 ^ 32 →
  uu_ok (UU (u32 (m + HHALF m)) (LHUP m)) ∧
  ∃ k, u32 (m + HHALF m) * 2 ^ 32 + LHUP m = m * 2 ^ 32 + m * 65536 + k * 2 ^ 64.
Proof.
  intros Hm. destruct (halves m Hm) as (E1 & R1 & R2 & E2). destruct (u32_ex (m + HHALF m)) as (k & F & G).
  rewrite pow32, pow64 in *. split; [split; cbn; lia|]. exists k. lia.
Qed.

(** The sum in which [__lmulq] ends, for a middle product of either sign. *)
Lemma lmulq_sum (neg : bool) high mid low :
  0 ≤ high < 2 ^ 32 → 0 ≤ mid < 2 ^ 32 → 0 ≤ low < 2 ^ 32 →
  let total := high * 2 ^ 32 + (high + (if neg then - mid else mid) + low) * 65536 + low in
  0 ≤ total < 2 ^ 64 →
  let prodh := u32 (high + HHALF high) in
  let prodl := LHUP high in
  let (prodh, prodl) :=
    if neg then
      let was := prodl in
      let prodl := u32 (prodl - LHUP mid) in
      (u32 (prodh - (HHALF mid + of_bool (prodl >? was))), prodl)
    else
      let was := prodl in
      let prodl := u32 (prodl + LHUP mid) in
      (u32 (prodh + (HHALF mid + of_bool (prodl <? was))), prodl) in
  let was := prodl in
  let prodl := u32 (prodl + LHUP low) in
  let prodh := u32 (prodh + (HHALF low + of_bool (prodl <? was))) in
  let prodl := u32 (prodl + low) in
  let prodh := if prodl <? low then u32 (prodh + 1) else prodh in
  uu_ok (UU prodh prodl) ∧ uq (UU prodh prodl) = total.
Proof.
  intros Hh Hm Hl total Ht. cbv zeta. destruct (high_part high Hh) as ([H1 H2] & k1 & E1). cbn [ulH ulL] in H1, H2.
  set (h1 := u32 (high + HHALF high)) in *. set (l1 := LHUP high) in *.
  assert (∃ h2 l2 k2, (if neg then (u32 (h1 - (HHALF mid + of_bool (u32 (l1 - LHUP mid) >? l1))), u32 (l1 - LHUP mid))
      else (u32 (h1 + (HHALF mid + of_bool (u32 (l1 + LHUP mid) <? l1))), u32 (l1 + LHUP mid))) = (h2, l2) ∧
      uu_ok (UU h2 l2) ∧ h2 * 2 ^ 32 + l2 = h1 * 2 ^ 32 + l1 + (if neg then - mid else mid) * 65536 + k2 * 2 ^ 64)
    as (h2 & l2 & k2 & -> & [H3 H4] & E2).
  { destruct neg; [destruct (sub_up h1 l1 mid ltac:(by rewrite pow32) Hm) as (Hok & k & E)
                  |destruct (add_up h1 l1 mid ltac:(by rewrite pow32) Hm) as (Hok & k & E)];
      (eexists _, _, k; split; [done|]; split; [done|lia]). }
  cbn [ulH ulL] in H3, H4. destruct (add_up h2 l2 low ltac:(by rewrite pow32) Hl) as ([H5 H6] & k3 & E3). cbn [ulH ulL] in H5, H6.
  match goal with |- context [u32 (u32 (l2 + LHUP low) + low) <? low] =>
    set (l3 := u32 (l2 + LHUP low)) in *; set (h3 := u32 (h2 + (HHALF low + of_bool (l3 <? l2)))) in * end.
  destruct (add_long h3 l3 low ltac:(by rewrite pow32) ltac:(by rewrite pow32) Hl) as (Hok & k4 & E4).
  split; [done|]. pose proof (uq_range _ Hok) as Hr. unfold uq in *. cbn [ulH ulL] in *. unfold LONG_BITS in *.
  assert (∃ k, (if u32 (l3 + low) <? low then u32 (h3 + 1) else h3) * 2 ^ 32 + u32 (l3 + low) = total + k * 2 ^ 64) as (k & E).
  { exists (k1 + k2 + k3 + k4). unfold total. lia. }
  rewrite E in *. rewrite pow64 in *. lia.
Qed.

Lemma __lmulq_spec u v : 0 ≤ u < 2 ^ 32 → 0 ≤ v < 2 ^ 32 →
  uu_ok (__lmulq u v) ∧ uq (__lmulq u v) = u * v.
Proof.
  intros Hu Hv. destruct (halves u Hu) as (Eu & Ru1 & Ru0 & _). destruct (halves v Hv) as (Ev & Rv1 & Rv0 & _).
  assert (Hs : ∀ x, 0 ≤ x < 65536 * 65536 → u32 x = x).
  { intros x Hx. apply unsigned_of_small. rewrite is_u32_iff. lia. }
  pose proof (mul_small u v (2 ^ 32) Hu Hv) as Huv.
  unfold __lmulq. set (u1 := HHALF u) in *. set (u0 := LHALF u) in *. set (v1 := HHALF v) in *. set (v0 := LHALF v) in *.
  assert (Hlow : 0 ≤ u0 * v0 < 65536 * 65536) by (by apply mul_small).
  assert (Hhigh : 0 ≤ u1 * v1 < 65536 * 65536) by (by apply mul_small).
  rewrite (Hs (u0 * v0)), (Hs (u1 * v1)) by done.
  case_test.
  { bool_prop. match goal with H1 : u1 = 0, H2 : v1 = 0 |- _ => rewrite H1 in Eu; rewrite H2 in Ev end.
    split; [split; cbn; lia|]. unfold uq. cbn [ulH ulL]. rewrite Eu, Ev. lia. }
  destruct (absdiff u1 u0) as [ud nu] eqn:Ed1. destruct (absdiff v0 v1) as [vd nv] eqn:Ed2.
  pose proof (absdiff_mul _ _ _ _ _ _ _ _ Ed1 Ed2) as Hmid.
  destruct (absdiff_spec _ _ _ _ Ed1) as [Hd1 Hud]. destruct (absdiff_spec _ _ _ _ Ed2) as [Hd2 Hvd].
  assert (Hm : 0 ≤ ud * vd < 65536 * 65536) by (apply mul_small; destruct nu, nv; lia).
  rewrite (Hs (ud * vd)) by done.
  assert (Et : u1 * v1 * 2 ^ 32 + (u1 * v1 + (if xorb nu nv then - (ud * vd) else ud * vd) + u0 * v0) * 65536 + u0 * v0 = u * v).
  { rewrite <- Hmid, Eu, Ev, (karatsuba u1 u0 v1 v0 65536), pow32. lia. }
  pose proof (lmulq_sum (xorb nu nv) (u1 * v1) (ud * vd) (u0 * v0)) as Hsum. cbv zeta in Hsum.
  rewrite Et in Hsum. destruct (xorb nu nv); apply Hsum; rewrite ?pow32, ?pow64 in *; lia.
Qed.


(** The magnitude of a signed quad. *)
Lemma magnitude a :
  is_s 64 a →
  ∃ u neg, (if a >=? 0 then (of_q a, false) else (of_q (s64 (- a)), true)) = (u, neg) ∧ uu_ok u ∧
    uq u = Z.abs a ∧ a = if neg then - Z.abs a else Z.abs a.
Proof.
  intros Ha. rewrite is_s64_iff in Ha. pose proof pow64 as P. case_test; bool_prop.
  - eexists _, false. split; [done|]. split; [apply of_q_spec|]. rewrite of_q_unsigned; lia.
  - eexists _, true. split; [done|]. split; [apply of_q_spec|]. split; [|lia].
    destruct (decide (a = -9223372036854775808)) as [->|].
    + reflexivity.
    + rewrite s64_small by (rewrite is_s64_iff; lia). rewrite of_q_unsigned; lia.
Qed.

Lemma s64_opp x : s64 (- s64 x) = s64 (- x).
Proof.
  assert (∃ k, s64 x = x + k * 2 ^ 64) as (k & E).
  { unfold signed_of. exists (- (x / 2 ^ 64) - (if x mod 2 ^ 64 <? 2 ^ (64 - 1) then 0 else 1)).
    rewrite Z.mod_eq by (rewrite pow64; lia). destruct (_ <? _); lia. }
  apply (s64_ex _ _ (- k)). lia.
Qed.

Lemma __muldi3_spec a b : is_s 64 a → is_s 64 b → __muldi3 a b = s64 (a * b).
Proof.
  intros Ha Hb. unfold __muldi3.
  destruct (magnitude a Ha) as (u & na & -> & [Hu1 Hu2] & Eu & Ea).
  destruct (magnitude b Hb) as (v & nb & -> & [Hv1 Hv2] & Ev & Eb).
  set (prod := if (ulH u =? 0) && (ulH v =? 0) then _ else _).
  assert (∃ k, uq prod = Z.abs a * Z.abs b + k * 2 ^ 64) as (k & Ep).
  { destruct (__lmulq_spec (ulL u) (ulL v)) as ([Hl1 Hl2] & El); [by rewrite pow32..|].
    unfold uq, LONG_BITS in Eu, Ev, El. unfold prod. case_test.
    - bool_prop. exists 0. rewrite <- Eu, <- Ev. unfold uq, LONG_BITS. rewrite El.
      match goal with H1 : ulH u = 0, H2 : ulH v = 0 |- _ => rewrite H1, H2 end. lia.
    - destruct (absdiff (ulH u) (ulL u)) as [ud nu] eqn:Ed1. destruct (absdiff (ulL v) (ulH v)) as [vd nv] eqn:Ed2.
      pose proof (absdiff_mul _ _ _ _ _ _ _ _ Ed1 Ed2) as Hmid.
      destruct (u32_ex (ud * vd)) as (k1 & E1 & _). destruct (u32_ex (ulH u * ulH v)) as (k2 & E2 & _).
      destruct (u32_ex (- u32 (ud * vd))) as (k3 & E3 & _).
      set (mid := if xorb nu nv then u32 (- u32 (ud * vd)) else u32 (ud * vd)).
      assert (∃ k4, mid = (ulH u - ulL u) * (ulL v - ulH v) + k4 * 4294967296) as (k4 & E4).
      { unfold mid. destruct (xorb nu nv); [exists (k3 - k1)|exists k1]; lia. }
      set (low := __lmulq (ulL u) (ulL v)) in *.
      destruct (u32_ex (u32 (ulH u * ulH v) + mid + ulL low + ulH low)) as (k5 & E5 & _).
      exists (k2 + k4 + k5 - ulH low - ulH u * ulH v).
      rewrite <- Eu, <- Ev. unfold uq, LONG_BITS. cbn [ulH ulL]. rewrite E5, E4, E2.
      rewrite pow32, pow64 in *. rewrite (karatsuba (ulH u) (ulL u) (ulH v) (ulL v) 4294967296). lia. }
  clearbody prod. unfold sq. rewrite Ep, (s64_ex _ (Z.abs a * Z.abs b) k eq_refl).
  destruct na, nb; cbn [xorb]; rewrite ?s64_opp; f_equal; lia.
Qed.


(** ** Shifts *)

(** [2^s] as a number [p], with its cofactor [q] in [2^32]. *)
Lemma pow_split s : 0 ≤ s ≤ 32 → 0 < 2 ^ s ∧ 0 < 2 ^ (32 - s) ∧ 2 ^ s * 2 ^ (32 - s) = 4294967296.
Proof.
  intros Hs. split_and!; try (apply Z.pow_pos_nonneg; lia).
  rewrite <- Z.pow_add_r by lia. replace (s + (32 - s)) with 32 by lia. apply pow32.
Qed.

(** Bits side by side. *)
Lemma lor_beside x y s : 0 ≤ s → 0 ≤ y < 2 ^ s → Z.lor (x * 2 ^ s) y = x * 2 ^ s + y.
Proof.
  intros Hs Hy. pose proof (lor_split x 0 0 y s Hs) as H. rewrite Z.lor_0_r, Z.lor_0_l, Z.mul_0_l, Z.add_0_l, Z.add_0_r in H.
  apply H; unfold is_u; lia.
Qed.

(** A long shifted left keeps its low bits. *)
Lemma shl_long x s : 0 ≤ s ≤ 32 → u32 (Z.shiftl x s) = (x mod 2 ^ (32 - s)) * 2 ^ s.
Proof.
  intros Hs. destruct (pow_split s Hs) as (H1 & H2 & H3). rewrite Z.shiftl_mul_pow2 by lia.
  unfold unsigned_of. rewrite pow32, <- H3, (Z.mul_comm (2 ^ s) (2 ^ (32 - s))), Z.mul_mod_distr_r by lia. done.
Qed.

Lemma shr_long x s : 0 ≤ x < 2 ^ 32 → 0 ≤ s ≤ 32 → Z.shiftr x s = x / 2 ^ s ∧ 0 ≤ x / 2 ^ s < 2 ^ (32 - s).
Proof.
  intros Hx Hs. destruct (pow_split s Hs) as (H1 & H2 & H3). rewrite Z.shiftr_div_pow2 by lia. split; [done|].
  split; [apply Z.div_pos; lia|]. apply Z.div_lt_upper_bound; [done|]. rewrite pow32 in Hx. lia.
Qed.

Lemma shift_left_spec a shift : 0 ≤ shift → __ashldi3 a shift = s64 (a * 2 ^ shift).
Proof.
  intros Hs. unfold __ashldi3, LONG_BITS, QUAD_BITS. destruct (of_q_spec a) as ([Ha1 Ha2] & k & E).
  unfold sq, uq, LONG_BITS in *. case_test; bool_prop; [cbn [ulH ulL]; case_test; bool_prop|case_test; bool_prop; cbn [ulH ulL]].
  - apply (s64_ex _ _ (- (a * 2 ^ (shift - 64)))). replace shift with (64 + (shift - 64)) at 1 by lia.
    rewrite Z.pow_add_r by lia. lia.
  - rewrite shl_long by lia. replace (32 - (shift - 32)) with (64 - shift) by lia.
    set (q := 2 ^ (64 - shift)). set (p := 2 ^ (shift - 32)).
    assert (Hp : 2 ^ shift = p * 2 ^ 32) by (unfold p; rewrite <- Z.pow_add_r by lia; f_equal; lia).
    assert (Hq : q * p = 2 ^ 32) by (unfold p, q; rewrite <- Z.pow_add_r by lia; f_equal; lia).
    assert (Hq0 : q ≠ 0) by (apply Z.pow_nonzero; lia).
    set (h := ulH (of_q a)) in *. set (l := ulL (of_q a)) in *. set (t := l / q).
    rewrite (Z.mod_eq l q Hq0). fold t. rewrite Hp. rewrite pow32, pow64 in *.
    apply (s64_ex _ _ (- t - h * p + k * p * 4294967296)). rewrite pow64.
    assert (E2 : (h * 4294967296 + l) * p = (a + k * 18446744073709551616) * p) by (by rewrite E).
    assert (E3 : q * p * t = 4294967296 * t) by (by rewrite Hq). lia.
  - rewrite !shl_long by lia. destruct (shr_long (ulL (of_q a)) (32 - shift)) as [F1 R1]; [by rewrite pow32|lia|].
    replace (32 - (32 - shift)) with shift in R1 by lia. rewrite F1, lor_beside by (done || lia).
    destruct (pow_split shift) as (H1 & H2 & H3); [lia|]. set (p := 2 ^ shift) in *. set (q := 2 ^ (32 - shift)) in *.
    set (h := ulH (of_q a)) in *. set (l := ulL (of_q a)) in *.
    rewrite (Z.mod_eq l q), (Z.mod_eq h q) by lia. set (t := l / q) in *. set (t' := h / q) in *.
    rewrite pow32, pow64 in *. apply (s64_ex _ _ (- t' + k * p)). rewrite pow64.
    assert (E2 : (h * 4294967296 + l) * p = (a + k * 18446744073709551616) * p) by (by rewrite E).
    assert (E3 : p * q * t = 4294967296 * t) by (by rewrite H3).
    assert (E4 : p * q * t' = 4294967296 * t') by (by rewrite H3). lia.
  - replace shift with 0 by lia. rewrite Z.pow_0_r, Z.mul_1_r. rewrite E. by apply (s64_ex _ _ k).
Qed.


Lemma __lshldi3_ashldi3 a shift : __lshldi3 a shift = __ashldi3 a shift.
Proof. done. Qed.

(** The bits a right shift moves from the high long to the low one. *)
Lemma funnel h l s : 0 < s < 32 → 0 ≤ l < 2 ^ 32 →
  Z.lor (Z.shiftr l s) ((h mod 2 ^ s) * 2 ^ (32 - s)) + (h / 2 ^ s) * 2 ^ 32 = (h * 2 ^ 32 + l) / 2 ^ s.
Proof.
  intros Hs Hl. destruct (pow_split s) as (H1 & H2 & H3); [lia|].
  destruct (shr_long l s Hl) as [-> R]; [lia|]. rewrite Z.lor_comm, lor_beside by (done || lia).
  rewrite pow32. set (p := 2 ^ s) in *. set (q := 2 ^ (32 - s)) in *.
  rewrite <- H3. replace (h * (p * q) + l) with ((h * q) * p + l) by lia.
  rewrite Z.div_add_l by lia. rewrite (Z.mod_eq h p) by lia. lia.
Qed.

Lemma mod_u32 x s : 0 ≤ s ≤ 32 → u32 x mod 2 ^ s = x mod 2 ^ s.
Proof.
  intros Hs. destruct (pow_split s Hs) as (H1 & H2 & H3). unfold unsigned_of. rewrite pow32, <- H3.
  rewrite (Z.rem_mul_r x (2 ^ s) (2 ^ (32 - s))) by lia.
  rewrite (Z.mul_comm (2 ^ s) ((x / 2 ^ s) mod _)), Z.mod_add by lia. apply Z.mod_mod. lia.
Qed.

Lemma __lshrdi3_spec a shift : 0 ≤ shift → __lshrdi3 a shift = s64 (uq (of_q a) / 2 ^ shift).
Proof.
  intros Hs. unfold __lshrdi3, LONG_BITS, QUAD_BITS, sq. f_equal. destruct (of_q_spec a) as ([Ha1 Ha2] & _).
  unfold uq, LONG_BITS. set (h := ulH (of_q a)) in *. set (l := ulL (of_q a)) in *.
  case_test; bool_prop; [cbn [ulH ulL]; case_test; bool_prop|case_test; bool_prop; cbn [ulH ulL]].
  - symmetry. apply Z.div_small. pose proof (Z.pow_le_mono_r 2 64 shift). rewrite pow32, pow64 in *. lia.
  - rewrite Z.mul_0_l, Z.add_0_l, Z.shiftr_div_pow2 by lia.
    replace shift with (32 + (shift - 32)) at 2 by lia. rewrite Z.pow_add_r by lia.
    rewrite <- Z.div_div by (apply Z.pow_nonzero || apply Z.pow_pos_nonneg; lia).
    rewrite Z.div_add_l, (Z.div_small l) by (rewrite pow32; lia). f_equal. lia.
  - rewrite <- funnel by (rewrite ?pow32; lia). rewrite shl_long by lia. replace (32 - (32 - shift)) with shift by lia.
    rewrite Z.shiftr_div_pow2 by lia. rewrite Z.shiftr_div_pow2 by lia. lia.
  - replace shift with 0 by lia. by rewrite Z.pow_0_r, Z.div_1_r.
Qed.

(** [UU] of the two longs of a signed quad. *)
Lemma sq_longs t h l : is_s 64 t → h = t / 2 ^ 32 → l = u32 t → sq (UU (u32 h) l) = t.
Proof.
  intros Ht -> ->. transitivity (sq (of_q t)); [|by apply sq_of_q].
  unfold of_q, LONG_BITS. by rewrite Z.shiftr_div_pow2 by lia.
Qed.

Lemma div_range a s : is_s 64 a → 0 ≤ s → is_s 64 (a / 2 ^ s).
Proof.
  intros Ha Hs. rewrite is_s64_iff in *. assert (0 < 2 ^ s) by (apply Z.pow_pos_nonneg; lia). split.
  - apply Z.div_le_lower_bound; [done|]. nia.
  - apply Z.div_lt_upper_bound; [done|]. nia.
Qed.

Lemma sign_div a s : is_s 64 a → 63 ≤ s → a / 2 ^ s = if a <? 0 then -1 else 0.
Proof.
  intros Ha Hs. rewrite is_s64_iff in Ha. pose proof (Z.pow_le_mono_r 2 63 s) as Hp.
  change (2 ^ 63) with 9223372036854775808 in Hp. case_test; bool_prop.
  - symmetry. apply Z.div_unique with (a + 2 ^ s); lia.
  - apply Z.div_small. lia.
Qed.

Lemma __ashrdi3_spec a shift : is_s 64 a → 0 ≤ shift → __ashrdi3 a shift = a / 2 ^ shift.
Proof.
  intros Ha Hs. unfold __ashrdi3, LONG_BITS, QUAD_BITS. destruct (of_q_signed a Ha) as [Eh El]. rewrite Eh, El.
  assert (Hdd : ∀ x y, 0 ≤ x → 0 ≤ y → a / 2 ^ x / 2 ^ y = a / 2 ^ (x + y)).
  { intros x y Hx Hy. rewrite Z.pow_add_r, Z.div_div by (lia || apply Z.pow_nonzero || apply Z.pow_pos_nonneg; lia). done. }
  pose proof (div_range a shift Ha Hs) as Hr. case_test; bool_prop.
  - rewrite !Z.shiftr_div_pow2, !Hdd by lia. replace (32 + (32 - 1) + 1) with 64 by lia. case_test; bool_prop.
    + rewrite !sign_div by (done || lia). case_test; done.
    + replace (32 + (shift - 32)) with shift by lia. apply sq_longs; [done| |done].
      rewrite Hdd, !sign_div by (done || lia). done.
  - case_test; bool_prop.
    + rewrite Z.shiftr_div_pow2 by lia. apply sq_longs; [done|rewrite !Hdd by lia; f_equal; f_equal; lia|].
      rewrite shl_long by lia. replace (32 - (32 - shift)) with shift by lia.
      assert (Hl : 0 ≤ a mod 2 ^ 32 < 2 ^ 32) by (apply Z.mod_pos_bound; rewrite pow32; lia).
      assert (Eu : ulH (of_q a) = u32 (a / 2 ^ 32)) by (unfold of_q, LONG_BITS; by rewrite Z.shiftr_div_pow2 by lia).
      pose proof (funnel (a / 2 ^ 32) (a mod 2 ^ 32) shift ltac:(lia) Hl) as F.
      rewrite Eu, mod_u32 by lia.
      replace (a / 2 ^ 32 * 2 ^ 32 + a mod 2 ^ 32) with a in F by (rewrite Z.mul_comm; apply Z.div_mod; by rewrite pow32).
      rewrite <- F. unfold unsigned_of. rewrite Z.mod_add by (by rewrite pow32).
      symmetry. apply Z.mod_small. destruct (shr_long (a mod 2 ^ 32) shift Hl) as [-> R]; [lia|].
      destruct (pow_split shift) as (H1 & H2 & H3); [lia|]. rewrite Z.lor_comm, lor_beside by (done || lia).
      pose proof (Z.mod_pos_bound (a / 2 ^ 32) (2 ^ shift) H1) as Hm. rewrite pow32 in *.
      set (x := (a / 4294967296) mod 2 ^ shift) in *. set (q := 2 ^ (32 - shift)) in *.
      assert (x * q ≤ (2 ^ shift - 1) * q) by (apply Z.mul_le_mono_nonneg_r; lia).
      assert (0 ≤ x * q) by (apply Z.mul_nonneg_nonneg; lia). lia.
    + replace shift with 0 by lia. rewrite Z.pow_0_r, Z.div_1_r. by apply sq_of_q.
Qed.

(** ** Comparison *)

(** The answer of the compiler's comparison calls. *)
Definition cmp_value (a b : Z) : Z := match a ?= b with Lt => 0 | Eq => 1 | Gt => 2 end.

Lemma cmp_value_lex h1 l1 h2 l2 : 0 ≤ l1 < 2 ^ 32 → 0 ≤ l2 < 2 ^ 32 →
  (if h1 <? h2 then 0 else if h1 >? h2 then 2 else if l1 <? l2 then 0 else if l1 >? l2 then 2 else 1) =
  cmp_value (h1 * 2 ^ 32 + l1) (h2 * 2 ^ 32 + l2).
Proof.
  intros H1 H2. rewrite pow32 in *. unfold cmp_value.
  destruct (Z.compare_spec (h1 * 4294967296 + l1) (h2 * 4294967296 + l2)); repeat (case_test; bool_prop; try lia).
Qed.

Lemma __cmpdi2_spec a b : is_s 64 a → is_s 64 b → __cmpdi2 a b = cmp_value a b.
Proof.
  intros Ha Hb. unfold __cmpdi2. destruct (of_q_signed a Ha) as [-> ->]. destruct (of_q_signed b Hb) as [-> ->].
  rewrite cmp_value_lex by (apply Z.mod_pos_bound; by rewrite pow32).
  f_equal; rewrite Z.mul_comm; symmetry; apply Z.div_mod; by rewrite pow32.
Qed.

Lemma __ucmpdi2_spec a b : 0 ≤ a < 2 ^ 64 → 0 ≤ b < 2 ^ 64 → __ucmpdi2 a b = cmp_value a b.
Proof.
  intros Ha Hb. unfold __ucmpdi2. rewrite <- (of_q_unsigned a Ha) at 5. rewrite <- (of_q_unsigned b Hb) at 5.
  destruct (of_q_spec a) as ([Ha1 Ha2] & _). destruct (of_q_spec b) as ([Hb1 Hb2] & _).
  rewrite cmp_value_lex by (by rewrite pow32). done.
Qed.


Lemma uq_of_q a : uq (of_q a) = u64 a.
Proof.
  destruct (of_q_spec a) as (Hok & k & E). pose proof (uq_range _ Hok). rewrite <- (unsigned_of_small 64 (uq (of_q a))) by done.
  rewrite E. unfold unsigned_of. rewrite Z.mod_add by (rewrite pow64; lia). done.
Qed.

(** * The operations *)

(** C33: on machines with 32-bit longs, sums, differences, products, negations
    and left shifts of quads are the exact values modulo 2^64 (as signed
    quads); right shifts divide by the power of two, rounding down, with the
    sign kept by the arithmetic one and dropped by the logical one, for counts
    of the width and more as well; comparisons order the signed and the
    unsigned values. *)
Theorem quad_arithmetic a b shift : is_s 64 a → is_s 64 b → 0 ≤ shift →
  __adddi3 a b = s64 (a + b) ∧ __subdi3 a b = s64 (a - b) ∧ __negdi2 a = s64 (- a) ∧
  __muldi3 a b = s64 (a * b) ∧
  __ashldi3 a shift = s64 (a * 2 ^ shift) ∧ __lshldi3 a shift = s64 (a * 2 ^ shift) ∧
  __ashrdi3 a shift = a / 2 ^ shift ∧ __lshrdi3 a shift = s64 (u64 a / 2 ^ shift) ∧
  __cmpdi2 a b = cmp_value a b ∧ __ucmpdi2 (u64 a) (u64 b) = cmp_value (u64 a) (u64 b).
Proof.
  intros Ha Hb Hs. rewrite __lshldi3_ashldi3, <- (uq_of_q a) at 1.
  split_and!; auto using __adddi3_spec, __subdi3_spec, __negdi2_spec, __muldi3_spec, shift_left_spec, __ashrdi3_spec, __lshrdi3_spec, __cmpdi2_spec.
  apply __ucmpdi2_spec; by apply unsigned_of_range.
Qed.

Lemma quad_arithmetic_witness :
  __muldi3 (-9223372036854775807) 3000000000 = s64 (-9223372036854775807 * 3000000000) ∧
  __ashrdi3 (-9223372036854775807) 40 = -8388608.
Proof.
  destruct (quad_arithmetic (-9223372036854775807) 3000000000 40) as (_ & _ & _ & Hm & _ & _ & Hr & _);
    [by_decide|by_decide|lia|]. split; [exact Hm|exact Hr].
Defined.

End QuadTheory.
