(* ===== verification/QuadDiv.v ===== *)
(** Division of quads (sys/libkern/qdivrem.c and its four callers): long
    division in base 2^16, Knuth's Algorithm D.

    The three arrays of [__qdivrem] are lists and its pointers [u], [v] and
    [q] into them are indices, so every access is checked; a division is
    [Undef] when its divisor is 0.  What the stack holds in the digits that
    are not initialised is a variable of the section. *)

From stdpp Require Import base list.
From S2P Require Import Prelude Quad QuadTheory.

Module QuadDiv.
Import Quad.

(** [/] and [%] on unsigned longs. *)
Definition udiv (x y : Z) : outcome Z := if y =? 0 then Undef DivByZero else Ok (x / y).
Definition umod (x y : Z) : outcome Z := if y =? 0 then Undef DivByZero else Ok (x mod y).

Definition B : Z := Z.shiftl 1 HALF_BITS.
Definition COMBINE (a b : Z) : Z := Z.lor (u32 (Z.shiftl a HALF_BITS)) b.

(** A conversion to [digit], an unsigned short. *)
Definition digit (x : Z) : Z := u16 x.

(** [shl(&a[p], len, sh)], from index [i] on, [len] iterations before the
    last digit. *)
Fixpoint shl_from (len : nat) (a : list Z) (p i sh : Z) : outcome (list Z) :=
  match len with
  | O =>
      let* x := aget a (p + i) in
      aset a (p + i) (digit (LHALF (Z.shiftl x sh)))
  | S len =>
      let* x := aget a (p + i) in
      let* y := aget a (p + (i + 1)) in
      let* a := aset a (p + i) (digit (Z.lor (LHALF (Z.shiftl x sh)) (Z.shiftr y (HALF_BITS - sh)))) in
      shl_from len a p (i + 1) sh
  end.

Definition shl (a : list Z) (p len sh : Z) : outcome (list Z) := shl_from (Z.to_nat len) a p 0 sh.

(** The loop that counts the leading zeros of the divisor: the position of
    [v] and the number of digits, or that one digit is left. *)
Inductive divisor :=
  | OneDigit (v : Z)
  | Digits (v n : Z).

Fixpoint skip_v (fuel : nat) (vspace : list Z) (v n : Z) : outcome divisor :=
  match fuel with
  | O => NoFuel
  | S fuel =>
      let* x := aget vspace (v + 1) in
      if x =? 0 then
        let n := n - 1 in
        if n =? 1 then Ok (OneDigit v) else skip_v fuel vspace (v + 1) n
      else Ok (Digits v n)
  end.

(** The same for the dividend: the position of [u] and [m]. *)
Fixpoint skip_u (fuel : nat) (uspace : list Z) (u m : Z) : outcome (Z * Z) :=
  match fuel with
  | O => NoFuel
  | S fuel =>
      let* x := aget uspace (u + 1) in
      if x =? 0 then skip_u fuel uspace (u + 1) (m - 1) else Ok (u, m)
  end.

(** [for (i = k; --i >= 0;) q[i] = 0;] *)
Fixpoint zero_q (k : nat) (qspace : list Z) (q : Z) : outcome (list Z) :=
  match k with
  | O => Ok qspace
  | S i => let* qspace := aset qspace (q + Z.of_nat i) 0 in zero_q i qspace q
  end.

(** D1: the shift that makes the first digit of the divisor large. *)
Fixpoint normal_shift (fuel : nat) (t d : Z) : outcome Z :=
  match fuel with
  | O => NoFuel
  | S fuel => if t <? B / 2 then normal_shift fuel (u32 (Z.shiftl t 1)) (d + 1) else Ok d
  end.

(** D3: the loop that corrects the trial quotient; [too_big] when it is
    entered at the label. *)
Fixpoint qhat_loop (fuel : nat) (too_big : bool) (v1 v2 uj2 qhat rhat : Z) : outcome Z :=
  match fuel with
  | O => NoFuel
  | S fuel =>
      if too_big || (u32 (v2 * qhat) >? COMBINE rhat uj2) then
        let qhat := u32 (qhat - 1) in
        let rhat := u32 (rhat + v1) in
        if rhat >=? B then Ok qhat else qhat_loop fuel false v1 v2 uj2 qhat rhat
      else Ok qhat
  end.

Definition trial_quotient (v1 v2 uj0 uj1 uj2 : Z) : outcome Z :=
  if uj0 =? v1 then qhat_loop 4 true v1 v2 uj2 B uj1
  else
    let nn := COMBINE uj0 uj1 in
    let* qhat := udiv nn v1 in
    let* rhat := umod nn v1 in
    qhat_loop 4 false v1 v2 uj2 qhat rhat.

(** D4: multiply and subtract, from digit [i] down to 1. *)
Fixpoint mul_sub (i : nat) (uspace : list Z) (u : Z) (vspace : list Z) (v j qhat t : Z) : outcome (list Z * Z) :=
  match i with
  | O => Ok (uspace, t)
  | S i' =>
      let i := Z.of_nat i in
      let* x := aget uspace (u + (i + j)) in
      let* y := aget vspace (v + i) in
      let t := u32 (x - u32 (y * qhat) - t) in
      let* uspace := aset uspace (u + (i + j)) (digit (LHALF t)) in
      let t := Z.land (u32 (B - HHALF t)) (B - 1) in
      mul_sub i' uspace u vspace v j qhat t
  end.

(** D6: add back. *)
Fixpoint add_back (i : nat) (uspace : list Z) (u : Z) (vspace : list Z) (v j t : Z) : outcome (list Z * Z) :=
  match i with
  | O => Ok (uspace, t)
  | S i' =>
      let i := Z.of_nat i in
      let* x := aget uspace (u + (i + j)) in
      let* y := aget vspace (v + i) in
      let t := u32 (t + (x + y)) in
      let* uspace := aset uspace (u + (i + j)) (digit (LHALF t)) in
      add_back i' uspace u vspace v j (HHALF t)
  end.

(** D4 to D6 for one digit of the quotient: the digits that are left, and
    the corrected digit. *)
Definition subtract_step (uspace : list Z) (u : Z) (vspace : list Z) (v n j qhat : Z) : outcome (list Z * Z) :=
  let* (uspace, t) := mul_sub (Z.to_nat n) uspace u vspace v j qhat 0 in
  let* x := aget uspace (u + j) in
  let t := u32 (x - t) in
  let* uspace := aset uspace (u + j) (digit (LHALF t)) in
  if negb (HHALF t =? 0) then
    let qhat := u32 (qhat - 1) in
    let* (uspace, t) := add_back (Z.to_nat n) uspace u vspace v j 0 in
    let* x := aget uspace (u + j) in
    let* uspace := aset uspace (u + j) (digit (LHALF (x + t))) in
    Ok (uspace, qhat)
  else Ok (uspace, qhat).

(** The loop on [j], [k] iterations from the end. *)
Fixpoint divide_loop (k : nat) (uspace : list Z) (u : Z) (vspace : list Z) (v n v1 v2 : Z)
    (qspace : list Z) (q j : Z) : outcome (list Z * list Z) :=
  match k with
  | O => Ok (uspace, qspace)
  | S k =>
      let* uj0 := aget uspace (u + (j + 0)) in
      let* uj1 := aget uspace (u + (j + 1)) in
      let* uj2 := aget uspace (u + (j + 2)) in
      let* qhat := trial_quotient v1 v2 uj0 uj1 uj2 in
      let* (uspace, qhat) := subtract_step uspace u vspace v n j qhat in
      let* qspace := aset qspace (q + j) (digit qhat) in
      divide_loop k uspace u vspace v n v1 v2 qspace q (j + 1)
  end.

(** [for (i = m + k; i > m; --i)] of the remainder. *)
Fixpoint unshift (k : nat) (uspace : list Z) (u m d : Z) : outcome (list Z) :=
  match k with
  | O => Ok uspace
  | S k' =>
      let i := m + Z.of_nat k in
      let* x := aget uspace (u + i) in
      let* y := aget uspace (u + (i - 1)) in
      let* uspace := aset uspace (u + i) (digit (Z.lor (Z.shiftr x d) (LHALF (Z.shiftl y (HALF_BITS - d))))) in
      unshift k' uspace u m d
  end.

(** The quad that digits 1 to 4 of an array make. *)
Definition combine4 (a : list Z) : outcome Z :=
  let* a1 := aget a 1 in
  let* a2 := aget a 2 in
  let* a3 := aget a 3 in
  let* a4 := aget a 4 in
  Ok (Quad.uq (UU (COMBINE a1 a2) (COMBINE a3 a4))).

(** The digits of a quad, after a first entry. *)
Definition digits_of (first : Z) (x : Z) : list Z :=
  let tmp := of_q x in
  [first; digit (HHALF (ulH tmp)); digit (LHALF (ulH tmp)); digit (HHALF (ulL tmp)); digit (LHALF (ulL tmp))].

(** Division by a single digit (exercise 16 of Knuth). *)
Definition divide_short (uspace vspace : list Z) (v : Z) : outcome (Z * Z) :=
  let* t := aget vspace (v + 2) in
  let* u1 := aget uspace 1 in
  let* u2 := aget uspace 2 in
  let* u3 := aget uspace 3 in
  let* u4 := aget uspace 4 in
  let* q1 := udiv u1 t in
  let* r1 := umod u1 t in
  let rbj := COMBINE r1 u2 in
  let* q2 := udiv rbj t in
  let* r2 := umod rbj t in
  let rbj := COMBINE r2 u3 in
  let* q3 := udiv rbj t in
  let* r3 := umod rbj t in
  let rbj := COMBINE r3 u4 in
  let* q4 := udiv rbj t in
  let* r := umod rbj t in
  Ok (Quad.uq (UU (COMBINE (digit q1) (digit q2)) (COMBINE (digit q3) (digit q4))), r).

(** The remainder, [d] bits to the left in the last [n] digits. *)
Definition remainder (uspace : list Z) (u m n d : Z) : outcome Z :=
  let* uspace :=
    if negb (d =? 0) then
      let* uspace := unshift (Z.to_nat n) uspace u m d in
      aset uspace (u + m) 0
    else Ok uspace in
  combine4 uspace.

(** From D2 on: a divisor of [n] digits at [v], a dividend of [m + n] digits
    at [u], both shifted by [d] bits. *)
Definition divide_normal (uspace vspace qspace : list Z) (u v m n d : Z) (arq : bool) : outcome (Z * option Z) :=
  let q := 4 - m in
  let* v1 := aget vspace (v + 1) in
  let* v2 := aget vspace (v + 2) in
  let* (uspace, qspace) := divide_loop (Z.to_nat (m + 1)) uspace u vspace v n v1 v2 qspace q 0 in
  let* rem := if arq then let* r := remainder uspace u m n d in Ok (Some r) else Ok None in
  let* quot := combine4 qspace in
  Ok (quot, rem).

Section frame.
(** What the stack holds in [vspace[0]] and in [qspace]. *)
Variable vjunk : Z.
Variable qjunk : list Z.

(** Program D, for a divisor of [n] digits at [v]: the quotient and the
    remainder. *)
Definition divide_long (uspace vspace : list Z) (v n : Z) (arq : bool) : outcome (Z * option Z) :=
  let* (u, m) := skip_u 5 uspace 0 (4 - n) in
  let* qspace := zero_q (Z.to_nat (4 - m)) qjunk 0 in
  let* t := aget vspace (v + 1) in
  let* d := normal_shift 17 t 0 in
  let* uspace := if d >? 0 then shl uspace u (m + n) d else Ok uspace in
  let* vspace := if d >? 0 then shl vspace (v + 1) (n - 1) d else Ok vspace in
  divide_normal uspace vspace qspace u v m n d arq.

(** The quotient, and what is stored through [arq] when it is not null. *)
Definition __qdivrem (uq vq : Z) (arq : bool) : outcome (Z * option Z) :=
  if vq =? 0 then Undef DivByZero
  else if uq <? vq then Ok (0, if arq then Some uq else None)
  else
    let uspace := digits_of 0 uq in
    let vspace := digits_of vjunk vq in
    let* s := skip_v 4 vspace 0 4 in
    match s with
    | OneDigit v =>
        let* (quot, r) := divide_short uspace vspace v in
        Ok (quot, if arq then Some r else None)
    | Digits v n => divide_long uspace vspace v n arq
    end.

(** The remainder that was asked for. *)
Definition stored (o : outcome (Z * option Z)) : outcome Z :=
  let* (_, r) := o in
  match r with Some r => Ok r | None => Undef NullDeref end.

Definition __udivdi3 (a b : Z) : outcome Z :=
  let* (uq, _) := __qdivrem a b false in Ok uq.

Definition __umoddi3 (a b : Z) : outcome Z := stored (__qdivrem a b true).

Definition __divdi3 (a b : Z) : outcome Z :=
  let (ua, neg) := if a <? 0 then (u64 (- u64 a), 1) else (u64 a, 0) in
  let (ub, neg) := if b <? 0 then (u64 (- u64 b), Z.lxor neg 1) else (u64 b, neg) in
  let* (uq, _) := __qdivrem ua ub false in
  Ok (s64 (if negb (neg =? 0) then u64 (- uq) else uq)).

Definition __moddi3 (a b : Z) : outcome Z :=
  let (ua, neg) := if a <? 0 then (u64 (- u64 a), 1) else (u64 a, 0) in
  let ub := if b <? 0 then u64 (- u64 b) else u64 b in
  let* ur := stored (__qdivrem ua ub true) in
  Ok (s64 (if negb (neg =? 0) then u64 (- ur) else ur)).

End frame.

End QuadDiv.
