(* ===== verification/QuadDivTheory.v ===== *)
(** Division of quads is right: [__qdivrem] returns, whatever is on the stack,
    the quotient and the remainder of its arguments, with no access outside its
    arrays, for every divisor other than 0. *)

From stdpp Require Import base list.
From S2P Require Import Prelude Quad QuadTheory QuadDiv.

Module QuadDivTheory.
Import Quad QuadTheory QuadDiv.

#[local] Opaque Z.pow.

(** ** Arrays of digits *)

Definition dg (a : list Z) (i : Z) : Z := a !!! Z.to_nat i.
Definition upd (a : list Z) (i x : Z) : list Z := <[Z.to_nat i := x]> a.

(** An array of five digits. *)
Record ok (a : list Z) : Prop := {
  ok_length : length a = 5%nat;
  ok_digit i : 0 ≤ dg a i < 65536
}.

Lemma aget_dg a i : length a = 5%nat → 0 ≤ i < 5 → aget a i = Ok (dg a i).
Proof.
  intros Hl Hi. destruct (lookup_lt_is_Some_2 a (Z.to_nat i)) as [x Hx]; [lia|].
  assert (aget a i = Ok x) as -> by (apply aget_Ok; split; [lia|done]). unfold dg. by rewrite (list_lookup_total_correct _ _ _ Hx).
Qed.

Lemma aset_upd a i x : length a = 5%nat → 0 ≤ i < 5 → aset a i x = Ok (upd a i x).
Proof. intros Hl Hi. apply aset_in_bounds. rewrite Hl. lia. Qed.

Lemma length_upd a i x : length (upd a i x) = length a.
Proof. apply length_insert. Qed.

Lemma dg_upd_eq a i x : length a = 5%nat → 0 ≤ i < 5 → dg (upd a i x) i = x.
Proof. intros. unfold dg, upd. apply list_lookup_total_insert_eq. lia. Qed.

Lemma dg_upd_ne a i j x : 0 ≤ i → 0 ≤ j → i ≠ j → dg (upd a i x) j = dg a j.
Proof. intros. unfold dg, upd. apply list_lookup_total_insert_ne. lia. Qed.

Lemma dg_neg a i : i ≤ 0 → dg a i = dg a 0.
Proof. intros. unfold dg. by replace (Z.to_nat i) with 0%nat by lia. Qed.

Lemma ok_upd a i x : ok a → 0 ≤ i < 5 → 0 ≤ x < 65536 → ok (upd a i x).
Proof.
  intros [Hl Hd] Hi Hx. split; [by rewrite length_upd|]. intros j. unfold dg, upd.
  destruct (decide (Z.to_nat i = Z.to_nat j)) as [E|E].
  - rewrite E, list_lookup_total_insert_eq by lia. done.
  - rewrite list_lookup_total_insert_ne by done. apply (Hd j).
Qed.

(** ** The value of a range of digits *)

Definition pw (k : nat) : Z := 65536 ^ Z.of_nat k.

Lemma pw_0 : pw 0 = 1. Proof. reflexivity. Qed.
Lemma pw_S k : pw (S k) = 65536 * pw k.
Proof. unfold pw. rewrite Nat2Z.inj_succ, Z.pow_succ_r by lia. done. Qed.
Lemma pw_add k l : pw (k + l) = pw k * pw l.
Proof. unfold pw. rewrite Nat2Z.inj_add, Z.pow_add_r by lia. done. Qed.
Lemma pw_pos k : 0 < pw k.
Proof. apply Z.pow_pos_nonneg; lia. Qed.
Lemma pw_mono k l : (k ≤ l)%nat → pw k ≤ pw l.
Proof. intros. apply Z.pow_le_mono_r; lia. Qed.
#[local] Opaque pw.

(** The [k] digits that end at index [e]. *)
Fixpoint low (a : list Z) (e : Z) (k : nat) : Z :=
  match k with
  | O => 0
  | S k => low a e k + dg a (e - Z.of_nat k) * pw k
  end.

Lemma low_S a e k : low a e (S k) = low a e k + dg a (e - Z.of_nat k) * pw k.
Proof. done. Qed.

Lemma low_range a e k : ok a → 0 ≤ low a e k < pw k.
Proof.
  intros [_ Hd]. induction k as [|k IH]; [cbn; rewrite pw_0; lia|]. rewrite low_S, pw_S.
  pose proof (Hd (e - Z.of_nat k)). pose proof (pw_pos k). nia.
Qed.

Lemma low_ext a b e k : (∀ i, e - Z.of_nat k < i ≤ e → dg a i = dg b i) → low a e k = low b e k.
Proof.
  induction k as [|k IH]; intros H; [done|]. rewrite !low_S, IH, (H (e - Z.of_nat k)); [done|lia|].
  intros i Hi. apply H. lia.
Qed.

Lemma low_zero a e k : (∀ i, e - Z.of_nat k < i ≤ e → dg a i = 0) → low a e k = 0.
Proof.
  induction k as [|k IH]; intros H; [done|]. rewrite low_S, IH, (H (e - Z.of_nat k)); [lia|lia|].
  intros i Hi. apply H. lia.
Qed.

Lemma low_split a e k l : low a e (k + l) = low a e k + low a (e - Z.of_nat k) l * pw k.
Proof.
  induction l as [|l IH]; [rewrite Nat.add_0_r; cbn; lia|]. rewrite Nat.add_succ_r, !low_S, IH, pw_add.
  replace (e - Z.of_nat (k + l)) with (e - Z.of_nat k - Z.of_nat l) by lia. lia.
Qed.

(** The last digit apart. *)
Lemma low_last a e k : low a e (S k) = dg a e + 65536 * low a (e - 1) k.
Proof.
  pose proof (low_split a e 1 k) as H. change (1 + k)%nat with (S k) in H. rewrite H. cbn [low].
  rewrite pw_S, pw_0, Z.sub_0_r. change (Z.of_nat 1) with 1. lia.
Qed.

(** A number other than 0 has a digit other than 0. *)
Lemma low_nonzero a e k : low a e k ≠ 0 → ∃ i, e - Z.of_nat k < i ≤ e ∧ dg a i ≠ 0.
Proof.
  induction k as [|k IH]; intros H; [done|]. destruct (decide (low a e k = 0)) as [E|E].
  - exists (e - Z.of_nat k). split; [lia|]. intros E'. apply H. rewrite low_S, E, E'. done.
  - destruct (IH E) as (i & Hi & Hd). exists i. split; [lia|done].
Qed.

(** Digits outside a range an array operation keeps. *)
Definition same_outside (a b : list Z) (lo hi : Z) : Prop := ∀ i, 0 ≤ i → i < lo ∨ hi < i → dg b i = dg a i.

Lemma same_outside_refl a lo hi : same_outside a a lo hi.
Proof. by intros i. Qed.

Lemma same_outside_upd a i x : 0 ≤ i → same_outside a (upd a i x) i i.
Proof. intros Hi j Hj Hne. apply dg_upd_ne; lia. Qed.

Lemma same_outside_trans a b c lo hi lo' hi' : same_outside a b lo hi → same_outside b c lo' hi' →
  same_outside a c (Z.min lo lo') (Z.max hi hi').
Proof. intros H1 H2 i Hi Hne. rewrite H2, H1 by lia. done. Qed.

Lemma same_outside_weaken a b lo hi lo' hi' : same_outside a b lo hi → lo' ≤ lo → hi ≤ hi' → same_outside a b lo' hi'.
Proof. intros H ?? i Hi Hne. apply H; lia. Qed.

Lemma low_same a b lo hi e k : same_outside a b lo hi → Z.of_nat k ≤ e + 1 → e < lo ∨ hi ≤ e - Z.of_nat k →
  low b e k = low a e k.
Proof. intros H He Hd. apply low_ext. intros i Hi. apply H; lia. Qed.

Lemma low_upd a i x e k : 0 ≤ i → Z.of_nat k ≤ e + 1 → e < i ∨ i ≤ e - Z.of_nat k → low (upd a i x) e k = low a e k.
Proof. intros. apply (low_same a _ i i); [by apply same_outside_upd|lia|lia]. Qed.

(** ** Digit operations *)

Lemma B_val : B = 65536. Proof. reflexivity. Qed.

Lemma LHALF_mod x : LHALF x = x mod 65536.
Proof. unfold LHALF, HALF_BITS. change (Z.shiftl 1 16 - 1) with (Z.ones 16). rewrite Z.land_ones by lia. by rewrite pow16. Qed.

Lemma HHALF_div x : HHALF x = x / 65536.
Proof. unfold HHALF, HALF_BITS. rewrite Z.shiftr_div_pow2 by lia. by rewrite pow16. Qed.

Lemma LHALF_range x : 0 ≤ LHALF x < 65536.
Proof. rewrite LHALF_mod. by apply Z.mod_pos_bound. Qed.

Lemma digit_small x : 0 ≤ x < 65536 → digit x = x.
Proof. intros. apply unsigned_of_small. by rewrite is_u16_iff. Qed.

Lemma digit_LHALF x : digit (LHALF x) = x mod 65536.
Proof. rewrite digit_small by apply LHALF_range. apply LHALF_mod. Qed.

Lemma COMBINE_val a b : 0 ≤ a < 65536 → 0 ≤ b < 65536 → COMBINE a b = a * 65536 + b.
Proof.
  intros Ha Hb. unfold COMBINE, HALF_BITS. rewrite Z.shiftl_mul_pow2 by lia.
  rewrite unsigned_of_small by (rewrite is_u32_iff, pow16; lia). rewrite lor_beside by (rewrite ?pow16; lia). by rewrite pow16.
Qed.

Lemma udiv_Ok x y : y ≠ 0 → udiv x y = Ok (x / y).
Proof. intros. unfold udiv. rewrite (proj2 (Z.eqb_neq y 0)) by done. done. Qed.
Lemma umod_Ok x y : y ≠ 0 → umod x y = Ok (x mod y).
Proof. intros. unfold umod. rewrite (proj2 (Z.eqb_neq y 0)) by done. done. Qed.


(** ** Multiply and subtract, add back *)

(** One digit of the subtraction, with its borrow. *)
Lemma sub_digit x y qhat t :
  0 ≤ x < 65536 → 0 ≤ y < 65536 → 0 ≤ qhat < 65536 → 0 ≤ t < 65536 →
  let T := u32 (x - u32 (y * qhat) - t) in
  let b := Z.land (u32 (B - HHALF T)) (B - 1) in
  0 ≤ b < 65536 ∧ LHALF T - b * 65536 = x - y * qhat - t.
Proof.
  intros Hx Hy Hq Ht T b. assert (Hyq : 0 ≤ y * qhat ≤ 65535 * 65535) by nia.
  assert (HT : T = u32 (x - y * qhat - t)).
  { unfold T. rewrite (unsigned_of_small 32 (y * qhat)) by (rewrite is_u32_iff; lia). done. }
  destruct (u32_ex (x - y * qhat - t)) as (k & E & R). rewrite <- HT in E, R.
  destruct (halves T) as (ET & RH & RL & _); [by rewrite pow32|].
  assert (Hb : b = (65536 - HHALF T) mod 65536).
  { unfold b. rewrite B_val. change (65536 - 1) with (Z.ones 16). rewrite Z.land_ones by lia. rewrite pow16.
    rewrite unsigned_of_small by (rewrite is_u32_iff; lia). done. }
  rewrite Hb. destruct (decide (HHALF T = 0)) as [H0|H0].
  - rewrite H0. change ((65536 - 0) mod 65536) with 0. lia.
  - rewrite Z.mod_small by lia. split; [lia|]. lia.
Qed.

Lemma mul_sub_spec i : ∀ us u vs v j qhat t,
  ok us → ok vs → 0 ≤ qhat < 65536 → 0 ≤ t < 65536 → 0 ≤ u + j → u + j + Z.of_nat i < 5 →
  0 ≤ v → v + Z.of_nat i < 5 →
  ∃ us' t', mul_sub i us u vs v j qhat t = Ok (us', t') ∧ ok us' ∧ 0 ≤ t' < 65536 ∧
    same_outside us us' (u + j + 1) (u + j + Z.of_nat i) ∧
    low us' (u + j + Z.of_nat i) i - t' * pw i =
    low us (u + j + Z.of_nat i) i - low vs (v + Z.of_nat i) i * qhat - t.
Proof.
  induction i as [|i IH]; intros us u vs v j qhat t Hus Hvs Hq Ht Hu1 Hu2 Hv1 Hv2.
  { exists us, t. split; [done|]. split_and!; try done; [lia..|]. cbn [low]. rewrite pw_0. lia. }
  cbn [mul_sub]. pose proof (ok_length _ Hus) as Hl. pose proof (ok_length _ Hvs) as Hlv.
  set (e := u + (Z.of_nat (S i) + j)). set (f := v + Z.of_nat (S i)).
  rewrite !aget_dg by (done || lia). cbn [obind].
  pose proof (ok_digit _ Hus e) as Hx. pose proof (ok_digit _ Hvs f) as Hy.
  pose proof (sub_digit (dg us e) (dg vs f) qhat t Hx Hy Hq Ht) as Hsub. cbv zeta in Hsub.
  set (T := u32 (dg us e - u32 (dg vs f * qhat) - t)) in *.
  set (b := Z.land (u32 (B - HHALF T)) (B - 1)) in *. destruct Hsub as [Hb Hsub].
  rewrite aset_upd by (done || lia). cbn [obind]. rewrite digit_small by apply LHALF_range.
  set (us1 := upd us e (LHALF T)). assert (Hus1 : ok us1) by (apply ok_upd; [done|lia|apply LHALF_range]).
  destruct (IH us1 u vs v j qhat b) as (us' & t' & -> & Hus' & Ht' & Hs & E); try done; try lia.
  exists us', t'. split; [done|]. split_and!; try done; [lia..| |].
  - apply (same_outside_weaken _ _ _ _ _ _ (same_outside_trans _ _ _ _ _ _ _ (same_outside_upd us e (LHALF T) ltac:(lia)) Hs)); lia.
  - rewrite !low_last, pw_S. replace (u + j + Z.of_nat (S i)) with e by lia. fold f.
    replace (e - 1) with (u + j + Z.of_nat i) by lia. replace (f - 1) with (v + Z.of_nat i) by lia.
    rewrite (Hs e) by lia. unfold us1 at 1. rewrite dg_upd_eq by (done || lia).
    unfold us1 in E. rewrite low_upd in E by lia. nia.
Qed.

Lemma add_back_spec i : ∀ us u vs v j t,
  ok us → ok vs → 0 ≤ t ≤ 1 → 0 ≤ u + j → u + j + Z.of_nat i < 5 → 0 ≤ v → v + Z.of_nat i < 5 →
  ∃ us' t', add_back i us u vs v j t = Ok (us', t') ∧ ok us' ∧ 0 ≤ t' ≤ 1 ∧
    same_outside us us' (u + j + 1) (u + j + Z.of_nat i) ∧
    low us' (u + j + Z.of_nat i) i + t' * pw i =
    low us (u + j + Z.of_nat i) i + low vs (v + Z.of_nat i) i + t.
Proof.
  induction i as [|i IH]; intros us u vs v j t Hus Hvs Ht Hu1 Hu2 Hv1 Hv2.
  { exists us, t. split; [done|]. split_and!; try done; [lia..|]. cbn [low]. rewrite pw_0. lia. }
  cbn [add_back]. pose proof (ok_length _ Hus) as Hl. pose proof (ok_length _ Hvs) as Hlv.
  set (e := u + (Z.of_nat (S i) + j)). set (f := v + Z.of_nat (S i)).
  rewrite !aget_dg by (done || lia). cbn [obind].
  pose proof (ok_digit _ Hus e) as Hx. pose proof (ok_digit _ Hvs f) as Hy.
  rewrite (unsigned_of_small 32) by (rewrite is_u32_iff; lia). set (T := t + (dg us e + dg vs f)) in *.
  destruct (halves T) as (ET & RH & RL & _); [rewrite pow32; lia|].
  rewrite aset_upd by (done || lia). cbn [obind]. rewrite digit_small by apply LHALF_range.
  set (us1 := upd us e (LHALF T)). assert (Hus1 : ok us1) by (apply ok_upd; [done|lia|apply LHALF_range]).
  destruct (IH us1 u vs v j (HHALF T)) as (us' & t' & -> & Hus' & Ht' & Hs & E); try done; try lia.
  exists us', t'. split; [done|]. split_and!; try done; [lia..| |].
  - apply (same_outside_weaken _ _ _ _ _ _ (same_outside_trans _ _ _ _ _ _ _ (same_outside_upd us e (LHALF T) ltac:(lia)) Hs)); lia.
  - rewrite !low_last, pw_S. replace (u + j + Z.of_nat (S i)) with e by lia. fold f.
    replace (e - 1) with (u + j + Z.of_nat i) by lia. replace (f - 1) with (v + Z.of_nat i) by lia.
    rewrite (Hs e) by lia. unfold us1 at 1. rewrite dg_upd_eq by (done || lia).
    unfold us1 in E. rewrite low_upd in E by lia. lia.
Qed.


(** ** The trial quotient *)

(** [qhat] is the quotient of the three digits [U3] by the two digits [V2],
    but at most 65535. *)
Definition trial_ok (U3 V2 qhat : Z) : Prop :=
  0 ≤ qhat < 65536 ∧ qhat * V2 ≤ U3 ∧ (U3 < (qhat + 1) * V2 ∨ qhat = 65535).

Lemma qhat_loop_spec fuel : ∀ too_big v1 v2 uj2 qhat rhat N,
  0 ≤ v2 < 65536 → 0 ≤ uj2 < 65536 → 32768 ≤ v1 < 65536 → 0 ≤ rhat < 65536 →
  65536 ≤ rhat + Z.of_nat fuel * 32768 → qhat * v1 + rhat = N →
  (if too_big : bool then qhat = 65536
   else 0 ≤ qhat < 65536 ∧ (N * 65536 + uj2 < (qhat + 1) * (v1 * 65536 + v2) ∨ qhat = 65535)) →
  ∃ q, qhat_loop fuel too_big v1 v2 uj2 qhat rhat = Ok q ∧ trial_ok (N * 65536 + uj2) (v1 * 65536 + v2) q.
Proof.
  induction fuel as [|fuel IH]; intros too_big v1 v2 uj2 qhat rhat N Hv2 Hu Hv1 Hr Hf HN Hq; [lia|].
  cbn [qhat_loop]. rewrite COMBINE_val, B_val by done.
  destruct too_big; [subst qhat|destruct Hq as [Hq1 Hq2]]; cbn [orb].
  - (* entered at the label *)
    rewrite !unsigned_of_small by (rewrite is_u32_iff; lia). case_test; bool_prop.
    + eexists. split; [done|]. split; [lia|split; [nia|right; lia]].
    + apply IH; try done; [lia|lia|lia|]. split; [lia|right; lia].
  - assert (Hm : 0 ≤ v2 * qhat ≤ 65535 * 65535) by nia.
    rewrite (unsigned_of_small 32 (v2 * qhat)) by (rewrite is_u32_iff; lia). case_test; bool_prop.
    + assert (Hq0 : 0 < qhat) by nia.
      rewrite !unsigned_of_small by (rewrite is_u32_iff; lia). case_test; bool_prop.
      * eexists. split; [done|]. split; [lia|split; [nia|left; nia]].
      * apply IH; try done; [lia|lia|lia|]. split; [lia|left; nia].
    + eexists. split; [done|]. split; [lia|split; [nia|done]].
Qed.

Lemma trial_quotient_spec v1 v2 uj0 uj1 uj2 :
  0 ≤ v2 < 65536 → 0 ≤ uj0 ≤ v1 → 0 ≤ uj1 < 65536 → 0 ≤ uj2 < 65536 → 32768 ≤ v1 < 65536 →
  ∃ q, trial_quotient v1 v2 uj0 uj1 uj2 = Ok q ∧
    trial_ok ((uj0 * 65536 + uj1) * 65536 + uj2) (v1 * 65536 + v2) q.
Proof.
  intros Hv2 Hu0 Hu1 Hu2 Hv1. unfold trial_quotient. case_test; bool_prop.
  - subst uj0. apply qhat_loop_spec; try done; try lia. rewrite B_val. lia.
  - rewrite COMBINE_val by lia. set (N := uj0 * 65536 + uj1).
    rewrite udiv_Ok, umod_Ok by lia. cbn [obind].
    pose proof (Z.div_mod N v1 ltac:(lia)). pose proof (Z.mod_pos_bound N v1 ltac:(lia)).
    assert (0 ≤ N / v1 < 65536) by (split; [apply Z.div_pos; lia|apply Z.div_lt_upper_bound; lia]).
    apply qhat_loop_spec; try done; lia.
Qed.

(** What the first digits promise for the whole numbers: the trial quotient
    is right or one too large. *)
Lemma trial_enough U3 V2 w v q p :
  trial_ok U3 V2 q → 0 ≤ w < p → 0 ≤ v < p → 65536 ≤ V2 → 0 ≤ U3 →
  U3 * p + w < 65536 * (V2 * p + v) →
  - (V2 * p + v) ≤ (U3 * p + w) - q * (V2 * p + v) < V2 * p + v.
Proof.
  intros (Hq & Hl & Hu) Hw Hv HV HU Htop. assert (H0 : q * v ≤ 65535 * p) by nia.
  assert (H1 : q * V2 * p ≤ U3 * p) by (apply Z.mul_le_mono_nonneg_r; lia).
  assert (H2 : 65536 * p ≤ V2 * p) by (apply Z.mul_le_mono_nonneg_r; lia). split; [lia|].
  destruct Hu as [Hu| ->]; [|lia].
  assert (H3 : (U3 + 1) * p ≤ (q + 1) * V2 * p) by (apply Z.mul_le_mono_nonneg_r; lia).
  assert (H4 : 0 ≤ (q + 1) * v) by (apply Z.mul_nonneg_nonneg; lia). lia.
Qed.

(** ** One digit of the quotient *)

(** Nothing is left of a difference below one unit of its first digit. *)
Lemma top_zero c p low w : 0 < p → c * p + low = w → 0 ≤ low → 0 ≤ w < p → 0 ≤ c → c = 0 ∧ low = w.
Proof. intros Hp E Hl Hw Hc. assert (c = 0) as -> by nia. lia. Qed.

Lemma subtract_step_spec us u vs v (n : nat) j qhat :
  ok us → ok vs → 0 ≤ qhat < 65536 → 0 ≤ u + j → u + j + Z.of_nat n < 5 → 0 ≤ v → v + Z.of_nat n < 5 →
  let V := low vs (v + Z.of_nat n) n in
  let W := low us (u + j + Z.of_nat n) (S n) in
  - V ≤ W - qhat * V < V →
  ∃ us' q, subtract_step us u vs v (Z.of_nat n) j qhat = Ok (us', q) ∧ ok us' ∧ 0 ≤ q < 65536 ∧
    same_outside us us' (u + j) (u + j + Z.of_nat n) ∧ dg us' (u + j) = 0 ∧
    W = q * V + low us' (u + j + Z.of_nat n) n ∧ low us' (u + j + Z.of_nat n) n < V.
Proof.
  intros Hus Hvs Hq Hu1 Hu2 Hv1 Hv2 V W HW. unfold subtract_step. rewrite Nat2Z.id.
  destruct (mul_sub_spec n us u vs v j qhat 0) as (us1 & t & -> & Hus1 & Ht & Hs1 & E1); try done; try lia.
  cbn [obind]. rewrite aget_dg by (apply Hus1 || lia). cbn [obind].
  set (e := u + j + Z.of_nat n) in *. fold V in E1. rewrite (Hs1 (u + j)) by lia.
  assert (EW : W = low us e n + dg us (u + j) * pw n) by (unfold W; rewrite low_S; replace (e - Z.of_nat n) with (u + j) by lia; done).
  pose proof (ok_digit _ Hus (u + j)) as Hx. set (x := dg us (u + j)) in *.
  pose proof (low_range us1 e n Hus1) as Hr1. pose proof (pw_pos n) as Hp.
  pose proof (low_range vs (v + Z.of_nat n) n Hvs) as HV. fold V in HV.
  rewrite HHALF_div, !digit_LHALF. destruct (Z.le_gt_cases t x) as [Hle|Hgt].
  - (* no borrow *)
    destruct (top_zero (x - t) (pw n) (low us1 e n) (W - qhat * V)) as [Hz Hlow]; try lia.
    { pose proof (Z.mul_nonneg_nonneg (x - t) (pw n)). lia. }
    rewrite Hz. rewrite (unsigned_of_small 32 0) by by_decide. change (0 / 65536) with 0. change (0 mod 65536) with 0.
    rewrite aset_upd by (apply Hus1 || lia). cbn [obind negb Z.eqb].
    exists (upd us1 (u + j) 0), qhat. split; [done|]. split_and!; [by apply ok_upd; [|lia|]|lia..| | | |].
    + apply (same_outside_weaken _ _ _ _ _ _ (same_outside_trans _ _ _ _ _ _ _ Hs1 (same_outside_upd us1 (u + j) 0 ltac:(lia)))); lia.
    + by apply dg_upd_eq; [apply Hus1|lia].
    + rewrite low_upd by lia. lia.
    + rewrite low_upd by lia. lia.
  - (* borrow: the trial quotient was one too large *)
    assert (Hneg : (x - t) * pw n + low us1 e n < 0) by nia.
    destruct (top_zero (t - x - 1) (pw n) (pw n - 1 - low us1 e n) (- (W - qhat * V) - 1)) as [Hz Hlow]; try lia.
    assert (x - t = -1) as -> by lia. change (u32 (-1)) with 4294967295.
    change (4294967295 / 65536) with 65535. change (4294967295 mod 65536) with 65535.
    rewrite aset_upd by (apply Hus1 || lia). cbn [obind negb Z.eqb].
    set (us2 := upd us1 (u + j) 65535). assert (Hus2 : ok us2) by (apply ok_upd; [done|lia|lia]).
    destruct (add_back_spec n us2 u vs v j 0) as (us3 & t' & -> & Hus3 & Ht' & Hs3 & E3); try done; try lia.
    cbn [obind]. fold e V in E3. rewrite aget_dg by (apply Hus3 || lia). cbn [obind].
    rewrite (Hs3 (u + j)) by lia. assert (dg us2 (u + j) = 65535) as -> by (apply dg_upd_eq; apply Hus1 || lia).
    unfold us2 in E3. rewrite low_upd in E3 by lia.
    pose proof (low_range us3 e n Hus3) as Hr3.
    assert (t' = 1) as -> by nia. rewrite digit_LHALF. change ((65535 + 1) mod 65536) with 0.
    rewrite aset_upd by (apply Hus3 || lia). cbn [obind].
    assert (Hq0 : qhat ≠ 0) by (pose proof (low_range us e (S n) Hus); intros ->; lia).
    rewrite unsigned_of_small by (rewrite is_u32_iff; lia).
    exists (upd us3 (u + j) 0), (qhat - 1). split; [done|]. split_and!; [by apply ok_upd; [|lia|]|lia..| | | |].
    + pose proof (same_outside_trans _ _ _ _ _ _ _ Hs1 (same_outside_upd us1 (u + j) 65535 ltac:(lia))) as H1.
      pose proof (same_outside_trans _ _ _ _ _ _ _ H1 Hs3) as H2.
      apply (same_outside_weaken _ _ _ _ _ _ (same_outside_trans _ _ _ _ _ _ _ H2 (same_outside_upd us3 (u + j) 0 ltac:(lia)))); lia.
    + by apply dg_upd_eq; [apply Hus3|lia].
    + rewrite low_upd by lia. lia.
    + rewrite low_upd by lia. lia.
Qed.


(** ** The digits of the quotient *)

(** The first digit of a smaller number is not larger. *)
Lemma top_le a b p x y : 0 ≤ a → 0 ≤ b < p → a + x * p < b + y * p → x ≤ y.
Proof. nia. Qed.

(** D3: the trial quotient of a window of the dividend. *)
Lemma window_quotient us vs e n :
  ok us → ok vs → (2 ≤ n)%nat → 32768 ≤ dg vs (5 - Z.of_nat n) → low us (e - 1) n < low vs 4 n →
  ∃ qhat, trial_quotient (dg vs (5 - Z.of_nat n)) (dg vs (6 - Z.of_nat n))
      (dg us (e - Z.of_nat n)) (dg us (e - Z.of_nat n + 1)) (dg us (e - Z.of_nat n + 2)) = Ok qhat ∧
    0 ≤ qhat < 65536 ∧
    - low vs 4 n ≤ low us e (S n) - qhat * low vs 4 n < low vs 4 n.
Proof.
  intros Hus Hvs Hn Hv1 Hlt. destruct n as [|[|n]]; [lia..|].
  pose proof (ok_digit _ Hvs) as Hvd. pose proof (ok_digit _ Hus) as Hud. pose proof (pw_pos n) as Hp.
  pose proof (low_last us e (S (S n))) as HW. rewrite !low_S, !pw_S in *.
  replace (4 - Z.of_nat (S n)) with (5 - Z.of_nat (S (S n))) in * by lia.
  replace (4 - Z.of_nat n) with (6 - Z.of_nat (S (S n))) in * by lia.
  replace (e - Z.of_nat (S n)) with (e - Z.of_nat (S (S n)) + 1) in * by lia.
  replace (e - Z.of_nat n) with (e - Z.of_nat (S (S n)) + 2) in * by lia.
  replace (e - 1 - Z.of_nat (S n)) with (e - Z.of_nat (S (S n))) in * by lia.
  replace (e - 1 - Z.of_nat n) with (e - Z.of_nat (S (S n)) + 1) in * by lia.
  set (x0 := dg us (e - Z.of_nat (S (S n)))) in *. set (x1 := dg us (e - Z.of_nat (S (S n)) + 1)) in *.
  set (x2 := dg us (e - Z.of_nat (S (S n)) + 2)) in *.
  set (v1 := dg vs (5 - Z.of_nat (S (S n)))) in *. set (v2 := dg vs (6 - Z.of_nat (S (S n)))) in *.
  pose proof (low_range us e n Hus) as Hw. pose proof (low_range vs 4 n Hvs) as Hv.
  pose proof (low_range us (e - 1) n Hus) as Hw'.
  assert (H0 : x0 ≤ v1).
  { apply (top_le (low us (e - 1) n + x1 * pw n) (low vs 4 n + v2 * pw n) (65536 * pw n)); [|split|lia].
    - pose proof (Hud (e - Z.of_nat (S (S n)) + 1)) as Hx. fold x1 in Hx. nia.
    - pose proof (Hvd (6 - Z.of_nat (S (S n)))) as Hx. fold v2 in Hx. nia.
    - pose proof (Hvd (6 - Z.of_nat (S (S n)))) as Hx. fold v2 in Hx. nia. }
  destruct (trial_quotient_spec v1 v2 x0 x1 x2) as (q & Hq & Ht).
  { apply Hvd. } { split; [apply Hud|done]. } { apply Hud. } { apply Hud. } { split; [done|apply Hvd]. }
  exists q. split; [done|]. split; [apply Ht|].
  pose proof (trial_enough _ _ (low us e n) (low vs 4 n) q (pw n) Ht Hw Hv) as H.
  assert (0 ≤ x0) by apply Hud. assert (0 ≤ x1) by apply Hud. assert (0 ≤ x2) by apply Hud. assert (0 ≤ v2) by apply Hvd.
  pose proof (Hud e). lia.
Qed.

Lemma divide_loop_spec k : ∀ us u vs v n v1 v2 qs q j,
  ok us → ok vs → length qs = 5%nat → (2 ≤ n)%nat →
  u + j = 5 - Z.of_nat k - Z.of_nat n → 0 ≤ u + j → v + Z.of_nat n = 4 → 0 ≤ v → q + j = 5 - Z.of_nat k →
  dg vs (v + 1) = v1 → dg vs (v + 2) = v2 → 32768 ≤ v1 → low us (4 - Z.of_nat k) n < low vs 4 n →
  ∃ us' qs', divide_loop k us u vs v (Z.of_nat n) v1 v2 qs q j = Ok (us', qs') ∧ ok us' ∧ length qs' = 5%nat ∧
    (∀ i, 0 ≤ i < q + j → dg qs' i = dg qs i) ∧ (∀ i, q + j ≤ i < 5 → 0 ≤ dg qs' i < 65536) ∧
    (∀ i, 0 ≤ i < u + j → dg us' i = dg us i) ∧
    (∀ i, u + j ≤ i < u + j + Z.of_nat k → dg us' i = 0) ∧
    low us 4 (k + n) = low qs' 4 k * low vs 4 n + low us' 4 n ∧ low us' 4 n < low vs 4 n.
Proof.
  induction k as [|k IH]; intros us u vs v n v1 v2 qs q j Hus Hvs Hqs Hn Hu Hu0 Hv Hv0 Hq E1 E2 Hv1 Hlt.
  { exists us, qs. split; [done|]. split_and!; try done; try (intros; lia). }
  cbn [divide_loop]. rewrite !aget_dg by (apply Hus || lia). cbn [obind].
  set (e := 4 - Z.of_nat k) in *.
  destruct (window_quotient us vs e n) as (qhat & Hqh & Hqr & Hb); try done.
  { replace (5 - Z.of_nat n) with (v + 1) by lia. lia. } { by replace (e - 1) with (4 - Z.of_nat (S k)) by lia. }
  replace (5 - Z.of_nat n) with (v + 1) in Hqh by lia. replace (6 - Z.of_nat n) with (v + 2) in Hqh by lia.
  rewrite E1, E2 in Hqh. replace (u + (j + 0)) with (e - Z.of_nat n) by lia.
  replace (u + (j + 1)) with (e - Z.of_nat n + 1) by lia. replace (u + (j + 2)) with (e - Z.of_nat n + 2) by lia.
  rewrite Hqh. cbn [obind].
  destruct (subtract_step_spec us u vs v n j qhat) as (us1 & qd & -> & Hus1 & Hqd & Hs1 & Hz1 & EW & HR); try done; try lia.
  { rewrite Hv. by replace (u + j + Z.of_nat n) with e by lia. }
  cbn [obind]. rewrite digit_small by done. rewrite aset_upd by (done || lia). cbn [obind].
  rewrite Hv in EW, HR. replace (u + j + Z.of_nat n) with e in Hs1, EW, HR by lia.
  destruct (IH us1 u vs v n v1 v2 (upd qs (q + j) qd) q (j + 1))
    as (us' & qs' & -> & Hus' & Hl' & Hq1 & Hq2 & Hu1 & Hu2 & ET & HR'); try done; try lia.
  { by rewrite length_upd. }
  exists us', qs'. split; [done|]. split; [done|]. split; [done|].
  assert (Hqj : dg qs' (q + j) = qd) by (rewrite Hq1 by lia; apply dg_upd_eq; [done|lia]).
  split_and!.
  - intros i Hi. rewrite Hq1 by lia. apply dg_upd_ne; lia.
  - intros i Hi. destruct (decide (i = q + j)) as [->|]; [by rewrite Hqj|apply Hq2; lia].
  - intros i Hi. rewrite Hu1 by lia. apply Hs1; lia.
  - intros i Hi. destruct (decide (i = u + j)) as [->|]; [|apply Hu2; lia]. rewrite Hu1 by lia. done.
  - replace (S k + n)%nat with (k + S n)%nat by lia.
    rewrite (low_split us 4 k (S n)), (low_S qs' 4 k). rewrite (low_split us1 4 k n) in ET.
    fold e in ET |- *. replace (q + j) with e in Hqj by lia. rewrite Hqj, EW.
    rewrite (low_same us us1 (u + j) e 4 k) in ET by (done || lia). lia.
  - done.
Qed.


(** ** Normalisation *)

Lemma pow_d d : 0 ≤ d ≤ 16 → 0 < 2 ^ d ∧ 0 < 2 ^ (16 - d) ∧ 2 ^ d * 2 ^ (16 - d) = 65536.
Proof.
  intros Hd. split_and!; try (apply Z.pow_pos_nonneg; lia). rewrite <- Z.pow_add_r by lia.
  replace (d + (16 - d)) with 16 by lia. apply pow16.
Qed.

Lemma normal_shift_spec fuel : ∀ t d, 0 < t < 65536 → 65536 ≤ t * 2 ^ Z.of_nat fuel →
  ∃ s, normal_shift fuel t d = Ok (d + s) ∧ 0 ≤ s < 16 ∧ 32768 ≤ t * 2 ^ s < 65536.
Proof.
  induction fuel as [|fuel IH]; intros t d Ht Hf; cbn [normal_shift].
  - change (2 ^ Z.of_nat 0) with 1 in Hf. lia.
  - rewrite B_val. change (65536 / 2) with 32768. case_test; bool_prop.
    + rewrite Z.shiftl_mul_pow2 by lia. change (2 ^ 1) with 2. rewrite unsigned_of_small by (rewrite is_u32_iff; lia).
      rewrite Nat2Z.inj_succ, Z.pow_succ_r in Hf by lia.
      destruct (IH (t * 2) (d + 1)) as (s & -> & Hs & Hr); [lia|lia|]. exists (s + 1).
      rewrite Z.pow_add_r by lia. change (2 ^ 1) with 2. split; [f_equal; lia|]. split; [|lia].
      split; [lia|]. destruct (decide (s = 15)) as [->|]; [|lia]. change (2 ^ 15) with 32768 in Hr. lia.
    + exists 0. rewrite Z.pow_0_r. split; [f_equal; lia|lia].
Qed.

(** The two parts of a digit that is shifted left. *)
Lemma shl_digit x y sh : 0 ≤ x < 65536 → 0 ≤ y < 65536 → 0 < sh < 16 →
  let z := digit (Z.lor (LHALF (Z.shiftl x sh)) (Z.shiftr y (HALF_BITS - sh))) in
  0 ≤ z < 65536 ∧ z + x * 2 ^ sh / 65536 * 65536 = x * 2 ^ sh + y * 2 ^ sh / 65536.
Proof.
  intros Hx Hy Hs. destruct (pow_d sh) as (Hp & Hq & Hpq); [lia|]. unfold HALF_BITS. cbv zeta.
  rewrite LHALF_mod, Z.shiftl_mul_pow2, Z.shiftr_div_pow2 by lia. set (p := 2 ^ sh) in *. set (q := 2 ^ (16 - sh)) in *.
  assert (Em : (x * p) mod 65536 = (x mod q) * p) by (rewrite <- Hpq, (Z.mul_comm p q); apply Z.mul_mod_distr_r; lia).
  assert (Ed : y * p / 65536 = y / q) by (rewrite <- Hpq, (Z.mul_comm y p); apply Z.div_mul_cancel_l; lia).
  assert (Hyq : 0 ≤ y / q < p) by (split; [apply Z.div_pos; lia|apply Z.div_lt_upper_bound; lia]).
  rewrite Em, (lor_beside (x mod q) (y / q) sh : _ → _ → Z.lor ((x mod q) * p) (y / q) = _) by (done || lia). fold p.
  pose proof (Z.mod_pos_bound x q Hq). pose proof (Z.div_mod (x * p) 65536 ltac:(lia)) as Hdm. rewrite Em in Hdm.
  assert (0 ≤ (x mod q) * p + y / q < 65536).
  { split; [pose proof (Z.mul_nonneg_nonneg (x mod q) p); lia|].
    assert ((x mod q) * p ≤ (q - 1) * p) by (apply Z.mul_le_mono_nonneg_r; lia). lia. }
  rewrite digit_small by done. rewrite Ed. split; [done|lia].
Qed.

Lemma shl_last x sh : 0 ≤ x < 65536 → 0 < sh < 16 →
  let z := digit (LHALF (Z.shiftl x sh)) in
  0 ≤ z < 65536 ∧ z + x * 2 ^ sh / 65536 * 65536 = x * 2 ^ sh.
Proof.
  intros Hx Hs z. pose proof (shl_digit x 0 sh Hx ltac:(lia) Hs) as H. cbv zeta in H.
  rewrite Z.shiftr_0_l, Z.lor_0_r, Z.mul_0_l in H. change (0 / 65536) with 0 in H. fold z in H. lia.
Qed.

Lemma shl_from_spec len : ∀ a p i sh, ok a → 0 < sh < 16 → 0 ≤ p + i → p + i + Z.of_nat len < 5 →
  ∃ a', shl_from len a p i sh = Ok a' ∧ ok a' ∧ same_outside a a' (p + i) (p + i + Z.of_nat len) ∧
    low a' (p + i + Z.of_nat len) (S len) + dg a (p + i) * 2 ^ sh / 65536 * pw (S len) =
    low a (p + i + Z.of_nat len) (S len) * 2 ^ sh.
Proof.
  induction len as [|len IH]; intros a p i sh Ha Hs H1 H2; cbn [shl_from]; rewrite !aget_dg by (apply Ha || lia); cbn [obind].
  - pose proof (shl_last (dg a (p + i)) sh (ok_digit _ Ha _) Hs) as Hz. cbv zeta in Hz.
    set (z := digit (LHALF (Z.shiftl (dg a (p + i)) sh))) in *. destruct Hz as [Hz E].
    rewrite aset_upd by (apply Ha || lia). eexists. split; [done|]. split; [by apply ok_upd; [|lia|]|].
    split; [apply (same_outside_weaken _ _ _ _ _ _ (same_outside_upd a (p + i) z ltac:(lia))); lia|].
    rewrite !low_last. cbn [low]. rewrite pw_S, pw_0. replace (p + i + Z.of_nat 0) with (p + i) by lia.
    rewrite dg_upd_eq by (apply Ha || lia). lia.
  - pose proof (shl_digit (dg a (p + i)) (dg a (p + (i + 1))) sh (ok_digit _ Ha _) (ok_digit _ Ha _) Hs) as Hz. cbv zeta in Hz.
    match type of Hz with 0 ≤ ?t < _ ∧ _ => set (z := t) in * end. destruct Hz as [Hz E].
    rewrite aset_upd by (apply Ha || lia). cbn [obind].
    assert (Ha1 : ok (upd a (p + i) z)) by (apply ok_upd; [done|lia|done]).
    destruct (IH (upd a (p + i) z) p (i + 1) sh) as (a' & -> & Ha' & Hsame & E'); try done; try lia.
    exists a'. split; [done|]. split; [done|].
    split.
    { apply (same_outside_weaken _ _ _ _ _ _ (same_outside_trans _ _ _ _ _ _ _ (same_outside_upd a (p + i) z ltac:(lia)) Hsame)); lia. }
    rewrite (low_S a' _ (S len)), (low_S a _ (S len)). replace (p + i + Z.of_nat (S len) - Z.of_nat (S len)) with (p + i) by lia.
    rewrite (Hsame (p + i)), dg_upd_eq by (apply Ha || lia).
    rewrite dg_upd_ne in E' by lia. rewrite low_upd in E' by lia.
    replace (p + (i + 1) + Z.of_nat len) with (p + i + Z.of_nat (S len)) in E' by lia.
    rewrite (pw_S (S len)). set (P := pw (S len)) in *. set (c := dg a (p + i) * 2 ^ sh / 65536) in *.
    set (c' := dg a (p + (i + 1)) * 2 ^ sh / 65536) in *.
    assert (F : (z + c * 65536) * P = (dg a (p + i) * 2 ^ sh + c') * P) by (by rewrite E). lia.
Qed.

(** A shift of digits whose first one has room. *)
Lemma shl_spec a p len d : ok a → 0 ≤ d < 16 → 0 ≤ p → p + Z.of_nat len < 5 → dg a p * 2 ^ d < 65536 →
  ∃ a', (if d >? 0 then shl a p (Z.of_nat len) d else Ok a) = Ok a' ∧ ok a' ∧
    same_outside a a' p (p + Z.of_nat len) ∧ low a' (p + Z.of_nat len) (S len) = low a (p + Z.of_nat len) (S len) * 2 ^ d.
Proof.
  intros Ha Hd Hp Hl Hroom. case_test; bool_prop.
  - unfold shl. rewrite Nat2Z.id. destruct (shl_from_spec len a p 0 d) as (a' & -> & Ha' & Hs & Ea); try done; try lia.
    rewrite Z.add_0_r in *. exists a'. split; [done|]. split_and!; try done.
    rewrite (Z.div_small (dg a p * 2 ^ d)) in Ea; [lia|].
    split; [|done]. apply Z.mul_nonneg_nonneg; [apply Ha|apply Z.pow_nonneg; lia].
  - assert (d = 0) as -> by lia. exists a. rewrite Z.pow_0_r. split; [done|]. split_and!; try done. lia.
Qed.

(** ** The remainder, shifted back *)

Lemma unshift_digit x y d : 0 ≤ x < 65536 → 0 ≤ y < 65536 → 0 < d < 16 →
  let z := digit (Z.lor (Z.shiftr x d) (LHALF (Z.shiftl y (HALF_BITS - d)))) in
  0 ≤ z < 65536 ∧ z * 2 ^ d + x mod 2 ^ d = x + (y mod 2 ^ d) * 65536.
Proof.
  intros Hx Hy Hd. destruct (pow_d d) as (Hp & Hq & Hpq); [lia|]. unfold HALF_BITS. cbv zeta.
  rewrite LHALF_mod, Z.shiftl_mul_pow2, Z.shiftr_div_pow2 by lia. set (p := 2 ^ d) in *. set (q := 2 ^ (16 - d)) in *.
  assert (Em : (y * q) mod 65536 = (y mod p) * q) by (rewrite <- Hpq; apply Z.mul_mod_distr_r; lia).
  assert (Hxp : 0 ≤ x / p < q) by (split; [apply Z.div_pos; lia|apply Z.div_lt_upper_bound; lia]).
  rewrite Em, Z.lor_comm, (lor_beside (y mod p) (x / p) (16 - d) : _ → _ → Z.lor ((y mod p) * q) (x / p) = _) by (done || lia). fold q.
  pose proof (Z.mod_pos_bound y p Hp). pose proof (Z.div_mod x p ltac:(lia)) as Hdm.
  assert (0 ≤ (y mod p) * q + x / p < 65536).
  { split; [pose proof (Z.mul_nonneg_nonneg (y mod p) q); lia|].
    assert ((y mod p) * q ≤ (p - 1) * q) by (apply Z.mul_le_mono_nonneg_r; lia). lia. }
  rewrite digit_small by done. split; [done|]. rewrite <- Hpq. lia.
Qed.

Lemma unshift_spec k : ∀ a u m d, ok a → 0 < d < 16 → 0 ≤ u + m → u + m + Z.of_nat k < 5 →
  let e := u + m + Z.of_nat k in
  ∃ a', unshift k a u m d = Ok a' ∧ ok a' ∧ same_outside a a' (u + m + 1) e ∧
    low a' e k * 2 ^ d + dg a e mod 2 ^ d = low a e k + (dg a (u + m) mod 2 ^ d) * pw k.
Proof.
  induction k as [|k IH]; intros a u m d Ha Hd H1 H2 e.
  { exists a. split; [done|]. split_and!; try done. cbn [low]. rewrite pw_0. unfold e.
    replace (u + m + Z.of_nat 0) with (u + m) by lia. lia. }
  cbn [unshift]. replace (u + (m + Z.of_nat (S k))) with e by lia.
  replace (u + (m + Z.of_nat (S k) - 1)) with (e - 1) by lia.
  rewrite !aget_dg by (apply Ha || lia). cbn [obind].
  pose proof (unshift_digit (dg a e) (dg a (e - 1)) d (ok_digit _ Ha _) (ok_digit _ Ha _) Hd) as Hz. cbv zeta in Hz.
  match type of Hz with 0 ≤ ?t < _ ∧ _ => set (z := t) in * end. destruct Hz as [Hz E].
  rewrite aset_upd by (apply Ha || lia). cbn [obind].
  assert (Ha1 : ok (upd a e z)) by (apply ok_upd; [done|lia|done]).
  destruct (IH (upd a e z) u m d) as (a' & -> & Ha' & Hsame & E'); try done; try lia.
  exists a'. split; [done|]. split; [done|]. replace (u + m + Z.of_nat k) with (e - 1) in * by lia. split.
  { apply (same_outside_weaken _ _ _ _ _ _ (same_outside_trans _ _ _ _ _ _ _ (same_outside_upd a e z ltac:(lia)) Hsame)); lia. }
  rewrite !low_last, pw_S. rewrite (Hsame e), dg_upd_eq by (apply Ha || lia).
  rewrite !dg_upd_ne in E' by lia. rewrite low_upd in E' by lia. lia.
Qed.


(** ** Digits and quads *)

Lemma combine4_spec a : length a = 5%nat → (∀ i, 1 ≤ i < 5 → 0 ≤ dg a i < 65536) → combine4 a = Ok (low a 4 4).
Proof.
  intros Hl Hd. unfold combine4. rewrite !aget_dg by (done || lia). cbn [obind]. f_equal.
  unfold Quad.uq, LONG_BITS. cbn [ulH ulL]. rewrite !COMBINE_val by (apply Hd; lia).
  cbn [low]. change (4 - Z.of_nat 0) with 4. change (4 - Z.of_nat 1) with 3. change (4 - Z.of_nat 2) with 2.
  change (4 - Z.of_nat 3) with 1. rewrite !pw_S, pw_0, pow32. lia.
Qed.

(** Leading digits that are zero can be left out. *)
Lemma low_drop a k : (k ≤ 4)%nat → (∀ i, 1 ≤ i ≤ 4 - Z.of_nat k → dg a i = 0) → low a 4 4 = low a 4 k.
Proof.
  intros Hk Hz. pose proof (low_split a 4 k (4 - k)) as H. replace (k + (4 - k))%nat with 4%nat in H by lia.
  rewrite H, (low_zero a (4 - Z.of_nat k)); [lia|]. intros i Hi. apply Hz. lia.
Qed.

Lemma digits_of_spec first x : 0 ≤ first < 65536 → 0 ≤ x < 2 ^ 64 →
  ok (digits_of first x) ∧ dg (digits_of first x) 0 = first ∧ low (digits_of first x) 4 4 = x.
Proof.
  intros Hf Hx. destruct (of_q_spec x) as ([H1 H2] & _).
  destruct (halves (ulH (of_q x))) as (E1 & R1 & R2 & _); [by rewrite pow32|].
  destruct (halves (ulL (of_q x))) as (E2 & R3 & R4 & _); [by rewrite pow32|].
  split; [|split; [done|]].
  - split; [done|]. intros i. unfold dg, digits_of.
    assert (Hn : ∀ j : nat, 0 ≤ [first; digit (HHALF (ulH (of_q x))); digit (LHALF (ulH (of_q x)));
      digit (HHALF (ulL (of_q x))); digit (LHALF (ulL (of_q x)))] !!! j < 65536).
    { intros j. rewrite !digit_small by done. do 5 (destruct j as [|j]; [done|]). change (0 ≤ 1 < 65536). lia. }
    apply Hn.
  - rewrite <- (of_q_unsigned x Hx) at 2. unfold Quad.uq, LONG_BITS, digits_of. rewrite !digit_small by done.
    set (a := _ :: _). change (low a 4 4) with (0 + a !!! 4%nat * pw 0 + a !!! 3%nat * pw 1 + a !!! 2%nat * pw 2 + a !!! 1%nat * pw 3).
    unfold a. cbn [lookup_total list_lookup_total]. rewrite !pw_S, pw_0, pow32. lia.
Qed.

(** ** The loops that count *)

Lemma skip_v_spec vs : ok vs → 0 < low vs 4 4 →
  ∃ s, skip_v 4 vs 0 4 = Ok s ∧
    match s with
    | OneDigit v => v = 2 ∧ low vs 4 4 = dg vs 4
    | Digits v n => ∃ k : nat, n = Z.of_nat k ∧ (2 ≤ k ≤ 4)%nat ∧ v = 4 - n ∧ 0 < dg vs (v + 1) ∧ low vs 4 4 = low vs 4 k
    end.
Proof.
  intros Hvs HV. pose proof (ok_digit _ Hvs) as Hd. pose proof (ok_length _ Hvs) as Hl. cbn [skip_v].
  rewrite aget_dg by (done || lia). cbn [obind]. case_test; bool_prop.
  2: { exists (Digits 0 4). split; [done|]. exists 4%nat. split_and!; try done; try lia. specialize (Hd (0 + 1)). lia. }
  change (4 - 1 =? 1) with false. cbv iota. change (4 - 1) with 3. rewrite aget_dg by (done || lia). cbn [obind]. case_test; bool_prop.
  2: { exists (Digits 1 3). split; [done|]. exists 3%nat. split_and!; try done; try lia; [change (0 + 1 + 1) with (1 + 1) in *; specialize (Hd (1 + 1)); lia|].
       apply low_drop; [lia|]. intros i Hi. by replace i with 1 by lia. }
  change (3 - 1 =? 1) with false. cbv iota. change (3 - 1) with 2. rewrite aget_dg by (done || lia). cbn [obind]. case_test; bool_prop.
  2: { exists (Digits 2 2). split; [done|]. exists 2%nat. split_and!; try done; try lia; [change (0 + 1 + 1 + 1) with (2 + 1) in *; specialize (Hd (2 + 1)); lia|].
       apply low_drop; [lia|]. intros i Hi. assert (i = 1 ∨ i = 2) as [-> | ->] by lia; done. }
  exists (OneDigit 2). split; [done|]. split; [done|]. rewrite (low_drop vs 1); [|lia|].
  - cbn [low]. rewrite pw_0. change (4 - Z.of_nat 0) with 4. lia.
  - intros i Hi. assert (i = 1 ∨ i = 2 ∨ i = 3) as [-> | [-> | ->]] by lia; done.
Qed.

Lemma skip_u_spec fuel : ∀ a u m, length a = 5%nat → 0 ≤ u → (∃ i, u < i ≤ 4 ∧ dg a i ≠ 0) → 5 - u ≤ Z.of_nat fuel →
  ∃ u', skip_u fuel a u m = Ok (u', m - (u' - u)) ∧ u ≤ u' < 4 ∧ (∀ i, u < i ≤ u' → dg a i = 0).
Proof.
  induction fuel as [|fuel IH]; intros a u m Hl Hu (i & Hi & Hne) Hf; [lia|]. cbn [skip_u].
  rewrite aget_dg by (done || lia). cbn [obind]. case_test; bool_prop.
  - destruct (IH a (u + 1) (m - 1) Hl) as (u' & -> & Hu' & Hz); [lia| |lia|].
    { exists i. split; [|done]. assert (i ≠ u + 1) by (intros ->; done). lia. }
    exists u'. split; [do 2 f_equal; lia|]. split; [lia|]. intros j Hj.
    destruct (decide (j = u + 1)) as [->|]; [done|]. apply Hz. lia.
  - exists u. split; [do 2 f_equal; lia|]. split; [lia|]. intros j Hj. lia.
Qed.

Lemma zero_q_spec k : ∀ qs, length qs = 5%nat → (k ≤ 5)%nat →
  ∃ qs', zero_q k qs 0 = Ok qs' ∧ length qs' = 5%nat ∧
    ∀ i, 0 ≤ i < 5 → dg qs' i = if i <? Z.of_nat k then 0 else dg qs i.
Proof.
  induction k as [|k IH]; intros qs Hl Hk; cbn [zero_q].
  - exists qs. split; [done|]. split; [done|]. intros i Hi. case_test; bool_prop; [lia|done].
  - rewrite aset_upd by (done || lia). cbn [obind].
    destruct (IH (upd qs (0 + Z.of_nat k) 0)) as (qs' & -> & Hl' & Hd); [by rewrite length_upd|lia|].
    exists qs'. split; [done|]. split; [done|]. intros i Hi. rewrite Hd by done.
    destruct (decide (i = Z.of_nat k)) as [->|].
    + rewrite Z.ltb_irrefl. replace (Z.of_nat k <? Z.of_nat (S k)) with true by (symmetry; apply Z.ltb_lt; lia).
      apply dg_upd_eq; [done|lia].
    + rewrite dg_upd_ne by lia. repeat (case_test; bool_prop); try done; lia.
Qed.


(** ** Division by one digit *)

(** One step of the long division: the next digit, and the remainder with the
    digit that follows. *)
Lemma short_step r x t : 0 ≤ r < t → t < 65536 → 0 ≤ x < 65536 →
  0 ≤ (r * 65536 + x) / t < 65536 ∧ 0 ≤ (r * 65536 + x) mod t < t.
Proof.
  intros Hr Ht Hx. split; [|apply Z.mod_pos_bound; lia].
  split; [apply Z.div_pos; lia|apply Z.div_lt_upper_bound; lia].
Qed.

Lemma divide_short_spec us vs : ok us → ok vs → dg vs 4 ≠ 0 →
  divide_short us vs 2 = Ok (low us 4 4 / dg vs 4, low us 4 4 mod dg vs 4).
Proof.
  intros Hus Hvs Ht. unfold divide_short. change (2 + 2) with 4. rewrite !aget_dg by (apply Hus || apply Hvs || lia).
  cbn [obind]. pose proof (ok_digit _ Hvs 4) as Ht'. pose proof (ok_digit _ Hus) as Hd. set (t := dg vs 4) in *.
  rewrite udiv_Ok, umod_Ok by done. cbn [obind].
  set (x1 := dg us 1). set (x2 := dg us 2). set (x3 := dg us 3). set (x4 := dg us 4).
  pose proof (short_step 0 x1 t ltac:(lia) ltac:(lia) (Hd 1)) as [H1 R1]. rewrite Z.mul_0_l, Z.add_0_l in H1, R1.
  pose proof (Hd 1) as X1. pose proof (Hd 2) as X2. pose proof (Hd 3) as X3. pose proof (Hd 4) as X4.
  fold x1 in X1. fold x2 in X2. fold x3 in X3. fold x4 in X4.
  rewrite (COMBINE_val (x1 mod t) x2) by lia. rewrite udiv_Ok, umod_Ok by done. cbn [obind].
  pose proof (short_step _ x2 t R1 ltac:(lia) X2) as [H2 R2].
  rewrite (COMBINE_val ((x1 mod t * 65536 + x2) mod t) x3) by lia. rewrite udiv_Ok, umod_Ok by done. cbn [obind].
  pose proof (short_step _ x3 t R2 ltac:(lia) X3) as [H3 R3].
  set (r2 := (x1 mod t * 65536 + x2) mod t) in *.
  rewrite (COMBINE_val ((r2 * 65536 + x3) mod t) x4) by lia. rewrite udiv_Ok, umod_Ok by done. cbn [obind].
  pose proof (short_step _ x4 t R3 ltac:(lia) X4) as [H4 R4].
  set (r3 := (r2 * 65536 + x3) mod t) in *.
  rewrite !digit_small by done. rewrite !COMBINE_val by done. unfold Quad.uq, LONG_BITS. cbn [ulH ulL].
  assert (EU : low us 4 4 = x1 * 65536 ^ 3 + x2 * 65536 ^ 2 + x3 * 65536 + x4).
  { unfold x1, x2, x3, x4. cbn [low]. rewrite !pw_S, pw_0. change (4 - Z.of_nat 0) with 4. change (4 - Z.of_nat 1) with 3.
    change (4 - Z.of_nat 2) with 2. change (4 - Z.of_nat 3) with 1. lia. }
  pose proof (Z.div_mod x1 t Ht) as D1. pose proof (Z.div_mod (x1 mod t * 65536 + x2) t Ht) as D2. fold r2 in D2.
  pose proof (Z.div_mod (r2 * 65536 + x3) t Ht) as D3. fold r3 in D3. pose proof (Z.div_mod (r3 * 65536 + x4) t Ht) as D4.
  set (q1 := x1 / t) in *. set (q2 := (x1 mod t * 65536 + x2) / t) in *. set (q3 := (r2 * 65536 + x3) / t) in *.
  set (q4 := (r3 * 65536 + x4) / t) in *. set (r4 := (r3 * 65536 + x4) mod t) in *.
  rewrite EU. change (65536 ^ 3) with 281474976710656. change (65536 ^ 2) with 4294967296. rewrite pow32.
  f_equal. f_equal.
  - apply Z.div_unique with r4; [lia|]. lia.
  - apply Z.mod_unique with ((q1 * 65536 + q2) * 4294967296 + (q3 * 65536 + q4)); [lia|]. lia.
Qed.

(** ** Program D *)

(** The dividend without its leading zeros has the room for a quotient. *)
Lemma leading_digits us vs n :
  ok us → ok vs → dg us 0 = 0 → (2 ≤ n ≤ 4)%nat → 0 < dg vs (5 - Z.of_nat n) → low vs 4 n ≤ low us 4 4 →
  ∃ u m : nat, skip_u 5 us 0 (4 - Z.of_nat n) = Ok (Z.of_nat u, Z.of_nat m) ∧ (u + m + n = 4)%nat ∧
    (∀ i, 0 ≤ i ≤ Z.of_nat u → dg us i = 0) ∧ low us 4 4 = low us 4 (m + n).
Proof.
  intros Hus Hvs H0 Hn Hv Hle. destruct n as [|n]; [lia|].
  pose proof (low_range vs 4 n Hvs). pose proof (pw_pos n). pose proof (pw_pos 1) as Hp1. rewrite low_S in Hle.
  replace (4 - Z.of_nat n) with (5 - Z.of_nat (S n)) in Hle by lia.
  destruct (skip_u_spec 5 us 0 (4 - Z.of_nat (S n))) as (u & E & Hu & Hz); [apply Hus|lia| |lia|].
  { apply (low_nonzero us 4 4). nia. }
  assert (Hd : low us 4 4 = low us 4 (Z.to_nat (4 - u))) by (apply low_drop; [lia|]; intros i Hi; apply Hz; lia).
  pose proof (low_range us 4 (Z.to_nat (4 - u)) Hus) as Hr.
  assert (Hn' : (S n ≤ Z.to_nat (4 - u))%nat).
  { destruct (decide (S n ≤ Z.to_nat (4 - u))%nat); [done|]. pose proof (pw_mono (Z.to_nat (4 - u)) n). nia. }
  exists (Z.to_nat u), (Z.to_nat (4 - u) - S n)%nat. rewrite E. split; [do 2 f_equal; lia|]. split; [lia|].
  split; [|rewrite Hd; f_equal; lia]. intros i Hi. destruct (decide (i = 0)) as [->|]; [done|]. apply Hz. lia.
Qed.


(** The normalised divisor has a large first digit. *)
Lemma first_digit_large a n t d : ok a → 0 ≤ d → (1 ≤ n)%nat → 32768 ≤ t * 2 ^ d →
  t * pw (n - 1) * 2 ^ d ≤ low a 4 n → 32768 ≤ dg a (5 - Z.of_nat n).
Proof.
  intros Ha Hd Hn Ht Hl. destruct n as [|n]; [lia|]. replace (S n - 1)%nat with n in Hl by lia.
  rewrite low_S in Hl. replace (4 - Z.of_nat n) with (5 - Z.of_nat (S n)) in Hl by lia.
  pose proof (low_range a 4 n Ha). pose proof (pw_pos n).
  assert (32768 * pw n ≤ t * 2 ^ d * pw n) by (apply Z.mul_le_mono_nonneg_r; lia). nia.
Qed.

(** A quotient does not change when both numbers are shifted. *)
Lemma unshift_quotient U V Q R p : 0 < p → U * p = Q * (V * p) + R → 0 ≤ R < V * p →
  U / V = Q ∧ R = (U mod V) * p.
Proof.
  intros Hp E HR. assert (HV : 0 < V) by nia.
  assert (EQ : U / V = Q).
  { rewrite <- (Z.div_mul_cancel_r U V p) by lia. symmetry. apply Z.div_unique with R; [lia|]. lia. }
  split; [done|]. rewrite Z.mod_eq, EQ by lia. lia.
Qed.

Lemma remainder_spec us u m (n : nat) d r : ok us → 0 ≤ d < 16 → 0 ≤ u + m → u + m + Z.of_nat n = 4 →
  (∀ i, 0 ≤ i ≤ u + m → dg us i = 0) → low us 4 n = r * 2 ^ d → remainder us u m (Z.of_nat n) d = Ok r.
Proof.
  intros Hus Hd Hum Hn Hz Er. unfold remainder. assert (Hp : 0 < 2 ^ d) by (apply Z.pow_pos_nonneg; lia).
  destruct (d =? 0) eqn:E0; bool_prop; cbn [negb].
  - subst d. rewrite Z.pow_0_r, Z.mul_1_r in Er. cbn [obind]. rewrite combine4_spec by (intros; apply Hus). f_equal.
    rewrite <- Er. apply low_drop; [lia|]. intros i Hi. apply Hz. lia.
  - rewrite Nat2Z.id. destruct (unshift_spec n us u m d) as (a & -> & Ha & Hs & E); try done; try lia.
    cbn [obind]. rewrite aset_upd by (apply Ha || lia). cbn [obind].
    rewrite Hn in Hs, E. rewrite (Hz (u + m)), Z.mod_0_l, Z.mul_0_l, Z.add_0_r in E by lia.
    assert (Ha' : ok (upd a (u + m) 0)) by (apply ok_upd; [done|lia|lia]).
    rewrite combine4_spec by (intros; apply Ha'). f_equal.
    rewrite (low_drop _ n); [|lia|].
    + rewrite low_upd by lia. pose proof (Z.mod_pos_bound (dg us 4) (2 ^ d) Hp). nia.
    + intros i Hi. destruct (decide (i = u + m)) as [->|]; [by apply dg_upd_eq; [apply Ha|lia]|].
      rewrite dg_upd_ne by lia. rewrite (Hs i) by lia. apply Hz. lia.
Qed.

Lemma divide_normal_spec us vs qs (u m n : nat) d U V arq :
  ok us → ok vs → length qs = 5%nat → (2 ≤ n)%nat → (u + m + n = 4)%nat → 0 ≤ d < 16 →
  32768 ≤ dg vs (5 - Z.of_nat n) → low us 4 (S (m + n)) = U * 2 ^ d → low vs 4 n = V * 2 ^ d →
  U < pw (m + n) → pw (n - 1) ≤ V →
  (∀ i, 0 ≤ i < Z.of_nat u → dg us i = 0) → (∀ i, 0 ≤ i < 4 - Z.of_nat m → dg qs i = 0) →
  divide_normal us vs qs (Z.of_nat u) (4 - Z.of_nat n) (Z.of_nat m) (Z.of_nat n) d arq =
  Ok (U / V, if arq then Some (U mod V) else None).
Proof.
  intros Hus Hvs Hqs Hn Hum Hd Hv EU EV HU HV Hz Hqz. unfold divide_normal.
  assert (Hp : 0 < 2 ^ d) by (apply Z.pow_pos_nonneg; lia).
  replace (4 - Z.of_nat n + 1) with (5 - Z.of_nat n) by lia. replace (4 - Z.of_nat n + 2) with (6 - Z.of_nat n) by lia.
  rewrite !aget_dg by (apply Hvs || lia). cbn [obind]. replace (Z.to_nat (Z.of_nat m + 1)) with (S m) by lia.
  destruct (divide_loop_spec (S m) us (Z.of_nat u) vs (4 - Z.of_nat n) n (dg vs (5 - Z.of_nat n)) (dg vs (6 - Z.of_nat n))
    qs (4 - Z.of_nat m) 0) as (us' & qs' & -> & Hus' & Hl' & Hq1 & Hq2 & Hu1 & Hu2 & ET & HR); try done; try lia.
  { f_equal. lia. } { f_equal. lia. }
  { pose proof (low_split us 4 (S m) n) as Hs. replace (S m + n)%nat with (S (m + n)) in Hs by lia. rewrite EU in Hs.
    pose proof (low_range us 4 (S m) Hus). pose proof (pw_pos (S m)).
    assert (Hpw : pw (m + n) = pw (n - 1) * pw (S m)) by (rewrite <- pw_add; f_equal; lia).
    assert (U * 2 ^ d < pw (n - 1) * pw (S m) * 2 ^ d) by (rewrite <- Hpw; apply Z.mul_lt_mono_pos_r; lia).
    assert (pw (n - 1) * pw (S m) * 2 ^ d ≤ V * 2 ^ d * pw (S m)).
    { replace (pw (n - 1) * pw (S m) * 2 ^ d) with (pw (n - 1) * (2 ^ d * pw (S m))) by lia.
      rewrite <- (Z.mul_assoc V). apply Z.mul_le_mono_nonneg_r; [|done]. apply Z.mul_nonneg_nonneg; lia. }
    rewrite EV. apply (Z.mul_lt_mono_pos_r (pw (S m))); [done|lia]. }
  cbn [obind]. replace (S m + n)%nat with (S (m + n)) in ET by lia. rewrite EU, EV in ET. rewrite EV in HR.
  destruct (unshift_quotient U V (low qs' 4 (S m)) (low us' 4 n) (2 ^ d) Hp ET) as [EQ ER].
  { split; [apply low_range; done|done]. }
  assert (Equot : combine4 qs' = Ok (U / V)).
  { rewrite combine4_spec; [|done|].
    - rewrite (low_drop _ (S m)), EQ; [done|lia|]. intros i Hi. rewrite Hq1 by lia. apply Hqz. lia.
    - intros i Hi. destruct (decide (i < 4 - Z.of_nat m)); [|apply Hq2; lia]. rewrite Hq1, Hqz by lia. lia. }
  rewrite (remainder_spec us' (Z.of_nat u) (Z.of_nat m) n d (U mod V)); try done; try lia.
  - rewrite Equot. by destruct arq.
  - intros i Hi. destruct (decide (i < Z.of_nat u)); [|apply Hu2; lia]. rewrite Hu1 by lia. apply Hz. lia.
Qed.

(** ** Signed division *)

Lemma u64_abs a : is_s 64 a →
  (if a <? 0 then (u64 (- u64 a), 1) else (u64 a, 0)) = (Z.abs a, if a <? 0 then 1 else 0) ∧
  0 ≤ Z.abs a < 2 ^ 64.
Proof.
  intros Ha. rewrite is_s64_iff in Ha. rewrite pow64. split; [|lia]. unfold unsigned_of. rewrite pow64.
  case_test; bool_prop; f_equal; [|rewrite Z.mod_small; lia].
  symmetry. apply Z.mod_unique with (-1); [lia|].
  rewrite (Z.mod_eq a) by lia. assert (a / 18446744073709551616 = -1) as ->; [|lia].
  symmetry. apply Z.div_unique with (a + 18446744073709551616); lia.
Qed.

Lemma u64_abs_fst a : is_s 64 a → (if a <? 0 then u64 (- u64 a) else u64 a) = Z.abs a.
Proof. intros Ha. destruct (u64_abs a Ha) as [E _]. by destruct (a <? 0); injection E. Qed.

(** The sign put back on a magnitude. *)
Lemma signed_result (neg : bool) q : 0 ≤ q < 2 ^ 64 →
  s64 (if neg then u64 (- q) else q) = s64 (if neg then - q else q).
Proof.
  intros _. destruct neg; [|done]. unfold signed_of, unsigned_of. rewrite Z.mod_mod by (rewrite pow64; lia). done.
Qed.

Lemma quot_abs a b : b ≠ 0 → Z.quot a b = if xorb (a <? 0) (b <? 0) then - (Z.abs a / Z.abs b) else Z.abs a / Z.abs b.
Proof.
  intros Hb. rewrite Z.quot_div by done.
  destruct (Z.ltb_spec a 0), (Z.ltb_spec b 0); cbn [xorb];
    rewrite ?(Z.sgn_neg a), ?(Z.sgn_neg b), ?(Z.sgn_pos b) by lia;
    (destruct (decide (a = 0)) as [->|]; [rewrite ?Z.div_0_l by lia; lia|rewrite ?(Z.sgn_pos a) by lia; lia]).
Qed.

Lemma rem_abs a b : b ≠ 0 → Z.rem a b = if a <? 0 then - (Z.abs a mod Z.abs b) else Z.abs a mod Z.abs b.
Proof.
  intros Hb. rewrite Z.rem_mod by done.
  destruct (Z.ltb_spec a 0); [rewrite Z.sgn_neg by lia; lia|].
  destruct (decide (a = 0)) as [->|]; [rewrite ?Z.mod_0_l by lia; lia|rewrite Z.sgn_pos by lia; lia].
Qed.

Lemma div_small_range a b : 0 ≤ a < 2 ^ 64 → 0 < b → 0 ≤ a / b < 2 ^ 64 ∧ 0 ≤ a mod b < 2 ^ 64.
Proof.
  intros Ha Hb. split; (split; [apply Z.div_pos || apply Z.mod_pos_bound; lia|]).
  - apply Z.div_lt_upper_bound; [done|]. rewrite pow64 in *. nia.
  - pose proof (Z.mod_le a b). lia.
Qed.

(** ** The divisions *)

Section frame.
Variable vjunk : Z.
Variable qjunk : list Z.
Hypothesis vjunk_digit : 0 ≤ vjunk < 65536.
Hypothesis qjunk_length : length qjunk = 5%nat.

Lemma divide_long_spec us vs (n : nat) arq :
  ok us → ok vs → dg us 0 = 0 → (2 ≤ n ≤ 4)%nat → 0 < dg vs (5 - Z.of_nat n) → low vs 4 n ≤ low us 4 4 →
  divide_long qjunk us vs (4 - Z.of_nat n) (Z.of_nat n) arq =
  Ok (low us 4 4 / low vs 4 n, if arq then Some (low us 4 4 mod low vs 4 n) else None).
Proof.
  intros Hus Hvs H0 Hn Ht Hle. unfold divide_long.
  destruct (leading_digits us vs n Hus Hvs H0 Hn Ht Hle) as (u & m & -> & Hum & Hz & EU). cbn [obind].
  destruct (zero_q_spec (Z.to_nat (4 - Z.of_nat m)) qjunk qjunk_length) as (qs & -> & Hlq & Hqz); [lia|]. cbn [obind].
  replace (4 - Z.of_nat n + 1) with (5 - Z.of_nat n) by lia. rewrite aget_dg by (apply Hvs || lia). cbn [obind].
  set (t := dg vs (5 - Z.of_nat n)) in *.
  destruct (normal_shift_spec 17 t 0) as (d & -> & Hd & Hr); [split; [done|apply Hvs]| |].
  { change (2 ^ Z.of_nat 17) with 131072. lia. }
  cbn [obind]. rewrite Z.add_0_l. replace (Z.of_nat m + Z.of_nat n) with (Z.of_nat (m + n)) by lia.
  destruct (shl_spec us (Z.of_nat u) (m + n) d) as (us1 & -> & Hus1 & Hs1 & E1); try done; try lia.
  { rewrite (Hz (Z.of_nat u)) by lia. lia. }
  cbn [obind]. replace (Z.of_nat n - 1) with (Z.of_nat (n - 1)) by lia.
  destruct (shl_spec vs (5 - Z.of_nat n) (n - 1) d) as (vs1 & -> & Hvs1 & Hs2 & E2); try done; try lia.
  cbn [obind]. replace (Z.of_nat u + Z.of_nat (m + n)) with 4 in E1 by lia.
  replace (5 - Z.of_nat n + Z.of_nat (n - 1)) with 4 in E2 by lia. replace (S (n - 1)) with n in E2 by lia.
  assert (EU1 : low us 4 (S (m + n)) = low us 4 4) by (rewrite low_S, <- EU, (Hz (4 - Z.of_nat (m + n))) by lia; lia).
  assert (HV : t * pw (n - 1) ≤ low vs 4 n).
  { pose proof (low_S vs 4 (n - 1)) as Hl. replace (S (n - 1)) with n in Hl by lia.
    replace (4 - Z.of_nat (n - 1)) with (5 - Z.of_nat n) in Hl by lia. fold t in Hl.
    pose proof (low_range vs 4 (n - 1) Hvs). lia. }
  apply divide_normal_spec; try done; try lia.
  - apply (first_digit_large vs1 n t d); try done; try lia. rewrite E2.
    apply Z.mul_le_mono_nonneg_r; [apply Z.pow_nonneg; lia|done].
  - rewrite EU. by apply low_range.
  - pose proof (pw_pos (n - 1)). nia.
  - intros i Hi. rewrite (Hs1 i) by lia. apply Hz. lia.
  - intros i Hi. rewrite Hqz by lia. case_test; bool_prop; [done|lia].
Qed.

Lemma __qdivrem_spec a b arq : 0 ≤ a < 2 ^ 64 → 0 < b < 2 ^ 64 →
  __qdivrem vjunk qjunk a b arq = Ok (a / b, if arq then Some (a mod b) else None).
Proof.
  intros Ha Hb. unfold __qdivrem. case_test; bool_prop; [lia|]. case_test; bool_prop.
  { by rewrite Z.div_small, Z.mod_small by lia. }
  destruct (digits_of_spec 0 a) as (Hus & Hu0 & EU); [lia|done|].
  destruct (digits_of_spec vjunk b) as (Hvs & _ & EV); [done|lia|].
  set (us := digits_of 0 a) in *. set (vs := digits_of vjunk b) in *.
  destruct (skip_v_spec vs Hvs) as (s & -> & Hs); [lia|]. cbn [obind]. destruct s as [v|v n].
  - destruct Hs as [-> Es]. rewrite divide_short_spec, <- Es, EU, EV by (done || lia). done.
  - destruct Hs as (k & -> & Hk & -> & Hd & Es).
    rewrite divide_long_spec, <- Es, EU, EV; try done; [|lia].
    by replace (5 - Z.of_nat k) with (4 - Z.of_nat k + 1) by lia.
Qed.


Lemma __divdi3_spec a b : is_s 64 a → is_s 64 b → b ≠ 0 → __divdi3 vjunk qjunk a b = Ok (s64 (Z.quot a b)).
Proof.
  intros Ha Hb Hne. unfold __divdi3. destruct (u64_abs a Ha) as [-> Ra]. destruct (u64_abs b Hb) as [Eb Rb].
  assert ((if b <? 0 then (u64 (- u64 b), Z.lxor (if a <? 0 then 1 else 0) 1) else (u64 b, if a <? 0 then 1 else 0)) =
    (Z.abs b, if xorb (a <? 0) (b <? 0) then 1 else 0)) as ->.
  { pose proof (u64_abs_fst b Hb). destruct (a <? 0), (b <? 0); cbn [xorb]; f_equal; done. }
  destruct (div_small_range (Z.abs a) (Z.abs b) Ra) as [Hq _]; [lia|].
  rewrite __qdivrem_spec by lia. cbn [obind]. rewrite quot_abs by done.
  pose proof (signed_result (xorb (a <? 0) (b <? 0)) _ Hq) as Hs. revert Hs.
  destruct (xorb _ _); cbn [negb Z.eqb]; intros Hs; f_equal; exact Hs.
Qed.

Lemma __moddi3_spec a b : is_s 64 a → is_s 64 b → b ≠ 0 → __moddi3 vjunk qjunk a b = Ok (Z.rem a b).
Proof.
  intros Ha Hb Hne. unfold __moddi3. destruct (u64_abs a Ha) as [-> Ra]. destruct (u64_abs b Hb) as [_ Rb].
  rewrite u64_abs_fst by done. destruct (div_small_range (Z.abs a) (Z.abs b) Ra) as [_ Hq]; [lia|].
  rewrite __qdivrem_spec by lia. cbn [obind stored]. rewrite rem_abs by done.
  pose proof (signed_result (a <? 0) _ Hq) as Hs. rewrite (s64_small (if a <? 0 then - _ else _)) in Hs.
  - revert Hs. destruct (a <? 0); cbn [negb Z.eqb]; intros Hs; f_equal; exact Hs.
  - pose proof (Z.mod_le (Z.abs a) (Z.abs b)). pose proof (Z.mod_pos_bound (Z.abs a) (Z.abs b)).
    rewrite is_s64_iff in *. destruct (Z.ltb_spec a 0); lia.
Qed.

End frame.

(** * Division of quads *)

(** C32: for every divisor other than 0 the unsigned divisions return: the
    long division of [__qdivrem] reads and writes only inside its three
    arrays, each of its loops ends, and it returns the quotient and stores the
    remainder (when asked for one), whatever is on the stack. *)
Theorem qdivrem_correct vjunk qjunk a b :
  is_u 16 vjunk → length qjunk = 5%nat → is_u 64 a → is_u 64 b → b ≠ 0 →
  (∀ arq, __qdivrem vjunk qjunk a b arq = Ok (a / b, if arq then Some (a mod b) else None)) ∧
  __udivdi3 vjunk qjunk a b = Ok (a / b) ∧
  __umoddi3 vjunk qjunk a b = Ok (a mod b).
Proof.
  rewrite is_u16_iff. intros Hv Hq Ha [Hb1 Hb2] Hne.
  assert (Hs : ∀ arq, __qdivrem vjunk qjunk a b arq = Ok (a / b, if arq then Some (a mod b) else None))
    by (intros; apply __qdivrem_spec; (done || lia)).
  split; [done|]. unfold __udivdi3, __umoddi3. by rewrite !Hs.
Qed.

(** The case in which the trial quotient is one too large and the divisor is
    added back. *)
Lemma qdivrem_correct_witness :
  __qdivrem 7 [1; 2; 3; 4; 5] 0x7fff800100000000 0x800080020005 true =
  Ok (0x7fff800100000000 / 0x800080020005, Some (0x7fff800100000000 mod 0x800080020005)).
Proof.
  refine (proj1 (qdivrem_correct 7 [1; 2; 3; 4; 5] 0x7fff800100000000 0x800080020005 _ _ _ _ _) true);
    [by_decide|reflexivity|by_decide|by_decide|discriminate].
Defined.

(** The signed divisions round towards zero, as C asks, with a remainder
    of the sign of the dividend; the only quotient that does not fit,
    -2^63 / -1, wraps. *)
Theorem divdi3_moddi3_correct vjunk qjunk a b :
  is_u 16 vjunk → length qjunk = 5%nat → is_s 64 a → is_s 64 b → b ≠ 0 →
  __divdi3 vjunk qjunk a b = Ok (if bool_decide (a = - 2 ^ 63 ∧ b = -1) then a else Z.quot a b) ∧
  __moddi3 vjunk qjunk a b = Ok (Z.rem a b).
Proof.
  rewrite is_u16_iff. intros Hv Hq Ha Hb Hne. split; [|by apply __moddi3_spec].
  rewrite __divdi3_spec by done. f_equal. case_bool_decide as Hc; [by destruct Hc as [-> ->]|].
  apply s64_small. rewrite is_s64_iff in *. change (2 ^ 63) with 9223372036854775808 in Hc. rewrite quot_abs by done.
  assert (Hd : Z.abs a / Z.abs b ≤ Z.abs a) by (apply Z.div_le_upper_bound; [lia|nia]).
  assert (H0 : 0 ≤ Z.abs a / Z.abs b) by (apply Z.div_pos; lia).
  destruct (decide (Z.abs b = 1)) as [E1|].
  - rewrite E1, Z.div_1_r in *. destruct (Z.ltb_spec a 0), (Z.ltb_spec b 0); cbn [xorb]; try lia.
  - assert (Z.abs a / Z.abs b ≤ 4611686018427387904) by (apply Z.div_le_upper_bound; [lia|nia]).
    destruct (xorb _ _); lia.
Qed.

Lemma divdi3_moddi3_correct_witness :
  __divdi3 7 [1; 2; 3; 4; 5] (-7000000000000) 65537 = Ok (-106809893) ∧
  __moddi3 7 [1; 2; 3; 4; 5] (-7000000000000) 65537 = Ok (Z.rem (-7000000000000) 65537).
Proof.
  refine (divdi3_moddi3_correct 7 [1; 2; 3; 4; 5] (-7000000000000) 65537 _ _ _ _ _);
    [by_decide|reflexivity|by_decide|by_decide|discriminate].
Defined.

End QuadDivTheory.
