(* ===== verification/Qsort.v ===== *)
(** Sorting and searching: sys/libkern/qsort.c and sys/libkern/bsearch.c, on an array of elements of any type.

    A pointer into the array is the index of its element; [es] is the size of an
    element in bytes, and what the code keeps in variables of type int is counted
    in bytes and truncated as the code truncates it.  How an element is copied, by
    longs or by bytes, is left out.  The comparison is the caller's. *)

From stdpp Require Import base list.
From S2P Require Import Prelude.

Module Qsort.

Section qsort.
Context {A : Type} (cmp : A → A → Z) (es : Z).

Definition compare (arr : list A) (i j : Z) : outcome Z :=
  let* x := aget arr i in
  let* y := aget arr j in
  Ok (cmp x y).

Definition swap (arr : list A) (i j : Z) : outcome (list A) :=
  let* x := aget arr i in
  let* y := aget arr j in
  let* arr := aset arr i y in
  aset arr j x.

(** [swapfunc] of [n] elements, from the first to the last. *)
Fixpoint swapfunc (arr : list A) (i j : Z) (n : nat) : outcome (list A) :=
  match n with
  | O => Ok arr
  | S n => let* arr := swap arr i j in swapfunc arr (i + 1) (j + 1) n
  end.

Definition vecswap (arr : list A) (i j n : Z) : outcome (list A) :=
  if n >? 0 then swapfunc arr i j (Z.to_nat n) else Ok arr.

(** A number of bytes as elements; a pointer that is moved by another number
    points to no element. *)
Definition elements (bytes : Z) : outcome Z := if bytes mod es =? 0 then Ok (bytes / es) else Undef OutOfBounds.

Definition med3 (arr : list A) (a b c : Z) : outcome Z :=
  let* ab := compare arr a b in
  if ab <? 0 then
    let* bc := compare arr b c in
    if bc <? 0 then Ok b
    else let* ac := compare arr a c in Ok (if ac <? 0 then c else a)
  else
    let* bc := compare arr b c in
    if bc >? 0 then Ok b
    else let* ac := compare arr a c in Ok (if ac <? 0 then a else c).

(** ** Insertion sort *)

(** The element at [pl] moves down. *)
Fixpoint insert_down (fuel : nat) (arr : list A) (a pl : Z) : outcome (list A) :=
  match fuel with
  | O => NoFuel
  | S fuel =>
      if pl >? a then
        let* r := compare arr (pl - 1) pl in
        if r >? 0 then
          let* arr := swap arr pl (pl - 1) in insert_down fuel arr a (pl - 1)
        else Ok arr
      else Ok arr
  end.

Fixpoint insertion (fuel : nat) (arr : list A) (a n pm : Z) : outcome (list A) :=
  match fuel with
  | O => NoFuel
  | S fuel =>
      if pm <? a + n then
        let* arr := insert_down (S (Z.to_nat (pm - a))) arr a pm in insertion fuel arr a n (pm + 1)
      else Ok arr
  end.

(** ** Partition *)

Definition pivot (arr : list A) (a n : Z) : outcome Z :=
  let pm := a + n / 2 in
  if n >? 7 then
    let pl := a in
    let pn := a + (n - 1) in
    if n >? 40 then
      let d := s32 (n / 8 * es) in
      let* d2 := elements (s32 (2 * d)) in
      let* d := elements d in
      let* pl := med3 arr pl (pl + d) (pl + d2) in
      let* pm := med3 arr (pm - d) pm (pm + d) in
      let* pn := med3 arr (pn - d2) (pn - d) pn in
      med3 arr pl pm pn
    else med3 arr pl pm pn
  else Ok pm.

(** What the two inner loops and the loop around them work on. *)
Record parts := Parts {
  p_arr : list A;
  p_a : Z;
  p_b : Z;
  p_c : Z;
  p_d : Z;
  p_swap_cnt : bool
}.

(** While the elements at [pb] are not above the pivot. *)
Fixpoint scan_up (fuel : nat) (a : Z) (p : parts) : outcome parts :=
  match fuel with
  | O => NoFuel
  | S fuel =>
      if p_b p <=? p_c p then
        let* r := compare (p_arr p) (p_b p) a in
        if r <=? 0 then
          if r =? 0 then
            let* arr := swap (p_arr p) (p_a p) (p_b p) in
            scan_up fuel a (Parts arr (p_a p + 1) (p_b p + 1) (p_c p) (p_d p) true)
          else scan_up fuel a (Parts (p_arr p) (p_a p) (p_b p + 1) (p_c p) (p_d p) (p_swap_cnt p))
        else Ok p
      else Ok p
  end.

(** While the elements at [pc] are not below the pivot. *)
Fixpoint scan_down (fuel : nat) (a : Z) (p : parts) : outcome parts :=
  match fuel with
  | O => NoFuel
  | S fuel =>
      if p_b p <=? p_c p then
        let* r := compare (p_arr p) (p_c p) a in
        if r >=? 0 then
          if r =? 0 then
            let* arr := swap (p_arr p) (p_c p) (p_d p) in
            scan_down fuel a (Parts arr (p_a p) (p_b p) (p_c p - 1) (p_d p - 1) true)
          else scan_down fuel a (Parts (p_arr p) (p_a p) (p_b p) (p_c p - 1) (p_d p) (p_swap_cnt p))
        else Ok p
      else Ok p
  end.

Fixpoint partition (fuel : nat) (a : Z) (p : parts) : outcome parts :=
  match fuel with
  | O => NoFuel
  | S fuel' =>
      let* p := scan_up fuel a p in
      let* p := scan_down fuel a p in
      if p_b p >? p_c p then Ok p
      else
        let* arr := swap (p_arr p) (p_b p) (p_c p) in
        partition fuel' a (Parts arr (p_a p) (p_b p + 1) (p_c p - 1) (p_d p) true)
  end.

(** The elements equal to the pivot are moved from the ends to the middle. *)
Definition gather (a n : Z) (p : parts) : outcome (list A) :=
  let pn := a + n in
  let* r := elements (s32 (if (p_a p - a) * es <? (p_b p - p_a p) * es then (p_a p - a) * es else (p_b p - p_a p) * es)) in
  let* arr := vecswap (p_arr p) a (p_b p - r) r in
  let* r := elements (s32 (if (p_d p - p_c p) * es <? (pn - p_d p) * es - es then (p_d p - p_c p) * es else (pn - p_d p) * es - es)) in
  vecswap arr (p_b p) (pn - r) r.

(** ** The whole *)

Fixpoint kqsort (fuel : nat) (arr : list A) (a n : Z) : outcome (list A) :=
  match fuel with
  | O => NoFuel
  | S fuel =>
      if n <? 7 then insertion (S (Z.to_nat n)) arr a n (a + 1)
      else
        let* pm := pivot arr a n in
        let* arr := swap arr a pm in
        let* p := partition (Z.to_nat n) a (Parts arr (a + 1) (a + 1) (a + (n - 1)) (a + (n - 1)) false) in
        if negb (p_swap_cnt p) then insertion (S (Z.to_nat n)) (p_arr p) a n (a + 1)
        else
          let pn := a + n in
          let* arr := gather a n p in
          let r := s32 ((p_b p - p_a p) * es) in
          let* arr := if u64 r >? es then kqsort fuel arr a (u64 r / es) else Ok arr in
          let r := s32 ((p_d p - p_c p) * es) in
          if u64 r >? es then let* k := elements r in kqsort fuel arr (pn - k) (u64 r / es) else Ok arr
  end.

End qsort.

(** ** kbsearch *)

Section bsearch.
Context {K A : Type} (compar : K → A → Z).

Fixpoint kbsearch_loop (fuel : nat) (key : K) (arr : list A) (base lim : Z) : outcome (option Z) :=
  match fuel with
  | O => NoFuel
  | S fuel =>
      if lim =? 0 then Ok None
      else
        let p := base + Z.shiftr lim 1 in
        let* x := aget arr p in
        let cmp := compar key x in
        if cmp =? 0 then Ok (Some p)
        else if cmp >? 0 then kbsearch_loop fuel key arr (p + 1) (Z.shiftr (lim - 1) 1)
        else kbsearch_loop fuel key arr base (Z.shiftr lim 1)
  end.

Definition kbsearch (fuel : nat) (key : K) (arr : list A) (base nmemb : Z) : outcome (option Z) := kbsearch_loop fuel key arr base nmemb.

End bsearch.

(** Numbers, by value. *)
Example kqsort_numbers : kqsort Z.sub 8 10 [5; 3; 9; 1; 5; 7; 5; 2; 8; 0] 0 10 = Ok [0; 1; 2; 3; 5; 5; 5; 7; 8; 9].
Proof. vm_compute. reflexivity. Qed.

Example kqsort_many : kqsort Z.sub 8 60 ((λ i, (i * 37) mod 60) <$> seqZ 0 60) 0 60 = Ok (seqZ 0 60).
Proof. vm_compute. reflexivity. Qed.

End Qsort.
