(* ===== verification/QsortTheory.v ===== *)
(** kqsort: it stays in its range of the array and permutes it, whatever the
    comparison answers, and sorts it if the comparison is an order; kbsearch
    finds an element of a sorted range if there is one. *)

From stdpp Require Import base list sorting.
From S2P Require Import Prelude Qsort.

Module QsortTheory.
Import Qsort.

Section arrays.
Context {A : Type} `{!Inhabited A}.

Definition ix (arr : list A) (i : Z) : A := arr !!! Z.to_nat i.
Definition len (arr : list A) : Z := Z.of_nat (length arr).

(** The elements from [lo] to [hi] were exchanged among each other. *)
Record moved (lo hi : Z) (arr arr' : list A) : Prop := {
  m_length : length arr' = length arr;
  m_perm : arr' ≡ₚ arr;
  m_outside : ∀ i, 0 ≤ i → i < lo ∨ hi ≤ i → ix arr' i = ix arr i
}.

Lemma moved_refl lo hi arr : moved lo hi arr arr.
Proof. by split. Qed.

Lemma moved_trans lo hi arr arr1 arr2 : moved lo hi arr arr1 → moved lo hi arr1 arr2 → moved lo hi arr arr2.
Proof.
  intros [L1 P1 O1] [L2 P2 O2]. split; [congruence|by etrans|]. intros i H0 Hi. by rewrite O2, O1.
Qed.

Lemma moved_wider lo hi lo' hi' arr arr' : lo' ≤ lo → hi ≤ hi' → moved lo hi arr arr' → moved lo' hi' arr arr'.
Proof. intros H1 H2 [L P O]. split; [done|done|]. intros i H0 Hi. apply O; [done|lia]. Qed.

Lemma moved_len lo hi arr arr' : moved lo hi arr arr' → len arr' = len arr.
Proof. intros [L _ _]. unfold len. by rewrite L. Qed.

(** What all elements of the range are, they are after it. *)
Lemma moved_forall (P : A → Prop) lo hi arr arr' : moved lo hi arr arr' → 0 ≤ lo → hi ≤ len arr →
  (∀ i, lo ≤ i < hi → P (ix arr i)) → ∀ i, lo ≤ i < hi → P (ix arr' i).
Proof.
  intros [L Pe O] Hlo Hhi HP i Hi. unfold len in Hhi.
  set (n1 := Z.to_nat lo). set (n2 := (Z.to_nat hi - Z.to_nat lo)%nat).
  assert (Hsplit : ∀ l : list A, l = take n1 l ++ take n2 (drop n1 l) ++ drop n2 (drop n1 l)) by (intros l; by rewrite !take_drop).
  assert (Hix : ∀ (l : list A) k, (n1 ≤ k)%nat → (k < n1 + n2)%nat → (k < length l)%nat → l !!! k ∈ take n2 (drop n1 l)).
  { intros l k H1 H2 H3. apply list_elem_of_lookup. exists (k - n1)%nat. rewrite lookup_take_lt by lia. rewrite lookup_drop.
    replace (n1 + (k - n1))%nat with k by lia. by apply list_lookup_lookup_total_lt. }
  assert (Hout : ∀ k, (k < n1)%nat ∨ (n1 + n2 ≤ k)%nat → arr' !! k = arr !! k).
  { intros k Hk. destruct (decide (k < length arr)%nat) as [Hlt|Hge].
    - rewrite !list_lookup_lookup_total_lt by lia. f_equal. specialize (O (Z.of_nat k)). unfold ix in O. rewrite Nat2Z.id in O. apply O; lia.
    - rewrite !lookup_ge_None_2 by lia. done. }
  assert (Hp : take n2 (drop n1 arr') ≡ₚ take n2 (drop n1 arr)).
  { rewrite (Hsplit arr), (Hsplit arr') in Pe.
    replace (take n1 arr') with (take n1 arr) in Pe.
    2:{ apply list_eq. intros k. destruct (decide (k < n1)%nat); [rewrite !lookup_take_lt by done; symmetry; apply Hout; by left|by rewrite !lookup_take_ge by lia]. }
    replace (drop n2 (drop n1 arr')) with (drop n2 (drop n1 arr)) in Pe.
    2:{ apply list_eq. intros k. rewrite !lookup_drop. symmetry. apply Hout. right. lia. }
    apply (inj (_ ++.)) in Pe. by apply (inj (.++ _)) in Pe. }
  specialize (Hix arr' (Z.to_nat i)). rewrite Hp in Hix. unfold ix. specialize (Hix ltac:(lia) ltac:(lia) ltac:(lia)).
  apply list_elem_of_lookup in Hix as [k Hk]. apply lookup_take_Some in Hk as [Hk Hlt]. rewrite lookup_drop in Hk.
  specialize (HP (Z.of_nat (n1 + k)%nat)). unfold ix in HP. rewrite Nat2Z.id in HP. rewrite (list_lookup_total_correct _ _ _ Hk) in HP. apply HP. lia.
Qed.

Lemma aget_ix arr i : 0 ≤ i < len arr → aget arr i = Ok (ix arr i).
Proof.
  intros Hi. destruct (aget_in_bounds arr i Hi) as (x & -> & Hx). unfold ix. by rewrite (list_lookup_total_correct _ _ _ Hx).
Qed.

Definition exchanged (i j k : Z) : Z := if decide (k = i) then j else if decide (k = j) then i else k.

Lemma swap_ok arr i j : 0 ≤ i < len arr → 0 ≤ j < len arr → ∃ arr', swap arr i j = Ok arr' ∧ arr' ≡ₚ arr ∧ length arr' = length arr ∧
  ∀ k, 0 ≤ k → ix arr' k = ix arr (exchanged i j k).
Proof.
  intros Hi Hj. destruct (aget_in_bounds arr i Hi) as (x & Ex & Hx). destruct (aget_in_bounds arr j Hj) as (y & Ey & Hy).
  unfold swap. rewrite Ex, Ey. cbn. rewrite aset_in_bounds by done. cbn. rewrite aset_in_bounds by (rewrite length_insert; exact Hj).
  eexists. split; [done|]. split; [by apply Permutation_insert_swap|]. split; [by rewrite !length_insert|].
  intros k Hk. unfold ix, len, exchanged in *. rewrite !list_lookup_total_insert, length_insert.
  destruct (decide (k = j)) as [->|Hkj].
  - rewrite decide_True by lia. rewrite <- (list_lookup_total_correct _ _ _ Hx). destruct (decide (j = i)) as [->|]; done.
  - rewrite decide_False by lia. destruct (decide (k = i)) as [->|Hki]; [|by rewrite decide_False by lia].
    rewrite decide_True by lia. by rewrite <- (list_lookup_total_correct _ _ _ Hy).
Qed.

Lemma swap_moved lo hi arr arr' i j : arr' ≡ₚ arr → length arr' = length arr → (∀ k, 0 ≤ k → ix arr' k = ix arr (exchanged i j k)) →
  lo ≤ i < hi → lo ≤ j < hi → moved lo hi arr arr'.
Proof.
  intros P L H Hi Hj. split; [done|done|]. intros k H0 Hk. rewrite H by done. unfold exchanged. rewrite !decide_False by lia. done.
Qed.

Lemma swap_in lo hi arr i j : 0 ≤ lo → hi ≤ len arr → lo ≤ i < hi → lo ≤ j < hi →
  ∃ arr', swap arr i j = Ok arr' ∧ moved lo hi arr arr' ∧ len arr' = len arr ∧ ∀ k, 0 ≤ k → ix arr' k = ix arr (exchanged i j k).
Proof.
  intros H0 Hhi Hi Hj. destruct (swap_ok arr i j) as (arr' & E & P & L & H); [lia..|]. exists arr'. split; [done|].
  assert (M : moved lo hi arr arr') by (by apply (swap_moved lo hi arr arr' i j)). split; [done|]. split; [by eapply moved_len|done].
Qed.

(** * Comparisons *)

(** The caller's comparison is an order: any two elements can be compared. *)
Record is_order (cmp : A → A → Z) : Prop := {
  o_flip : ∀ x y, 0 ≤ cmp x y → cmp y x ≤ 0;
  o_trans : ∀ x y z, cmp x y ≤ 0 → cmp y z ≤ 0 → cmp x z ≤ 0
}.

Context (cmp : A → A → Z).

Definition sorted (lo hi : Z) (arr : list A) : Prop := ∀ i j, lo ≤ i → i < j → j < hi → cmp (ix arr i) (ix arr j) ≤ 0.

Lemma compare_ix arr i j : 0 ≤ i < len arr → 0 ≤ j < len arr → compare cmp arr i j = Ok (cmp (ix arr i) (ix arr j)).
Proof. intros Hi Hj. unfold compare. by rewrite !aget_ix. Qed.

(** ** Insertion sort *)

(** All are in order, but for the element at [pl], which is not above those after it. *)
Definition sinking (a pl hi : Z) (arr : list A) : Prop := ∀ i j, a ≤ i → i < j → j < hi → j ≠ pl → cmp (ix arr i) (ix arr j) ≤ 0.

Lemma insert_down_ok fuel a hi arr pl : 0 ≤ a → a ≤ pl < hi → hi ≤ len arr → pl - a < Z.of_nat fuel →
  ∃ arr', insert_down cmp fuel arr a pl = Ok arr' ∧ moved a hi arr arr' ∧ (is_order cmp → sinking a pl hi arr → sorted a hi arr').
Proof.
  revert arr pl. induction fuel as [|fuel IH]; intros arr pl Ha Hpl Hhi Hf; [lia|]. cbn [insert_down].
  destruct (pl >? a) eqn:Epl; bool_prop.
  - rewrite compare_ix by lia. cbn [obind]. destruct (_ >? 0) eqn:Ec; bool_prop.
    + destruct (swap_in a hi arr pl (pl - 1)) as (arr1 & -> & M & L & H); [lia..|]. cbn [obind].
      destruct (IH arr1 (pl - 1)) as (arr' & E & M' & S); [lia..|]. exists arr'. split; [done|]. split; [by eapply moved_trans|].
      intros Ho Hs. apply S; [done|]. intros i j Hi Hij Hj Hne. rewrite !H by lia. unfold exchanged.
      destruct (decide (j = pl)) as [->|]; [|rewrite (decide_False (P := j = pl - 1)) by done].
      * destruct (decide (i = pl)); [lia|]. destruct (decide (i = pl - 1)) as [->|]; [apply (o_flip _ Ho); lia|apply Hs; lia].
      * destruct (decide (i = pl)) as [->|]; [apply Hs; lia|]. destruct (decide (i = pl - 1)) as [->|]; apply Hs; lia.
    + exists arr. split; [done|]. split; [apply moved_refl|]. intros Ho Hs i j Hi Hij Hj. destruct (decide (j = pl)) as [->|]; [|by apply Hs].
      destruct (decide (i = pl - 1)) as [->|]; [lia|]. apply (o_trans _ Ho _ (ix arr (pl - 1))); [apply Hs; lia|lia].
  - exists arr. split; [done|]. split; [apply moved_refl|]. intros Ho Hs i j Hi Hij Hj. apply Hs; lia.
Qed.

Lemma insertion_ok fuel a n arr pm : 0 ≤ a → a < pm → a + n ≤ len arr → Z.max 0 (a + n - pm) < Z.of_nat fuel →
  ∃ arr', insertion cmp fuel arr a n pm = Ok arr' ∧ moved a (a + n) arr arr' ∧ (is_order cmp → sorted a pm arr → sorted a (a + n) arr').
Proof.
  revert arr pm. induction fuel as [|fuel IH]; intros arr pm Ha Hpm Hn Hf.
  - lia.
  - cbn [insertion]. destruct (pm <? a + n) eqn:E; bool_prop.
    + destruct (insert_down_ok (S (Z.to_nat (pm - a))) a (pm + 1) arr pm) as (arr1 & -> & M & S1); [lia..|]. cbn [obind].
      pose proof (moved_len _ _ _ _ M). destruct (IH arr1 (pm + 1)) as (arr' & E' & M' & S2); [lia..|]. exists arr'. split; [done|].
      split; [eapply moved_trans; [|done]; eapply moved_wider; [| |done]; lia|]. intros Ho Hs. apply S2; [done|]. apply S1; [done|].
      intros i j Hi Hij Hj Hne. apply Hs; lia.
    + exists arr. split; [done|]. split; [apply moved_refl|]. intros Ho Hs i j Hi Hij Hj. apply Hs; lia.
Qed.

Lemma insertion_sorts a n arr : 0 ≤ a → 0 ≤ n → a + n ≤ len arr →
  ∃ arr', insertion cmp (S (Z.to_nat n)) arr a n (a + 1) = Ok arr' ∧ moved a (a + n) arr arr' ∧ (is_order cmp → sorted a (a + n) arr').
Proof.
  intros Ha Hn Hlen. destruct (insertion_ok (S (Z.to_nat n)) a n arr (a + 1)) as (arr' & E & M & S); [lia..|]. exists arr'.
  split; [done|]. split; [done|]. intros Ho. apply S; [done|]. intros i j Hi Hij Hj. lia.
Qed.

(** ** Partition *)

Section partition.
Context (a n : Z) (arr0 : list A) (Ha : 0 ≤ a) (Hlen : a + n ≤ len arr0).
Local Notation piv := (ix arr0 a).

(** Equal to the pivot, below it, unknown, above it, equal to it. *)
Record partial (p : parts) : Prop := {
  pp_moved : moved (a + 1) (a + n) arr0 (p_arr p);
  pp_order : a + 1 ≤ p_a p ∧ p_a p ≤ p_b p ∧ p_b p ≤ p_c p + 1 ∧ p_c p ≤ p_d p ∧ p_d p < a + n;
  pp_eq1 : ∀ i, a < i < p_a p → cmp (ix (p_arr p) i) piv = 0;
  pp_lt : ∀ i, p_a p ≤ i < p_b p → cmp (ix (p_arr p) i) piv < 0;
  pp_gt : ∀ i, p_c p < i ≤ p_d p → 0 < cmp (ix (p_arr p) i) piv;
  pp_eq2 : ∀ i, p_d p < i < a + n → cmp (ix (p_arr p) i) piv = 0
}.

Lemma partial_pivot p : partial p → ix (p_arr p) a = piv ∧ len (p_arr p) = len arr0.
Proof. intros H. destruct (pp_moved p H) as [L P O]. split; [apply O; lia|]. unfold len. by rewrite L. Qed.

Lemma partial_compare p i : partial p → p_b p ≤ i ≤ p_c p → compare cmp (p_arr p) i a = Ok (cmp (ix (p_arr p) i) piv).
Proof.
  intros H Hi. destruct (partial_pivot p H) as [E L]. pose proof (pp_order p H). rewrite compare_ix by lia. by rewrite E.
Qed.

(** Two elements are exchanged, and the pointers move. *)
Lemma partial_swap p i j : partial p → a < i < a + n → a < j < a + n →
  ∃ arr, swap (p_arr p) i j = Ok arr ∧ moved (a + 1) (a + n) arr0 arr ∧ ∀ k, 0 ≤ k → ix arr k = ix (p_arr p) (exchanged i j k).
Proof.
  intros H Hi Hj. destruct (partial_pivot p H) as [_ L]. destruct (swap_in (a + 1) (a + n) (p_arr p) i j) as (arr & E & M & _ & Hk); [lia..|].
  exists arr. split; [done|]. split; [|done]. eapply moved_trans; [apply (pp_moved p H)|done].
Qed.

Ltac exchange Hk H :=
  let i := fresh "i" in let Hi := fresh "Hi" in
  intros i Hi; cbn [p_arr p_a p_b p_c p_d] in *; rewrite Hk by lia; unfold exchanged; repeat case_decide; subst;
  first [lia | apply (pp_eq1 _ H); lia | apply (pp_lt _ H); lia | apply (pp_gt _ H); lia | apply (pp_eq2 _ H); lia
        | match type of H with partial ?p => replace (p_d p) with (p_c p) by lia; lia end].

Lemma scan_up_ok fuel p : partial p → p_c p + 1 - p_b p < Z.of_nat fuel → ∃ p', scan_up cmp fuel a p = Ok p' ∧ partial p' ∧
  p_c p' = p_c p ∧ p_b p ≤ p_b p' ∧ (p_b p' ≤ p_c p' → 0 < cmp (ix (p_arr p') (p_b p')) piv).
Proof.
  revert p. induction fuel as [|fuel IH]; intros p H Hf; [pose proof (pp_order p H); lia|]. cbn [scan_up].
  pose proof (pp_order p H). destruct (p_b p <=? p_c p) eqn:E; bool_prop; [|exists p; split_and!; done || lia].
  rewrite (partial_compare p) by (done || lia). cbn [obind]. destruct (_ <=? 0) eqn:E1; bool_prop; [|exists p; split_and!; done || lia].
  destruct (_ =? 0) eqn:E2; bool_prop.
  - destruct (partial_swap p (p_a p) (p_b p)) as (arr & -> & M & Hk); [done|lia..|]. cbn [obind].
    destruct (IH (Parts arr (p_a p + 1) (p_b p + 1) (p_c p) (p_d p) true)) as (p' & E' & H' & H1 & H2 & H3).
    + split; cbn [p_arr p_a p_b p_c p_d]; [done|lia|exchange Hk H..].
    + cbn. lia.
    + exists p'. cbn in H1, H2. split_and!; done || lia.
  - destruct (IH (Parts (p_arr p) (p_a p) (p_b p + 1) (p_c p) (p_d p) (p_swap_cnt p))) as (p' & E' & H' & H1 & H2 & H3).
    + destruct H as [M _ Q1 Q2 Q3 Q4]. split; cbn [p_arr p_a p_b p_c p_d]; try done; [lia|]. intros i Hi. destruct (decide (i = p_b p)) as [->|]; [lia|apply Q2; lia].
    + cbn. lia.
    + exists p'. cbn in H1, H2. split_and!; done || lia.
Qed.

Lemma scan_down_ok fuel p : partial p → p_c p + 1 - p_b p < Z.of_nat fuel → ∃ p', scan_down cmp fuel a p = Ok p' ∧ partial p' ∧
  p_b p' = p_b p ∧ p_c p' ≤ p_c p ∧ (∀ i, p_b p ≤ i ≤ p_c p' → ix (p_arr p') i = ix (p_arr p) i) ∧
  (p_b p' ≤ p_c p' → cmp (ix (p_arr p') (p_c p')) piv < 0).
Proof.
  revert p. induction fuel as [|fuel IH]; intros p H Hf; [pose proof (pp_order p H); lia|]. cbn [scan_down].
  pose proof (pp_order p H). destruct (p_b p <=? p_c p) eqn:E; bool_prop; [|exists p; split_and!; done || lia].
  rewrite (partial_compare p) by (done || lia). cbn [obind]. destruct (_ >=? 0) eqn:E1; bool_prop; [|exists p; split_and!; done || lia].
  destruct (_ =? 0) eqn:E2; bool_prop.
  - destruct (partial_swap p (p_c p) (p_d p)) as (arr & -> & M & Hk); [done|lia..|]. cbn [obind].
    destruct (IH (Parts arr (p_a p) (p_b p) (p_c p - 1) (p_d p - 1) true)) as (p' & E' & H' & H1 & H2 & H3 & H4).
    + split; cbn [p_arr p_a p_b p_c p_d]; [done|lia|exchange Hk H..].
    + cbn. lia.
    + exists p'. cbn in H1, H2, H3. split_and!; try done || lia. intros i Hi. rewrite H3, Hk by lia. unfold exchanged. by rewrite !decide_False by lia.
  - destruct (IH (Parts (p_arr p) (p_a p) (p_b p) (p_c p - 1) (p_d p) (p_swap_cnt p))) as (p' & E' & H' & H1 & H2 & H3 & H4).
    + destruct H as [M _ Q1 Q2 Q3 Q4]. split; cbn [p_arr p_a p_b p_c p_d]; try done; [lia|]. intros i Hi. destruct (decide (i = p_c p)) as [->|]; [lia|apply Q3; lia].
    + cbn. lia.
    + exists p'. cbn in H1, H2, H3. split_and!; done || lia.
Qed.

Lemma partition_ok fuel p : partial p → p_c p + 1 - p_b p < Z.of_nat fuel →
  ∃ p', partition cmp fuel a p = Ok p' ∧ partial p' ∧ p_c p' = p_b p' - 1.
Proof.
  revert p. induction fuel as [|fuel IH]; intros p H Hf; [pose proof (pp_order p H); lia|]. cbn [partition].
  destruct (scan_up_ok (S fuel) p H Hf) as (p1 & -> & H1 & C1 & B1 & U1). cbn [obind].
  destruct (scan_down_ok (S fuel) p1 H1) as (p2 & -> & H2 & B2 & C2 & K2 & D2); [lia|]. cbn [obind]. pose proof (pp_order p2 H2).
  destruct (_ >? _) eqn:E; bool_prop; [exists p2; split_and!; done || lia|].
  assert (p_b p2 ≠ p_c p2). { intros Eq. rewrite <- Eq in D2. specialize (D2 ltac:(lia)). rewrite K2, B2 in D2 by lia. specialize (U1 ltac:(lia)). lia. }
  destruct (partial_swap p2 (p_b p2) (p_c p2)) as (arr & -> & M & Hk); [done|lia..|]. cbn [obind].
  apply IH; [|cbn; lia]. specialize (D2 ltac:(lia)). specialize (U1 ltac:(lia)). rewrite <- K2, <- B2 in U1 by lia.
  split; cbn [p_arr p_a p_b p_c p_d]; [done|lia|exchange Hk H2..].
Qed.

End partition.

(** ** Bytes *)

Section bytes.
Context (es : Z) (Hes : 0 < es).

Lemma bytes_small k : 0 ≤ k → k * es < 2 ^ 31 → s32 (k * es) = k * es.
Proof. intros Hk Hb. apply signed_of_small; [done|]. unfold is_s. change (2 ^ (32 - 1)) with (2 ^ 31). nia. Qed.

Lemma elements_ok k : 0 ≤ k → k * es < 2 ^ 31 → elements es (s32 (k * es)) = Ok k.
Proof. intros Hk Hb. unfold elements. rewrite bytes_small, Z.mod_mul, Z.div_mul by lia. done. Qed.

Lemma more_than_one k : 0 ≤ k → k * es < 2 ^ 31 → (u64 (s32 (k * es)) >? es) = (k >? 1) ∧ u64 (s32 (k * es)) / es = k.
Proof.
  intros Hk Hb. rewrite bytes_small by done. rewrite unsigned_of_small.
  - rewrite Z.div_mul by lia. split; [|done]. apply eq_true_iff_eq. rewrite !Z.gtb_lt. nia.
  - unfold is_u. change (2 ^ 64) with (2 ^ 33 * 2 ^ 31). nia.
Qed.

Lemma min_bytes x y : (if x * es <? y * es then x * es else y * es) = Z.min x y * es.
Proof. destruct (_ <? _) eqn:E; bool_prop; f_equal; nia. Qed.

(** ** The choice of the pivot *)

Lemma med3_ok arr x y z : 0 ≤ x < len arr → 0 ≤ y < len arr → 0 ≤ z < len arr →
  ∃ m, med3 cmp arr x y z = Ok m ∧ (m = x ∨ m = y ∨ m = z).
Proof.
  intros Hx Hy Hz. unfold med3. rewrite !compare_ix by done. cbn [obind].
  repeat case_test; eexists; (split; [reflexivity|tauto]).
Qed.

Lemma pivot_ok arr a n : 0 ≤ a → 7 ≤ n → a + n ≤ len arr → n * es < 2 ^ 31 → ∃ pm, pivot cmp es arr a n = Ok pm ∧ a ≤ pm < a + n.
Proof.
  intros Ha Hn Hlen Hb. unfold pivot. assert (Hh : n / 2 < n ∧ 0 ≤ n / 2) by (Z.to_euclidean_division_equations; lia).
  destruct (n >? 7); [|by exists (a + n / 2); split; [|lia]]. destruct (n >? 40) eqn:E; bool_prop.
  - set (d := n / 8). assert (Hd : 0 ≤ d ∧ 2 * d < n ∧ d ≤ n / 2 ∧ n / 2 + d < n) by (unfold d; Z.to_euclidean_division_equations; lia).
    assert (E2 : elements es (s32 (2 * s32 (d * es))) = Ok (2 * d)) by (rewrite (bytes_small d), Z.mul_assoc by nia; apply elements_ok; nia).
    rewrite E2, elements_ok by nia. cbn [obind].
    destruct (med3_ok arr a (a + d) (a + 2 * d)) as (pl & -> & Hpl); [lia..|]. cbn [obind].
    destruct (med3_ok arr (a + n / 2 - d) (a + n / 2) (a + n / 2 + d)) as (pm & -> & Hpm); [lia..|]. cbn [obind].
    destruct (med3_ok arr (a + (n - 1) - 2 * d) (a + (n - 1) - d) (a + (n - 1))) as (pn & -> & Hpn); [lia..|]. cbn [obind].
    destruct (med3_ok arr pl pm pn) as (m & -> & Hm); [lia..|]. exists m. split; [done|lia].
  - destruct (med3_ok arr a (a + n / 2) (a + (n - 1))) as (m & -> & Hm); [lia..|]. exists m. split; [done|lia].
Qed.

(** ** The equal elements *)

Definition vec_index (i j r k : Z) : Z := if decide (i ≤ k < i + r) then k - i + j else if decide (j ≤ k < j + r) then k - j + i else k.

Lemma swapfunc_ok lo hi r arr i j : 0 ≤ lo → hi ≤ len arr → lo ≤ i → i + Z.of_nat r ≤ j → j + Z.of_nat r ≤ hi →
  ∃ arr', swapfunc arr i j r = Ok arr' ∧ moved lo hi arr arr' ∧ ∀ k, 0 ≤ k → ix arr' k = ix arr (vec_index i j (Z.of_nat r) k).
Proof.
  revert arr i j. induction r as [|r IH]; intros arr i j H0 Hhi Hi Hij Hj; cbn [swapfunc].
  - exists arr. split; [done|]. split; [apply moved_refl|]. intros k Hk. unfold vec_index. by rewrite !decide_False by lia.
  - destruct (swap_in lo hi arr i j) as (arr1 & -> & M1 & L1 & H1); [lia..|]. cbn [obind].
    destruct (IH arr1 (i + 1) (j + 1)) as (arr' & E & M & H); [lia..|]. exists arr'. split; [done|]. split; [by eapply moved_trans|].
    intros k Hk. rewrite H by done. assert (0 ≤ vec_index (i + 1) (j + 1) (Z.of_nat r) k) by (unfold vec_index; repeat case_decide; lia).
    rewrite H1 by done. f_equal. unfold vec_index, exchanged. repeat case_decide; lia.
Qed.

Lemma vecswap_ok lo hi r arr i j : 0 ≤ lo → hi ≤ len arr → 0 ≤ r → lo ≤ i → i + r ≤ j → j + r ≤ hi →
  ∃ arr', vecswap arr i j r = Ok arr' ∧ moved lo hi arr arr' ∧ len arr' = len arr ∧ ∀ k, 0 ≤ k → ix arr' k = ix arr (vec_index i j r k).
Proof.
  intros H0 Hhi Hr Hi Hij Hj. assert (Hlen : ∀ arr', moved lo hi arr arr' → len arr' = len arr) by apply moved_len.
  unfold vecswap. destruct (r >? 0) eqn:E; bool_prop.
  - destruct (swapfunc_ok lo hi (Z.to_nat r) arr i j) as (arr' & E' & M & H); [lia..|]. exists arr'. rewrite Z2Nat.id in H by lia.
    split_and!; [done|done|by apply Hlen|done].
  - exists arr. split; [done|]. split; [apply moved_refl|]. split; [done|]. intros k Hk. unfold vec_index. by rewrite !decide_False by lia.
Qed.

Lemma gather_ok a n arr0 p : 0 ≤ a → a + n ≤ len arr0 → n * es < 2 ^ 31 → partial a n arr0 p → p_c p = p_b p - 1 →
  ∃ arr', gather es a n p = Ok arr' ∧ moved a (a + n) arr0 arr' ∧
    (∀ i, a ≤ i < a + (p_b p - p_a p) → cmp (ix arr' i) (ix arr0 a) < 0) ∧
    (∀ i, a + (p_b p - p_a p) ≤ i < a + n - (p_d p - p_c p) → ix arr' i = ix arr0 a ∨ cmp (ix arr' i) (ix arr0 a) = 0) ∧
    (∀ i, a + n - (p_d p - p_c p) ≤ i < a + n → 0 < cmp (ix arr' i) (ix arr0 a)).
Proof.
  intros Ha Hlen Hb H Hc. destruct (partial_pivot a n arr0 Ha p H) as [Epiv L]. pose proof (pp_order _ _ _ _ H).
  set (r1 := Z.min (p_a p - a) (p_b p - p_a p)). set (r2 := Z.min (p_d p - p_c p) (a + n - p_d p - 1)).
  assert (E1 : (if (p_a p - a) * es <? (p_b p - p_a p) * es then (p_a p - a) * es else (p_b p - p_a p) * es) = r1 * es).
  { apply min_bytes. }
  assert (E2 : (if (p_d p - p_c p) * es <? (a + n - p_d p) * es - es then (p_d p - p_c p) * es else (a + n - p_d p) * es - es) = r2 * es).
  { replace ((a + n - p_d p) * es - es) with ((a + n - p_d p - 1) * es) by lia. apply min_bytes. }
  unfold gather. rewrite E1, E2. rewrite elements_ok by nia. cbn [obind].
  destruct (vecswap_ok a (a + n) r1 (p_arr p) a (p_b p - r1)) as (arr1 & -> & M1 & L1 & H1); [lia..|]. cbn [obind].
  rewrite elements_ok by nia. cbn [obind].
  destruct (vecswap_ok a (a + n) r2 arr1 (p_b p) (a + n - r2)) as (arr2 & -> & M2 & L2 & H2); [lia..|].
  exists arr2. split; [done|]. split.
  { eapply moved_trans; [|exact M2]. eapply moved_trans; [|exact M1]. eapply moved_wider; [| |apply (pp_moved _ _ _ _ H)]; lia. }
  assert (Hix : ∀ i, a ≤ i < a + n → ix arr2 i = ix (p_arr p) (vec_index a (p_b p - r1) r1 (vec_index (p_b p) (a + n - r2) r2 i))).
  { intros i Hi. rewrite H2 by lia. apply H1. unfold vec_index. repeat case_decide; lia. }
  split_and!; intros i Hi; rewrite Hix by lia; unfold vec_index; repeat case_decide;
    first [lia | apply (pp_lt _ _ _ _ H); lia | apply (pp_gt _ _ _ _ H); lia
    | match goal with |- ix _ ?k = _ ∨ _ => destruct (decide (k = a)) as [Eka|];
        [left; by rewrite Eka|right; destruct (decide (k < p_a p)); [apply (pp_eq1 _ _ _ _ H)|apply (pp_eq2 _ _ _ _ H)]; lia] end].
Qed.

(** ** The whole *)

Lemma le_pivot x y piv : is_order cmp → x = piv ∨ cmp x piv ≤ 0 → y = piv ∨ 0 ≤ cmp y piv → cmp x y ≤ 0.
Proof.
  intros [Hf Ht] Hx Hy. assert (Hr : cmp piv piv ≤ 0) by (destruct (decide (0 ≤ cmp piv piv)); [by apply Hf|lia]).
  apply (Ht x piv y); [by destruct Hx as [->|]|]. destruct Hy as [->|]; [done|by apply Hf].
Qed.

(** A range of which the two ends are sorted, around elements equal to the pivot. *)
Lemma assemble a n l g arr2 arr3 arr4 piv : is_order cmp → 0 ≤ a → 0 ≤ l → 0 ≤ g → l + g ≤ n → a + n ≤ len arr2 → len arr3 = len arr2 →
  (∀ i, a ≤ i < a + l → cmp (ix arr2 i) piv < 0) →
  (∀ i, a + l ≤ i < a + n - g → ix arr2 i = piv ∨ cmp (ix arr2 i) piv = 0) →
  (∀ i, a + n - g ≤ i < a + n → 0 < cmp (ix arr2 i) piv) →
  moved a (a + l) arr2 arr3 → moved (a + n - g) (a + n) arr3 arr4 → sorted a (a + l) arr3 → sorted (a + n - g) (a + n) arr4 → sorted a (a + n) arr4.
Proof.
  intros Ho Ha Hl Hg Hn Hlen L3 Hlt Heq Hgt M3 M4 S3 S4.
  assert (H43 : ∀ i, a ≤ i < a + n - g → ix arr4 i = ix arr3 i) by (intros i Hi; apply (m_outside _ _ _ _ M4); lia).
  assert (H32 : ∀ i, a + l ≤ i < a + n → ix arr3 i = ix arr2 i) by (intros i Hi; apply (m_outside _ _ _ _ M3); lia).
  assert (Hlo : ∀ i, a ≤ i < a + n - g → ix arr4 i = piv ∨ cmp (ix arr4 i) piv ≤ 0).
  { intros i Hi. rewrite H43 by lia. destruct (decide (i < a + l)).
    - right. apply (moved_forall (λ x, cmp x piv ≤ 0) a (a + l) arr2 arr3); [done|lia|lia| |lia]. intros k Hk. specialize (Hlt k Hk). lia.
    - rewrite H32 by lia. destruct (Heq i) as [?|?]; [lia|by left|right; lia]. }
  assert (Hhi : ∀ i, a + l ≤ i < a + n → ix arr4 i = piv ∨ 0 ≤ cmp (ix arr4 i) piv).
  { intros i Hi. destruct (decide (i < a + n - g)).
    - rewrite H43, H32 by lia. destruct (Heq i) as [?|?]; [lia|by left|right; lia].
    - right. apply (moved_forall (λ x, 0 ≤ cmp x piv) (a + n - g) (a + n) arr3 arr4); [done|lia|lia| |lia]. intros k Hk.
      rewrite H32 by lia. specialize (Hgt k Hk). lia. }
  intros i j Hi Hij Hj. destruct (decide (j < a + l)).
  - rewrite !H43 by lia. apply S3; lia.
  - destruct (decide (a + n - g ≤ i)); [apply S4; lia|]. apply (le_pivot _ _ piv Ho); [apply Hlo; lia|apply Hhi; lia].
Qed.

Lemma kqsort_ok fuel arr a n : 0 ≤ a → 0 ≤ n → a + n ≤ len arr → n * es < 2 ^ 31 → n < Z.of_nat fuel →
  ∃ arr', kqsort cmp es fuel arr a n = Ok arr' ∧ moved a (a + n) arr arr' ∧ (is_order cmp → sorted a (a + n) arr').
Proof.
  revert arr a n. induction fuel as [|fuel IH]; intros arr a n Ha Hn Hlen Hb Hf; [lia|]. cbn [kqsort].
  destruct (n <? 7) eqn:En; bool_prop; [by apply insertion_sorts|].
  destruct (pivot_ok arr a n) as (pm & -> & Hpm); [lia..|]. cbn [obind].
  destruct (swap_in a (a + n) arr a pm) as (arr0 & -> & M0 & L0 & _); [lia..|]. cbn [obind].
  destruct (partition_ok a n arr0 Ha ltac:(lia) (Z.to_nat n) (Parts arr0 (a + 1) (a + 1) (a + (n - 1)) (a + (n - 1)) false)) as (p & -> & Hp & Hc).
  { split; cbn; try lia. apply moved_refl. }
  { cbn. lia. }
  cbn [obind]. pose proof (pp_order _ _ _ _ Hp). destruct (partial_pivot a n arr0 Ha p Hp) as [_ Lp].
  destruct (p_swap_cnt p); cbn [negb].
  2:{ destruct (insertion_sorts a n (p_arr p)) as (arr' & -> & M & S); [lia..|]. exists arr'. split; [done|]. split; [|done].
      eapply moved_trans; [exact M0|]. eapply moved_trans; [|exact M]. eapply moved_wider; [| |apply (pp_moved _ _ _ _ Hp)]; lia. }
  destruct (gather_ok a n arr0 p Ha ltac:(lia) Hb Hp Hc) as (arr2 & -> & M2 & Hlt & Heq & Hgt). cbn [obind].
  set (l := p_b p - p_a p) in *. set (g := p_d p - p_c p) in *. assert (L2 : len arr2 = len arr0) by (by eapply moved_len).
  assert (Hl : 0 ≤ l < n ∧ l * es < 2 ^ 31) by (unfold l; nia). assert (Hg : 0 ≤ g ∧ l + g < n ∧ g * es < 2 ^ 31) by (unfold g, l; nia).
  destruct (more_than_one l) as [-> ->]; [lia..|].
  assert (Hleft : ∃ arr3, (if l >? 1 then kqsort cmp es fuel arr2 a l else Ok arr2) = Ok arr3 ∧ moved a (a + l) arr2 arr3 ∧ (is_order cmp → sorted a (a + l) arr3)).
  { destruct (l >? 1) eqn:El; bool_prop; [apply IH; lia|]. exists arr2. split; [done|]. split; [apply moved_refl|]. intros _ i j. lia. }
  destruct Hleft as (arr3 & -> & M3 & S3). cbn [obind]. assert (L3 : len arr3 = len arr2) by (by eapply moved_len).
  destruct (more_than_one g) as [-> ->]; [lia..|].
  assert (Hright : ∃ arr4, (if g >? 1 then let* k := elements es (s32 (g * es)) in kqsort cmp es fuel arr3 (a + n - k) g else Ok arr3) = Ok arr4 ∧
    moved (a + n - g) (a + n) arr3 arr4 ∧ (is_order cmp → sorted (a + n - g) (a + n) arr4)).
  { destruct (g >? 1) eqn:Eg; bool_prop.
    - rewrite elements_ok by lia. cbn [obind]. destruct (IH arr3 (a + n - g) g) as (arr4 & E & M & S); [lia..|]. exists arr4.
      replace (a + n - g + g) with (a + n) in M, S by lia. done.
    - exists arr3. split; [done|]. split; [apply moved_refl|]. intros _ i j. lia. }
  destruct Hright as (arr4 & -> & M4 & S4). exists arr4. split; [done|]. split.
  { eapply moved_trans; [exact M0|]. eapply moved_trans; [exact M2|]. eapply moved_trans; (eapply moved_wider; [| |eassumption]; lia). }
  intros Ho. apply (assemble a n l g arr2 arr3 arr4 (ix arr0 a)); try done || lia; auto.
Qed.

End bytes.

(** ** kbsearch *)

(** Elements are in the order of their comparison with the key. *)
Definition searchable {K} (compar : K → A → Z) (key : K) (lo hi : Z) (arr : list A) : Prop :=
  ∀ i j, lo ≤ i → i < j → j < hi → Z.sgn (compar key (ix arr j)) ≤ Z.sgn (compar key (ix arr i)).

Lemma kbsearch_ok {K} (compar : K → A → Z) key arr lo hi fuel base lim :
  0 ≤ lo → hi ≤ len arr → searchable compar key lo hi arr → lo ≤ base → 0 ≤ lim → base + lim ≤ hi → lim < Z.of_nat fuel →
  (∀ i, lo ≤ i < hi → compar key (ix arr i) = 0 → base ≤ i < base + lim) →
  ∃ r, kbsearch compar fuel key arr base lim = Ok r ∧
    match r with
    | Some p => lo ≤ p < hi ∧ compar key (ix arr p) = 0
    | None => ∀ i, lo ≤ i < hi → compar key (ix arr i) ≠ 0
    end.
Proof.
  unfold kbsearch. revert base lim. induction fuel as [|fuel IH]; intros base lim H0 Hhi Hs Hlo Hl Hb Hf Hin; [lia|]. cbn [kbsearch_loop].
  destruct (lim =? 0) eqn:E0; bool_prop; [exists None; split; [done|]; intros i Hi He; specialize (Hin i Hi He); lia|].
  rewrite !Z.shiftr_div_pow2 by done. change (2 ^ 1) with 2. set (p := base + lim / 2).
  assert (Hp : base ≤ p < base + lim ∧ 2 * (lim / 2) ≤ lim ∧ lim ≤ 2 * (lim / 2) + 1 ∧ p + 1 + (lim - 1) / 2 = base + lim ∧ 0 ≤ (lim - 1) / 2 < lim) by
    (unfold p; Z.to_euclidean_division_equations; lia).
  rewrite aget_ix by lia. cbn [obind]. destruct (_ =? 0) eqn:E1; bool_prop; [exists (Some p); split; [done|lia]|].
  destruct (_ >? 0) eqn:E2; bool_prop; (apply IH; try done; [lia..|]); intros i Hi He; pose proof (Hin i Hi He).
  - destruct (decide (i = p)) as [->|]; [lia|]. destruct (decide (i < p)); [|lia]. specialize (Hs i p). rewrite He in Hs. cbn in Hs.
    rewrite Z.sgn_pos in Hs by lia. lia.
  - destruct (decide (i = p)) as [->|]; [lia|]. destruct (decide (p < i)); [|lia]. specialize (Hs p i). rewrite He in Hs. cbn in Hs.
    rewrite Z.sgn_neg in Hs by lia. lia.
Qed.

End arrays.

(** * Properties *)

(** C28: kqsort of any [n] elements that take less than 2^31 bytes returns, whatever the comparison answers,
    and has exchanged elements of the range among each other and touched no other; if the comparison is an order,
    the range is sorted by it. *)
Theorem kqsort_correct {A : Type} `{!Inhabited A} (cmp : A → A → Z) es arr a n :
  0 < es → 0 ≤ a → 0 ≤ n → a + n ≤ len arr → n * es < 2 ^ 31 →
  ∃ arr', kqsort cmp es (S (Z.to_nat n)) arr a n = Ok arr' ∧ moved a (a + n) arr arr' ∧ (is_order cmp → sorted cmp a (a + n) arr').
Proof. intros Hes Ha Hn Hlen Hb. apply kqsort_ok; [done..|lia]. Qed.

Lemma sub_is_order : is_order Z.sub.
Proof. split; lia. Qed.

Lemma kqsort_correct_witness : ∃ arr', kqsort Z.sub 4 8 [9; 5; 3; 9; 1; 5; 7; 5] 1 7 = Ok arr' ∧
  moved 1 8 [9; 5; 3; 9; 1; 5; 7; 5] arr' ∧ sorted Z.sub 1 8 arr'.
Proof.
  destruct (kqsort_correct Z.sub 4 [9; 5; 3; 9; 1; 5; 7; 5] 1 7) as (arr' & E & M & S); [lia|lia|lia|vm_compute; done|lia|].
  exists arr'. split; [exact E|]. split; [exact M|]. exact (S sub_is_order).
Defined.

(** In an array of 2^32 bytes the distances that the code keeps in variables of type int are cut off, and the
    code leaves the array. *)
Example kqsort_large : kqsort Z.sub (2 ^ 29) 9 [4; 3; 2; 7; 6; 5; 1; 0] 0 8 = Undef OutOfBounds.
Proof. vm_compute. reflexivity. Qed.

(** kbsearch of a range whose elements are in the order of the key ends after as many turns as the range has
    elements, at most, with an element that compares equal if there is one. *)
Theorem kbsearch_correct {K A : Type} `{!Inhabited A} (compar : K → A → Z) key arr base nmemb :
  0 ≤ base → 0 ≤ nmemb → base + nmemb ≤ len arr → searchable compar key base (base + nmemb) arr →
  ∃ r, kbsearch compar (S (Z.to_nat nmemb)) key arr base nmemb = Ok r ∧
    match r with
    | Some p => base ≤ p < base + nmemb ∧ compar key (ix arr p) = 0
    | None => ∀ i, base ≤ i < base + nmemb → compar key (ix arr i) ≠ 0
    end.
Proof. intros Hb Hn Hlen Hs. apply kbsearch_ok; done || lia. Qed.

(** A range that kqsort has sorted can be searched. *)
Lemma sorted_searchable {A : Type} `{!Inhabited A} (cmp : A → A → Z) key lo hi arr :
  (∀ x y, Z.sgn (cmp y x) = - Z.sgn (cmp x y)) → (∀ x y z, cmp x y ≤ 0 → cmp y z ≤ 0 → cmp x z ≤ 0) →
  sorted cmp lo hi arr → searchable cmp key lo hi arr.
Proof.
  intros Hf Ht Hs i j Hi Hij Hj. specialize (Hs i j Hi Hij Hj). set (x := ix arr i) in *. set (y := ix arr j) in *.
  assert (H1 : cmp key x ≤ 0 → cmp key y ≤ 0) by (intros H; by apply (Ht key x y)).
  assert (H2 : cmp y key ≤ 0 → cmp x key ≤ 0) by (intros H; by apply (Ht x y key)).
  pose proof (Hf x key) as Hx. pose proof (Hf y key) as Hy. revert Hx Hy.
  destruct (Z.sgn_spec (cmp key x)) as [[? ->]|[[? ->]|[? ->]]]; destruct (Z.sgn_spec (cmp key y)) as [[? ->]|[[? ->]|[? ->]]]; try lia;
    destruct (Z.sgn_spec (cmp x key)) as [[? ->]|[[? ->]|[? ->]]]; destruct (Z.sgn_spec (cmp y key)) as [[? ->]|[[? ->]|[? ->]]]; lia.
Qed.

(** C29: sorting, then searching, finds an element of the array that compares equal to the key exactly if there is one. *)
Theorem sort_and_search {A : Type} `{!Inhabited A} (cmp : A → A → Z) es arr key :
  (∀ x y, Z.sgn (cmp y x) = - Z.sgn (cmp x y)) → (∀ x y z, cmp x y ≤ 0 → cmp y z ≤ 0 → cmp x z ≤ 0) →
  0 < es → len arr * es < 2 ^ 31 →
  ∃ arr' r, kqsort cmp es (S (length arr)) arr 0 (len arr) = Ok arr' ∧ arr' ≡ₚ arr ∧
    kbsearch cmp (S (length arr)) key arr' 0 (len arr) = Ok r ∧
    match r with
    | Some p => cmp key (ix arr' p) = 0 ∧ ix arr' p ∈ arr
    | None => ∀ x, x ∈ arr → cmp key x ≠ 0
    end.
Proof.
  intros Hf Ht Hes Hb. assert (Ho : is_order cmp).
  { split; [|done]. intros x y Hxy. pose proof (Hf x y) as H. revert H.
    destruct (Z.sgn_spec (cmp y x)) as [[? ->]|[[? ->]|[? ->]]]; destruct (Z.sgn_spec (cmp x y)) as [[? ->]|[[? ->]|[? ->]]]; lia. }
  destruct (kqsort_ok cmp es Hes (S (length arr)) arr 0 (len arr)) as (arr' & E & M & Hs);
    [lia|unfold len; lia|lia|exact Hb|unfold len; lia|]. specialize (Hs Ho).
  pose proof (moved_len _ _ _ _ M) as Hl.
  destruct (kbsearch_ok cmp key arr' 0 (0 + len arr) (S (length arr)) 0 (len arr)) as (r & E2 & Hr); [lia|lia| |unfold len; lia..|intros; lia|].
  { by apply (sorted_searchable cmp key 0 (0 + len arr)). }
  exists arr', r. split; [done|]. split; [apply (m_perm _ _ _ _ M)|]. split; [done|]. destruct r as [p|].
  - destruct Hr as [Hp Hc]. split; [done|]. rewrite <- (m_perm _ _ _ _ M). unfold ix. apply list_elem_of_lookup. exists (Z.to_nat p).
    apply list_lookup_lookup_total_lt. unfold len in *. lia.
  - intros x Hx. rewrite <- (m_perm _ _ _ _ M) in Hx. apply list_elem_of_lookup in Hx as [i Hi]. pose proof (lookup_lt_Some _ _ _ Hi) as Hlt.
    specialize (Hr (Z.of_nat i)). unfold ix in Hr. rewrite Nat2Z.id, (list_lookup_total_correct _ _ _ Hi) in Hr. apply Hr. unfold len in *. lia.
Qed.

(** 6 is not in the array. *)
Lemma sort_and_search_witness : ∃ arr' r, kqsort Z.sub 4 6 [9; 5; 3; 7; 1] 0 5 = Ok arr' ∧
  kbsearch Z.sub 6 6 arr' 0 5 = Ok r ∧ r = None.
Proof.
  destruct (sort_and_search Z.sub 4 [9; 5; 3; 7; 1] 6) as (arr' & r & E & M & F & H); [lia|lia|lia|vm_compute; done|].
  exists arr', r. split; [exact E|]. split; [exact F|]. destruct r as [p|]; [|done]. destruct H as [H1 H2]. exfalso.
  apply list_elem_of_In in H2. cbn in H2. lia.
Defined.

End QsortTheory.
