(* ===== verification/Strtol.v ===== *)
(** Numbers from strings: sys/libkern/strtol.c, strtoul.c, strtoq.c and
    strtouq.c, with the character classes of sys/sys/ctype.h.

    A string is the list of the bytes in memory from its start on; a read after the
    last one is out of bounds.  [s] is the index of the byte that [s] points to.
    [w] is the width of a long, 32 or 64 bits; a quad has 64. *)

From stdpp Require Import base list.
From S2P Require Import Prelude.

Module Strtol.

(** * Characters (ctype.h) *)

Definition isspace (c : Z) : bool := (c =? 32) || ((9 <=? c) && (c <=? 13)).
Definition isascii (c : Z) : bool := Z.ldiff c 0x7f =? 0.
Definition isupper (c : Z) : bool := (65 <=? c) && (c <=? 90).
Definition islower (c : Z) : bool := (97 <=? c) && (c <=? 122).
Definition isalpha (c : Z) : bool := isupper c || islower c.
Definition isdigit (c : Z) : bool := (48 <=? c) && (c <=? 57).

(** * The scan *)

(** White space: the character after it, and the index after that. *)
Fixpoint skip_space (fuel : nat) (mem : list Z) (s : Z) : outcome (Z * Z) :=
  match fuel with
  | O => NoFuel
  | S fuel =>
      let* c := aget mem s in
      if isspace c then skip_space fuel mem (s + 1) else Ok (c, s + 1)
  end.

(** The sign and the prefix of a hexadecimal or octal number. *)
Definition scan_sign (mem : list Z) (c s : Z) : outcome (bool * Z * Z) :=
  if c =? 45 then let* c := aget mem s in Ok (true, c, s + 1)
  else if c =? 43 then let* c := aget mem s in Ok (false, c, s + 1)
  else Ok (false, c, s).

Definition scan_prefix (mem : list Z) (base c s : Z) : outcome (Z * Z * Z) :=
  let* hex :=
    if ((base =? 0) || (base =? 16)) && (c =? 48) then let* x := aget mem s in Ok ((x =? 120) || (x =? 88)) else Ok false in
  let* (base, c, s) := if hex : bool then let* c := aget mem (s + 1) in Ok (16, c, s + 2) else Ok (base, c, s) in
  Ok (if base =? 0 then if c =? 48 then 8 else 10 else base, c, s).

(** The value of a character that can be a digit. *)
Definition digit (c : Z) : option Z :=
  if isdigit c then Some (u8 (c - 48))
  else if isalpha c then Some (u8 (c - (if isupper c then 65 - 10 else 97 - 10)))
  else None.

(** The digits; [any] is 0, 1, or -1 after an overflow. *)
Fixpoint scan_digits (w : Z) (fuel : nat) (mem : list Z) (base cutoff cutlim c s acc any : Z) : outcome (Z * Z * Z) :=
  match fuel with
  | O => NoFuel
  | S fuel =>
      if negb (isascii c) then Ok (acc, any, s)
      else
        match digit c with
        | None => Ok (acc, any, s)
        | Some d =>
            if d >=? base then Ok (acc, any, s)
            else
              let (acc, any) :=
                if (any <? 0) || (acc >? cutoff) || ((acc =? cutoff) && (d >? cutlim)) then (acc, -1)
                else (unsigned_of w (unsigned_of w (acc * base) + d), 1) in
              let* c := aget mem s in
              scan_digits w fuel mem base cutoff cutlim c (s + 1) acc any
        end
  end.

(** * The functions *)

Definition LONG_MAX (w : Z) : Z := 2 ^ (w - 1) - 1.
Definition LONG_MIN (w : Z) : Z := - LONG_MAX w - 1.
Definition ULONG_MAX (w : Z) : Z := 2 ^ w - 1.

Definition scan_start (mem : list Z) (base : Z) : outcome (bool * Z * Z * Z) :=
  let* (c, s) := skip_space (S (length mem)) mem 0 in
  let* (neg, c, s) := scan_sign mem c s in
  let* (base, c, s) := scan_prefix mem base c s in
  Ok (neg, base, c, s).

(** The result, and the index that is stored through [endptr]. *)
Definition strtol (w : Z) (mem : list Z) (base : Z) : outcome (Z * Z) :=
  let* (neg, base, c, s) := scan_start mem base in
  let cutoff := if neg then unsigned_of w (- unsigned_of w (LONG_MIN w)) else LONG_MAX w in
  let ubase := unsigned_of w base in
  if ubase =? 0 then Undef DivByZero
  else
    let cutlim := cutoff mod ubase in
    let cutoff := cutoff / ubase in
    let* (acc, any, s) := scan_digits w (S (length mem)) mem base cutoff cutlim c s 0 0 in
    let acc := if any <? 0 then unsigned_of w (if neg then LONG_MIN w else LONG_MAX w) else if neg : bool then unsigned_of w (- acc) else acc in
    Ok (signed_of w acc, if any =? 0 then 0 else s - 1).

Definition strtoul (w : Z) (mem : list Z) (base : Z) : outcome (Z * Z) :=
  let* (neg, base, c, s) := scan_start mem base in
  let ubase := unsigned_of w base in
  if ubase =? 0 then Undef DivByZero
  else
    let cutoff := ULONG_MAX w / ubase in
    let cutlim := ULONG_MAX w mod ubase in
    let* (acc, any, s) := scan_digits w (S (length mem)) mem base cutoff cutlim c s 0 0 in
    let acc := if any <? 0 then ULONG_MAX w else if neg : bool then unsigned_of w (- acc) else acc in
    Ok (acc, if any =? 0 then 0 else s - 1).

Definition strtoq (mem : list Z) (base : Z) : outcome (Z * Z) :=
  let* (neg, base, c, s) := scan_start mem base in
  let qbase := u32 base in
  let cutoff := if neg then u64 (u64 (- (LONG_MIN 64 + LONG_MAX 64)) + LONG_MAX 64) else LONG_MAX 64 in
  if qbase =? 0 then Undef DivByZero
  else
    let cutlim := cutoff mod qbase in
    let cutoff := cutoff / qbase in
    let* (acc, any, s) := scan_digits 64 (S (length mem)) mem base cutoff cutlim c s 0 0 in
    let acc := if any <? 0 then u64 (if neg then LONG_MIN 64 else LONG_MAX 64) else if neg : bool then u64 (- acc) else acc in
    Ok (signed_of 64 acc, if any =? 0 then 0 else s - 1).

Definition strtouq (mem : list Z) (base : Z) : outcome (Z * Z) :=
  let* (neg, base, c, s) := scan_start mem base in
  let qbase := u32 base in
  if qbase =? 0 then Undef DivByZero
  else
    let cutoff := ULONG_MAX 64 / qbase in
    let cutlim := ULONG_MAX 64 mod qbase in
    let* (acc, any, s) := scan_digits 64 (S (length mem)) mem base cutoff cutlim c s 0 0 in
    let acc := if any <? 0 then ULONG_MAX 64 else if neg : bool then u64 (- acc) else acc in
    Ok (acc, if any =? 0 then 0 else s - 1).

End Strtol.
