(* ===== verification/StrtolTheory.v ===== *)
(** The functions of Strtol.v read a numeral as it is written, and give its value,
    or the nearest one that the type has. *)

From stdpp Require Import base list.
From S2P Require Import Prelude Strtol.

Module StrtolTheory.
Import Strtol.

(** * Numerals *)

(** The value of a digit, in any base up to 36. *)
Definition digit_value (c : Z) : option Z :=
  if isdigit c then Some (c - 48) else if isupper c then Some (c - 55) else if islower c then Some (c - 87) else None.

Fixpoint after_spaces (l : list Z) : list Z :=
  match l with
  | c :: l' => if isspace c then after_spaces l' else l
  | [] => []
  end.

Definition after_sign (l : list Z) : bool * list Z :=
  match l with
  | c :: l' => if c =? 45 then (true, l') else if c =? 43 then (false, l') else (false, l)
  | [] => (false, [])
  end.

Definition hex_prefix (base : Z) (l : list Z) : bool :=
  match l with
  | c :: x :: _ => ((base =? 0) || (base =? 16)) && (c =? 48) && ((x =? 120) || (x =? 88))
  | _ => false
  end.

Definition after_prefix (base : Z) (l : list Z) : Z * list Z :=
  if hex_prefix base l then (16, drop 2 l)
  else (if base =? 0 then if bool_decide (head l = Some 48) then 8 else 10 else base, l).

(** The digits, and what comes after them. *)
Fixpoint digits (base : Z) (l : list Z) : list Z * list Z :=
  match l with
  | c :: l' =>
      match digit_value c with
      | Some d => if d <? base then let (ds, rest) := digits base l' in (d :: ds, rest) else ([], l)
      | None => ([], l)
      end
  | [] => ([], [])
  end.

Record numeral := Numeral {
  n_neg : bool;
  n_base : Z;
  n_digits : list Z;
  n_rest : list Z
}.

Definition numeral_of (mem : list Z) (base : Z) : numeral :=
  let (neg, l) := after_sign (after_spaces mem) in
  let (base, l) := after_prefix base l in
  let (ds, rest) := digits base l in
  Numeral neg base ds rest.

Definition value (base : Z) (ds : list Z) : Z := foldl (λ v d, v * base + d) 0 ds.

Definition n_value (n : numeral) : Z := if n_neg n then - value (n_base n) (n_digits n) else value (n_base n) (n_digits n).

(** Where the numeral ends, or the start of the string if there is none. *)
Definition n_end (mem : list Z) (n : numeral) : Z :=
  if n_digits n then 0 else Z.of_nat (length mem) - Z.of_nat (length (n_rest n)).

(** * The scan *)

(** [c] is the byte before index [s], and [l] is what follows. *)
Definition at_byte (mem : list Z) (c s : Z) (l : list Z) : Prop := 1 ≤ s ∧ drop (Z.to_nat (s - 1)) mem = c :: l.

Lemma at_next mem c s x l : at_byte mem c s (x :: l) → aget mem s = Ok x ∧ at_byte mem x (s + 1) l.
Proof.
  intros [H1 H2]. assert (Hd : drop (Z.to_nat s) mem = x :: l).
  { replace (Z.to_nat s) with (Z.to_nat (s - 1) + 1)%nat by lia. by rewrite <- drop_drop, H2. }
  split; [|split; [lia|by replace (s + 1 - 1) with s by lia]]. apply aget_Ok. split; [lia|].
  rewrite <- (Nat.add_0_r (Z.to_nat s)), <- lookup_drop, Hd. done.
Qed.

Lemma at_index mem c s l : at_byte mem c s l → s - 1 = Z.of_nat (length mem) - Z.of_nat (length (c :: l)).
Proof. intros [H1 H2]. rewrite <- H2, length_drop. assert (length (drop (Z.to_nat (s - 1)) mem) ≠ 0%nat) by (by rewrite H2). rewrite length_drop in H. lia. Qed.

(** A byte that is not the end of the string is followed by another one. *)
Lemma more_bytes (c : Z) l : 0 ∈ c :: l → c ≠ 0 → ∃ x l', l = x :: l' ∧ 0 ∈ x :: l'.
Proof. intros H Hc. apply elem_of_cons in H as [H|H]; [by subst|]. destruct l as [|x l']; [by apply elem_of_nil in H|]. by exists x, l'. Qed.

Lemma skip_space_ok mem fuel s l : 0 ≤ s → drop (Z.to_nat s) mem = l → 0 ∈ l → (length l < fuel)%nat →
  ∃ c s' l', skip_space fuel mem s = Ok (c, s') ∧ at_byte mem c s' l' ∧ after_spaces l = c :: l' ∧ 0 ∈ c :: l'.
Proof.
  revert s l. induction fuel as [|fuel IH]; intros s l Hs Hl H0 Hf; [lia|]. destruct l as [|c l]; [by apply elem_of_nil in H0|].
  assert (Hat : at_byte mem c (s + 1) l) by (split; [lia|by replace (s + 1 - 1) with s by lia]).
  assert (Eg : aget mem s = Ok c) by (apply aget_Ok; split; [done|]; rewrite <- (Nat.add_0_r (Z.to_nat s)), <- lookup_drop; by rewrite Hl).
  cbn [skip_space after_spaces]. rewrite Eg. cbn [obind]. destruct (isspace c) eqn:Ec.
  - destruct (more_bytes c l H0) as (x & l' & -> & H0'); [by intros ->|]. destruct (at_next _ _ _ _ _ Hat) as [_ [_ Hd]].
    apply IH; [lia| |done|cbn in *; lia]. by replace (s + 1 + 1 - 1) with (s + 1) in Hd by lia.
  - by exists c, (s + 1), l.
Qed.

Lemma scan_sign_ok mem c s l : at_byte mem c s l → 0 ∈ c :: l →
  ∃ c' s' l', scan_sign mem c s = Ok ((after_sign (c :: l)).1, c', s') ∧ at_byte mem c' s' l' ∧ (after_sign (c :: l)).2 = c' :: l' ∧ 0 ∈ c' :: l'.
Proof.
  intros Hat H0. unfold scan_sign. cbn [after_sign]. destruct (c =? 45) eqn:E1; bool_prop; [|destruct (c =? 43) eqn:E2; bool_prop].
  1,2: destruct (more_bytes c l H0) as (x & l' & -> & H0'); [lia|]; destruct (at_next _ _ _ _ _ Hat) as [-> Hat']; by exists x, (s + 1), l'.
  by exists c, s, l.
Qed.

Lemma scan_prefix_ok mem base c s l : at_byte mem c s l → 0 ∈ c :: l →
  ∃ c' s' l', scan_prefix mem base c s = Ok ((after_prefix base (c :: l)).1, c', s') ∧ at_byte mem c' s' l' ∧ (after_prefix base (c :: l)).2 = c' :: l' ∧ 0 ∈ c' :: l'.
Proof.
  intros Hat H0. unfold scan_prefix, after_prefix.
  assert (Eh : bool_decide (head (c :: l) = Some 48) = (c =? 48)) by (apply eq_true_iff_eq; rewrite bool_decide_eq_true, Z.eqb_eq; cbn; naive_solver).
  rewrite Eh. destruct (((base =? 0) || (base =? 16)) && (c =? 48)) eqn:E.
  - assert (Ec : c = 48) by (apply andb_true_iff in E as [_ E]; by apply Z.eqb_eq).
    destruct (more_bytes c l H0) as (x & l' & -> & H0'); [lia|]. destruct (at_next _ _ _ _ _ Hat) as [-> Hat']. cbn [obind hex_prefix]. rewrite E.
    destruct ((x =? 120) || (x =? 88)) eqn:Ex; cbn [andb].
    + destruct (more_bytes x l' H0') as (y & l2 & -> & H0''); [intros ->; done|]. destruct (at_next _ _ _ _ _ Hat') as [Ey Hat''].
      rewrite Ey. cbn. exists y, (s + 1 + 1), l2. by replace (s + 2) with (s + 1 + 1) by lia.
    + cbn. by exists c, s, (x :: l').
  - cbn [obind]. assert (hex_prefix base (c :: l) = false) as -> by (unfold hex_prefix; destruct l; [done|by rewrite E]). by exists c, s, l.
Qed.

Lemma scan_start_ok mem base : 0 ∈ mem →
  let (neg, l) := after_sign (after_spaces mem) in let (base', l') := after_prefix base l in
  ∃ c s r, scan_start mem base = Ok (neg, base', c, s) ∧ at_byte mem c s r ∧ l' = c :: r ∧ 0 ∈ c :: r.
Proof.
  intros H0. unfold scan_start. destruct (skip_space_ok mem (S (length mem)) 0 mem) as (c & s & l & -> & Hat & -> & Hc); [done|done|done|lia|]. cbn [obind].
  destruct (scan_sign_ok mem c s l Hat Hc) as (c2 & s2 & l2 & -> & Hat2 & E2 & Hc2). destruct (after_sign (c :: l)) as [neg r2]. cbn in E2 |- *. subst r2.
  destruct (scan_prefix_ok mem base c2 s2 l2 Hat2 Hc2) as (c3 & s3 & l3 & -> & Hat3 & E3 & Hc3). destruct (after_prefix base (c2 :: l2)) as [b r3]. cbn in E3 |- *. subst r3.
  by exists c3, s3, l3.
Qed.

(** * Digits *)

Lemma digit_eq c : 0 ≤ c < 256 → digit c = digit_value c.
Proof.
  intros Hc. unfold digit, digit_value, isalpha, isdigit, isupper, islower.
  repeat case_test; try done; f_equal; rewrite unsigned_of_small; try done; unfold is_u; try lia.
Qed.

Lemma digit_ascii c d : 0 ≤ c < 256 → digit_value c = Some d → isascii c = true ∧ 0 ≤ d < 36.
Proof.
  intros Hc. unfold digit_value, isdigit, isupper, islower. intros H.
  assert (48 ≤ c ≤ 122 ∧ 0 ≤ d < 36) as [Hr Hd] by (revert H; repeat case_test; intros [= <-]; lia). split; [|done].
  unfold isascii. change 0x7f with (Z.ones 7). rewrite Z.ldiff_ones_r_low; [done|lia|]. apply Z.log2_lt_pow2; lia.
Qed.

Lemma not_ascii c : 0 ≤ c < 256 → isascii c = false → digit_value c = None.
Proof. intros Hc Ha. destruct (digit_value c) eqn:E; [|done]. apply digit_ascii in E as [E _]; [congruence|done]. Qed.

(** What the loop knows: [v] is the value of the digits so far, [lim] the largest
    value that the type has. *)
Definition digits_known (lim v acc any : Z) : Prop :=
  (any = 0 ∧ acc = 0 ∧ v = 0) ∨ (any = 1 ∧ acc = v ∧ 0 ≤ v ≤ lim) ∨ (any = -1 ∧ lim < v).

Lemma scan_digits_ok w mem base cutoff cutlim fuel c s l acc any v :
  0 < w → 2 ≤ base → 0 ≤ cutoff → 0 ≤ cutlim < base → cutoff * base + cutlim < 2 ^ w → Forall (λ b, 0 ≤ b < 256) mem →
  at_byte mem c s l → 0 ∈ c :: l → (length l < fuel)%nat → digits_known (cutoff * base + cutlim) v acc any →
  ∃ acc' any' s', scan_digits w fuel mem base cutoff cutlim c s acc any = Ok (acc', any', s') ∧
    s' - 1 = Z.of_nat (length mem) - Z.of_nat (length (digits base (c :: l)).2) ∧
    digits_known (cutoff * base + cutlim) (foldl (λ v d, v * base + d) v (digits base (c :: l)).1) acc' any' ∧
    (any' = 0 ↔ any = 0 ∧ (digits base (c :: l)).1 = []).
Proof.
  intros Hw Hb Hco Hcl Hlim Hmem. revert c s l acc any v. induction fuel as [|fuel IH]; intros c s l acc any v Hat H0 Hf Hk; [lia|].
  assert (Hc : 0 ≤ c < 256).
  { destruct Hat as [_ Hd]. rewrite Forall_forall in Hmem. apply Hmem. apply (subseteq_drop (Z.to_nat (s - 1))). rewrite Hd. by left. }
  pose proof (at_index _ _ _ _ Hat) as Hs. cbn [scan_digits digits].
  destruct (isascii c) eqn:Ea; cbn [negb].
  2:{ rewrite (not_ascii c Hc Ea). exists acc, any, s. cbn. split_and!; [done|done|done|tauto]. }
  rewrite digit_eq by done. destruct (digit_value c) as [d|] eqn:Ed; [|exists acc, any, s; cbn; split_and!; [done|done|done|tauto]].
  destruct (digit_ascii c d Hc Ed) as [_ Hd]. destruct (d >=? base) eqn:Eb; bool_prop.
  { rewrite (proj2 (Z.ltb_ge d base)) by lia. exists acc, any, s. cbn. split_and!; [done|done|done|tauto]. }
  rewrite (proj2 (Z.ltb_lt d base)) by lia. destruct (more_bytes c l H0) as (x & l' & -> & H0'); [by intros ->|].
  destruct (at_next _ _ _ _ _ Hat) as [Ex Hat'].
  set (P := if (any <? 0) || (acc >? cutoff) || ((acc =? cutoff) && (d >? cutlim)) then (acc, -1) else (unsigned_of w (unsigned_of w (acc * base) + d), 1)).
  assert (HP : digits_known (cutoff * base + cutlim) (v * base + d) P.1 P.2 ∧ P.2 ≠ 0).
  { unfold P. destruct (_ || _) eqn:E; cbn [fst snd]; (split; [|lia]).
    - right. right. split; [done|]. destruct Hk as [(-> & -> & ->)|[(-> & -> & Hv)|[-> Hv]]].
      + repeat (apply orb_true_iff in E as [E|E]); try apply andb_true_iff in E as [E E']; bool_prop; nia.
      + repeat (apply orb_true_iff in E as [E|E]); try apply andb_true_iff in E as [E E']; bool_prop; nia.
      + nia.
    - right. left. split; [done|]. apply orb_false_iff in E as [E E3]. apply orb_false_iff in E as [E1 E2]. bool_prop.
      assert (Hav : acc = v ∧ 0 ≤ v) by (destruct Hk as [(-> & -> & ->)|[(-> & -> & Hv)|[-> Hv]]]; lia). destruct Hav as [-> Hv].
      assert (Hn : v * base + d ≤ cutoff * base + cutlim).
      { apply andb_false_iff in E3 as [E3|E3]; bool_prop; [nia|]. destruct (decide (v = cutoff)); [subst; lia|nia]. }
      rewrite !unsigned_of_small; unfold is_u; [|nia|rewrite unsigned_of_small; unfold is_u; nia]. nia. }
  destruct P as [acc1 any1]. cbn [fst snd] in HP. destruct HP as [HP Hne]. rewrite Ex. cbn [obind].
  destruct (IH x (s + 1) l' acc1 any1 (v * base + d)) as (acc' & any' & s' & E & Hs' & Hk' & Ha'); [done|done|cbn in Hf; lia|done|].
  exists acc', any', s'. destruct (digits base (x :: l')) as [ds rest] eqn:Eds. cbn [fst snd] in *. split; [done|]. split; [done|]. split; [done|].
  split; [intros H; apply Ha' in H; tauto|intros [_ H]; done].
Qed.

(** * The functions *)

Definition legal_base (base : Z) : Prop := base = 0 ∨ 2 ≤ base ≤ 36.

Lemma after_prefix_base base l : legal_base base → 2 ≤ (after_prefix base l).1 ≤ 36.
Proof.
  unfold after_prefix, legal_base. intros Hb. destruct (hex_prefix base l); cbn [fst]; [lia|]. destruct (base =? 0) eqn:E; bool_prop; [case_bool_decide; lia|lia].
Qed.

(** The numeral of a string, and how the scan starts. *)
Lemma numeral_start mem base : 0 ∈ mem → legal_base base →
  let n := numeral_of mem base in ∃ c s r, scan_start mem base = Ok (n_neg n, n_base n, c, s) ∧ at_byte mem c s r ∧ 0 ∈ c :: r ∧
    2 ≤ n_base n ≤ 36 ∧ (n_digits n, n_rest n) = digits (n_base n) (c :: r).
Proof.
  intros H0 Hb. pose proof (scan_start_ok mem base H0) as Hs. unfold numeral_of. destruct (after_sign (after_spaces mem)) as [neg l].
  pose proof (after_prefix_base base l Hb) as Hb'. destruct (after_prefix base l) as [base' l']. destruct Hs as (c & s & r & E & Hat & -> & Hc).
  destruct (digits base' (c :: r)) as [ds rest] eqn:Ed. cbn in *. exists c, s, r. by rewrite Ed.
Qed.

Definition bytes (mem : list Z) : Prop := Forall (λ b, 0 ≤ b < 256) mem.

(** What the digits come to when the largest value is [lim]. *)
Lemma scan_numeral w mem base cutoff0 : 5 < w → 0 ∈ mem → bytes mem → legal_base base → 0 ≤ cutoff0 < 2 ^ w →
  let n := numeral_of mem base in ∃ c s acc any s', scan_start mem base = Ok (n_neg n, n_base n, c, s) ∧ 2 ≤ n_base n ≤ 36 ∧
    scan_digits w (S (length mem)) mem (n_base n) (cutoff0 / n_base n) (cutoff0 mod n_base n) c s 0 0 = Ok (acc, any, s') ∧
    (if any =? 0 then 0 else s' - 1) = n_end mem n ∧ digits_known cutoff0 (value (n_base n) (n_digits n)) acc any.
Proof.
  intros Hw H0 Hby Hb Hcut n. destruct (numeral_start mem base H0 Hb) as (c & s & r & E & Hat & Hc & Hb' & Hd). fold n in E, Hb', Hd.
  assert (Elim : cutoff0 / n_base n * n_base n + cutoff0 mod n_base n = cutoff0) by (rewrite Z.mul_comm; symmetry; apply Z.div_mod; lia).
  assert (Hlen : (length r < S (length mem))%nat).
  { destruct Hat as [_ Hdr]. apply (f_equal length) in Hdr. rewrite length_drop in Hdr. cbn in Hdr. lia. }
  destruct (scan_digits_ok w mem (n_base n) (cutoff0 / n_base n) (cutoff0 mod n_base n) (S (length mem)) c s r 0 0 0) as (acc & any & s' & E' & Hs' & Hk & Ha);
    try done; [lia|lia|apply Z.div_pos; lia|apply Z.mod_pos_bound; lia|lia|by left|].
  rewrite <- Hd in Hs', Hk, Ha. cbn [fst snd] in Hs', Hk, Ha. rewrite Elim in Hk.
  exists c, s, acc, any, s'. split_and!; try done || lia. unfold n_end. destruct (any =? 0) eqn:Ea; bool_prop.
  - destruct Ha as [Ha _]. by destruct (Ha Ea) as [_ ->].
  - destruct (n_digits n) eqn:Edn; [|done]. destruct Ha as [_ Ha]. by specialize (Ha (conj eq_refl eq_refl)).
Qed.

(** The value, or the nearest one that a long has. *)
Definition clip (w v : Z) : Z := Z.max (LONG_MIN w) (Z.min (LONG_MAX w) v).

Lemma strtol_ok w mem base : 5 < w → 0 ∈ mem → bytes mem → legal_base base →
  strtol w mem base = Ok (clip w (n_value (numeral_of mem base)), n_end mem (numeral_of mem base)).
Proof.
  intros Hw H0 Hby Hb. set (n := numeral_of mem base). assert (Hpow : 2 ^ w = 2 * 2 ^ (w - 1)) by (rewrite <- Z.pow_succ_r by lia; f_equal; lia).
  assert (Hp5 : 2 ^ 5 ≤ 2 ^ (w - 1)) by (apply Z.pow_le_mono_r; lia). change (2 ^ 5) with 32 in Hp5. set (N := 2 ^ (w - 1)) in *.
  set (cut := if n_neg n then N else N - 1).
  assert (Ecut : (if n_neg n then unsigned_of w (- unsigned_of w (LONG_MIN w)) else LONG_MAX w) = cut).
  { unfold cut. destruct (n_neg n); [|done]. unfold unsigned_of, LONG_MIN, LONG_MAX. fold N. rewrite Hpow.
    replace (- (N - 1) - 1) with (N + (-1) * (2 * N)) by lia. rewrite Z.mod_add, (Z.mod_small N) by lia.
    replace (- N) with (N + (-1) * (2 * N)) by lia. rewrite Z.mod_add, Z.mod_small by lia. done. }
  destruct (scan_numeral w mem base cut) as (c & s & acc & any & s' & E & Hb' & Ed & Hend & Hk); try done; [unfold cut; destruct (n_neg n); lia|]. fold n in E, Hb', Ed, Hend, Hk.
  unfold strtol. rewrite E. cbn [obind]. rewrite Ecut. rewrite (unsigned_of_small w (n_base n)) by (unfold is_u; lia).
  rewrite (proj2 (Z.eqb_neq (n_base n) 0)) by lia. rewrite Ed. cbn [obind]. rewrite Hend. do 2 f_equal.
  assert (Hsmall : ∀ x, - N ≤ x < N → signed_of w (unsigned_of w x) = x) by (intros x Hx; apply signed_of_unsigned_of; [lia|]; unfold is_s; fold N; lia).
  unfold clip, n_value, LONG_MIN, LONG_MAX. fold N. set (v := value _ _) in *. unfold cut in Hk. destruct Hk as [(-> & -> & ->)|[(-> & -> & Hv)|[-> Hv]]]; cbn.
  - destruct (n_neg n); [rewrite Hsmall by lia; lia|]. rewrite signed_of_small by (try unfold is_s; fold N; lia). lia.
  - destruct (n_neg n); [rewrite Hsmall by lia; lia|]. rewrite signed_of_small by (try unfold is_s; fold N; lia). lia.
  - destruct (n_neg n); rewrite Hsmall by lia; lia.
Qed.

Lemma strtoul_ok w mem base : 5 < w → 0 ∈ mem → bytes mem → legal_base base → let n := numeral_of mem base in
  strtoul w mem base = Ok (if value (n_base n) (n_digits n) >? ULONG_MAX w then ULONG_MAX w else unsigned_of w (n_value n), n_end mem n).
Proof.
  intros Hw H0 Hby Hb n. assert (Hp5 : 2 ^ 6 ≤ 2 ^ w) by (apply Z.pow_le_mono_r; lia). change (2 ^ 6) with 64 in Hp5.
  destruct (scan_numeral w mem base (ULONG_MAX w)) as (c & s & acc & any & s' & E & Hb' & Ed & Hend & Hk); try done; [unfold ULONG_MAX; lia|]. fold n in E, Hb', Ed, Hend, Hk.
  unfold strtoul. rewrite E. cbn [obind]. rewrite (unsigned_of_small w (n_base n)) by (unfold is_u; lia).
  rewrite (proj2 (Z.eqb_neq (n_base n) 0)) by lia. rewrite Ed. cbn [obind]. rewrite Hend. do 2 f_equal. unfold n_value. set (v := value _ _) in *.
  unfold ULONG_MAX in *. assert (Hcase : (any <? 0) = false ∧ acc = v ∧ 0 ≤ v ≤ 2 ^ w - 1 ∨ (any <? 0) = true ∧ 2 ^ w - 1 < v).
  { destruct Hk as [(-> & -> & Ev)|[(-> & Ea & Hv)|[-> Hv]]]; [left; lia|left; lia|by right]. }
  destruct (v >? 2 ^ w - 1) eqn:Ev; bool_prop; destruct Hcase as [(-> & -> & Hv)|[-> Hv]]; try lia; [].
  destruct (n_neg n); [done|]. symmetry. apply unsigned_of_small. unfold is_u. lia.
Qed.

(** The functions for quads are those for longs of 64 bits. *)
Lemma quads_ok mem base : 0 ∈ mem → legal_base base → strtoq mem base = strtol 64 mem base ∧ strtouq mem base = strtoul 64 mem base.
Proof.
  intros H0 Hb. destruct (numeral_start mem base H0 Hb) as (c & s & r & E & _ & _ & Hb' & _). unfold strtoq, strtol, strtouq, strtoul.
  rewrite E. cbn [obind]. set (n := numeral_of mem base) in *. rewrite (unsigned_of_small 32 (n_base n)), (unsigned_of_small 64 (n_base n)) by (unfold is_u; cbn; lia).
  split; [|done]. by destruct (n_neg n).
Qed.

(** * Properties *)

(** C30: for every string that ends and every base the functions know, strtol and strtoq give the value of the
    numeral at its start or, if that is out of range, the nearest number that the type has; strtoul and strtouq give
    it modulo the range of the type, or the largest number if the digits alone exceed it; no byte is read behind the
    end of the string, and [endptr] is set behind the last digit, or to the start if there is no digit. *)
Theorem strtol_correct w mem base : w = 32 ∨ w = 64 → 0 ∈ mem → bytes mem → legal_base base →
  let n := numeral_of mem base in
  strtol w mem base = Ok (clip w (n_value n), n_end mem n) ∧
  strtoul w mem base = Ok (if value (n_base n) (n_digits n) >? ULONG_MAX w then ULONG_MAX w else unsigned_of w (n_value n), n_end mem n) ∧
  strtoq mem base = Ok (clip 64 (n_value n), n_end mem n) ∧
  strtouq mem base = Ok (if value (n_base n) (n_digits n) >? ULONG_MAX 64 then ULONG_MAX 64 else u64 (n_value n), n_end mem n).
Proof.
  intros Hw H0 Hby Hb n. destruct (quads_ok mem base H0 Hb) as [-> ->].
  split; [apply strtol_ok; done || lia|]. split; [apply strtoul_ok; done || lia|]. split; [by apply strtol_ok|by apply strtoul_ok].
Qed.

(** "\t -0x1F." *)
Lemma strtol_correct_witness : strtol 32 [9; 32; 45; 48; 120; 49; 70; 46; 0] 0 = Ok (-31, 7).
Proof.
  refine (proj1 (strtol_correct 32 [9; 32; 45; 48; 120; 49; 70; 46; 0] 0 _ _ _ _)); [by left|by_decide|by_decide|by left].
Defined.

(** Values at the limits: the largest long, one more, and the smallest, in 32 bits. *)
Example strtol_limits :
  strtol 32 [50; 49; 52; 55; 52; 56; 51; 54; 52; 55; 0] 10 = Ok (2147483647, 10) ∧
  strtol 32 [50; 49; 52; 55; 52; 56; 51; 54; 52; 56; 0] 10 = Ok (2147483647, 10) ∧
  strtol 32 [45; 50; 49; 52; 55; 52; 56; 51; 54; 52; 56; 0] 10 = Ok (-2147483648, 11).
Proof. vm_compute. done. Qed.

End StrtolTheory.
