(* ===== verification/Fnmatch.v ===== *)
(** File name patterns: sys/libkern/fnmatch.c, with index.c and what sys/sys/libkern.h
    and sys/sys/ctype.h define.

    A character is a signed byte.  The pattern, in which the code only moves
    forward, is the list of its characters from the pointer on; in the string, of
    which the code also looks at the character before, a pointer is an index.  A
    read after the last byte of the list is out of bounds. *)

From stdpp Require Import base list.
From S2P Require Import Prelude.

Module Fnmatch.

Definition EOS : Z := 0.
Definition MAXNEST : Z := 20.
Definition FNM_NOMATCH : Z := 1.
Definition FNM_NOESCAPE : Z := 0x01.
Definition FNM_PATHNAME : Z := 0x02.
Definition FNM_PERIOD : Z := 0x04.
Definition FNM_LEADING_DIR : Z := 0x08.
Definition FNM_CASEFOLD : Z := 0x10.

(** [tolower((unsigned char)c)]. *)
Definition tolower (c : Z) : Z := u8 c + (if (65 <=? u8 c) && (u8 c <=? 90) then 0x20 else 0).

(** The same, stored in a char. *)
Definition fold (flags c : Z) : Z := if has_flag flags FNM_CASEFOLD then signed_of 8 (tolower c) else c.

(** [*pattern++]. *)
Definition next (pattern : list Z) : outcome (Z * list Z) :=
  match pattern with
  | c :: pattern => Ok (c, pattern)
  | [] => Undef OutOfBounds
  end.

(** [*pattern]. *)
Definition peek (pattern : list Z) : outcome Z := let* (c, _) := next pattern in Ok c.

(** * Bracket expressions *)

Inductive range :=
  | RANGE_ERROR
  | RANGE_NOMATCH
  | RANGE_MATCH (newp : list Z).

(** A backslash quotes the next character. *)
Definition unquote (flags c : Z) (pattern : list Z) : outcome (Z * list Z) :=
  if (c =? 92) && negb (has_flag flags FNM_NOESCAPE) then next pattern else Ok (c, pattern).

(** The second character of a range, if [pattern] goes on with one; [Error] at the end of the pattern. *)
Inductive upper :=
  | Single
  | Upper (c2 : Z) (pattern : list Z)
  | Error.

Definition range_upper (flags : Z) (pattern : list Z) : outcome upper :=
  let* x := peek pattern in
  if x =? 45 then
    let* c2 := peek (drop 1 pattern) in
    if negb (c2 =? EOS) && negb (c2 =? 93) then
      let* (c2, pattern) := unquote flags c2 (drop 2 pattern) in
      if c2 =? EOS then Ok Error else Ok (Upper (fold flags c2) pattern)
    else Ok Single
  else Ok Single.

Fixpoint rangematch_loop (fuel : nat) (flags : Z) (test c : Z) (pattern : list Z) (negate ok : bool) : outcome range :=
  match fuel with
  | O => NoFuel
  | S fuel =>
      let* (c, pattern) := unquote flags c pattern in
      if c =? EOS then Ok RANGE_ERROR
      else if (c =? 47) && has_flag flags FNM_PATHNAME then Ok RANGE_NOMATCH
      else
        let c := fold flags c in
        let* u := range_upper flags pattern in
        match u with
        | Error => Ok RANGE_ERROR
        | _ =>
            let (ok, pattern) :=
              match u with
              | Upper c2 pattern => (ok || ((c <=? test) && (test <=? c2)), pattern)
              | _ => (ok || (c =? test), pattern)
              end in
            let* (c, pattern) := next pattern in
            if c =? 93 then Ok (if eqb ok negate then RANGE_NOMATCH else RANGE_MATCH pattern)
            else rangematch_loop fuel flags test c pattern negate ok
        end
  end.

Definition rangematch (pattern : list Z) (test flags : Z) : outcome range :=
  let* c := peek pattern in
  let negate := (c =? 33) || (c =? 94) in
  let pattern := if negate then drop 1 pattern else pattern in
  let* (c, pattern) := next pattern in
  rangematch_loop (S (length pattern)) flags (fold flags test) c pattern negate false.

(** * The string *)

(** [index(string, ch)] from index [s] on. *)
Fixpoint index (fuel : nat) (str : list Z) (s ch : Z) : outcome (option Z) :=
  match fuel with
  | O => NoFuel
  | S fuel =>
      let* x := aget str s in
      if x =? ch then Ok (Some s) else if x =? 0 then Ok None else index fuel str (s + 1) ch
  end.

(** A period that only a period may match. *)
Definition leading_period (str : list Z) (flags stringstart s : Z) : outcome bool :=
  let* x := aget str s in
  if (x =? 46) && has_flag flags FNM_PERIOD then
    if s =? stringstart then Ok true
    else if has_flag flags FNM_PATHNAME then let* y := aget str (s - 1) in Ok (y =? 47)
    else Ok false
  else Ok false.

(** What '?' and '[' do not match. *)
Definition unmatchable (str : list Z) (flags stringstart s : Z) : outcome bool :=
  let* x := aget str s in
  if x =? EOS then Ok true
  else if (x =? 47) && has_flag flags FNM_PATHNAME then Ok true
  else leading_period str flags stringstart s.

Definition same_char (flags c x : Z) : bool := (c =? x) || (has_flag flags FNM_CASEFOLD && (tolower c =? tolower x)).

Fixpoint collapse (pattern : list Z) : list Z :=
  match pattern with
  | c :: pattern' => if c =? 42 then collapse pattern' else pattern
  | [] => []
  end.

(** The loop of the general case of '*'; [call] is the recursive call at a place of the string. *)
Fixpoint star_loop (fuel : nat) (call : Z → outcome Z) (str : list Z) (flags s : Z) : outcome Z :=
  match fuel with
  | O => NoFuel
  | S fuel =>
      let* test := aget str s in
      if test =? EOS then Ok FNM_NOMATCH
      else
        let* r := call s in
        if r =? 0 then Ok 0
        else if (test =? 47) && has_flag flags FNM_PATHNAME then Ok FNM_NOMATCH
        else star_loop fuel call str flags (s + 1)
  end.

(** * Matching *)

Fixpoint match_loop (fuel : nat) (str : list Z) (flags nesting stringstart : Z) (pattern : list Z) (s : Z) : outcome Z :=
  match fuel with
  | O => NoFuel
  | S fuel =>
      let* (c, pattern) := next pattern in
      let literal c pattern :=
        let* x := aget str s in
        if same_char flags c x then match_loop fuel str flags nesting stringstart pattern (s + 1) else Ok FNM_NOMATCH in
      if c =? EOS then
        let* x := aget str s in
        if has_flag flags FNM_LEADING_DIR && (x =? 47) then Ok 0 else Ok (if x =? EOS then 0 else FNM_NOMATCH)
      else if c =? 63 then
        let* u := unmatchable str flags stringstart s in
        if u : bool then Ok FNM_NOMATCH else match_loop fuel str flags nesting stringstart pattern (s + 1)
      else if c =? 42 then
        let pattern := collapse pattern in
        let* c := peek pattern in
        let* u := leading_period str flags stringstart s in
        if u : bool then Ok FNM_NOMATCH
        else if c =? EOS then
          if has_flag flags FNM_PATHNAME then
            if has_flag flags FNM_LEADING_DIR then Ok 0
            else let* r := index (S (length str)) str s 47 in Ok (match r with None => 0 | Some _ => FNM_NOMATCH end)
          else Ok 0
        else if (c =? 47) && has_flag flags FNM_PATHNAME then
          let* r := index (S (length str)) str s 47 in
          match r with
          | None => Ok FNM_NOMATCH
          | Some s => match_loop fuel str flags nesting stringstart pattern s
          end
        else
          let flags' := Z.ldiff flags FNM_PERIOD in
          star_loop (S (length str))
            (λ s, if nesting + 1 =? MAXNEST then Ok FNM_NOMATCH else match_loop fuel str flags' (nesting + 1) s pattern s) str flags s
      else if c =? 91 then
        let* u := unmatchable str flags stringstart s in
        if u : bool then Ok FNM_NOMATCH
        else
          let* x := aget str s in
          let* r := rangematch pattern x flags in
          match r with
          | RANGE_ERROR => literal c pattern
          | RANGE_MATCH newp => match_loop fuel str flags nesting stringstart newp (s + 1)
          | RANGE_NOMATCH => Ok FNM_NOMATCH
          end
      else if (c =? 92) && negb (has_flag flags FNM_NOESCAPE) then
        let* (c, pattern') := next pattern in
        if c =? EOS then literal 92 pattern else literal c pattern'
      else literal c pattern
  end.

Definition _kfnmatch (pattern str : list Z) (flags nesting s : Z) : outcome Z :=
  if nesting =? MAXNEST then Ok FNM_NOMATCH else match_loop (length pattern) str flags nesting s pattern s.

Definition kfnmatch (pattern str : list Z) (flags : Z) : outcome Z := _kfnmatch pattern str flags 0 0.

End Fnmatch.
