(* ===== verification/FnmatchTheory.v ===== *)
(** What a file name pattern means, and that kfnmatch decides it: a pattern is read
    as a list of tokens, and tokens are matched without a bound on recursion. *)

From stdpp Require Import base list.
From S2P Require Import Prelude Fnmatch.

Module FnmatchTheory.
Import Fnmatch.

(** * Patterns *)

(** The flags, but for FNM_PERIOD. *)
Record opts := Opts {
  o_noescape : bool;
  o_pathname : bool;
  o_leading_dir : bool;
  o_casefold : bool
}.

Definition opts_of (flags : Z) : opts :=
  Opts (has_flag flags FNM_NOESCAPE) (has_flag flags FNM_PATHNAME) (has_flag flags FNM_LEADING_DIR) (has_flag flags FNM_CASEFOLD).

Inductive token :=
  | Lit (c : Z)
  | Any
  | Star
  | Class (negate : bool) (items : list (Z * Z))
  | Never.

(** A bracket expression: its items and what follows it; or it is not closed; or
    it has a slash where slashes only match themselves. *)
Inductive bracket :=
  | Items (items : list (Z * Z)) (rest : list Z)
  | Unclosed
  | Slash.

Section pattern.
Context (o : opts).

Definition folded (c : Z) : Z := if o_casefold o then signed_of 8 (tolower c) else c.

(** A character, or the one that a backslash quotes. *)
Definition quoted (c : Z) (l : list Z) : Z * list Z :=
  if (c =? 92) && negb (o_noescape o) then (default EOS (head l), drop 1 l) else (c, l).

Definition range_end (l : list Z) : option (Z * list Z) :=
  match l with
  | x :: c2 :: l => if (x =? 45) && (negb (c2 =? EOS) && negb (c2 =? 93)) then Some (quoted c2 l) else None
  | _ => None
  end.

Fixpoint bracket_items (fuel : nat) (c : Z) (l : list Z) : bracket :=
  match fuel with
  | O => Unclosed
  | S fuel =>
      let (c, l) := quoted c l in
      if c =? EOS then Unclosed
      else if (c =? 47) && o_pathname o then Slash
      else
        let (hi, l) := match range_end l with Some (c2, l') => (c2, l') | None => (c, l) end in
        if hi =? EOS then Unclosed
        else
          match l with
          | [] => Unclosed
          | x :: l =>
              if x =? 93 then Items [(folded c, folded hi)] l
              else match bracket_items fuel x l with Items its rest => Items ((folded c, folded hi) :: its) rest | b => b end
          end
  end.

Definition negated (l : list Z) : bool := match l with c :: _ => (c =? 33) || (c =? 94) | [] => false end.

Definition bracket_of (l : list Z) : bracket :=
  match (if negated l then drop 1 l else l) with
  | c :: l => bracket_items (S (length l)) c l
  | [] => Unclosed
  end.

Fixpoint parse (fuel : nat) (l : list Z) : list token :=
  match fuel, l with
  | S fuel, c :: l =>
      if c =? EOS then []
      else if c =? 63 then Any :: parse fuel l
      else if c =? 42 then Star :: parse fuel (collapse l)
      else if c =? 91 then
        match bracket_of l with
        | Items its rest => Class (negated l) its :: parse fuel rest
        | Unclosed => Lit c :: parse fuel l
        | Slash => [Never]
        end
      else if (c =? 92) && negb (o_noescape o) then
        match l with
        | x :: l' => if x =? EOS then Lit 92 :: parse fuel l else Lit x :: parse fuel l'
        | [] => []
        end
      else Lit c :: parse fuel l
  | _, _ => []
  end.

(** * Matching *)

Definition char_matches (c x : Z) : bool := (c =? x) || (o_casefold o && (tolower c =? tolower x)).

(** A slash that only a slash matches. *)
Definition barred (x : Z) : bool := (x =? 47) && o_pathname o.

Definition in_class (negate : bool) (items : list (Z * Z)) (x : Z) : bool :=
  negb (eqb (existsb (λ '(lo, hi), (lo <=? folded x) && (folded x <=? hi)) items) negate).

Fixpoint glob (ts : list token) (s : list Z) : bool :=
  match ts with
  | [] => match s with [] => true | x :: _ => o_leading_dir o && (x =? 47) end
  | Lit c :: ts => match s with x :: s => char_matches c x && glob ts s | [] => false end
  | Any :: ts => match s with x :: s => negb (barred x) && glob ts s | [] => false end
  | Class neg its :: ts => match s with x :: s => negb (barred x) && in_class neg its x && glob ts s | [] => false end
  | Never :: _ => false
  | Star :: ts =>
      (fix star (s : list Z) : bool :=
         glob ts s || match s with x :: s => negb (barred x) && star s | [] => false end) s
  end.

(** A '*' in front of [ts]. *)
Fixpoint star (ts : list token) (s : list Z) : bool :=
  glob ts s || match s with x :: s => negb (barred x) && star ts s | [] => false end.

Lemma glob_star ts s : glob (Star :: ts) s = star ts s.
Proof. induction s as [|x s IH]; [done|]. cbn [star]. rewrite <- IH. done. Qed.

Fixpoint stars (ts : list token) : Z :=
  match ts with
  | [] => 0
  | Star :: ts => 1 + stars ts
  | _ :: ts => stars ts
  end.

Lemma stars_nonneg ts : 0 ≤ stars ts.
Proof. induction ts as [|[] ts IH]; cbn [stars]; lia. Qed.

End pattern.

(** * Reading the pattern *)

(** Before the end of the pattern there is another character. *)
Lemma more_pattern (c : Z) l : 0 ∈ c :: l → c ≠ 0 → ∃ x l', l = x :: l' ∧ 0 ∈ x :: l'.
Proof. intros H Hc. apply elem_of_cons in H as [H|H]; [by subst|]. destruct l as [|x l']; [by apply elem_of_nil in H|]. by exists x, l'. Qed.

Section brackets.
Context (flags : Z).
Local Notation o := (opts_of flags).

Lemma unquote_ok c l : 0 ∈ c :: l → unquote flags c l = Ok (quoted o c l) ∧ 0 ∈ (quoted o c l).1 :: (quoted o c l).2 ∧
  (length (quoted o c l).2 ≤ length l)%nat.
Proof.
  intros H0. unfold unquote, quoted. cbn [o_noescape opts_of]. destruct ((c =? 92) && _) eqn:E; [|done].
  apply andb_true_iff in E as [E _]. bool_prop. destruct (more_pattern c l H0) as (x & l' & -> & H); [lia|].
  change (drop 1 (x :: l')) with l'. cbn. split_and!; [done|done|lia].
Qed.

Lemma range_upper_ok l : 0 ∈ l → range_upper flags l = Ok (match range_end o l with
    | Some (c2, l') => if c2 =? EOS then Error else Upper (folded o c2) l'
    | None => Single end) ∧
  (∀ c2 l', range_end o l = Some (c2, l') → 0 ∈ c2 :: l' ∧ (length l' < length l)%nat).
Proof.
  intros H0. destruct l as [|x l]; [by apply elem_of_nil in H0|]. unfold range_upper, range_end, peek. cbn [next obind]. destruct (x =? 45) eqn:Ex; bool_prop.
  2:{ by destruct l. }
  destruct (more_pattern x l H0) as (c2 & l2 & -> & H2); [lia|]. cbn [drop next obind andb].
  destruct (negb (c2 =? EOS) && negb (c2 =? 93)); [|done]. destruct (unquote_ok c2 l2 H2) as (E & Hq & Hl). destruct (quoted o c2 l2) as [c3 l3].
  change (drop 0 l2) with l2. cbn in Hq, Hl. rewrite E. cbn. split; [by destruct (c3 =? EOS)|]. intros ? ? [= <- <-]. split; [done|lia].
Qed.

(** The loop reads the items of the bracket, whatever the character. *)
Lemma rangematch_loop_ok fuel x c l neg ok : 0 ∈ c :: l → (length l < fuel)%nat →
  rangematch_loop fuel flags (folded o x) c l neg ok =
    Ok (match bracket_items o fuel c l with
        | Items its rest => if eqb (ok || existsb (λ '(lo, hi), (lo <=? folded o x) && (folded o x <=? hi)) its) neg then RANGE_NOMATCH else RANGE_MATCH rest
        | Unclosed => RANGE_ERROR
        | Slash => RANGE_NOMATCH
        end) ∧
  (∀ its rest, bracket_items o fuel c l = Items its rest → 0 ∈ rest ∧ (length rest < length l)%nat).
Proof.
  revert c l ok. induction fuel as [|fuel IH]; intros c l ok H0 Hf; [lia|]. cbn [rangematch_loop bracket_items].
  destruct (unquote_ok c l H0) as (-> & Hq & Hql). destruct (quoted o c l) as [c1 l1]. cbn [fst snd] in Hq, Hql. cbn [obind].
  destruct (c1 =? EOS) eqn:Ec; bool_prop; [done|]. change (has_flag flags FNM_PATHNAME) with (o_pathname o). destruct ((c1 =? 47) && o_pathname o); [done|].
  destruct (more_pattern c1 l1 Hq) as (y & l2 & -> & H2); [done|]. destruct (range_upper_ok (y :: l2) H2) as (-> & Hre). cbn [obind].
  change (fold flags c1) with (folded o c1). destruct (range_end o (y :: l2)) as [[c2 l3]|] eqn:Er.
  - destruct (Hre c2 l3 eq_refl) as [H3 Hl3]. destruct (c2 =? EOS) eqn:E2; bool_prop; [done|].
    destruct (more_pattern c2 l3 H3) as (z & l4 & -> & H4); [done|]. cbn [next obind]. cbn in Hl3, Hql. destruct (z =? 93) eqn:Ez; bool_prop.
    + split; [cbn [existsb]; by rewrite orb_false_r|]. intros its rest [= <- <-].
      apply elem_of_cons in H4 as [H4|H4]; [lia|]. split; [done|lia].
    + destruct (IH z l4 (ok || (folded o c1 <=? folded o x) && (folded o x <=? folded o c2)) H4 ltac:(lia)) as [-> Hr].
      destruct (bracket_items o fuel z l4) as [its rest| |]; [|done..]. cbn [existsb]. rewrite orb_assoc. split; [done|].
      intros ? ? [= <- <-]. destruct (Hr its rest eq_refl). split; [done|lia].
  - rewrite (proj2 (Z.eqb_neq c1 EOS)) by done. cbn [next obind]. cbn in Hql.
    assert (Es : (folded o c1 =? folded o x) = (folded o c1 <=? folded o x) && (folded o x <=? folded o c1)).
    { apply eq_true_iff_eq. rewrite andb_true_iff, Z.eqb_eq, !Z.leb_le. lia. }
    rewrite Es. destruct (y =? 93) eqn:Ey; bool_prop.
    + split; [cbn [existsb]; by rewrite orb_false_r|]. intros its rest [= <- <-].
      apply elem_of_cons in H2 as [H2|H2]; [lia|]. split; [done|lia].
    + destruct (IH y l2 (ok || (folded o c1 <=? folded o x) && (folded o x <=? folded o c1)) H2 ltac:(lia)) as [-> Hr].
      destruct (bracket_items o fuel y l2) as [its rest| |]; [|done..]. cbn [existsb]. rewrite orb_assoc. split; [done|].
      intros ? ? [= <- <-]. destruct (Hr its rest eq_refl). split; [done|lia].
Qed.

Lemma rangematch_ok l x : 0 ∈ l →
  rangematch l x flags = Ok (match bracket_of o l with
    | Items its rest => if in_class o (negated l) its x then RANGE_MATCH rest else RANGE_NOMATCH
    | Unclosed => RANGE_ERROR
    | Slash => RANGE_NOMATCH end) ∧
  (∀ its rest, bracket_of o l = Items its rest → 0 ∈ rest ∧ (length rest < length l)%nat).
Proof.
  intros H0. destruct l as [|c l]; [by apply elem_of_nil in H0|]. unfold rangematch, bracket_of, in_class, peek. cbn [next obind negated].
  destruct ((c =? 33) || (c =? 94)) eqn:E.
  - assert (c ≠ 0) by (apply orb_true_iff in E as [E|E]; bool_prop; lia). destruct (more_pattern c l H0) as (y & l' & -> & H'); [done|]. cbn [drop next obind].
    change (fold flags x) with (folded o x). destruct (rangematch_loop_ok (S (length l')) x y l' true false H' ltac:(lia)) as [-> Hr]. cbn [orb].
    destruct (bracket_items o _ y l') as [its rest| |]; [|done..]. split; [by destruct (existsb _ its)|]. intros ? ? [= <- <-].
    destruct (Hr its rest eq_refl). split; [done|cbn; lia].
  - cbn [next obind]. change (fold flags x) with (folded o x). destruct (rangematch_loop_ok (S (length l)) x c l false false H0 ltac:(lia)) as [-> Hr]. cbn [orb].
    destruct (bracket_items o _ c l) as [its rest| |]; [|done..]. split; [by destruct (existsb _ its)|]. intros ? ? [= <- <-].
    destruct (Hr its rest eq_refl). split; [done|cbn; lia].
Qed.

End brackets.

(** What follows a bracket expression is a part of the pattern. *)
Lemma quoted_Forall o (P : Z → Prop) c l : Forall P l → Forall P (quoted o c l).2.
Proof. intros H. unfold quoted. destruct (_ && _); [by apply Forall_drop|done]. Qed.

Lemma bracket_Forall o (P : Z → Prop) fuel c l its rest : bracket_items o fuel c l = Items its rest → Forall P l → Forall P rest.
Proof.
  revert c l its. induction fuel as [|fuel IH]; intros c l its; cbn [bracket_items]; [done|]. intros H Hl.
  pose proof (quoted_Forall o P c l Hl) as Hq. destruct (quoted o c l) as [c1 l1]. cbn in Hq. destruct (c1 =? EOS); [done|]. destruct (_ && _); [done|].
  assert (Hnext : ∀ hi l2, Forall P l2 → (if hi =? EOS then Unclosed else match l2 with [] => Unclosed | x :: l =>
    if x =? 93 then Items [(folded o c1, folded o hi)] l else match bracket_items o fuel x l with Items its rest => Items ((folded o c1, folded o hi) :: its) rest | b => b end end) =
    Items its rest → Forall P rest).
  { intros hi [|x l2] Hl2; destruct (hi =? EOS); try done. inversion_clear Hl2 as [|? ? _ Hl3]. destruct (x =? 93); [by intros [= _ <-]|].
    destruct (bracket_items o fuel x l2) as [its' rest'| |] eqn:E; try done. intros [= _ <-]. by apply (IH _ _ _ E). }
  destruct (range_end o l1) as [[c2 l2]|] eqn:Er; [|by apply (Hnext c1 l1)]. apply (Hnext c2 l2); [|done].
  unfold range_end in Er. destruct l1 as [|x [|y l1]]; try done. destruct (_ && _); [|done]. injection Er as Er. inversion_clear Hq as [|? ? _ Hq']. inversion_clear Hq' as [|? ? _ Hq2].
  pose proof (quoted_Forall o P y l1 Hq2) as Hq3. by rewrite Er in Hq3.
Qed.

Lemma bracket_of_Forall o (P : Z → Prop) l its rest : bracket_of o l = Items its rest → Forall P l → Forall P rest.
Proof.
  unfold bracket_of. intros H Hl. assert (Hl' : Forall P (if negated l then drop 1 l else l)) by (destruct (negated l); [by apply Forall_drop|done]).
  destruct (if negated l then drop 1 l else l) as [|c l']; [done|]. inversion_clear Hl'. by eapply bracket_Forall.
Qed.

Lemma collapse_ok l : 0 ∈ l → 0 ∈ collapse l ∧ (length (collapse l) ≤ length l)%nat ∧ head (collapse l) ≠ Some 42.
Proof.
  induction l as [|c l IH]; intros H; [by apply elem_of_nil in H|]. cbn [collapse]. destruct (c =? 42) eqn:E; bool_prop.
  - apply elem_of_cons in H as [H|H]; [lia|]. destruct (IH H) as (? & ? & ?). split_and!; [done|cbn; lia|done].
  - split_and!; [done|lia|]. cbn. congruence.
Qed.

Lemma collapse_Forall (P : Z → Prop) l : Forall P l → Forall P (collapse l).
Proof. induction 1 as [|c l Hc Hl IH]; cbn [collapse]; [done|]. destruct (c =? 42); [done|by constructor]. Qed.

(** * Reading the string *)

Definition is_char (c : Z) : Prop := is_s 8 c.

Lemma char_range c : is_char c ↔ -128 ≤ c < 128.
Proof. done. Qed.

(** The text at index [s] is [cs], and then the string ends. *)
Definition text (str : list Z) (s : Z) (cs : list Z) : Prop :=
  0 ≤ s ∧ Forall (λ c, c ≠ 0 ∧ is_char c) cs ∧ ∃ tl, drop (Z.to_nat s) str = cs ++ 0 :: tl.

Lemma aget_drop {A} (l l' : list A) s x : 0 ≤ s → drop (Z.to_nat s) l = x :: l' → aget l s = Ok x ∧ drop (Z.to_nat (s + 1)) l = l'.
Proof.
  intros Hs Hd. split.
  - apply aget_Ok. split; [done|]. rewrite <- (Nat.add_0_r (Z.to_nat s)), <- lookup_drop. by rewrite Hd.
  - replace (Z.to_nat (s + 1)) with (Z.to_nat s + 1)%nat by lia. by rewrite <- drop_drop, Hd.
Qed.

Lemma text_nil str s : text str s [] → aget str s = Ok 0.
Proof. intros (Hs & _ & tl & Hd). by apply (aget_drop str tl). Qed.

Lemma text_cons str s x cs : text str s (x :: cs) → aget str s = Ok x ∧ text str (s + 1) cs ∧ x ≠ 0 ∧ is_char x.
Proof.
  intros (Hs & Hf & tl & Hd). destruct (aget_drop str (cs ++ 0 :: tl) s x Hs Hd) as [-> Hd']. inversion_clear Hf as [|? ? [] ?].
  split_and!; try done. split_and!; [lia|done|by exists tl].
Qed.

Lemma text_length str s cs : text str s cs → (length cs < length str)%nat ∧ s < Z.of_nat (length str).
Proof. intros (Hs & _ & tl & Hd). apply (f_equal length) in Hd. rewrite length_drop, length_app in Hd. cbn in Hd. lia. Qed.

Lemma tolower_zero c : is_char c → tolower c = tolower 0 → c = 0.
Proof.
  rewrite char_range. unfold tolower. intros Hc. change (u8 0) with 0. cbn [Z.leb Z.compare andb]. destruct (decide (0 ≤ c)).
  - rewrite unsigned_of_small by (unfold is_u; lia). repeat case_test; lia.
  - assert (E : u8 c = c + 256) by (unfold unsigned_of; rewrite <- (Z.mod_add c 1) by done; apply Z.mod_small; lia). rewrite E. repeat case_test; lia.
Qed.

Lemma tolower_slash c : is_char c → tolower 47 = tolower c → c = 47.
Proof.
  rewrite char_range. unfold tolower. intros Hc. change (u8 47) with 47. cbn [Z.leb Z.compare andb Pos.compare Pos.compare_cont]. destruct (decide (0 ≤ c)).
  - rewrite (unsigned_of_small 8 c) by (unfold is_u; lia). repeat case_test; lia.
  - assert (E : u8 c = c + 256) by (unfold unsigned_of; rewrite <- (Z.mod_add c 1) by done; apply Z.mod_small; lia). rewrite E. repeat case_test; lia.
Qed.

(** A literal does not match the end of the string. *)
Lemma lit_end flags c : is_char c → c ≠ 0 → same_char flags c 0 = false.
Proof.
  intros Hc H0. unfold same_char. rewrite (proj2 (Z.eqb_neq c 0)) by done. cbn [orb]. destruct (has_flag _ _); [|done]. cbn [andb].
  apply Z.eqb_neq. intros E. apply H0. by apply tolower_zero.
Qed.

Lemma slash_only o x : is_char x → char_matches o 47 x = true → x = 47.
Proof.
  intros Hx. unfold char_matches. intros [E|E]%orb_true_iff; bool_prop; [done|]. by apply tolower_slash.
Qed.

Lemma index_slash fuel str s cs : text str s cs → (length cs < fuel)%nat → ∃ r, index fuel str s 47 = Ok r ∧
  match r with
  | None => 47 ∉ cs
  | Some s' => ∃ u v, cs = u ++ 47 :: v ∧ 47 ∉ u ∧ text str s' (47 :: v) ∧ s ≤ s'
  end.
Proof.
  revert s cs. induction fuel as [|fuel IH]; intros s cs Ht Hf; [lia|]. cbn [index]. destruct cs as [|x cs].
  - rewrite (text_nil _ _ Ht). cbn. exists None. split; [done|]. apply not_elem_of_nil.
  - destruct (text_cons _ _ _ _ Ht) as (-> & Ht' & Hx & _). cbn [obind]. destruct (x =? 47) eqn:E; bool_prop.
    + subst. exists (Some s). split; [done|]. exists [], cs. split_and!; [done|apply not_elem_of_nil|done|lia].
    + rewrite (proj2 (Z.eqb_neq x 0)) by done. destruct (IH (s + 1) cs Ht') as (r & -> & Hr); [cbn in Hf; lia|]. exists r. split; [done|].
      destruct r as [s'|].
      * destruct Hr as (u & v & -> & Hu & Hs' & Hle). exists (x :: u), v. split_and!; [done| |done|lia]. rewrite not_elem_of_cons. split; [congruence|done].
      * rewrite not_elem_of_cons. split; [congruence|done].
Qed.

Lemma text_read str s cs : text str s cs → ∃ x, aget str s = Ok x ∧ (x = 0 → cs = []) ∧ (x ≠ 0 → ∃ cs', cs = x :: cs').
Proof.
  intros Ht. destruct cs as [|x cs].
  - exists 0. by rewrite (text_nil _ _ Ht).
  - destruct (text_cons _ _ _ _ Ht) as (-> & _ & Hx & _). exists x. split_and!; [done|done|by eexists].
Qed.

Lemma leading_period_ok str flags ss s cs : text str s cs → 0 ≤ ss ≤ s →
  ∃ b, leading_period str flags ss s = Ok b ∧ (has_flag flags FNM_PERIOD = false → b = false).
Proof.
  intros Ht Hs. destruct (text_read _ _ _ Ht) as (x & Hx & _). unfold leading_period. rewrite Hx. cbn [obind].
  destruct (has_flag flags FNM_PERIOD); [|rewrite andb_false_r; by eexists]. destruct (x =? 46); [|by eexists].
  cbn [andb]. destruct (s =? ss) eqn:E; bool_prop; [by eexists|]. destruct (has_flag _ _); [|by eexists].
  destruct (aget_in_bounds str (s - 1)) as (y & -> & _); [pose proof (text_length _ _ _ Ht); lia|]. by eexists.
Qed.

Lemma unmatchable_ok str flags ss s cs : text str s cs → 0 ≤ ss ≤ s →
  ∃ b, unmatchable str flags ss s = Ok b ∧
    (b = false → ∃ x cs', cs = x :: cs' ∧ barred (opts_of flags) x = false) ∧
    (b = true → has_flag flags FNM_PERIOD = false → cs = [] ∨ ∃ x cs', cs = x :: cs' ∧ barred (opts_of flags) x = true).
Proof.
  intros Ht Hs. destruct (text_read _ _ _ Ht) as (x & Hx & Hnil & Hcons). unfold unmatchable. rewrite Hx. cbn [obind].
  destruct (x =? EOS) eqn:E; bool_prop.
  - exists true. split_and!; [done|done|]. intros _ _. left. by apply Hnil.
  - destruct (Hcons E) as [cs' ->]. change ((x =? 47) && has_flag flags FNM_PATHNAME) with (barred (opts_of flags) x).
    destruct (barred (opts_of flags) x) eqn:B.
    + exists true. split_and!; [done|done|]. intros _ _. right. by eexists _, _.
    + destruct (leading_period_ok str flags ss s _ Ht Hs) as (b & -> & Hb). exists b. split_and!; [done|intros _; by eexists _, _|].
      intros -> HP. by specialize (Hb HP).
Qed.

(** * What a '*' in front of a pattern matches *)

Lemma star_nil_free o cs : o_pathname o = false ∨ o_leading_dir o = true → star o [] cs = true.
Proof.
  intros Ho. induction cs as [|x cs IH]; [done|]. cbn [star glob]. rewrite IH, andb_true_r. unfold barred.
  destruct Ho as [-> | ->]; destruct (x =? 47); try done; by rewrite ?andb_false_r, ?orb_true_r.
Qed.

Lemma star_nil_path o cs : o_pathname o = true → o_leading_dir o = false → star o [] cs = true ↔ 47 ∉ cs.
Proof.
  intros Hp Hl. induction cs as [|x cs IH]; cbn [star glob].
  - split; [intros _; apply not_elem_of_nil|done].
  - rewrite Hl. unfold barred. rewrite Hp, andb_true_r. cbn [andb orb]. rewrite not_elem_of_cons, andb_true_iff, IH, negb_true_iff, Z.eqb_neq. naive_solver.
Qed.

Lemma star_to_slash o ts u v : Forall is_char u → o_pathname o = true → 47 ∉ u → star o (Lit 47 :: ts) (u ++ 47 :: v) = glob o (Lit 47 :: ts) (47 :: v).
Proof.
  intros Hf Hp. induction Hf as [|x u Hx Hu IH]; intros Hn.
  - cbn [app star]. unfold barred. rewrite Hp. cbn [Z.eqb Pos.eqb andb negb]. apply orb_false_r.
  - apply not_elem_of_cons in Hn as [Hx' Hn]. cbn [app star]. rewrite IH by done. unfold barred. rewrite Hp, andb_true_r, (proj2 (Z.eqb_neq x 47)) by done.
    cbn [negb andb]. cbn [glob]. destruct (char_matches o 47 x) eqn:E; [|done]. by apply slash_only in E.
Qed.

Lemma star_no_slash o ts cs : Forall is_char cs → 47 ∉ cs → star o (Lit 47 :: ts) cs = false.
Proof.
  intros Hf. induction Hf as [|x u Hx Hu IH]; intros Hn; [done|]. apply not_elem_of_cons in Hn as [Hx' Hn]. cbn [star]. rewrite (IH Hn), andb_false_r, orb_false_r.
  cbn [glob]. destruct (char_matches o 47 x) eqn:E; [|done]. by apply slash_only in E.
Qed.

(** * The code *)

(** [r] is an answer, a match is one, and given [k] so is a mismatch. *)
Definition good (r : Z) (g : bool) (k : Prop) : Prop := (r = 0 ∨ r = FNM_NOMATCH) ∧ (r = 0 → g = true) ∧ (k → r = FNM_NOMATCH → g = false).

Lemma good_no g k : (k → g = false) → good FNM_NOMATCH g k.
Proof. intros H. split_and!; [by right|done|by intros Hk _; apply H]. Qed.

Lemma good_yes k : good 0 true k.
Proof. split_and!; [by left|done|done]. Qed.

Lemma good_weaken r g (k k' : Prop) : good r g k → (k' → k) → good r g k'.
Proof. intros (? & ? & ?) Hk. split_and!; auto. Qed.

Lemma star_loop_ok (call : Z → outcome Z) str flags (ts : list token) (k : Prop) fuel s cs :
  glob (opts_of flags) ts [] = false → text str s cs → (length cs < fuel)%nat →
  (∀ s' cs', text str s' cs' → s ≤ s' → ∃ r, call s' = Ok r ∧ good r (glob (opts_of flags) ts cs') k) →
  ∃ r, star_loop fuel call str flags s = Ok r ∧ good r (star (opts_of flags) ts cs) k.
Proof.
  intros Hnil. revert s cs. induction fuel as [|fuel IH]; intros s cs Ht Hf Hcall; [lia|]. cbn [star_loop]. destruct cs as [|x cs].
  - rewrite (text_nil _ _ Ht). exists FNM_NOMATCH. split; [done|]. apply good_no. intros _. cbn [star]. by rewrite Hnil.
  - destruct (Hcall s _ Ht) as (r & Hr & Hg); [lia|]. destruct (text_cons _ _ _ _ Ht) as (-> & Ht' & Hx & _). cbn [obind].
    rewrite (proj2 (Z.eqb_neq x EOS)) by done. rewrite Hr. cbn [obind star]. destruct Hg as (H01 & H0 & H1). destruct (r =? 0) eqn:E; bool_prop.
    + rewrite (H0 E). exists 0. split; [done|apply good_yes].
    + change ((x =? 47) && has_flag flags FNM_PATHNAME) with (barred (opts_of flags) x). destruct (barred (opts_of flags) x); cbn [negb andb].
      * exists FNM_NOMATCH. split; [done|]. apply good_no. intros Hk. rewrite H1; [done|done|by destruct H01].
      * destruct (IH (s + 1) cs Ht') as (r' & -> & H01' & H0' & H1'); [cbn in Hf; lia|intros; apply Hcall; [done|lia]|]. exists r'. split; [done|].
        split_and!; [done|intros E'; by rewrite H0', orb_true_r|]. intros Hk E'. rewrite (H1 Hk), (H1' Hk E'); [done|by destruct H01].
Qed.

Lemma opts_of_ldiff flags : opts_of (Z.ldiff flags FNM_PERIOD) = opts_of flags.
Proof. unfold opts_of. by rewrite !has_flag_ldiff. Qed.

(** When a mismatch is sure: a period is like any other character, and the stars do not nest too deep. *)
Definition sure (flags nesting : Z) (ts : list token) : Prop := has_flag flags FNM_PERIOD = false ∧ nesting + stars ts < MAXNEST.

(** The pattern ends, and the code has fuel for it. *)
Definition readable (fuel : nat) (pattern : list Z) : Prop := 0 ∈ pattern ∧ Forall is_char pattern ∧ (length pattern ≤ fuel)%nat.

(** With this fuel the loop decides every pattern. *)
Definition decides (fuel : nat) : Prop := ∀ str flags nesting ss pattern s cs,
  readable fuel pattern → text str s cs → 0 ≤ ss ≤ s → ∃ r, match_loop fuel str flags nesting ss pattern s = Ok r ∧
    good r (glob (opts_of flags) (parse (opts_of flags) fuel pattern) cs) (sure flags nesting (parse (opts_of flags) fuel pattern)).

Lemma parse_head o fuel c l : readable fuel (c :: l) → c ≠ 0 → c ≠ 42 → glob o (parse o fuel (c :: l)) [] = false.
Proof.
  intros (H0 & _ & Hf) Hc H42. destruct fuel as [|fuel]; [cbn in Hf; lia|]. cbn [parse]. rewrite (proj2 (Z.eqb_neq c EOS)), (proj2 (Z.eqb_neq c 42)) by done.
  destruct (c =? 63); [done|]. destruct (c =? 91); [by destruct (bracket_of o l)|]. destruct (_ && _); [|done].
  destruct (more_pattern c l H0) as (x & l' & -> & _); [done|]. by destruct (x =? EOS).
Qed.

Section cases.
Context (fuel : nat) (IH : decides fuel).
Context (str : list Z) (flags nesting ss s : Z) (cs : list Z) (Ht : text str s cs) (Hs : 0 ≤ ss ≤ s).
Local Notation o := (opts_of flags).
Local Notation go := (match_loop fuel str flags nesting ss).

(** One character is consumed and the rest of the pattern decides. *)
Lemma advance_ok x cs' pattern (t : token) : cs = x :: cs' → readable fuel pattern →
  (∀ ts, glob o (t :: ts) (x :: cs') = glob o ts cs') → (∀ ts, stars (t :: ts) = stars ts) →
  ∃ r, go pattern (s + 1) = Ok r ∧ good r (glob o (t :: parse o fuel pattern) cs) (sure flags nesting (t :: parse o fuel pattern)).
Proof.
  intros Hcs Hp Hg Hst. rewrite Hcs in Ht |- *. destruct (text_cons _ _ _ _ Ht) as (_ & Ht' & _). destruct (IH str flags nesting ss pattern (s + 1) cs' Hp Ht') as (r & Hr & H); [lia|].
  exists r. split; [done|]. unfold sure. by rewrite Hg, Hst.
Qed.

Lemma literal_ok c pattern : c ≠ 0 → is_char c → readable fuel pattern →
  ∃ r, (let* x := aget str s in if same_char flags c x then go pattern (s + 1) else Ok FNM_NOMATCH) = Ok r ∧
    good r (glob o (Lit c :: parse o fuel pattern) cs) (sure flags nesting (Lit c :: parse o fuel pattern)).
Proof.
  intros Hc Hcc Hp. destruct (text_read _ _ _ Ht) as (x & -> & Hnil & Hcons). cbn [obind]. destruct (decide (x = 0)) as [->|Hx].
  - rewrite (lit_end flags c Hcc Hc). exists FNM_NOMATCH. split; [done|]. apply good_no. by rewrite Hnil.
  - destruct (Hcons Hx) as [cs' Hcs]. change (same_char flags c x) with (char_matches o c x). destruct (char_matches o c x) eqn:E.
    + apply (advance_ok x cs'); [done|done| |done]. intros ts. cbn [glob]. by rewrite E.
    + exists FNM_NOMATCH. split; [done|]. apply good_no. intros _. rewrite Hcs. cbn [glob]. by rewrite E.
Qed.

(** What matches one character that is not barred. *)
Lemma guarded_ok (t : token) (ts : list token) (k : outcome Z) : (∀ x cs', barred o x = true → glob o (t :: ts) (x :: cs') = false) → glob o (t :: ts) [] = false →
  (∀ x cs', cs = x :: cs' → barred o x = false → ∃ r, k = Ok r ∧ good r (glob o (t :: ts) cs) (sure flags nesting (t :: ts))) →
  ∃ r, (let* u := unmatchable str flags ss s in if u : bool then Ok FNM_NOMATCH else k) = Ok r ∧ good r (glob o (t :: ts) cs) (sure flags nesting (t :: ts)).
Proof.
  intros Hbar Hnil Hk. destruct (unmatchable_ok str flags ss s cs Ht Hs) as (b & -> & Hf & Htr). cbn [obind]. destruct b.
  - exists FNM_NOMATCH. split; [done|]. apply good_no. intros [HP _]. destruct (Htr eq_refl HP) as [-> | (x & cs' & -> & B)]; [done|by apply Hbar].
  - destruct (Hf eq_refl) as (x & cs' & Hcs & B). by apply (Hk x cs').
Qed.

Lemma any_ok pattern : readable fuel pattern →
  ∃ r, (let* u := unmatchable str flags ss s in if u : bool then Ok FNM_NOMATCH else go pattern (s + 1)) = Ok r ∧
    good r (glob o (Any :: parse o fuel pattern) cs) (sure flags nesting (Any :: parse o fuel pattern)).
Proof.
  intros Hp. apply guarded_ok; [intros x cs' B; cbn [glob]; by rewrite B|done|]. intros x cs' Hcs B.
  apply (advance_ok x cs'); [done|done| |done]. intros ts. cbn [glob]. by rewrite B.
Qed.

Lemma class_ok pattern : readable fuel pattern →
  let ts := match bracket_of o pattern with
    | Items its rest => Class (negated pattern) its :: parse o fuel rest
    | Unclosed => Lit 91 :: parse o fuel pattern
    | Slash => [Never] end in
  ∃ r, (let* u := unmatchable str flags ss s in
    if u : bool then Ok FNM_NOMATCH
    else
      let* x := aget str s in
      let* r := rangematch pattern x flags in
      match r with
      | RANGE_ERROR => let* x := aget str s in if same_char flags 91 x then go pattern (s + 1) else Ok FNM_NOMATCH
      | RANGE_MATCH newp => go newp (s + 1)
      | RANGE_NOMATCH => Ok FNM_NOMATCH
      end) = Ok r ∧ good r (glob o ts cs) (sure flags nesting ts).
Proof.
  intros Hp. destruct Hp as (H0 & Hc & Hl). cbn zeta. pose proof (λ x, proj1 (rangematch_ok flags pattern x H0)) as Hr.
  pose proof (proj2 (rangematch_ok flags pattern 0 H0)) as Hrest. destruct (bracket_of o pattern) as [its rest| |] eqn:Eb.
  - apply guarded_ok; [intros x cs' B; cbn [glob]; by rewrite B|done|]. intros x cs' Hcs B. pose proof Ht as Ht'. rewrite Hcs in Ht'.
    destruct (text_cons _ _ _ _ Ht') as (-> & _). cbn [obind]. rewrite Hr. cbn [obind]. destruct (in_class o (negated pattern) its x) eqn:E.
    + destruct (Hrest its rest eq_refl) as [Hr0 Hrl]. apply (advance_ok x cs'); [done| | |done].
      * split_and!; [done|by eapply bracket_of_Forall|lia].
      * intros ts. cbn [glob]. by rewrite B, E.
    + exists FNM_NOMATCH. split; [done|]. apply good_no. intros _. rewrite Hcs. cbn [glob]. by rewrite B, E.
  - apply guarded_ok; [|done|].
    + intros x cs' [B _]%andb_true_iff. bool_prop. subst. cbn [glob]. unfold char_matches. cbn. by rewrite andb_false_r.
    + intros x cs' Hcs B. pose proof (literal_ok 91 pattern ltac:(done) ltac:(done) ltac:(by split_and!)) as Hlit.
      destruct (text_read _ _ _ Ht) as (y & Hy & _). rewrite Hy in Hlit |- *. cbn [obind] in Hlit |- *. rewrite Hr. exact Hlit.
  - apply guarded_ok; [done|done|]. intros x cs' Hcs B. destruct (text_read _ _ _ Ht) as (y & -> & _). cbn [obind]. rewrite Hr. cbn [obind].
    exists FNM_NOMATCH. split; [done|]. by apply good_no.
Qed.

Lemma star_end_ok : let r := if has_flag flags FNM_PATHNAME then
      if has_flag flags FNM_LEADING_DIR then Ok 0
      else let* r := index (S (length str)) str s 47 in Ok (match r with None => 0 | Some _ => FNM_NOMATCH end)
    else Ok 0 in
  ∃ r', r = Ok r' ∧ good r' (star o [] cs) (sure flags nesting [Star]).
Proof.
  cbn zeta. destruct (has_flag flags FNM_PATHNAME) eqn:Ep; [destruct (has_flag flags FNM_LEADING_DIR) eqn:El|].
  - exists 0. split; [done|]. rewrite (star_nil_free o) by by right. apply good_yes.
  - destruct (index_slash (S (length str)) str s cs Ht) as (r & -> & Hr); [pose proof (text_length _ _ _ Ht); lia|]. cbn [obind].
    pose proof (star_nil_path o cs Ep El) as Hstar. destruct r as [s'|].
    + exists FNM_NOMATCH. split; [done|]. apply good_no. intros _. apply not_true_iff_false. rewrite Hstar. destruct Hr as (u & v & -> & _).
      intros Hn. apply Hn, elem_of_app. right. by apply elem_of_cons; left.
    + exists 0. split; [done|]. rewrite (proj2 Hstar Hr). apply good_yes.
  - exists 0. split; [done|]. rewrite (star_nil_free o) by by left. apply good_yes.
Qed.

Lemma star_slash_ok pattern : has_flag flags FNM_PATHNAME = true → readable fuel (47 :: pattern) →
  let ts := parse o fuel (47 :: pattern) in
  ∃ r, (let* r := index (S (length str)) str s 47 in
    match r with None => Ok FNM_NOMATCH | Some s => go (47 :: pattern) s end) = Ok r ∧ good r (star o ts cs) (sure flags nesting (Star :: ts)).
Proof.
  intros Ep Hp. cbn zeta. assert (∃ ts, parse o fuel (47 :: pattern) = Lit 47 :: ts) as [ts Ets].
  { destruct Hp as (_ & _ & Hf). destruct fuel; [cbn in Hf; lia|]. by eexists. }
  pose proof Ht as (_ & Hcs & _). apply (Forall_impl _ is_char) in Hcs; [|by intros ? []].
  destruct (index_slash (S (length str)) str s cs Ht) as (r & -> & Hr); [pose proof (text_length _ _ _ Ht); lia|]. cbn [obind]. destruct r as [s'|].
  - destruct Hr as (u & v & E & Hu & Ht' & Hle). destruct (IH str flags nesting ss (47 :: pattern) s' (47 :: v) Hp Ht') as (r & -> & Hg); [lia|].
    exists r. split; [done|]. rewrite E, Ets in *. apply Forall_app in Hcs as [Hcu _]. rewrite star_to_slash by done. apply (good_weaken _ _ _ _ Hg).
    unfold sure. cbn [stars]. intuition lia.
  - exists FNM_NOMATCH. split; [done|]. apply good_no. intros _. rewrite Ets. by apply star_no_slash.
Qed.

Lemma star_call_ok c pattern : c ≠ 0 → c ≠ 42 → readable fuel (c :: pattern) →
  let ts := parse o fuel (c :: pattern) in
  ∃ r, star_loop (S (length str)) (λ s, if nesting + 1 =? MAXNEST then Ok FNM_NOMATCH
      else match_loop fuel str (Z.ldiff flags FNM_PERIOD) (nesting + 1) s (c :: pattern) s) str flags s = Ok r ∧
    good r (star o ts cs) (sure flags nesting (Star :: ts)).
Proof.
  intros Hc H42 Hp. cbn zeta. apply star_loop_ok; [by apply parse_head|done|pose proof (text_length _ _ _ Ht); lia|]. intros s' cs' Ht' Hle.
  destruct (nesting + 1 =? MAXNEST) eqn:E; bool_prop.
  - exists FNM_NOMATCH. split; [done|]. apply good_no. intros [_ H]. cbn [stars] in H. pose proof (stars_nonneg (parse o fuel (c :: pattern))). lia.
  - destruct (IH str (Z.ldiff flags FNM_PERIOD) (nesting + 1) s' (c :: pattern) s' cs' Hp Ht') as (r & -> & Hg); [lia|]. rewrite opts_of_ldiff in Hg.
    exists r. split; [done|]. apply (good_weaken _ _ _ _ Hg). unfold sure. cbn [stars]. rewrite has_flag_ldiff. intros [_ H]. split; [apply has_flag_0_r|lia].
Qed.

End cases.

Lemma readable_next fuel c pattern : readable (S fuel) (c :: pattern) → c ≠ 0 → readable fuel pattern ∧ is_char c.
Proof.
  intros (H0 & Hc & Hf) Hn. inversion_clear Hc as [|? ? Hcc Hcp]. apply elem_of_cons in H0 as [H0|H0]; [by subst|]. cbn in Hf. split; [|done]. split_and!; [done|done|lia].
Qed.

Lemma star_ok fuel str flags nesting ss s cs pattern : decides fuel → text str s cs → 0 ≤ ss ≤ s → readable fuel pattern →
  ∃ r, (let p := collapse pattern in
    let* c := peek p in
    let* u := leading_period str flags ss s in
    if u : bool then Ok FNM_NOMATCH
    else if c =? EOS then
      if has_flag flags FNM_PATHNAME then
        if has_flag flags FNM_LEADING_DIR then Ok 0
        else let* r := index (S (length str)) str s 47 in Ok (match r with None => 0 | Some _ => FNM_NOMATCH end)
      else Ok 0
    else if (c =? 47) && has_flag flags FNM_PATHNAME then
      let* r := index (S (length str)) str s 47 in
      match r with None => Ok FNM_NOMATCH | Some s => match_loop fuel str flags nesting ss p s end
    else
      star_loop (S (length str)) (λ s, if nesting + 1 =? MAXNEST then Ok FNM_NOMATCH
        else match_loop fuel str (Z.ldiff flags FNM_PERIOD) (nesting + 1) s p s) str flags s) = Ok r ∧
    good r (glob (opts_of flags) (Star :: parse (opts_of flags) fuel (collapse pattern)) cs) (sure flags nesting (Star :: parse (opts_of flags) fuel (collapse pattern))).
Proof.
  intros IH Ht Hs (H0 & Hc & Hl). cbn zeta. destruct (collapse_ok pattern H0) as (H0' & Hl' & H42). pose proof (collapse_Forall _ _ Hc) as Hc'.
  destruct (collapse pattern) as [|c p]; [by apply elem_of_nil in H0'|]. assert (Hp : readable fuel (c :: p)) by (split_and!; [done|done|lia]).
  unfold peek. cbn [next obind]. destruct (leading_period_ok str flags ss s cs Ht Hs) as (b & -> & Hb). cbn [obind]. rewrite glob_star. destruct b.
  { exists FNM_NOMATCH. split; [done|]. apply good_no. intros [HP _]. by specialize (Hb HP). }
  destruct (c =? EOS) eqn:Ec; bool_prop.
  - subst. destruct fuel; [cbn in Hl'; destruct Hp as (_ & _ & Hp); cbn in Hp; lia|]. cbn [parse Z.eqb EOS]. by eapply star_end_ok.
  - destruct ((c =? 47) && has_flag flags FNM_PATHNAME) eqn:E.
    + apply andb_true_iff in E as [E Ep]. bool_prop. subst c. by apply star_slash_ok.
    + eapply star_call_ok; try done. cbn in H42. congruence.
Qed.

(** Every round of the loop consumes a character of the pattern. *)
Lemma match_loop_ok fuel : decides fuel.
Proof.
  induction fuel as [|fuel IH]; intros str flags nesting ss pattern s cs Hp Ht Hs.
  { destruct Hp as (H0 & _ & Hl). destruct pattern; [by apply elem_of_nil in H0|cbn in Hl; lia]. }
  destruct pattern as [|c pattern]; [by destruct Hp as [H0%elem_of_nil _]|]. cbn [match_loop parse next obind]. destruct (c =? EOS) eqn:E0; bool_prop.
  { destruct (text_read _ _ _ Ht) as (x & -> & Hnil & Hcons). cbn [obind]. change (has_flag flags FNM_LEADING_DIR) with (o_leading_dir (opts_of flags)).
    unfold EOS. destruct (decide (x = 0)) as [->|Hx]; [rewrite (Hnil eq_refl), andb_false_r; exists 0; split; [done|apply good_yes]|].
    destruct (Hcons Hx) as [cs' ->]. cbn [glob]. destruct (_ && _); [exists 0; split; [done|apply good_yes]|].
    rewrite (proj2 (Z.eqb_neq x 0)) by done. exists FNM_NOMATCH. split; [done|by apply good_no]. }
  destruct (readable_next _ _ _ Hp E0) as [Hp' Hc]. destruct (c =? 63); [by apply any_ok|]. destruct (c =? 42); [by apply star_ok|].
  destruct (c =? 91) eqn:E91; bool_prop; [subst; by apply class_ok|]. change (negb (has_flag flags FNM_NOESCAPE)) with (negb (o_noescape (opts_of flags))).
  destruct ((c =? 92) && _) eqn:E92; [|by apply literal_ok]. destruct pattern as [|x pattern]; [by destruct Hp' as [H%elem_of_nil _]|]. cbn [next obind].
  destruct (x =? EOS) eqn:Ex; bool_prop; [by apply literal_ok|]. destruct Hp' as (Hx & Hcx & Hl). inversion_clear Hcx. apply elem_of_cons in Hx as [Hx|Hx]; [by subst|].
  cbn in Hl. apply literal_ok; try done. split_and!; [done|done|lia].
Qed.

(** A C string with what is behind it. *)
Definition c_string (str cs : list Z) : Prop := Forall (λ c, c ≠ 0 ∧ is_char c) cs ∧ ∃ tl, str = cs ++ 0 :: tl.

Lemma c_string_text str cs : c_string str cs → text str 0 cs.
Proof. intros [Hf [tl ->]]. split_and!; [done|done|by exists tl]. Qed.

(** The tokens of a pattern. *)
Definition meaning (flags : Z) (pattern : list Z) : list token := parse (opts_of flags) (length pattern) pattern.

(** C31: kfnmatch always returns 0 or FNM_NOMATCH, and reads neither string out of
    bounds.  When it returns 0, the string does match the pattern as
    [glob] reads it: without a bound on recursion and without a special place for
    periods.  Without FNM_PERIOD and with fewer than twenty stars it returns 0 exactly for the
    strings that match. *)
Theorem kfnmatch_correct pattern str cs flags : 0 ∈ pattern → Forall is_char pattern → c_string str cs →
  ∃ r, kfnmatch pattern str flags = Ok r ∧ (r = 0 ∨ r = FNM_NOMATCH) ∧
    (r = 0 → glob (opts_of flags) (meaning flags pattern) cs = true) ∧
    (has_flag flags FNM_PERIOD = false → stars (meaning flags pattern) < MAXNEST →
      (r = 0 ↔ glob (opts_of flags) (meaning flags pattern) cs = true)).
Proof.
  intros H0 Hc Hstr%c_string_text. unfold kfnmatch, _kfnmatch. cbn [Z.eqb MAXNEST].
  destruct (match_loop_ok (length pattern) str flags 0 0 pattern 0 cs) as (r & -> & H01 & Hyes & Hno); [by split_and!|done|done|].
  exists r. split_and!; [done|done|done|]. intros HP Hst. split; [done|]. intros Hg. destruct H01 as [H01|H01]; [done|].
  unfold meaning in Hg. by rewrite (Hno (conj HP Hst) H01) in Hg.
Qed.

(** "*.[ch]" and "a.c". *)
Lemma kfnmatch_correct_witness : ∃ r, kfnmatch [42; 46; 91; 99; 104; 93; 0] [97; 46; 99; 0] 0 = Ok r ∧ r = 0.
Proof.
  destruct (kfnmatch_correct [42; 46; 91; 99; 104; 93; 0] [97; 46; 99; 0] [97; 46; 99] 0) as (r & Hr & _ & _ & H).
  - apply list_elem_of_In. vm_compute. tauto.
  - by repeat constructor.
  - split; [by repeat constructor|by exists []].
  - exists r. split; [exact Hr|]. apply H; vm_compute; reflexivity.
Defined.

(** A leading period is special to '?', '*' and '[' after a slash as well, but a '*' hands its
    pattern on without FNM_PERIOD: "*b/*" matches "ab/.x", and "ab/*" does not. *)
Example kfnmatch_period :
  kfnmatch [42; 98; 47; 42; 0] [97; 98; 47; 46; 120; 0] (Z.lor FNM_PERIOD FNM_PATHNAME) = Ok 0 ∧
  kfnmatch [97; 98; 47; 42; 0] [97; 98; 47; 46; 120; 0] (Z.lor FNM_PERIOD FNM_PATHNAME) = Ok FNM_NOMATCH.
Proof. by vm_compute. Qed.

(** With twenty stars, each before a letter ("*a*b*c..."), a string that matches ("abc...") is refused. *)
Example kfnmatch_nested :
  let a n := map (Z.add 97) (seqZ 0 n) in
  let p n := concat (map (λ c, [42; c]) (a n)) ++ [0] in
  kfnmatch (p 19) (a 19 ++ [0]) 0 = Ok 0 ∧ kfnmatch (p 20) (a 20 ++ [0]) 0 = Ok FNM_NOMATCH ∧
  glob (opts_of 0) (meaning 0 (p 20)) (a 20) = true.
Proof. split_and!; [by vm_compute..|lazy; reflexivity]. Qed.

End FnmatchTheory.
