(* ===== verification/MsdosTime.v ===== *)
(** Time stamps of the MS-DOS file system: [unix2dostime] and [dos2unixtime]
    of sys/vfs/msdosfs/msdosfs_conv.c, with the variables that remember the
    last conversion.

    A u_long is 64 bits wide (x86_64).  The clock's configuration, which other
    parts of the kernel set, is a record. *)

From stdpp Require Import base list.
From S2P Require Import Prelude.

Module MsdosTime.

(** * Formats of the fields (direntry.h) *)

Definition DT_2SECONDS_MASK : Z := 0x1F.
Definition DT_2SECONDS_SHIFT : Z := 0.
Definition DT_MINUTES_MASK : Z := 0x7E0.
Definition DT_MINUTES_SHIFT : Z := 5.
Definition DT_HOURS_MASK : Z := 0xF800.
Definition DT_HOURS_SHIFT : Z := 11.
Definition DD_DAY_MASK : Z := 0x1F.
Definition DD_DAY_SHIFT : Z := 0.
Definition DD_MONTH_MASK : Z := 0x1E0.
Definition DD_MONTH_SHIFT : Z := 5.
Definition DD_YEAR_MASK : Z := 0xFE00.
Definition DD_YEAR_SHIFT : Z := 9.

(** Total number of days that have passed for each month. *)
Definition regyear : list Z := [31; 59; 90; 120; 151; 181; 212; 243; 273; 304; 334; 365].
Definition leapyear : list Z := [31; 60; 91; 121; 152; 182; 213; 244; 274; 305; 335; 366].

Definition SECONDSTO1980 : Z := (8 * 365 + 2 * 366) * (24 * 60 * 60).

(** [year & 0x03 ? regyear : leapyear]. *)
Definition months_of (year : Z) : list Z := if negb (Z.land year 0x03 =? 0) then regyear else leapyear.

(** * State *)

(** [tz.tz_minuteswest], [wall_cmos_clock], [adjkerntz]. *)
Record clock := Clock {
  tz_minuteswest : Z;
  wall_cmos_clock : bool;
  adjkerntz : Z
}.

Record timespec := Timespec {
  tv_sec : Z;
  tv_nsec : Z
}.

(** The variables of the last conversions, one record per direction. *)
Record unix_cache := UnixCache {
  lasttime : Z;
  lastday : Z;
  lastddate : Z;
  lastdtime : Z
}.

Record dos_cache := DosCache {
  lastdosdate : Z;
  lastseconds : Z
}.

(** Their values when the kernel starts. *)
Definition unix_cache0 : unix_cache := UnixCache 0 0 0 0.
Definition dos_cache0 : dos_cache := DosCache 0 0.

(** * From unix to DOS *)

(** The loop on the years: the year, and the days that are left in it. *)
Fixpoint year_loop (fuel : nat) (year days : Z) : outcome (Z * Z) :=
  match fuel with
  | O => NoFuel
  | S fuel =>
      let inc := if negb (Z.land year 0x03 =? 0) then 365 else 366 in
      if days <? inc then Ok (year, days) else year_loop fuel (year + 1) (days - inc)
  end.

(** The loop on the months. *)
Fixpoint month_loop (fuel : nat) (months : list Z) (month days : Z) : outcome Z :=
  match fuel with
  | O => NoFuel
  | S fuel =>
      let* m := aget months month in
      if days >=? m then month_loop fuel months (month + 1) days else Ok month
  end.

Definition ddate_of_days (days : Z) : outcome Z :=
  let* (year, days) := year_loop (S (Z.to_nat (days / 365))) 1970 days in
  let months := months_of year in
  let* month := month_loop 13 months 0 days in
  let* days :=
    if month >? 0 then let* m := aget months (month - 1) in Ok (u64 (days - m)) else Ok days in
  let lastddate := u16 (Z.shiftl (days + 1) DD_DAY_SHIFT + Z.shiftl (month + 1) DD_MONTH_SHIFT) in
  Ok (if year >? 1980 then u16 (lastddate + Z.shiftl (year - 1980) DD_YEAR_SHIFT) else lastddate).

Definition dtime_of (t : Z) : Z :=
  u16 (Z.shiftl ((t / 2) mod 30) DT_2SECONDS_SHIFT + Z.shiftl ((t / 60) mod 60) DT_MINUTES_SHIFT
       + Z.shiftl ((t / 3600) mod 24) DT_HOURS_SHIFT).

(** The caches afterwards, and what is stored through [ddp], [dtp] and [dhp]
    (when these two are not null). *)
Definition unix2dostime (ck : clock) (c : unix_cache) (tsp : timespec) (dtp dhp : bool)
    : outcome (unix_cache * (Z * option Z * option Z)) :=
  let t := u64 (tv_sec tsp - tz_minuteswest ck * 60 - (if wall_cmos_clock ck then adjkerntz ck else 0)) in
  let t := Z.land t (u64 (Z.lnot 1)) in
  let* c :=
    if negb (lasttime c =? t) then
      let days := t / (24 * 60 * 60) in
      if negb (days =? lastday c) then
        let* dd := ddate_of_days days in
        Ok (UnixCache t days dd (dtime_of t))
      else Ok (UnixCache t (lastday c) (lastddate c) (dtime_of t))
    else Ok c in
  let dh := u8 (Z.land (tv_sec tsp) 1 * 100 + Z.quot (tv_nsec tsp) 10000000) in
  Ok (c, (lastddate c, if dtp then Some (lastdtime c) else None, if dhp then Some dh else None)).

(** * From DOS to unix *)

Definition seconds_of_date (dd : Z) : outcome Z :=
  let year := Z.shiftr (Z.land dd DD_YEAR_MASK) DD_YEAR_SHIFT in
  let days := u64 (year * 365) in
  let days := u64 (days + (year / 4 + 1)) in
  let days := if Z.land year 0x03 =? 0 then u64 (days - 1) else days in
  let months := months_of year in
  let month := Z.shiftr (Z.land dd DD_MONTH_MASK) DD_MONTH_SHIFT in
  let month := if (month <? 1) || (month >? 12) then 1 else month in
  let* days := if month >? 1 then let* m := aget months (month - 2) in Ok (u64 (days + m)) else Ok days in
  let days := u64 (days + u32 (Z.shiftr (Z.land dd DD_DAY_MASK) DD_DAY_SHIFT - 1)) in
  Ok (u64 (days * 24 * 60 * 60 + SECONDSTO1980)).

Definition dos2unixtime (ck : clock) (c : dos_cache) (dd dt dh : Z) : outcome (dos_cache * timespec) :=
  if dd =? 0 then Ok (c, Timespec 0 0)
  else
    let seconds :=
      Z.shiftl (Z.shiftr (Z.land dt DT_2SECONDS_MASK) DT_2SECONDS_SHIFT) 1
      + Z.shiftr (Z.land dt DT_MINUTES_MASK) DT_MINUTES_SHIFT * 60
      + Z.shiftr (Z.land dt DT_HOURS_MASK) DT_HOURS_SHIFT * 3600 + dh / 100 in
    let* c :=
      if negb (lastdosdate c =? dd) then
        let* s := seconds_of_date dd in Ok (DosCache (u16 dd) s)
      else Ok c in
    let sec := s64 (seconds + lastseconds c + tz_minuteswest ck * 60 + adjkerntz ck) in
    Ok (c, Timespec sec (dh mod 100 * 10000000)).

End MsdosTime.
