(* ===== verification/MsdosTimeTheory.v ===== *)
(** Time stamps of the MS-DOS file system: the two conversions are inverse to
    each other on the times that the format can hold, whatever conversions
    their static variables remember. *)

From stdpp Require Import base list.
From S2P Require Import Prelude MsdosTime.

Module MsdosTimeTheory.
Import MsdosTime.

#[local] Opaque signed_of unsigned_of.

(** Division by constants, as equations for [lia]. *)
Ltac divs := Z.div_mod_to_equations; lia.

(** ** Fields of a word *)

Lemma field x lo w : 0 ≤ lo → 0 ≤ w →
  Z.shiftr (Z.land x (Z.shiftl (Z.ones w) lo)) lo = (x / 2 ^ lo) mod 2 ^ w.
Proof.
  intros Hl Hw. rewrite Z.shiftr_land, Z.shiftr_shiftl_l by lia. rewrite Z.sub_diag, Z.shiftl_0_r.
  by rewrite Z.land_ones, Z.shiftr_div_pow2 by lia.
Qed.

Lemma day_field dd : Z.shiftr (Z.land dd DD_DAY_MASK) DD_DAY_SHIFT = dd mod 32.
Proof. etransitivity; [exact (field dd 0 5 ltac:(lia) ltac:(lia))|]. change (2 ^ 0) with 1. by rewrite Z.div_1_r. Qed.
Lemma month_field dd : Z.shiftr (Z.land dd DD_MONTH_MASK) DD_MONTH_SHIFT = (dd / 32) mod 16.
Proof. exact (field dd 5 4 ltac:(lia) ltac:(lia)). Qed.
Lemma year_field dd : Z.shiftr (Z.land dd DD_YEAR_MASK) DD_YEAR_SHIFT = (dd / 512) mod 128.
Proof. exact (field dd 9 7 ltac:(lia) ltac:(lia)). Qed.
Lemma sec_field dt : Z.shiftr (Z.land dt DT_2SECONDS_MASK) DT_2SECONDS_SHIFT = dt mod 32.
Proof. exact (day_field dt). Qed.
Lemma min_field dt : Z.shiftr (Z.land dt DT_MINUTES_MASK) DT_MINUTES_SHIFT = (dt / 32) mod 64.
Proof. exact (field dt 5 6 ltac:(lia) ltac:(lia)). Qed.
Lemma hour_field dt : Z.shiftr (Z.land dt DT_HOURS_MASK) DT_HOURS_SHIFT = (dt / 2048) mod 32.
Proof. exact (field dt 11 5 ltac:(lia) ltac:(lia)). Qed.

Lemma land_3 y : Z.land y 0x03 = y mod 4.
Proof. exact (Z.land_ones y 2 ltac:(lia)). Qed.

(** ** The calendar *)

(** Days from 1970 to the start of a year, and the length of a year: every
    fourth year is a leap year. *)
Definition dbefore (y : Z) : Z := 365 * (y - 1970) + (y - 1969) / 4.
Definition ylen (y : Z) : Z := if y mod 4 =? 0 then 366 else 365.

(** The days of a year before its month [m], counted from 0. *)
Definition mstart (months : list Z) (m : Z) : Z := if m =? 0 then 0 else months !!! Z.to_nat (m - 1).

Lemma dbefore_succ y : dbefore (y + 1) = dbefore y + ylen y.
Proof. unfold dbefore, ylen. case_test; bool_prop; divs. Qed.

Lemma dbefore_mono x y : x ≤ y → dbefore x ≤ dbefore y.
Proof. intros. unfold dbefore. divs. Qed.

Lemma dbefore_inj x r y s : dbefore x + r = dbefore y + s → 0 ≤ r < ylen x → 0 ≤ s < ylen y → x = y ∧ r = s.
Proof.
  intros E Hr Hs. destruct (Z.lt_trichotomy x y) as [H|[->|H]]; [|split; [done|lia]|].
  - pose proof (dbefore_mono (x + 1) y). rewrite dbefore_succ in *. lia.
  - pose proof (dbefore_mono (y + 1) x). rewrite dbefore_succ in *. lia.
Qed.

Lemma months_of_cases y : months_of y = if y mod 4 =? 0 then leapyear else regyear.
Proof. unfold months_of. rewrite land_3. by destruct (y mod 4 =? 0). Qed.

Lemma months_length y : length (months_of y) = 12%nat.
Proof. rewrite months_of_cases. by case_test. Qed.

Lemma months_last y : mstart (months_of y) 12 = ylen y.
Proof. rewrite months_of_cases. unfold ylen. by case_test. Qed.

(** The month, 0 to 11, is one of twelve numbers. *)
Lemma month_cases m : 0 ≤ m < 12 →
  m = 0 ∨ m = 1 ∨ m = 2 ∨ m = 3 ∨ m = 4 ∨ m = 5 ∨ m = 6 ∨ m = 7 ∨ m = 8 ∨ m = 9 ∨ m = 10 ∨ m = 11.
Proof. lia. Qed.

Lemma mstart_range y m : 0 ≤ m < 12 → 0 ≤ mstart (months_of y) m < mstart (months_of y) (m + 1) ∧
  mstart (months_of y) (m + 1) ≤ mstart (months_of y) m + 31 ∧ mstart (months_of y) (m + 1) ≤ 366.
Proof.
  intros Hm. rewrite months_of_cases.
  destruct (month_cases m Hm) as [->|[->|[->|[->|[->|[->|[->|[->|[->|[->|[->| ->]]]]]]]]]]]; case_test; by_decide.
Qed.

Lemma mstart_mono y m n : 0 ≤ m → m ≤ n → n ≤ 12 → mstart (months_of y) m ≤ mstart (months_of y) n.
Proof.
  intros Hm Hmn Hn. revert Hn. pattern n. apply Zlt_lower_bound_ind with m; [|done]. clear n Hmn.
  intros n IH Hmn Hn. destruct (decide (m = n)) as [->|]; [done|].
  pose proof (IH (n - 1) ltac:(lia) ltac:(lia)). pose proof (mstart_range y (n - 1) ltac:(lia)) as Hr.
  replace (n - 1 + 1) with n in Hr by lia. lia.
Qed.

(** A date: a year, a month from 1 to 12, a day from 1. *)
Record date_ok (y m d : Z) : Prop := {
  date_y : 1980 ≤ y < 2108;
  date_m : 1 ≤ m ≤ 12;
  date_d : 1 ≤ d ≤ mstart (months_of y) m - mstart (months_of y) (m - 1)
}.

(** Its number of days since 1970, and its code. *)
Definition dnum (y m d : Z) : Z := dbefore y + mstart (months_of y) (m - 1) + (d - 1).
Definition dd_of (y m d : Z) : Z := d + 32 * m + 512 * (y - 1980).

Lemma date_in_year y m d : date_ok y m d → 0 ≤ mstart (months_of y) (m - 1) + (d - 1) < ylen y ∧ d ≤ 31.
Proof.
  intros [Hy Hm Hd]. pose proof (mstart_range y (m - 1) ltac:(lia)) as Hr. replace (m - 1 + 1) with m in Hr by lia.
  pose proof (mstart_mono y m 12 ltac:(lia) ltac:(lia) ltac:(lia)). rewrite months_last in *. lia.
Qed.

Lemma dnum_inj y m d y' m' d' : date_ok y m d → date_ok y' m' d' → dnum y m d = dnum y' m' d' → y = y' ∧ m = m' ∧ d = d'.
Proof.
  intros H H' E. unfold dnum in E. rewrite <- !Z.add_assoc in E.
  destruct (date_in_year _ _ _ H) as [Hr _], (date_in_year _ _ _ H') as [Hr' _].
  destruct (dbefore_inj _ _ _ _ E Hr Hr') as [<- Es]. destruct H as [Hy Hm Hd], H' as [Hy' Hm' Hd'].
  split; [done|]. destruct (Z.lt_trichotomy m m') as [Hlt|[->|Hlt]]; [|split; [done|lia]|].
  - pose proof (mstart_mono y m (m' - 1)). lia.
  - pose proof (mstart_mono y m' (m - 1)). lia.
Qed.

(** ** The loops *)

Lemma year_loop_spec fuel : ∀ y days, 0 ≤ days < 365 * Z.of_nat fuel →
  ∃ y' r, year_loop fuel y days = Ok (y', r) ∧ y ≤ y' ∧ 0 ≤ r < ylen y' ∧ dbefore y + days = dbefore y' + r.
Proof.
  induction fuel as [|fuel IH]; intros y days Hd; [lia|]. cbn [year_loop]. rewrite land_3.
  assert (Hinc : (if negb (y mod 4 =? 0) then 365 else 366) = ylen y) by (unfold ylen; by destruct (y mod 4 =? 0)).
  rewrite Hinc. assert (365 ≤ ylen y) by (unfold ylen; case_test; lia). case_test; bool_prop.
  - exists y, days. split; [done|]. lia.
  - destruct (IH (y + 1) (days - ylen y)) as (y' & r & E1 & Hy & Hr & E2); [lia|].
    exists y', r. split; [done|]. rewrite dbefore_succ in E2. lia.
Qed.

Lemma month_loop_spec y days : 0 ≤ days < ylen y → ∀ fuel month,
  month + Z.of_nat fuel = 13 → 0 ≤ month < 12 → mstart (months_of y) month ≤ days →
  ∃ m, month_loop fuel (months_of y) month days = Ok m ∧ 0 ≤ m < 12 ∧
    mstart (months_of y) m ≤ days < mstart (months_of y) (m + 1).
Proof.
  intros Hd. induction fuel as [|fuel IH]; intros month Hf Hm Hs; [lia|]. cbn [month_loop].
  pose proof (months_length y) as Hl. destruct (lookup_lt_is_Some_2 (months_of y) (Z.to_nat month)) as [x Hx]; [lia|].
  assert (aget (months_of y) month = Ok x) as -> by (apply aget_Ok; split; [lia|done]). cbn [obind].
  assert (Ex : mstart (months_of y) (month + 1) = x).
  { unfold mstart. destruct (month + 1 =? 0) eqn:E0; bool_prop; [lia|]. replace (month + 1 - 1) with month by lia.
    by apply list_lookup_total_correct. }
  case_test; bool_prop.
  - apply IH; [lia| |lia]. split; [lia|]. destruct (decide (month = 11)) as [->|]; [|lia].
    change (11 + 1) with 12 in Ex. rewrite months_last in Ex. lia.
  - exists month. split; [done|]. lia.
Qed.

Lemma aget_months y m : 1 ≤ m ≤ 12 → aget (months_of y) (m - 1) = Ok (mstart (months_of y) m).
Proof.
  intros Hm. pose proof (months_length y). destruct (lookup_lt_is_Some_2 (months_of y) (Z.to_nat (m - 1))) as [x Hx]; [lia|].
  assert (aget (months_of y) (m - 1) = Ok x) as -> by (apply aget_Ok; split; [lia|done]).
  unfold mstart. destruct (m =? 0) eqn:E0; bool_prop; [lia|]. by rewrite (list_lookup_total_correct _ _ _ Hx).
Qed.


(** ** Dates *)

Lemma u16_small x : 0 ≤ x < 65536 → u16 x = x.
Proof. intros. apply unsigned_of_small. by rewrite is_u16_iff. Qed.

Lemma u64_small x : 0 ≤ x < 2 ^ 64 → u64 x = x.
Proof. intros. by apply unsigned_of_small. Qed.

(** The date word of any day since 1970. *)
Lemma ddate_total days : 0 ≤ days → ∃ y m r,
  0 ≤ m < 12 ∧ mstart (months_of y) m ≤ r < mstart (months_of y) (m + 1) ∧ 1970 ≤ y ∧ r < ylen y ∧
  days = dbefore y + r ∧
  ddate_of_days days = Ok (let d := u16 (r - mstart (months_of y) m + 1 + (m + 1) * 32) in
    if y >? 1980 then u16 (d + (y - 1980) * 512) else d).
Proof.
  intros Hd. unfold ddate_of_days. destruct (year_loop_spec (S (Z.to_nat (days / 365))) 1970 days) as (y & r & -> & Hy & Hr & E).
  { rewrite Nat2Z.inj_succ. pose proof (Z.div_pos days 365). rewrite Z2Nat.id by lia. divs. }
  change (dbefore 1970) with 0 in E. cbn [obind].
  destruct (month_loop_spec y r Hr 13 0) as (m & -> & Hm & Hs); [done|done|change (0 ≤ r); lia|]. cbn [obind].
  exists y, m, r. split; [done|]. split; [done|]. split; [done|]. split; [lia|]. split; [lia|].
  pose proof (mstart_range y m Hm) as Hb. unfold DD_DAY_SHIFT, DD_MONTH_SHIFT, DD_YEAR_SHIFT.
  assert (E2 : (if m >? 0 then let* m0 := aget (months_of y) (m - 1) in Ok (u64 (r - m0)) else Ok r) =
    Ok (r - mstart (months_of y) m)).
  { case_test; bool_prop; [|replace m with 0 by lia; by rewrite Z.sub_0_r].
    rewrite aget_months by lia. cbn [obind]. rewrite u64_small; [done|]. change (2 ^ 64) with 18446744073709551616. lia. }
  rewrite E2. cbn [obind]. rewrite !Z.shiftl_mul_pow2 by lia. change (2 ^ 0) with 1. change (2 ^ 5) with 32. change (2 ^ 9) with 512.
  by rewrite Z.mul_1_r.
Qed.

Lemma ddate_spec days : dbefore 1980 ≤ days < dbefore 2108 →
  ∃ y m d, date_ok y m d ∧ dnum y m d = days ∧ ddate_of_days days = Ok (dd_of y m d).
Proof.
  intros Hd. change (dbefore 1980) with 3652 in Hd. destruct (ddate_total days) as (y & m & r & Hm & Hr & Hy & Hyl & E & ->); [lia|].
  pose proof (mstart_range y m Hm) as Hb.
  assert (Hy' : 1980 ≤ y < 2108).
  { split.
    - destruct (decide (1980 ≤ y)); [done|]. pose proof (dbefore_mono (y + 1) 1980). rewrite dbefore_succ in *.
      change (dbefore 1980) with 3652 in *. lia.
    - destruct (decide (y < 2108)); [done|]. pose proof (dbefore_mono 2108 y). lia. }
  exists y, (m + 1), (r - mstart (months_of y) m + 1). split.
  { split; [done|lia|]. replace (m + 1 - 1) with m by lia. lia. }
  split; [unfold dnum; replace (m + 1 - 1) with m by lia; lia|]. f_equal. unfold dd_of. cbv zeta.
  rewrite (u16_small (r - _ + 1 + _)) by lia. case_test; bool_prop; [rewrite u16_small by lia|]; lia.
Qed.

Lemma ddate_of_date y m d : date_ok y m d → ddate_of_days (dnum y m d) = Ok (dd_of y m d).
Proof.
  intros H. destruct (date_in_year _ _ _ H) as [Hr _]. destruct (ddate_spec (dnum y m d)) as (y' & m' & d' & H' & E & ->).
  - unfold dnum. destruct H as [Hy _ _]. pose proof (dbefore_mono 1980 y). pose proof (dbefore_mono (y + 1) 2108).
    rewrite (dbefore_succ y) in *. lia.
  - by destruct (dnum_inj _ _ _ _ _ _ H' H E) as (-> & -> & ->).
Qed.

(** The fields of a date word. *)
Lemma dd_fields y m d : date_ok y m d →
  let dd := dd_of y m d in
  (dd / 512) mod 128 = y - 1980 ∧ (dd / 32) mod 16 = m ∧ dd mod 32 = d ∧ 0 < dd < 65536.
Proof.
  intros H. destruct (date_in_year _ _ _ H) as [_ Hd31]. destruct H as [Hy Hm Hd]. unfold dd_of. cbv zeta. split_and!.
  - replace ((d + 32 * m + 512 * (y - 1980)) / 512) with (y - 1980) by divs. apply Z.mod_small. lia.
  - replace ((d + 32 * m + 512 * (y - 1980)) / 32) with (m + (y - 1980) * 16) by divs.
    rewrite Z.mod_add by lia. apply Z.mod_small. lia.
  - divs.
  - lia.
  - lia.
Qed.

Lemma seconds_of_dd y m d : date_ok y m d → seconds_of_date (dd_of y m d) = Ok (86400 * dnum y m d).
Proof.
  intros H. destruct (dd_fields _ _ _ H) as (Ey & Em & Ed & _). destruct (date_in_year _ _ _ H) as [Hr Hd31].
  unfold seconds_of_date. rewrite year_field, month_field, day_field, Ey, Em, Ed, land_3.
  destruct H as [Hy Hm Hd]. pose proof (mstart_range y (m - 1) ltac:(lia)) as Hb. replace (m - 1 + 1) with m in Hb by lia.
  change (2 ^ 64) with 18446744073709551616 in *.
  assert (Hmonths : months_of (y - 1980) = months_of y).
  { rewrite !months_of_cases. replace ((y - 1980) mod 4) with (y mod 4) by divs. done. }
  rewrite Hmonths, !(u64_small ((y - 1980) * 365)), (u64_small (_ * 365 + _)) by (change (2 ^ 64) with 18446744073709551616; divs).
  set (days := if (y - 1980) mod 4 =? 0 then _ else _).
  assert (Edays : days = dbefore y - 3652).
  { unfold days, dbefore. case_test; bool_prop; [rewrite u64_small by (change (2 ^ 64) with 18446744073709551616; divs)|]; divs. }
  rewrite Edays. assert (Hdb : 3652 ≤ dbefore y ≤ 60000) by (unfold dbefore; divs).
  replace ((m <? 1) || (m >? 12)) with false by (symmetry; apply orb_false_iff; split; [apply Z.ltb_ge|rewrite Z.gtb_ltb; apply Z.ltb_ge]; lia).
  assert (E2 : (if m >? 1 then let* m0 := aget (months_of y) (m - 2) in Ok (u64 (dbefore y - 3652 + m0)) else Ok (dbefore y - 3652)) =
    Ok (dbefore y - 3652 + mstart (months_of y) (m - 1))).
  { case_test; bool_prop; [|replace (m - 1) with 0 by lia; f_equal; cbn; lia].
    replace (m - 2) with (m - 1 - 1) by lia. rewrite aget_months by lia. cbn [obind].
    rewrite u64_small; [done|]. change (2 ^ 64) with 18446744073709551616. lia. }
  rewrite E2. cbn [obind]. rewrite (unsigned_of_small 32) by (rewrite is_u32_iff; lia).
  unfold SECONDSTO1980, dnum. rewrite !u64_small by (rewrite ?u64_small; change (2 ^ 64) with 18446744073709551616; lia).
  f_equal. lia.
Qed.


(** ** Times of the day *)

Definition dt_of (s2 mi h : Z) : Z := s2 + 32 * mi + 2048 * h.

Record clocktime_ok (s2 mi h : Z) : Prop := {
  ct_s : 0 ≤ s2 < 30;
  ct_m : 0 ≤ mi < 60;
  ct_h : 0 ≤ h < 24
}.

Lemma dtime_of_clock days s2 mi h : clocktime_ok s2 mi h →
  dtime_of (86400 * days + 3600 * h + 60 * mi + 2 * s2) = dt_of s2 mi h.
Proof.
  intros [Hs Hm Hh]. unfold dtime_of, dt_of, DT_2SECONDS_SHIFT, DT_MINUTES_SHIFT, DT_HOURS_SHIFT.
  rewrite !Z.shiftl_mul_pow2 by lia. change (2 ^ 0) with 1. change (2 ^ 5) with 32. change (2 ^ 11) with 2048.
  set (t := 86400 * days + 3600 * h + 60 * mi + 2 * s2).
  assert (E1 : t / 2 = s2 + (43200 * days + 1800 * h + 30 * mi)) by (unfold t; divs).
  assert (E2 : t / 60 = mi + (24 * days + h) * 60) by (unfold t; divs).
  assert (E3 : t / 3600 = h + days * 24) by (unfold t; divs).
  rewrite E1, E2, E3. replace (43200 * days + 1800 * h + 30 * mi) with ((1440 * days + 60 * h + mi) * 30) by lia.
  rewrite !Z.mod_add, !Z.mod_small by lia. rewrite u16_small by lia. lia.
Qed.

(** Every even time is a time of a day. *)
Lemma clock_of_time t : 0 ≤ t → t mod 2 = 0 → ∃ s2 mi h, clocktime_ok s2 mi h ∧
  t = 86400 * (t / 86400) + 3600 * h + 60 * mi + 2 * s2.
Proof.
  intros Ht He. set (r := t mod 86400). exists (r mod 60 / 2), (r mod 3600 / 60), (r / 3600).
  assert (0 ≤ r < 86400) by (apply Z.mod_pos_bound; lia). assert (Hr : t = 86400 * (t / 86400) + r) by (apply Z.div_mod; lia).
  assert (He' : r mod 2 = 0) by (clearbody r; divs). split; [split; divs|]. clearbody r. divs.
Qed.

Lemma dt_fields s2 mi h : clocktime_ok s2 mi h →
  let dt := dt_of s2 mi h in dt mod 32 = s2 ∧ (dt / 32) mod 64 = mi ∧ (dt / 2048) mod 32 = h.
Proof. intros [Hs Hm Hh]. unfold dt_of. cbv zeta. split_and!; divs. Qed.

(** ** The remembered conversions *)

Record unix_ok (c : unix_cache) : Prop := {
  unix_time : 0 ≤ lasttime c;
  unix_day : lastday c = lasttime c / 86400;
  unix_dtime : lastdtime c = dtime_of (lasttime c);
  unix_ddate : lastday c = 0 ∨ ddate_of_days (lastday c) = Ok (lastddate c)
}.

Definition dos_ok (c : dos_cache) : Prop := lastdosdate c = 0 ∨ seconds_of_date (lastdosdate c) = Ok (lastseconds c).

Lemma unix_ok0 : unix_ok unix_cache0.
Proof. split; [done|done|done|by left]. Qed.

Lemma dos_ok0 : dos_ok dos_cache0.
Proof. by left. Qed.

(** The time that is converted. *)
Definition local_time (ck : clock) (ts : timespec) : Z :=
  tv_sec ts - tz_minuteswest ck * 60 - (if wall_cmos_clock ck then adjkerntz ck else 0).

Lemma even_part x : 0 ≤ x < 2 ^ 64 → Z.land x (u64 (Z.lnot 1)) = x - x mod 2.
Proof.
  intros Hx. change (u64 (Z.lnot 1)) with (Z.ldiff (Z.ones 64) 1).
  replace (Z.land x (Z.ldiff (Z.ones 64) 1)) with (Z.ldiff x 1).
  - change (Z.ldiff x 1) with (Z.ldiff x (Z.ones 1)). rewrite Z.ldiff_ones_r by lia. rewrite Z.shiftl_mul_pow2, Z.shiftr_div_pow2 by lia. change (2 ^ 1) with 2. divs.
  - apply Z.bits_inj'. intros i Hi. rewrite Z.land_spec, !Z.ldiff_spec, Z.testbit_ones by lia.
    destruct (i <? 64) eqn:E; bool_prop; [destruct (Z.testbit x i), (0 <=? i) eqn:E2; bool_prop; try done; lia|].
    rewrite (testbit_high 64 x i) by (done || lia). done.
Qed.

Lemma bool_neq x y : negb (x =? y) = bool_decide (x ≠ y).
Proof. destruct (Z.eqb_spec x y); symmetry; [by apply bool_decide_eq_false_2; intros []|by apply bool_decide_eq_true_2]. Qed.

(** One conversion of a date that the format can hold. *)
Lemma unix2dostime_spec ck c ts days s2 mi h y m d : unix_ok c → clocktime_ok s2 mi h → date_ok y m d →
  days = dnum y m d → local_time ck ts - local_time ck ts mod 2 = 86400 * days + 3600 * h + 60 * mi + 2 * s2 →
  0 ≤ local_time ck ts < 2 ^ 64 → 0 ≤ tv_nsec ts < 1000000000 →
  ∃ c', unix_ok c' ∧ unix2dostime ck c ts true true =
    Ok (c', (dd_of y m d, Some (dt_of s2 mi h), Some (tv_sec ts mod 2 * 100 + tv_nsec ts / 10000000))).
Proof.
  intros [H1 H2 H3 H4] Hct Hd Hdays Ht Hl Hn. unfold unix2dostime. fold (local_time ck ts).
  rewrite (u64_small (local_time ck ts)), even_part by done. rewrite Ht.
  set (t := 86400 * days + 3600 * h + 60 * mi + 2 * s2) in *.
  assert (Etd : t / 86400 = days) by (unfold t; destruct Hct; divs). change (24 * 60 * 60) with 86400. rewrite Etd.
  assert (Hdt : dtime_of t = dt_of s2 mi h) by by apply dtime_of_clock.
  assert (Hdd : ddate_of_days days = Ok (dd_of y m d)) by (rewrite Hdays; by apply ddate_of_date).
  assert (Hpos : 3652 ≤ days).
  { destruct (date_in_year _ _ _ Hd) as [Hr _]. pose proof (dbefore_mono 1980 y (proj1 (date_y _ _ _ Hd))) as Hb.
    change (dbefore 1980) with 3652 in Hb. rewrite Hdays. unfold dnum. lia. }
  assert (Ht0 : 0 ≤ t) by (unfold t; destruct Hct; lia).
  assert (Hdh : u8 (Z.land (tv_sec ts) 1 * 100 + Z.quot (tv_nsec ts) 10000000) = tv_sec ts mod 2 * 100 + tv_nsec ts / 10000000).
  { rewrite (Z.land_ones (tv_sec ts) 1 : _ → Z.land (tv_sec ts) 1 = _) by lia. rewrite Z.quot_div_nonneg by lia. change (2 ^ 1) with 2.
    apply unsigned_of_small. rewrite is_u8_iff. divs. }
  rewrite Hdh, !bool_neq. case_bool_decide as Et; [case_bool_decide as Ed|].
  - rewrite Hdd. cbn [obind lastddate lastdtime]. eexists. split; [|by rewrite Hdt].
    split; cbn [lasttime lastday lastdtime lastddate]; [done|done|done|by right].
  - cbn [obind lastddate lastdtime]. assert (Ed' : lastday c = days) by (destruct (decide (days = lastday c)); [done|by destruct Ed]).
    destruct H4 as [H4|H4]; [lia|]. rewrite Ed', Hdd in H4. injection H4 as H4.
    eexists. split; [|by rewrite Hdt, H4]. split; cbn [lasttime lastday lastdtime lastddate]; [done|by rewrite Ed'|done|].
    right. by rewrite Ed', <- H4.
  - cbn [obind]. assert (Et' : lasttime c = t) by (destruct (decide (lasttime c = t)); [done|by destruct Et]).
    rewrite Et', Etd in H2. destruct H4 as [H4|H4]; [lia|]. rewrite H2, Hdd in H4. injection H4 as H4.
    exists c. split; [|by rewrite H3, Et', Hdt, H4]. split; [done|by rewrite Et', Etd|done|].
    right. by rewrite H2, <- H4.
Qed.

Lemma dos2unixtime_spec ck c s2 mi h y m d dh : dos_ok c → clocktime_ok s2 mi h → date_ok y m d → 0 ≤ dh < 200 →
  ∃ c', dos_ok c' ∧ dos2unixtime ck c (dd_of y m d) (dt_of s2 mi h) dh =
    Ok (c', Timespec (s64 (86400 * dnum y m d + 3600 * h + 60 * mi + 2 * s2 + dh / 100 + tz_minuteswest ck * 60 + adjkerntz ck))
      (dh mod 100 * 10000000)).
Proof.
  intros Hc Hct Hd Hdh. unfold dos2unixtime. destruct (dd_fields _ _ _ Hd) as (_ & _ & _ & Hdd).
  destruct (dd_of y m d =? 0) eqn:E0; bool_prop; [lia|]. rewrite sec_field, min_field, hour_field.
  destruct (dt_fields _ _ _ Hct) as (-> & -> & ->). rewrite bool_neq. rewrite Z.shiftl_mul_pow2 by lia. change (2 ^ 1) with 2.
  case_bool_decide as Ed.
  - rewrite seconds_of_dd by done. cbn [obind lastseconds]. eexists. split; [|f_equal; f_equal; f_equal; f_equal; lia].
    right. cbn [lastdosdate lastseconds]. rewrite u16_small by lia. by apply seconds_of_dd.
  - cbn [obind]. assert (Ed' : lastdosdate c = dd_of y m d) by (destruct (decide (lastdosdate c = dd_of y m d)); [done|by destruct Ed]).
    exists c. split; [done|]. destruct Hc as [Hc|Hc]; [lia|]. rewrite Ed', seconds_of_dd in Hc by done. injection Hc as Hc.
    rewrite <- Hc. f_equal. f_equal. f_equal. f_equal. lia.
Qed.


(** ** The round trips *)

(** A clock whose correction is the same in both directions ([unix2dostime]
    applies [adjkerntz] only when the hardware clock keeps local time,
    [dos2unixtime] always), a whole number of 2-second steps. *)
Record clock_ok (ck : clock) : Prop := {
  clock_mw : is_s 32 (tz_minuteswest ck);
  clock_adj : is_s 32 (adjkerntz ck) ∧ adjkerntz ck mod 2 = 0;
  clock_wall : wall_cmos_clock ck = false → adjkerntz ck = 0
}.

Lemma clock_correction ck ts : clock_ok ck →
  local_time ck ts = tv_sec ts - tz_minuteswest ck * 60 - adjkerntz ck.
Proof. intros [_ _ Hw]. unfold local_time. destruct (wall_cmos_clock ck); [done|]. rewrite Hw by done. done. Qed.

(** The local times of the years 1980 to 2107. *)
Definition dos_range (ck : clock) (ts : timespec) : Prop :=
  86400 * dbefore 1980 ≤ local_time ck ts < 86400 * dbefore 2108 ∧ 0 ≤ tv_nsec ts < 1000000000.

(** The words of a date and a time, with the extra byte of the creation time. *)
Definition dos_stamp (dd dt dh : Z) : Prop :=
  (∃ y m d, date_ok y m d ∧ dd = dd_of y m d) ∧ (∃ s2 mi h, clocktime_ok s2 mi h ∧ dt = dt_of s2 mi h) ∧ 0 ≤ dh < 200.

Lemma unix_dos_unix ck uc dc ts : clock_ok ck → unix_ok uc → dos_ok dc → dos_range ck ts →
  ∃ uc' dc' dd dt dh, unix2dostime ck uc ts true true = Ok (uc', (dd, Some dt, Some dh)) ∧
    dos2unixtime ck dc dd dt dh = Ok (dc', Timespec (tv_sec ts) (tv_nsec ts / 10000000 * 10000000)) ∧
    dos_stamp dd dt dh ∧ unix_ok uc' ∧ dos_ok dc'.
Proof.
  intros Hck Huc Hdc [Hl Hn]. change (dbefore 1980) with 3652 in Hl. change (dbefore 2108) with 50404 in Hl.
  set (t := local_time ck ts - local_time ck ts mod 2). assert (Ht : 86400 * 3652 ≤ t < 86400 * 50404) by (unfold t; divs).
  destruct (clock_of_time t) as (s2 & mi & h & Hct & Et); [lia|unfold t; divs|].
  destruct (ddate_spec (t / 86400)) as (y & m & d & Hd & Edn & _).
  { change (dbefore 1980) with 3652. change (dbefore 2108) with 50404. clearbody t. divs. }
  destruct (unix2dostime_spec ck uc ts (t / 86400) s2 mi h y m d) as (uc' & Huc' & E1); try done.
  { change (2 ^ 64) with 18446744073709551616. lia. }
  set (dh := tv_sec ts mod 2 * 100 + tv_nsec ts / 10000000) in *. assert (Hdh : 0 ≤ dh < 200) by (unfold dh; divs).
  destruct (dos2unixtime_spec ck dc s2 mi h y m d dh) as (dc' & Hdc' & E2); try done.
  exists uc', dc', (dd_of y m d), (dt_of s2 mi h), dh. split; [done|]. split; [|split; [|done]].
  2: { split; [by exists y, m, d|]. split; [by exists s2, mi, h|done]. }
  rewrite E2. f_equal. f_equal. f_equal; [|unfold dh; divs].
  assert (Es : 86400 * dnum y m d + 3600 * h + 60 * mi + 2 * s2 + dh / 100 + tz_minuteswest ck * 60 + adjkerntz ck = tv_sec ts).
  { pose proof (clock_correction ck ts Hck) as Ec. destruct (clock_adj _ Hck) as [_ Ha].
    assert (dh / 100 = tv_sec ts mod 2) as -> by (unfold dh; divs). rewrite Edn, <- Et.
    unfold t. rewrite Ec. clear - Ha. divs. }
  rewrite Es. apply signed_of_small; [done|]. pose proof (clock_correction ck ts Hck) as Ec.
  destruct (clock_adj _ Hck) as [Ha _], Hck as [Hm _ _]. rewrite is_s32_iff in *. unfold is_s.
  change (2 ^ (64 - 1)) with 9223372036854775808. lia.
Qed.

Lemma dos_unix_dos ck uc dc dd dt dh : clock_ok ck → unix_ok uc → dos_ok dc → dos_stamp dd dt dh →
  ∃ uc' dc' ts, dos2unixtime ck dc dd dt dh = Ok (dc', ts) ∧
    unix2dostime ck uc ts true true = Ok (uc', (dd, Some dt, Some dh)) ∧ unix_ok uc' ∧ dos_ok dc'.
Proof.
  intros Hck Huc Hdc ((y & m & d & Hd & ->) & (s2 & mi & h & Hct & ->) & Hdh).
  destruct (dos2unixtime_spec ck dc s2 mi h y m d dh) as (dc' & Hdc' & E2); try done.
  set (L := 86400 * dnum y m d + 3600 * h + 60 * mi + 2 * s2) in *.
  assert (HL : 0 ≤ L < 86400 * 60000).
  { destruct (date_in_year _ _ _ Hd) as [Hr _]. pose proof (dbefore_mono 1980 y (proj1 (date_y _ _ _ Hd))) as H1.
    pose proof (dbefore_mono y 2108) as H2. change (dbefore 1980) with 3652 in H1. change (dbefore 2108) with 50404 in H2.
    assert (ylen y ≤ 366) by (unfold ylen; case_test; lia).
    destruct Hd as [Hy _ _], Hct. unfold L, dnum. lia. }
  assert (HL2 : L mod 2 = 0) by (unfold L; divs).
  set (sec := L + dh / 100 + tz_minuteswest ck * 60 + adjkerntz ck) in *.
  assert (Esec : s64 sec = sec).
  { apply signed_of_small; [done|]. destruct Hck as [Hm [Ha _] _]. rewrite is_s32_iff in *. unfold is_s, sec.
    change (2 ^ (64 - 1)) with 9223372036854775808. divs. }
  rewrite Esec in E2. set (ts := Timespec sec (dh mod 100 * 10000000)) in *.
  assert (El : local_time ck ts = L + dh / 100) by (rewrite (clock_correction ck ts Hck); unfold ts, sec; cbn [tv_sec]; lia).
  destruct (unix2dostime_spec ck uc ts (dnum y m d) s2 mi h y m d) as (uc' & Huc' & E1); try done.
  - rewrite El. fold L. clearbody L. divs.
  - rewrite El. change (2 ^ 64) with 18446744073709551616. divs.
  - unfold ts. cbn [tv_nsec]. divs.
  - exists uc', dc', ts. split; [done|]. split; [|done]. rewrite E1. do 4 f_equal. unfold ts. cbn [tv_sec tv_nsec].
    destruct (clock_adj _ Hck) as [_ Ha]. unfold sec. clear - HL2 Hdh Ha. clearbody L. divs.
Qed.

(** C36: MS-DOS time stamps, whatever the last conversions were, if adjkerntz
    is an even number of seconds, and zero unless the hardware clock keeps local
    time (wall_cmos_clock): a time of the years 1980 to 2107 is stored with its
    second and hundredth and read back as the same time to 10 milliseconds, and
    a stamp that is read as a unix time is written back as the same stamp.
    (With the 4-year leap rule of the format, in which 2100 is a leap year.) *)
Theorem dostime_roundtrip ck uc dc : clock_ok ck → unix_ok uc → dos_ok dc →
  (∀ ts, dos_range ck ts → ∃ uc' dc' dd dt dh, unix2dostime ck uc ts true true = Ok (uc', (dd, Some dt, Some dh)) ∧
    dos2unixtime ck dc dd dt dh = Ok (dc', Timespec (tv_sec ts) (tv_nsec ts / 10000000 * 10000000)) ∧
    dos_stamp dd dt dh ∧ unix_ok uc' ∧ dos_ok dc') ∧
  (∀ dd dt dh, dos_stamp dd dt dh → ∃ uc' dc' ts, dos2unixtime ck dc dd dt dh = Ok (dc', ts) ∧
    unix2dostime ck uc ts true true = Ok (uc', (dd, Some dt, Some dh)) ∧ unix_ok uc' ∧ dos_ok dc').
Proof.
  intros Hck Huc Hdc. split; [intros ts; by apply unix_dos_unix|intros dd dt dh; by apply dos_unix_dos].
Qed.

(** The first conversions after the start of the kernel, at the leap day of
    2012 in a zone eight hours west, on a local-time clock. *)
Lemma dostime_roundtrip_witness : ∃ uc' dc' dd dt dh,
  unix2dostime (Clock 480 true 3600) unix_cache0 (Timespec 1330560001 123456789) true true = Ok (uc', (dd, Some dt, Some dh)) ∧
  dos2unixtime (Clock 480 true 3600) dos_cache0 dd dt dh = Ok (dc', Timespec 1330560001 120000000).
Proof.
  assert (Hck : clock_ok (Clock 480 true 3600)) by (split; [by_decide|split; by_decide|done]).
  destruct (proj1 (dostime_roundtrip _ _ _ Hck unix_ok0 dos_ok0) (Timespec 1330560001 123456789)) as (uc' & dc' & dd & dt & dh & H1 & H2 & _).
  - split; [split; by_decide|split; by_decide].
  - exists uc', dc', dd, dt, dh. split; [exact H1|exact H2].
Defined.

(** With a correction for a clock that does not keep local time, only one of the
    two functions applies it. *)
Lemma dostime_clock_skew : ∃ uc' dc' dd dt dh,
  unix2dostime (Clock 0 false 3600) unix_cache0 (Timespec 1330560000 0) true true = Ok (uc', (dd, Some dt, Some dh)) ∧
  dos2unixtime (Clock 0 false 3600) dos_cache0 dd dt dh = Ok (dc', Timespec (1330560000 + 3600) 0).
Proof. eexists _, _, _, _, _. split; reflexivity. Qed.

(** A day field of 0, which the format does not allow but a disk can hold, is
    read on machines with 64-bit longs as a time 2^32 days away: the day is
    decremented as a 32-bit unsigned number before it is added. *)
Lemma dos2unixtime_day_zero : ∃ c s,
  dos2unixtime (Clock 0 true 0) dos_cache0 (dd_of 1981 1 0) 0 0 = Ok (c, Timespec s 0) ∧
  s = 86400 * (dbefore 1981 + 2 ^ 32 - 1).
Proof. eexists _, _. split; reflexivity. Qed.

End MsdosTimeTheory.
