(* ===== verification/MsdosNameTheory.v ===== *)
(** File names of the MS-DOS file system, without a character set table: what
    is written as a long name is read back, and a short name that is said to
    be the same as the original is. *)

From stdpp Require Import base list.
From S2P Require Import Prelude MsdosName.

Module MsdosNameTheory.
Import MsdosName.

(** ** Bytes and arrays *)

Lemma u8_small x : 0 ≤ x < 256 → u8 x = x.
Proof. intros. apply unsigned_of_small. by rewrite is_u8_iff. Qed.

Lemma aget_cons {A} (a : A) l : aget (a :: l) 0 = Ok a.
Proof. done. Qed.

Lemma aset_app {A} (pre post : list A) a x : aset (pre ++ a :: post) (Z.of_nat (length pre)) x = Ok (pre ++ x :: post).
Proof.
  rewrite aset_in_bounds by (rewrite length_app; cbn; lia). rewrite Nat2Z.id. by rewrite insert_app_r_alt, Nat.sub_diag by lia.
Qed.

Lemma has_flag_small x : 0 ≤ x < 256 → has_flag x 0xff00 = false.
Proof.
  intros Hx. unfold has_flag. replace (Z.land x 0xff00) with 0; [done|]. symmetry.
  change 0xff00 with (Z.shiftl (Z.ones 8) 8). apply Z.bits_inj'. intros i Hi.
  rewrite Z.land_spec, Z.shiftl_spec, Z.testbit_0_l by lia. destruct (decide (i < 8)).
  - rewrite (Z.testbit_neg_r (Z.ones 8)) by lia. apply andb_false_r.
  - by rewrite (testbit_high 8 x i) by (done || lia).
Qed.

(** A byte of a file name. *)
Definition name_byte (c : Z) : Prop := 0 < c < 256 ∧ c ≠ 47.

Section plain.
Variable pmp : msdosfsmount.
Hypothesis plain : kiconv pmp = None.

Lemma unix2winchr_cons c s n : unix2winchr (c :: s) (Z.of_nat (S n)) 0 pmp = Ok (c, (s, Z.of_nat n)).
Proof.
  unfold unix2winchr. destruct (Z.of_nat (S n) =? 0) eqn:E; bool_prop; [lia|]. rewrite plain, aget_cons. cbn [obind].
  change (has_flag 0 (Z.lor LCASE_BASE LCASE_EXT)) with false. cbn [obind]. unfold advance. cbn. do 3 f_equal. lia.
Qed.

Lemma unix2winchr_nil s : unix2winchr s 0 0 pmp = Ok (0, (s, 0)).
Proof. done. Qed.

Lemma win2unixchr_byte c : 0 < c < 256 → win2unixchr c pmp = c.
Proof.
  intros Hc. unfold win2unixchr. destruct (c =? 0) eqn:E; bool_prop; [lia|]. rewrite plain, has_flag_small; [done|lia].
Qed.

(** ** One part of a slot *)

(** The bytes of [k] characters of a slot, when [rem] is left of the name. *)
Fixpoint enc (k : nat) (rem : list Z) : list Z :=
  match k with
  | O => []
  | S k =>
      match rem with
      | [] => 0 :: 0 :: replicate (2 * k) 0xff
      | c :: rem => c :: 0 :: enc k rem
      end
  end.

Lemma fill_part_spec k : ∀ pre rem tl, Forall name_byte rem →
  fill_part k (pre ++ replicate (2 * k) 0xff) (Z.of_nat (length pre)) (rem ++ tl) (Z.of_nat (length rem)) 0 pmp =
  Ok (pre ++ enc k rem, (drop k rem ++ tl, Z.of_nat (length (drop k rem))), if bool_decide (length rem < k)%nat then WIN_LAST else 0).
Proof.
  induction k as [|k IH]; intros pre rem tl Hn; [done|]. cbn [fill_part Z.eqb negb].
  replace (2 * S k)%nat with (S (S (2 * k))) by lia. cbn [replicate].
  destruct rem as [|c rem]; cbn [app length].
  - rewrite unix2winchr_nil. cbn [obind]. change (u8 0) with 0. change (u8 (Z.shiftr 0 8)) with 0.
    rewrite aset_app. cbn [obind]. replace (Z.of_nat (length pre) + 1) with (Z.of_nat (length (pre ++ [0]))) by (rewrite length_app; cbn; lia).
    replace (pre ++ 0 :: 0xff :: replicate (2 * k) 0xff) with ((pre ++ [0]) ++ 0xff :: replicate (2 * k) 0xff) by by rewrite <- app_assoc.
    rewrite aset_app. cbn [obind]. rewrite bool_decide_true by lia. rewrite <- app_assoc. cbn [app drop length enc].
    by destruct k.
  - apply Forall_cons in Hn as [[Hc Hc'] Hn]. rewrite unix2winchr_cons. cbn [obind]. rewrite u8_small by lia.
    assert (u8 (Z.shiftr c 8) = 0) as ->.
    { rewrite Z.shiftr_div_pow2 by lia. by rewrite (Z.div_small c) by lia. }
    rewrite aset_app. cbn [obind]. replace (Z.of_nat (length pre) + 1) with (Z.of_nat (length (pre ++ [c]))) by (rewrite length_app; cbn; lia).
    replace (pre ++ c :: 0xff :: replicate (2 * k) 0xff) with ((pre ++ [c]) ++ 0xff :: replicate (2 * k) 0xff) by by rewrite <- app_assoc.
    rewrite aset_app. cbn [obind]. destruct (c =? 0) eqn:E; bool_prop; [lia|].
    replace (Z.of_nat (length pre) + 2) with (Z.of_nat (length (pre ++ [c; 0]))) by (rewrite length_app; cbn; lia).
    replace ((pre ++ [c]) ++ 0 :: replicate (2 * k) 0xff) with ((pre ++ [c; 0]) ++ replicate (2 * k) 0xff) by by rewrite <- !app_assoc.
    rewrite IH by done. cbn [enc drop]. rewrite <- app_assoc. cbn [app]. f_equal. f_equal.
    by repeat case_bool_decide; try lia.
Qed.

Lemma fill_part_ended k part w un unlen : fill_part k part w un unlen WIN_LAST pmp = Ok (part, (un, unlen), WIN_LAST).
Proof. by destruct k. Qed.

Lemma put_ok name c : (length name < 27)%nat → 0 ≤ c < 256 → put name c = Ok (name ++ [c]).
Proof. intros Hl Hc. unfold put. rewrite u8_small by done. by rewrite (proj2 (Z.ltb_lt _ _)) by (unfold WIN_CHARS; lia). Qed.

Lemma read_part_spec k : ∀ rem name, Forall name_byte rem → (length name + k < 27)%nat →
  read_part k (enc k rem) name pmp =
  Ok (if bool_decide (length rem < k)%nat then (name ++ rem ++ [0], EndOfName) else (name ++ take k rem, EndOfPart)).
Proof.
  induction k as [|k IH]; intros rem name Hn Hl; [by rewrite app_nil_r|]. cbn [read_part].
  destruct rem as [|c rem]; cbn [enc].
  - change (aget (0 :: 0 :: replicate (2 * k) 255) 1) with (@Ok Z 0). rewrite aget_cons. cbn [obind].
    change (Z.lor (Z.shiftl 0 8) 0 =? 0) with true. cbv iota. rewrite put_ok by lia. cbn [obind].
    by rewrite bool_decide_true by (cbn; lia).
  - apply Forall_cons in Hn as [[Hc Hc'] Hn].
    change (aget (c :: 0 :: enc k rem) 1) with (@Ok Z 0). rewrite aget_cons. cbn [obind].
    rewrite Z.shiftl_0_l, Z.lor_0_l. destruct (c =? 0) eqn:E; bool_prop; [lia|].
    destruct (c =? 47) eqn:E'; bool_prop; [lia|]. rewrite win2unixchr_byte, has_flag_small by lia. cbn [obind].
    rewrite put_ok by lia. cbn [obind]. change (advance (c :: 0 :: enc k rem) 2) with (enc k rem).
    rewrite IH by (try done; rewrite length_app; cbn; lia). rewrite <- !app_assoc. cbn [app take length].
    f_equal. repeat case_bool_decide; (done || lia).
Qed.


(** ** One slot *)

(** A long name: at most 127 characters, none of them a slash, the last one
    neither a dot nor a blank. *)
Record long_name (nm : list Z) : Prop := {
  ln_bytes : Forall name_byte nm;
  ln_length : (1 ≤ length nm ≤ 127)%nat;
  ln_last : last nm ≠ Some 32 ∧ last nm ≠ Some 46
}.

Lemma winLenFixup_name nm tl : last nm ≠ Some 32 → last nm ≠ Some 46 → nm ≠ [] →
  winLenFixup (nm ++ tl) (Z.of_nat (length nm)) = Ok (Z.of_nat (length nm)).
Proof.
  intros H1 H2 Hne. destruct nm as [|x nm _] using rev_ind; [done|]. rewrite last_snoc in H1, H2.
  unfold winLenFixup. rewrite Nat2Z.id, length_app. cbn [length]. rewrite Nat.add_1_r. cbn [winLenFixup_loop].
  assert (aget ((nm ++ [x]) ++ tl) (Z.of_nat (S (length nm)) - 1) = Ok x) as ->.
  { apply aget_Ok. split; [lia|]. replace (Z.to_nat (Z.of_nat (S (length nm)) - 1)) with (length nm) by lia.
    rewrite <- app_assoc. by apply list_lookup_middle. }
  cbn [obind]. destruct (Z.eqb_spec x 32) as [->|]; [done|]. by destruct (Z.eqb_spec x 46) as [->|].
Qed.

(** The slot for what is left of the name from its first character on. *)
Definition slot (rem : list Z) (cnt chksum : Z) : winentry :=
  Winentry (u8 (Z.lor (u8 cnt) (if bool_decide (length rem ≤ 13)%nat then WIN_LAST else 0))) (enc 5 rem) ATTR_WIN95 0 (u8 chksum)
    (if bool_decide (length rem < 5)%nat then replicate 12 0xff else enc 6 (drop 5 rem)) 0
    (if bool_decide (length rem < 11)%nat then replicate 4 0xff else enc 2 (drop 11 rem)).

Lemma slot_parts rem tl : Forall name_byte rem → ∃ un unlen end_,
  (let* (part1, (un, unlen), end_) := fill_part 5 (replicate 10 0xff) 0 (rem ++ 0 :: tl) (Z.of_nat (length rem)) 0 pmp in
   let* (part2, (un, unlen), end_) := fill_part 6 (replicate 12 0xff) 0 un unlen end_ pmp in
   let* (part3, (un, unlen), end_) := fill_part 2 (replicate 4 0xff) 0 un unlen end_ pmp in
   Ok (part1, part2, part3, un, unlen, end_)) =
  Ok (wePart1 (slot rem 0 0), wePart2 (slot rem 0 0), wePart3 (slot rem 0 0), un, unlen, end_) ∧
  un = drop 13 rem ++ 0 :: tl ∧ end_ = (if bool_decide (length rem < 13)%nat then WIN_LAST else 0).
Proof.
  intros Hn. unfold slot. cbn [wePart1 wePart2 wePart3].
  pose proof (fill_part_spec 5 [] rem (0 :: tl) Hn) as H1. cbn [app length] in H1. change (Z.of_nat 0) with 0 in H1. change (2 * 5)%nat with 10%nat in H1. rewrite H1. cbn [obind].
  assert (Hlong : ∀ k, (length rem < k)%nat → drop k rem = []) by (intros; apply drop_ge; lia).
  destruct (decide (length rem < 5)%nat) as [C5|C5];
    [rewrite !(bool_decide_true (length rem < 5)%nat) by done|rewrite !(bool_decide_false (length rem < 5)%nat) by done].
  { rewrite !fill_part_ended. cbn [obind]. rewrite fill_part_ended. cbn [obind]. eexists _, _, _. split; [by rewrite bool_decide_true by lia|].
    rewrite !Hlong by lia. by rewrite bool_decide_true by lia. }
  assert (Hn5 : Forall name_byte (drop 5 rem)) by by apply Forall_drop.
  pose proof (fill_part_spec 6 [] (drop 5 rem) (0 :: tl) Hn5) as H2. cbn [app length] in H2. change (Z.of_nat 0) with 0 in H2. change (2 * 6)%nat with 12%nat in H2. rewrite H2. cbn [obind].
  rewrite drop_drop. change (5 + 6)%nat with 11%nat. rewrite !length_drop.
  rewrite (bool_decide_ext (length rem - 5 < 6)%nat (length rem < 11)%nat) by lia.
  destruct (decide (length rem < 11)%nat) as [C11|C11];
    [rewrite !(bool_decide_true (length rem < 11)%nat) by done|rewrite !(bool_decide_false (length rem < 11)%nat) by done].
  { rewrite fill_part_ended. cbn [obind]. eexists _, _, _. split; [done|].
    rewrite !Hlong by lia. by rewrite bool_decide_true by lia. }
  assert (Hn11 : Forall name_byte (drop 11 rem)) by by apply Forall_drop.
  pose proof (fill_part_spec 2 [] (drop 11 rem) (0 :: tl) Hn11) as H3. cbn [app length] in H3. change (Z.of_nat 0) with 0 in H3. change (2 * 2)%nat with 4%nat in H3. rewrite !length_drop in H3. rewrite H3. cbn [obind].
  rewrite drop_drop. change (11 + 2)%nat with 13%nat. eexists _, _, _.
  split; [done|]. split; [done|]. repeat case_bool_decide; (done || lia).
Qed.

Lemma unix2winfn_spec nm tl cnt chksum : long_name nm → 1 ≤ cnt → (cnt - 1) * 13 ≤ Z.of_nat (length nm) →
  let rem := drop (Z.to_nat ((cnt - 1) * 13)) nm in
  unix2winfn (nm ++ 0 :: tl) (Z.of_nat (length nm)) cnt chksum pmp =
  Ok (slot rem cnt chksum, negb (bool_decide (length rem ≤ 13)%nat)).
Proof.
  intros [Hb Hl [Hl1 Hl2]] Hc Hle rem. unfold unix2winfn. rewrite winLenFixup_name by (try done; intros ->; cbn in Hl; lia). cbn [obind].
  unfold mbsadjpos. rewrite plain. unfold WIN_CHARS. rewrite Z.min_r by lia. unfold advance.
  rewrite drop_app_le by lia. fold rem.
  assert (Hrem : Z.of_nat (length nm) - (cnt - 1) * 13 = Z.of_nat (length rem)) by (unfold rem; rewrite length_drop; lia).
  rewrite Hrem. assert (Hn : Forall name_byte rem) by by apply Forall_drop.
  destruct (slot_parts rem tl Hn) as (un & unlen & end_ & E & -> & ->).
  destruct (fill_part 5 _ _ _ _ _ _) as [[[p1 [u1 l1]] e1]| | |]; cbn [obind] in E |- *; try done.
  destruct (fill_part 6 _ _ _ _ _ _) as [[[p2 [u2 l2]] e2]| | |]; cbn [obind] in E |- *; try done.
  destruct (fill_part 2 _ _ _ _ _ _) as [[[p3 [u3 l3]] e3]| | |]; cbn [obind] in E |- *; try done.
  injection E as -> -> -> -> -> ->. unfold slot. cbn [wePart1 wePart2 wePart3].
  destruct (drop 13 rem) as [|c r] eqn:Ed.
  - cbn [app]. rewrite aget_cons. cbn [obind]. change (0 =? 0) with true. cbv iota.
    assert (length rem ≤ 13)%nat by (apply (f_equal length) in Ed; rewrite length_drop in Ed; cbn in Ed; lia).
    by rewrite !(bool_decide_true (length rem ≤ 13)%nat) by done.
  - cbn [app]. rewrite aget_cons. cbn [obind].
    assert (13 < length rem)%nat by (apply (f_equal length) in Ed; rewrite length_drop in Ed; cbn in Ed; lia).
    assert (Hcr : Forall name_byte (c :: r)) by (rewrite <- Ed; by apply Forall_drop). apply Forall_cons in Hcr as [[Hc0 _] _].
    destruct (c =? 0) eqn:E0; bool_prop; [lia|].
    by rewrite !(bool_decide_false (length rem ≤ 13)%nat), !(bool_decide_false (length rem < 13)%nat) by lia.
Qed.

(** ** Reading a slot back *)

Lemma slot_count rem cnt chksum : 1 ≤ cnt ≤ 20 →
  Z.land (weCnt (slot rem cnt chksum)) WIN_CNT = cnt ∧
  has_flag (weCnt (slot rem cnt chksum)) WIN_LAST = bool_decide (length rem ≤ 13)%nat.
Proof.
  intros Hc. cbn [weCnt slot]. assert (Hb : ∀ b : bool,
    Z.land (u8 (Z.lor (u8 cnt) (if b then WIN_LAST else 0))) WIN_CNT = cnt ∧
    has_flag (u8 (Z.lor (u8 cnt) (if b then WIN_LAST else 0))) WIN_LAST = b); [|apply Hb].
  intros b. assert (Hcs : cnt ∈ (Z.of_nat <$> seq 1 20)).
  { apply list_elem_of_fmap. exists (Z.to_nat cnt). split; [lia|]. apply elem_of_seq. lia. }
  revert Hcs. clear. revert cnt. apply Forall_forall. destruct b; by_decide.
Qed.

Lemma win2unixfn_slot nb rem cnt chksum c : Forall name_byte rem → 1 ≤ cnt ≤ 20 → 0 ≤ chksum < 256 →
  (length rem ≤ 13)%nat ∨ c = chksum →
  win2unixfn nb (slot rem cnt chksum) c pmp =
  (let* nb := mbnambuf_write nb (take 13 rem ++ [0]) (cnt - 1) in Ok (nb, chksum)).
Proof.
  intros Hn Hc Hk Hlast. unfold win2unixfn. destruct (slot_count rem cnt chksum Hc) as [-> ->].
  change (howmany WIN_MAXLEN WIN_CHARS) with 20.
  rewrite (proj2 (orb_false_iff _ _)) by (split; [rewrite Z.gtb_ltb; apply Z.ltb_ge; lia|apply Z.eqb_neq; lia]).
  cbn [weChksum slot]. rewrite u8_small by done.
  assert ((if bool_decide (length rem ≤ 13)%nat then chksum else if negb (c =? chksum) then -1 else c) = chksum) as ->.
  { case_bool_decide; [done|]. destruct Hlast as [?| ->]; [done|]. by rewrite Z.eqb_refl. }
  destruct (chksum =? -1) eqn:E; bool_prop; [lia|]. unfold slot. cbn [wePart1 wePart2 wePart3].
  rewrite read_part_spec by (done || (cbn; lia)).
  destruct (decide (length rem < 5)%nat) as [C5|C5];
    [rewrite !(bool_decide_true (length rem < 5)%nat) by done|rewrite !(bool_decide_false (length rem < 5)%nat) by done]; cbn [obind].
  { rewrite take_ge by lia. done. }
  rewrite read_part_spec by first [by apply Forall_drop | rewrite ?length_app, ?length_take, ?length_drop; cbn [length]; lia].
  rewrite length_drop, (bool_decide_ext (length rem - 5 < 6)%nat (length rem < 11)%nat) by lia.
  destruct (decide (length rem < 11)%nat) as [C11|C11];
    [rewrite !(bool_decide_true (length rem < 11)%nat) by done|rewrite !(bool_decide_false (length rem < 11)%nat) by done]; cbn [obind].
  { rewrite (take_ge rem 13) by lia. by rewrite <- !app_assoc, (app_assoc (take 5 rem)), take_drop. }
  rewrite read_part_spec by first [by apply Forall_drop | rewrite ?length_app, ?length_take, ?length_drop; cbn [length]; lia].
  cbn [app]. rewrite take_take_drop. change (5 + 6)%nat with 11%nat.
  rewrite length_drop, (bool_decide_ext (length rem - 11 < 2)%nat (length rem < 13)%nat) by lia.
  case_bool_decide as C13; cbn [obind].
  { rewrite (take_ge rem 13) by lia. by rewrite app_assoc, take_drop. }
  rewrite take_take_drop. rewrite put_ok by (rewrite ?length_take; lia). done.
Qed.


(** ** The buffer *)

Lemma strlen_name nm : Forall name_byte nm → strlen (nm ++ [0]) = Ok (Z.of_nat (length nm)).
Proof.
  induction nm as [|c nm IH]; intros Hn; [done|]. apply Forall_cons in Hn as [[Hc _] Hn]. cbn [app strlen].
  destruct (c =? 0) eqn:E; bool_prop; [lia|]. rewrite IH by done. cbn [obind length]. f_equal. lia.
Qed.

Lemma bcopy_to_Ok src dst off : (off + length src ≤ length dst)%nat →
  bcopy_to src dst (Z.of_nat off) = Ok (take off dst ++ src ++ drop (off + length src) dst).
Proof.
  intros H. unfold bcopy_to. rewrite (proj2 (orb_false_iff _ _)) by (split; apply Z.ltb_ge; lia). by rewrite Nat2Z.id.
Qed.

(** The buffer when the slots above [k] have been read. *)
Record partly_read (nm : list Z) (k : nat) (nb : mbnambuf) : Prop := {
  pr_size : length (nb_buf nb) = 256%nat;
  pr_len : nb_len nb = Z.of_nat (length nm - 13 * k);
  pr_last : nb_len nb ≠ 0 → nb_last_id nb = Z.of_nat k;
  pr_bytes : take (length nm - 13 * k) (drop (13 * k) (nb_buf nb)) = drop (13 * k) nm
}.

Lemma partly_read_init nm k nb : length (nb_buf nb) = 256%nat → (length nm ≤ 13 * k)%nat →
  ∃ nb', mbnambuf_init nb = Ok nb' ∧ partly_read nm k nb'.
Proof.
  intros Hl Hk. unfold mbnambuf_init. rewrite aset_in_bounds by lia. cbn [obind]. eexists. split; [done|].
  split; cbn [nb_buf nb_len nb_last_id].
  - by rewrite length_insert.
  - lia.
  - done.
  - replace (length nm - 13 * k)%nat with 0%nat by lia. by rewrite (drop_ge nm) by lia.
Qed.

Lemma mbnambuf_write_spec nm k nb : long_name nm → (13 * k < length nm)%nat → partly_read nm (S k) nb →
  ∃ nb', mbnambuf_write nb (take 13 (drop (13 * k) nm) ++ [0]) (Z.of_nat k) = Ok nb' ∧ partly_read nm k nb'.
Proof.
  intros [Hb Hl _] Hk [Hs Hlen Hlast Hbytes]. unfold mbnambuf_write.
  set (src := take 13 (drop (13 * k) nm)). assert (Hsrc : length src = Nat.min 13 (length nm - 13 * k)) by (unfold src; by rewrite length_take, length_drop).
  rewrite (proj2 (andb_false_iff _ _)).
  2: { destruct (nb_len nb =? 0) eqn:E; bool_prop; [by left|right]. rewrite Hlast by done. by rewrite (proj2 (Z.eqb_eq _ _)) by lia. }
  rewrite strlen_name by (by apply Forall_take, Forall_drop). cbn [obind].
  rewrite (proj2 (orb_false_iff _ _)) by (unfold WIN_MAXLEN; split; rewrite Z.gtb_ltb; apply Z.ltb_ge; lia).
  rewrite (proj2 (andb_false_iff _ _)) by (left; unfold WIN_CHARS; rewrite Z.gtb_ltb; apply Z.ltb_ge; lia). cbn [obind].
  rewrite Nat2Z.id, take_app_length. unfold WIN_CHARS. replace (Z.of_nat k * 13) with (Z.of_nat (13 * k)) by lia.
  rewrite bcopy_to_Ok by lia. cbn [obind]. eexists. split; [done|]. split; cbn [nb_buf nb_len nb_last_id].
  - rewrite !length_app, length_take, length_drop. lia.
  - lia.
  - done.
  - rewrite drop_app_length' by (rewrite length_take; lia). rewrite take_app_ge by lia.
    rewrite Hsrc. destruct (decide (13 ≤ length nm - 13 * k)%nat).
    + rewrite Nat.min_l by lia. replace (length nm - 13 * k - 13)%nat with (length nm - 13 * S k)%nat by lia.
      replace (13 * k + 13)%nat with (13 * S k)%nat by lia. rewrite Hbytes. unfold src.
      replace (13 * S k)%nat with (13 * k + 13)%nat by lia. by rewrite <- drop_drop, take_drop.
    + rewrite Nat.min_r by lia. rewrite Nat.sub_diag. cbn [take]. rewrite app_nil_r. unfold src. apply take_ge. rewrite length_drop. lia.
Qed.

Lemma mbnambuf_flush_spec nm nb d_name : (length nm ≤ 255)%nat → partly_read nm 0 nb → (length nm < length d_name)%nat →
  ∃ nb', mbnambuf_flush nb d_name = Ok (nb', nm ++ 0 :: drop (length nm + 1) d_name, Z.of_nat (length nm)).
Proof.
  intros Hnm [Hs Hlen _ Hbytes] Hd. unfold mbnambuf_flush. replace (length nm - 13 * 0)%nat with (length nm) in * by lia.
  rewrite Hlen. unfold bcopy_from. rewrite (proj2 (orb_false_iff _ _)) by (split; apply Z.ltb_ge; lia). cbn [obind].
  rewrite Nat2Z.id. change (Z.to_nat 0) with 0%nat. change (13 * 0)%nat with 0%nat in Hbytes. rewrite Hbytes. change (drop 0 nm) with nm.
  pose proof (bcopy_to_Ok nm d_name 0) as Hcopy. change (Z.of_nat 0) with 0 in Hcopy. rewrite Hcopy by lia. cbn [obind]. change (take 0 d_name) with (@nil Z). cbn [app]. change (0 + length nm)%nat with (length nm).
  destruct (drop (length nm) d_name) as [|x r] eqn:Er.
  { apply (f_equal length) in Er. rewrite length_drop in Er. cbn in Er. lia. }
  rewrite aset_app. cbn [obind]. unfold mbnambuf_init. rewrite aset_in_bounds by lia. cbn [obind]. eexists.
  rewrite <- drop_drop, Er. unfold unsigned_of. rewrite Z.mod_small by lia. done.
Qed.

(** ** All slots of a name *)

(** The slots from number [k] down to the first one. *)
Fixpoint slots_down (nm : list Z) (chksum : Z) (k : nat) : list winentry :=
  match k with
  | O => []
  | S k' => slot (drop (13 * k') nm) (Z.of_nat k) chksum :: slots_down nm chksum k'
  end.

Lemma write_slots_spec nm tl chksum n : long_name nm → (length nm ≤ 13 * n)%nat → (13 * (n - 1) < length nm)%nat →
  ∀ k j, (j + k = n)%nat → (0 < k)%nat →
  write_slots k (nm ++ 0 :: tl) (Z.of_nat (length nm)) (Z.of_nat (S j)) chksum pmp (slots_down nm chksum j) =
  Ok (slots_down nm chksum n).
Proof.
  intros Hnm Hn Hn'. induction k as [|k IH]; intros j Hj Hk; [lia|]. cbn [write_slots].
  rewrite unix2winfn_spec by (done || lia). cbn [obind]. replace (Z.to_nat ((Z.of_nat (S j) - 1) * 13)) with (13 * j)%nat by lia.
  rewrite length_drop. case_bool_decide as Hlast; cbn [negb].
  - replace n with (S j) by lia. done.
  - replace (Z.of_nat (S j) + 1) with (Z.of_nat (S (S j))) by lia. apply (IH (S j)); lia.
Qed.

Lemma read_slots_spec nm chksum : long_name nm → 0 ≤ chksum < 256 → ∀ k nb c,
  (13 * (k - 1) < length nm)%nat → partly_read nm k nb → (0 < k)%nat → (length nm ≤ 13 * k)%nat ∨ c = chksum →
  ∃ nb', read_slots nb (slots_down nm chksum k) c pmp = Ok (nb', chksum) ∧ partly_read nm 0 nb'.
Proof.
  intros Hnm Hc. induction k as [|k IH]; intros nb c Hk Hpr Hpos Hcond; [lia|]. cbn [slots_down read_slots].
  pose proof (ln_length _ Hnm). rewrite win2unixfn_slot; [|apply Forall_drop, Hnm|lia|done|].
  2: { rewrite length_drop. destruct Hcond; [left; lia|by right]. }
  replace (Z.of_nat (S k) - 1) with (Z.of_nat k) by lia.
  destruct (mbnambuf_write_spec nm k nb Hnm) as (nb1 & -> & H1); [lia|done|]. cbn [obind].
  destruct k as [|k]; [by exists nb1|]. apply IH; [lia|done|lia|by right].
Qed.

Lemma same_name_refl nm : ∀ tl tl' fuel, Forall name_byte nm → (length nm ≤ fuel)%nat →
  same_name fuel (nm ++ tl) (Z.of_nat (length nm)) (nm ++ tl') (Z.of_nat (length nm)) pmp = Ok true.
Proof.
  induction nm as [|c nm IH]; intros tl tl' fuel Hn Hf; [by destruct fuel|]. cbn [length] in Hf. destruct fuel as [|fuel]; [lia|].
  apply Forall_cons in Hn as [[Hc _] Hn]. cbn [same_name].
  rewrite (proj2 (andb_true_iff _ _)) by (split; rewrite Z.gtb_ltb; apply Z.ltb_lt; cbn [length]; lia).
  assert (Hchr : ∀ s, ∃ w, unix2winchr (c :: s) (Z.of_nat (length (c :: nm))) LCASE_BASE pmp = Ok (w, (s, Z.of_nat (length nm))) ∧
    u2l !! Z.to_nat c = Some w).
  { intros s. destruct (lookup_lt_is_Some_2 u2l (Z.to_nat c)) as [w Hw]; [change (length u2l) with 256%nat; lia|].
    exists w. split; [|done]. unfold unix2winchr. destruct (Z.of_nat (length (c :: nm)) =? 0) eqn:E; bool_prop; [cbn in E; lia|].
    rewrite plain, aget_cons. cbn [obind]. change (has_flag LCASE_BASE (Z.lor LCASE_BASE LCASE_EXT)) with true. cbv iota.
    assert (aget u2l c = Ok w) as -> by (apply aget_Ok; split; [lia|done]). cbn [obind]. unfold advance. cbn. do 3 f_equal. lia. }
  cbn [app]. destruct (Hchr (nm ++ tl)) as (w & -> & Hw). destruct (Hchr (nm ++ tl')) as (w' & -> & Hw'). cbn [obind].
  rewrite Hw in Hw'. injection Hw' as <-. rewrite Z.eqb_refl. cbn [negb]. apply IH; [done|lia].
Qed.


(** Writing and reading all the slots of a name. *)
Lemma slots_roundtrip nm tl chksum nb : long_name nm → 0 ≤ chksum < 256 → length (nb_buf nb) = 256%nat →
  ∃ n disk nb1 nb2,
    winSlotCnt (nm ++ 0 :: tl) (Z.of_nat (length nm)) pmp = Ok (Z.of_nat n) ∧
    Z.of_nat n = (Z.of_nat (length nm) + 12) / 13 ∧
    write_slots n (nm ++ 0 :: tl) (Z.of_nat (length nm)) 1 chksum pmp [] = Ok disk ∧ length disk = n ∧
    mbnambuf_init nb = Ok nb1 ∧ read_slots nb1 disk (-1) pmp = Ok (nb2, chksum) ∧ partly_read nm 0 nb2.
Proof.
  intros Hnm Hc Hnb. pose proof (ln_length _ Hnm) as Hl. set (n := Z.to_nat ((Z.of_nat (length nm) + 12) / 13)).
  pose proof (Z.div_mod (Z.of_nat (length nm) + 12) 13 ltac:(lia)). pose proof (Z.mod_pos_bound (Z.of_nat (length nm) + 12) 13 ltac:(lia)).
  assert (Hn : Z.of_nat n = (Z.of_nat (length nm) + 12) / 13) by (unfold n; lia).
  destruct (partly_read_init nm n nb Hnb) as (nb1 & E1 & H1); [lia|].
  destruct (read_slots_spec nm chksum Hnm Hc n nb1 (-1)) as (nb2 & E2 & H2); [lia|done|lia|left; lia|].
  exists n, (slots_down nm chksum n), nb1, nb2. split.
  { unfold winSlotCnt. destruct Hnm as [_ _ [Hd1 Hd2]].
    rewrite winLenFixup_name by (try done; intros ->; cbn in Hl; lia). cbn [obind]. rewrite plain. unfold WIN_MAXLEN, howmany, WIN_CHARS.
    destruct (Z.of_nat (length nm) >? 255) eqn:E; bool_prop; [lia|]. f_equal. rewrite Hn. done. }
  split; [done|]. split.
  { apply (write_slots_spec nm tl chksum n Hnm ltac:(lia) ltac:(lia) n 0); lia. }
  split; [clear; induction n as [|n IH]; cbn; [done|by rewrite IH]|by auto].
Qed.

(** The comparison with a name of 127 characters writes the terminating zero
    one byte behind its array. *)
Lemma winChkName_overflow nm nb un unlen chksum : length nm = 127%nat → partly_read nm 0 nb →
  winChkName nb un unlen chksum pmp = Undef OutOfBounds.
Proof.
  intros Hl [Hs Hlen _ Hbytes]. unfold winChkName, mbnambuf_flush. rewrite Hl in *. change (127 - 13 * 0)%nat with 127%nat in *.
  rewrite Hlen. unfold bcopy_from. change (Z.of_nat 127) with 127. rewrite Hs. cbn [obind].
  change ((0 <? 0) || (Z.of_nat 256 <? 0 + 127)) with false. cbv iota. cbn [obind].
  change (Z.to_nat 127) with 127%nat. change (Z.to_nat 0) with (13 * 0)%nat. rewrite Hbytes. change (drop (13 * 0) nm) with nm.
  pose proof (bcopy_to_Ok nm (replicate 127 0) 0) as Hcopy. change (Z.of_nat 0) with 0 in Hcopy.
  rewrite Hcopy by (rewrite length_replicate; lia). cbn [obind].
  unfold aset. rewrite (proj2 (orb_true_iff _ _)); [done|]. right. apply Z.leb_le.
  rewrite !length_app, length_drop, length_replicate. cbn. lia.
Qed.

(** A full slot with the largest number that is accepted is put behind the
    end of the buffer. *)
Lemma win2unixfn_overflow rem nb chksum : Forall name_byte rem → length rem = 13%nat → 0 ≤ chksum < 256 →
  length (nb_buf nb) = 256%nat → nb_len nb = 0 →
  win2unixfn nb (slot rem 20 chksum) (-1) pmp = Undef OutOfBounds.
Proof.
  intros Hn Hl Hc Hs H0. rewrite win2unixfn_slot by (done || lia || (left; lia)). unfold mbnambuf_write. rewrite H0.
  cbn [Z.eqb negb andb]. rewrite strlen_name by (by apply Forall_take). cbn [obind]. rewrite length_take, Hl.
  change (Z.of_nat (13 `min` 13)) with 13. change ((0 + 13 >? WIN_MAXLEN) || (0 + 13 >? 127)) with false.
  rewrite andb_false_r. cbn [obind]. cbv iota.
  unfold bcopy_to. rewrite Hs, (proj2 (orb_true_iff ((20 - 1) * WIN_CHARS <? 0) _)); [done|]. right.
  apply Z.ltb_lt. rewrite length_take, length_app, length_take, Hl. unfold WIN_CHARS. cbn. lia.
Qed.

End plain.

(** ** The long names *)

(** C34: on a mount without character set conversion, a long name of at most
    127 characters (none of them a slash, the last one neither a dot nor a
    blank) that is written to the slots of a directory, last slot first, is put
    together again by reading them in the order of the directory, with its
    checksum; and if it has less than 127 characters, [winChkName], by which
    lookup compares, finds it equal to itself.  (What happens to the other names
    is shown below.) *)
Theorem winfn_roundtrip pmp nm tl chksum nb d_name :
  kiconv pmp = None → long_name nm → 0 ≤ chksum < 256 → length (nb_buf nb) = 256%nat → (128 ≤ length d_name)%nat →
  ∃ n disk nb1 nb2,
    winSlotCnt (nm ++ 0 :: tl) (Z.of_nat (length nm)) pmp = Ok (Z.of_nat n) ∧
    write_slots n (nm ++ 0 :: tl) (Z.of_nat (length nm)) 1 chksum pmp [] = Ok disk ∧ length disk = n ∧
    mbnambuf_init nb = Ok nb1 ∧ read_slots nb1 disk (-1) pmp = Ok (nb2, chksum) ∧
    (∃ nb3, mbnambuf_flush nb2 d_name = Ok (nb3, nm ++ 0 :: drop (length nm + 1) d_name, Z.of_nat (length nm))) ∧
    ((length nm < 127)%nat → ∃ nb3, winChkName nb2 (nm ++ 0 :: tl) (Z.of_nat (length nm)) chksum pmp = Ok (nb3, chksum)).
Proof.
  intros Hp Hnm Hc Hnb Hd. pose proof (ln_length _ Hnm) as Hl.
  destruct (slots_roundtrip pmp Hp nm tl chksum nb Hnm Hc Hnb) as (n & disk & nb1 & nb2 & E1 & _ & E2 & E3 & E4 & E5 & H).
  exists n, disk, nb1, nb2. split_and!; try done.
  - apply mbnambuf_flush_spec; [lia|done|lia].
  - intros Hl'. destruct (mbnambuf_flush_spec nm nb2 (replicate 127 0)) as (nb3 & E); [lia|done|rewrite length_replicate; lia|].
    exists nb3. unfold winChkName. rewrite E. cbn [obind].
    destruct (Z.of_nat (length nm) =? 0) eqn:E0; bool_prop; [lia|]. rewrite Z.eqb_refl. cbn [negb].
    rewrite same_name_refl by (apply Hnm || lia || done). done.
Qed.

(** "A long name.txt", in two slots. *)
Lemma winfn_roundtrip_witness :
  let nm := [65; 32; 108; 111; 110; 103; 32; 110; 97; 109; 101; 46; 116; 120; 116] in
  ∃ n disk nb1 nb2,
    winSlotCnt (nm ++ [0]) 15 (Mount 0 None) = Ok (Z.of_nat n) ∧
    write_slots n (nm ++ [0]) 15 1 77 (Mount 0 None) [] = Ok disk ∧ length disk = n ∧
    mbnambuf_init (Mbnambuf 5 3 (replicate 256 88)) = Ok nb1 ∧ read_slots nb1 disk (-1) (Mount 0 None) = Ok (nb2, 77) ∧
    (∃ nb3, mbnambuf_flush nb2 (replicate 256 9) = Ok (nb3, nm ++ 0 :: replicate 240 9, 15)) ∧
    ((15 < 127)%nat → ∃ nb3, winChkName nb2 (nm ++ [0]) 15 77 (Mount 0 None) = Ok (nb3, 77)).
Proof.
  refine (winfn_roundtrip (Mount 0 None) _ [] 77 (Mbnambuf 5 3 (replicate 256 88)) (replicate 256 9) _ _ _ _ _);
    [reflexivity| |lia|reflexivity|by_decide].
  split; [|cbn; lia|split; discriminate].
  repeat (apply Forall_cons; split; [by_decide|]). apply Forall_nil. exact I.
Defined.

(** When a trailing dot is cut off a name that fills its slots, the zero that
    would mark the last slot is not there: no slot is marked, and the name is
    not read back. *)
Lemma unix2winfn_trailing_dot :
  let nm := [97; 98; 99; 100; 101; 102; 103; 104; 105; 106; 107; 108; 109; 46; 0] in
  ∃ wep, winSlotCnt nm 14 (Mount 0 None) = Ok 1 ∧ write_slots 1 nm 14 1 77 (Mount 0 None) [] = Ok [wep] ∧
    has_flag (weCnt wep) WIN_LAST = false ∧ ∀ nb, win2unixfn nb wep (-1) (Mount 0 None) = Ok (nb, -1).
Proof. eexists. repeat split. Qed.

(** The first slots of a name of more than 127 characters are refused by the
    buffer, and what is returned is what was in it before. *)
Lemma mbnambuf_stale :
  (let* disk := write_slots 10 (replicate 130 97 ++ [0]) 130 1 77 (Mount 0 None) [] in
   let* nb1 := mbnambuf_init (Mbnambuf 5 3 (replicate 256 88)) in
   let* (nb2, chksum) := read_slots nb1 disk (-1) (Mount 0 None) in
   let* (_, d, len) := mbnambuf_flush nb2 (replicate 256 9) in
   Ok (chksum, take 117 d, len)) = Ok (77, replicate 13 88 ++ replicate 104 97, 117).
Proof. vm_compute. reflexivity. Qed.

End MsdosNameTheory.
