(* ===== verification/MsdosShort.v ===== *)
(** Short names of the MS-DOS file system, without a character set table: a
    name of which [unix2dosfn] says that its short form is the same is read
    back from that form. *)

From stdpp Require Import base list.
From S2P Require Import Prelude MsdosName MsdosNameTheory.

Module MsdosShort.
Import MsdosName MsdosNameTheory.

(** ** Characters that do not change *)

(** The character a name's character becomes. *)
Definition dos_char (c : Z) : Z := unix2dos !!! Z.to_nat (l2u !!! Z.to_nat c).

(** A character that is kept by both conversions. *)
Definition kept (c : Z) : Prop := 33 ≤ c < 128 ∧ dos_char c = c ∧ c ≠ 46.

(** What the tables say, byte by byte. *)
Definition byte_fact (c : Z) : bool :=
  bool_decide (0 ≤ l2u !!! Z.to_nat c < 256 ∧ 0 ≤ dos_char c < 256 ∧
    (dos_char c = c → c < 128 → dos_char c ≠ 1 → dos_char c ≠ 2 → 0 < dos_char c → 33 ≤ c ∧ c ≠ 46) ∧
    (33 ≤ c < 128 → dos2unix !!! Z.to_nat c = c)).

Lemma byte_facts : forallb byte_fact (Z.of_nat <$> seq 0 256) = true.
Proof. vm_compute. reflexivity. Qed.

Lemma byte_fact_true c : 0 ≤ c < 256 → byte_fact c = true.
Proof.
  intros Hc. pose proof byte_facts as H. rewrite forallb_forall in H. apply H. apply in_map_iff.
  exists (Z.to_nat c). split; [lia|]. apply in_seq. lia.
Qed.

Lemma table_total (t : list Z) c : length t = 256%nat → 0 ≤ c < 256 → aget t c = Ok (t !!! Z.to_nat c).
Proof.
  intros Hl Hc. destruct (lookup_lt_is_Some_2 t (Z.to_nat c)) as [x Hx]; [lia|].
  assert (aget t c = Ok x) as -> by (apply aget_Ok; split; [lia|done]). by rewrite (list_lookup_total_correct _ _ _ Hx).
Qed.

Section plain.
Variable pmp : msdosfsmount.
Hypothesis plain : kiconv pmp = None.

Lemma unix2doschr_cons c s i : 0 ≤ c < 256 → unix2doschr (c :: s) i pmp = Ok (dos_char c, (s, i - 1)).
Proof.
  intros Hc. unfold unix2doschr. rewrite plain, aget_cons. cbn [obind].
  pose proof (byte_fact_true c Hc) as H. apply bool_decide_eq_true in H as (H1 & _).
  rewrite (table_total l2u) by done. cbn [obind]. by rewrite (table_total unix2dos) by done.
Qed.

Lemma dos2unixchr_kept c s i : 33 ≤ c < 128 → dos2unixchr (c :: s) i 0 pmp = Ok (c, (s, i - 1)).
Proof.
  intros Hc. unfold dos2unixchr. rewrite plain, aget_cons. cbn [obind].
  pose proof (byte_fact_true c ltac:(lia)) as H. apply bool_decide_eq_true in H as (_ & _ & _ & H).
  rewrite (table_total dos2unix) by (done || lia). cbn [obind]. by rewrite H.
Qed.

(** ** From DOS to unix *)

Lemma copy_part_spec w : ∀ fuel rest i un n, Forall (λ c, 33 ≤ c < 128) w → (length w ≤ fuel)%nat →
  Z.of_nat (length w) ≤ i → (Z.of_nat (length w) = i ∨ ∃ r, rest = 32 :: r) →
  copy_part fuel (w ++ rest) i 0 un n pmp = Ok (rest, i - Z.of_nat (length w), un ++ w, n + Z.of_nat (length w)).
Proof.
  induction w as [|c w IH]; intros fuel rest i un n Hw Hf Hi Hend; cbn [length] in *.
  - assert (Hc : (let* c := if i >? 0 then aget ([] ++ rest) 0 else Ok 32 in
      if c =? 32 then Ok ([] ++ rest, i, un, n) else NoFuel) = Ok (rest, i, un, n)).
    { case_test; [|done]. bool_prop. destruct Hend as [?|[r ->]]; [lia|done]. }
    rewrite app_nil_r, Z.sub_0_r, Z.add_0_r.
    assert (Hx : (if i >? 0 then aget ([] ++ rest) 0 else Ok 32) = Ok 32).
    { case_test; [|done]. bool_prop. destruct Hend as [?|[r ->]]; [lia|done]. }
    destruct fuel; cbn [copy_part]; rewrite Hx; done.
  - apply Forall_cons in Hw as [Hc Hw]. destruct fuel as [|fuel]; [lia|]. cbn [copy_part app].
    destruct (i >? 0) eqn:E; bool_prop; [|lia]. rewrite aget_cons. cbn [obind].
    destruct (c =? 32) eqn:E'; bool_prop; [lia|]. rewrite dos2unixchr_kept by done. cbn [obind].
    rewrite u8_small, has_flag_small by lia. rewrite IH by (done || lia || (destruct Hend; [left; lia|by right])).
    rewrite <- app_assoc. cbn [app]. f_equal. f_equal; [|lia]. f_equal. f_equal. lia.
Qed.

(** A short name with blanks after its base and its extension. *)
Definition short_name (base ext : list Z) : list Z :=
  base ++ replicate (8 - length base) 32 ++ ext ++ replicate (3 - length ext) 32 ++ [0].

Lemma dos2unixfn_short base ext : Forall (λ c, 33 ≤ c < 128) base → Forall (λ c, 33 ≤ c < 128) ext →
  (1 ≤ length base ≤ 8)%nat → (length ext ≤ 3)%nat →
  dos2unixfn (short_name base ext) 0 pmp =
  Ok (short_name base ext, base ++ (if ext is [] then [] else 46 :: ext) ++ [0],
      1 + Z.of_nat (length (base ++ (if ext is [] then [] else 46 :: ext)))).
Proof.
  intros Hb He Hlb Hle. unfold dos2unixfn. destruct base as [|b0 br] eqn:Eb; [cbn in Hlb; lia|]. rewrite <- Eb in *.
  assert (H0 : aget (short_name base ext) 0 = Ok b0) by by rewrite Eb. rewrite H0. cbn [obind].
  assert (Hb0 : 33 ≤ b0 < 128) by (rewrite Eb in Hb; by apply Forall_cons in Hb as [? _]).
  destruct (b0 =? SLOT_E5) eqn:E5; [unfold SLOT_E5 in E5; bool_prop; lia|]. cbn [obind]. change (Z.land 0 LCASE_BASE) with 0.
  unfold short_name at 1. rewrite copy_part_spec; [|done|lia|lia|].
  2: { destruct (decide (length base = 8%nat)) as [->|]; [by left|right].
       destruct (8 - length base)%nat as [|k] eqn:Ek; [lia|]. eexists. reflexivity. }
  cbn [obind]. unfold advance. rewrite drop_app_length' by (rewrite length_replicate; lia). cbn [app].
  destruct ext as [|e0 er] eqn:Ee.
  - cbn [app length Nat.sub replicate]. rewrite aget_cons. cbn [obind Z.eqb negb]. rewrite app_nil_r. done.
  - rewrite <- Ee in *. assert (He0 : 33 ≤ e0 < 128) by (rewrite Ee in He; by apply Forall_cons in He as [? _]).
    assert (aget (ext ++ replicate (3 - length ext) 32 ++ [0]) 0 = Ok e0) as -> by by rewrite Ee. cbn [obind].
    destruct (e0 =? 32) eqn:E32; bool_prop; [lia|]. cbn [negb]. change (Z.land 0 LCASE_EXT) with 0.
    rewrite copy_part_spec; [|done|lia|lia|].
    2: { destruct (decide (length ext = 3%nat)) as [->|]; [by left|right].
         destruct (3 - length ext)%nat as [|k] eqn:Ek; [lia|]. eexists. reflexivity. }
    cbn [obind]. rewrite Ee. cbn iota beta. rewrite <- Ee. rewrite <- !app_assoc. cbn [app].
    f_equal. f_equal. rewrite !length_app. cbn [length]. lia.
Qed.


(** ** From unix to DOS *)

(** [k] characters of the name from position [p] on. *)
Definition slice (un : list Z) (p : Z) (k : nat) : list Z := take k (drop (Z.to_nat p) un).

Lemma slice_S un p k c : 0 ≤ p → un !! Z.to_nat p = Some c → slice un p (S k) = c :: slice un (p + 1) k.
Proof.
  intros Hp Hc. unfold slice. rewrite (drop_S un c) by done. cbn [take]. do 3 f_equal. lia.
Qed.

(** The bytes of a name. *)
Definition bytes (un : list Z) : Prop := Forall (λ c, 0 ≤ c < 256) un.

(** One character, when the name is said to be unchanged afterwards. *)
Lemma conv_char_kept lim un s s' stop c : bytes un → 0 ≤ cp s → un !! Z.to_nat (cp s) = Some c → 0 < c →
  conv_char lim un s pmp = Ok (s', stop) → cconv s' = 1 →
  kept c ∧ stop = false ∧ cconv s = 1 ∧ 0 ≤ cj s < Z.of_nat (length (cdn s)) ∧
  s' = Conv (cp s + 1) (ci s - 1) (cj s + 1) (<[Z.to_nat (cj s) := c]> (cdn s)) 1.
Proof.
  intros Hb Hp Hc Hc0. assert (Hcb : 0 ≤ c < 256) by exact (Forall_lookup_1 _ _ _ _ Hb Hc).
  pose proof (byte_fact_true c Hcb) as H. apply bool_decide_eq_true in H as (_ & Hd & Hk & _).
  unfold conv_char, advance. rewrite (drop_S un c) by done. rewrite unix2doschr_cons by done. cbn [obind].
  rewrite has_flag_small, u8_small by done.
  assert (Ep : Z.of_nat (length un) - Z.of_nat (length (drop (S (Z.to_nat (cp s))) un)) = cp s + 1).
  { pose proof (lookup_lt_Some _ _ _ Hc). rewrite length_drop. lia. }
  rewrite Ep. replace (cp s + 1 - 1) with (cp s) by lia.
  assert (aget un (cp s) = Ok c) as -> by by apply aget_Ok. intros H H1.
  apply obind_Ok in H as (dn & Hdn & H). apply aset_Ok in Hdn as [Hj ->]. cbn [obind] in H.
  destruct (dos_char c =? 1) eqn:E1; bool_prop; [apply obind_Ok in H as (? & _ & [= <- <-]); done|].
  destruct (dos_char c =? 2) eqn:E2; bool_prop; [apply obind_Ok in H as (? & _ & [= <- <-]); done|].
  injection H as <- <-. cbn [cconv] in H1.
  destruct (negb (Z.land (dos_char c) 0x80 =? 0) || negb (c =? dos_char c)) eqn:E3.
  { unfold raise_conv in H1. by destruct (cconv s =? 3) eqn:E; bool_prop; cbn in H1; lia. }
  apply orb_false_iff in E3 as [E3 E4]. bool_prop. rewrite <- E4 in *.
  assert (c < 128).
  { destruct (decide (c < 128)); [done|]. exfalso. assert (Ht : Z.testbit (Z.land c 0x80) 7 = true).
    { rewrite Z.land_spec. change (Z.testbit 0x80 7) with true. rewrite andb_true_r, Z.testbit_true by lia.
      change (2 ^ 7) with 128. assert (c / 128 = 1) as -> by (Z.div_mod_to_equations; lia). done. }
    by rewrite E3, Z.testbit_0_l in Ht. }
  split; [|split; [done|split; [done|split; [done|by rewrite H1]]]].
  destruct Hk as [Hk1 Hk2]; try done; try lia.
Qed.

Lemma raise_conv_ne conv : raise_conv conv ≠ 1.
Proof. unfold raise_conv. destruct (conv =? 3) eqn:E; bool_prop; cbn; lia. Qed.

(** A change that is noticed stays noticed. *)
Lemma conv_char_mono lim un s s' stop : conv_char lim un s pmp = Ok (s', stop) → cconv s' = 1 → cconv s = 1.
Proof.
  unfold conv_char. intros H H1. apply obind_Ok in H as ([c [rest i]] & _ & H).
  destruct (has_flag c 0xff00).
  - apply obind_Ok in H as (dn & _ & H). destruct (cj s + 1 <? lim); apply obind_Ok in H as (dn' & _ & H); injection H as <- <-; cbn [cconv] in H1; [|done].
    by apply raise_conv_ne in H1.
  - apply obind_Ok in H as (dn & _ & H). apply obind_Ok in H as (prev & _ & H).
    destruct (u8 c =? 1); [apply obind_Ok in H as (? & _ & [= <- <-]); done|].
    destruct (u8 c =? 2); [apply obind_Ok in H as (? & _ & [= <- <-]); done|].
    injection H as <- <-. cbn [cconv] in H1. destruct (_ || _); [by apply raise_conv_ne in H1|done].
Qed.

Lemma conv_loop_mono fuel : ∀ base lim un s s', conv_loop fuel base lim un s pmp = Ok s' → cconv s' = 1 → cconv s = 1.
Proof.
  induction fuel as [|fuel IH]; intros base lim un s s' H H1; cbn [conv_loop] in H; case_test_in H; try done;
    try (by injection H as <-).
  apply obind_Ok in H as ([s1 stop] & Hs1 & H). apply (conv_char_mono _ _ _ _ _ Hs1).
  destruct stop; [by injection H as <-|]. by apply (IH _ _ _ _ _ H).
Qed.

(** Storing one byte before the others. *)
Lemma store_first (dn w : list Z) j k c : (j < length dn)%nat →
  take (j + 1) (<[j := c]> dn) ++ w ++ drop (j + 1 + k) (<[j := c]> dn) = take j dn ++ (c :: w) ++ drop (j + S k) dn.
Proof.
  intros Hj. rewrite (drop_insert_lt dn) by lia. replace (j + 1 + k)%nat with (j + S k)%nat by lia.
  rewrite (insert_take_drop dn j c Hj), take_app_add' by (rewrite length_take; lia). by rewrite <- app_assoc.
Qed.

(** A loop over characters, when the name is said to be unchanged afterwards. *)
Lemma conv_loop_kept fuel : ∀ base lim un s s', bytes un → (∀ i c, i < match base with Some dp => dp | None => cp s + ci s end → 0 ≤ i →
    un !! Z.to_nat i = Some c → 0 < c) →
  0 ≤ cp s → match base with Some dp => dp | None => cp s + ci s end ≤ Z.of_nat (length un) →
  cj s ≤ lim → conv_loop fuel base lim un s pmp = Ok s' → cconv s' = 1 →
  ∃ k : nat, cp s' = cp s + Z.of_nat k ∧ ci s' = ci s - Z.of_nat k ∧ cj s' = cj s + Z.of_nat k ∧ cconv s = 1 ∧
    Forall kept (slice un (cp s) k) ∧ length (slice un (cp s) k) = k ∧
    (k = 0%nat ∧ cdn s' = cdn s ∨
     0 ≤ cj s ∧ cdn s' = take (Z.to_nat (cj s)) (cdn s) ++ slice un (cp s) k ++ drop (Z.to_nat (cj s) + k) (cdn s)) ∧
    cj s' ≤ lim ∧ (cj s' = lim ∨ match base with Some dp => dp ≤ cp s' | None => ci s' ≤ 0 end) ∧
    cp s' ≤ Z.max (cp s) (match base with Some dp => dp | None => cp s + ci s end).
Proof.
  induction fuel as [|fuel IH]; intros base lim un s s' Hb Hpos Hp Hend Hlim H H1; cbn [conv_loop] in H;
    destruct (match base with Some dp => cp s <? dp | None => ci s >? 0 end && (cj s <? lim)) eqn:E; try done.
  1, 3: injection H as <-; exists 0%nat; rewrite !Z.add_0_r, Z.sub_0_r; split_and!; try done; [by left| |lia];
    apply andb_false_iff in E as [E|E]; [right; destruct base; bool_prop; lia|left; bool_prop; lia].
  apply andb_true_iff in E as [Em Ej]. apply obind_Ok in H as ([s1 stop] & Hs1 & H).
  assert (Hlt : cp s < match base with Some dp => dp | None => cp s + ci s end) by (destruct base; bool_prop; lia).
  destruct (lookup_lt_is_Some_2 un (Z.to_nat (cp s))) as [c Hc]; [lia|].
  assert (Hone : cconv s1 = 1 → _) by exact (conv_char_kept lim un s s1 stop c Hb Hp Hc (Hpos _ _ Hlt Hp Hc) Hs1).
  assert (Hs1c : cconv s1 = 1) by (destruct stop; [by injection H as <-|by apply (conv_loop_mono _ _ _ _ _ _ H)]).
  destruct (Hone Hs1c) as (Hk & -> & Hs & Hj & ->).
  cbn [fst] in *. bool_prop.
  destruct (IH base lim un (Conv (cp s + 1) (ci s - 1) (cj s + 1) (<[Z.to_nat (cj s) := c]> (cdn s)) 1) s' Hb)
    as (k & E1 & E2 & E3 & _ & Hkept & Hlen & Hdn & Hl & Hstop & Hmax); cbn [cp ci cj cdn cconv] in *; try done; try lia.
  - destruct base; [done|]. intros i d Hi. apply Hpos. lia.
  - destruct base; lia.
  - assert (cp s' ≤ Z.max (cp s) (match base with Some dp => dp | None => cp s + ci s end)) by (destruct base; lia).
    exists (S k). rewrite (slice_S un (cp s) k c) by done. split_and!; try lia; try done.
    + by apply Forall_cons.
    + cbn. by rewrite Hlen.
    + right. split; [lia|]. destruct Hdn as [[-> ->]|[_ ->]].
      * pose proof (store_first (cdn s) [] (Z.to_nat (cj s)) 0 c ltac:(lia)) as Hst. rewrite app_nil_l, Nat.add_0_r, take_drop in Hst. exact Hst.
      * replace (Z.to_nat (cj s + 1)) with (Z.to_nat (cj s) + 1)%nat by lia. apply store_first. lia.
Qed.


(** ** The extension and the end of the name *)

Definition skipped (c : Z) : Prop := c = 32 ∨ c = 46.

(** A pointer to the character after a dot. *)
Definition after_dot (un : list Z) (e : Z) : Prop := 2 ≤ e ∧ un !! Z.to_nat (e - 1) = Some 46.

(** What the search for the extension knows at position [p]. *)
Record ext_search (un : list Z) (p : Z) (dp dp1 : option Z) : Prop := {
  es_dp : ∀ e, dp = Some e → after_dot un e ∧ e < p;
  es_dp1 : ∀ q, dp1 = Some q → after_dot un q ∧ q ≤ p ∧ ∀ e, dp = Some e → e < q
}.

Lemma find_ext_spec k : ∀ un p dp dp1 r, 1 ≤ p → ext_search un p dp dp1 → find_ext k un p dp dp1 = Ok r →
  ext_search un (p + Z.of_nat k) r.1 r.2.
Proof.
  induction k as [|k IH]; intros un p dp dp1 r Hp Hs H; cbn [find_ext] in H.
  { injection H as <-. by rewrite Z.add_0_r. }
  apply obind_Ok in H as (c & Hc & H). apply aget_Ok in Hc as [_ Hc]. destruct Hs as [H1 H2].
  replace (p + Z.of_nat (S k)) with (p + 1 + Z.of_nat k) by lia.
  case_test_in H; bool_prop; [|case_test_in H; bool_prop]; (eapply IH in H; [exact H|lia|]); split.
  - intros e He. destruct (H1 e He). split; [done|lia].
  - intros q Hq. destruct dp1 as [q'|].
    + injection Hq as <-. destruct (H2 q' eq_refl) as (? & ? & ?). split; [done|]. split; [lia|done].
    + injection Hq as <-. subst c. split; [split; [lia|by replace (p + 1 - 1) with p by lia]|]. split; [lia|].
      intros e He. destruct (H1 e He). lia.
  - intros e He. destruct (H1 e He). split; [done|lia].
  - intros q Hq. destruct (H2 q Hq) as (? & ? & ?). split; [done|]. split; [lia|done].
  - intros e He. destruct dp1 as [q|].
    + injection He as <-. destruct (H2 q eq_refl) as (? & ? & ?). split; [done|lia].
    + destruct (H1 e He). split; [done|lia].
  - done.
Qed.

Lemma trim_back_spec fuel : ∀ un p t, trim_back fuel un p = Ok t →
  1 ≤ t ≤ p ∧ (∀ i c, t ≤ i < p → un !! Z.to_nat i = Some c → skipped c) ∧
  ∃ c, un !! Z.to_nat (t - 1) = Some c ∧ ¬ skipped c.
Proof.
  induction fuel as [|fuel IH]; intros un p t H; [done|]. cbn [trim_back] in H.
  apply obind_Ok in H as (c & Hc & H). apply aget_Ok in Hc as [Hp Hc]. destruct ((c =? 32) || (c =? 46)) eqn:E.
  - apply IH in H as (Ht & Hs & Hl). split; [lia|]. split; [|done]. intros i d Hi Hd.
    destruct (decide (i = p - 1)) as [->|]; [|apply (Hs i); [lia|done]]. rewrite Hc in Hd. injection Hd as <-.
    apply orb_true_iff in E as [E|E]; apply Z.eqb_eq in E; [by left|by right].
  - injection H as <-. apply orb_false_iff in E as [E1 E2]. bool_prop. split; [lia|]. split; [intros; lia|].
    exists c. replace (p - 1 + 1 - 1) with (p - 1) by lia. split; [done|]. by intros [?|?].
Qed.

(** The length without trailing blanks and dots. *)
Lemma winLenFixup_spec un t p : 1 ≤ t ≤ p → p ≤ Z.of_nat (length un) →
  (∀ i c, t ≤ i < p → un !! Z.to_nat i = Some c → skipped c) →
  (∃ c, un !! Z.to_nat (t - 1) = Some c ∧ ¬ skipped c) → winLenFixup un p = Ok t.
Proof.
  intros Ht Hp Hs (cl & Hcl & Hnl). unfold winLenFixup. revert Ht Hp Hs. generalize (eq_refl (Z.to_nat p)). generalize (Z.to_nat p) at -2.
  intros k. revert p. induction k as [|k IH]; intros p Hk Ht Hp Hs; [lia|]. cbn [winLenFixup_loop].
  destruct (lookup_lt_is_Some_2 un (Z.to_nat (p - 1))) as [c Hc]; [lia|].
  assert (aget un (p - 1) = Ok c) as -> by (apply aget_Ok; split; [lia|done]). cbn [obind].
  destruct (decide (t = p)) as [->|].
  - rewrite Hc in Hcl. injection Hcl as ->.
    destruct (Z.eqb_spec cl 32); [by destruct Hnl; left|]. by destruct (Z.eqb_spec cl 46); [destruct Hnl; right|].
  - assert (Hsk : skipped c) by (apply (Hs (p - 1)); [lia|done]).
    replace (negb (c =? 32) && negb (c =? 46)) with false by (destruct Hsk as [-> | ->]; done).
    apply IH; [lia|lia|lia|]. intros i d Hi. apply Hs. lia.
Qed.

(** ** The whole name *)

Definition dn0 : list Z := replicate 11 32 ++ [0].

(** The outcome of the conversion of an extension that keeps it: either the
    rest of the name is an extension, or only blanks and dots. *)
Lemma convert_ext_kept un unlen dp dn : bytes un → (∀ i c, 0 ≤ i < unlen → un !! Z.to_nat i = Some c → 0 < c) →
  0 < unlen ≤ Z.of_nat (length un) → convert_ext un unlen dn0 pmp = Ok (dp, dn, 1) →
  ∃ ext, Forall kept ext ∧ (length ext ≤ 3)%nat ∧ 1 ≤ dp ∧ dn = take 8 dn0 ++ ext ++ drop (8 + length ext) dn0 ∧
    ((1 ≤ length ext)%nat ∧ dp + 1 + Z.of_nat (length ext) = unlen ∧ un !! Z.to_nat dp = Some 46 ∧
       ext = slice un (dp + 1) (length ext) ∨
     ext = [] ∧ dp ≤ unlen ∧ (∀ i c, dp ≤ i < unlen → un !! Z.to_nat i = Some c → skipped c) ∧
       ∃ c, un !! Z.to_nat (dp - 1) = Some c ∧ ¬ skipped c).
Proof.
  intros Hb Hpos Hun H. unfold convert_ext in H. apply obind_Ok in H as ([e e1] & He & H).
  apply find_ext_spec in He; [|lia|by split]. replace (1 + Z.of_nat (Z.to_nat (unlen - 1))) with unlen in He by lia.
  destruct He as [H1 H2]. cbn [fst snd] in *. destruct e as [e|].
  - destruct (H1 e eq_refl) as [[He2 Hdot] Heu]. apply obind_Ok in H as (s & Hs & H). injection H as <- <- H.
    set (l := match e1 with Some dp1 => dp1 - e | None => unlen - e end) in *.
    assert (Hl : 1 ≤ l ≤ unlen - e).
    { unfold l. destruct e1 as [q|]; [|lia]. destruct (H2 q eq_refl) as (_ & ? & Hq). specialize (Hq e eq_refl). lia. }
    case_test_in H; [done|]. bool_prop.
    destruct (conv_loop_kept (Z.to_nat unlen) None 11 un (Conv e l 8 dn0 1) s Hb) as
      (k & E1 & E2 & E3 & _ & Hk & Hlen & Hdn & Hj & _ & Hmax); cbn [cp ci cj cdn cconv] in *; try done; try lia.
    { intros i c Hi Hi0. apply Hpos. lia. }
    assert (Hkl : Z.of_nat k = l) by lia. exists (slice un e k). rewrite Hlen. split; [done|]. split; [lia|]. split; [lia|].
    split; [destruct Hdn as [[-> _]|[_ ->]]; [lia|done]|]. left. split; [lia|].
    assert (Hl2 : l = unlen - e).
    { unfold l in *. destruct e1 as [q|]; [|done]. destruct (H2 q eq_refl) as ([_ Hq46] & Hqu & Hq). specialize (Hq e eq_refl).
      exfalso. rewrite Forall_lookup in Hk. destruct (Hk (k - 1)%nat 46) as (_ & _ & Hne); [|done].
      unfold slice. rewrite lookup_take_lt by lia. rewrite lookup_drop. rewrite <- Hq46. f_equal. lia. }
    split; [lia|]. split; [done|]. by replace (e - 1 + 1) with e by lia.
  - apply obind_Ok in H as (t & Ht & H). injection H as <- <-. apply trim_back_spec in Ht as (Ht & Hs & Hl).
    exists []. split; [done|]. split; [cbn; lia|]. split; [lia|]. split; [done|]. right. split; [done|]. split; [lia|done].
Qed.

Lemma finish_dosfn_conv conv dn r dn' : finish_dosfn conv dn = Ok (r, dn') → r = conv.
Proof. unfold finish_dosfn. intros H. apply obind_Ok in H as (? & _ & H). apply obind_Ok in H as (? & _ & H). by injection H. Qed.

Lemma insert_gen_conv dn unlen gen r dn' : insert_gen dn unlen gen pmp = Ok (r, dn') → r ≠ 1.
Proof.
  unfold insert_gen. intros H. destruct (gen_digits 6 gen []) as [digits rest].
  case_test_in H; [apply finish_dosfn_conv in H; by rewrite H|].
  apply obind_Ok in H as (? & _ & H). apply obind_Ok in H as ([? ?] & _ & H). apply obind_Ok in H as ([? ?] & _ & H).
  apply finish_dosfn_conv in H. by rewrite H.
Qed.

Lemma convert_base_inv un unlen gen dp dn conv r : convert_base un unlen gen dp dn conv pmp = Ok (1, r) →
  ∃ s dn', conv_loop (Z.to_nat unlen) (Some dp) 8 un (Conv 0 dp 0 dn conv) pmp = Ok s ∧ cconv s = 1 ∧ dp ≤ cp s ∧
    (if cj s =? 0 then aset (cdn s) 0 95 else Ok (cdn s)) = Ok dn' ∧ finish_dosfn 1 dn' = Ok (1, r).
Proof.
  intros H. unfold convert_base in H. apply obind_Ok in H as (s & Hs & H). apply obind_Ok in H as (dn' & Hdn' & H).
  exists s, dn'. split; [done|]. set (conv' := if cp s <? dp then 3 else cconv s) in *.
  assert (Hc : conv' = 1 ∧ finish_dosfn 1 dn' = Ok (1, r)).
  { destruct (conv' =? 3) eqn:E3; bool_prop; cbn [negb] in H.
    - case_test_in H; [|by apply insert_gen_conv in H]. pose proof (finish_dosfn_conv _ _ _ _ H). lia.
    - pose proof (finish_dosfn_conv _ _ _ _ H) as Er. destruct (gen >? 1); [done|]. by rewrite <- Er in *. }
  destruct Hc as [Hc Hf]. unfold conv' in Hc. case_test_in Hc; [done|]. by bool_prop.
Qed.

Lemma convert_base_kept un unlen gen dp dn r : bytes un → (∀ i c, 0 ≤ i < unlen → un !! Z.to_nat i = Some c → 0 < c) →
  1 ≤ dp ≤ unlen → unlen ≤ Z.of_nat (length un) → convert_base un unlen gen dp dn 1 pmp = Ok (1, r) →
  (1 ≤ Z.to_nat dp ≤ 8)%nat ∧ Forall kept (slice un 0 (Z.to_nat dp)) ∧ length (slice un 0 (Z.to_nat dp)) = Z.to_nat dp ∧
  r = slice un 0 (Z.to_nat dp) ++ drop (Z.to_nat dp) dn.
Proof.
  intros Hb Hpos Hdp Hun H. apply convert_base_inv in H as (s & dn' & Hs & Hc & E & Hdn' & Hf).
  destruct (conv_loop_kept (Z.to_nat unlen) (Some dp) 8 un (Conv 0 dp 0 dn 1) s Hb) as
    (k & E1 & E2 & E3 & _ & Hk & Hlen & Hdn & Hj & _ & Hmax); cbn [cp ci cj cdn cconv] in *; try done; try lia.
  { intros i c Hi Hi0. apply Hpos. lia. }
  assert (k = Z.to_nat dp) as -> by lia. split; [lia|]. split; [done|]. split; [done|].
  destruct (cj s =? 0) eqn:E0; bool_prop; [lia|]. injection Hdn' as <-.
  destruct Hdn as [[? _]|[_ Hdn]]; [lia|]. change (Z.to_nat 0) with 0%nat in Hdn. cbn [take app Nat.add] in Hdn. rewrite Hdn in Hf.
  unfold finish_dosfn in Hf. apply obind_Ok in Hf as (c & Hc0 & Hf). apply obind_Ok in Hf as (dn2 & Hd2 & Hf). injection Hf as <-.
  destruct (slice un 0 (Z.to_nat dp)) as [|x w] eqn:Ew; [cbn in Hlen; lia|]. injection Hc0 as <-.
  apply Forall_cons in Hk as [[Hx _] _]. destruct (x =? 0xe5) eqn:Ex; bool_prop; [lia|]. by injection Hd2 as <-.
Qed.


(** What is kept of a name: everything for the two directory names, else
    everything but trailing blanks and dots. *)
Definition kept_length (un : list Z) (unlen l : Z) : Prop :=
  (un !! 0%nat = Some 46 ∧ (unlen = 1 ∨ unlen = 2 ∧ un !! 1%nat = Some 46) ∧ l = unlen) ∨ winLenFixup un unlen = Ok l.

Lemma take_take_app un (k l : nat) c : un !! k = Some c →
  take (k + 1 + l) un = take k un ++ c :: slice un (Z.of_nat k + 1) l.
Proof.
  intros Hc. unfold slice. replace (Z.to_nat (Z.of_nat k + 1)) with (S k) by lia.
  rewrite <- (take_drop k (take (k + 1 + l) un)) at 1. rewrite take_take, Nat.min_l by lia. f_equal.
  replace (k + 1 + l)%nat with (k + S l)%nat by lia. rewrite <- take_drop_commute. by rewrite (drop_S un c).
Qed.

Lemma unix2dosfn_kept un unlen gen dn : bytes un → (∀ i c, 0 ≤ i < unlen → un !! Z.to_nat i = Some c → 0 < c) →
  0 < unlen ≤ Z.of_nat (length un) → unix2dosfn un unlen gen pmp = Ok (1, dn) →
  ∃ l, kept_length un unlen l ∧ 0 < l ≤ unlen ∧ dos2unixfn dn 0 pmp = Ok (dn, slice un 0 (Z.to_nat l) ++ [0], 1 + l).
Proof.
  intros Hb Hpos Hun H. unfold unix2dosfn in H. fold dn0 in H. apply obind_Ok in H as (u0 & Hu0 & H). apply aget_Ok in Hu0 as [_ Hu0].
  change (Z.to_nat 0) with 0%nat in Hu0. case_test_in H.
  { apply andb_true_iff in E as [E1 E2]. bool_prop. subst u0 unlen. cbn [obind] in H. injection H as H <-.
    exists 1. split; [by left; auto|]. split; [lia|]. unfold slice. cbn [Z.to_nat Pos.to_nat]. change (Pos.to_nat 1) with 1%nat.
    destruct un as [|x un]; [done|]. injection Hu0 as ->. unfold dos2unixfn, copy_part, dos2unixchr. rewrite plain. vm_compute. reflexivity. }
  apply obind_Ok in H as (u1 & Hu1 & H). case_test_in H.
  { apply andb_true_iff in E0 as [E0 E2]. apply andb_true_iff in E0 as [E0 E1]. bool_prop. subst u0 u1 unlen. cbn [obind] in H.
    apply aget_Ok in Hu1 as [_ Hu1]. injection H as H <-.
    exists 2. split; [by left; auto|]. split; [lia|]. unfold slice. cbn [Z.to_nat Pos.to_nat]. change (Pos.to_nat 2) with 2%nat.
    destruct un as [|x [|y un]]; try done. injection Hu0 as ->. injection Hu1 as ->.
    unfold dos2unixfn, copy_part, dos2unixchr. rewrite plain. vm_compute. reflexivity. }
  apply obind_Ok in H as (some & _ & H). case_test_in H; [done|]. apply obind_Ok in H as (allowed & _ & H). case_test_in H; [done|].
  apply obind_Ok in H as ([[dp dn1] conv] & Hext & H).
  assert (conv = 1) as ->.
  { apply convert_base_inv in H as (s & dn' & Hs & Hc & _). exact (conv_loop_mono _ _ _ _ _ _ Hs Hc). }
  destruct (convert_ext_kept un unlen dp dn1 Hb Hpos Hun Hext) as (ext & Hek & Hel & Hdp & -> & Hcase).
  apply convert_base_kept in H as (Hl & Hbase & Hbl & ->); [|done|done|destruct Hcase; lia|lia].
  set (base := slice un 0 (Z.to_nat dp)) in *.
  assert (Hshort : base ++ drop (Z.to_nat dp) (take 8 dn0 ++ ext ++ drop (8 + length ext) dn0) = short_name base ext).
  { unfold short_name. rewrite Hbl. f_equal. rewrite drop_app_le by (cbn; lia). unfold dn0.
    assert (Hx : ∀ k m : nat, (k ≤ 8)%nat → (m ≤ 3)%nat → drop k (take 8 (replicate 11 32 ++ [0])) = replicate (8 - k) 32 ∧
      drop (8 + m) (replicate 11 32 ++ [0]) = replicate (3 - m) 32 ++ [0]).
    { intros k m Hk Hm. split; [do 9 (destruct k as [|k]; [done|])|do 4 (destruct m as [|m]; [done|])]; lia. }
    destruct (Hx (Z.to_nat dp) (length ext)) as [-> ->]; [lia|lia|done]. }
  rewrite Hshort. rewrite (dos2unixfn_short base ext); [| | |lia|lia].
  2, 3: eapply Forall_impl; [eassumption|by intros c [? _]].
  destruct Hcase as [(Hn & Eu & Hdot & Eext)|(-> & Hdu & Hsk & Hlast)].
  - exists unlen. split; [right|].
    + apply winLenFixup_spec; [lia|lia|intros; lia|].
      destruct (lookup_lt_is_Some_2 un (Z.to_nat (unlen - 1))) as [c Hc]; [lia|]. exists c. split; [done|].
      rewrite Forall_lookup in Hek. assert (Hkc : kept c); [|by destruct Hkc as (? & _ & ?); intros [?|?]; lia].
      apply (Hek (length ext - 1)%nat). transitivity (slice un (dp + 1) (length ext) !! (length ext - 1)%nat); [by rewrite <- Eext|]. unfold slice. rewrite lookup_take_lt by lia. rewrite lookup_drop, <- Hc. f_equal. lia.
    + split; [lia|]. destruct ext as [|e0 er] eqn:Ee; [cbn in Hn; lia|]. rewrite <- Ee in *.
      assert (Es : base ++ 46 :: ext = slice un 0 (Z.to_nat unlen)).
      { rewrite Eext at 1. unfold base, slice at 1 3. change (Z.to_nat 0) with 0%nat. cbn [drop].
        replace (Z.to_nat unlen) with (Z.to_nat dp + 1 + length ext)%nat by lia. rewrite (take_take_app un _ _ 46 Hdot).
        do 2 f_equal. by replace (Z.of_nat (Z.to_nat dp)) with dp by lia. }
      rewrite app_assoc, Es. f_equal. f_equal. rewrite <- Es, length_app. cbn [length]. lia.
  - exists dp. split; [right; apply winLenFixup_spec; [lia|lia|done|done]|]. split; [lia|].
    rewrite app_nil_r, Hbl. f_equal. f_equal. lia.
Qed.

End plain.


(** C35: on a mount without character set conversion, a name of which
    [unix2dosfn] says that its short form is the same (it answers 1) is read
    back from that form by [dos2unixfn], called without flags for lower case,
    but for trailing blanks and dots; the number that is returned counts the
    terminating zero. *)
Theorem dosfn_roundtrip pmp un unlen gen dn : kiconv pmp = None → bytes un →
  (∀ i c, 0 ≤ i < unlen → un !! Z.to_nat i = Some c → 0 < c) → 0 < unlen ≤ Z.of_nat (length un) →
  unix2dosfn un unlen gen pmp = Ok (1, dn) →
  ∃ l, kept_length un unlen l ∧ 0 < l ≤ unlen ∧ dos2unixfn dn 0 pmp = Ok (dn, slice un 0 (Z.to_nat l) ++ [0], 1 + l).
Proof. intros Hp. by apply unix2dosfn_kept. Qed.

(** "KERNEL.OLD". *)
Lemma dosfn_roundtrip_witness :
  let un := [75; 69; 82; 78; 69; 76; 46; 79; 76; 68; 0] in
  let dn := [75; 69; 82; 78; 69; 76; 32; 32; 79; 76; 68; 0] in
  unix2dosfn un 10 1 (Mount 0 None) = Ok (1, dn) ∧
  ∃ l, kept_length un 10 l ∧ 0 < l ≤ 10 ∧ dos2unixfn dn 0 (Mount 0 None) = Ok (dn, slice un 0 (Z.to_nat l) ++ [0], 1 + l).
Proof.
  split; [reflexivity|].
  apply (dosfn_roundtrip (Mount 0 None) [75; 69; 82; 78; 69; 76; 46; 79; 76; 68; 0] 10 1); [reflexivity|by_decide| |by_decide|reflexivity].
  intros i c Hi. assert (Hin : Forall (λ k, default 1 ([75; 69; 82; 78; 69; 76; 46; 79; 76; 68; 0] !! k) > 0) (seq 0 10)) by by_decide.
  rewrite Forall_forall in Hin. intros Hc. specialize (Hin (Z.to_nat i)). rewrite Hc in Hin. cbn in Hin. apply Z.gt_lt, Hin.
  change (Z.to_nat i ∈ seq 0 10). apply elem_of_seq. lia.
Defined.

End MsdosShort.
