(* ===== verification/MsdosType.v ===== *)
(** What [unix2dosfn] makes of any name, without a character set table: it
    always comes to an end inside its arrays, and what it stores is a short
    name the format allows. *)

From stdpp Require Import base list.
From S2P Require Import Prelude MsdosName MsdosNameTheory MsdosShort.

Module MsdosType.
Import MsdosName MsdosNameTheory MsdosShort.

(** A character the format allows in a short name, blanks apart. *)
Definition short_char (c : Z) : Prop :=
  33 ≤ c < 256 ∧ c ∉ [34; 42; 43; 44; 46; 47; 58; 59; 60; 61; 62; 63; 91; 92; 93; 124; 127] ∧ ¬ (97 ≤ c ≤ 122).
#[export] Instance short_char_dec c : Decision (short_char c).
Proof. unfold short_char. apply _. Defined.

(** The array of a short name under construction. *)
Record dos_array (dn : list Z) : Prop := {
  da_length : length dn = 12%nat;
  da_end : dn !! 11%nat = Some 0;
  da_chars : ∀ k c, (k < 11)%nat → dn !! k = Some c → c = 32 ∨ short_char c
}.

(** A short name: its first byte is not the mark of a deleted slot, 0xe5, for
    which [SLOT_E5] stands. *)
Record dos_slot (dn : list Z) : Prop := {
  ds_length : length dn = 12%nat;
  ds_end : dn !! 11%nat = Some 0;
  ds_first : ∃ c, dn !! 0%nat = Some c ∧ c ≠ 0xe5 ∧ (c = 32 ∨ c = SLOT_E5 ∨ short_char c);
  ds_chars : ∀ k c, (0 < k < 11)%nat → dn !! k = Some c → c = 32 ∨ short_char c
}.

Lemma dos_char_short c : 0 ≤ c < 256 → dos_char c ≠ 0 →
  (dos_char c = 1 ∨ dos_char c = 2 ∨ short_char (dos_char c)) ∧ 0 ≤ dos_char c < 256.
Proof.
  intros Hc H0.
  assert (H : Forall (λ c, bool_decide (dos_char c = 0 ∨ ((dos_char c = 1 ∨ dos_char c = 2 ∨ short_char (dos_char c)) ∧ 0 ≤ dos_char c < 256)) = true)
    (Z.of_nat <$> seq 0 256)).
  { apply Forall_forall. intros x Hx. assert (E : forallb (λ c, bool_decide (dos_char c = 0 ∨
      ((dos_char c = 1 ∨ dos_char c = 2 ∨ short_char (dos_char c)) ∧ 0 ≤ dos_char c < 256))) (Z.of_nat <$> seq 0 256) = true) by by vm_compute.
    rewrite forallb_forall in E. apply E. by apply list_elem_of_In. }
  rewrite Forall_forall in H. specialize (H c). rewrite bool_decide_eq_true in H. destruct H as [?|?]; [|done|done].
  apply list_elem_of_fmap. exists (Z.to_nat c). split; [lia|]. apply elem_of_seq. lia.
Qed.

Lemma dos_array_lookup dn i : dos_array dn → 0 ≤ i < 12 → ∃ c, dn !! Z.to_nat i = Some c ∧ aget dn i = Ok c.
Proof.
  intros [Hl _ _] Hi. destruct (lookup_lt_is_Some_2 dn (Z.to_nat i)) as [c Hc]; [lia|]. exists c. split; [done|].
  apply aget_Ok. split; [lia|done].
Qed.

Lemma dos_array_set dn i c : dos_array dn → 0 ≤ i < 11 → c = 32 ∨ short_char c →
  ∃ dn', aset dn i c = Ok dn' ∧ dos_array dn' ∧ dn' !! Z.to_nat i = Some c ∧ ∀ k, k ≠ Z.to_nat i → dn' !! k = dn !! k.
Proof.
  intros [Hl He Hch] Hi Hc. exists (<[Z.to_nat i := c]> dn). split; [apply aset_Ok; split; [lia|done]|]. split; [split|split].
  - by rewrite length_insert.
  - by rewrite list_lookup_insert_ne by lia.
  - intros k d Hk. destruct (decide (k = Z.to_nat i)) as [->|].
    + rewrite list_lookup_insert_eq by lia. by intros [= <-].
    + rewrite list_lookup_insert_ne by done. by apply Hch.
  - by rewrite list_lookup_insert_eq by lia.
  - intros k Hk. by rewrite list_lookup_insert_ne.
Qed.

Lemma dos_array0 : dos_array dn0.
Proof.
  split; [done|done|]. intros k c Hk H. left. unfold dn0 in H. rewrite lookup_app_l in H by (rewrite length_replicate; lia).
  by apply lookup_replicate in H as [-> _].
Qed.

Section plain.
Variable pmp : msdosfsmount.
Hypothesis plain : kiconv pmp = None.

(** ** The tests of the name *)

Lemma has_char_spec k : ∀ un, (k ≤ length un)%nat →
  ∃ b, has_char k un = Ok b ∧ (b = true → ∃ i c, (i < k)%nat ∧ un !! i = Some c ∧ ¬ skipped c).
Proof.
  induction k as [|k IH]; intros un Hk; [by exists false|]. destruct un as [|c un]; cbn [length] in Hk; [lia|]. cbn [has_char].
  rewrite aget_cons. cbn [obind]. case_test.
  - exists true. split; [done|]. intros _. exists 0%nat, c. split; [lia|]. split; [done|].
    apply andb_true_iff in E as [E1 E2]. bool_prop. by intros [?|?].
  - destruct (IH un ltac:(lia)) as (b & Hb & H). exists b. split; [done|]. intros ->. destruct (H eq_refl) as (i & d & ? & ? & ?).
    exists (S i), d. split; [lia|done].
Qed.

Lemma all_allowed_spec fuel : ∀ un i, bytes un → 0 ≤ i → (Z.to_nat i ≤ fuel)%nat → i ≤ Z.of_nat (length un) →
  ∃ b, all_allowed fuel un i pmp = Ok b ∧ (b = true → ∀ k c, (k < Z.to_nat i)%nat → un !! k = Some c → dos_char c ≠ 0).
Proof.
  induction fuel as [|fuel IH]; intros un i Hb Hi Hf Hl; cbn [all_allowed]; case_test; bool_prop; try lia; try (exists true; split; [done|lia]).
  destruct un as [|c un]; cbn [length] in Hl; [lia|]. apply Forall_cons in Hb as [Hc Hb]. rewrite unix2doschr_cons by done. cbn [obind].
  case_test; bool_prop; [by exists false|]. destruct (IH un (i - 1) Hb) as (b & Hr & H); [lia..|]. exists b. split; [done|].
  intros -> k d Hk. destruct k as [|k]; [by intros [= ->]|]. apply H; [done|lia].
Qed.

(** ** The search for the extension *)

Lemma find_ext_total k : ∀ un p dp dp1, 0 ≤ p → p + Z.of_nat k ≤ Z.of_nat (length un) → ∃ r, find_ext k un p dp dp1 = Ok r.
Proof.
  induction k as [|k IH]; intros un p dp dp1 Hp Hl; [by eexists|]. cbn [find_ext].
  destruct (lookup_lt_is_Some_2 un (Z.to_nat p)) as [c Hc]; [lia|].
  assert (aget un p = Ok c) as -> by (apply aget_Ok; split; [lia|done]). cbn [obind].
  destruct (c =? 46); [|destruct (c =? 32)]; apply IH; lia.
Qed.

Lemma trim_back_total fuel : ∀ un p i c, (Z.to_nat p ≤ fuel)%nat → p ≤ Z.of_nat (length un) → Z.of_nat i < p →
  un !! i = Some c → ¬ skipped c → ∃ t, trim_back fuel un p = Ok t.
Proof.
  induction fuel as [|fuel IH]; intros un p i c Hf Hl Hi Hc Hn; [lia|]. cbn [trim_back].
  destruct (lookup_lt_is_Some_2 un (Z.to_nat (p - 1))) as [d Hd]; [lia|].
  assert (aget un (p - 1) = Ok d) as -> by (apply aget_Ok; split; [lia|done]). cbn [obind].
  case_test; [|by eexists]. apply (IH un (p - 1) i c); try done; try lia. apply orb_true_iff in E.
  assert (Z.of_nat i ≠ p - 1); [|lia]. intros Ei. replace (Z.to_nat (p - 1)) with i in Hd by lia. rewrite Hc in Hd. injection Hd as ->.
  apply Hn. destruct E as [E|E]; bool_prop; [by left|by right].
Qed.

(** ** The conversion of a part *)

(** The state of the conversion of a part that starts at [lo] and has to stay
    below [lim]: the first character that is stored is not a blank. *)
Record conv_typed (lo lim : Z) (s : conv_state) : Prop := {
  ct_cp : 0 ≤ cp s;
  ct_cj : lo ≤ cj s ≤ lim;
  ct_dn : dos_array (cdn s);
  ct_conv : 1 ≤ cconv s ≤ 3;
  ct_first : lo < cj s → cdn s !! Z.to_nat lo ≠ Some 32
}.

Lemma raise_conv_range conv : 1 ≤ conv ≤ 3 → 1 ≤ raise_conv conv ≤ 3.
Proof. unfold raise_conv. destruct (conv =? 3); cbn; lia. Qed.

Lemma conv_char_typed lo lim un s c : bytes un → 0 ≤ lo → lim ≤ 11 → conv_typed lo lim s → cj s < lim →
  un !! Z.to_nat (cp s) = Some c → dos_char c ≠ 0 →
  ∃ s', conv_char lim un s pmp = Ok (s', false) ∧ conv_typed lo lim s' ∧ cp s' = cp s + 1 ∧ ci s' = ci s - 1 ∧
    (∀ k, (k < Z.to_nat lo)%nat → cdn s' !! k = cdn s !! k).
Proof.
  intros Hb Hlo Hlim [Hp Hj Hdn Hconv Hfirst] Hjl Hc H0.
  assert (Hcb : 0 ≤ c < 256) by exact (Forall_lookup_1 _ _ _ _ Hb Hc). destruct (dos_char_short c Hcb H0) as [Hsh Hd].
  unfold conv_char, advance. rewrite (drop_S un c) by done. rewrite unix2doschr_cons by done. cbn [obind].
  rewrite has_flag_small, u8_small by done.
  assert (Z.of_nat (length un) - Z.of_nat (length (drop (S (Z.to_nat (cp s))) un)) = cp s + 1) as ->.
  { pose proof (lookup_lt_Some _ _ _ Hc). rewrite length_drop. lia. }
  replace (cp s + 1 - 1) with (cp s) by lia. assert (aget un (cp s) = Ok c) as -> by by apply aget_Ok.
  rewrite (proj2 (aset_Ok _ _ _ _)) by (split; [destruct Hdn; lia|reflexivity]). cbn [obind].
  set (r := if negb _ || _ then _ else _).
  assert (Hr : 1 ≤ r ≤ 3) by (unfold r; case_test; [by apply raise_conv_range|done]). clearbody r.
  assert (Hset : ∀ x, x = 32 ∨ short_char x → let dn' := <[Z.to_nat (cj s) := x]> (cdn s) in
    dos_array dn' ∧ (∀ k, (k < Z.to_nat lo)%nat → dn' !! k = cdn s !! k) ∧ (x ≠ 32 → dn' !! Z.to_nat lo ≠ Some 32 ∨ lo < cj s) ∧
    (lo < cj s → dn' !! Z.to_nat lo ≠ Some 32)).
  { intros x Hx dn'. destruct (dos_array_set (cdn s) (cj s) x Hdn ltac:(lia) Hx) as (d & Ed & Hda & Hdl & Hdk).
    apply aset_Ok in Ed as [_ ->]. fold dn' in Hda, Hdl, Hdk. split; [done|]. split; [intros k Hk; apply Hdk; lia|].
    split; [|intros Hlt; rewrite Hdk by lia; by apply Hfirst].
    intros Hx32. destruct (decide (lo = cj s)) as [->|]; [left; rewrite Hdl; by intros [= ->]|right; lia]. }
  assert (Hok : ∀ x j r', x = 32 ∨ short_char x → 1 ≤ r' ≤ 3 → (x = 32 ∧ j = cj s ∨ x ≠ 32 ∧ j = cj s + 1) →
    conv_typed lo lim (Conv (cp s + 1) (ci s - 1) j (<[Z.to_nat (cj s) := x]> (cdn s)) r')).
  { intros x j r' Hx Hr' Hxj. destruct (Hset x Hx) as (H1 & H2 & H3 & H4). split; cbn [cp cj cdn cconv]; try done; try lia.
    intros Hlt. destruct Hxj as [[-> ->]|[Hx32 ->]]; [by apply H4|]. destruct (H3 Hx32); [done|by apply H4]. }
  destruct (dos_char c =? 1) eqn:E1; [|destruct (dos_char c =? 2) eqn:E2]; bool_prop.
  - rewrite (proj2 (aset_Ok _ _ _ _)) by (split; [rewrite length_insert; destruct Hdn; lia|reflexivity]). cbn [obind].
    rewrite list_insert_insert_eq. eexists. split; [done|]. cbn [cp ci cdn].
    split; [apply Hok; [right; by_decide|lia|right; split; [done|reflexivity]]|]. split; [done|]. split; [done|]. apply (Hset 95). right. by_decide.
  - rewrite (proj2 (aset_Ok _ _ _ _)) by (split; [rewrite length_insert; destruct Hdn; lia|reflexivity]). cbn [obind].
    rewrite list_insert_insert_eq. eexists. split; [done|]. cbn [cp ci cdn].
    split; [apply Hok; [by left|lia|left; lia]|]. split; [done|]. split; [done|]. apply (Hset 32). by left.
  - destruct Hsh as [?|[?|Hsh]]; [done..|]. eexists. split; [done|]. cbn [cp ci cdn].
    split; [apply Hok; [by right|done|right; destruct Hsh; lia]|]. split; [done|]. split; [done|]. apply Hset. by right.
Qed.


(** The loop over a part comes to an end and keeps the array typed; what is
    before the part does not change. *)
Lemma conv_loop_typed fuel : ∀ base lo lim un s, bytes un → 0 ≤ lo → lim ≤ 11 → conv_typed lo lim s →
  let end_ := match base with Some dp => dp | None => cp s + ci s end in
  end_ ≤ Z.of_nat (length un) → end_ - cp s ≤ Z.of_nat fuel →
  (∀ i c, 0 ≤ i < end_ → un !! Z.to_nat i = Some c → dos_char c ≠ 0) →
  ∃ s', conv_loop fuel base lim un s pmp = Ok s' ∧ conv_typed lo lim s' ∧
    (∀ k, (k < Z.to_nat lo)%nat → cdn s' !! k = cdn s !! k).
Proof.
  induction fuel as [|fuel IH]; intros base lo lim un s Hb Hlo Hlim Hs end_ Hend Hf Hall; cbn [conv_loop];
    destruct (match base with Some dp => cp s <? dp | None => ci s >? 0 end && (cj s <? lim)) eqn:E; try (by exists s).
  all: apply andb_true_iff in E as [Em Ej]; assert (Hlt : cp s < end_) by (unfold end_; destruct base; bool_prop; lia).
  1: lia.
  assert (Ee0 : end_ = match base with Some dp => dp | None => cp s + ci s end) by done. clearbody end_.
  pose proof (ct_cp _ _ _ Hs) as Hp. destruct (lookup_lt_is_Some_2 un (Z.to_nat (cp s))) as [c Hc]; [lia|]. bool_prop.
  destruct (conv_char_typed lo lim un s c Hb Hlo Hlim Hs Ej Hc (Hall (cp s) c ltac:(lia) Hc)) as (s1 & -> & Hs1 & Ep & Ei & Hk). cbn [obind].
  assert (Ee : match base with Some dp => dp | None => cp s1 + ci s1 end = end_) by (rewrite Ee0; destruct base; lia).
  destruct (IH base lo lim un s1 Hb Hlo Hlim Hs1) as (s' & E' & Hs' & Hk'); [rewrite Ee; lia|rewrite Ee; lia|by rewrite Ee|].
  exists s'. split; [done|]. split; [done|]. intros k Hkl. by rewrite Hk', Hk.
Qed.

(** ** The generation number *)

Lemma gen_digits_spec k : ∀ gen ds, 0 ≤ gen → Forall short_char ds →
  Forall short_char (fst (gen_digits k gen ds)) ∧ (length ds ≤ length (fst (gen_digits k gen ds)) ≤ length ds + k)%nat ∧
  (0 < gen → (0 < k)%nat → (length ds < length (fst (gen_digits k gen ds)))%nat).
Proof.
  induction k as [|k IH]; intros gen ds Hg Hds; cbn [gen_digits]; [cbn; split_and!; try lia; done|].
  case_test; bool_prop; [cbn; split_and!; try lia; done|].
  assert (Hd : 0 ≤ gen / 10 ∧ 0 ≤ gen mod 10 < 10) by (Z.div_mod_to_equations; lia).
  destruct (IH (gen / 10) (gen mod 10 + 48 :: ds)) as (H1 & H2 & H3); [lia| |cbn [length] in *; split_and!; [done|lia..]].
  apply Forall_cons. split; [|done]. revert Hd. generalize (gen mod 10). clear. intros x [_ Hx]. split; [lia|]. split; [|lia].
  rewrite !not_elem_of_cons. split_and!; try lia. apply not_elem_of_nil.
Qed.

Lemma last_char_spec k : ∀ dn i, dos_array dn → dn !! 0%nat ≠ Some 32 → (Z.to_nat i ≤ k)%nat → 0 < i ≤ 8 →
  ∃ j, last_char k dn i = Ok j ∧ 0 ≤ j < i.
Proof.
  induction k as [|k IH]; intros dn i Hdn H0 Hk Hi; [lia|]. cbn [last_char].
  destruct (dos_array_lookup dn (i - 1) Hdn ltac:(lia)) as (c & Hc & ->). cbn [obind]. case_test; bool_prop; [|exists (i - 1); split; [done|lia]].
  destruct (decide (i = 1)) as [->|]; [exfalso; apply H0; subst c; exact Hc|]. destruct (IH dn (i - 1) Hdn H0) as (j & -> & Hj); [lia..|].
  exists j. split; [done|lia].
Qed.

Lemma store_typed w : ∀ dn i, dos_array dn → Forall (λ c, c = 32 ∨ short_char c) w → 1 ≤ i → i + Z.of_nat (length w) ≤ 11 →
  ∃ dn', store w dn i = Ok (dn', i + Z.of_nat (length w)) ∧ dos_array dn' ∧ dn' !! 0%nat = dn !! 0%nat.
Proof.
  induction w as [|c w IH]; intros dn i Hdn Hw Hi Hl; cbn [length store] in *; [exists dn; by rewrite Z.add_0_r|].
  apply Forall_cons in Hw as [Hc Hw]. destruct (dos_array_set dn i c Hdn ltac:(lia) Hc) as (d & -> & Hd & _ & Hk). cbn [obind].
  destruct (IH d (i + 1) Hd Hw) as (dn' & -> & Hdn' & E0); [lia..|]. exists dn'. split; [do 2 f_equal; lia|]. split; [done|].
  rewrite E0. apply Hk. lia.
Qed.

Lemma finish_dosfn_typed conv dn : dos_array dn → ∃ dn', finish_dosfn conv dn = Ok (conv, dn') ∧ dos_slot dn' ∧
  (dn !! 0%nat ≠ Some 32 → dn' !! 0%nat ≠ Some 32).
Proof.
  intros Hdn. unfold finish_dosfn. destruct (dos_array_lookup dn 0 Hdn ltac:(lia)) as (c & Hc & ->). cbn [obind]. change (Z.to_nat 0) with 0%nat in Hc.
  destruct Hdn as [Hl He Hch]. case_test; bool_prop.
  - rewrite (proj2 (aset_Ok _ _ _ _)) by (split; [lia|reflexivity]). cbn [obind]. change (Z.to_nat 0) with 0%nat. eexists. split; [done|].
    rewrite list_lookup_insert_eq by lia. split; [split|done].
    + by rewrite length_insert.
    + by rewrite list_lookup_insert_ne.
    + rewrite list_lookup_insert_eq by lia. exists SLOT_E5. split; [done|]. split; [done|]. right. by left.
    + intros k d Hk. rewrite list_lookup_insert_ne by lia. apply Hch. lia.
  - exists dn. cbn [obind]. split; [done|]. split; [|done]. split; try done.
    + exists c. split; [done|]. split; [done|]. destruct (Hch 0%nat c) as [?|?]; [lia|done|by left|by right; right].
    + intros k d Hk. apply Hch. lia.
Qed.

Lemma insert_gen_typed dn unlen gen : dos_array dn → dn !! 0%nat ≠ Some 32 → 0 < unlen → 0 < gen →
  ∃ r dn', insert_gen dn unlen gen pmp = Ok (r, dn') ∧ (r = 0 ∨ r = 3) ∧ dos_slot dn' ∧ dn' !! 0%nat ≠ Some 32.
Proof.
  intros Hdn H0 Hun Hg. unfold insert_gen. pose proof (gen_digits_spec 6 gen [] ltac:(lia) ltac:(done)) as Hds.
  destruct (gen_digits 6 gen []) as [ds rest]. cbn [fst length] in Hds. destruct Hds as (Hds & Hlen & Hpos). specialize (Hpos Hg ltac:(lia)).
  case_test; bool_prop.
  { destruct (finish_dosfn_typed 0 dn Hdn) as (dn' & -> & H1 & H2). exists 0, dn'. split; [done|]. split; [by left|]. split; [done|by apply H2]. }
  destruct (last_char_spec 9 dn 8 Hdn H0) as (j & -> & Hj); [lia..|]. cbn [obind].
  set (n := Z.of_nat (length ds) + 1). set (i := if n >? 8 - (j + 1) then 8 - n else j + 1).
  assert (Hi : 1 ≤ i ≤ 8 - n) by (unfold i, n; case_test; bool_prop; lia). clearbody i.
  unfold mbsadjpos. rewrite plain. cbn [snd]. set (i' := i - (i - Z.min i unlen)). assert (Hi' : 1 ≤ i' ≤ i) by (unfold i'; lia). clearbody i'.
  destruct (store_typed (126 :: ds) dn i') as (d1 & -> & Hd1 & E1); [done| |lia|cbn [length]; lia|].
  { apply Forall_cons. split; [right; by_decide|]. eapply Forall_impl; [done|by right]. }
  cbn [obind]. destruct (store_typed (replicate (Z.to_nat (8 - (i' + Z.of_nat (length (126 :: ds))))) 32) d1 (i' + Z.of_nat (length (126 :: ds))))
    as (d2 & -> & Hd2 & E2); [done|apply Forall_replicate; by left|lia|rewrite length_replicate; cbn [length]; lia|].
  cbn [obind]. destruct (finish_dosfn_typed 3 d2 Hd2) as (dn' & -> & H1 & H2). exists 3, dn'. split; [done|]. split; [by right|].
  split; [done|]. apply H2. by rewrite E2, E1.
Qed.

(** ** The whole name *)

Lemma convert_ext_typed un unlen : bytes un → 0 < unlen ≤ Z.of_nat (length un) →
  (∀ i c, 0 ≤ i < unlen → un !! Z.to_nat i = Some c → dos_char c ≠ 0) →
  (∃ i c, (i < Z.to_nat unlen)%nat ∧ un !! i = Some c ∧ ¬ skipped c) →
  ∃ dp dn conv, convert_ext un unlen dn0 pmp = Ok (dp, dn, conv) ∧ 1 ≤ dp ≤ unlen ∧ dos_array dn ∧ 1 ≤ conv ≤ 3 ∧
    dn !! 0%nat = Some 32.
Proof.
  intros Hb Hun Hall (i0 & c0 & Hi0 & Hc0 & Hn0). unfold convert_ext.
  destruct (find_ext_total (Z.to_nat (unlen - 1)) un 1 None None) as ([e e1] & He); [lia..|]. rewrite He. cbn [obind].
  apply find_ext_spec in He; [|lia|by split]. replace (1 + Z.of_nat (Z.to_nat (unlen - 1))) with unlen in He by lia.
  destruct He as [H1 H2]. cbn [fst snd] in *. destruct e as [e|].
  - destruct (H1 e eq_refl) as [[He2 _] Heu]. set (l := match e1 with Some dp1 => dp1 - e | None => unlen - e end).
    assert (Hl : 0 < l ≤ unlen - e).
    { unfold l. destruct e1 as [q|]; [|lia]. destruct (H2 q eq_refl) as (_ & ? & Hq). specialize (Hq e eq_refl). lia. }
    clearbody l. destruct (conv_loop_typed (Z.to_nat unlen) None 8 11 un (Conv e l 8 dn0 1) Hb) as (s & -> & Hs & Hk);
      cbn [cp ci cj cdn] in *; try lia.
    { split; cbn [cp cj cdn cconv]; try lia. apply dos_array0. }
    { intros i c Hi. apply Hall. lia. }
    cbn [obind]. exists (e - 1), (cdn s), (if ci s >? 0 then 3 else cconv s). split; [done|]. split; [lia|]. split; [apply Hs|].
    split; [case_test; [lia|apply Hs]|]. by rewrite Hk by lia.
  - destruct (trim_back_total (S (Z.to_nat unlen)) un unlen i0 c0) as (t & Ht); [lia..|done|done|]. rewrite Ht. cbn [obind].
    apply trim_back_spec in Ht as (Ht & _). exists t, dn0, 1. split; [done|]. split; [lia|]. split; [apply dos_array0|]. by split.
Qed.

Lemma convert_base_typed un unlen gen dp dn conv : bytes un → 0 < unlen ≤ Z.of_nat (length un) → 0 ≤ gen → 1 ≤ dp ≤ unlen →
  (∀ i c, 0 ≤ i < unlen → un !! Z.to_nat i = Some c → dos_char c ≠ 0) → dos_array dn → 1 ≤ conv ≤ 3 →
  ∃ r dn', convert_base un unlen gen dp dn conv pmp = Ok (r, dn') ∧ 0 ≤ r ≤ 3 ∧ (1 < gen → r = 0 ∨ r = 3) ∧
    dos_slot dn' ∧ dn' !! 0%nat ≠ Some 32.
Proof.
  intros Hb Hun Hg Hdp Hall Hdn Hconv. unfold convert_base.
  destruct (conv_loop_typed (Z.to_nat unlen) (Some dp) 0 8 un (Conv 0 dp 0 dn conv) Hb) as (s & -> & Hs & _);
    cbn [cp ci cj cdn] in *; try lia.
  { split; cbn [cp cj cdn cconv]; (done || lia). }
  { intros i c Hi. apply Hall. lia. }
  cbn [obind]. destruct Hs as [_ Hj Hda Hcv Hfirst]. change (Z.to_nat 0) with 0%nat in Hfirst.
  assert (Hdef : ∃ d, (if cj s =? 0 then aset (cdn s) 0 95 else Ok (cdn s)) = Ok d ∧ dos_array d ∧ d !! 0%nat ≠ Some 32).
  { case_test; bool_prop; [|exists (cdn s); split; [done|]; split; [done|]; apply Hfirst; lia].
    destruct (dos_array_set (cdn s) 0 95 Hda) as (d & -> & Hd & E0 & _); [lia|right; by_decide|]. exists d. split; [done|]. split; [done|].
    change (Z.to_nat 0) with 0%nat in E0. by rewrite E0. }
  destruct Hdef as (d & -> & Hd & Hd0). cbn [obind]. set (cv := if cp s <? dp then 3 else cconv s).
  assert (Hcv' : 1 ≤ cv ≤ 3) by (unfold cv; case_test; [lia|done]). clearbody cv. case_test; bool_prop; [|case_test; bool_prop].
  - destruct (finish_dosfn_typed (if gen >? 1 then 0 else cv) d Hd) as (dn' & -> & H1 & H2). eexists _, _. split; [done|].
    split; [case_test; lia|]. split; [|split; [done|by apply H2]]. intros Hg1. case_test; bool_prop; [by left|lia].
  - destruct (finish_dosfn_typed cv d Hd) as (dn' & -> & H1 & H2). eexists _, _. split; [done|]. split; [lia|]. split; [lia|].
    split; [done|by apply H2].
  - destruct (insert_gen_typed d unlen gen Hd Hd0) as (r & dn' & -> & Hr & H1 & H2); [lia..|]. eexists _, _. split; [done|].
    split; [lia|]. split; [done|]. by split.
Qed.

End plain.

(** The short names of the directory itself and of its parent. *)
Definition dot_name (k : nat) : list Z := replicate k 46 ++ replicate (11 - k) 32 ++ [0].

(** C27: on a mount without character set conversion, whatever the bytes of a
    name and the generation number are, [unix2dosfn] comes to an end without leaving its arrays, answers 0 to 3,
    and (the two directory names apart) stores eleven bytes the format allows:
    no lower case, no special characters, and a first byte that neither marks
    the slot as deleted nor, if the name is accepted, is a blank.  With a
    generation number above 1 it either fails or inserts the number. *)
Theorem unix2dosfn_typed pmp un unlen gen : kiconv pmp = None → bytes un → 0 < unlen < Z.of_nat (length un) → 0 ≤ gen →
  ∃ r dn, unix2dosfn un unlen gen pmp = Ok (r, dn) ∧ 0 ≤ r ≤ 3 ∧ (1 < gen → r = 0 ∨ r = 3) ∧
    (dos_slot dn ∧ (r ≠ 0 → dn !! 0%nat ≠ Some 32) ∨
     ∃ k, (k = 1 ∨ k = 2)%nat ∧ unlen = Z.of_nat k ∧ take k un = replicate k 46 ∧ dn = dot_name k).
Proof.
  intros Hp Hb Hun Hg. unfold unix2dosfn. fold dn0. destruct un as [|x [|y un]]; cbn [length] in Hun; [lia..|].
  rewrite aget_cons. cbn [obind]. case_test.
  { apply andb_true_iff in E as [E1 E2]. bool_prop. subst. exists (if gen <=? 1 then 1 else 0). eexists. split; [reflexivity|].
    split; [case_test; lia|]. split; [intros ?; case_test; bool_prop; lia|]. right. exists 1%nat. split_and!; try done. by left. }
  assert (Hu1 : ∃ u1, (if x =? 46 then aget (x :: y :: un) 1 else Ok 0) = Ok u1 ∧ (x = 46 → u1 = y)).
  { case_test; bool_prop; [by exists y|by exists 0]. }
  destruct Hu1 as (u1 & -> & Hu1). cbn [obind]. case_test.
  { apply andb_true_iff in E0 as [E0 E2]. apply andb_true_iff in E0 as [E0 E1]. bool_prop. specialize (Hu1 E0). subst.
    exists (if gen <=? 1 then 1 else 0). eexists. split; [reflexivity|].
    split; [case_test; lia|]. split; [intros ?; case_test; bool_prop; lia|]. right. exists 2%nat. split_and!; try done. by right. }
  clear Hu1 E E0. set (u := x :: y :: un) in *. assert (Hul : 0 < unlen < Z.of_nat (length u)) by (cbn; lia). clearbody u.
  assert (Hslot0 : dos_slot dn0) by (destruct (finish_dosfn_typed 0 dn0 dos_array0) as (d & Ed & Hd & _); injection Ed as <-; done).
  destruct (has_char_spec (Z.to_nat unlen) u) as (b & -> & Hsome); [lia|]. cbn [obind].
  destruct b; cbn [negb]; [|exists 0, dn0; split; [done|]; split; [lia|]; split; [by left|]; by left].
  destruct (all_allowed_spec pmp Hp (Z.to_nat unlen) u unlen Hb) as (b & -> & Hall); [lia..|]. cbn [obind].
  destruct b; cbn [negb]; [|exists 0, dn0; split; [done|]; split; [lia|]; split; [by left|]; by left].
  specialize (Hsome eq_refl). specialize (Hall eq_refl).
  assert (Hall' : ∀ i c, 0 ≤ i < unlen → u !! Z.to_nat i = Some c → dos_char c ≠ 0) by (intros i c Hi; apply Hall; lia).
  destruct (convert_ext_typed pmp Hp u unlen Hb ltac:(lia) Hall' Hsome) as (dp & dn & conv & -> & Hdp & Hdn & Hcv & _). cbn [obind].
  destruct (convert_base_typed pmp Hp u unlen gen dp dn conv Hb ltac:(lia) Hg Hdp Hall' Hdn Hcv) as (r & dn' & -> & Hr & Hgr & Hs & H0).
  exists r, dn'. split; [done|]. split; [done|]. split; [done|]. left. by split.
Qed.

(** "readme.markdown" with generation number 12: "README~12.MAR" cut to eight
    characters, "READM~12MAR". *)
Lemma unix2dosfn_typed_witness :
  let un := [114; 101; 97; 100; 109; 101; 46; 109; 97; 114; 107; 100; 111; 119; 110; 0] in
  unix2dosfn un 15 12 (Mount 0 None) = Ok (3, [82; 69; 65; 68; 77; 126; 49; 50; 77; 65; 82; 0]) ∧
  ∃ r dn, unix2dosfn un 15 12 (Mount 0 None) = Ok (r, dn) ∧ 0 ≤ r ≤ 3 ∧ (1 < 12 → r = 0 ∨ r = 3) ∧
    (dos_slot dn ∧ (r ≠ 0 → dn !! 0%nat ≠ Some 32) ∨
     ∃ k, (k = 1 ∨ k = 2)%nat ∧ 15 = Z.of_nat k ∧ take k un = replicate k 46 ∧ dn = dot_name k).
Proof.
  split; [reflexivity|].
  apply (unix2dosfn_typed (Mount 0 None) [114; 101; 97; 100; 109; 101; 46; 109; 97; 114; 107; 100; 111; 119; 110; 0] 15 12);
    [reflexivity|by_decide|by_decide|lia].
Defined.

End MsdosType.
